(* ===== verification/_CoqProject ===== *)
-Q . S2P
Prelude.v
GoStrings.v
Streaming.v
Money.v
Admission.v
Redis.v
Concurrency.v
Models.v
Providers.v
RateLimit.v
Breaker.v
Limits.v
Router.v
Registry.v
Calendar.v
Ledger.v
Budget.v
Accounting.v
Logger.v
LoginThrottle.v
Gateway.v
Guardrails.v
Json.v
Wire.v
Cache.v
GuardEnvelope.v
GuardRuntime.v
Sse.v
StreamLife.v
StreamProxy.v
ClientIp.v
Identity.v
Auth.v
Accounts.v
Customers.v
ControlPlane.v
Handlers.v
Chat.v
Native.v
Responses.v
ResponsesApi.v
ResponsesResources.v
Passthrough.v
Callbacks.v
Alerts.v
Catalog.v
Config.v
Lifecycle.v
Middleware.v
Adapters.v
GuardAdmin.v
