(* ===== verification/Prelude.v ===== *)
(** * GateMux: a verification library

    GateMux is a gateway in front of language-model providers. A request is
    authenticated, matched against the models its team and key may use, held
    to rate limits, budgets and concurrency caps, routed to one of the
    deployments behind a model alias with fallback to the others, and accounted
    for exactly once. This library models the parts that decide and count, as
    executable definitions named after the Go functions they translate, and
    proves what the gateway relies on. All paths below are under
    [src/internal/].

    ** Conventions

    A Go function that returns [(value, error)] returns a [result]; a panic or
    a failed SQL statement is [None] or an error of its own. Stateful code takes
    its state as an argument and returns the new one. [int] and [int64] are
    integers kept at 64 bits by [wrap64] wherever the code computes with values
    it has not bounded. Instants are nanoseconds since year 1. Clocks, the ends
    of network calls, commits whose reply is lost and other outside events are
    arguments, so that the theorems range over all of them. Goroutines and
    replicas are step relations whose runs interleave their atomic steps.

    ** Files

    - [Prelude] (this file): results and their monad, machine integers, time,
      counting, tactics and the hint database [go].
    - [GoStrings]: the functions of Go's [strings] package that are used.
    - [Money]: micro-cents, pricing tiers, exact costs and the estimate
      ([store/microcents.go], [store/pricing_tiers.go], [budget/token_cost.go],
      [providers/usage.go]). Costs are exact and never wrap, and the estimate
      covers every usage it is reserved for.
    - [Admission]: the bounded gate and the counters ([admission/gate.go]), as
      program counters over channels and atomics. The bounds hold in every
      interleaving and giving back never blocks.
    - [Redis]: the commands the Lua scripts use, as classes with laws, their
      interpretation on finite maps, and the doubles a script computes with. The
      scripts are proved against the classes.
    - [Concurrency]: distributed leases ([concurrency/limiter.go]).
    - [Models]: teams, keys, users, customers and allowlists
      ([store/models.go], [store/policy.go], [api/effective_policy.go]).
    - [Providers]: capabilities, output bounds and error classes
      ([providers/provider.go], [providers/errors.go]).
    - [RateLimit]: the fixed-window limiter on both backends ([ratelimit]). A
      window keeps its limit unless checks of the next minute overtake it, and
      the backends agree up to the last millisecond of a window.
    - [Breaker]: the circuit breaker and its shared store
      ([router/router.go], [router/breaker_redis.go]), refining a specification
      on histories of outcomes: exactly without the shared store, as a lower
      bound with it.
    - [Limits]: deployment counters across refreshes, with the sharing by
      pointer ([router/router.go]).
    - [Router]: strategies and resolution ([router/router.go]).
    - [Registry]: refresh, policies and health ([router/router.go],
      [router/concurrency.go]), and a registry to evaluate.
    - [Calendar]: UTC days and months as day numbers.
    - [Ledger]: the tables of budgets and usage with the triggers that keep the
      daily totals ([store/migrations]). The totals count each request once.
    - [Budget]: admission, settlement and summaries ([budget/service.go]). A
      grant is covered, a refusal is justified, and a team passes its limit by
      no more than what admissions across the end of a window bring.
    - [Accounting]: the journal, finalization and recovery
      ([store/accounting.go]). Each request is recorded once, at the amount its
      reservation is settled at; retries return the same receipt; recovery
      completes for entries that are not weeks old and never refunds a started
      billable call.
    - [Logger]: readiness after failed completions ([usage/logger.go]).
    - [LoginThrottle]: login attempts on both backends
      ([server/login_throttle.go]).
    - [Gateway]: permits, leases and fallback of routed calls ([api/v1.go],
      [api/routing_concurrency.go]), composed from the files above. Calls end
      and leak nothing.
    - [Guardrails]: literal text policies on streams
      ([guardrails/guardrails.go]).
    - [Json]: JSON values with the member order and duplicates of a text, and
      the maps Go decodes them to.
    - [Wire]: the decoders and encoders of requests, messages, responses, usage
      and embedding inputs ([providers/provider.go],
      [providers/embedding_input.go], [providers/responses.go]). What is
      forwarded is what the client sent.
    - [Cache]: the response cache ([cache/cache.go]). A hit is a response to the
      same request, its numbers read as floats, unless two texts share a digest.
    - [GuardEnvelope]: guardrails on request and response envelopes
      ([guardrails/guardrails.go]). Nothing passes uninspected, up to the
      findings stated there.
    - [GuardRuntime]: loading policies, audits and failures
      ([api/guardrail_runtime.go]).
    - [Sse]: the event-stream parser over chunked reads ([api/sse.go]), which
      gives the same events however the body is cut.
    - [StreamLife]: deadlines and timers of a stream ([api/stream_lifetime.go],
      [config/streaming.go]), refining a stopwatch.
    - [StreamProxy]: the loop between upstream and client ([api/stream.go],
      [api/stream_keepalive.go], [api/stream_writer.go]).
    - [ClientIp]: client addresses and allowlists ([auth/clientip.go],
      [auth/ip.go]).
    - [Identity]: the tables of keys, users, sessions, invites and resets and
      the statements that change them ([store/keys.go], [store/users.go],
      [store/sessions.go], [store/invites.go], [store/password_resets.go]).
    - [Auth]: bearer keys, signed tokens, sessions and roles
      ([auth/middleware.go], [auth/jwt.go], [api/auth.go]).
    - [Accounts]: histories of sign-ins, invites, resets and disabling
      ([api/invite.go], [api/password_reset.go], [api/oidc.go], [api/me.go]).
    - [Customers]: registration and admission of customers
      ([store/customers.go], [api/customer_admission.go]).
    - [ControlPlane]: the administration endpoints that change teams, keys,
      users, service accounts and customers, behind the role checks of the
      routes ([api/admin.go], [api/service_accounts.go], [api/customers.go],
      [server/server.go]).
    - [Handlers]: the admission stages every endpoint goes through, the record
      of usage, and the embeddings endpoint ([api/v1.go], [api/accounting.go],
      [api/routing_concurrency.go]), composed from [Customers], [GuardRuntime],
      [Budget], [Accounting], [Logger] and [Gateway].
    - [Chat]: the chat endpoint from its body to its answer or the end of its
      stream ([api/v1.go]), composed from [Handlers] and from [Wire],
      [GuardRuntime], [Customers], [Cache], [Gateway] and [StreamProxy]. The
      database calls of a request are a history of the accounting, its entry
      is completed or the replica is unready, it gives back what it took, and
      a provider sees only what the policies passed.

    - [Streaming]: the settings of a stream ([config/streaming.go]).
    - [Native]: forwarding a native answer, event by event or in blocks
      ([api/proxy_response.go]). What the client gets is what the upstream sent.
    - [Responses]: the contract of Responses requests and answers and the table
      of stored responses ([api/responses_contract.go], [store/responses.go]).
    - [ResponsesApi]: creating a response, in one piece or streamed
      ([api/responses.go], [api/responses_stream.go]). It is recorded, it is
      stored before the client sees it, and it is continued by its owner alone,
      up to the finding on member names that differ in case.
    - [ResponsesResources]: reading, cancelling and deleting a stored response
      ([api/responses_resources.go]).
    - [Passthrough]: the native endpoints, uploads and named passthroughs
      ([api/passthrough.go], [api/audio.go], [api/passthrough_generic.go],
      [store/passthroughs.go]). They are recorded, and a client's credentials do
      not flow to an upstream.
    - [Callbacks]: the event bus, its workers and the sinks
      ([callbacks/callbacks.go], [callbacks/sinks.go]). No event is unaccounted
      for, in every interleaving.
    - [Alerts]: rules, triggers and notices ([alerts/evaluator.go],
      [store/alerts.go], [api/alerts.go]), evaluated by any number of processes
      whose database operations interleave, with the exact text of amounts.
    - [Catalog]: deployments, aliases and prices in the store and behind the
      administration ([store/deployments.go], [store/aliases.go],
      [api/admin.go]), and the registry they are loaded into.
    - [Config]: defaults, checks and loading of a configuration, and the start
      with it ([config/config.go], [config/env.go], [server/server.go]).
    - [Lifecycle]: requests, drain, start and shutdown as program counters over
      their mutexes and channels ([server/lifecycle.go], [server/server.go]).
    - [Middleware]: the chain of the data plane over the counters it moves and the
      leases in Redis, and the route table with its middlewares
      ([server/server.go]).
    - [Adapters]: the requests, answers and streams of the native providers
      ([providers/anthropic], [providers/gemini] and the others). The streams of three of them end with [DONE] only when the
      provider finished; the fourth is a finding.
    - [GuardAdmin]: reading, replacing and trying out guardrail policies
      ([api/guardrails.go], [store/guardrail_policy.go]). A dry run agrees with
      the filter, and what is saved is enforced.

    ** Bounds and fuel

    The fallback loops of [Gateway] take fuel; one unit more than the alias has
    targets is enough, because each attempt tries a new deployment
    ([fallback_terminates]); so do those of [ResponsesApi] and [Passthrough]
    ([response_loop_fuel], [capability_loop_fuel]); the theorems of [Handlers],
    [Chat] and of the other endpoints hold for any fuel. A stream is run over the
    list of its turns, lines or events, and a theorem about its end says that it
    has ended. The scans of [Guardrails] and [Sse] take the length of the text
    that is left, because a match or a line is never empty. An address has at most
    eight groups, which bounds the parser of [ClientIp]; an amount at most nineteen
    digits, which bounds the printer of [Alerts]. A shutdown takes at most sixteen
    steps and one for each worker ([shutdown_ends]). All other recursion is
    structural.

    ** Assumptions

    Redis executes a script atomically and its commands do what the classes of
    [Redis] say. The database executes a transaction atomically; its advisory
    and row locks make the transactions on one scope or request follow each
    other. Parameters are: the digests of keys, cache bodies and login
    identities, password hashes, the check of a token's signature and the
    answers of an identity provider; Unicode case folding; the text of JSON
    and YAML values, their sizes and floating-point literals; what a [jsonb]
    column keeps of a value; the typed values of the AWS SDK; and the existence of rows in tables outside the ledger.

    ** Not modelled

    The HTTP connection and its transports, which are the outcomes of reads and
    writes; read-only reports, exports and directory listings, SQL that aggregates
    rows the library already counts; migrations and pruning by age; telemetry, which
    only observes; the replay of a stored request, which is the chat endpoint on a
    stored body; the load tester and the web console, which are not part of the
    gateway. *)

From Stdlib Require Export ZArith Lia.
From stdpp Require Export base gmap strings list pretty option sorting.

#[export] Set Default Goal Selector "!".
#[global] Open Scope Z_scope.

(** ** Results: the Go [(value, error)] convention *)

(** A fallible Go function returns either a value or an error; the pair
    [(zero, err)] of the source is [Err err]. *)
Inductive result (E A : Type) : Type :=
| Ok (a : A)
| Err (e : E).
Arguments Ok {E A} a.
Arguments Err {E A} e.

#[export] Instance result_ret {E} : MRet (result E) := fun A a => Ok a.
#[export] Instance result_bind {E} : MBind (result E) := fun A B f m =>
  match m with Ok a => f a | Err e => Err e end.
#[export] Instance result_fmap {E} : FMap (result E) := fun A B f m =>
  match m with Ok a => Ok (f a) | Err e => Err e end.

(** [if cond { return err }] as a statement of the error monad. *)
Definition fail_if {E} (cond : bool) (e : E) : result E unit :=
  if cond then Err e else Ok tt.

Definition is_ok {E A} (r : result E A) : bool :=
  match r with Ok _ => true | Err _ => false end.

Lemma bind_Ok_inv {E A B} (f : A -> result E B) (m : result E A) b :
  m ≫= f = Ok b -> exists a, m = Ok a /\ f a = Ok b.
Proof. destruct m; simpl; [eauto | discriminate]. Qed.

Lemma fail_if_Ok_inv {E} c (e : E) u : fail_if c e = Ok u -> c = false.
Proof. destruct c; simpl; congruence. Qed.

Lemma fail_if_false {E} c (e : E) : c = false -> fail_if c e = Ok tt.
Proof. by intros ->. Qed.

(** ** Machine integers

    [int] and [int64] are 64-bit two's complement: arithmetic wraps. *)

Definition MaxInt64 : Z := 9223372036854775807.
Definition MinInt64 : Z := -9223372036854775808.

(** Two's complement wrap-around of a mathematical integer. *)
Definition wrap64 (z : Z) : Z := (z + 2 ^ 63) mod 2 ^ 64 - 2 ^ 63.

(** The value is representable as an [int64]. *)
Definition int64_ok (z : Z) : Prop := MinInt64 <= z <= MaxInt64.
Definition int64_okb (z : Z) : bool := (MinInt64 <=? z) && (z <=? MaxInt64).

Declare Scope go_scope.
Delimit Scope go_scope with go.
Notation "a +w b" := (wrap64 (a + b)) (at level 50, left associativity) : go_scope.
Notation "a -w b" := (wrap64 (a - b)) (at level 50, left associativity) : go_scope.
Notation "a *w b" := (wrap64 (a * b)) (at level 40, left associativity) : go_scope.
(** Go's integer division and remainder truncate toward zero. *)
Notation "a /g b" := (Z.quot a b) (at level 40, left associativity) : go_scope.
Notation "a %g b" := (Z.rem a b) (at level 40, left associativity) : go_scope.
#[global] Open Scope go_scope.

Lemma wrap64_id z : int64_ok z -> wrap64 z = z.
Proof.
  unfold int64_ok, wrap64, MinInt64, MaxInt64. intros H.
  rewrite Z.mod_small; lia.
Qed.

Lemma wrap64_ok z : int64_ok (wrap64 z).
Proof.
  unfold int64_ok, wrap64, MinInt64, MaxInt64.
  pose proof (Z.mod_pos_bound (z + 2 ^ 63) (2 ^ 64)). lia.
Qed.

Lemma int64_okb_spec z : int64_okb z = true <-> int64_ok z.
Proof. unfold int64_okb, int64_ok. lia. Qed.

(** Saturation at the ends of the [int64] range. *)
Definition clamp64 (z : Z) : Z := Z.max MinInt64 (Z.min MaxInt64 z).

Lemma clamp64_ok z : int64_ok (clamp64 z).
Proof. unfold clamp64, int64_ok, MinInt64, MaxInt64. lia. Qed.

Lemma clamp64_id z : int64_ok z -> clamp64 z = z.
Proof. unfold clamp64, int64_ok. lia. Qed.

(** ** Time

    [time.Time] is modelled by the nanoseconds since January 1 of year 1 UTC,
    which is Go's zero time: [IsZero] is a test against 0, and [Truncate]
    rounds down to a multiple of the duration since that instant, as the
    package documents. A [time.Duration] is an [int64] count of nanoseconds. *)

Definition Nanosecond : Z := 1.
Definition Millisecond : Z := 1000000.
Definition Second : Z := 1000000000.
Definition Minute : Z := 60 * Second.
Definition Hour : Z := 60 * Minute.

(** Seconds from year 1 to the Unix epoch. *)
Definition unix_epoch : Z := 62135596800.

Definition IsZero (t : Z) : bool := t =? 0.
Definition After (t u : Z) : bool := u <? t.
Definition Before (t u : Z) : bool := t <? u.
(** [t.Sub(u)] saturates at the bounds of a [Duration]. *)
Definition Sub (t u : Z) : Z := clamp64 (t - u).
Definition Truncate (t d : Z) : Z := if d <=? 0 then t else t - t mod d.
Definition Unix (t : Z) : Z := t / Second - unix_epoch.
Definition Milliseconds (d : Z) : Z := d /g Millisecond.

Lemma Truncate_le t d : 0 < d -> Truncate t d <= t < Truncate t d + d.
Proof.
  unfold Truncate. intros Hd. destruct (Z.leb_spec d 0); [lia |].
  pose proof (Z.mod_pos_bound t d Hd). lia.
Qed.

(** Two instants of one window truncate to the same start. *)
Lemma Truncate_same t u d :
  0 < d -> Truncate t d <= u < Truncate t d + d -> Truncate u d = Truncate t d.
Proof.
  unfold Truncate. intros Hd Hu. destruct (Z.leb_spec d 0); [lia |].
  pose proof (Z.div_mod t d ltac:(lia)) as Ht.
  replace (t - t mod d) with (d * (t / d)) in * by lia.
  rewrite Z.mod_eq by lia.
  assert (u / d = t / d) as ->; [| lia].
  symmetry. apply Z.div_unique_pos with (u - d * (t / d)); lia.
Qed.

(** ** Pointers to optional integers

    A nullable column [*int64] is an [option Z]. *)

(** [p != nil && *p > 0] *)
Definition ptr_pos (p : option Z) : bool :=
  match p with Some v => 0 <? v | None => false end.

(** [*p], the zero value when the code has not tested [p]. *)
Definition deref (p : option Z) : Z := default 0 p.

Lemma ptr_pos_Some p : ptr_pos p = true -> exists v, p = Some v /\ 0 < v.
Proof. destruct p as [v|]; simpl; [| discriminate]. intros. exists v. split; [done | lia]. Qed.

(** ** Tactics *)

(** Split an equation [m ≫= f = Ok b] of the error monad into its steps. *)
Ltac bind_inv :=
  repeat match goal with
  | H : mbind _ _ = Ok _ |- _ =>
      let x := fresh "r" in let Hx := fresh "Hr" in
      apply bind_Ok_inv in H as (x & Hx & H)
  | H : fail_if _ _ = Ok _ |- _ => apply fail_if_Ok_inv in H
  end.

(** Case split on every boolean test of a Go condition. *)
Ltac go_cases :=
  repeat (simplify_eq/=; try case_match; try discriminate).

(** Close arithmetic goals about machine integers. *)
Ltac int64_lia := unfold int64_ok, MinInt64, MaxInt64 in *; lia.

(** Prove [Ok v = Ok r <-> P] or [Err e = Ok r <-> P] where [P] is arithmetic. *)
Ltac ok_iff :=
  split;
  [ try discriminate; intros [=]; subst; lia
  | intros; try (exfalso; lia); repeat f_equal; lia ].

(** ** Hint databases *)

Create HintDb go discriminated.
#[export] Hint Resolve wrap64_ok clamp64_ok wrap64_id clamp64_id : go.

(** ** Lists *)

(** The sum of a list of integers. *)
Definition sumZ (l : list Z) : Z := foldr Z.add 0 l.

Lemma sumZ_app l k : sumZ (l ++ k) = sumZ l + sumZ k.
Proof. induction l; simpl; lia. Qed.

Lemma sumZ_nonneg l : Forall (fun z => 0 <= z) l -> 0 <= sumZ l.
Proof. induction 1; simpl; lia. Qed.

Lemma sumZ_Permutation l k : l ≡ₚ k -> sumZ l = sumZ k.
Proof. induction 1; simpl; lia. Qed.

(** [l] has a positive length. *)
Lemma length_pos_lookup {A} (l : list A) i x : l !! i = Some x -> (i < length l)%nat.
Proof. apply lookup_lt_Some. Qed.

(** ** Counting

    The number of elements that satisfy a test, as an integer. *)
Definition countZ {A} (f : A -> bool) (l : list A) : Z :=
  sumZ (map (fun x => if f x then 1 else 0) l).

Lemma countZ_nonneg {A} (f : A -> bool) l : 0 <= countZ f l.
Proof. unfold countZ. induction l as [| x l IH]; simpl; [lia |]. destruct (f x); lia. Qed.

Lemma countZ_app {A} (f : A -> bool) l k : countZ f (l ++ k) = countZ f l + countZ f k.
Proof. unfold countZ. by rewrite map_app, sumZ_app. Qed.

Lemma countZ_insert {A} (f : A -> bool) l i x y :
  l !! i = Some x ->
  countZ f (<[i:=y]> l) =
  countZ f l - (if f x then 1 else 0) + (if f y then 1 else 0).
Proof.
  unfold countZ. revert i. induction l as [| z l IH]; intros [|i]; simpl; intros H;
    simplify_eq/=; [lia |]. rewrite (IH i H). lia.
Qed.

Lemma countZ_pos {A} (f : A -> bool) l i x : l !! i = Some x -> f x = true -> 0 < countZ f l.
Proof.
  unfold countZ. revert i. induction l as [| z l IH]; intros [|i]; simpl; intros H Hf;
    simplify_eq/=.
  - rewrite Hf. pose proof (countZ_nonneg f l). unfold countZ in *. lia.
  - specialize (IH i H Hf). destruct (f z); lia.
Qed.

Lemma countZ_mono {A} (f g : A -> bool) l :
  (forall x, f x = true -> g x = true) -> countZ f l <= countZ g l.
Proof.
  intros Hfg. unfold countZ. induction l as [| z l IH]; simpl; [lia |].
  destruct (f z) eqn:E; [rewrite (Hfg _ E); lia |]. destruct (g z); lia.
Qed.

Lemma countZ_orb {A} (f g : A -> bool) l :
  (forall x, f x = true -> g x = true -> False) ->
  countZ (fun x => f x || g x) l = countZ f l + countZ g l.
Proof.
  intros Hd. unfold countZ. induction l as [| z l IH]; simpl; [lia |].
  specialize (Hd z). destruct (f z), (g z); simpl; lia || (exfalso; auto).
Qed.

Lemma countZ_ext {A} (f g : A -> bool) l :
  (forall x, x ∈ l -> f x = g x) -> countZ f l = countZ g l.
Proof.
  intros Hfg. unfold countZ. f_equal. apply map_ext_in. intros x Hx%list_elem_of_In. by rewrite Hfg.
Qed.

Lemma countZ_const {A} (b : bool) (l : list A) :
  countZ (fun _ => b) l = if b then Z.of_nat (length l) else 0.
Proof. unfold countZ. induction l as [| x l IH]; simpl; destruct b; lia. Qed.

Lemma countZ_zero {A} (f : A -> bool) l :
  (forall i x, l !! i = Some x -> f x = false) -> countZ f l = 0.
Proof.
  intros Hf. rewrite (countZ_ext f (fun _ => false)); [apply countZ_const |].
  intros x [i Hi]%list_elem_of_lookup. eauto.
Qed.

(** Position by position, what is counted in one list is counted in the other. *)
Lemma countZ_lookup_le {A} (f : A -> bool) l k :
  (forall i x, l !! i = Some x -> f x = true -> exists y, k !! i = Some y /\ f y = true) -> countZ f l <= countZ f k.
Proof.
  revert k. induction l as [| x l IH]; intros k H; [apply countZ_nonneg |].
  assert (forall z r, countZ f (z :: r) = (if f z then 1 else 0) + countZ f r) as Hcons by done.
  destruct k as [| y k].
  - assert (countZ f (x :: l) = 0) as ->; [| done]. apply countZ_zero. intros i z Hz. apply not_true_is_false. intros Hf.
    by destruct (H i z Hz Hf) as (? & ? & _).
  - rewrite !Hcons. specialize (IH k ltac:(intros i z Hz; apply (H (S i) z Hz))).
    destruct (f x) eqn:E; [| destruct (f y); lia]. destruct (H 0%nat x eq_refl E) as (w & [= <-] & ->). lia.
Qed.

(** One element satisfies the test. *)
Lemma countZ_one {A} (f : A -> bool) l i x :
  l !! i = Some x -> f x = true -> (forall k y, l !! k = Some y -> f y = true -> k = i) -> countZ f l = 1.
Proof.
  intros Hi Hx Huniq. rewrite <- (take_drop_middle l i x Hi), countZ_app.
  assert (countZ f (take i l) = 0) as ->.
  { apply countZ_zero. intros k y [Hk Hlt]%lookup_take_Some. apply not_true_is_false. intros Hy.
    specialize (Huniq k y Hk Hy). lia. }
  change (x :: drop (S i) l) with ([x] ++ drop (S i) l). rewrite countZ_app.
  assert (countZ f (drop (S i) l) = 0) as ->.
  { apply countZ_zero. intros k y Hk. rewrite lookup_drop in Hk. apply not_true_is_false. intros Hy.
    specialize (Huniq _ y Hk Hy). lia. }
  unfold countZ. cbn. rewrite Hx. lia.
Qed.

Lemma take_le_length {A} n (l : list A) : (length (take n l) <= n)%nat.
Proof. rewrite length_take. lia. Qed.

Lemma countZ_map {A C} (f : C -> bool) (g : A -> C) l : countZ f (map g l) = countZ (fun x => f (g x)) l.
Proof. unfold countZ. by rewrite map_map. Qed.

(** Counting over one period does not depend on where the period starts. *)
Lemma countZ_rotate (f : Z -> bool) n T :
  0 <= n -> 0 < T -> countZ (fun i => f ((n + i) mod T)) (seqZ 0 T) = countZ f (seqZ 0 T).
Proof.
  intros Hn HT. revert n Hn. apply natlike_ind.
  - apply countZ_ext. intros x Hx%elem_of_seqZ. rewrite Z.add_0_l, Z.mod_small by lia. done.
  - intros n Hn IH. rewrite <- IH. clear IH. set (h := fun i => f ((n + i) mod T)).
    assert (countZ (fun i => f ((Z.succ n + i) mod T)) (seqZ 0 T) = countZ h (map (Z.add 1) (seqZ 0 T))) as ->.
    { rewrite countZ_map. apply countZ_ext. intros x _. unfold h. f_equal. f_equal. lia. }
    assert (h T = h 0) as Hper.
    { unfold h. rewrite Z.add_0_r. f_equal. rewrite <- (Z.mul_1_l T) at 1. apply Z_mod_plus_full. }
    change (map (Z.add 1) (seqZ 0 T)) with (Z.add 1 <$> seqZ 0 T).
    rewrite fmap_add_seqZ. replace (1 + 0) with 1 by lia.
    replace T with ((T - 1) + 1) at 1 by lia. rewrite seqZ_app by lia.
    replace (seqZ 0 T) with (seqZ 0 1 ++ seqZ 1 (T - 1)) by (rewrite <- seqZ_app by lia; f_equal; lia).
    rewrite !countZ_app. replace (1 + (T - 1)) with T by lia.
    assert (countZ h (seqZ T 1) = countZ h (seqZ 0 1)) as ->; [| lia].
    rewrite !(seqZ_cons _ 1) by lia. unfold countZ. cbn [map]. by rewrite Hper.
Qed.
