(* ===== verification/GoStrings.v ===== *)
(** * The parts of Go's [strings] package the gateway uses

    A Go string is a sequence of bytes, here a [string] of 8-bit characters.
    [ToLower] maps the ASCII letters; a caller for which other letters matter
    says so. [TrimSpace] removes every UTF-8 encoded code point with the
    Unicode White_Space property, as the package documents. *)

From S2P Require Import Prelude.
From Stdlib Require Import Ascii.

Definition lower_ascii (c : ascii) : ascii :=
  let n := N_of_ascii c in
  if ((65 <=? n) && (n <=? 90))%N then ascii_of_N (n + 32) else c.

Fixpoint ToLower (s : string) : string :=
  match s with
  | EmptyString => EmptyString
  | String c s => String (lower_ascii c) (ToLower s)
  end.

(** [s] without the prefix [p], when it has it. *)
Fixpoint strip_prefix (p s : string) : option string :=
  match p, s with
  | EmptyString, _ => Some s
  | String a p, String b s => if (a =? b)%char then strip_prefix p s else None
  | String _ _, EmptyString => None
  end.

Definition HasPrefix (s p : string) : bool :=
  match strip_prefix p s with Some _ => true | None => false end.

Definition TrimPrefix (s p : string) : string := default s (strip_prefix p s).

(** [strings.IndexByte(s, c)] as the text before the first [c], if any. *)
Fixpoint before_byte (c : ascii) (s : string) : option string :=
  match s with
  | EmptyString => None
  | String a s =>
      if (a =? c)%char then Some EmptyString
      else match before_byte c s with Some p => Some (String a p) | None => None end
  end.

(** [strings.Contains(s, string(c))] for one byte. *)
Definition contains_byte (c : ascii) (s : string) : bool :=
  match before_byte c s with Some _ => true | None => false end.

Definition byte (n : N) : ascii := ascii_of_N n.

Fixpoint string_of_bytes (l : list N) : string :=
  match l with [] => EmptyString | n :: l => String (byte n) (string_of_bytes l) end.

(** The UTF-8 encodings of the White_Space code points. *)
Definition spaces : list string :=
  (string_of_bytes <$>
   [[9]; [10]; [11]; [12]; [13]; [32]; [194; 133]; [194; 160]; [225; 154; 128];
    [226; 128; 128]; [226; 128; 129]; [226; 128; 130]; [226; 128; 131]; [226; 128; 132];
    [226; 128; 133]; [226; 128; 134]; [226; 128; 135]; [226; 128; 136]; [226; 128; 137];
    [226; 128; 138]; [226; 128; 168]; [226; 128; 169]; [226; 128; 175]; [226; 129; 159];
    [227; 128; 128]])%N.

(** The rest of [s] after a leading element of [ws]. *)
Fixpoint strip_any (ws : list string) (s : string) : option string :=
  match ws with
  | [] => None
  | w :: ws => match strip_prefix w s with Some r => Some r | None => strip_any ws s end
  end.

(** Remove leading elements of [ws]; each pass removes at least one byte. *)
Fixpoint trim_left (fuel : nat) (ws : list string) (s : string) : string :=
  match fuel with
  | O => s
  | S fuel => match strip_any ws s with Some r => trim_left fuel ws r | None => s end
  end.

Fixpoint rev_string_app (s acc : string) : string :=
  match s with EmptyString => acc | String c s => rev_string_app s (String c acc) end.
Definition rev_string (s : string) : string := rev_string_app s EmptyString.

Definition TrimSpace (s : string) : string :=
  let l := trim_left (String.length s) spaces s in
  rev_string (trim_left (String.length l) (rev_string <$> spaces) (rev_string l)).

Example TrimSpace_example : TrimSpace "  gpt-4 " = "gpt-4".
Proof. reflexivity. Qed.

(** ** Facts *)

Lemma strip_prefix_Some p s r : strip_prefix p s = Some r -> s = p +:+ r.
Proof.
  revert s. induction p as [| a p IH]; intros s; [by intros [= ->] |].
  destruct s as [| b s]; [done |]. simpl.
  destruct (Ascii.eqb_spec a b); [| done]. intros H%IH. by subst.
Qed.

Lemma strip_prefix_app p s : strip_prefix p (p +:+ s) = Some s.
Proof. induction p as [| a p IH]; [done |]. simpl. by rewrite Ascii.eqb_refl. Qed.

Lemma length_app_string a b : String.length (a +:+ b) = (String.length a + String.length b)%nat.
Proof. induction a as [| c a IH]; [done |]. simpl. by rewrite IH. Qed.

(** Removing a whitespace code point shortens the string. *)
Lemma strip_any_shorter ws s r :
  Forall (fun w => (0 < String.length w)%nat) ws -> strip_any ws s = Some r ->
  (String.length r < String.length s)%nat.
Proof.
  induction 1 as [| w ws Hw _ IH]; simpl; [done |].
  destruct (strip_prefix w s) as [t|] eqn:E; [| done].
  intros [= <-]. apply strip_prefix_Some in E as ->. rewrite length_app_string. lia.
Qed.

(** With as much fuel as bytes, nothing trimmable is left in front. *)
Lemma trim_left_done ws s fuel :
  Forall (fun w => (0 < String.length w)%nat) ws -> (String.length s <= fuel)%nat ->
  strip_any ws (trim_left fuel ws s) = None.
Proof.
  intros Hws. revert s. induction fuel as [| fuel IH]; intros s Hs; simpl.
  - destruct (strip_any ws s) as [r|] eqn:E; [| done].
    apply strip_any_shorter in E; [lia | done].
  - destruct (strip_any ws s) as [r|] eqn:E; [| done].
    apply IH. apply strip_any_shorter in E; [lia | done].
Qed.

Lemma string_app_assoc a b c : (a +:+ b) +:+ c = a +:+ (b +:+ c).
Proof. induction a as [| d a IH]; [done |]. change (String d ((a +:+ b) +:+ c) = String d (a +:+ (b +:+ c))). by rewrite IH. Qed.

(** [strings.Contains] *)
Fixpoint Contains (s sub : string) : bool :=
  HasPrefix s sub || match s with EmptyString => false | String _ rest => Contains rest sub end.

(** ** Decimal fields of a key

    A decimal number has no colon, so the last colon-separated field of a key
    determines it, and so does a field followed by a colon. *)

Fixpoint no_byte (c : ascii) (s : string) : bool :=
  match s with EmptyString => true | String d s => negb (Ascii.eqb d c) && no_byte c s end.

Abbreviation no_colon := (no_byte ":"%char).

Lemma no_byte_app c a b : no_byte c (a +:+ b) = no_byte c a && no_byte c b.
Proof. induction a as [| d a IH]; simpl; [done |]. rewrite IH. by rewrite andb_assoc. Qed.

Lemma no_byte_pretty_N_go (x : N) s :
  no_colon s = true -> no_colon (pretty_N_go x s) = true.
Proof.
  revert s. induction (N.lt_wf_0 x) as [x _ IH]; intros s Hs.
  destruct (decide (x = 0)%N) as [-> |]; [by rewrite pretty_N_go_0 |].
  rewrite pretty_N_go_step by lia. apply IH; [apply N.div_lt; lia |].
  simpl. rewrite Hs. unfold pretty_N_char. by repeat case_match.
Qed.

Lemma no_byte_pretty_Z (z : Z) : no_colon (pretty z) = true.
Proof.
  unfold pretty, pretty_Z. destruct z as [| p | p]; [done | |];
    unfold pretty, pretty_positive, pretty, pretty_N; (destruct decide; [done |]).
  - by apply no_byte_pretty_N_go.
  - change (no_colon ("-" +:+ pretty_N_go (N.pos p) "") = true).
    rewrite no_byte_app. by rewrite no_byte_pretty_N_go.
Qed.

Lemma last_field_inj a a' b b' :
  no_colon b = true -> no_colon b' = true ->
  a +:+ (":" +:+ b) = a' +:+ (":" +:+ b') -> a = a' /\ b = b'.
Proof.
  intros Hb Hb'. change (":" +:+ b) with (String ":" b). change (":" +:+ b') with (String ":" b').
  revert a'. induction a as [| c a IH]; intros [| c' a'] E; cbn [String.append] in E.
  - injection E as E. by split.
  - injection E as <- E. exfalso. rewrite E, no_byte_app in Hb. simpl in Hb.
    by rewrite andb_false_r in Hb.
  - injection E as -> E. exfalso. rewrite <- E, no_byte_app in Hb'. simpl in Hb'.
    by rewrite andb_false_r in Hb'.
  - injection E as -> E. by destruct (IH _ E) as [-> ->].
Qed.

Lemma first_field_inj a a' b b' :
  no_colon a = true -> no_colon a' = true ->
  a +:+ (":" +:+ b) = a' +:+ (":" +:+ b') -> a = a' /\ b = b'.
Proof.
  change (":" +:+ b) with (String ":" b). change (":" +:+ b') with (String ":" b').
  revert a'. induction a as [| c a IH]; intros [| c' a'] Ha Ha' E; cbn [String.append] in E;
    cbn [no_byte] in Ha, Ha'.
  - injection E as E. by split.
  - injection E as <- E. by rewrite Ascii.eqb_refl in Ha'.
  - injection E as -> E. by rewrite Ascii.eqb_refl in Ha.
  - injection E as -> E. apply andb_true_iff in Ha as [_ Ha], Ha' as [_ Ha'].
    by destruct (IH _ Ha Ha' E) as [-> ->].
Qed.

(** [strings.TrimLeft] and [strings.TrimRight] with one byte, [strings.Split] at
    one byte, and [strings.HasSuffix]. *)
Fixpoint TrimLeft (s : string) (c : ascii) : string :=
  match s with String a r => if (a =? c)%char then TrimLeft r c else s | EmptyString => s end.
Definition TrimRight (s : string) (c : ascii) : string := rev_string (TrimLeft (rev_string s) c).

Fixpoint SplitByte (s : string) (c : ascii) : list string :=
  match s with
  | EmptyString => [EmptyString]
  | String a s =>
      if (a =? c)%char then EmptyString :: SplitByte s c
      else match SplitByte s c with w :: ws => String a w :: ws | [] => [String a EmptyString] end
  end.

Definition HasSuffix (s p : string) : bool := HasPrefix (rev_string s) (rev_string p).

Example strings_example :
  TrimRight "a//" "/" = "a" /\ TrimLeft "//a" "/" = "a" /\ SplitByte "a,b" "," = ["a"; "b"] /\ HasSuffix "x/v1" "/v1" = true.
Proof. done. Qed.

Definition TrimSuffix (s p : string) : string := rev_string (TrimPrefix (rev_string s) (rev_string p)).
