(* ===== verification/Streaming.v ===== *)
(** * Settings of streams ([config/streaming.go])

    The timeouts of a stream, their defaults and bounds, and the settings a
    deployment overrides. *)

From S2P Require Import Prelude.

Record StreamingConfig := mkStreamingConfig {
  FirstEventTimeout : Z;
  IdleTimeout : Z;
  WriteTimeout : Z;
  KeepaliveInterval : Z;
}.

Definition or_default (v d : Z) : Z := if v <=? 0 then d else v.

Definition WithDefaults (s : StreamingConfig) : StreamingConfig :=
  mkStreamingConfig (or_default (FirstEventTimeout s) (30 * Second)) (or_default (IdleTimeout s) (30 * Second))
    (or_default (WriteTimeout s) (15 * Second)) (KeepaliveInterval s).

Definition ValidateStreaming (s : StreamingConfig) : bool :=
  forallb (fun v => negb ((v <? 0) || (24 * Hour <? v)))
    [FirstEventTimeout s; IdleTimeout s; WriteTimeout s; KeepaliveInterval s] &&
  negb ((0 <? KeepaliveInterval s) && (KeepaliveInterval s <? 10 * Millisecond)).

Definition WithOverride (s : StreamingConfig) (override : option StreamingConfig) : StreamingConfig :=
  let s := WithDefaults s in
  match override with
  | None => s
  | Some o =>
      let pick f := if 0 <? f o then f o else f s in
      mkStreamingConfig (pick FirstEventTimeout) (pick IdleTimeout) (pick WriteTimeout) (KeepaliveInterval o)
  end.
