(* ===== verification/Money.v ===== *)
(** * Exact money: micro-cents, pricing tiers and token cost

    Models [internal/store/microcents.go], [internal/store/pricing_tiers.go],
    the [Pricing] row of [internal/store/budgets.go],
    [internal/budget/token_cost.go] and the usage normalisation of
    [internal/providers/usage.go]. Costs are integer micro-cents; rates are
    cents per million tokens, so [tokens * rate] is exact. *)

From S2P Require Import Prelude.

(** ** Micro-cents ([store/microcents.go]) *)

Definition MicrocentsPerCent : Z := 1000000.

(** [CeilCents] panics on a negative amount: [None] is that panic. *)
Definition CeilCents (microcents : Z) : option Z :=
  if microcents <? 0 then None
  else
    let cents := microcents /g MicrocentsPerCent in
    if negb (microcents %g MicrocentsPerCent =? 0) then Some (cents +w 1)
    else Some cents.

(** [LimitMicrocents] panics on a negative limit: [None] is that panic. *)
Definition LimitMicrocents (limitCents : Z) : option Z :=
  if limitCents <? 0 then None
  else if MaxInt64 /g MicrocentsPerCent <? limitCents then Some MaxInt64
  else Some (limitCents *w MicrocentsPerCent).

Definition EffectiveMicrocents (cents : Z) (exact : option Z) : Z :=
  match exact with
  | Some e => e
  | None =>
      if cents <? (- MaxInt64) /g MicrocentsPerCent then MinInt64
      else if MaxInt64 /g MicrocentsPerCent <? cents then MaxInt64
      else cents *w MicrocentsPerCent
  end.

Inductive microcent_error := MicrocentTotalExceedsInt64.

Definition AddMicrocents (a b : Z) : result microcent_error Z :=
  if (a <? 0) || (b <? 0) || (MaxInt64 -w b <? a)
  then Err MicrocentTotalExceedsInt64
  else Ok (a +w b).

(** ** Pricing rows *)

Record PricingTiers := mkPricingTiers {
  CacheReadPerMillionCents : option Z;
  CacheWritePerMillionCents : option Z;
  CacheWrite1hPerMillionCents : option Z;
  ReasoningPerMillionCents : option Z;
}.

Inductive tier_error := TierValuesMustBeNonNegative.

(** The loop of [PricingTiers.Validate] over the four nullable rates. *)
Fixpoint validate_rates (rates : list (option Z)) : result tier_error unit :=
  match rates with
  | [] => Ok tt
  | rate :: rest =>
      if (match rate with Some r => r <? 0 | None => false end)
      then Err TierValuesMustBeNonNegative
      else validate_rates rest
  end.

Definition PricingTiers_Validate (p : PricingTiers) : result tier_error unit :=
  validate_rates [CacheReadPerMillionCents p; CacheWritePerMillionCents p;
                  CacheWrite1hPerMillionCents p; ReasoningPerMillionCents p].

Record Pricing := mkPricing {
  Tiers : PricingTiers;
  p_ProviderType : string;
  p_UpstreamModel : string;
  InputPerMillionCents : Z;
  OutputPerMillionCents : Z;
  EffectiveAt : Z;
}.

(** ** Usage reported by providers ([providers/provider.go]) *)

Record CacheCreationDetails := mkCacheCreationDetails {
  Ephemeral5mInputTokens : Z;
  Ephemeral1hInputTokens : Z;
}.

Record PromptTokensDetails := mkPromptTokensDetails {
  CachedTokens : Z;
  ptd_AudioTokens : Z;
}.

Record CompletionTokensDetails := mkCompletionTokensDetails {
  ReasoningTokens : Z;
  ctd_AudioTokens : Z;
}.

Record Usage := mkUsage {
  PromptTokens : Z;
  CompletionTokens : Z;
  TotalTokens : Z;
  u_PromptTokensDetails : option PromptTokensDetails;
  u_CompletionTokensDetails : option CompletionTokensDetails;
  CacheCreationInputTokens : Z;
  CacheReadInputTokens : Z;
  CacheCreation : option CacheCreationDetails;
}.

(** ** Token cost ([budget/token_cost.go]) *)

Inductive cost_error :=
| PricingUnavailable
| NegativeCacheUsage
| InconsistentCachedInput
| InvalidCacheWrite
| InconsistentCacheWrite
| DetailsExceedTotals
| NegativeTokenOrRate
| CostExceedsInt64.

#[export] Instance cost_error_eq_dec : EqDecision cost_error.
Proof. solve_decision. Defined.

Definition tierRate (override : option Z) (fallback : Z) : Z :=
  match override with None => fallback | Some r => r end.

Record tokenTier := mkTier { tt_count : Z; tt_rate : Z }.

(** The loop of [weightedMicrocents]: [big.Int] sums, so no wrap-around. *)
Fixpoint weighted_loop (sum : Z) (tiers : list tokenTier) : result cost_error Z :=
  match tiers with
  | [] => Ok sum
  | t :: rest =>
      if (tt_count t <? 0) || (tt_rate t <? 0) then Err NegativeTokenOrRate
      else weighted_loop (sum + tt_count t * tt_rate t) rest
  end.

Definition weightedMicrocents (tiers : list tokenTier) : result cost_error Z :=
  sum ← weighted_loop 0 tiers;
  if negb (int64_okb sum) then Err CostExceedsInt64 else Ok sum.

(** The cache-read count after reconciling [prompt_tokens_details]. *)
Definition cost_read (u : Usage) : result cost_error Z :=
  let read := CacheReadInputTokens u in
  match u_PromptTokensDetails u with
  | None => Ok read
  | Some d =>
      let cached := CachedTokens d in
      if (cached <? 0) || ((0 <? read) && (0 <? cached) && negb (cached =? read))
      then Err InconsistentCachedInput
      else Ok (Z.max read cached)
  end.

(** The [(write, write1h)] pair after reconciling [cache_creation]. *)
Definition cost_write (u : Usage) : result cost_error (Z * Z) :=
  let write := CacheCreationInputTokens u in
  match CacheCreation u with
  | None => Ok (write, 0)
  | Some c =>
      let write1h := Ephemeral1hInputTokens c in
      let write5m := Ephemeral5mInputTokens c in
      if (write1h <? 0) || (write5m <? 0) || (MaxInt64 -w write5m <? write1h)
      then Err InvalidCacheWrite
      else if write =? 0 then Ok (write1h +w write5m, write1h)
      else if negb (write =? write1h +w write5m) then Err InconsistentCacheWrite
      else Ok (write, write1h)
  end.

Definition cost_reasoning (u : Usage) : Z :=
  match u_CompletionTokensDetails u with
  | None => 0
  | Some d => ReasoningTokens d
  end.

Definition CostUsage (p : option Pricing) (u : Usage) : result cost_error Z :=
  match p with
  | None => Err PricingUnavailable
  | Some p =>
      _ ← fail_if ((CacheReadInputTokens u <? 0) || (CacheCreationInputTokens u <? 0))
                  NegativeCacheUsage;
      read ← cost_read u;
      ww ← cost_write u;
      let write := ww.1 in
      let write1h := ww.2 in
      let reasoning := cost_reasoning u in
      _ ← fail_if ((PromptTokens u <? 0) || (CompletionTokens u <? 0) || (read <? 0)
                   || (write <? 0) || (PromptTokens u <? read)
                   || (PromptTokens u -w read <? write) || (reasoning <? 0)
                   || (CompletionTokens u <? reasoning))
                  DetailsExceedTotals;
      input ← weightedMicrocents
        [mkTier (PromptTokens u -w read -w write) (InputPerMillionCents p);
         mkTier read (tierRate (CacheReadPerMillionCents (Tiers p)) (InputPerMillionCents p));
         mkTier (write -w write1h)
           (tierRate (CacheWritePerMillionCents (Tiers p)) (InputPerMillionCents p));
         mkTier write1h
           (tierRate (CacheWrite1hPerMillionCents (Tiers p))
              (tierRate (CacheWritePerMillionCents (Tiers p)) (InputPerMillionCents p)))];
      output ← weightedMicrocents
        [mkTier (CompletionTokens u -w reasoning) (OutputPerMillionCents p);
         mkTier reasoning
           (tierRate (ReasoningPerMillionCents (Tiers p)) (OutputPerMillionCents p))];
      if MaxInt64 -w output <? input then Err CostExceedsInt64
      else Ok (input +w output)
  end.

(** [providers.Usage{PromptTokens: .., CompletionTokens: ..}] *)
Definition plain_usage (prompt completion : Z) : Usage :=
  mkUsage prompt completion 0 None None 0 0 None.

(** The loop that raises the input rate to the most expensive input tier. *)
Fixpoint max_rate (rate : Z) (rates : list (option Z)) : Z :=
  match rates with
  | [] => rate
  | r :: rest => max_rate (match r with Some v => Z.max rate v | None => rate end) rest
  end.

(** The copy of the pricing row that admission reserves with. *)
Definition reserve_pricing (p : Pricing) : Pricing :=
  mkPricing (Tiers p) (p_ProviderType p) (p_UpstreamModel p)
    (max_rate (InputPerMillionCents p)
       [CacheReadPerMillionCents (Tiers p); CacheWritePerMillionCents (Tiers p);
        CacheWrite1hPerMillionCents (Tiers p)])
    (Z.max (OutputPerMillionCents p)
       (tierRate (ReasoningPerMillionCents (Tiers p)) (OutputPerMillionCents p)))
    (EffectiveAt p).

Definition estimatedTierCost (p : Pricing) (prompt completion : Z) : result cost_error Z :=
  CostUsage (Some (reserve_pricing p)) (plain_usage prompt completion).

(** ** Usage normalisation ([providers/usage.go]) *)

Inductive usage_error :=
| InvalidTokenUsage
| InconsistentCacheCreation
| InvalidGeminiUsage.

(** The loop of [tokenSum]. *)
Fixpoint tokenSum_loop (total : Z) (counts : list Z) : result usage_error Z :=
  match counts with
  | [] => Ok total
  | count :: rest =>
      if (count <? 0) || (MaxInt64 -w count <? total) then Err InvalidTokenUsage
      else tokenSum_loop (total +w count) rest
  end.

Definition tokenSum (counts : list Z) : result usage_error Z := tokenSum_loop 0 counts.

Record AnthropicUsage := mkAnthropicUsage {
  au_InputTokens : Z;
  au_OutputTokens : Z;
  au_CacheCreationInputTokens : Z;
  au_CacheReadInputTokens : Z;
  au_CacheCreation : option CacheCreationDetails;
}.

Definition AnthropicUsage_Canonical (u : AnthropicUsage) : result usage_error Usage :=
  creation ← match au_CacheCreation u with
    | None => Ok (au_CacheCreationInputTokens u)
    | Some c =>
        write ← tokenSum [Ephemeral5mInputTokens c; Ephemeral1hInputTokens c];
        if negb (au_CacheCreationInputTokens u =? 0)
           && negb (au_CacheCreationInputTokens u =? write)
        then Err InconsistentCacheCreation
        else Ok write
    end;
  input ← tokenSum [au_InputTokens u; creation; au_CacheReadInputTokens u];
  total ← tokenSum [input; au_OutputTokens u];
  Ok (mkUsage input (au_OutputTokens u) total
        (Some (mkPromptTokensDetails (au_CacheReadInputTokens u) 0)) None
        creation (au_CacheReadInputTokens u) (au_CacheCreation u)).

Record GeminiUsage := mkGeminiUsage {
  PromptTokenCount : Z;
  CandidatesTokenCount : Z;
  TotalTokenCount : Z;
  CachedContentTokenCount : Z;
  ThoughtsTokenCount : Z;
}.

Definition GeminiUsage_Canonical (u : GeminiUsage) : result usage_error Usage :=
  output ← tokenSum [CandidatesTokenCount u; ThoughtsTokenCount u];
  total ← tokenSum [PromptTokenCount u; output];
  if (CachedContentTokenCount u <? 0) || (PromptTokenCount u <? CachedContentTokenCount u)
     || (TotalTokenCount u <? 0)
  then Err InvalidGeminiUsage
  else Ok (mkUsage (PromptTokenCount u) output total
             (Some (mkPromptTokensDetails (CachedContentTokenCount u) 0))
             (Some (mkCompletionTokensDetails (ThoughtsTokenCount u) 0)) 0 0 None).

(** [SetCompletionTokens] updates the receiver only when the total fits. *)
Definition SetCompletionTokens (u : Usage) (output : Z) : result usage_error Usage :=
  total ← tokenSum [PromptTokens u; output];
  Ok (mkUsage (PromptTokens u) output total (u_PromptTokensDetails u)
        (u_CompletionTokensDetails u) (CacheCreationInputTokens u)
        (CacheReadInputTokens u) (CacheCreation u)).

(** ** Micro-cent arithmetic is exact *)

Lemma CeilCents_bounds m c :
  int64_ok m -> CeilCents m = Some c -> (c - 1) * MicrocentsPerCent < m <= c * MicrocentsPerCent.
Proof.
  unfold CeilCents, MicrocentsPerCent. intros Hm H.
  destruct (Z.ltb_spec m 0); [discriminate |].
  rewrite Z.quot_div_nonneg, Z.rem_mod_nonneg in H by lia.
  pose proof (Z.div_mod m 1000000 ltac:(lia)).
  pose proof (Z.mod_pos_bound m 1000000 ltac:(lia)).
  destruct (Z.eqb_spec (m mod 1000000) 0); simplify_eq/=; [lia |].
  rewrite wrap64_id by int64_lia. lia.
Qed.

Lemma CeilCents_total m : 0 <= m -> exists c, CeilCents m = Some c.
Proof.
  unfold CeilCents. intros Hm. destruct (Z.ltb_spec m 0); [lia |]. case_match; eauto.
Qed.

(** [CeilCents] is the least whole-cent amount that covers an exact
    micro-cent amount, it is itself an [int64] (no overflow near
    [MaxInt64]), and a positive amount is never reported as zero. *)
Theorem CeilCents_least (m : Z) (Hm : 0 <= m <= MaxInt64) :
  exists c, CeilCents m = Some c /\ int64_ok c /\ m <= c * MicrocentsPerCent /\
    (forall c', m <= c' * MicrocentsPerCent -> c <= c') /\ (0 < m -> 0 < c).
Proof.
  destruct (CeilCents_total m ltac:(lia)) as [c Hc]. exists c.
  assert (int64_ok m) as Hok by int64_lia.
  pose proof (CeilCents_bounds m c Hok Hc). unfold MicrocentsPerCent in *.
  repeat split; first [done | int64_lia].
Qed.

Lemma CeilCents_least_witness :
  exists c, CeilCents 1000001 = Some c /\ int64_ok c /\ 1000001 <= c * MicrocentsPerCent /\
    (forall c', 1000001 <= c' * MicrocentsPerCent -> c <= c') /\ (0 < 1000001 -> 0 < c).
Proof. apply (CeilCents_least 1000001). unfold MaxInt64. lia. Defined.

Lemma LimitMicrocents_value limit :
  0 <= limit -> LimitMicrocents limit = Some (clamp64 (limit * MicrocentsPerCent)).
Proof.
  unfold LimitMicrocents, MicrocentsPerCent. intros Hl.
  destruct (Z.ltb_spec limit 0); [lia |].
  change (MaxInt64 /g 1000000) with 9223372036854.
  destruct (Z.ltb_spec 9223372036854 limit); f_equal.
  - unfold clamp64, MinInt64, MaxInt64. lia.
  - rewrite wrap64_id, clamp64_id by int64_lia. done.
Qed.

(** Converting a whole-cent limit saturates without changing any
    comparison: an [int64] micro-cent amount exceeds the converted limit
    exactly when it exceeds the mathematical [limit * 1_000_000]; stored
    history converts with the same saturation. *)
Theorem LimitMicrocents_exact (limit amount : Z)
    (Hl : 0 <= limit) (Ha : int64_ok amount) :
  exists m, LimitMicrocents limit = Some m /\ int64_ok m /\
    (m < amount <-> limit * MicrocentsPerCent < amount) /\
    (int64_ok limit -> EffectiveMicrocents limit None = m).
Proof.
  exists (clamp64 (limit * MicrocentsPerCent)). split; [by apply LimitMicrocents_value |].
  split; [apply clamp64_ok |]. split.
  - unfold clamp64, MicrocentsPerCent. int64_lia.
  - intros Hok. unfold EffectiveMicrocents, MicrocentsPerCent.
    change (MaxInt64 /g 1000000) with 9223372036854.
    change ((- MaxInt64) /g 1000000) with (-9223372036854).
    destruct (Z.ltb_spec limit (-9223372036854)); [lia |].
    destruct (Z.ltb_spec 9223372036854 limit).
    + unfold clamp64, MinInt64, MaxInt64. lia.
    + rewrite wrap64_id, clamp64_id by int64_lia. done.
Qed.

Lemma LimitMicrocents_exact_witness :
  exists m, LimitMicrocents 9223372036855 = Some m /\ int64_ok m /\
    (m < MaxInt64 <-> 9223372036855 * MicrocentsPerCent < MaxInt64) /\
    (int64_ok 9223372036855 -> EffectiveMicrocents 9223372036855 None = m).
Proof. apply (LimitMicrocents_exact 9223372036855 MaxInt64); [lia | int64_lia]. Defined.

Lemma AddMicrocents_Ok a b c :
  int64_ok a -> int64_ok b ->
  AddMicrocents a b = Ok c <-> 0 <= a /\ 0 <= b /\ c = a + b /\ c <= MaxInt64.
Proof.
  unfold AddMicrocents. intros Ha Hb.
  destruct (Z.ltb_spec a 0); simpl; [split; [done | lia] |].
  destruct (Z.ltb_spec b 0); simpl; [split; [done | lia] |].
  rewrite (wrap64_id (MaxInt64 - b)) by int64_lia.
  destruct (Z.ltb_spec (MaxInt64 - b) a); [split; [done | lia] |].
  rewrite wrap64_id by int64_lia. ok_iff.
Qed.

(** ** Weighted sums *)

Definition tier_ok (t : tokenTier) : Prop := 0 <= tt_count t /\ 0 <= tt_rate t.

(** The mathematical value of a tier list. *)
Definition tier_sum (ts : list tokenTier) : Z :=
  sumZ (map (fun t => tt_count t * tt_rate t) ts).

Lemma tier_sum_nonneg ts : Forall tier_ok ts -> 0 <= tier_sum ts.
Proof. unfold tier_ok. induction 1; unfold tier_sum in *; simpl in *; nia. Qed.

Lemma weighted_loop_Ok s ts c :
  weighted_loop s ts = Ok c <-> Forall tier_ok ts /\ c = s + tier_sum ts.
Proof.
  unfold tier_sum. revert s. induction ts as [| t ts IH]; intros s; simpl.
  - split; [intros [= ->]; split; [constructor | lia] | intros [_ ->]; f_equal; lia].
  - rewrite Forall_cons. unfold tier_ok at 1.
    destruct (Z.ltb_spec (tt_count t) 0), (Z.ltb_spec (tt_rate t) 0); simpl;
      try (split; [discriminate | lia]).
    rewrite IH. intuition lia.
Qed.

Lemma weightedMicrocents_Ok ts c :
  weightedMicrocents ts = Ok c <-> Forall tier_ok ts /\ c = tier_sum ts /\ c <= MaxInt64.
Proof.
  unfold weightedMicrocents. split.
  - intros H. bind_inv. apply weighted_loop_Ok in Hr as [Ht ->].
    destruct (int64_okb (0 + tier_sum ts)) eqn:Hk; simplify_eq/=.
    apply int64_okb_spec in Hk. repeat split; [done | int64_lia].
  - intros (Ht & -> & Hm). pose proof (tier_sum_nonneg ts Ht).
    replace (weighted_loop 0 ts) with (Ok (E := cost_error) (tier_sum ts))
      by (symmetry; by apply weighted_loop_Ok).
    simpl. assert (int64_okb (tier_sum ts) = true) as ->; [| done].
    apply int64_okb_spec. int64_lia.
Qed.

(** ** The cost of a usage report

    A usage report is priced by a partition of its authoritative totals into
    six disjoint token classes. *)

Record token_split := mkSplit {
  sp_plain : Z; sp_read : Z; sp_write : Z; sp_write1h : Z;
  sp_text : Z; sp_reasoning : Z;
}.

(** Every counter of the report is a Go [int]. *)
Definition usage_int64 (u : Usage) : Prop :=
  int64_ok (PromptTokens u) /\ int64_ok (CompletionTokens u) /\
  int64_ok (CacheCreationInputTokens u) /\ int64_ok (CacheReadInputTokens u) /\
  match u_PromptTokensDetails u with Some d => int64_ok (CachedTokens d) | None => True end /\
  match u_CompletionTokensDetails u with
  | Some d => int64_ok (ReasoningTokens d) | None => True end /\
  match CacheCreation u with
  | Some c => int64_ok (Ephemeral5mInputTokens c) /\ int64_ok (Ephemeral1hInputTokens c)
  | None => True end.

Definition reported_cached (u : Usage) : Z :=
  match u_PromptTokensDetails u with Some d => CachedTokens d | None => 0 end.

(** [s] is the partition that the counters of [u] describe: detail counts are
    subsets of the totals, and redundant counters agree where both are set. *)
Definition splits (u : Usage) (s : token_split) : Prop :=
  (0 <= sp_plain s /\ 0 <= sp_read s /\ 0 <= sp_write s /\ 0 <= sp_write1h s /\
   0 <= sp_text s /\ 0 <= sp_reasoning s) /\
  sp_plain s + sp_read s + sp_write s + sp_write1h s = PromptTokens u /\
  sp_text s + sp_reasoning s = CompletionTokens u /\
  (0 <= CacheReadInputTokens u /\ 0 <= reported_cached u /\
   (CacheReadInputTokens u = 0 \/ reported_cached u = 0 \/
    CacheReadInputTokens u = reported_cached u) /\
   sp_read s = Z.max (CacheReadInputTokens u) (reported_cached u)) /\
  match CacheCreation u with
  | None => sp_write1h s = 0 /\ sp_write s = CacheCreationInputTokens u
  | Some c =>
      sp_write1h s = Ephemeral1hInputTokens c /\ sp_write s = Ephemeral5mInputTokens c /\
      (CacheCreationInputTokens u = 0 \/
       CacheCreationInputTokens u = sp_write s + sp_write1h s)
  end /\
  sp_reasoning s = cost_reasoning u.

(** The effective rate of each class: an unset tier inherits the base rate,
    and the one-hour write tier inherits the write tier first. *)
Definition read_rate (p : Pricing) : Z :=
  tierRate (CacheReadPerMillionCents (Tiers p)) (InputPerMillionCents p).
Definition write_rate (p : Pricing) : Z :=
  tierRate (CacheWritePerMillionCents (Tiers p)) (InputPerMillionCents p).
Definition write1h_rate (p : Pricing) : Z :=
  tierRate (CacheWrite1hPerMillionCents (Tiers p)) (write_rate p).
Definition reasoning_rate (p : Pricing) : Z :=
  tierRate (ReasoningPerMillionCents (Tiers p)) (OutputPerMillionCents p).

Definition rates_ok (p : Pricing) : Prop :=
  0 <= InputPerMillionCents p /\ 0 <= read_rate p /\ 0 <= write_rate p /\
  0 <= write1h_rate p /\ 0 <= OutputPerMillionCents p /\ 0 <= reasoning_rate p.

(** The mathematical charge of a partition. *)
Definition charge (p : Pricing) (s : token_split) : Z :=
  sp_plain s * InputPerMillionCents p + sp_read s * read_rate p +
  sp_write s * write_rate p + sp_write1h s * write1h_rate p +
  sp_text s * OutputPerMillionCents p + sp_reasoning s * reasoning_rate p.

Lemma cost_read_Ok u r :
  0 <= CacheReadInputTokens u ->
  cost_read u = Ok r <->
  0 <= reported_cached u /\
  (CacheReadInputTokens u = 0 \/ reported_cached u = 0 \/
   CacheReadInputTokens u = reported_cached u) /\
  r = Z.max (CacheReadInputTokens u) (reported_cached u).
Proof.
  unfold cost_read, reported_cached. intros Hr.
  destruct (u_PromptTokensDetails u) as [d|]; [| ok_iff].
  case_match eqn:E; ok_iff.
Qed.

Lemma cost_write_Ok u w w1 :
  usage_int64 u ->
  cost_write u = Ok (w, w1) <->
  match CacheCreation u with
  | None => w1 = 0 /\ w = CacheCreationInputTokens u
  | Some c =>
      w1 = Ephemeral1hInputTokens c /\ w = w1 + Ephemeral5mInputTokens c /\
      0 <= Ephemeral1hInputTokens c /\ 0 <= Ephemeral5mInputTokens c /\ w <= MaxInt64 /\
      (CacheCreationInputTokens u = 0 \/ CacheCreationInputTokens u = w)
  end.
Proof.
  unfold cost_write, usage_int64.
  destruct (CacheCreation u) as [c|]; [| intros; ok_iff].
  intros (_ & _ & _ & _ & _ & _ & H5 & H1).
  destruct (Z.ltb_spec (Ephemeral1hInputTokens c) 0); simpl; [split; [done | lia] |].
  destruct (Z.ltb_spec (Ephemeral5mInputTokens c) 0); simpl; [split; [done | lia] |].
  rewrite (wrap64_id (MaxInt64 - _)) by int64_lia.
  destruct (Z.ltb_spec (MaxInt64 - Ephemeral5mInputTokens c) (Ephemeral1hInputTokens c));
    [split; [done | lia] |].
  rewrite !wrap64_id by int64_lia.
  destruct (Z.eqb_spec (CacheCreationInputTokens u) 0); simpl; [ok_iff |].
  case_match eqn:E; ok_iff.
Qed.

(** The tier lists of [CostUsage] for a partition. *)
Definition input_tiers (p : Pricing) (s : token_split) : list tokenTier :=
  [mkTier (sp_plain s) (InputPerMillionCents p); mkTier (sp_read s) (read_rate p);
   mkTier (sp_write s) (write_rate p); mkTier (sp_write1h s) (write1h_rate p)].
Definition output_tiers (p : Pricing) (s : token_split) : list tokenTier :=
  [mkTier (sp_text s) (OutputPerMillionCents p); mkTier (sp_reasoning s) (reasoning_rate p)].

Lemma charge_tiers p s :
  charge p s = tier_sum (input_tiers p s) + tier_sum (output_tiers p s).
Proof. unfold charge, tier_sum. simpl. lia. Qed.

(** After its consistency checks, [CostUsage] prices the partition. *)
Definition price_split (p : Pricing) (s : token_split) : result cost_error Z :=
  input ← weightedMicrocents (input_tiers p s);
  output ← weightedMicrocents (output_tiers p s);
  if MaxInt64 -w output <? input then Err CostExceedsInt64 else Ok (input +w output).

Lemma price_split_Ok p s c :
  (0 <= sp_plain s /\ 0 <= sp_read s /\ 0 <= sp_write s /\ 0 <= sp_write1h s /\
   0 <= sp_text s /\ 0 <= sp_reasoning s) ->
  price_split p s = Ok c <-> rates_ok p /\ c = charge p s /\ c <= MaxInt64.
Proof.
  intros Hs. unfold price_split. rewrite charge_tiers.
  assert (rates_ok p <-> Forall tier_ok (input_tiers p s) /\ Forall tier_ok (output_tiers p s))
    as -> by (unfold rates_ok, tier_ok, input_tiers, output_tiers;
        rewrite !Forall_cons, !Forall_nil; simpl; tauto).
  split.
  - intros H. bind_inv. apply weightedMicrocents_Ok in Hr as (Hi & -> & Him).
    apply weightedMicrocents_Ok in Hr0 as (Ho & -> & Hom).
    pose proof (tier_sum_nonneg _ Hi). pose proof (tier_sum_nonneg _ Ho).
    rewrite wrap64_id in H by int64_lia.
    case_match eqn:E; simplify_eq/=. rewrite wrap64_id by int64_lia.
    repeat split; try done. lia.
  - intros ((Hi & Ho) & -> & Hm).
    pose proof (tier_sum_nonneg _ Hi). pose proof (tier_sum_nonneg _ Ho).
    rewrite (proj2 (weightedMicrocents_Ok (input_tiers p s) _) ltac:(repeat split; [done | lia])).
    simpl. rewrite (proj2 (weightedMicrocents_Ok (output_tiers p s) _)
                     ltac:(repeat split; [done | lia])).
    simpl. rewrite wrap64_id by int64_lia.
    case_match eqn:E; [lia |]. rewrite wrap64_id by int64_lia. done.
Qed.

(** The partition that the checks of [CostUsage] establish. *)
Definition the_split (u : Usage) (read write write1h : Z) : token_split :=
  mkSplit (PromptTokens u - read - write) read (write - write1h) write1h
    (CompletionTokens u - cost_reasoning u) (cost_reasoning u).

Lemma splits_iff u s :
  usage_int64 u ->
  splits u s <->
  exists read write write1h,
    0 <= CacheReadInputTokens u /\ 0 <= CacheCreationInputTokens u /\
    cost_read u = Ok read /\ cost_write u = Ok (write, write1h) /\
    0 <= read <= PromptTokens u /\ 0 <= write <= PromptTokens u - read /\
    0 <= cost_reasoning u <= CompletionTokens u /\ s = the_split u read write write1h.
Proof.
  intros Hu. pose proof Hu as (HP & _). split.
  - intros (Hnn & Hp & Hc & (Hr0 & Hrc & Hag & Hread) & Hw & Hg).
    exists (sp_read s), (sp_write s + sp_write1h s), (sp_write1h s).
    rewrite cost_read_Ok, cost_write_Ok by done.
    destruct s as [a b c d e f]; unfold the_split; simpl in *.
    destruct (CacheCreation u) as [k|]; split_and!; try int64_lia; f_equal; lia.
  - intros (read & write & write1h & Hr0 & Hw0 & Hread & Hwrite & Hr & Hw & Hg & ->).
    apply cost_read_Ok in Hread; [| done]. apply cost_write_Ok in Hwrite; [| done].
    unfold splits, the_split; simpl. destruct (CacheCreation u) as [k|]; split_and!; try lia.
Qed.

Lemma CostUsage_unfold p u c :
  usage_int64 u ->
  CostUsage (Some p) u = Ok c <-> exists s, splits u s /\ price_split p s = Ok c.
Proof.
  intros Hu. setoid_rewrite splits_iff; [| done]. pose proof Hu as (HP & HC & _). split.
  - unfold CostUsage. intros H. bind_inv.
    match goal with E : cost_write u = Ok ?x |- _ => destruct x as [w w1]; rename E into Hwr end.
    match goal with E : cost_read u = Ok ?x |- _ => rename x into read; rename E into Hrd end.
    simpl in *. pose proof (proj1 (cost_write_Ok u w w1 Hu) Hwr) as Hw.
    rewrite !(wrap64_id (PromptTokens u - read)) in * by int64_lia.
    exists (the_split u read w w1). split.
    { exists read, w, w1. split_and!; first [done | lia]. }
    unfold price_split, input_tiers, output_tiers, the_split; simpl.
    rewrite <- (wrap64_id (PromptTokens u - read - w)) by int64_lia.
    rewrite <- (wrap64_id (w - w1)) by (destruct (CacheCreation u); int64_lia).
    rewrite <- (wrap64_id (CompletionTokens u - cost_reasoning u)) by int64_lia.
    unfold read_rate, write1h_rate, write_rate, reasoning_rate.
    do 2 match goal with E : weightedMicrocents _ = Ok _ |- _ => rewrite E; clear E; simpl end.
    exact H.
  - intros (s & (read & w & w1 & Hr0 & Hw0 & Hread & Hwrite & Hr & Hw & Hg & ->) & Hprice).
    pose proof (proj1 (cost_write_Ok u w w1 Hu) Hwrite) as Hws.
    unfold CostUsage. rewrite fail_if_false by lia. simpl. rewrite Hread. simpl.
    rewrite Hwrite. simpl. rewrite !(wrap64_id (PromptTokens u - read)) by int64_lia.
    rewrite fail_if_false by lia. simpl.
    rewrite (wrap64_id (PromptTokens u - read - w)) by int64_lia.
    rewrite (wrap64_id (w - w1)) by (destruct (CacheCreation u); int64_lia).
    rewrite (wrap64_id (CompletionTokens u - cost_reasoning u)) by int64_lia.
    exact Hprice.
Qed.

(** [CostUsage] succeeds exactly on a consistent report. *)
Lemma CostUsage_iff (p : Pricing) (u : Usage) (c : Z) (Hu : usage_int64 u) :
  CostUsage (Some p) u = Ok c <->
  exists s, splits u s /\ rates_ok p /\ c = charge p s /\ 0 <= c <= MaxInt64.
Proof.
  rewrite CostUsage_unfold by done. split; intros (s & Hs & H); exists s; split; try done.
  - apply price_split_Ok in H as (Hr & -> & Hm); [| by destruct Hs].
    split; [exact Hr |]. split; [done |]. split; [| done]. rewrite charge_tiers.
    destruct Hs as ((?&?&?&?&?&?) & _). destruct Hr as (?&?&?&?&?&?).
    apply Z.add_nonneg_nonneg; apply tier_sum_nonneg; repeat constructor; done.
  - apply price_split_Ok; [by destruct Hs |]. destruct H as (? & ? & ? & ?). done.
Qed.

(** [CostUsage] prices a report exactly: it succeeds with [c] if and only
    if the report's counters describe a partition of its authoritative totals
    (no token counted twice or lost, no negative class), every effective rate
    is non-negative, [c] is the mathematical sum of tokens times rates, and
    [c] fits in an [int64]. Every other report is refused. *)
Theorem CostUsage_exact (p : Pricing) (u : Usage) (c : Z) (Hu : usage_int64 u) :
  CostUsage (Some p) u = Ok c <->
  exists s, splits u s /\ rates_ok p /\ c = charge p s /\ 0 <= c <= MaxInt64.
Proof. by apply CostUsage_iff. Qed.

(** A cached, partly reasoning report on a four-tier price. *)
Definition example_pricing : Pricing :=
  mkPricing (mkPricingTiers (Some 25) (Some 300) (Some 500) None) "anthropic" "claude" 250 1000 1.
Definition example_usage : Usage :=
  mkUsage 100 20 120 (Some (mkPromptTokensDetails 40 0)) (Some (mkCompletionTokensDetails 5 0))
    30 40 (Some (mkCacheCreationDetails 20 10)).

Lemma CostUsage_exact_witness :
  CostUsage (Some example_pricing) example_usage = Ok 39500 <->
  exists s, splits example_usage s /\ rates_ok example_pricing /\
    39500 = charge example_pricing s /\ 0 <= 39500 <= MaxInt64.
Proof.
  apply (CostUsage_exact example_pricing example_usage 39500).
  unfold usage_int64. simpl. repeat split; int64_lia.
Defined.

Example CostUsage_example : CostUsage (Some example_pricing) example_usage = Ok 39500.
Proof. vm_compute. reflexivity. Qed.

Lemma charge_le p s q R O :
  0 <= sp_plain s -> 0 <= sp_read s -> 0 <= sp_write s -> 0 <= sp_write1h s ->
  0 <= sp_text s -> 0 <= sp_reasoning s ->
  InputPerMillionCents p <= R -> read_rate p <= R -> write_rate p <= R -> write1h_rate p <= R ->
  OutputPerMillionCents p <= O -> reasoning_rate p <= O -> 0 <= R -> 0 <= O ->
  sp_plain s + sp_read s + sp_write s + sp_write1h s <= sp_plain q ->
  sp_text s + sp_reasoning s <= sp_text q ->
  charge p s <= sp_plain q * R + sp_text q * O.
Proof.
  intros. unfold charge.
  transitivity ((sp_plain s + sp_read s + sp_write s + sp_write1h s) * R
                + (sp_text s + sp_reasoning s) * O); [nia |].
  apply Z.add_le_mono; apply Z.mul_le_mono_nonneg_r; lia.
Qed.

(** The reservation rates dominate every effective rate. *)
Lemma reserve_rates p :
  InputPerMillionCents p <= InputPerMillionCents (reserve_pricing p) /\
  read_rate p <= InputPerMillionCents (reserve_pricing p) /\
  write_rate p <= InputPerMillionCents (reserve_pricing p) /\
  write1h_rate p <= InputPerMillionCents (reserve_pricing p) /\
  OutputPerMillionCents p <= OutputPerMillionCents (reserve_pricing p) /\
  reasoning_rate p <= OutputPerMillionCents (reserve_pricing p).
Proof.
  unfold read_rate, write_rate, write1h_rate, reasoning_rate, tierRate.
  destruct p as [[[r|] [w|] [h|] [g|]] pt um i o e]; simpl;
    unfold write_rate, tierRate; simpl; lia.
Qed.

Lemma plain_usage_int64 a b : int64_ok a -> int64_ok b -> usage_int64 (plain_usage a b).
Proof. unfold usage_int64. simpl. intros. repeat split; int64_lia. Qed.

Lemma plain_usage_splits a b s :
  splits (plain_usage a b) s -> s = mkSplit a 0 0 0 b 0.
Proof.
  destruct s as [s1 s2 s3 s4 s5 s6]. unfold splits, cost_reasoning, reported_cached. simpl.
  intros. f_equal; lia.
Qed.

Lemma estimate_charge p a b e :
  int64_ok a -> int64_ok b -> estimatedTierCost p a b = Ok e ->
  0 <= a /\ 0 <= b /\ e = a * InputPerMillionCents (reserve_pricing p)
                         + b * OutputPerMillionCents (reserve_pricing p) /\
  rates_ok (reserve_pricing p) /\ 0 <= e <= MaxInt64.
Proof.
  intros Ha Hb H. apply CostUsage_iff in H as (s & Hs & Hr & -> & Hm);
    [| by apply plain_usage_int64].
  pose proof Hs as ((Hp & _ & _ & _ & Ht & _) & _).
  apply plain_usage_splits in Hs as ->. unfold charge in *. simpl in *.
  split; [lia |]. split; [lia |]. split; [lia |]. split; [exact Hr | lia].
Qed.

(** The estimate is an upper bound. *)
Lemma estimate_upper (p : Pricing) (u : Usage) (prompt completion c e : Z)
    (Hu : usage_int64 u) (Hp : int64_ok prompt) (Hc : int64_ok completion)
    (Hup : PromptTokens u <= prompt) (Huc : CompletionTokens u <= completion)
    (Hcost : CostUsage (Some p) u = Ok c)
    (Hest : estimatedTierCost p prompt completion = Ok e) :
  c <= e.
Proof.
  apply CostUsage_iff in Hcost as (s & Hs & Hr & -> & _); [| done].
  apply estimate_charge in Hest as (? & ? & -> & _); [| done | done].
  pose proof (reserve_rates p) as (?&?&?&?&?&?). destruct Hr as (?&?&?&?&?&?).
  destruct Hs as ((?&?&?&?&?&?) & Hsum & Htext & _).
  apply (charge_le p s (mkSplit prompt 0 0 0 completion 0));
    cbn [sp_plain sp_text]; lia.
Qed.

(** C5. Reservations are conservative: the estimate admission reserves for
    [prompt] and [completion] tokens is at least the exact cost of every usage
    report that stays within those totals, whatever its split into cache
    reads, cache writes and reasoning tokens. *)
Theorem estimate_conservative (p : Pricing) (u : Usage) (prompt completion c e : Z)
    (Hu : usage_int64 u) (Hp : int64_ok prompt) (Hc : int64_ok completion)
    (Hup : PromptTokens u <= prompt) (Huc : CompletionTokens u <= completion)
    (Hcost : CostUsage (Some p) u = Ok c)
    (Hest : estimatedTierCost p prompt completion = Ok e) :
  c <= e.
Proof. by apply (estimate_upper p u prompt completion). Qed.

Lemma estimate_conservative_witness :
  CostUsage (Some example_pricing) example_usage = Ok 39500 /\
  estimatedTierCost example_pricing 100 20 = Ok 70000 /\ 39500 <= 70000.
Proof.
  split; [vm_compute; reflexivity |]. split; [vm_compute; reflexivity |].
  apply (estimate_conservative example_pricing example_usage 100 20 39500 70000);
    try (vm_compute; reflexivity); try (vm_compute; congruence);
    try (unfold usage_int64; simpl; repeat split; int64_lia); try int64_lia.
Defined.

(** ** Normalised provider usage is always priceable *)

Lemma tokenSum_loop_Ok counts t s :
  0 <= t <= MaxInt64 -> Forall int64_ok counts ->
  tokenSum_loop t counts = Ok s <->
  Forall (fun c => 0 <= c) counts /\ s = t + sumZ counts /\ s <= MaxInt64.
Proof.
  intros Ht Hc. revert t Ht. induction Hc as [| c counts Hc Hcs IH]; intros t Ht; simpl.
  - rewrite Forall_nil. ok_iff.
  - rewrite Forall_cons. destruct (Z.ltb_spec c 0); simpl; [split; [done | lia] |].
    rewrite (wrap64_id (MaxInt64 - c)) by int64_lia.
    destruct (Z.ltb_spec (MaxInt64 - c) t).
    + split; [done |]. intros ((_ & Hnn) & ? & ?). apply sumZ_nonneg in Hnn. lia.
    + rewrite wrap64_id by int64_lia. rewrite IH by lia. intuition lia.
Qed.

Lemma tokenSum_Ok counts s :
  Forall int64_ok counts ->
  tokenSum counts = Ok s <-> Forall (fun c => 0 <= c) counts /\ s = sumZ counts /\ s <= MaxInt64.
Proof. intros. unfold tokenSum. by rewrite tokenSum_loop_Ok by (unfold MaxInt64; done). Qed.

(** The counters of a native Anthropic report are Go [int]s. *)
Definition anthropic_int64 (a : AnthropicUsage) : Prop :=
  Forall int64_ok [au_InputTokens a; au_OutputTokens a; au_CacheCreationInputTokens a;
                   au_CacheReadInputTokens a] /\
  match au_CacheCreation a with
  | Some c => Forall int64_ok [Ephemeral5mInputTokens c; Ephemeral1hInputTokens c]
  | None => True
  end.

(** The partition of a canonical Anthropic report. *)
Definition anthropic_split (a : AnthropicUsage) : token_split :=
  match au_CacheCreation a with
  | Some c => mkSplit (au_InputTokens a) (au_CacheReadInputTokens a) (Ephemeral5mInputTokens c)
                (Ephemeral1hInputTokens c) (au_OutputTokens a) 0
  | None => mkSplit (au_InputTokens a) (au_CacheReadInputTokens a)
              (au_CacheCreationInputTokens a) 0 (au_OutputTokens a) 0
  end.

Lemma Anthropic_canonical_splits a u :
  anthropic_int64 a -> AnthropicUsage_Canonical a = Ok u ->
  usage_int64 u /\ splits u (anthropic_split a).
Proof.
  intros [Ha Hc] H. rewrite !Forall_cons in Ha. destruct Ha as (Hi & Ho & Hw & Hr & _).
  unfold AnthropicUsage_Canonical, anthropic_split in *.
  destruct (au_CacheCreation a) as [c|]; simpl in *.
  - apply bind_Ok_inv in H as (creation & Hcr & H).
    apply bind_Ok_inv in Hcr as (w & Hsum & Hcr).
    apply tokenSum_Ok in Hsum as (Hnn & -> & Hm); [| done].
    rewrite !Forall_cons in Hc, Hnn. simpl in *. destruct Hc as (? & ? & _).
    case_match eqn:E; simplify_eq/=.
    bind_inv. apply tokenSum_Ok in Hr0 as (Hn1 & -> & Hm1); [| repeat constructor; int64_lia].
    rewrite !Forall_cons in Hn1. simpl in *.
    apply tokenSum_Ok in Hr1 as (Hn2 & -> & Hm2); [| repeat constructor; int64_lia].
    rewrite !Forall_cons in Hn2. simpl in *. simplify_eq/=.
    unfold usage_int64, splits, reported_cached, cost_reasoning; simpl.
    split; [repeat split; int64_lia | split_and!; int64_lia].
  - bind_inv. apply tokenSum_Ok in Hr0 as (Hn1 & -> & Hm1); [| repeat constructor; int64_lia].
    rewrite !Forall_cons in Hn1. simpl in *.
    apply tokenSum_Ok in Hr1 as (Hn2 & -> & Hm2); [| repeat constructor; int64_lia].
    rewrite !Forall_cons in Hn2. simpl in *. simplify_eq/=.
    unfold usage_int64, splits, reported_cached, cost_reasoning; simpl.
    split; [repeat split; int64_lia | split_and!; int64_lia].
Qed.

(** Anthropic reports [input_tokens] without cache reads and writes. After
    [Canonical], the gateway's cost function charges each native class exactly
    once at its own rate: plain input, cache reads, five-minute and one-hour
    cache writes, and output. It can refuse only because the total does not
    fit in an [int64]. *)
Theorem Anthropic_canonical_cost (p : Pricing) (a : AnthropicUsage) (u : Usage)
    (Ha : anthropic_int64 a) (Hp : rates_ok p) (Hu : AnthropicUsage_Canonical a = Ok u) :
  match CostUsage (Some p) u with
  | Ok c => c = charge p (anthropic_split a)
  | Err _ => MaxInt64 < charge p (anthropic_split a)
  end.
Proof.
  destruct (Anthropic_canonical_splits a u Ha Hu) as [Hi Hs].
  destruct (Z.leb_spec (charge p (anthropic_split a)) MaxInt64) as [Hle|Hgt].
  - assert (CostUsage (Some p) u = Ok (charge p (anthropic_split a))) as ->; [| done].
    apply CostUsage_unfold; [done |]. eexists; split; [exact Hs |].
    apply price_split_Ok; [by destruct Hs |]. done.
  - destruct (CostUsage (Some p) u) as [c|e] eqn:E; [| done].
    apply CostUsage_iff in E as (s & Hs' & _ & -> & Hm); [| done]. f_equal.
    destruct s, (anthropic_split a). unfold splits in Hs, Hs'. simpl in Hs, Hs'.
    destruct (CacheCreation u); f_equal; lia.
Qed.

Lemma Anthropic_canonical_cost_witness :
  let a := mkAnthropicUsage 30 20 0 40 (Some (mkCacheCreationDetails 20 10)) in
  let u := mkUsage 100 20 120 (Some (mkPromptTokensDetails 40 0)) None 30 40
             (Some (mkCacheCreationDetails 20 10)) in
  match CostUsage (Some example_pricing) u with
  | Ok c => c = charge example_pricing (anthropic_split a)
  | Err _ => MaxInt64 < charge example_pricing (anthropic_split a)
  end.
Proof.
  intros a u. apply (Anthropic_canonical_cost example_pricing a u).
  - split; repeat constructor; simpl; int64_lia.
  - vm_compute. repeat split; congruence.
  - vm_compute. reflexivity.
Defined.

Lemma Gemini_canonical_splits g u :
  Forall int64_ok [PromptTokenCount g; CandidatesTokenCount g; ThoughtsTokenCount g;
                   CachedContentTokenCount g] ->
  GeminiUsage_Canonical g = Ok u ->
  usage_int64 u /\
  splits u (mkSplit (PromptTokenCount g - CachedContentTokenCount g) (CachedContentTokenCount g)
              0 0 (CandidatesTokenCount g) (ThoughtsTokenCount g)).
Proof.
  intros Hg H. rewrite !Forall_cons in Hg. destruct Hg as (? & ? & ? & ? & _).
  unfold GeminiUsage_Canonical in H. bind_inv.
  apply tokenSum_Ok in Hr as (Hn1 & -> & ?); [| repeat constructor; int64_lia].
  rewrite !Forall_cons in Hn1. simpl in *.
  apply tokenSum_Ok in Hr0 as (Hn2 & -> & ?); [| repeat constructor; int64_lia].
  rewrite !Forall_cons in Hn2. simpl in *.
  case_match eqn:E; simplify_eq/=.
  unfold usage_int64, splits, reported_cached, cost_reasoning; simpl.
  split; [repeat split; int64_lia | split_and!; int64_lia].
Qed.
