(* ===== verification/Admission.v ===== *)
(** * Process-level admission ([internal/admission/gate.go])

    [Module Gate] is the bounded gate with its waiting queue; [Module Counter]
    the resizable, non-queueing limiter. Both are used by many goroutines at
    once, so each is a transition system: a goroutine is its program counter,
    one transition is one channel or atomic operation, and any interleaving
    is a run. Durations spent waiting ([Decision.Waited]) are not modelled. *)

From S2P Require Import Prelude.

Module Gate.

Record Config := mkConfig {
  MaxInFlight : Z;
  MaxQueued : Z;
  QueueTimeout : Z;
}.

Inductive Outcome := OutcomeAdmitted | OutcomeQueueFull | OutcomeQueueTimeout | OutcomeCanceled.

#[export] Instance Outcome_eq_dec : EqDecision Outcome.
Proof. solve_decision. Defined.

(** The two channels by their occupancy and capacity, and the two atomic
    counters. *)
Record Gate := mkGate {
  slots : Z;
  slots_cap : Z;
  queue : Z;
  queue_cap : Z;
  queueTimeout : Z;
  inFlight : Z;
  queued : Z;
}.

(** [New] returns [nil] (no gate) when the in-flight limit is not positive. *)
Definition New (cfg : Config) : option Gate :=
  if MaxInFlight cfg <=? 0 then None
  else
    let maxQueued := if MaxQueued cfg <? 0 then 0 else MaxQueued cfg in
    Some (mkGate 0 (MaxInFlight cfg) 0 maxQueued (QueueTimeout cfg) 0 0).

Definition set_slots (g : Gate) (n : Z) : Gate :=
  mkGate n (slots_cap g) (queue g) (queue_cap g) (queueTimeout g) (inFlight g) (queued g).
Definition set_queue (g : Gate) (n : Z) : Gate :=
  mkGate (slots g) (slots_cap g) n (queue_cap g) (queueTimeout g) (inFlight g) (queued g).
Definition set_inFlight (g : Gate) (n : Z) : Gate :=
  mkGate (slots g) (slots_cap g) (queue g) (queue_cap g) (queueTimeout g) n (queued g).
Definition set_queued (g : Gate) (n : Z) : Gate :=
  mkGate (slots g) (slots_cap g) (queue g) (queue_cap g) (queueTimeout g) (inFlight g) n.

(** Non-blocking send and receive on a buffered channel. *)
Definition send_slot (g : Gate) : option Gate :=
  if slots g <? slots_cap g then Some (set_slots g (slots g + 1)) else None.
Definition recv_slot (g : Gate) : option Gate :=
  if 0 <? slots g then Some (set_slots g (slots g - 1)) else None.
Definition send_queue (g : Gate) : option Gate :=
  if queue g <? queue_cap g then Some (set_queue g (queue g + 1)) else None.
Definition recv_queue (g : Gate) : option Gate :=
  if 0 <? queue g then Some (set_queue g (queue g - 1)) else None.

(** The goroutine's position in [Acquire], while it holds its permit, and in
    [Permit.Release]. *)
Inductive pc :=
| AStart                     (* before the first select *)
| AGotSlot                   (* fast path: slot sent, before inFlight.Add(1) *)
| ATryQueue                  (* saturated: before the queue send *)
| AQueuedSend                (* queue token sent, before queued.Add(1) *)
| AWaiting                   (* in the final select *)
| AWonSlot                   (* slot sent while waiting, before inFlight.Add(1) *)
| ADeferRecv (o : Outcome)   (* deferred: before <-g.queue *)
| ADeferSub (o : Outcome)    (* deferred: before queued.Add(-1) *)
| AHold                      (* returned a live permit *)
| ARelRecv                   (* in Release's once: before <-slots *)
| ARelSub                    (* in Release's once: before inFlight.Add(-1) *)
| AReleased                  (* permit released *)
| ARejected (o : Outcome).   (* returned an error *)

(** What lets a goroutine move: it runs, its queue timer fires, its context
    is cancelled, or its owner calls [Release]. *)
Inductive event := Run | TimerFires | CtxDone | CallRelease.

Definition Acquire_step (g : Gate) (p : pc) (e : event) : option (Gate * pc) :=
  match p, e with
  | AStart, Run =>
      match send_slot g with
      | Some g' => Some (g', AGotSlot)
      | None =>
          if (queue_cap g =? 0) || (queueTimeout g <=? 0)
          then Some (g, ARejected OutcomeQueueFull)
          else Some (g, ATryQueue)
      end
  | AGotSlot, Run => Some (set_inFlight g (inFlight g + 1), AHold)
  | ATryQueue, Run =>
      match send_queue g with
      | Some g' => Some (g', AQueuedSend)
      | None => Some (g, ARejected OutcomeQueueFull)
      end
  | AQueuedSend, Run => Some (set_queued g (queued g + 1), AWaiting)
  | AWaiting, Run =>
      match send_slot g with Some g' => Some (g', AWonSlot) | None => None end
  | AWaiting, TimerFires => Some (g, ADeferRecv OutcomeQueueTimeout)
  | AWaiting, CtxDone => Some (g, ADeferRecv OutcomeCanceled)
  | AWonSlot, Run => Some (set_inFlight g (inFlight g + 1), ADeferRecv OutcomeAdmitted)
  | ADeferRecv o, Run =>
      match recv_queue g with Some g' => Some (g', ADeferSub o) | None => None end
  | ADeferSub o, Run =>
      Some (set_queued g (queued g - 1),
            match o with OutcomeAdmitted => AHold | _ => ARejected o end)
  | _, _ => None
  end.

(** [Release] runs its body once; later calls find the [sync.Once] done. *)
Definition Release_step (g : Gate) (p : pc) (e : event) : option (Gate * pc) :=
  match p, e with
  | AHold, CallRelease => Some (g, ARelRecv)
  | ARelRecv, Run =>
      match recv_slot g with Some g' => Some (g', ARelSub) | None => None end
  | ARelSub, Run => Some (set_inFlight g (inFlight g - 1), AReleased)
  | AReleased, CallRelease => Some (g, AReleased)
  | _, _ => None
  end.

Definition gate_step (g : Gate) (p : pc) (e : event) : option (Gate * pc) :=
  match Acquire_step g p e with
  | Some r => Some r
  | None => Release_step g p e
  end.

Record sys := mkSys { gate : Gate; threads : list pc }.

(** Any interleaving: a new caller arrives, or one goroutine moves. *)
Inductive step : sys -> sys -> Prop :=
| step_spawn g ts : step (mkSys g ts) (mkSys g (ts ++ [AStart]))
| step_thread g g' ts i p p' e :
    ts !! i = Some p -> gate_step g p e = Some (g', p') ->
    step (mkSys g ts) (mkSys g' (<[i:=p']> ts)).

Definition initial (cfg : Config) (s : sys) : Prop :=
  exists g, New cfg = Some g /\ s = mkSys g [].

Definition reachable (cfg : Config) (s : sys) : Prop :=
  exists s0, initial cfg s0 /\ rtc step s0 s.

(** [Stats] *)
Record Stats := mkStats { st_InFlight : Z; st_Queued : Z; st_Capacity : Z; st_QueueCap : Z }.

Definition GetStats (g : option Gate) : Stats :=
  match g with
  | None => mkStats 0 0 0 0
  | Some g => mkStats (inFlight g) (queued g) (slots_cap g) (queue_cap g)
  end.

(** ** Who owns what *)

(** The goroutine occupies a slot of the [slots] channel. *)
Definition owns_slot (p : pc) : bool :=
  match p with
  | AGotSlot | AWonSlot | AHold | ARelRecv
  | ADeferRecv OutcomeAdmitted | ADeferSub OutcomeAdmitted => true
  | _ => false
  end.

(** The goroutine is included in the [inFlight] counter. *)
Definition counted_in_flight (p : pc) : bool :=
  match p with
  | AHold | ARelRecv | ARelSub
  | ADeferRecv OutcomeAdmitted | ADeferSub OutcomeAdmitted => true
  | _ => false
  end.

(** The goroutine occupies a place of the [queue] channel. *)
Definition owns_queue (p : pc) : bool :=
  match p with AQueuedSend | AWaiting | AWonSlot | ADeferRecv _ => true | _ => false end.

(** The goroutine is included in the [queued] counter. *)
Definition counted_queued (p : pc) : bool :=
  match p with AWaiting | AWonSlot | ADeferRecv _ | ADeferSub _ => true | _ => false end.

(** The goroutine's caller has a permit it has not released. *)
Definition holds_permit (p : pc) : bool :=
  match p with AHold => true | _ => false end.

(** The goroutine is blocked in [Acquire]'s final select. *)
Definition waits (p : pc) : bool :=
  match p with AWaiting => true | _ => false end.

(** The goroutine is not between a channel operation and the counter update
    that goes with it: it has not begun, is about to try the queue, waits for
    a slot, holds its permit, or has returned. *)
Definition settled (p : pc) : bool :=
  match p with
  | AStart | ATryQueue | AWaiting | AHold | AReleased | ARejected _ => true
  | _ => false
  end.

(** The shared state counts exactly the goroutines that own its parts. *)
Definition inv (cfg : Config) (s : sys) : Prop :=
  let g := gate s in
  let ts := threads s in
  (slots_cap g = MaxInFlight cfg /\ queue_cap g = Z.max 0 (MaxQueued cfg) /\
   queueTimeout g = QueueTimeout cfg) /\
  slots g = countZ owns_slot ts /\ slots g <= slots_cap g /\
  queue g = countZ owns_queue ts /\ queue g <= queue_cap g /\
  inFlight g = countZ counted_in_flight ts /\ queued g = countZ counted_queued ts.

Lemma inv_initial cfg s : initial cfg s -> inv cfg s.
Proof.
  unfold initial, New. intros (g & H & ->). case_match eqn:E1; simplify_eq/=.
  unfold inv; simpl. case_match; repeat split; unfold countZ; simpl; lia.
Qed.

Lemma inv_spawn cfg g ts : inv cfg (mkSys g ts) -> inv cfg (mkSys g (ts ++ [AStart])).
Proof.
  assert (forall f : pc -> bool, f AStart = false -> countZ f (ts ++ [AStart]) = countZ f ts) as Hc.
  { intros f Hf. rewrite countZ_app. unfold countZ at 2. simpl. rewrite Hf. lia. }
  unfold inv; simpl. by rewrite !Hc.
Qed.

Lemma inv_thread cfg g g' ts i p p' e :
  ts !! i = Some p -> gate_step g p e = Some (g', p') ->
  inv cfg (mkSys g ts) -> inv cfg (mkSys g' (<[i:=p']> ts)).
Proof.
  intros Hi Hstep. unfold inv; simpl.
  rewrite !(countZ_insert _ ts i p p' Hi).
  unfold gate_step, Acquire_step, Release_step, send_slot, send_queue, recv_slot, recv_queue in Hstep.
  destruct p as [| | | | | | [] | [] | | | | | []], e; try discriminate Hstep;
    cbn -[Z.add Z.sub Z.ltb Z.leb Z.max] in Hstep |- *;
    repeat case_match; simplify_eq; intros ((? & ? & ?) & ? & ? & ? & ? & ? & ?);
    cbn -[Z.add Z.sub Z.max]; split_and!; lia.
Qed.

Lemma gate_inv_step cfg s s' : step s s' -> inv cfg s -> inv cfg s'.
Proof. destruct 1; [apply inv_spawn | by eapply inv_thread]. Qed.

Lemma reachable_inv cfg s : reachable cfg s -> inv cfg s.
Proof.
  intros (s0 & H0 & Hs). apply inv_initial in H0.
  induction Hs; [done |]. eauto using gate_inv_step.
Qed.

(** Among settled goroutines, the counted ones are those with a permit and
    those that wait. *)
Lemma settled_counts ts :
  Forall (fun p => settled p = true) ts ->
  countZ counted_in_flight ts = countZ holds_permit ts /\
  countZ counted_queued ts = countZ waits ts.
Proof.
  unfold countZ. induction 1 as [| p ts Hp _ [IH1 IH2]]; simpl; [done |].
  rewrite IH1, IH2. by destruct p.
Qed.

(** C38. Whatever the interleaving of arrivals, waits, timeouts,
    cancellations and releases, at most [MaxInFlight] permits are live and at
    most [MaxQueued] callers wait behind them. The statistics are never
    negative, and whenever no goroutine is between a channel operation and the
    counter update that goes with it, the reported [InFlight] is the number of
    callers with a live permit and the reported [Queued] the number of callers
    blocked waiting for one. *)
Theorem gate_bounds (cfg : Config) (s : sys) (Hs : reachable cfg s) :
  countZ holds_permit (threads s) <= MaxInFlight cfg /\
  countZ waits (threads s) <= Z.max 0 (MaxQueued cfg) /\
  0 <= st_InFlight (GetStats (Some (gate s))) /\
  0 <= st_Queued (GetStats (Some (gate s))) /\
  (Forall (fun p => settled p = true) (threads s) ->
   st_InFlight (GetStats (Some (gate s))) = countZ holds_permit (threads s) /\
   st_Queued (GetStats (Some (gate s))) = countZ waits (threads s)).
Proof.
  apply reachable_inv in Hs as ((Hc & Hq & _) & Hsl & Hslb & Hqu & Hqub & Hin & Hqd).
  assert (countZ holds_permit (threads s) <= countZ owns_slot (threads s)).
  { apply countZ_mono. by intros [] ?. }
  assert (countZ waits (threads s) <= countZ owns_queue (threads s)).
  { apply countZ_mono. by intros [] ?. }
  simpl. rewrite Hin, Hqd. split_and!; [lia | lia | apply countZ_nonneg | apply countZ_nonneg | apply settled_counts].
Qed.

(** A gate of one slot and one waiting place: the first caller holds the
    permit, the second waits, the third is refused. *)
Definition example_cfg : Config := mkConfig 1 1 Second.
Definition example_sys : sys :=
  mkSys (mkGate 1 1 1 1 Second 1 1) [AHold; AWaiting; ARejected OutcomeQueueFull].

(** Let goroutine [i] take one step of a concrete run. *)
Ltac gate_run i := eapply rtc_l; [eapply (step_thread _ _ _ i _ _ Run); reflexivity |].

Lemma example_reachable : reachable example_cfg example_sys.
Proof.
  eexists. split; [eexists; split; reflexivity |].
  do 3 (eapply rtc_l; [apply step_spawn |]).
  gate_run 0%nat. gate_run 0%nat. gate_run 1%nat. gate_run 1%nat. gate_run 1%nat.
  gate_run 2%nat. gate_run 2%nat.
  apply rtc_refl.
Qed.

(** There every goroutine is settled: one permit is reported in flight and one
    caller queued. *)
Lemma gate_bounds_witness :
  reachable example_cfg example_sys /\
  countZ holds_permit (threads example_sys) <= 1 /\
  countZ waits (threads example_sys) <= Z.max 0 1 /\
  st_InFlight (GetStats (Some (gate example_sys))) = countZ holds_permit (threads example_sys) /\
  st_Queued (GetStats (Some (gate example_sys))) = countZ waits (threads example_sys) /\
  countZ waits (threads example_sys) = 1.
Proof.
  split; [exact example_reachable |].
  destruct (gate_bounds example_cfg example_sys example_reachable) as (H1 & H2 & _ & _ & H3).
  destruct H3 as [H3 H4]; [repeat constructor |]. by split_and!.
Defined.

(** No goroutine is ever stuck giving something back: the receive in the
    queue's deferred cleanup and the receive in [Release] always find an
    element, so a caller leaving the queue and a permit being released never
    block, and releasing a permit again changes nothing. *)
Theorem gate_release_never_blocks (cfg : Config) (s : sys) (i : nat) (p : pc)
    (Hs : reachable cfg s) (Hp : threads s !! i = Some p) :
  match p with
  | ADeferRecv _ | ADeferSub _ | ARelRecv | ARelSub => is_Some (gate_step (gate s) p Run)
  | AHold => is_Some (gate_step (gate s) p CallRelease)
  | AReleased => gate_step (gate s) p CallRelease = Some (gate s, p)
  | _ => True
  end.
Proof.
  apply reachable_inv in Hs as (_ & Hsl & _ & Hqu & _).
  destruct p as [| | | | | | o | o | | | | | o]; try done;
    unfold gate_step, Acquire_step, Release_step, recv_queue, recv_slot; eauto.
  - pose proof (countZ_pos owns_queue _ _ _ Hp eq_refl).
    destruct (Z.ltb_spec 0 (queue (gate s))); [eauto | lia].
  - pose proof (countZ_pos owns_slot _ _ _ Hp eq_refl).
    destruct (Z.ltb_spec 0 (slots (gate s))); [eauto | lia].
Qed.

Lemma gate_release_never_blocks_witness :
  is_Some (gate_step (gate example_sys) AHold CallRelease).
Proof.
  apply (gate_release_never_blocks example_cfg example_sys 0 AHold);
    [exact example_reachable | reflexivity].
Defined.

End Gate.

Module Counter.

Record Counter := mkCounter { limit : Z; inFlight : Z }.

Definition SetLimit (c : Counter) (l : Z) : Counter :=
  mkCounter (if l <? 0 then 0 else l) (inFlight c).

Definition NewCounter (l : Z) : Counter := SetLimit (mkCounter 0 0) l.

(** One pass of [TryAcquire]'s loop without interference: the compare and
    swap succeeds. *)
Definition TryAcquire (c : Counter) : Counter * bool :=
  if (0 <? limit c) && (limit c <=? inFlight c) then (c, false)
  else (mkCounter (limit c) (inFlight c + 1), true).

(** [CounterPermit.Release]: the first call decrements. *)
Definition Release (c : Counter) : Counter := mkCounter (limit c) (inFlight c - 1).

(** A goroutine in [TryAcquire], holding its permit, or done. *)
Inductive pc :=
| TLoadInFlight                       (* top of the loop *)
| TLoadLimit (current : Z)            (* inFlight loaded *)
| TCompareAndSwap (current : Z)       (* test passed *)
| THold
| TReleased
| TRefused.

Inductive event := Run | CallRelease.

Definition TryAcquire_step (c : Counter) (p : pc) (e : event) : option (Counter * pc) :=
  match p, e with
  | TLoadInFlight, Run => Some (c, TLoadLimit (inFlight c))
  | TLoadLimit current, Run =>
      if (0 <? limit c) && (limit c <=? current) then Some (c, TRefused)
      else Some (c, TCompareAndSwap current)
  | TCompareAndSwap current, Run =>
      if inFlight c =? current
      then Some (mkCounter (limit c) (current + 1), THold)
      else Some (c, TLoadInFlight)
  | THold, CallRelease => Some (Release c, TReleased)
  | TReleased, CallRelease => Some (c, TReleased)
  | _, _ => None
  end.

Record sys := mkSys { counter : Counter; threads : list pc }.

(** Interleavings of acquisitions, releases and runtime limit changes; every
    configured limit is positive and at most [m]. *)
Inductive step (m : Z) : sys -> sys -> Prop :=
| step_spawn c ts : step m (mkSys c ts) (mkSys c (ts ++ [TLoadInFlight]))
| step_limit c ts l : 0 < l <= m -> step m (mkSys c ts) (mkSys (SetLimit c l) ts)
| step_thread c c' ts i p p' e :
    ts !! i = Some p -> TryAcquire_step c p e = Some (c', p') ->
    step m (mkSys c ts) (mkSys c' (<[i:=p']> ts)).

Definition holding (p : pc) : bool := match p with THold => true | _ => false end.

(** A goroutine that passed the test against a limit of at most [m]. *)
Definition admissible (m : Z) (p : pc) : Prop :=
  match p with TCompareAndSwap current => current < m | _ => True end.

Definition inv (m : Z) (s : sys) : Prop :=
  0 < limit (counter s) <= m /\
  inFlight (counter s) = countZ holding (threads s) /\
  inFlight (counter s) <= m /\ Forall (admissible m) (threads s).

Lemma counter_inv_step m s s' : step m s s' -> inv m s -> inv m s'.
Proof.
  intros Hstep (Hl & Hin & Hm & Hadm). destruct Hstep as [c ts | c ts l Hl' | c c' ts i p p' e Hi Hs];
    unfold inv in *; simpl in *.
  - rewrite countZ_app. unfold countZ at 2. simpl. split_and!; try lia.
    apply Forall_app. split; [done |]. by repeat constructor.
  - destruct (Z.ltb_spec l 0); [lia |]. split_and!; try lia. done.
  - rewrite (countZ_insert _ ts i p p' Hi).
    pose proof (Forall_lookup_1 _ _ _ _ Hadm Hi) as Hp.
    assert (admissible m p' /\ limit c' = limit c /\
            inFlight c' = inFlight c - (if holding p then 1 else 0) + (if holding p' then 1 else 0) /\
            inFlight c' <= m) as (Hp' & Hlim & Hc' & Hm').
    { destruct p, e; simpl in *; simplify_eq; repeat case_match; simplify_eq/=;
        split_and!; try done; lia. }
    split_and!; try lia. by apply Forall_insert.
Qed.

Lemma inv_reachable m l s :
  0 < l <= m -> rtc (step m) (mkSys (NewCounter l) []) s -> inv m s.
Proof.
  intros Hl Hs. assert (inv m (mkSys (NewCounter l) [])) as H0.
  { unfold inv, NewCounter, SetLimit, countZ; simpl. destruct (Z.ltb_spec l 0); [lia |].
    split_and!; try lia. constructor. }
  remember (mkSys (NewCounter l) []) as s0 eqn:E. clear E.
  induction Hs; [done |]. eauto using counter_inv_step.
Qed.

(** The compare-and-swap loop enforces the cap under any interleaving:
    the in-flight counter is exactly the number of unreleased permits, and it
    never exceeds the largest limit configured so far, even while limits are
    lowered and raised at run time; a lowered limit never forgets running
    work. *)
Theorem counter_bounds (m l : Z) (s : sys) (Hl : 0 < l <= m)
    (Hs : rtc (step m) (mkSys (NewCounter l) []) s) :
  inFlight (counter s) = countZ holding (threads s) /\
  countZ holding (threads s) <= m /\
  (forall l', inFlight (SetLimit (counter s) l') = inFlight (counter s)).
Proof.
  destruct (inv_reachable m l s Hl Hs) as (_ & Hin & Hm & _).
  split; [done |]. split; [lia | done].
Qed.

(** Let goroutine [i] take one step of a concrete run. *)
Ltac crun i := eapply rtc_l; [eapply (step_thread _ _ _ _ i _ _ Run); reflexivity |].

(** Two goroutines race for one place; the loser's swap fails and it is
    refused on the next pass. *)
Lemma counter_bounds_witness :
  let s := mkSys (mkCounter 1 1) [THold; TRefused] in
  inFlight (counter s) = countZ holding (threads s) /\
  countZ holding (threads s) <= 1 /\
  (forall l', inFlight (SetLimit (counter s) l') = inFlight (counter s)).
Proof.
  apply (counter_bounds 1 1); [lia |].
  do 2 (eapply rtc_l; [apply step_spawn |]).
  crun 0%nat. crun 1%nat. crun 0%nat. crun 1%nat. crun 0%nat. crun 1%nat. crun 1%nat. crun 1%nat.
  apply rtc_refl.
Defined.

(** Run alone, the three steps of one pass are the atomic [TryAcquire]. *)
Lemma TryAcquire_steps c :
  let '(c', ok) := TryAcquire c in
  exists p, rtc (fun x y => exists e, TryAcquire_step x.1 x.2 e = Some y)
              (c, TLoadInFlight) (c', p) /\ (ok = true -> p = THold) /\ (ok = false -> p = TRefused).
Proof.
  unfold TryAcquire. destruct ((0 <? limit c) && (limit c <=? inFlight c)) eqn:E.
  - exists TRefused. split; [| done].
    eapply rtc_l; [exists Run; reflexivity |]. eapply rtc_l; [exists Run; simpl; by rewrite E |].
    apply rtc_refl.
  - exists THold. split; [| done].
    eapply rtc_l; [exists Run; reflexivity |]. eapply rtc_l; [exists Run; simpl; by rewrite E |].
    eapply rtc_l; [exists Run; simpl; by rewrite Z.eqb_refl |]. apply rtc_refl.
Qed.

End Counter.
