(* ===== verification/Redis.v ===== *)
(** * The Redis commands the gateway's scripts call

    Redis is not part of the repository, so it is an interface: a class of
    commands with their documented effect as laws. [RedisZSet] is what the
    concurrency leases use, [RedisCounter] what the rate limiter uses,
    [RedisHash] what the login throttle uses and [RedisStamp] what the
    breaker store uses. The scripts of the gateway are defined and proved
    against these classes; the instances at the end interpret the commands on
    finite maps and discharge the laws, so the theorems apply to something.

    A key holds a value and an optional expiry instant in milliseconds. A key
    whose expiry has passed does not exist any more, and a key whose
    collection becomes empty is removed together with its expiry. Commands
    take the server's clock [now] explicitly. *)

From S2P Require Import Prelude.

(** How a script call ends: a reply, or an error before or after the script
    ran. *)
Inductive io := IoOk | IoFailedBefore | IoFailedAfter.

(** A stored value and its expiry. *)
Definition entry (V : Type) : Type := option (V * option Z).

(** The entry that is visible at [now]. *)
Definition visible {V} (now : Z) (e : entry V) : entry V :=
  match e with
  | Some (v, Some x) => if x <=? now then None else e
  | _ => e
  end.

(** [PEXPIRE key ms]: only an existing key gets an expiry; a non-positive one
    deletes it. *)
Definition expire_entry {V} (now ms : Z) (e : entry V) : entry V :=
  match visible now e with
  | Some (v, _) => if ms <=? 0 then None else Some (v, Some (now + ms))
  | None => None
  end.

Definition entry_expiry {V} (now : Z) (e : entry V) : option Z :=
  match visible now e with Some (_, x) => x | None => None end.

Lemma visible_idem {V} now (e : entry V) : visible now (visible now e) = visible now e.
Proof. destruct e as [[v [x|]]|]; simpl; [| done | done]. destruct (x <=? now) eqn:E; simpl; [done |]. by rewrite E. Qed.

(** ** Sorted sets *)

Definition zset := gmap string Z.

Definition live_zset (now : Z) (e : entry (gmap string Z)) : gmap string Z :=
  match visible now e with Some (m, _) => m | None => ∅ end.

(** A collection that has become empty takes its key with it. *)
Definition store_zset (m : gmap string Z) (x : option Z) : entry (gmap string Z) :=
  if decide (m = ∅) then None else Some (m, x).

Class RedisZSet (R : Type) := {
  zview : R -> string -> entry (gmap string Z);
  (** [ZREMRANGEBYSCORE key -inf max] *)
  ZREMRANGEBYSCORE : Z -> string -> Z -> R -> R;
  ZSCORE : Z -> string -> string -> R -> option Z;
  ZCARD : Z -> string -> R -> Z;
  (** [ZRANGE key 0 0 WITHSCORES]: the member with the lowest score *)
  ZRANGE_first : Z -> string -> R -> option (string * Z);
  ZADD : Z -> string -> Z -> string -> R -> R;
  ZREM : Z -> string -> string -> R -> R * Z;
  ZPEXPIRE : Z -> string -> Z -> R -> R;
}.

Class RedisZSetLaws (R : Type) `{RedisZSet R} : Prop := {
  ZREMRANGEBYSCORE_view now k max r k' :
    zview (ZREMRANGEBYSCORE now k max r) k' =
    if decide (k = k')
    then store_zset (filter (fun '(_, s) => max < s) (live_zset now (zview r k)))
           (entry_expiry now (zview r k))
    else zview r k';
  ZSCORE_spec now k m r : ZSCORE now k m r = live_zset now (zview r k) !! m;
  ZCARD_spec now k r : ZCARD now k r = Z.of_nat (size (live_zset now (zview r k)));
  ZRANGE_first_spec now k r :
    match ZRANGE_first now k r with
    | Some (m, s) =>
        live_zset now (zview r k) !! m = Some s /\
        forall m' s', live_zset now (zview r k) !! m' = Some s' -> s <= s'
    | None => live_zset now (zview r k) = ∅
    end;
  ZADD_view now k s m r k' :
    zview (ZADD now k s m r) k' =
    if decide (k = k')
    then Some (<[m:=s]> (live_zset now (zview r k)), entry_expiry now (zview r k))
    else zview r k';
  ZREM_view now k m r k' :
    zview (ZREM now k m r).1 k' =
    if decide (k = k')
    then store_zset (delete m (live_zset now (zview r k))) (entry_expiry now (zview r k))
    else zview r k';
  ZREM_count now k m r :
    (ZREM now k m r).2 = match live_zset now (zview r k) !! m with Some _ => 1 | None => 0 end;
  ZPEXPIRE_view now k ms r k' :
    zview (ZPEXPIRE now k ms r) k' =
    if decide (k = k') then expire_entry now ms (zview r k) else zview r k';
}.

(** ** Integer counters *)

Definition live_counter (now : Z) (e : entry Z) : Z :=
  match visible now e with Some (n, _) => n | None => 0 end.

Class RedisCounter (R : Type) := {
  cview : R -> string -> entry Z;
  (** [GET key], [nil] read as 0 by the scripts *)
  GET : Z -> string -> R -> option Z;
  (** [PTTL key]: -2 without a key, -1 without an expiry *)
  PTTL : Z -> string -> R -> Z;
  INCRBY : Z -> string -> Z -> R -> R * Z;
  CPEXPIRE : Z -> string -> Z -> R -> R;
  (** [DEL key] *)
  CDEL : Z -> string -> R -> R;
}.

Class RedisCounterLaws (R : Type) `{RedisCounter R} : Prop := {
  GET_spec now k r : GET now k r = option_map fst (visible now (cview r k));
  PTTL_spec now k r :
    PTTL now k r = match visible now (cview r k) with
                   | None => -2
                   | Some (_, None) => -1
                   | Some (_, Some x) => x - now
                   end;
  INCRBY_view now k d r k' :
    cview (INCRBY now k d r).1 k' =
    if decide (k = k')
    then Some (live_counter now (cview r k) + d, entry_expiry now (cview r k))
    else cview r k';
  INCRBY_reply now k d r : (INCRBY now k d r).2 = live_counter now (cview r k) + d;
  CPEXPIRE_view now k ms r k' :
    cview (CPEXPIRE now k ms r) k' =
    if decide (k = k') then expire_entry now ms (cview r k) else cview r k';
  CDEL_view now k r k' : cview (CDEL now k r) k' = if decide (k = k') then None else cview r k';
}.

(** ** The numbers of a script *)

(** The numbers of a Lua script are doubles: an integer of more than 53 bits is
    rounded to a multiple of a power of two, ties to the even multiple. *)
Definition double (z : Z) : Z :=
  let a := Z.abs z in
  if a <=? 2 ^ 53 then z
  else
    let unit := 2 ^ (Z.log2 a - 52) in
    let q := a / unit in
    let r := 2 * (a mod unit) in
    Z.sgn z * ((if (r <? unit) || ((r =? unit) && Z.even q) then q else q + 1) * unit).

Lemma double_exact z : Z.abs z <= 2 ^ 53 -> double z = z.
Proof. unfold double. intros Hz. by destruct (Z.leb_spec (Z.abs z) (2 ^ 53)); [| lia]. Qed.

Lemma double_large z : 2 ^ 53 <= z -> 2 ^ 53 <= double z.
Proof.
  intros Hz. unfold double. destruct (Z.leb_spec (Z.abs z) (2 ^ 53)); [done |].
  rewrite (Z.abs_eq z), (Z.sgn_pos z), Z.mul_1_l in * by lia.
  assert (53 <= Z.log2 z) as Hl by (apply Z.log2_le_pow2; lia).
  assert (2 ^ 52 * 2 ^ (Z.log2 z - 52) <= z) as Hq.
  { rewrite <- Z.pow_add_r by lia. replace (52 + (Z.log2 z - 52)) with (Z.log2 z) by lia. apply Z.log2_spec. lia. }
  assert (2 <= 2 ^ (Z.log2 z - 52)) as Hu by (change 2 with (2 ^ 1) at 1; apply Z.pow_le_mono_r; lia).
  assert (2 ^ 52 <= z / 2 ^ (Z.log2 z - 52)) by (apply Z.div_le_lower_bound; lia).
  change (2 ^ 53) with (2 ^ 52 * 2). apply Z.mul_le_mono_nonneg; try lia. destruct (_ || _); lia.
Qed.

Lemma double_nonneg z : 0 <= z -> 0 <= double z.
Proof.
  intros Hz. destruct (Z.le_gt_cases z (2 ^ 53)); [rewrite double_exact by lia; done |]. etransitivity; [| apply double_large]; lia.
Qed.

Lemma double_pos z : 0 < z -> 0 < double z.
Proof.
  intros Hz. destruct (Z.le_gt_cases z (2 ^ 53)); [rewrite double_exact by lia; done |].
  apply Z.lt_le_trans with (2 ^ 53); [done | apply double_large; lia].
Qed.

(** A sum is compared exactly with a limit below 2^53, however large the terms. *)
Lemma double_over used inc limit :
  0 <= used -> 0 <= inc -> 0 <= limit < 2 ^ 53 -> (double limit <? double (double used + double inc)) = (limit <? used + inc).
Proof.
  intros Hu Hi Hl. rewrite (double_exact limit) by lia. pose proof (double_nonneg used Hu). pose proof (double_nonneg inc Hi).
  destruct (Z.le_gt_cases (used + inc) (2 ^ 53)) as [Hs | Hs].
  { by rewrite !(double_exact used), !(double_exact inc), (double_exact (used + inc)) by lia. }
  assert (2 ^ 53 <= double used + double inc) as Hd%double_large.
  { destruct (Z.le_gt_cases (2 ^ 53) used); [pose proof (double_large used); lia |].
    destruct (Z.le_gt_cases (2 ^ 53) inc); [pose proof (double_large inc); lia |]. rewrite !double_exact by lia. lia. }
  transitivity true; [apply Z.ltb_lt; lia | symmetry; apply Z.ltb_lt; lia].
Qed.

(** ** Hashes of counters *)

Definition live_hash (now : Z) (e : entry (gmap string Z)) : gmap string Z :=
  match visible now e with Some (m, _) => m | None => ∅ end.

Class RedisHash (R : Type) := {
  hview : R -> string -> entry (gmap string Z);
  HGET : Z -> string -> string -> R -> option Z;
  HEXISTS : Z -> string -> string -> R -> bool;
  HLEN : Z -> string -> R -> Z;
  HINCRBY : Z -> string -> string -> Z -> R -> R;
  HPEXPIRE : Z -> string -> Z -> R -> R;
}.

Class RedisHashLaws (R : Type) `{RedisHash R} : Prop := {
  HGET_spec now k f r : HGET now k f r = live_hash now (hview r k) !! f;
  HEXISTS_spec now k f r : HEXISTS now k f r = bool_decide (is_Some (live_hash now (hview r k) !! f));
  HLEN_spec now k r : HLEN now k r = Z.of_nat (size (live_hash now (hview r k)));
  HINCRBY_view now k f d r k' :
    hview (HINCRBY now k f d r) k' =
    if decide (k = k')
    then Some (<[f:=default 0 (live_hash now (hview r k) !! f) + d]> (live_hash now (hview r k)),
               entry_expiry now (hview r k))
    else hview r k';
  HPEXPIRE_view now k ms r k' :
    hview (HPEXPIRE now k ms r) k' =
    if decide (k = k') then expire_entry now ms (hview r k) else hview r k';
}.

(** ** Time stamps

    A string key that holds an RFC 3339 time stamp: the instant it denotes, or
    a text that does not parse. The format keeps nanoseconds, so the instant
    that is written is the instant that is read. *)

Inductive stamp := Stamp (t : Z) | Garbage.

Class RedisStamp (R : Type) := {
  tview : R -> string -> entry stamp;
  TGET : Z -> string -> R -> option stamp;
  (** [SET key value PX ms] *)
  TSET : Z -> string -> stamp -> Z -> R -> R;
  TDEL : Z -> string -> R -> R;
}.

Class RedisStampLaws (R : Type) `{RedisStamp R} : Prop := {
  TGET_spec now k r : TGET now k r = option_map fst (visible now (tview r k));
  TSET_view now k v ms r k' :
    0 < ms ->
    tview (TSET now k v ms r) k' = if decide (k = k') then Some (v, Some (now + ms)) else tview r k';
  TDEL_view now k r k' : tview (TDEL now k r) k' = if decide (k = k') then None else tview r k';
}.

(** ** Reading an updated key *)

Section views.
Context {V : Type}.
Implicit Types (e : entry V).

Lemma live_zset_store now m x :
  (forall t, x = Some t -> now < t) -> live_zset now (store_zset m x) = m.
Proof.
  intros Hx. unfold live_zset, store_zset. case_decide as E; simpl; [done |].
  destruct x as [t|]; simpl; [| done]. specialize (Hx t eq_refl).
  destruct (Z.leb_spec t now); [lia | done].
Qed.

Lemma entry_expiry_future now e t : entry_expiry now e = Some t -> now < t.
Proof.
  unfold entry_expiry, visible. destruct e as [[v [x|]]|]; try done.
  destruct (Z.leb_spec x now); [done |]. intros [= ->]. lia.
Qed.

Lemma visible_later now now' e :
  now <= now' -> visible now' e = None \/ visible now' e = visible now e.
Proof.
  intros Hn. destruct e as [[v [x|]]|]; simpl; auto.
  destruct (Z.leb_spec x now'), (Z.leb_spec x now); auto; lia.
Qed.
End views.

(** As time passes a sorted set can only disappear. *)
Lemma live_zset_later now now' e :
  now <= now' -> live_zset now' e = ∅ \/ live_zset now' e = live_zset now e.
Proof. intros Hn. unfold live_zset. destruct (visible_later now now' e Hn) as [-> | ->]; auto. Qed.

Lemma live_zset_later_subseteq now now' e : now <= now' -> live_zset now' e ⊆ live_zset now e.
Proof. intros Hn. destruct (live_zset_later now now' e Hn) as [-> | ->]; [apply map_empty_subseteq | done]. Qed.

(** ** Finite-map instances *)

Module MapRedis.

(** The database as the families of keys the gateway uses. *)
Record db := mkDb {
  zsets : gmap string (gmap string Z * option Z);
  counters : gmap string (Z * option Z);
  hashes : gmap string (gmap string Z * option Z);
  stamps : gmap string (stamp * option Z);
}.

Definition empty_db : db := mkDb ∅ ∅ ∅ ∅.

Definition put {V} (k : string) (e : entry V) (m : gmap string (V * option Z)) :
    gmap string (V * option Z) := partial_alter (fun _ => e) k m.

Lemma lookup_put {V} k (e : entry V) m k' :
  put k e m !! k' = if decide (k = k') then e else m !! k'.
Proof.
  unfold put. case_decide; subst; [apply lookup_partial_alter_eq | by apply lookup_partial_alter_ne].
Qed.

Definition put_z (k : string) (e : entry (gmap string Z)) (r : db) : db :=
  mkDb (put k e (zsets r)) (counters r) (hashes r) (stamps r).
Definition put_c (k : string) (e : entry Z) (r : db) : db :=
  mkDb (zsets r) (put k e (counters r)) (hashes r) (stamps r).
Definition put_h (k : string) (e : entry (gmap string Z)) (r : db) : db :=
  mkDb (zsets r) (counters r) (put k e (hashes r)) (stamps r).
Definition put_t (k : string) (e : entry stamp) (r : db) : db :=
  mkDb (zsets r) (counters r) (hashes r) (put k e (stamps r)).

(** The lowest score of a sorted set. *)
Definition first_of (m : gmap string Z) : option (string * Z) :=
  map_fold (fun k s acc =>
    match acc with
    | None => Some (k, s)
    | Some (_, s0) => if s <? s0 then Some (k, s) else acc
    end) None m.

Lemma first_of_spec m :
  match first_of m with
  | Some (k, s) => m !! k = Some s /\ forall k' s', m !! k' = Some s' -> s <= s'
  | None => m = ∅
  end.
Proof.
  unfold first_of.
  apply (map_fold_weak_ind (fun (r : option (string * Z)) (m : gmap string Z) => match r with
    | Some (k, s) => m !! k = Some s /\ forall k' s', m !! k' = Some s' -> s <= s'
    | None => m = ∅ end)); [done |].
  intros i x m' r Hi IH. destruct r as [[k s]|].
  - destruct IH as [Hk Hmin]. assert (i <> k) by congruence.
    destruct (Z.ltb_spec x s); split.
    + apply lookup_insert_eq.
    + intros k' s' [[-> ->] | [? Hk']]%lookup_insert_Some; [lia |]. apply Hmin in Hk'. lia.
    + by rewrite lookup_insert_ne.
    + intros k' s' [[-> ->] | [? Hk']]%lookup_insert_Some; [lia |]. by apply Hmin in Hk'.
  - subst m'. split; [apply lookup_insert_eq |].
    intros k' s' [[-> ->] | [? Hk']]%lookup_insert_Some; [lia |]. by rewrite lookup_empty in Hk'.
Qed.

#[export] Instance db_zset : RedisZSet db := {|
  zview r k := zsets r !! k;
  ZREMRANGEBYSCORE now k max r :=
    put_z k (store_zset (filter (fun '(_, s) => max < s) (live_zset now (zsets r !! k)))
               (entry_expiry now (zsets r !! k))) r;
  ZSCORE now k m r := live_zset now (zsets r !! k) !! m;
  ZCARD now k r := Z.of_nat (size (live_zset now (zsets r !! k)));
  ZRANGE_first now k r := first_of (live_zset now (zsets r !! k));
  ZADD now k s m r :=
    put_z k (Some (<[m:=s]> (live_zset now (zsets r !! k)), entry_expiry now (zsets r !! k))) r;
  ZREM now k m r :=
    (put_z k (store_zset (delete m (live_zset now (zsets r !! k)))
                (entry_expiry now (zsets r !! k))) r,
     match live_zset now (zsets r !! k) !! m with Some _ => 1 | None => 0 end);
  ZPEXPIRE now k ms r := put_z k (expire_entry now ms (zsets r !! k)) r;
|}.

#[export] Instance db_zset_laws : RedisZSetLaws db.
Proof.
  split; intros; simpl; try done; try apply lookup_put.
  apply first_of_spec.
Qed.

#[export] Instance db_counter : RedisCounter db := {|
  cview r k := counters r !! k;
  GET now k r := option_map fst (visible now (counters r !! k));
  PTTL now k r := match visible now (counters r !! k) with
                  | None => -2
                  | Some (_, None) => -1
                  | Some (_, Some x) => x - now
                  end;
  INCRBY now k d r :=
    (put_c k (Some (live_counter now (counters r !! k) + d, entry_expiry now (counters r !! k))) r,
     live_counter now (counters r !! k) + d);
  CPEXPIRE now k ms r := put_c k (expire_entry now ms (counters r !! k)) r;
  CDEL now k r := put_c k None r;
|}.

#[export] Instance db_counter_laws : RedisCounterLaws db.
Proof. split; intros; simpl; try done; apply lookup_put. Qed.

#[export] Instance db_hash : RedisHash db := {|
  hview r k := hashes r !! k;
  HGET now k f r := live_hash now (hashes r !! k) !! f;
  HEXISTS now k f r := bool_decide (is_Some (live_hash now (hashes r !! k) !! f));
  HLEN now k r := Z.of_nat (size (live_hash now (hashes r !! k)));
  HINCRBY now k f d r :=
    put_h k (Some (<[f:=default 0 (live_hash now (hashes r !! k) !! f) + d]>
                     (live_hash now (hashes r !! k)), entry_expiry now (hashes r !! k))) r;
  HPEXPIRE now k ms r := put_h k (expire_entry now ms (hashes r !! k)) r;
|}.

#[export] Instance db_hash_laws : RedisHashLaws db.
Proof. split; intros; simpl; try done; apply lookup_put. Qed.

#[export] Instance db_stamp : RedisStamp db := {|
  tview r k := stamps r !! k;
  TGET now k r := option_map fst (visible now (stamps r !! k));
  TSET now k v ms r := put_t k (Some (v, Some (now + ms))) r;
  TDEL now k r := put_t k None r;
|}.

#[export] Instance db_stamp_laws : RedisStampLaws db.
Proof. split; intros; simpl; try done; apply lookup_put. Qed.

End MapRedis.

Export (hints) MapRedis.
