(* ===== verification/Concurrency.v ===== *)
(** * Distributed concurrency leases ([internal/concurrency/limiter.go])

    A lease is a member of one Redis sorted set per scope, scored with its
    expiry. [acquireScript] and [releaseScript] run atomically in Redis; they
    are defined over the [RedisZSet] interface. A call that fails in the
    client may or may not have run in the server ([io]). *)

From S2P Require Import Prelude GoStrings Redis.

Definition defaultKeyPrefix : string := "aiport".
Definition maxScopes : Z := 8.

Record Scope := mkScope { sc_Kind : string; sc_ID : Z; sc_Limit : Z }.

Record Request := mkRequest {
  rq_ID : string;
  rq_Partition : Z;
  rq_TTL : Z;
  rq_Scopes : list Scope;
}.

Record Result := mkResult { rs_Allowed : bool; rs_Scope : string; rs_RetryAfter : Z }.

(** The Redis client is configured or not; the key prefix names the keys. *)
Record Limiter := mkLimiter { lm_redis : bool; lm_keyPrefix : string }.

(** [NewWithClient] *)
Definition NewWithClient (keyPrefix : string) : Limiter :=
  mkLimiter true (if (keyPrefix =? "")%string then defaultKeyPrefix else keyPrefix).

(** The identity of a granted lease, with its [sync.Once] and the error of
    the one release. *)
Record Lease := mkLease {
  le_member : string;
  le_keys : list string;
  le_once : bool;
  le_err : bool;
}.

Inductive acquire_error :=
| NotConfigured
| RequestIDRequired
| PartitionRequired
| TTLMustBePositive
| TooManyScopes
| InvalidScope (s : Scope)
| AcquireIO
| UnexpectedResult.

Definition maxInt64 (a b : Z) : Z := if b <? a then a else b.

Definition scope_kinds : list string :=
  ["team"; "key"; "user"; "service_account"; "customer"; "provider"; "model"].

Definition validScopeKind (kind : string) : bool :=
  if bool_decide (ToLower kind ∈ scope_kinds) then (kind =? ToLower kind)%string else false.

(** [fmt.Sprintf("%s:concurrency:{gateway}:%s:%d", prefix, kind, id)] *)
Definition scope_key (prefix : string) (s : Scope) : string :=
  prefix +:+ ":concurrency:{gateway}:" +:+ sc_Kind s +:+ ":" +:+ pretty (sc_ID s).

(** The loop that validates the scopes and builds [keys] and the limits. *)
Fixpoint build_keys (prefix : string) (scopes : list Scope) :
    result acquire_error (list (string * Z)) :=
  match scopes with
  | [] => Ok []
  | s :: rest =>
      if negb (validScopeKind (sc_Kind s)) || (sc_ID s <=? 0) || (sc_Limit s <=? 0)
      then Err (InvalidScope s)
      else ks ← build_keys prefix rest; Ok ((scope_key prefix s, sc_Limit s) :: ks)
  end.

Section scripts.
Context {R : Type} `{RedisZSet R}.

(** First loop of [acquireScript]: drop expired leases and test every scope. *)
Fixpoint acquire_check (now : Z) (member : string) (i : Z) (ks : list (string * Z)) (r : R) :
    R * option (Z * Z) :=
  match ks with
  | [] => (r, None)
  | (k, limit) :: rest =>
      let r := ZREMRANGEBYSCORE now k now r in
      let existing := ZSCORE now k member r in
      let current := ZCARD now k r in
      if (match existing with Some _ => false | None => true end) && (limit <=? current)
      then
        let retry_ms :=
          match ZRANGE_first now k r with
          | Some (_, score) => Z.max 1 (score - now)
          | None => 1000
          end in
        (r, Some (i, retry_ms))
      else acquire_check now member (i + 1) rest r
  end.

(** Second loop of [acquireScript]: add the request to every scope. *)
Fixpoint acquire_add (now ttl_ms : Z) (member : string) (ks : list (string * Z)) (r : R) : R :=
  match ks with
  | [] => r
  | (k, _) :: rest =>
      let r := ZADD now k (now + ttl_ms) member r in
      let r := ZPEXPIRE now k (ttl_ms + 60000) r in
      acquire_add now ttl_ms member rest r
  end.

(** The reply [{allowed, index, retry_ms}]. *)
Definition acquireScript (now ttl_ms : Z) (member : string) (ks : list (string * Z)) (r : R) :
    R * list Z :=
  match acquire_check now member 1 ks r with
  | (r, Some (i, retry_ms)) => (r, [0; i; retry_ms])
  | (r, None) => (acquire_add now ttl_ms member ks r, [1; 0; 0])
  end.

Fixpoint releaseScript (now : Z) (member : string) (keys : list string) (r : R) : R * Z :=
  match keys with
  | [] => (r, 0)
  | k :: rest =>
      let '(r, removed) := ZREM now k member r in
      let '(r, n) := releaseScript now member rest r in
      (r, removed + n)
  end.

(** The decoding of the script's reply in [Acquire]. *)
Definition decode_reply (req : Request) (keys : list string) (values : list Z) :
    result acquire_error (option Lease * Result) :=
  match values with
  | [allowed; index; retryMs] =>
      if allowed =? 1
      then Ok (Some (mkLease (rq_ID req) keys false false), mkResult true "" 0)
      else
        let scopeIndex := index - 1 in
        let scopeIndex :=
          if (scopeIndex <? 0) || (Z.of_nat (length (rq_Scopes req)) <=? scopeIndex)
          then 0 else scopeIndex in
        match rq_Scopes req !! Z.to_nat scopeIndex with
        | Some s => Ok (None, mkResult false (sc_Kind s) (maxInt64 retryMs 1 *w Millisecond))
        | None => Err UnexpectedResult
        end
  | _ => Err UnexpectedResult
  end.

(** [Limiter.Acquire], with the server's clock in milliseconds. *)
Definition Acquire (l : option Limiter) (call : io) (now : Z) (req : Request) (r : R) :
    R * result acquire_error (option Lease * Result) :=
  if bool_decide (rq_Scopes req = []) then (r, Ok (None, mkResult true "" 0))
  else match l with
  | None => (r, Err NotConfigured)
  | Some l =>
      if negb (lm_redis l) then (r, Err NotConfigured)
      else if (rq_ID req =? "")%string then (r, Err RequestIDRequired)
      else if rq_Partition req <=? 0 then (r, Err PartitionRequired)
      else if rq_TTL req <=? 0 then (r, Err TTLMustBePositive)
      else if maxScopes <? Z.of_nat (length (rq_Scopes req)) then (r, Err TooManyScopes)
      else match build_keys (lm_keyPrefix l) (rq_Scopes req) with
      | Err e => (r, Err e)
      | Ok ks =>
          let ttl_ms := maxInt64 (Milliseconds (rq_TTL req)) 1 in
          match call with
          | IoFailedBefore => (r, Err AcquireIO)
          | IoFailedAfter => ((acquireScript now ttl_ms (rq_ID req) ks r).1, Err AcquireIO)
          | IoOk =>
              let '(r, values) := acquireScript now ttl_ms (rq_ID req) ks r in
              (r, decode_reply req (ks.*1) values)
          end
      end
  end.

(** [Lease.Release]: the body runs once; every call returns its error. *)
Definition Release (configured : bool) (call : io) (now : Z) (le : option Lease) (r : R) :
    R * option Lease * bool :=
  match le with
  | None => (r, None, false)
  | Some le =>
      if le_once le then (r, Some le, le_err le)
      else
        let done_with err := mkLease (le_member le) (le_keys le) true err in
        if negb configured || bool_decide (le_keys le = []) then (r, Some (done_with false), false)
        else match call with
        | IoOk => ((releaseScript now (le_member le) (le_keys le) r).1, Some (done_with false), false)
        | IoFailedBefore => (r, Some (done_with true), true)
        | IoFailedAfter =>
            ((releaseScript now (le_member le) (le_keys le) r).1, Some (done_with true), true)
        end
  end.
End scripts.

(** ** Cleaning expired leases *)

(** The unexpired leases of a scope. *)
Definition leases {R} `{RedisZSet R} (now : Z) (r : R) (k : string) : gmap string Z :=
  filter (fun '(_, s) => now < s) (live_zset now (zview r k)).

Section facts.
Context {R : Type} `{RedisZSetLaws R}.
Implicit Types (r : R) (ks : list (string * Z)).

(** The entry a [ZREMRANGEBYSCORE] leaves. *)
Definition cleaned (now : Z) (e : entry (gmap string Z)) : entry (gmap string Z) :=
  store_zset (filter (fun '(_, s) => now < s) (live_zset now e)) (entry_expiry now e).

Lemma live_cleaned now e :
  live_zset now (cleaned now e) = filter (fun '(_, s) => now < s) (live_zset now e).
Proof. apply live_zset_store. intros t. apply entry_expiry_future. Qed.

Lemma filter_live_idem now (m : gmap string Z) :
  filter (fun '(_, s) => now < s) (filter (fun '(_, s) => now < s) m) =
  filter (fun '(_, s) => now < s) m.
Proof. rewrite map_filter_filter. apply map_filter_ext. intros i x _. tauto. Qed.

Lemma expiry_cleaned now e :
  filter (fun '(_, s) => now < s) (live_zset now e) <> ∅ ->
  entry_expiry now (cleaned now e) = entry_expiry now e.
Proof.
  intros Hne. unfold cleaned, store_zset. case_decide; [done |].
  unfold entry_expiry at 1. simpl. destruct (entry_expiry now e) as [t|] eqn:E; [| done].
  apply entry_expiry_future in E. destruct (Z.leb_spec t now); [lia | done].
Qed.

Lemma cleaned_idem now e : cleaned now (cleaned now e) = cleaned now e.
Proof.
  unfold cleaned at 1. rewrite live_cleaned, filter_live_idem.
  destruct (decide (filter (fun '(_, s) => now < s) (live_zset now e) = ∅)) as [E|E].
  - unfold cleaned, store_zset. by rewrite !decide_True.
  - rewrite expiry_cleaned by done. done.
Qed.

(** [r'] differs from [r] by dropping expired members only. *)
Definition swept (now : Z) (r r' : R) : Prop :=
  forall k, zview r' k = zview r k \/ zview r' k = cleaned now (zview r k).

Lemma swept_refl now r : swept now r r.
Proof. intros k. by left. Qed.

Lemma swept_trans now r1 r2 r3 : swept now r1 r2 -> swept now r2 r3 -> swept now r1 r3.
Proof.
  intros H12 H23 k. destruct (H12 k) as [E12|E12], (H23 k) as [E23|E23];
    rewrite E23, E12; auto. rewrite cleaned_idem. auto.
Qed.

Lemma swept_leases now r r' k : swept now r r' -> leases now r' k = leases now r k.
Proof.
  intros Hs. unfold leases. destruct (Hs k) as [-> | ->]; [done |].
  by rewrite live_cleaned, filter_live_idem.
Qed.

Lemma sweep_one now k r : swept now r (ZREMRANGEBYSCORE now k now r).
Proof.
  intros k'. rewrite ZREMRANGEBYSCORE_view. case_decide; subst; [by right | by left].
Qed.

Lemma swept_size now r r' k :
  swept now r r' ->
  (size (live_zset now (zview r' k)) <= size (live_zset now (zview r k)))%nat.
Proof.
  intros Hs. destruct (Hs k) as [-> | ->]; [done |]. rewrite live_cleaned.
  apply map_subseteq_size, map_filter_subseteq.
Qed.

(** ** The acquisition script *)

Lemma acquire_check_swept now m i ks r : swept now r (acquire_check now m i ks r).1.
Proof.
  revert i r. induction ks as [| [k limit] ks IH]; intros i r; simpl; [apply swept_refl |].
  case_match; simpl; [apply sweep_one |]. eapply swept_trans; [apply sweep_one | apply IH].
Qed.

(** When every scope passes, each scope is clean and has room for the member
    unless it is already there. *)
Lemma acquire_check_pass now m i ks r r' :
  acquire_check now m i ks r = (r', None) ->
  Forall (fun '(k, limit) =>
    live_zset now (zview r' k) = leases now r k /\
    (is_Some (leases now r k !! m) \/ Z.of_nat (size (leases now r k)) < limit)) ks.
Proof.
  revert i r. induction ks as [| [k limit] ks IH]; intros i r; simpl; [by constructor |].
  set (r1 := ZREMRANGEBYSCORE now k now r).
  assert (live_zset now (zview r1 k) = leases now r k) as Hlive.
  { unfold r1. rewrite ZREMRANGEBYSCORE_view, decide_True by done. apply live_cleaned. }
  rewrite ZSCORE_spec, ZCARD_spec, Hlive. case_match eqn:E; [done |]. intros Hrest.
  pose proof (acquire_check_swept now m (i + 1) ks r1) as Hsw. rewrite Hrest in Hsw. simpl in Hsw.
  constructor.
  - split.
    + destruct (Hsw k) as [-> | ->]; [done |]. rewrite live_cleaned, Hlive.
      apply filter_live_idem.
    + destruct (leases now r k !! m); [left; eauto | right]. simpl in E. lia.
  - eapply Forall_impl; [exact (IH _ _ Hrest) |].
    intros [k' limit']. unfold r1. by rewrite (swept_leases _ r _ k') by apply sweep_one.
Qed.

(** When a scope refuses, it is full and the member is not in it. *)
Lemma acquire_check_deny now m i ks r r' j retry :
  acquire_check now m i ks r = (r', Some (j, retry)) ->
  i <= j /\ exists k limit, ks !! Z.to_nat (j - i) = Some (k, limit) /\
    leases now r k !! m = None /\ limit <= Z.of_nat (size (leases now r k)) /\
    (0 < limit -> forall m' s, leases now r k !! m' = Some s -> retry <= s - now) /\ 1 <= retry.
Proof.
  revert i r. induction ks as [| [k limit] ks IH]; intros i r; simpl; [done |].
  set (r1 := ZREMRANGEBYSCORE now k now r).
  assert (live_zset now (zview r1 k) = leases now r k) as Hlive.
  { unfold r1. rewrite ZREMRANGEBYSCORE_view, decide_True by done. apply live_cleaned. }
  rewrite ZSCORE_spec, ZCARD_spec, Hlive. case_match eqn:E.
  - intros Hr. injection Hr as _ <- <-. split; [lia |]. exists k, limit.
    replace (Z.to_nat (i - i)) with 0%nat by lia. split; [done |].
    destruct (leases now r k !! m) eqn:Hm; [done |]. simpl in E.
    pose proof (ZRANGE_first_spec now k r1) as Hf. rewrite Hlive in Hf.
    destruct (ZRANGE_first now k r1) as [[m0 s0]|].
    + destruct Hf as [Hin Hmin]. pose proof (proj2 (proj1 (map_lookup_filter_Some _ _ _ _) Hin)).
      simpl in *. split_and!; try done; try lia. intros _ m' s Hs%Hmin. lia.
    + split_and!; try done; try lia. intros _ m' s. by rewrite Hf, lookup_empty.
  - intros Hrest. destruct (IH _ _ Hrest) as (Hij & k' & limit' & Hk & Hrest').
    split; [lia |]. exists k', limit'.
    replace (Z.to_nat (j - i)) with (S (Z.to_nat (j - (i + 1)))) by lia. split; [done |].
    unfold r1 in Hrest'. by rewrite !(swept_leases _ r _ k') in Hrest' by apply sweep_one.
Qed.

Lemma acquire_add_view now ttl m ks r k' :
  0 < ttl ->
  zview (acquire_add now ttl m ks r) k' =
  if decide (k' ∈ ks.*1)
  then Some (<[m:=now + ttl]> (live_zset now (zview r k')), Some (now + (ttl + 60000)))
  else zview r k'.
Proof.
  intros Httl. revert r. induction ks as [| [k limit] ks IH]; intros r.
  - rewrite decide_False; [done | apply not_elem_of_nil].
  - cbn [acquire_add]. rewrite IH. rewrite !ZPEXPIRE_view, !ZADD_view.
    rewrite fmap_cons. cbn [fst].
    set (e := Some (<[m:=now + ttl]> (live_zset now (zview r k)), entry_expiry now (zview r k))).
    assert (expire_entry now (ttl + 60000) e =
            Some (<[m:=now + ttl]> (live_zset now (zview r k)), Some (now + (ttl + 60000)))) as He.
    { unfold expire_entry, e, visible. destruct (entry_expiry now (zview r k)) as [t|] eqn:Et.
      - apply entry_expiry_future in Et. destruct (Z.leb_spec t now); [lia |].
        destruct (Z.leb_spec (ttl + 60000) 0); [lia | done].
      - destruct (Z.leb_spec (ttl + 60000) 0); [lia | done]. }
    destruct (decide (k = k')) as [->|Hne].
    + rewrite (decide_True (P := k' = k')) by done.
      rewrite (decide_True (P := k' ∈ k' :: _)) by left.
      rewrite He. case_decide; [| done]. unfold live_zset at 1. simpl.
      destruct (Z.leb_spec (now + (ttl + 60000)) now); [lia |]. simpl.
      by rewrite insert_insert_eq.
    + destruct (decide (k' ∈ ks.*1)) as [Hin|Hin].
      * by rewrite decide_True by (right; done).
      * rewrite decide_False; [done |]. rewrite elem_of_cons. naive_solver.
Qed.
(** ** [Acquire] *)

(** The lease duration a request asks Redis for, in milliseconds. *)
Definition lease_ms (req : Request) : Z := maxInt64 (Milliseconds (rq_TTL req)) 1.

Lemma lease_ms_pos req : 0 < lease_ms req.
Proof. unfold lease_ms, maxInt64. case_match eqn:E; lia. Qed.

Lemma build_keys_Ok prefix scopes ks :
  build_keys prefix scopes = Ok ks ->
  ks = (fun s => (scope_key prefix s, sc_Limit s)) <$> scopes /\
  Forall (fun s => 0 < sc_Limit s) scopes.
Proof.
  revert ks. induction scopes as [| s scopes IH]; intros ks; simpl; [by intros [= <-] |].
  case_match eqn:E; [done |]. intros Hk. bind_inv. simplify_eq/=.
  destruct (IH _ Hr) as [-> HF]. split; [done |]. constructor; [lia | done].
Qed.

(** An unexpired lease added by the second loop. *)
Lemma acquire_add_leases now ttl m ks r k :
  0 < ttl ->
  leases now (acquire_add now ttl m ks r) k =
  if decide (k ∈ ks.*1) then <[m:=now + ttl]> (leases now r k) else leases now r k.
Proof.
  intros Httl. unfold leases. rewrite acquire_add_view by done. case_decide; [| done].
  unfold live_zset at 1. simpl. destruct (Z.leb_spec (now + (ttl + 60000)) now); [lia |]. simpl.
  rewrite map_filter_insert_True by lia. done.
Qed.

(** What a script that admitted leaves, and what one that refused leaves. *)
Lemma acquireScript_spec now ttl m ks r r' values :
  0 < ttl -> acquireScript now ttl m ks r = (r', values) ->
  (values = [1; 0; 0] /\
   (forall k, leases now r' k =
      if decide (k ∈ ks.*1) then <[m:=now + ttl]> (leases now r k) else leases now r k) /\
   Forall (fun '(k, limit) =>
     is_Some (leases now r k !! m) \/ Z.of_nat (size (leases now r k)) < limit) ks) \/
  (exists j retry k limit, values = [0; j; retry] /\ 1 <= j /\ 1 <= retry /\
   ks !! Z.to_nat (j - 1) = Some (k, limit) /\ (forall k, leases now r' k = leases now r k) /\
   leases now r k !! m = None /\ limit <= Z.of_nat (size (leases now r k)) /\
   (0 < limit -> forall m' s, leases now r k !! m' = Some s -> retry <= s - now)).
Proof.
  intros Httl. unfold acquireScript.
  pose proof (acquire_check_swept now m 1 ks r) as Hsw.
  destruct (acquire_check now m 1 ks r) as [r1 [[j retry]|]] eqn:E; intros [= <- <-]; simpl in Hsw.
  - right. apply acquire_check_deny in E as (Hj & k & limit & Hk & Hm & Hfull & Hret & Hret1).
    exists j, retry, k, limit. split_and!; try done. intros k'. by apply swept_leases.
  - left. split; [done |]. split.
    + intros k. rewrite acquire_add_leases by done. by rewrite (swept_leases now r r1 k Hsw).
    + eapply Forall_impl; [eapply acquire_check_pass, E |]. by intros [k limit] [_ ?].
Qed.

(** The [IoOk] path of [Acquire] reaches the script. *)
Lemma Acquire_Ok_inv l call now req r r' le res :
  rq_Scopes req <> [] -> Acquire (Some l) call now req r = (r', Ok (le, res)) ->
  exists ks values, call = IoOk /\ build_keys (lm_keyPrefix l) (rq_Scopes req) = Ok ks /\
    acquireScript now (lease_ms req) (rq_ID req) ks r = (r', values) /\
    decode_reply req (ks.*1) values = Ok (le, res).
Proof.
  intros Hne. unfold Acquire, lease_ms. rewrite bool_decide_false by done.
  repeat (case_match; try done). intros. simplify_eq. eauto 10.
Qed.

(** [Acquire] is all or nothing and enforces every cap. When it admits a
    request, the caller gets a lease on exactly the requested scopes, each of
    those scopes gains exactly this member until [now + ttl], no other scope
    changes, and a scope that did not already hold the member stays within
    its limit. When it refuses, no scope gains or loses an unexpired lease,
    and the scope it reports is full and does not hold the member. *)
Theorem Acquire_all_or_nothing (l : Limiter) (call : io) (now : Z) (req : Request) (r r' : R)
    (le : option Lease) (res : Result)
    (Hne : rq_Scopes req <> [])
    (HA : Acquire (Some l) call now req r = (r', Ok (le, res))) :
  let keys := scope_key (lm_keyPrefix l) <$> rq_Scopes req in
  if rs_Allowed res
  then le = Some (mkLease (rq_ID req) keys false false) /\
       (forall k, leases now r' k =
          if decide (k ∈ keys) then <[rq_ID req := now + lease_ms req]> (leases now r k)
          else leases now r k) /\
       (forall s, s ∈ rq_Scopes req ->
          let k := scope_key (lm_keyPrefix l) s in
          leases now r k !! rq_ID req = None -> Z.of_nat (size (leases now r' k)) <= sc_Limit s)
  else le = None /\ (forall k, leases now r' k = leases now r k) /\
       exists s, s ∈ rq_Scopes req /\ rs_Scope res = sc_Kind s /\
         let k := scope_key (lm_keyPrefix l) s in
         leases now r k !! rq_ID req = None /\ sc_Limit s <= Z.of_nat (size (leases now r k)).
Proof.
  intros keys. apply Acquire_Ok_inv in HA as (ks & values & -> & Hks & Hs & Hd); [| done].
  apply build_keys_Ok in Hks as [-> _].
  assert (((fun s => (scope_key (lm_keyPrefix l) s, sc_Limit s)) <$> rq_Scopes req).*1 = keys)
    as Hkeys by (unfold keys; by rewrite <- list_fmap_compose).
  rewrite Hkeys in Hd.
  apply acquireScript_spec in Hs as [(-> & Hl & Hroom) | Hdeny]; [| | apply lease_ms_pos].
  - simpl in Hd. simplify_eq/=. rewrite Hkeys in Hl. split; [done |]. split; [done |].
    intros s Hin Hfresh. rewrite Hl, decide_True by (by apply list_elem_of_fmap_2).
    rewrite map_size_insert_None by done.
    rewrite Forall_fmap in Hroom. pose proof (proj1 (Forall_forall _ _) Hroom s Hin) as Hs.
    simpl in Hs. rewrite Hfresh in Hs. destruct Hs as [[? [=]] | ?]; lia.
  - destruct Hdeny as (j & retry & k & limit & -> & Hj & _ & Hk & Hl & Hm & Hfull & _).
    rewrite list_lookup_fmap in Hk. apply fmap_Some in Hk as (s & Hs & [= -> ->]).
    pose proof (lookup_lt_Some _ _ _ Hs) as Hlt.
    simpl in Hd. assert ((j - 1 <? 0) || (Z.of_nat (length (rq_Scopes req)) <=? j - 1) = false) as Hb
      by lia. rewrite Hb, Hs in Hd. simplify_eq/=.
    split; [done |]. split; [done |]. exists s. split; [by eapply list_elem_of_lookup_2 |]. done.
Qed.

(** ** Release *)

Lemma releaseScript_leases now m keys r k :
  leases now (releaseScript now m keys r).1 k =
  if decide (k ∈ keys) then delete m (leases now r k) else leases now r k.
Proof.
  revert r. induction keys as [| k0 keys IH]; intros r.
  - rewrite decide_False; [done | apply not_elem_of_nil].
  - cbn [releaseScript]. destruct (ZREM now k0 m r) as [r1 n] eqn:E1.
    destruct (releaseScript now m keys r1) as [r2 n2] eqn:E2. simpl.
    specialize (IH r1). rewrite E2 in IH. simpl in IH. rewrite IH.
    assert (leases now r1 k = if decide (k0 = k) then delete m (leases now r k) else leases now r k)
      as ->.
    { pose proof (ZREM_view now k0 m r k) as Hv. rewrite E1 in Hv. simpl in Hv.
      unfold leases. rewrite Hv. case_decide; [subst k0 | done].
      rewrite live_zset_store by (intros t; apply entry_expiry_future).
      by rewrite map_filter_delete. }
    repeat case_decide; subst; rewrite ?delete_delete_eq; set_solver.
Qed.
End facts.

(** Two scopes, one of them with room for one request only. *)
Definition example_limiter : Limiter := NewWithClient "".
Definition example_req (id : string) (ttl : Z) : Request :=
  mkRequest id 7 ttl [mkScope "team" 7 2; mkScope "model" 3 1].
Definition example_db : MapRedis.db :=
  (Acquire (Some example_limiter) IoOk 1000 (example_req "a" Minute) MapRedis.empty_db).1.

Lemma Acquire_all_or_nothing_witness :
  let run := Acquire (Some example_limiter) IoOk 2000 (example_req "b" Minute) example_db in
  run.2 = Ok (None, mkResult false "model" (59000 * Millisecond)) /\
  (forall k, leases 2000 run.1 k = leases 2000 example_db k).
Proof.
  intros run. split; [vm_compute; reflexivity |].
  pose proof (Acquire_all_or_nothing example_limiter IoOk 2000 (example_req "b" Minute) example_db
    run.1 None (mkResult false "model" (59000 * Millisecond))) as Hall.
  assert (rq_Scopes (example_req "b" Minute) <> []) as Hne by done.
  assert (Acquire (Some example_limiter) IoOk 2000 (example_req "b" Minute) example_db =
          (run.1, Ok (None, mkResult false "model" (59000 * Millisecond)))) as HA.
  { unfold run. vm_compute. reflexivity. }
  exact (proj1 (proj2 (Hall Hne HA))).
Defined.

(** ** No over-admission in any run

    A system of requests that hold leases: [out] are the leases granted to
    requests that are still running. Time passes, requests acquire and
    release, and releases may be lost; a scope's limit is fixed by policy. *)

Record lease_rec := mkRec { lr_member : string; lr_keys : list string; lr_expires : Z }.

Section system.
Context {R : Type} `{RedisZSetLaws R}.
(** The configured limit of each scope key, and the shortest lease duration;
    durations differ by at most the minute the script adds to a key's life. *)
Context (lim : string -> Z) (shortest : Z).

Record sys := mkSys { s_redis : R; s_now : Z; s_out : list lease_rec }.

Inductive step : sys -> sys -> Prop :=
| step_tick r now now' out :
    now <= now' -> step (mkSys r now out) (mkSys r now' out)
| step_acquire l call req r r' res now out :
    rq_ID req ∉ lr_member <$> out ->
    (forall s, s ∈ rq_Scopes req -> sc_Limit s = lim (scope_key (lm_keyPrefix l) s)) ->
    shortest <= lease_ms req <= shortest + 60000 ->
    Acquire (Some l) call now req r = (r', res) ->
    step (mkSys r now out)
      (mkSys r' now match res with
                    | Ok (Some le, _) => mkRec (le_member le) (le_keys le) (now + lease_ms req) :: out
                    | _ => out
                    end)
| step_release configured call r r' now out rc out' le' err :
    out ≡ₚ rc :: out' ->
    Release configured call now (Some (mkLease (lr_member rc) (lr_keys rc) false false)) r =
      (r', le', err) ->
    step (mkSys r now out) (mkSys r' now out').

(** The lease is stored with its expiry, under a key that outlives it. *)
Definition stored (r : R) (now : Z) (rc : lease_rec) : Prop :=
  now < lr_expires rc -> forall k, k ∈ lr_keys rc ->
  live_zset now (zview r k) !! lr_member rc = Some (lr_expires rc) /\
  exists x, entry_expiry now (zview r k) = Some x /\ lr_expires rc <= x.

Definition inv (s : sys) : Prop :=
  (forall k, Z.of_nat (size (live_zset (s_now s) (zview (s_redis s) k))) <= lim k) /\
  Forall (stored (s_redis s) (s_now s)) (s_out s) /\
  Forall (fun rc => lr_expires rc <= s_now s + shortest + 60000) (s_out s) /\
  NoDup (lr_member <$> s_out s).

Lemma stored_tick r now now' rc : now <= now' -> stored r now rc -> stored r now' rc.
Proof.
  intros Hn Hst Hexp k Hk. destruct (Hst ltac:(lia) k Hk) as (Hl & x & Hx & Hle).
  unfold live_zset, entry_expiry, visible in *. destruct (zview r k) as [[m [t|]]|]; try done.
  destruct (Z.leb_spec t now); [done |]. simplify_eq/=.
  destruct (Z.leb_spec x now'); [lia |]. eauto.
Qed.

Lemma stored_swept now r r' rc : swept now r r' -> stored r now rc -> stored r' now rc.
Proof.
  intros Hsw Hst Hexp k Hk. destruct (Hst Hexp k Hk) as (Hl & x & Hx & Hle).
  destruct (Hsw k) as [-> | ->]; [eauto |].
  assert (filter (fun '(_, s) => now < s) (live_zset now (zview r k)) !! lr_member rc
          = Some (lr_expires rc)) as Hf by (by apply map_lookup_filter_Some).
  split; [by rewrite live_cleaned |]. exists x. split; [| done].
  rewrite expiry_cleaned; [done |]. intros Hempty. by rewrite Hempty, lookup_empty in Hf.
Qed.

Lemma stored_add now ttl m ks r rc :
  0 < ttl -> lr_member rc <> m -> lr_expires rc <= now + (ttl + 60000) ->
  stored r now rc -> stored (acquire_add now ttl m ks r) now rc.
Proof.
  intros Httl Hm Hexp Hst Hlive k Hk. destruct (Hst Hlive k Hk) as (Hl & x & Hx & Hle).
  rewrite acquire_add_view by done. case_decide; [| eauto].
  unfold live_zset at 1, entry_expiry at 1. simpl.
  destruct (Z.leb_spec (now + (ttl + 60000)) now); [lia |]. simpl.
  rewrite lookup_insert_ne by done. eauto.
Qed.

Lemma stored_added now ttl m ks r :
  0 < ttl -> stored (acquire_add now ttl m ks r) now (mkRec m (ks.*1) (now + ttl)).
Proof.
  intros Httl _ k Hk. simpl in *. rewrite acquire_add_view, decide_True by done.
  unfold live_zset at 1, entry_expiry at 1. simpl.
  destruct (Z.leb_spec (now + (ttl + 60000)) now); [lia |]. simpl.
  rewrite lookup_insert_eq. split; [done |]. eexists. split; [done | lia].
Qed.

(** The script preserves the bound and the other leases, and stores its own. *)
Lemma acquireScript_inv now ttl m ks r r' values out :
  shortest <= ttl <= shortest + 60000 -> 0 < ttl ->
  m ∉ lr_member <$> out -> Forall (fun '(k, limit) => limit = lim k) ks ->
  inv (mkSys r now out) -> acquireScript now ttl m ks r = (r', values) ->
  inv (mkSys r' now out) /\
  (values = [1; 0; 0] -> inv (mkSys r' now (mkRec m (ks.*1) (now + ttl) :: out))).
Proof.
  intros Hspread Httl Hfresh Hlim (HI1 & HI2 & HI3 & HI4) Hs. simpl in *.
  unfold acquireScript in Hs. pose proof (acquire_check_swept now m 1 ks r) as Hsw.
  destruct (acquire_check now m 1 ks r) as [r1 [[j retry]|]] eqn:E; simpl in Hsw; simplify_eq.
  - split; [| done]. split_and!; simpl; try done.
    + intros k. pose proof (swept_size now r r' k Hsw). specialize (HI1 k). lia.
    + eapply Forall_impl; [exact HI2 |]. intros rc. by apply stored_swept.
  - apply acquire_check_pass in E.
    assert (forall k, Z.of_nat (size (live_zset now
              (zview (acquire_add now ttl m ks r1) k))) <= lim k) as HI1'.
    { intros k. rewrite acquire_add_view by done. case_decide as Hin.
      - unfold live_zset at 1. simpl. destruct (Z.leb_spec (now + (ttl + 60000)) now); [lia |]. simpl.
        apply list_elem_of_fmap in Hin as ([k0 limit] & -> & Hin). simpl in *.
        pose proof (proj1 (Forall_forall _ _) E _ Hin) as [Hl Hroom]. simpl in *.
        pose proof (proj1 (Forall_forall _ _) Hlim _ Hin) as Hk. simpl in Hk. subst limit.
        rewrite Hl. destruct (leases now r k0 !! m) eqn:Hm.
        + rewrite map_size_insert_Some by (rewrite Hm; eauto).
          specialize (HI1 k0). pose proof (swept_size now r r1 k0 Hsw). rewrite Hl in *. lia.
        + rewrite map_size_insert_None by done. destruct Hroom as [[? [=]]|]; lia.
      - pose proof (swept_size now r r1 k Hsw). specialize (HI1 k). lia. }
    assert (Forall (stored (acquire_add now ttl m ks r1) now) out) as HI2'.
    { apply Forall_forall. intros rc Hrc.
      rewrite Forall_forall in HI2, HI3. specialize (HI2 _ Hrc). specialize (HI3 _ Hrc).
      simpl in HI3. apply stored_add; [done | | lia | by eapply stored_swept].
      intros <-. apply Hfresh. by apply list_elem_of_fmap_2. }
    split; [by split_and! |]. intros _. split_and!; simpl; try done.
    + constructor; [by apply stored_added | done].
    + constructor; [simpl; lia | done].
    + by apply NoDup_cons.
Qed.

Lemma stored_ZREM now k0 m r rc :
  lr_member rc <> m -> stored r now rc -> stored (ZREM now k0 m r).1 now rc.
Proof.
  intros Hm Hst Hexp k Hk. destruct (Hst Hexp k Hk) as (Hl & x & Hx & Hle).
  rewrite !ZREM_view. case_decide; [subst k0 | eauto].
  rewrite live_zset_store by (intros t; apply entry_expiry_future).
  rewrite lookup_delete_ne by done. split; [done |]. exists x. split; [| done].
  unfold store_zset. case_decide as Hd.
  - assert (delete m (live_zset now (zview r k)) !! lr_member rc = None) as Hn
      by (by rewrite Hd, lookup_empty). rewrite lookup_delete_ne in Hn by done. congruence.
  - unfold entry_expiry at 1. simpl. rewrite Hx.
    destruct (Z.leb_spec x now); [lia | done].
Qed.

Lemma ZREM_size now k0 m r k :
  (size (live_zset now (zview (ZREM now k0 m r).1 k)) <= size (live_zset now (zview r k)))%nat.
Proof.
  rewrite ZREM_view. case_decide; [subst k0 | done].
  rewrite live_zset_store by (intros t; apply entry_expiry_future).
  apply map_subseteq_size, delete_subseteq.
Qed.

Lemma releaseScript_inv now m keys r :
  (forall rc, lr_member rc <> m -> stored r now rc -> stored (releaseScript now m keys r).1 now rc) /\
  (forall k, (size (live_zset now (zview (releaseScript now m keys r).1 k))
              <= size (live_zset now (zview r k)))%nat).
Proof.
  revert r. induction keys as [| k0 keys IH]; intros r; [done |]. cbn [releaseScript].
  pose proof (stored_ZREM now k0 m r) as Hst. pose proof (ZREM_size now k0 m r) as Hsz.
  destruct (ZREM now k0 m r) as [r1 n]. simpl in Hst, Hsz. destruct (IH r1) as [IH1 IH2].
  destruct (releaseScript now m keys r1) as [r2 n2]. simpl in *. split.
  - intros rc Hm Hrc. auto.
  - intros k. etransitivity; [apply IH2 | apply Hsz].
Qed.
(** A call either leaves Redis alone and grants nothing, or runs the script. *)
Lemma Acquire_cases l call now req r r' res :
  Acquire (Some l) call now req r = (r', res) ->
  (r' = r /\ forall le x, res <> Ok (Some le, x)) \/
  exists ks values, build_keys (lm_keyPrefix l) (rq_Scopes req) = Ok ks /\
    acquireScript now (lease_ms req) (rq_ID req) ks r = (r', values) /\
    (res = Err AcquireIO \/ res = decode_reply req (ks.*1) values).
Proof.
  unfold Acquire, lease_ms. intros HA.
  repeat (case_match; simplify_eq; try (by left)); right.
  - eauto 10.
  - destruct (acquireScript _ _ _ _ _) as [r1 v] eqn:E. simpl. eauto 10.
Qed.

Lemma Acquire_inv l call req r r' res now out :
  rq_ID req ∉ lr_member <$> out ->
  (forall s, s ∈ rq_Scopes req -> sc_Limit s = lim (scope_key (lm_keyPrefix l) s)) ->
  shortest <= lease_ms req <= shortest + 60000 ->
  inv (mkSys r now out) -> Acquire (Some l) call now req r = (r', res) ->
  inv (mkSys r' now match res with
                    | Ok (Some le, _) => mkRec (le_member le) (le_keys le) (now + lease_ms req) :: out
                    | _ => out
                    end).
Proof.
  intros Hfresh Hlim Hspread Hinv HA.
  destruct (Acquire_cases _ _ _ _ _ _ _ HA) as [[-> Hno] | (ks & values & Hks & Hs & Hres)].
  { destruct res as [[[le|] x]|]; [by destruct (Hno le x) | done | done]. }
  apply build_keys_Ok in Hks as [-> _].
  assert (Forall (fun '(k, limit) => limit = lim k)
    ((fun s => (scope_key (lm_keyPrefix l) s, sc_Limit s)) <$> rq_Scopes req)) as Hpol
    by (apply Forall_fmap, Forall_forall; intros s Hsc; simpl; by apply Hlim).
  destruct (acquireScript_inv _ _ _ _ _ _ _ _ Hspread (lease_ms_pos req) Hfresh Hpol Hinv Hs)
    as [Hi Hi1].
  destruct Hres as [-> | ->]; [done |].
  apply acquireScript_spec in Hs as [(-> & _) | Hd]; [| | apply lease_ms_pos].
  - simpl. by apply Hi1.
  - destruct Hd as (j & retry & k & limit & -> & _). unfold decode_reply.
    repeat (case_match; simplify_eq; try done).
Qed.

Lemma Release_inv configured call r r' now out rc out' le' err :
  out ≡ₚ rc :: out' ->
  Release configured call now (Some (mkLease (lr_member rc) (lr_keys rc) false false)) r =
    (r', le', err) ->
  inv (mkSys r now out) -> inv (mkSys r' now out').
Proof.
  intros Hp HR (HI1 & HI2 & HI3 & HI4). simpl in *. rewrite Hp in *.
  apply Forall_cons in HI2 as [_ HI2]. apply Forall_cons in HI3 as [_ HI3].
  rewrite fmap_cons in HI4. apply NoDup_cons in HI4 as [Hnin HI4].
  assert (r' = r \/ r' = (releaseScript now (lr_member rc) (lr_keys rc) r).1) as Hr'.
  { unfold Release in HR. simpl in HR. repeat case_match; simplify_eq; auto. }
  destruct Hr' as [-> | ->]; [by split_and! |].
  destruct (releaseScript_inv now (lr_member rc) (lr_keys rc) r) as [Hst Hsz].
  split_and!; simpl; try done.
  - intros k. specialize (HI1 k). specialize (Hsz k). lia.
  - apply Forall_forall. intros rc' Hrc'. rewrite Forall_forall in HI2.
    apply Hst; [| by apply HI2]. intros Heq. apply Hnin. rewrite <- Heq.
    by apply list_elem_of_fmap_2.
Qed.

Lemma lease_inv_step s s' : step s s' -> inv s -> inv s'.
Proof.
  destruct 1 as [r now now' out Hn | l call req r r' res now out Hf Hl Hsp HA
                | configured call r r' now out rc out' le' err Hp HR]; intros Hinv.
  - destruct Hinv as (HI1 & HI2 & HI3 & HI4). split_and!; simpl in *; try done.
    + intros k. specialize (HI1 k).
      pose proof (map_subseteq_size _ _ (live_zset_later_subseteq now now' (zview r k) Hn)). lia.
    + eapply Forall_impl; [exact HI2 |]. intros rc. by apply stored_tick.
    + eapply Forall_impl; [exact HI3 |]. simpl. intros rc ?. lia.
  - by eapply Acquire_inv.
  - by eapply Release_inv.
Qed.

(** The running requests whose lease on [k] has not expired. *)
Definition holders (s : sys) (k : string) : list lease_rec :=
  filter (fun rc => k ∈ lr_keys rc /\ s_now s < lr_expires rc) (s_out s).

Lemma NoDup_lookup_size (m : gmap string Z) (l : list string) :
  NoDup l -> (forall x, x ∈ l -> is_Some (m !! x)) -> (length l <= size m)%nat.
Proof.
  intros Hnd Hin. rewrite <- (size_dom (D := gset string)).
  rewrite <- (size_list_to_set (C := gset string) l Hnd).
  apply subseteq_size. intros x Hx%elem_of_list_to_set. by apply elem_of_dom, Hin.
Qed.

Lemma NoDup_fmap_filter {A} (f : A -> string) (P : A -> Prop) `{!forall x, Decision (P x)} (l : list A) :
  NoDup (f <$> l) -> NoDup (f <$> filter P l).
Proof.
  intros Hnd. eapply sublist_NoDup; [exact Hnd |].
  apply fmap_sublist. induction l as [| x l IH]; [constructor |].
  apply NoDup_cons in Hnd as [_ Hnd]. rewrite filter_cons.
  case_decide; constructor; by apply IH.
Qed.

Lemma inv_holders s k : inv s -> Z.of_nat (length (holders s k)) <= lim k.
Proof.
  intros (HI1 & HI2 & _ & HI4). etransitivity; [| apply (HI1 k)]. apply inj_le.
  rewrite <- (length_fmap lr_member). apply NoDup_lookup_size.
  - by apply NoDup_fmap_filter.
  - intros m Hm. apply list_elem_of_fmap in Hm as (rc & -> & Hrc).
    apply list_elem_of_filter in Hrc as [[Hk Hexp] Hrc].
    rewrite Forall_forall in HI2. destruct (HI2 rc Hrc Hexp k Hk) as [Hl _]. eauto.
Qed.

(** C3. Distributed caps hold in every run: starting from an empty database,
    whatever the order of acquisitions, lost replies, releases, lost releases
    and passing time, the running requests with an unexpired lease on a scope
    never exceed that scope's limit, provided the requested lease durations
    differ by at most one minute. *)
Theorem leases_never_exceed_limit (r0 : R) (t0 : Z) (s : sys) (k : string)
    (Hlim : forall k, 0 <= lim k) (Hempty : forall k, zview r0 k = None)
    (Hrun : rtc step (mkSys r0 t0 []) s) :
  Z.of_nat (length (holders s k)) <= lim k.
Proof.
  apply inv_holders. assert (inv (mkSys r0 t0 [])) as H0i.
  { split_and!; simpl; try by constructor. intros k0. rewrite Hempty. unfold live_zset. simpl.
    rewrite map_size_empty. simpl. apply Hlim. }
  remember (mkSys r0 t0 []) as s0 eqn:E. clear E.
  induction Hrun as [| s1 s2 s3 Hstep _ IH]; [done |]. apply IH. by eapply lease_inv_step.
Qed.
End system.

(** A policy of two requests per scope, and a run in which a lease is taken
    and another is taken after thirty seconds. *)
Definition example_policy : string -> Z := fun _ => 2.
Definition team_req (id : string) (ttl : Z) : Request :=
  mkRequest id 7 ttl [mkScope "team" 7 2].
Definition team_key : string := scope_key "aiport" (mkScope "team" 7 2).
Definition team_acquire (id : string) (ttl now : Z) (r : MapRedis.db) :=
  Acquire (Some example_limiter) IoOk now (team_req id ttl) r.

(** Two running requests hold the scope at [30000] ms. *)
Definition example_run : sys :=
  let r1 := (team_acquire "a" Minute 0 MapRedis.empty_db).1 in
  mkSys (team_acquire "b" Minute 30000 r1).1 30000
    [mkRec "b" [team_key] 90000; mkRec "a" [team_key] 60000].

Lemma team_acquire_step id r r' x now out :
  id ∉ lr_member <$> out -> (id =? "")%string = false ->
  team_acquire id Minute now r = (r', Ok (Some (mkLease id [team_key] false false), x)) ->
  step example_policy 60000 (mkSys r now out)
    (mkSys r' now (mkRec id [team_key] (now + 60000) :: out)).
Proof.
  intros Hfresh Hid HA. unfold team_acquire in HA.
  eapply (step_acquire example_policy 60000 example_limiter IoOk (team_req id Minute)) in HA.
  - exact HA.
  - exact Hfresh.
  - intros s Hs. apply list_elem_of_singleton in Hs as ->. reflexivity.
  - change (lease_ms (team_req id Minute)) with 60000. lia.
Qed.

Lemma example_run_reachable :
  rtc (step example_policy 60000) (mkSys MapRedis.empty_db 0 []) example_run.
Proof.
  eapply rtc_l.
  { eapply (team_acquire_step "a"); [apply not_elem_of_nil | done | vm_compute; reflexivity]. }
  eapply rtc_l; [apply (step_tick _ _ _ _ 30000); lia |].
  eapply rtc_l; [| apply rtc_refl].
  eapply (team_acquire_step "b"); [| done | vm_compute; reflexivity].
  intros HH. by inversion HH as [| ? ? ? HH2]; inversion HH2.
Qed.

Lemma leases_never_exceed_limit_witness :
  length (holders example_run team_key) = 2%nat /\
  Z.of_nat (length (holders example_run team_key)) <= example_policy team_key.
Proof.
  split; [vm_compute; reflexivity |].
  apply (leases_never_exceed_limit example_policy 60000 MapRedis.empty_db 0 example_run team_key).
  - unfold example_policy. lia.
  - intros k. apply lookup_empty.
  - exact example_run_reachable.
Defined.

(** The one-minute proviso is needed. [acquireScript] sets the key's
    lifetime to the newest lease's duration plus one minute, also when an
    older lease lives longer. With a cap of two: a thirty-minute lease "a" is
    taken, then a two-minute lease "b"; when the key expires three minutes
    later Redis forgets "a", and two more requests are admitted while "a" is
    still running and unexpired, three against a cap of two. *)
Theorem short_lease_expires_longer_one :
  let r1 := team_acquire "a" (30 * Minute) 0 MapRedis.empty_db in
  let r2 := team_acquire "b" (2 * Minute) 0 r1.1 in
  let r3 := team_acquire "c" (2 * Minute) 180000 r2.1 in
  let r4 := team_acquire "d" (2 * Minute) 180000 r3.1 in
  Forall (fun x => match x with Ok (Some _, res) => rs_Allowed res = true | _ => False end)
    [r1.2; r2.2; r3.2; r4.2] /\
  leases 0 r1.1 team_key !! "a" = Some 1800000 /\ 180000 < 1800000 /\
  leases 180000 r4.1 team_key !! "a" = None.
Proof. vm_compute. repeat constructor. Qed.
