(* ===== verification/Models.v ===== *)
(** * Rows of the control plane and the model allowlist policy

    The structs of [internal/store] that the request path reads
    ([store/models.go], [store/users.go], [store/service_accounts.go],
    [store/customers.go]), the allowlist rules of [store/policy.go], and the
    effective allowlist of [api/effective_policy.go]. A JSON metadata column
    is kept as its text. *)

From S2P Require Import Prelude GoStrings.

Record Team := mkTeam {
  tm_ID : Z;
  tm_Slug : string;
  tm_Name : string;
  tm_UsdLimitCents : option Z;
  tm_Period : string;
  tm_AllowedModels : list string;
  tm_RPM : option Z;
  tm_TPM : option Z;
  tm_MaxParallelRequests : option Z;
  tm_CapturePayloads : bool;
  tm_CustomerRegistration : string;
  tm_CreatedAt : Z;
  tm_ArchivedAt : option Z;
}.

Record VirtualKey := mkVirtualKey {
  vk_ID : Z;
  vk_TeamID : Z;
  vk_UserID : option Z;
  vk_ServiceAccountID : option Z;
  vk_KeyPrefix : string;
  vk_Name : string;
  vk_Metadata : string;
  vk_AllowedModels : list string;
  vk_AllowedCIDRs : list string;
  vk_ScopedRPM : option Z;
  vk_ScopedTPM : option Z;
  vk_MaxParallelRequests : option Z;
  vk_ScopedUsdLimitCents : option Z;
  vk_ExpiresAt : option Z;
  vk_RotatedFromKeyID : option Z;
  vk_LastUsedAt : option Z;
  vk_CreatedAt : Z;
  vk_RevokedAt : option Z;
  vk_DisabledAt : option Z;
  vk_OwnerUserEmail : string;
  vk_OwnerUserName : string;
  vk_ServiceAccountName : string;
  vk_OwnerMaxParallelRequests : option Z;
}.

Definition RoleAdmin : string := "admin".
Definition RoleManager : string := "manager".
Definition RoleMember : string := "member".

Record User := mkUser {
  us_ID : Z;
  us_Email : string;
  us_Name : string;
  us_TeamID : option Z;
  us_TeamSlug : string;
  us_Role : string;
  us_IsAdmin : bool;
  us_UsdLimitCents : option Z;
  us_Period : string;
  us_MaxParallelRequests : option Z;
  us_OIDCSub : string;
  us_RoleManagedByOIDC : bool;
  us_DisabledAt : option Z;
  us_CreatedAt : Z;
  us_LastLoginAt : option Z;
  us_ArchivedAt : option Z;
}.

Record ServiceAccount := mkServiceAccount {
  sa_ID : Z;
  sa_TeamID : Z;
  sa_TeamSlug : string;
  sa_Name : string;
  sa_Description : string;
  sa_UsdLimitCents : option Z;
  sa_Period : string;
  sa_RPM : option Z;
  sa_TPM : option Z;
  sa_MaxParallelRequests : option Z;
  sa_CreatedBy : option Z;
  sa_CreatedAt : Z;
  sa_ArchivedAt : option Z;
}.

Record Customer := mkCustomer {
  cu_ID : Z;
  cu_TeamID : Z;
  cu_ExternalID : string;
  cu_Name : string;
  cu_Metadata : string;
  cu_UsdLimitCents : option Z;
  cu_Period : string;
  cu_RPM : option Z;
  cu_TPM : option Z;
  cu_MaxParallelRequests : option Z;
  cu_ArchivedAt : option Z;
  cu_CreatedAt : Z;
}.

(** ** Model allowlists ([store/policy.go]) *)

Definition wildcard : string := "*".

(** The loop of [allowsModel]. *)
Fixpoint any_allows (allowed : list string) (alias : string) : bool :=
  match allowed with
  | [] => false
  | candidate :: rest =>
      if (candidate =? wildcard)%string || (candidate =? alias)%string then true
      else any_allows rest alias
  end.

Definition allowsModel (allowed : list string) (alias : string) : bool :=
  if (alias =? "")%string || bool_decide (allowed = []) then true
  else any_allows allowed alias.

Definition Team_AllowsModel (t : option Team) (alias : string) : bool :=
  match t with None => true | Some t => allowsModel (tm_AllowedModels t) alias end.

Definition VirtualKey_AllowsModel (vk : option VirtualKey) (alias : string) : bool :=
  match vk with None => true | Some vk => allowsModel (vk_AllowedModels vk) alias end.

(** [V1Handler.modelAllowed] *)
Definition modelAllowed (team : option Team) (vk : option VirtualKey) (alias : string) : bool :=
  if negb (Team_AllowsModel team alias) then false
  else if negb (VirtualKey_AllowsModel vk alias) then false
  else true.

(** The loop of [normalizeAllowedModels]: [None] when it meets the wildcard,
    otherwise the distinct non-empty trimmed names in order. *)
Fixpoint normalize_loop (seen : list string) (allowed : list string) : option (list string) :=
  match allowed with
  | [] => Some []
  | value :: rest =>
      let value := TrimSpace value in
      if (value =? "")%string then normalize_loop seen rest
      else if (value =? wildcard)%string then None
      else if bool_decide (value ∈ seen) then normalize_loop seen rest
      else out ← normalize_loop (value :: seen) rest; Some (value :: out)
  end.

Definition normalizeAllowedModels (allowed : list string) : list string :=
  match allowed with
  | [] => [wildcard]
  | _ =>
      match normalize_loop [] allowed with
      | None => [wildcard]
      | Some [] => [wildcard]
      | Some out => out
      end
  end.

(** ** The effective allowlist ([api/effective_policy.go]) *)

Fixpoint has_wildcard (allowed : list string) : bool :=
  match allowed with
  | [] => false
  | a :: rest => if (a =? wildcard)%string then true else has_wildcard rest
  end.

Definition isWildcard (allowed : list string) : bool :=
  match allowed with [] => true | _ => has_wildcard allowed end.

Definition intersectAllowed (team key : list string) : list string :=
  if isWildcard team && isWildcard key then [wildcard]
  else if isWildcard team then key
  else if isWildcard key then team
  else filter (fun t => t ∈ key) team.

(** ** Facts about allowlists *)

Lemma any_allows_spec allowed alias :
  any_allows allowed alias = true <-> wildcard ∈ allowed \/ alias ∈ allowed.
Proof.
  induction allowed as [| c rest IH]; simpl.
  - rewrite !elem_of_nil. intuition discriminate.
  - rewrite !elem_of_cons. destruct (String.eqb_spec c wildcard), (String.eqb_spec c alias); simpl;
      rewrite ?IH; intuition congruence.
Qed.

Lemma has_wildcard_spec allowed : has_wildcard allowed = true <-> wildcard ∈ allowed.
Proof.
  induction allowed as [| c rest IH]; simpl.
  - rewrite elem_of_nil. intuition discriminate.
  - rewrite elem_of_cons. destruct (String.eqb_spec c wildcard); simpl; rewrite ?IH; intuition congruence.
Qed.

Lemma isWildcard_spec allowed : isWildcard allowed = true <-> allowed = [] \/ wildcard ∈ allowed.
Proof.
  unfold isWildcard. destruct allowed as [| a rest]; [intuition |].
  rewrite has_wildcard_spec. intuition discriminate.
Qed.

Lemma allowsModel_spec allowed alias :
  allowsModel allowed alias = true <->
  alias = "" \/ isWildcard allowed = true \/ alias ∈ allowed.
Proof.
  unfold allowsModel. rewrite isWildcard_spec.
  destruct (String.eqb_spec alias ""); simpl; [intuition |].
  destruct (bool_decide_reflect (allowed = [])); [intuition |].
  rewrite any_allows_spec. intuition.
Qed.

(** The allowlist the console reports is the one requests are checked
    against: a named model passes the team and key checks exactly when the
    effective allowlist contains the wildcard or that name. *)
Theorem effective_allowlist_correct (team : Team) (vk : VirtualKey) (alias : string)
    (Halias : alias <> "") :
  modelAllowed (Some team) (Some vk) alias = true <->
  wildcard ∈ intersectAllowed (tm_AllowedModels team) (vk_AllowedModels vk) \/
  alias ∈ intersectAllowed (tm_AllowedModels team) (vk_AllowedModels vk).
Proof.
  assert (modelAllowed (Some team) (Some vk) alias = true <->
          allowsModel (tm_AllowedModels team) alias = true /\
          allowsModel (vk_AllowedModels vk) alias = true) as ->.
  { unfold modelAllowed, Team_AllowsModel, VirtualKey_AllowsModel.
    destruct (allowsModel (tm_AllowedModels team) alias),
      (allowsModel (vk_AllowedModels vk) alias); simpl; intuition discriminate. }
  rewrite !allowsModel_spec. unfold intersectAllowed.
  pose proof (isWildcard_spec (tm_AllowedModels team)) as HT.
  pose proof (isWildcard_spec (vk_AllowedModels vk)) as HK.
  destruct (isWildcard (tm_AllowedModels team)), (isWildcard (vk_AllowedModels vk));
    simpl; rewrite ?list_elem_of_singleton, ?list_elem_of_filter; intuition congruence.
Qed.

Definition witness_team : Team :=
  mkTeam 1 "core" "Core" None "month" ["gpt"; "claude"] (Some 60) (Some 1000) None false "open" 1 None.

Definition witness_key : VirtualKey :=
  mkVirtualKey 7 1 None None "gmx" "ci" "{}" ["claude"; "mistral"] [] (Some 30) None None None None
    None None 1 None None "" "" "" None.

Lemma effective_allowlist_correct_witness :
  modelAllowed (Some witness_team) (Some witness_key) "claude" = true /\
  (wildcard ∈ intersectAllowed ["gpt"; "claude"] ["claude"; "mistral"] \/
   "claude" ∈ intersectAllowed ["gpt"; "claude"] ["claude"; "mistral"]).
Proof.
  split; [reflexivity |].
  apply (proj1 (effective_allowlist_correct witness_team witness_key "claude" ltac:(discriminate))).
  reflexivity.
Defined.

(** ** Normalisation *)

(** The loop keeps exactly the new non-empty trimmed names, each once. *)
Lemma normalize_loop_spec seen allowed :
  match normalize_loop seen allowed with
  | None => wildcard ∈ map TrimSpace allowed
  | Some out =>
      (wildcard ∉ map TrimSpace allowed) /\ NoDup out /\
      (forall m, (m ∈ out) <-> (m <> "" /\ (m ∉ seen) /\ m ∈ map TrimSpace allowed))
  end.
Proof.
  revert seen. induction allowed as [| a rest IH]; intros seen; simpl.
  { split_and!; [apply not_elem_of_nil | constructor |]. intros m. rewrite !elem_of_nil. tauto. }
  destruct (String.eqb_spec (TrimSpace a) "") as [E|E].
  { specialize (IH seen). rewrite E. destruct (normalize_loop seen rest) as [out|].
    - destruct IH as (Hw & Hn & Hm). rewrite not_elem_of_cons. split_and!; try done.
      intros m. rewrite Hm, elem_of_cons. intuition.
    - rewrite elem_of_cons. by right. }
  destruct (String.eqb_spec (TrimSpace a) wildcard) as [W|W].
  { rewrite W. apply elem_of_cons. by left. }
  destruct (bool_decide_reflect (TrimSpace a ∈ seen)) as [S|S].
  - specialize (IH seen). destruct (normalize_loop seen rest) as [out|].
    + destruct IH as (Hw & Hn & Hm). rewrite not_elem_of_cons. split_and!; try done.
      intros m. rewrite Hm, elem_of_cons. intuition congruence.
    + rewrite elem_of_cons. by right.
  - specialize (IH (TrimSpace a :: seen)). destruct (normalize_loop _ rest) as [out|]; simpl.
    + destruct IH as (Hw & Hn & Hm). rewrite not_elem_of_cons. split_and!; try done.
      * constructor; [| done]. rewrite Hm, not_elem_of_cons. intuition.
      * intros m. rewrite !elem_of_cons, Hm, not_elem_of_cons.
        destruct (decide (m = TrimSpace a)) as [->|]; intuition.
    + rewrite elem_of_cons. by right.
Qed.

(** Normalisation neither widens nor narrows an allowlist beyond the
    trimming it is meant to do: a stored list admits a trimmed model name
    exactly when a trimmed entry of the submitted list is that name or the
    wildcard, or when the list has no entry that is not blank. *)
Theorem normalize_preserves_meaning (allowed : list string) (alias : string)
    (Halias : alias <> "") :
  allowsModel (normalizeAllowedModels allowed) alias = true <->
  wildcard ∈ map TrimSpace allowed \/ alias ∈ map TrimSpace allowed \/
  (forall m, m ∈ map TrimSpace allowed -> m = "").
Proof.
  rewrite allowsModel_spec, isWildcard_spec.
  assert (normalizeAllowedModels allowed =
    match normalize_loop [] allowed with
    | None => [wildcard] | Some [] => [wildcard] | Some out => out end) as ->
    by (destruct allowed; done).
  pose proof (normalize_loop_spec [] allowed) as Hs.
  destruct (normalize_loop [] allowed) as [[| x out]|].
  - destruct Hs as (Hw & _ & Hm). rewrite !list_elem_of_singleton.
    split; [intros _ | auto]. right; right. intros m Hin.
    destruct (decide (m = "")) as [| Hne]; [done |]. exfalso.
    apply (not_elem_of_nil m). apply Hm. split_and!; [done | apply not_elem_of_nil | done].
  - destruct Hs as (Hw & _ & Hm). rewrite !Hm.
    assert (exists m, m ∈ map TrimSpace allowed /\ m <> "") as (m0 & ? & Hne).
    { exists x. pose proof (proj1 (Hm x) ltac:(apply elem_of_cons; by left)). tauto. }
    pose proof (not_elem_of_nil (A:=string) alias). intuition (try discriminate).
    + exfalso. eauto.
  - rewrite list_elem_of_singleton. tauto.
Qed.

Lemma normalize_preserves_meaning_witness :
  allowsModel (normalizeAllowedModels [" gpt "; ""; "gpt"]) "gpt" = true.
Proof.
  apply (proj2 (normalize_preserves_meaning [" gpt "; ""; "gpt"] "gpt" ltac:(discriminate))).
  right; left. vm_compute. constructor.
Defined.
