(* ===== verification/Providers.v ===== *)
(** * The provider interface ([internal/providers])

    Capabilities, the projection of a chat or embedding request that routing
    and admission read, and the classification of upstream errors
    ([provider.go], [errors.go], [embedding_input.go]). The raw JSON a request
    keeps for forwarding is not part of this projection, except the field [n]
    that bounds the number of completions. *)

From S2P Require Import Prelude.

(** ** Capabilities *)

Inductive Capability :=
| CapabilityNone  (** the empty string: no constraint *)
| CapabilityChat
| CapabilityStreamChat
| CapabilityEmbeddings
| CapabilityResponses.

#[export] Instance Capability_eq_dec : EqDecision Capability.
Proof. solve_decision. Defined.

Record Capabilities := mkCapabilities {
  cap_Chat : bool;
  cap_StreamChat : bool;
  cap_Embeddings : bool;
  cap_Responses : bool;
}.

Definition Supports (c : Capabilities) (capability : Capability) : bool :=
  match capability with
  | CapabilityChat => cap_Chat c
  | CapabilityStreamChat => cap_Chat c && cap_StreamChat c
  | CapabilityEmbeddings => cap_Embeddings c
  | CapabilityResponses => cap_Responses c
  | CapabilityNone => true
  end.

(** ** Requests *)

Record ChatMessage := mkChatMessage { msg_Role : string; msg_Content : string }.

(** The field [n] of the raw request: absent or [null], an integer, or a value
    that does not decode as an [int]. *)
Inductive raw_n := NAbsent | NInt (n : Z) | NInvalid.

Record ChatRequest := mkChatRequest {
  cr_Model : string;
  cr_Messages : list ChatMessage;
  cr_Stream : bool;
  cr_IncludeUsage : option bool;
  cr_MaxTokens : option Z;
  cr_MaxCompletionTokens : option Z;
  cr_User : string;
  cr_raw_n : raw_n;
}.

Definition OutputTokenLimit (r : ChatRequest) : option Z :=
  match cr_MaxCompletionTokens r with
  | Some _ => cr_MaxCompletionTokens r
  | None => cr_MaxTokens r
  end.

Inductive bound_error := BothLimits | LimitOutOfRange | NOutOfRange.

(** [BoundCustomerCompletion] returns the bound and the request, which it may
    give an explicit limit. *)
Definition BoundCustomerCompletion (r : ChatRequest) :
    ChatRequest * result bound_error Z :=
  match cr_MaxTokens r, cr_MaxCompletionTokens r with
  | Some _, Some _ => (r, Err BothLimits)
  | _, _ =>
      let r :=
        match OutputTokenLimit r with
        | None =>
            mkChatRequest (cr_Model r) (cr_Messages r) (cr_Stream r) (cr_IncludeUsage r)
              (cr_MaxTokens r) (Some 1024) (cr_User r) (cr_raw_n r)
        | Some _ => r
        end in
      let limit := deref (OutputTokenLimit r) in
      if (limit <? 1) || (1000000 <? limit) then (r, Err LimitOutOfRange)
      else match cr_raw_n r with
      | NAbsent => (r, Ok (limit *w 1))
      | NInvalid => (r, Err NOutOfRange)
      | NInt n => if (n <? 1) || (128 <? n) then (r, Err NOutOfRange) else (r, Ok (limit *w n))
      end
  end.

Record EmbeddingInput := mkEmbeddingInput {
  ei_Texts : list string;
  ei_Tokens : list (list Z);
  ei_single : bool;
}.

Definition IsTokenized (i : EmbeddingInput) : bool := 0 <? Z.of_nat (length (ei_Tokens i)).

Definition Len (i : EmbeddingInput) : Z :=
  if IsTokenized i then Z.of_nat (length (ei_Tokens i)) else Z.of_nat (length (ei_Texts i)).

Record EmbeddingRequest := mkEmbeddingRequest {
  er_Model : string;
  er_Input : EmbeddingInput;
  er_User : string;
}.

(** ** Errors *)

Record UpstreamError := mkUpstreamError {
  ue_Provider : string;
  ue_StatusCode : Z;
  ue_Message : string;
}.

(** An error and its chain, as [errors.Is] and [errors.As] see it: a wrapped
    error is searched after the wrapper itself. *)
Inductive go_error :=
| EUpstream (e : UpstreamError)
| ECanceled
| EDeadlineExceeded
| ENet (msg : string)
| EOther (msg : string)
| EWrap (msg : string) (inner : go_error).

Fixpoint as_upstream (e : go_error) : option UpstreamError :=
  match e with EUpstream u => Some u | EWrap _ e => as_upstream e | _ => None end.

Fixpoint is_canceled (e : go_error) : bool :=
  match e with ECanceled => true | EWrap _ e => is_canceled e | _ => false end.

(** [context.DeadlineExceeded] is an error of its own and also a [net.Error]. *)
Fixpoint is_deadline (e : go_error) : bool :=
  match e with EDeadlineExceeded => true | EWrap _ e => is_deadline e | _ => false end.

Fixpoint as_net (e : go_error) : bool :=
  match e with ENet _ | EDeadlineExceeded => true | EWrap _ e => as_net e | _ => false end.

Definition Retryable (e : UpstreamError) : bool :=
  (ue_StatusCode e =? 429) || (500 <=? ue_StatusCode e).

Definition IsRetryable (err : option go_error) : bool :=
  match err with
  | None => false
  | Some err =>
      match as_upstream err with
      | Some upstream => Retryable upstream
      | None =>
          if is_canceled err then false
          else if is_deadline err then true
          else if as_net err then true
          else false
      end
  end.

(** The text of an error. *)
Fixpoint error_text (e : go_error) : string :=
  match e with
  | EUpstream u =>
      if 0 <? ue_StatusCode u
      then ue_Provider u +:+ " status " +:+ pretty (ue_StatusCode u) +:+ ": " +:+ ue_Message u
      else ue_Provider u +:+ " upstream error: " +:+ ue_Message u
  | ECanceled => "context canceled"
  | EDeadlineExceeded => "context deadline exceeded"
  | ENet m | EOther m => m
  | EWrap m e => m +:+ ": " +:+ error_text e
  end.

(** ** Facts *)

(** A streaming deployment is a chat deployment. *)
Lemma Supports_stream_chat c :
  Supports c CapabilityStreamChat = true -> Supports c CapabilityChat = true.
Proof. unfold Supports. destruct (cap_Chat c); [done | discriminate]. Qed.

(** A customer-controlled request that is accepted has an explicit output
    limit, and the bound used for admission is at least that limit, at most
    128 million, and never wrapped. *)
Theorem BoundCustomerCompletion_bounds (r r' : ChatRequest) (b : Z)
    (H : BoundCustomerCompletion r = (r', Ok b)) :
  exists limit n, OutputTokenLimit r' = Some limit /\ 1 <= limit <= 1000000 /\ 1 <= n <= 128 /\
    b = limit * n /\ (OutputTokenLimit r <> None -> r' = r) /\ cr_Messages r' = cr_Messages r.
Proof.
  unfold BoundCustomerCompletion in H.
  assert (Hw : forall l n, 1 <= l <= 1000000 -> 1 <= n <= 128 -> wrap64 (l * n) = l * n).
  { intros l n Hl Hn. apply wrap64_id. unfold int64_ok, MinInt64, MaxInt64. nia. }
  destruct (cr_MaxTokens r) as [mt|] eqn:E1, (cr_MaxCompletionTokens r) as [mc|] eqn:E2;
    [discriminate | | |]; unfold OutputTokenLimit in *; rewrite ?E1, ?E2 in *;
    cbn [deref default cr_MaxCompletionTokens cr_MaxTokens cr_raw_n] in H;
    rewrite ?E1, ?E2 in *; cbn [deref default from_option id] in H.
  all: match type of H with (if ?c then _ else _) = _ => destruct c eqn:C; [discriminate |] end.
  all: destruct (cr_raw_n r) as [| n |]; [| destruct ((n <? 1) || (128 <? n)) eqn:N |];
    try discriminate; injection H as <- <-; rewrite ?E1, ?E2; cbn [cr_MaxCompletionTokens cr_Messages];
    rewrite Hw by lia;
    lazymatch goal with
    | _ : (?n <? 1) || (128 <? ?n) = false |- _ => eexists _, n
    | _ => eexists _, 1
    end; split_and!; try reflexivity; try lia; try done.
Qed.

Lemma BoundCustomerCompletion_bounds_witness :
  exists r', BoundCustomerCompletion (mkChatRequest "gpt" [] false None (Some 500) None "" (NInt 2))
    = (r', Ok 1000) /\
  exists limit n, OutputTokenLimit r' = Some limit /\ 1 <= limit <= 1000000 /\ 1 <= n <= 128 /\
    1000 = limit * n.
Proof.
  eexists. split; [reflexivity |].
  destruct (BoundCustomerCompletion_bounds
    (mkChatRequest "gpt" [] false None (Some 500) None "" (NInt 2)) _ 1000 eq_refl)
    as (l & n & H1 & H2 & H3 & H4 & _).
  exists l, n. split_and!; first [exact H1 | exact H4 | lia].
Defined.
