(* ===== verification/RateLimit.v ===== *)
(** * Request and token rate limits ([internal/ratelimit])

    Fixed one-minute windows, counted either in a map under a mutex
    ([checkMemory]) or by a Redis script ([checkRedis]). The script is defined
    over the [RedisCounter] interface, with Lua's numbers rounded as doubles are
    ([double]). Both backends are related to one abstract decision: the
    first spec whose counter would pass its limit refuses the request. *)

From S2P Require Import Prelude GoStrings Models Providers Redis.

Definition windowSize : Z := Minute.

Record Check := mkCheck {
  ck_Team : option Team;
  ck_Key : option VirtualKey;
  ck_Customer : option Customer;
  ck_Tokens : Z;
}.

Record Result := mkResult {
  rs_Allowed : bool;
  rs_RetryAfter : Z;
  rs_Scope : string;
  rs_Metric : string;
}.

Record memoryCounter := mkMemoryCounter { mc_Used : Z; mc_ExpiresAt : Z }.

Record limitSpec := mkLimitSpec {
  ls_Key : string;
  ls_Scope : string;
  ls_Metric : string;
  ls_Limit : Z;
  ls_Increment : Z;
}.

Record Limiter := mkLimiter {
  lm_memory : gmap string memoryCounter;
  lm_redis : bool;
  lm_keyPrefix : string;
  lm_prunedAt : Z;
}.

Definition New : Limiter := mkLimiter ∅ false "aiport" 0.

Definition NewRedis (keyPrefix : string) : Limiter :=
  mkLimiter ∅ true (if (keyPrefix =? "")%string then "aiport" else keyPrefix) 0.

Inductive check_error :=
| TeamMismatch
| CapacityExhausted
| RedisIO
| UnexpectedReply.

Definition allowed_result : Result := mkResult true 0 "" "".

Definition maxDuration (a b : Z) : Z := if b <? a then a else b.

(** ** Building the specs *)

(** [fmt.Sprintf("%s:ratelimit:<scope>:%d:<metric>:%d", ...)] *)
Definition spec_key (prefix scope : string) (id : Z) (metric : string) (bucket : Z) : string :=
  prefix +:+ (":ratelimit:" +:+ (scope +:+ (":" +:+ (pretty id +:+ (":" +:+ (metric +:+
    (":" +:+ pretty bucket))))))).

(** The two specs of one scope: [rpm] when it is set, [tpm] when it is set
    and the request has tokens. *)
Definition scope_specs (prefix scope : string) (id bucket tokens : Z) (rpm tpm : option Z) :
    list limitSpec :=
  (if ptr_pos rpm
   then [mkLimitSpec (spec_key prefix scope id "rpm" bucket) scope "rpm" (deref rpm) 1] else []) ++
  (if ptr_pos tpm && (0 <? tokens)
   then [mkLimitSpec (spec_key prefix scope id "tpm" bucket) scope "tpm" (deref tpm) tokens] else []).

Definition buildSpecs (prefix : string) (check : Check) (now : Z) : list limitSpec * Z :=
  let windowStart := Truncate now windowSize in
  let windowEnd := windowStart + windowSize in
  let windowBucket := Unix windowStart in
  let tokens := ck_Tokens check in
  let team :=
    match ck_Team check with
    | Some t => scope_specs prefix "team" (tm_ID t) windowBucket tokens (tm_RPM t) (tm_TPM t)
    | None => []
    end in
  let key :=
    match ck_Key check with
    | Some k => scope_specs prefix "key" (vk_ID k) windowBucket tokens (vk_ScopedRPM k) (vk_ScopedTPM k)
    | None => []
    end in
  let customer :=
    match ck_Customer check with
    | Some c =>
        if 0 <? cu_ID c
        then scope_specs prefix "customer" (cu_ID c) windowBucket tokens (cu_RPM c) (cu_TPM c)
        else []
    | None => []
    end in
  (team ++ key ++ customer, windowEnd).

(** ** The in-memory backend *)

(** [used > spec.Limit || spec.Increment > spec.Limit-used] *)
Definition over_limit (used : Z) (s : limitSpec) : bool :=
  (ls_Limit s <? used) || (ls_Limit s -w used <? ls_Increment s).

(** The counter of a key at [now]: an expired one is removed and reads 0. *)
Definition memory_load (now : Z) (k : string) (m : gmap string memoryCounter) :
    gmap string memoryCounter * Z :=
  match m !! k with
  | Some c => if negb (After (mc_ExpiresAt c) now) then (delete k m, 0) else (m, mc_Used c)
  | None => (m, 0)
  end.

(** First loop of [checkMemory]; the result is the spec that refuses, if any. *)
Fixpoint memory_check (now : Z) (specs : list limitSpec) (m : gmap string memoryCounter) :
    gmap string memoryCounter * option limitSpec :=
  match specs with
  | [] => (m, None)
  | s :: rest =>
      let '(m, used) := memory_load now (ls_Key s) m in
      if over_limit used s then (m, Some s) else memory_check now rest m
  end.

(** Second loop: count the request in every scope. *)
Fixpoint memory_add (windowEnd : Z) (specs : list limitSpec) (m : gmap string memoryCounter) :
    gmap string memoryCounter :=
  match specs with
  | [] => m
  | s :: rest =>
      let used := match m !! ls_Key s with Some c => mc_Used c | None => 0 end in
      memory_add windowEnd rest
        (<[ls_Key s := mkMemoryCounter (used +w ls_Increment s) windowEnd]> m)
  end.

Definition memory_capacity : Z := 65536.

(** [missing]: the specs whose key has no counter. *)
Definition missing (specs : list limitSpec) (m : gmap string memoryCounter) : Z :=
  countZ (fun s => match m !! ls_Key s with Some _ => false | None => true end) specs.

(** The periodic removal of expired counters. *)
Definition prune (now : Z) (l : Limiter) : Limiter :=
  if IsZero (lm_prunedAt l) || (windowSize <=? Sub now (lm_prunedAt l))
  then mkLimiter (filter (fun '(_, c) => now < mc_ExpiresAt c) (lm_memory l)) (lm_redis l)
         (lm_keyPrefix l) now
  else l.

Definition set_memory (l : Limiter) (m : gmap string memoryCounter) : Limiter :=
  mkLimiter m (lm_redis l) (lm_keyPrefix l) (lm_prunedAt l).

Definition checkMemory (specs : list limitSpec) (now windowEnd : Z) (l : Limiter) :
    Limiter * result check_error Result :=
  let l := prune now l in
  if memory_capacity <? Z.of_nat (size (lm_memory l)) + missing specs (lm_memory l)
  then (l, Err CapacityExhausted)
  else match memory_check now specs (lm_memory l) with
  | (m, Some s) =>
      (set_memory l m,
       Ok (mkResult false (maxDuration (Sub windowEnd now) Second) (ls_Scope s) (ls_Metric s)))
  | (m, None) => (set_memory l (memory_add windowEnd specs m), Ok allowed_result)
  end.

(** ** The Redis backend *)

Section script.
Context {R : Type} `{RedisCounter R}.

(** First loop of [allowScript]: the index and retry time of a refusal. Every number
    the script reads or computes is a double. *)
Fixpoint allow_check (now default_ttl_ms i : Z) (specs : list limitSpec) (r : R) : option (Z * Z) :=
  match specs with
  | [] => None
  | s :: rest =>
      let limit := double (ls_Limit s) in
      let inc := double (ls_Increment s) in
      let current := double (default 0 (GET now (ls_Key s) r)) in
      if limit <? double (current + inc)
      then
        let ttl := double (PTTL now (ls_Key s) r) in
        Some (i, if ttl <? 0 then default_ttl_ms else ttl)
      else allow_check now default_ttl_ms (i + 1) rest r
  end.

(** Second loop of [allowScript]. Redis writes a number that a script hands it with
    17 digits, which is its decimal form up to 10^17. *)
Fixpoint allow_add (now default_ttl_ms : Z) (specs : list limitSpec) (r : R) : R :=
  match specs with
  | [] => r
  | s :: rest =>
      let inc := double (ls_Increment s) in
      let '(r, current) := INCRBY now (ls_Key s) inc r in
      let r := if double current =? inc then CPEXPIRE now (ls_Key s) default_ttl_ms r else r in
      allow_add now default_ttl_ms rest r
  end.

Definition allowScript (now default_ttl_ms : Z) (specs : list limitSpec) (r : R) : R * list Z :=
  let default_ttl_ms := double default_ttl_ms in
  match allow_check now default_ttl_ms 1 specs r with
  | Some (i, ttl) => (r, [0; i; ttl])
  | None => (allow_add now default_ttl_ms specs r, [1; 0; 0])
  end.

(** The decoding of the reply in [checkRedis]. *)
Definition decode_reply (specs : list limitSpec) (values : list Z) : result check_error Result :=
  match values with
  | [allowed; index; ttlMs] =>
      if allowed =? 1 then Ok allowed_result
      else
        let specIdx := index -w 1 in
        let specIdx :=
          if (specIdx <? 0) || (Z.of_nat (length specs) <=? specIdx) then 0 else specIdx in
        match specs !! Z.to_nat specIdx with
        | Some s =>
            Ok (mkResult false (maxDuration (ttlMs *w Millisecond) Second) (ls_Scope s) (ls_Metric s))
        | None => Err UnexpectedReply
        end
  | _ => Err UnexpectedReply
  end.

Definition checkRedis (call : io) (server_now : Z) (specs : list limitSpec) (now windowEnd : Z)
    (r : R) : R * result check_error Result :=
  let retryAfter := Sub windowEnd now in
  let retryAfter := if retryAfter <=? 0 then Second else retryAfter in
  let ttl := Milliseconds retryAfter in
  match call with
  | IoFailedBefore => (r, Err RedisIO)
  | IoFailedAfter => ((allowScript server_now ttl specs r).1, Err RedisIO)
  | IoOk => let '(r, values) := allowScript server_now ttl specs r in (r, decode_reply specs values)
  end.

(** [Limiter.Check]; [None] is the nil limiter. *)
Definition Limiter_Check (l : option Limiter) (call : io) (server_now now : Z) (check : Check)
    (r : R) : option Limiter * R * result check_error Result :=
  match l with
  | None => (None, r, Ok allowed_result)
  | Some l =>
      let check :=
        if ck_Tokens check <? 0
        then mkCheck (ck_Team check) (ck_Key check) (ck_Customer check) 0 else check in
      if match ck_Customer check with
         | None => false
         | Some c => match ck_Team check with None => true | Some t => negb (cu_TeamID c =? tm_ID t) end
         end
      then (Some l, r, Err TeamMismatch)
      else
        let '(specs, windowEnd) := buildSpecs (lm_keyPrefix l) check now in
        if bool_decide (specs = []) then (Some l, r, Ok allowed_result)
        else if lm_redis l
        then let '(r, res) := checkRedis call server_now specs now windowEnd r in (Some l, r, res)
        else let '(l, res) := checkMemory specs now windowEnd l in (Some l, r, res)
  end.
End script.

(** ** Token estimates ([estimate.go]) *)

Definition estimateTextTokens (text : string) : Z :=
  if (text =? "")%string then 0 else (Z.of_nat (String.length text) +w 3) /g 4.

(** [promptTokens += estimateTextTokens(msg.Content)] over the messages. *)
Fixpoint sum_estimates (total : Z) (texts : list string) : Z :=
  match texts with
  | [] => total
  | t :: rest => sum_estimates (total +w estimateTextTokens t) rest
  end.

Definition EstimateChatUsage (req : option ChatRequest) : Z * Z :=
  match req with
  | None => (0, 0)
  | Some req =>
      let promptTokens := sum_estimates 0 (map msg_Content (cr_Messages req)) in
      let completionTokens :=
        if ptr_pos (OutputTokenLimit req) then deref (OutputTokenLimit req) else 0 in
      let n := wrap64 (Z.of_nat (length (cr_Messages req))) in
      ((if (promptTokens =? 0) && (0 <? n) then n else promptTokens), completionTokens)
  end.

Definition EstimateChatTokens (req : option ChatRequest) : Z :=
  let '(prompt, completion) := EstimateChatUsage req in prompt +w completion.

(** [total += len(tokens)] over the rows. *)
Fixpoint sum_rows (total : Z) (rows : list (list Z)) : Z :=
  match rows with
  | [] => total
  | row :: rest => sum_rows (total +w Z.of_nat (length row)) rest
  end.

Definition EstimateEmbeddingTokens (req : option EmbeddingRequest) : Z :=
  match req with
  | None => 0
  | Some req =>
      if IsTokenized (er_Input req) then sum_rows 0 (ei_Tokens (er_Input req))
      else
        let total := sum_estimates 0 (ei_Texts (er_Input req)) in
        if (total =? 0) && (0 <? Len (er_Input req)) then Len (er_Input req) else total
  end.

(** ** The abstract decision *)

(** The spec refuses when its counter would pass its limit. *)
Definition refuses (used : string -> Z) (s : limitSpec) : bool :=
  ls_Limit s <? used (ls_Key s) + ls_Increment s.

(** The first spec that refuses a request, [None] when it is admitted. *)
Fixpoint decision (used : string -> Z) (specs : list limitSpec) : option limitSpec :=
  match specs with
  | [] => None
  | s :: rest => if refuses used s then Some s else decision used rest
  end.

(** What a request adds to a counter. *)
Definition increment (specs : list limitSpec) (k : string) : Z :=
  sumZ (map (fun s => if decide (ls_Key s = k) then ls_Increment s else 0) specs).

Lemma decision_ext used used' specs :
  (forall s, s ∈ specs -> used (ls_Key s) = used' (ls_Key s)) ->
  decision used specs = decision used' specs.
Proof.
  induction specs as [| s specs IH]; simpl; intros Hu; [done |]. unfold refuses.
  rewrite (Hu s) by apply elem_of_cons, or_introl, eq_refl. rewrite IH; [done |].
  intros s' Hs. apply Hu, elem_of_cons. by right.
Qed.

Lemma increment_notin specs k : k ∉ map ls_Key specs -> increment specs k = 0.
Proof.
  unfold increment. induction specs as [| s specs IH]; simpl; [done |].
  rewrite not_elem_of_cons. intros [? ?]. rewrite decide_False by done. rewrite IH by done. lia.
Qed.

Lemma increment_in specs s :
  NoDup (map ls_Key specs) -> s ∈ specs -> increment specs (ls_Key s) = ls_Increment s.
Proof.
  intros Hnd. induction specs as [| s' specs IH]; [by intros ?%not_elem_of_nil |].
  simpl in Hnd. apply NoDup_cons in Hnd as [Hni Hnd]. intros [-> | Hs]%elem_of_cons.
  - pose proof (increment_notin _ _ Hni). unfold increment in *. simpl. rewrite decide_True by done. lia.
  - specialize (IH Hnd Hs). unfold increment in *. simpl. rewrite decide_False; [lia |].
    intros E. apply Hni. rewrite E. by apply list_elem_of_fmap_2.
Qed.

(** A spec the limiter builds: a positive limit and increment that fit. *)
Definition spec_ok (s : limitSpec) : Prop :=
  0 < ls_Limit s /\ int64_ok (ls_Limit s) /\ 0 < ls_Increment s /\ int64_ok (ls_Increment s).

(** ** The in-memory backend implements the decision *)

(** What a counter holds at [now]. *)
Definition mem_used (now : Z) (m : gmap string memoryCounter) (k : string) : Z :=
  match m !! k with
  | Some c => if After (mc_ExpiresAt c) now then mc_Used c else 0
  | None => 0
  end.

Definition mem_ok (m : gmap string memoryCounter) : Prop :=
  map_Forall (fun _ c => 0 <= mc_Used c <= MaxInt64) m.

(** [m'] is [m] without some expired counters. *)
Definition shrunk (now : Z) (m m' : gmap string memoryCounter) : Prop :=
  forall k, m' !! k = m !! k \/
    (m' !! k = None /\ exists c, m !! k = Some c /\ mc_ExpiresAt c <= now).

Lemma shrunk_refl now m : shrunk now m m.
Proof. intros k. by left. Qed.

Lemma shrunk_trans now m1 m2 m3 : shrunk now m1 m2 -> shrunk now m2 m3 -> shrunk now m1 m3.
Proof.
  intros H12 H23 k. destruct (H23 k) as [E | (E & c & Hc & Hx)].
  - rewrite E. apply H12.
  - right. split; [done |]. destruct (H12 k) as [E' | (E' & c' & ?)].
    + exists c. by rewrite <- E'.
    + congruence.
Qed.

Lemma shrunk_used now m m' k : shrunk now m m' -> mem_used now m' k = mem_used now m k.
Proof.
  intros Hs. unfold mem_used, After. destruct (Hs k) as [-> | (-> & c & -> & Hx)]; [done |].
  destruct (Z.ltb_spec now (mc_ExpiresAt c)); [lia | done].
Qed.

Lemma shrunk_ok now m m' : shrunk now m m' -> mem_ok m -> mem_ok m'.
Proof.
  intros Hs Hm k c Hk. destruct (Hs k) as [E | (E & _)]; rewrite E in Hk; [by eapply Hm | done].
Qed.

Lemma prune_shrunk now l : shrunk now (lm_memory l) (lm_memory (prune now l)).
Proof.
  unfold prune. case_match; [| apply shrunk_refl]. simpl. intros k.
  destruct (lm_memory l !! k) as [c|] eqn:E.
  - destruct (decide (now < mc_ExpiresAt c)).
    + left. by apply map_lookup_filter_Some.
    + right. split; [| exists c; split; [done | lia]].
      apply map_lookup_filter_None. right. intros c' Hc'. congruence.
  - left. apply map_lookup_filter_None. by left.
Qed.

Lemma over_limit_spec used s :
  0 <= used <= MaxInt64 -> spec_ok s ->
  over_limit used s = true <-> ls_Limit s < used + ls_Increment s.
Proof.
  intros Hu (? & ? & ? & ?). unfold over_limit.
  destruct (Z.ltb_spec (ls_Limit s) used); simpl; [lia |].
  rewrite wrap64_id by int64_lia. lia.
Qed.

Lemma mem_used_ok now m k : mem_ok m -> 0 <= mem_used now m k <= MaxInt64.
Proof.
  intros Hm. unfold mem_used. destruct (m !! k) as [c|] eqn:E; [| int64_lia].
  specialize (Hm _ _ E). simpl in Hm. destruct (After (mc_ExpiresAt c) now); int64_lia.
Qed.

(** No counter of the specs is expired any more. *)
Definition fresh (now : Z) (m : gmap string memoryCounter) (specs : list limitSpec) : Prop :=
  forall s c, s ∈ specs -> m !! ls_Key s = Some c -> now < mc_ExpiresAt c.

Lemma memory_load_spec now k m m' used :
  memory_load now k m = (m', used) ->
  shrunk now m m' /\ used = mem_used now m k /\
  (forall c, m' !! k = Some c -> now < mc_ExpiresAt c).
Proof.
  unfold memory_load, mem_used, After. destruct (m !! k) as [c|] eqn:Ek.
  - destruct (Z.ltb_spec now (mc_ExpiresAt c)) as [Hx|Hx]; simpl; intros [= <- <-].
    + split_and!; [apply shrunk_refl | done |]. intros c'. congruence.
    + split_and!; [| done | intros c'; by rewrite lookup_delete_eq].
      intros k'. destruct (decide (k = k')) as [<-|]; [| left; by apply lookup_delete_ne].
      right. split; [apply lookup_delete_eq | eauto].
  - intros [= <- <-]. split_and!; [apply shrunk_refl | done |]. congruence.
Qed.

Lemma memory_check_spec now specs m m' r :
  mem_ok m -> Forall spec_ok specs ->
  memory_check now specs m = (m', r) ->
  shrunk now m m' /\ r = decision (mem_used now m) specs /\ (r = None -> fresh now m' specs).
Proof.
  revert m. induction specs as [| s specs IH]; intros m Hm Hs; simpl.
  { intros [= <- <-]. split_and!; [apply shrunk_refl | done |].
    intros _ s c Hs'. by apply not_elem_of_nil in Hs'. }
  apply Forall_cons in Hs as [Hs Hss].
  destruct (memory_load now (ls_Key s) m) as [m1 used] eqn:E.
  apply memory_load_spec in E as (Hsh & -> & Hfr).
  pose proof (over_limit_spec _ s (mem_used_ok now m (ls_Key s) Hm) Hs) as Hover.
  unfold refuses at 1. destruct (over_limit (mem_used now m (ls_Key s)) s).
  { intros [= <- <-]. destruct (Z.ltb_spec (ls_Limit s) (mem_used now m (ls_Key s) + ls_Increment s));
      [done | intuition lia]. }
  destruct (Z.ltb_spec (ls_Limit s) (mem_used now m (ls_Key s) + ls_Increment s)); [intuition done |].
  intros Hrest.
  destruct (IH m1 (shrunk_ok _ _ _ Hsh Hm) Hss Hrest) as (Hsh' & -> & Hfr').
  split_and!.
  - by eapply shrunk_trans.
  - apply decision_ext. intros. by apply shrunk_used.
  - intros Hn s' c [-> | Hin]%elem_of_cons Hc; [| by eapply Hfr'].
    destruct (Hsh' (ls_Key s)) as [E' | (E' & _)]; [| congruence]. apply Hfr. congruence.
Qed.

Lemma memory_add_lookup we specs m k :
  NoDup (map ls_Key specs) ->
  memory_add we specs m !! k =
  if decide (k ∈ map ls_Key specs)
  then Some (mkMemoryCounter
         (match m !! k with Some c => mc_Used c | None => 0 end +w increment specs k) we)
  else m !! k.
Proof.
  revert m. induction specs as [| s specs IH]; intros m Hnd; cbn [memory_add map].
  { rewrite decide_False; [done | apply not_elem_of_nil]. }
  cbn [map] in Hnd. apply NoDup_cons in Hnd as [Hni Hnd]. rewrite IH by done.
  assert (increment (s :: specs) k =
    (if decide (ls_Key s = k) then ls_Increment s else 0) + increment specs k) as -> by done.
  destruct (decide (ls_Key s = k)) as [<-|Hne].
  - rewrite decide_False by done. rewrite decide_True by (apply elem_of_cons; by left).
    rewrite lookup_insert_eq, increment_notin by done. by rewrite Z.add_0_r.
  - rewrite lookup_insert_ne by done.
    destruct (decide (k ∈ map ls_Key specs)).
    + rewrite decide_True by (apply elem_of_cons; by right). done.
    + rewrite decide_False; [done |]. rewrite not_elem_of_cons. by split; [congruence |].
Qed.

(** When nothing refuses, every counter stays within its limit. *)
Lemma decision_None_bound used specs s :
  decision used specs = None -> s ∈ specs -> used (ls_Key s) + ls_Increment s <= ls_Limit s.
Proof.
  induction specs as [| s' specs IH]; simpl; [by intros _ ?%not_elem_of_nil |].
  unfold refuses. case_match eqn:E; [done |]. intros Hd [-> | Hs]%elem_of_cons; [lia | auto].
Qed.

(** The outcome of [checkMemory], on every branch. *)
Lemma checkMemory_spec specs now we l :
  mem_ok (lm_memory l) -> Forall spec_ok specs -> NoDup (map ls_Key specs) ->
  match checkMemory specs now we l with
  | (l', Err e) => e = CapacityExhausted /\ shrunk now (lm_memory l) (lm_memory l')
  | (l', Ok res) =>
      match decision (mem_used now (lm_memory l)) specs with
      | Some s =>
          res = mkResult false (maxDuration (Sub we now) Second) (ls_Scope s) (ls_Metric s) /\
          shrunk now (lm_memory l) (lm_memory l')
      | None =>
          res = allowed_result /\
          exists m, shrunk now (lm_memory l) m /\
          forall k, lm_memory l' !! k =
            if decide (k ∈ map ls_Key specs)
            then Some (mkMemoryCounter (mem_used now (lm_memory l) k + increment specs k) we)
            else m !! k
      end
  end.
Proof.
  intros Hm Hs Hnd. unfold checkMemory. pose proof (prune_shrunk now l) as Hp.
  destruct (memory_capacity <? _); [done |].
  destruct (memory_check now specs (lm_memory (prune now l))) as [m r] eqn:E.
  apply memory_check_spec in E as (Hsh & Hr & Hfr); [| by eapply shrunk_ok | done].
  rewrite (decision_ext _ (mem_used now (lm_memory l))) in Hr by (intros; by apply shrunk_used).
  pose proof (shrunk_trans _ _ _ _ Hp Hsh) as Hlm.
  rewrite <- Hr. destruct r as [s|]; simpl; [done |]. split; [done |].
  exists m. split; [done |]. intros k. rewrite memory_add_lookup by done.
  destruct (decide (k ∈ map ls_Key specs)) as [Hin|]; [| done].
  apply list_elem_of_fmap in Hin as (s & -> & Hin).
  assert ((match m !! ls_Key s with Some c => mc_Used c | None => 0 end) =
          mem_used now (lm_memory l) (ls_Key s)) as ->.
  { rewrite <- (shrunk_used _ _ m) by done. unfold mem_used.
    destruct (m !! ls_Key s) as [c|] eqn:Ek; [| done].
    specialize (Hfr eq_refl s c Hin Ek). unfold After. by destruct (Z.ltb_spec now (mc_ExpiresAt c)); [| lia]. }
  pose proof (mem_used_ok now _ (ls_Key s) Hm).
  pose proof (decision_None_bound _ _ _ (eq_sym Hr) Hin).
  pose proof (proj1 (Forall_forall _ _) Hs _ Hin) as (? & ? & ? & ?).
  rewrite increment_in, wrap64_id by (done || int64_lia). done.
Qed.

(** ** The Redis backend implements the decision *)

Section redis_facts.
Context {R : Type} `{RedisCounterLaws R}.
Implicit Types (r : R).

Definition redis_used (now : Z) (r : R) (k : string) : Z := live_counter now (cview r k).

Lemma GET_used now k r : default 0 (GET now k r) = redis_used now r k.
Proof.
  rewrite GET_spec. unfold redis_used, live_counter. by destruct (visible now (cview r k)) as [[]|].
Qed.

(** Limits a double holds exactly: the columns have 32 bits. *)
Definition exact_limits (specs : list limitSpec) : Prop := Forall (fun s => ls_Limit s < 2 ^ 53) specs.

Lemma allow_check_spec now ttl i specs r :
  Forall spec_ok specs -> exact_limits specs -> (forall s, s ∈ specs -> 0 <= redis_used now r (ls_Key s)) ->
  match allow_check now ttl i specs r with
  | None => decision (redis_used now r) specs = None
  | Some (j, _) =>
      i <= j /\ exists s, specs !! Z.to_nat (j - i) = Some s /\
      decision (redis_used now r) specs = Some s
  end.
Proof.
  intros Hok Hex Hu. revert i. induction specs as [| s specs IH]; intros i; simpl; [done |].
  apply Forall_cons in Hok as [(Hl & _ & Hi & _) Hok]. apply Forall_cons in Hex as [Hx Hex].
  rewrite GET_used. unfold refuses. rewrite double_over; [| apply Hu, elem_of_cons; by left | lia | lia].
  destruct (ls_Limit s <? _).
  - split; [lia |]. exists s. by replace (Z.to_nat (i - i)) with 0%nat by lia.
  - specialize (IH Hok Hex (fun s' Hs' => Hu s' (proj2 (elem_of_cons _ _ _) (or_intror Hs'))) (i + 1)). destruct (allow_check now ttl (i + 1) specs r) as [[j t]|]; [| done].
    destruct IH as (Hij & s' & Hs' & Hd). split; [lia |]. exists s'. split; [| done].
    by replace (Z.to_nat (j - i)) with (S (Z.to_nat (j - (i + 1)))) by lia.
Qed.

(** A counter that was just increased reads its new value. *)
Lemma live_increased now e d : live_counter now (Some (live_counter now e + d, entry_expiry now e)) = live_counter now e + d.
Proof.
  unfold live_counter at 1. simpl. destruct (entry_expiry now e) as [t|] eqn:E; [| done].
  apply entry_expiry_future in E. destruct (Z.leb_spec t now); [lia | done].
Qed.

Lemma live_expire now ms (e : entry Z) : 0 < ms -> live_counter now (expire_entry now ms e) = live_counter now e.
Proof.
  intros Hms. unfold live_counter, expire_entry. destruct (visible now e) as [[v x]|]; [| done].
  destruct (Z.leb_spec ms 0); [lia |]. simpl. by destruct (Z.leb_spec (now + ms) now); [lia |].
Qed.

Lemma allow_add_used now ttl specs r k :
  0 < ttl -> Forall (fun s => 0 <= ls_Increment s <= 2 ^ 53) specs -> redis_used now (allow_add now ttl specs r) k = redis_used now r k + increment specs k.
Proof.
  intros Httl. revert r. induction specs as [| s specs IH]; intros r Hex; simpl.
  { unfold increment. simpl. lia. }
  apply Forall_cons in Hex as [Hi Hex]. rewrite (double_exact (ls_Increment s)) by lia.
  destruct (INCRBY now (ls_Key s) (ls_Increment s) r) as [r1 cur] eqn:E.
  rewrite IH by done. assert (r1 = (INCRBY now (ls_Key s) (ls_Increment s) r).1) as -> by by rewrite E.
  assert (increment (s :: specs) k =
    (if decide (ls_Key s = k) then ls_Increment s else 0) + increment specs k) as -> by done.
  rewrite Z.add_assoc. f_equal. unfold redis_used.
  destruct (double cur =? ls_Increment s); rewrite ?CPEXPIRE_view, !INCRBY_view; case_decide; try lia;
    subst; rewrite ?decide_True by done; rewrite ?live_expire, live_increased by done; done.
Qed.
End redis_facts.

(** ** The specs of a request *)

(** Machine-width fields. *)
Definition opt_ok (p : option Z) : Prop := match p with Some v => int64_ok v | None => True end.

Definition check_ok (c : Check) : Prop :=
  int64_ok (ck_Tokens c) /\
  match ck_Team c with Some t => opt_ok (tm_RPM t) /\ opt_ok (tm_TPM t) | None => True end /\
  match ck_Key c with Some k => opt_ok (vk_ScopedRPM k) /\ opt_ok (vk_ScopedTPM k) | None => True end /\
  match ck_Customer c with Some k => opt_ok (cu_RPM k) /\ opt_ok (cu_TPM k) | None => True end.

Lemma spec_key_inj p sc sc' id id' m m' b b' :
  no_colon sc = true -> no_colon sc' = true ->
  no_colon m = true -> no_colon m' = true ->
  spec_key p sc id m b = spec_key p sc' id' m' b' ->
  sc = sc' /\ id = id' /\ m = m' /\ b = b'.
Proof.
  intros Hs Hs' Hm Hm' E%(inj (String.append p))%(inj (String.append ":ratelimit:")).
  apply first_field_inj in E as [-> E]; [| done | done].
  apply first_field_inj in E as [Eid E]; [| apply no_byte_pretty_Z ..].
  apply first_field_inj in E as [-> E]; [| done | done].
  by apply (inj pretty) in E, Eid.
Qed.

Lemma scope_specs_elem p sc id b tok rpm tpm s :
  s ∈ scope_specs p sc id b tok rpm tpm ->
  ls_Scope s = sc /\ ls_Key s = spec_key p sc id (ls_Metric s) b /\
  no_colon (ls_Metric s) = true /\
  (opt_ok rpm -> opt_ok tpm -> int64_ok tok -> spec_ok s).
Proof.
  unfold scope_specs. intros [Hs | Hs]%elem_of_app.
  - destruct (ptr_pos rpm) eqn:E; [| by apply not_elem_of_nil in Hs].
    apply ptr_pos_Some in E as (v & -> & ?). apply list_elem_of_singleton in Hs as ->. simpl.
    split_and!; try done; unfold spec_ok; simpl; intros; split_and!; try done; int64_lia.
  - destruct (ptr_pos tpm && (0 <? tok)) eqn:E; [| by apply not_elem_of_nil in Hs].
    apply andb_true_iff in E as [(v & -> & ?)%ptr_pos_Some ?].
    apply list_elem_of_singleton in Hs as ->. simpl.
    split_and!; try done; unfold spec_ok; simpl; intros; split_and!; try done; int64_lia.
Qed.

Lemma scope_specs_NoDup p sc id b tok rpm tpm :
  no_colon sc = true -> NoDup (map ls_Key (scope_specs p sc id b tok rpm tpm)).
Proof.
  intros Hsc. unfold scope_specs. destruct (ptr_pos rpm), (ptr_pos tpm && (0 <? tok)); simpl;
    repeat constructor; rewrite ?list_elem_of_singleton; try apply not_elem_of_nil.
  intros E. by apply spec_key_inj in E as (_ & _ & ? & _).
Qed.

Lemma scope_specs_disjoint p sc sc' id id' b b' tok tok' rpm tpm rpm' tpm' k :
  no_colon sc = true -> no_colon sc' = true -> sc <> sc' ->
  k ∈ map ls_Key (scope_specs p sc id b tok rpm tpm) ->
  k ∈ map ls_Key (scope_specs p sc' id' b' tok' rpm' tpm') -> False.
Proof.
  intros ? ? Hne (s & -> & Hs)%list_elem_of_fmap (s' & E & Hs')%list_elem_of_fmap.
  apply scope_specs_elem in Hs as (_ & Hk & ? & _), Hs' as (_ & Hk' & ? & _).
  rewrite Hk, Hk' in E. by apply spec_key_inj in E as (? & _).
Qed.

(** The specs of the three scopes, written as one list. *)
Lemma buildSpecs_NoDup p c now : NoDup (map ls_Key (buildSpecs p c now).1).
Proof.
  unfold buildSpecs. cbn [fst]. rewrite !map_app. set (b := Unix _).
  assert (forall sc id tok rpm tpm (g : bool),
    no_colon sc = true ->
    NoDup (map ls_Key (if g then scope_specs p sc id b tok rpm tpm else []))) as Hone.
  { intros. destruct g; [by apply scope_specs_NoDup | constructor]. }
  apply NoDup_app. split_and!.
  - destruct (ck_Team c); [by apply (Hone _ _ _ _ _ true) | constructor].
  - intros k Hk [Hk' | Hk']%elem_of_app;
      (destruct (ck_Team c); [| by apply not_elem_of_nil in Hk]).
    + destruct (ck_Key c); [| by apply not_elem_of_nil in Hk'].
      eapply (scope_specs_disjoint p "team" "key"); [reflexivity | reflexivity | done | exact Hk | exact Hk'].
    + destruct (ck_Customer c) as [cu|]; [| by apply not_elem_of_nil in Hk'].
      destruct (0 <? cu_ID cu); [| by apply not_elem_of_nil in Hk'].
      eapply (scope_specs_disjoint p "team" "customer"); [reflexivity | reflexivity | done | exact Hk | exact Hk'].
  - apply NoDup_app. split_and!.
    + destruct (ck_Key c); [by apply (Hone _ _ _ _ _ true) | constructor].
    + intros k Hk Hk'. destruct (ck_Key c); [| by apply not_elem_of_nil in Hk].
      destruct (ck_Customer c) as [cu|]; [| by apply not_elem_of_nil in Hk'].
      destruct (0 <? cu_ID cu); [| by apply not_elem_of_nil in Hk'].
      eapply (scope_specs_disjoint p "key" "customer"); [reflexivity | reflexivity | done | exact Hk | exact Hk'].
    + destruct (ck_Customer c) as [cu|]; [by apply Hone | constructor].
Qed.

Lemma buildSpecs_elem p c now s :
  s ∈ (buildSpecs p c now).1 ->
  (exists a, ls_Key s = a +:+ (":" +:+ pretty (Unix (Truncate now windowSize)))) /\
  (check_ok c -> spec_ok s).
Proof.
  assert (forall sc id m b, exists a, spec_key p sc id m b = a +:+ (":" +:+ pretty b)) as Hk.
  { intros. exists (p +:+ (":ratelimit:" +:+ (sc +:+ (":" +:+ (pretty id +:+ (":" +:+ m)))))).
    unfold spec_key. by rewrite !string_app_assoc. }
  unfold buildSpecs, check_ok. cbn [fst]. intros [Hs | [Hs | Hs]%elem_of_app]%elem_of_app.
  - destruct (ck_Team c); [| by apply not_elem_of_nil in Hs].
    apply scope_specs_elem in Hs as (_ & -> & _ & Hok). split; [apply Hk | intuition].
  - destruct (ck_Key c); [| by apply not_elem_of_nil in Hs].
    apply scope_specs_elem in Hs as (_ & -> & _ & Hok). split; [apply Hk | intuition].
  - destruct (ck_Customer c) as [cu|]; [| by apply not_elem_of_nil in Hs].
    destruct (0 <? cu_ID cu); [| by apply not_elem_of_nil in Hs].
    apply scope_specs_elem in Hs as (_ & -> & _ & Hok). split; [apply Hk | intuition].
Qed.

Lemma buildSpecs_Forall p c now : check_ok c -> Forall spec_ok (buildSpecs p c now).1.
Proof. intros Hc. apply Forall_forall. intros s Hs. by apply (buildSpecs_elem p c now s Hs). Qed.

Lemma Truncate_window t : Truncate t windowSize = 60 * (t / windowSize) * Second.
Proof.
  unfold Truncate. replace (windowSize <=? 0) with false by done.
  pose proof (Z.div_mod t windowSize ltac:(done)). unfold windowSize, Minute, Second in *. lia.
Qed.

(** A key names its window. *)
Lemma spec_window p c c' now now' s s' :
  s ∈ (buildSpecs p c now).1 -> s' ∈ (buildSpecs p c' now').1 -> ls_Key s = ls_Key s' ->
  (buildSpecs p c now).2 = (buildSpecs p c' now').2.
Proof.
  intros [[a Ha] _]%buildSpecs_elem [[a' Ha'] _]%buildSpecs_elem E. rewrite Ha, Ha' in E.
  apply last_field_inj in E as [_ E]; [| apply no_byte_pretty_Z ..]. apply (inj pretty) in E.
  unfold buildSpecs. cbn [snd]. f_equal. unfold Unix in E. rewrite !Truncate_window in *.
  rewrite !Z.div_mul in E by done. lia.
Qed.

Lemma buildSpecs_window p c now :
  now < (buildSpecs p c now).2 <= now + windowSize.
Proof. unfold buildSpecs. cbn [snd]. pose proof (Truncate_le now windowSize ltac:(done)). lia. Qed.

(** ** A history of checks against one in-memory limiter *)

(** The check with negative tokens read as none. *)
Definition effective (c : Check) : Check :=
  if ck_Tokens c <? 0 then mkCheck (ck_Team c) (ck_Key c) (ck_Customer c) 0 else c.

Definition specs_of (l : Limiter) (now : Z) (c : Check) : list limitSpec :=
  (buildSpecs (lm_keyPrefix l) (effective c) now).1.

Definition is_allowed (res : result check_error Result) : bool :=
  match res with Ok r => rs_Allowed r | Err _ => false end.

(** What the requests of a history that were admitted add to the key [k]. *)
Fixpoint admitted (k : string) (l : Limiter) (h : list (Z * Check)) : Z :=
  match h with
  | [] => 0
  | (now, c) :: rest =>
      let '(l', _, res) := Limiter_Check (Some l) IoOk 0 now c MapRedis.empty_db in
      (if is_allowed res then increment (specs_of l now c) k else 0) +
      match l' with Some l' => admitted k l' rest | None => 0 end
  end.

Lemma check_ok_effective c : check_ok c -> check_ok (effective c).
Proof.
  unfold effective, check_ok. destruct (Z.ltb_spec (ck_Tokens c) 0); [| done].
  intros (? & ?). simpl. split; [int64_lia | done].
Qed.

(** The counter of [k] holds what was admitted in the window that ends at [W],
    as long as that window lasts. *)
Record counted (k : string) (W L t : Z) (l : Limiter) (total : Z) : Prop := {
  counted_memory : lm_redis l = false;
  counted_ok : mem_ok (lm_memory l);
  counted_window c : lm_memory l !! k = Some c -> mc_ExpiresAt c = W;
  counted_total : t < W -> mem_used t (lm_memory l) k = total;
  counted_bound : 0 <= total <= Z.max 0 L;
}.

Lemma mem_used_earlier k W t now (m : gmap string memoryCounter) :
  (forall c, m !! k = Some c -> mc_ExpiresAt c = W) -> t < W -> now < W ->
  mem_used now m k = mem_used t m k.
Proof.
  intros HW Ht Hn. unfold mem_used, After. destruct (m !! k) as [c|] eqn:E; [| done].
  rewrite (HW c eq_refl).
  by destruct (Z.ltb_spec now W), (Z.ltb_spec t W); try lia.
Qed.

(** Dropping expired counters keeps the count. *)
Lemma counted_shrunk k W L t now l l' total :
  counted k W L t l total -> t <= now -> lm_redis l' = lm_redis l ->
  shrunk now (lm_memory l) (lm_memory l') -> counted k W L now l' total.
Proof.
  intros [] Ht Hr Hs. split; try done; [congruence | by eapply shrunk_ok | |].
  - intros c Hc. destruct (Hs k) as [E | (E & _)]; rewrite E in Hc; [auto | done].
  - intros Hn. rewrite (shrunk_used _ _ _ _ Hs), (mem_used_earlier _ W t) by (done || lia). auto with lia.
Qed.

(** The effect of an admitted request on the counters. *)
Definition added (now we : Z) (specs : list limitSpec) (m m' : gmap string memoryCounter) : Prop :=
  exists m0, shrunk now m m0 /\ forall k, m' !! k =
    if decide (k ∈ map ls_Key specs)
    then Some (mkMemoryCounter (mem_used now m k + increment specs k) we)
    else m0 !! k.

Lemma decision_None_increment used specs s :
  NoDup (map ls_Key specs) -> decision used specs = None -> s ∈ specs ->
  used (ls_Key s) + increment specs (ls_Key s) <= ls_Limit s.
Proof. intros ? ? ?. rewrite increment_in by done. by apply decision_None_bound with specs. Qed.

Lemma added_ok now we specs m m' :
  mem_ok m -> Forall spec_ok specs -> NoDup (map ls_Key specs) ->
  decision (mem_used now m) specs = None -> added now we specs m m' -> mem_ok m'.
Proof.
  intros Hm Hok Hnd Hd (m0 & Hs & Hl') k c Hc. rewrite Hl' in Hc. case_decide as E;
    [| by eapply shrunk_ok].
  injection Hc as <-. apply list_elem_of_fmap in E as (s & -> & Hin). simpl.
  pose proof (decision_None_increment _ _ _ Hnd Hd Hin). pose proof (mem_used_ok now m (ls_Key s) Hm).
  eapply Forall_forall in Hok as (? & ? & ? & ?); [| done].
  rewrite increment_in in * by done. int64_lia.
Qed.

Lemma counted_add k W L t now l l' total specs :
  counted k W L t l total -> t <= now -> now < W -> lm_redis l' = lm_redis l ->
  Forall spec_ok specs -> NoDup (map ls_Key specs) ->
  (forall s, s ∈ specs -> ls_Key s = k -> ls_Limit s <= L) -> k ∈ map ls_Key specs ->
  decision (mem_used now (lm_memory l)) specs = None ->
  added now W specs (lm_memory l) (lm_memory l') ->
  counted k W L now l' (total + increment specs k).
Proof.
  intros [] Ht Hn Hr Hok Hnd HL Hk Hd Hadd.
  assert (mem_used now (lm_memory l) k = total) as Htot.
  { rewrite (mem_used_earlier _ W t) by (done || lia). auto with lia. }
  pose proof (added_ok _ _ _ _ _ counted_ok0 Hok Hnd Hd Hadd). destruct Hadd as (m0 & Hs & Hl').
  split; [congruence | done | | |].
  - intros c Hc. rewrite Hl', decide_True in Hc by done. by injection Hc as <-.
  - intros _. unfold mem_used at 1. rewrite Hl', decide_True by done. simpl. unfold After.
    destruct (Z.ltb_spec now W); lia.
  - apply list_elem_of_fmap in Hk as (s & -> & Hin).
    pose proof (decision_None_increment _ _ _ Hnd Hd Hin).
    eapply Forall_forall in Hok as (? & ? & ? & ?); [| done].
    specialize (HL s Hin eq_refl). rewrite increment_in in * by done. lia.
Qed.

(** Counting other keys keeps the count of [k]. *)
Lemma counted_other k W L t now we l l' total specs :
  counted k W L t l total -> t <= now -> lm_redis l' = lm_redis l ->
  Forall spec_ok specs -> NoDup (map ls_Key specs) -> k ∉ map ls_Key specs ->
  decision (mem_used now (lm_memory l)) specs = None ->
  added now we specs (lm_memory l) (lm_memory l') -> counted k W L now l' total.
Proof.
  intros Hc Ht Hr Hok Hnd Hk Hd Hadd. pose proof (counted_ok _ _ _ _ _ _ Hc) as Hm.
  pose proof (added_ok _ _ _ _ _ Hm Hok Hnd Hd Hadd). destruct Hadd as (m0 & Hs & Hl').
  destruct (counted_shrunk k W L t now l (set_memory l m0) total Hc Ht eq_refl Hs) as [? ? HW Htot ?].
  simpl in *. specialize (Hl' k). rewrite decide_False in Hl' by done.
  split; try done; [congruence | by rewrite Hl' |]. intros Hn. rewrite <- Htot by done.
  unfold mem_used. by rewrite Hl'.
Qed.

(** Inside a window the clock may go back. *)
Lemma counted_window_start k q L now l total :
  counted k (q * windowSize) L now l total -> counted k (q * windowSize) L (Truncate now windowSize) l total.
Proof.
  intros []. pose proof (Truncate_le now windowSize ltac:(done)) as Hle. split; try done.
  intros Ht. assert (now < q * windowSize) as Hn.
  { rewrite Truncate_window in Ht, Hle. unfold windowSize, Minute, Second in *. nia. }
  rewrite (mem_used_earlier _ (q * windowSize) now) by done. auto.
Qed.

(** One check of the history. *)
Lemma counted_step k W L t now c l total :
  counted k W L t l total -> t <= now -> check_ok c ->
  (forall s, s ∈ specs_of l now c -> ls_Key s = k ->
     ls_Limit s <= L /\ (buildSpecs (lm_keyPrefix l) (effective c) now).2 = W) ->
  exists l' res, Limiter_Check (Some l) IoOk 0 now c MapRedis.empty_db = (Some l', MapRedis.empty_db, res) /\
    lm_keyPrefix l' = lm_keyPrefix l /\
    counted k W L now l' (total + (if is_allowed res then increment (specs_of l now c) k else 0)).
Proof.
  intros Hc Ht Hck HL. pose proof (counted_memory _ _ _ _ _ _ Hc) as Hmem.
  pose proof (counted_shrunk _ _ _ _ now _ l _ Hc Ht eq_refl (shrunk_refl _ _)) as Hsame.
  unfold Limiter_Check. fold (effective c). pose proof (check_ok_effective _ Hck) as Hck'.
  case_match; [exists l, (Err TeamMismatch); by rewrite Z.add_0_r |].
  unfold specs_of in *. pose proof (buildSpecs_Forall (lm_keyPrefix l) _ now Hck') as Hok.
  pose proof (buildSpecs_NoDup (lm_keyPrefix l) (effective c) now) as Hnd.
  pose proof (buildSpecs_window (lm_keyPrefix l) (effective c) now) as Hwin.
  destruct (buildSpecs (lm_keyPrefix l) (effective c) now) as [specs we]. cbn [fst snd] in *.
  case_bool_decide as Hnil.
  { subst specs. exists l, (Ok allowed_result). simpl. by rewrite Z.add_0_r. }
  rewrite Hmem.
  pose proof (checkMemory_spec specs now we l (counted_ok _ _ _ _ _ _ Hc) Hok Hnd) as Hspec.
  assert (lm_redis (checkMemory specs now we l).1 = lm_redis l /\
    lm_keyPrefix (checkMemory specs now we l).1 = lm_keyPrefix l) as [Hr' Hp'].
  { unfold checkMemory, prune, set_memory. repeat case_match; simpl; by split. }
  destruct (checkMemory specs now we l) as [l' res]. cbn [fst] in *. exists l', res.
  split_and!; [done | done |].
  destruct res as [res|e]; simpl.
  - destruct (decision _ specs) as [s|] eqn:Hd.
    + destruct Hspec as [-> Hs]. simpl. rewrite Z.add_0_r. by eapply counted_shrunk.
    + destruct Hspec as [-> Hadd]. simpl. destruct (decide (k ∈ map ls_Key specs)) as [Hin|Hni].
      * assert (we = W) as ->.
        { apply list_elem_of_fmap in Hin as (s & -> & Hs). by apply (HL s Hs). }
        eapply counted_add; try done; [lia |]. intros s Hs Hk. by apply HL.
      * rewrite increment_notin, Z.add_0_r by done. by eapply counted_other.
  - rewrite Z.add_0_r. destruct Hspec as [_ Hs]. by eapply counted_shrunk.
Qed.

Lemma admitted_bound k q L t p l total h (W := q * windowSize) :
  counted k W L t l total -> lm_keyPrefix l = p ->
  StronglySorted Z.le (t :: map (fun x => Truncate x.1 windowSize) h) -> Forall (fun x => check_ok x.2) h ->
  (forall now c s, (now, c) ∈ h -> s ∈ (buildSpecs p (effective c) now).1 -> ls_Key s = k ->
     ls_Limit s <= L /\ (buildSpecs p (effective c) now).2 = W) ->
  total + admitted k l h <= Z.max 0 L.
Proof.
  revert t l total. induction h as [| [now c] h IH]; intros t l total Hc Hp Hsort Hok HL.
  { simpl. pose proof (counted_bound _ _ _ _ _ _ Hc). lia. }
  apply Forall_cons in Hok as [Hck Hok]. simpl in Hck.
  apply StronglySorted_inv in Hsort as [Hsort Ht]. simpl in Ht. apply Forall_cons in Ht as [Ht _].
  pose proof (Truncate_le now windowSize ltac:(done)) as Hle.
  destruct (counted_step k W L t now c l total Hc ltac:(lia) Hck) as (l' & res & E & Hp' & Hc').
  { intros s Hs. unfold specs_of in Hs. rewrite Hp in *. apply HL; [| done].
    apply elem_of_cons. by left. }
  apply counted_window_start in Hc'. cbn [admitted]. rewrite E, Z.add_assoc. apply (IH (Truncate now windowSize)); try done.
  - congruence.
  - intros now' c' s Hin. apply HL, elem_of_cons. by right.
Qed.

(** The window of a key, if a history has a request that counts it. *)
Lemma window_of k p (h : list (Z * Check)) :
  exists q, forall now c s, (now, c) ∈ h -> s ∈ (buildSpecs p (effective c) now).1 -> ls_Key s = k ->
    (buildSpecs p (effective c) now).2 = q * windowSize.
Proof.
  induction h as [| [now0 c0] h [W IH]].
  { exists 0. intros now c s Hin. by apply not_elem_of_nil in Hin. }
  destruct (decide (k ∈ map ls_Key (buildSpecs p (effective c0) now0).1)) as [Hin|Hni].
  - exists (now0 / windowSize + 1). apply list_elem_of_fmap in Hin as (s0 & Hk & Hs0).
    assert ((buildSpecs p (effective c0) now0).2 = (now0 / windowSize + 1) * windowSize) as <-.
    { unfold buildSpecs. cbn [snd]. rewrite Truncate_window. unfold windowSize, Minute, Second. lia. }
    intros now c s _ Hs Hks. by apply (spec_window p _ _ _ _ s s0); [| | congruence].
  - exists W. intros now c s [[= -> ->] | Hin]%elem_of_cons Hs Hk; [| by eapply IH].
    exfalso. apply Hni. rewrite <- Hk. by apply list_elem_of_fmap_2.
Qed.

(** C27. A fixed window never admits more than its limit: over any history of
    checks against a fresh in-memory limiter, in the order in which they take the
    lock, the requests (or tokens) admitted under one counter key add up to at
    most the largest limit the checks carry for it, provided no check whose clock showed a
    later minute takes the lock first; inside a minute the clocks may go back.
    The code reads the clock before it takes the lock, so at the turn of a minute
    the condition can fail, and then the limit does too
    ([late_check_is_admitted_again]). *)
Theorem window_never_exceeds_limit (h : list (Z * Check)) (k : string) (L : Z)
    (Htime : StronglySorted Z.le (map (fun x => Truncate x.1 windowSize) h))
    (Hok : Forall (fun x => check_ok x.2) h)
    (Hlimit : forall now c s, (now, c) ∈ h -> s ∈ specs_of New now c -> ls_Key s = k ->
       ls_Limit s <= L) :
  admitted k New h <= Z.max 0 L.
Proof.
  destruct h as [| [now0 c0] h']; [cbn; lia |]. destruct (window_of k "aiport" ((now0, c0) :: h')) as [q HW].
  rewrite <- (Z.add_0_l (admitted k New _)). eapply (admitted_bound k q L (Truncate now0 windowSize) "aiport"); try done.
  - split; [done | apply map_Forall_empty | done | | lia]. intros _. done.
  - constructor; [done |]. apply StronglySorted_inv in Htime as [_ Htime]. by constructor.
  - intros now c s Hin Hs Hk. split; [by eapply Hlimit | by eapply HW].
Qed.

(** A decidable form of the limit hypothesis. *)
Definition limits_within (k : string) (L : Z) (h : list (Z * Check)) : bool :=
  forallb (fun '(now, c) =>
    forallb (fun s => negb (ls_Key s =? k)%string || (ls_Limit s <=? L)) (specs_of New now c)) h.

Lemma limits_within_spec k L h now c s :
  limits_within k L h = true -> (now, c) ∈ h -> s ∈ specs_of New now c -> ls_Key s = k ->
  ls_Limit s <= L.
Proof.
  unfold limits_within. rewrite forallb_forall. intros Hf Hin%list_elem_of_In Hs%list_elem_of_In Hk.
  specialize (Hf _ Hin). simpl in Hf. rewrite forallb_forall in Hf. specialize (Hf _ Hs).
  destruct (String.eqb_spec (ls_Key s) k); simpl in Hf; [lia | done].
Qed.

Definition witness_check : Check :=
  mkCheck (Some (mkTeam 1 "core" "Core" None "month" [] (Some 2) None None false "open" 1 None))
    (Some witness_key) None 10.

Definition witness_history : list (Z * Check) :=
  [(63072000000000000000, witness_check); (63072000000000000001, witness_check);
   (63072000000000000000, witness_check)].

Definition witness_counter : string := spec_key "aiport" "team" 1 "rpm" (Unix 63072000000000000000).

Lemma window_never_exceeds_limit_witness :
  admitted witness_counter New witness_history = 2 /\
  admitted witness_counter New witness_history <= Z.max 0 2.
Proof.
  split; [vm_compute; reflexivity |].
  apply (window_never_exceeds_limit witness_history witness_counter 2).
  - repeat constructor; vm_compute; discriminate.
  - repeat constructor; vm_compute; discriminate.
  - intros now c s. apply limits_within_spec. vm_compute. reflexivity.
Defined.

(** The clock is read before the lock is taken, so a check of the next minute may
    get the lock first: it removes the counter of the minute that ended, and a
    check of that minute that comes after it is admitted past the limit. *)
Definition late_history : list (Z * Check) :=
  [(63072000000000000000, witness_check); (63072000000000000001, witness_check);
   (63072000060000000000, witness_check); (63072000059999999999, witness_check)].

Lemma late_check_is_admitted_again : admitted witness_counter New late_history = 3.
Proof. vm_compute. reflexivity. Qed.

(** ** Both backends take the same decision *)

Lemma buildSpecs_length p c now : (length (buildSpecs p c now).1 <= 6)%nat.
Proof.
  assert (forall sc id b tok rpm tpm, (length (scope_specs p sc id b tok rpm tpm) <= 2)%nat) as Hs.
  { intros. unfold scope_specs. repeat case_match; simpl; lia. }
  unfold buildSpecs. cbn [fst]. rewrite !length_app. change 6%nat with (2 + (2 + 2))%nat.
  apply Nat.add_le_mono; [| apply Nat.add_le_mono]; repeat case_match; simpl; auto with lia.
Qed.

(** C28. The Redis script and the in-memory counters implement one policy: for a
    request that meets equal counts under its keys in both, whose call to Redis
    succeeds, that leaves room in the local map, at least a millisecond (the unit of the script's expiry)
    before its window ends, and whose limits are below 2^53 (a double of the
    script holds them; the columns have 32 bits), they admit or refuse alike and
    name the same scope and metric, a refusal counts nothing, and an admission
    adds the same amounts, so that they hold equal counts again. In the last
    millisecond the script counts nothing
    ([last_millisecond_is_not_counted]). *)
Theorem backends_agree {R} `{RedisCounterLaws R} (p : string) (check : Check) (l l' : Limiter)
    (r r' : R) (server_now now : Z) (specs : list limitSpec) (we : Z) (res res' : Result)
    (Hm : mem_ok (lm_memory l)) (Hc : check_ok check)
    (Hspecs : buildSpecs p check now = (specs, we))
    (Hwe : now + Millisecond <= we) (Hlimits : exact_limits specs)
    (Hagree : forall s, s ∈ specs ->
       mem_used now (lm_memory l) (ls_Key s) = redis_used server_now r (ls_Key s))
    (Hmem : checkMemory specs now we l = (l', Ok res))
    (Hredis : checkRedis IoOk server_now specs now we r = (r', Ok res')) :
  rs_Allowed res = rs_Allowed res' /\ rs_Scope res = rs_Scope res' /\
  rs_Metric res = rs_Metric res' /\
  (rs_Allowed res = false -> r' = r) /\
  forall s, s ∈ specs ->
    mem_used now (lm_memory l') (ls_Key s) = redis_used server_now r' (ls_Key s) /\
    redis_used server_now r' (ls_Key s) =
      redis_used server_now r (ls_Key s) + (if rs_Allowed res then ls_Increment s else 0).
Proof.
  pose proof (buildSpecs_Forall p check now Hc) as Hs.
  pose proof (buildSpecs_NoDup p check now) as Hnd.
  pose proof (buildSpecs_length p check now) as Hlen.
  rewrite Hspecs in Hs, Hnd, Hlen. cbn [fst] in *.
  pose proof (checkMemory_spec specs now we l Hm Hs Hnd) as Hspec. rewrite Hmem in Hspec.
  rewrite (decision_ext _ _ _ Hagree) in Hspec.
  unfold checkRedis in Hredis.
  assert (forall s, s ∈ specs -> 0 <= redis_used server_now r (ls_Key s)) as Hu.
  { intros s Hs'. rewrite <- Hagree by done. by apply mem_used_ok. }
  assert (Milliseconds (if Sub we now <=? 0 then Second else Sub we now) > 0) as Httl.
  { unfold Sub, clamp64, Milliseconds, MinInt64, MaxInt64, Second, Millisecond in *.
    destruct (Z.leb_spec (Z.max (-9223372036854775808) (Z.min 9223372036854775807 (we - now))) 0); [done |].
    apply Z.lt_gt, Z.quot_str_pos. lia. }
  remember (Milliseconds _) as ttl eqn:Ettl. clear Ettl.
  apply Z.gt_lt, double_pos in Httl.
  unfold allowScript in Hredis. pose proof (allow_check_spec server_now (double ttl) 1 specs r Hs Hlimits Hu) as Hal.
  destruct (allow_check server_now (double ttl) 1 specs r) as [[j t]|].
  - destruct Hal as (Hj & s & Hlk & Hd). rewrite Hd in Hspec. destruct Hspec as [-> Hsh].
    pose proof (lookup_lt_Some _ _ _ Hlk). injection Hredis as <- Hdec. simpl in Hdec.
    rewrite wrap64_id in Hdec by int64_lia.
    destruct ((j - 1 <? 0) || (Z.of_nat (length specs) <=? j - 1)) eqn:Eb; [lia |].
    rewrite Hlk in Hdec. injection Hdec as <-. simpl. split_and!; try done.
    intros s' Hs'. rewrite Z.add_0_r. rewrite (shrunk_used _ _ _ _ Hsh). auto.
  - assert (Forall (fun s => 0 <= ls_Increment s <= 2 ^ 53) specs) as Hinc.
    { apply Forall_forall. intros s Hin. pose proof (decision_None_bound _ _ s Hal Hin). specialize (Hu s Hin).
      eapply Forall_forall in Hs as (? & ? & ? & ?); [| exact Hin]. eapply Forall_forall in Hlimits; [| exact Hin]. cbn beta in *. lia. }
    rewrite Hal in Hspec. destruct Hspec as [-> (m & Hsh & Hl')].
    injection Hredis as <- <-. simpl. split_and!; try done. intros s Hin.
    rewrite allow_add_used by done. rewrite increment_in by done. split; [| done].
    unfold mem_used at 1. rewrite Hl', decide_True by (by apply list_elem_of_fmap_2). simpl.
    unfold After, Millisecond in *. destruct (Z.ltb_spec now we); [| lia].
    rewrite increment_in by done. rewrite Hagree by done. done.
Qed.

Lemma backends_agree_witness :
  exists l' r' res res',
    let '(specs, we) := buildSpecs "aiport" witness_check 63072000000000000000 in
    checkMemory specs 63072000000000000000 we New = (l', Ok res) /\
    checkRedis IoOk 0 specs 63072000000000000000 we MapRedis.empty_db = (r', Ok res') /\
    rs_Allowed res = rs_Allowed res'.
Proof.
  do 4 eexists. split; [vm_compute; reflexivity |]. split; [vm_compute; reflexivity |].
  apply (backends_agree (R:=MapRedis.db) "aiport" witness_check New _ MapRedis.empty_db _ 0
    63072000000000000000 _ _ _ _ (map_Forall_empty _)
    ltac:(repeat split; vm_compute; try discriminate; exact I) eq_refl
    ltac:(vm_compute; discriminate) ltac:(repeat constructor) ltac:(reflexivity)
    ltac:(vm_compute; reflexivity) ltac:(vm_compute; reflexivity)).
Defined.

(** In the last millisecond of a window the Redis script counts nothing:
    the time left rounds down to 0 ms, [PEXPIRE key 0] deletes the counter the
    same script has just created, and the next request is admitted again
    although the limit is one request. *)
Theorem last_millisecond_is_not_counted :
  let specs := [mkLimitSpec "k" "team" "rpm" 1 1] in
  let '(r1, res1) := checkRedis IoOk 0 specs 500001 1000000 MapRedis.empty_db in
  let '(r2, res2) := checkRedis IoOk 0 specs 500002 1000000 r1 in
  res1 = Ok allowed_result /\ res2 = Ok allowed_result /\ redis_used 0 r2 "k" = 0.
Proof. vm_compute. done. Qed.
