(* ===== verification/Breaker.v ===== *)
(** * Circuit breakers ([internal/router/router.go], [breaker_redis.go])

    A breaker per deployment, kept in the registry's map and optionally
    mirrored to a store that all replicas share. The store is a Go interface,
    so it is a class here; the Redis implementation is an instance of it. *)

From S2P Require Import Prelude GoStrings Providers Redis.

Definition breakerFailureThreshold : Z := 3.
Definition breakerCooldown : Z := 30 * Second.

Record breakerState := mkBreakerState {
  bk_ConsecutiveFailures : Z;
  bk_LastFailure : Z;
  bk_OpenUntil : Z;
  bk_LastError : string;
}.

Definition zero_breaker : breakerState := mkBreakerState 0 0 0 "".

(** The interface [BreakerStore]; operations take the caller's clock. *)
Class BreakerStore (B : Type) := {
  bs_IsOpen : Z -> string -> B -> result string Z;
  bs_RecordFailure : Z -> string -> Z -> Z -> B -> B * result string (Z * Z);
  bs_RecordSuccess : Z -> string -> B -> B * result string unit;
}.

(** ** The registry's breakers *)

Abbreviation breakers := (gmap string breakerState).

(** [ensureBreakerLocked], reading the state it ensures. *)
Definition ensureBreaker (name : string) (bs : breakers) : breakerState :=
  default zero_breaker (bs !! name).

(** The critical section of [RecordSuccess]. *)
Definition success_local (deployment : string) (bs : breakers) : breakers :=
  let state := ensureBreaker deployment bs in
  <[deployment := mkBreakerState 0 (bk_LastFailure state) 0 ""]> bs.

(** The failure count of [RecordFailure]: a gap longer than the cooldown starts
    a new run. *)
Definition next_failures (now : Z) (state : breakerState) : Z :=
  (if IsZero (bk_LastFailure state) || (breakerCooldown <? Sub now (bk_LastFailure state))
   then 0 else bk_ConsecutiveFailures state) +w 1.

(** The first critical section of [RecordFailure]. *)
Definition failure_local (now : Z) (deployment : string) (err : go_error) (bs : breakers) : breakers :=
  let state := ensureBreaker deployment bs in
  let failures := next_failures now state in
  let openUntil :=
    if breakerFailureThreshold <=? failures then now + breakerCooldown else bk_OpenUntil state in
  <[deployment := mkBreakerState failures now openUntil (error_text err)]> bs.

(** The second critical section of [RecordFailure]: adopt the shared view. *)
Definition failure_merge (deployment : string) (failures openUntil : Z) (bs : breakers) : breakers :=
  let ls := ensureBreaker deployment bs in
  <[deployment := mkBreakerState
      (if bk_ConsecutiveFailures ls <? failures then failures else bk_ConsecutiveFailures ls)
      (bk_LastFailure ls)
      (if IsZero (bk_OpenUntil ls) || After openUntil (bk_OpenUntil ls) then openUntil
       else bk_OpenUntil ls)
      (bk_LastError ls)]> bs.

Section store.
Context {B : Type} `{BreakerStore B}.

Definition RecordSuccess (now : Z) (deployment : string) (bs : breakers) (store : option B) :
    breakers * option B :=
  let bs := success_local deployment bs in
  match store with
  | None => (bs, None)
  | Some st => (bs, Some (bs_RecordSuccess now deployment st).1)
  end.

Definition RecordFailure (now : Z) (deployment : string) (err : option go_error) (bs : breakers)
    (store : option B) : breakers * option B :=
  match err with
  | None => (bs, store)
  | Some e =>
      if negb (IsRetryable (Some e)) then (bs, store)
      else
        let bs := failure_local now deployment e bs in
        match store with
        | None => (bs, None)
        | Some st =>
            let '(st, reply) :=
              bs_RecordFailure now deployment breakerFailureThreshold breakerCooldown st in
            match reply with
            | Ok (failures, openUntil) =>
                if negb (IsZero openUntil)
                then (failure_merge deployment failures openUntil bs, Some st)
                else (bs, Some st)
            | Err _ => (bs, Some st)
            end
        end
  end.

(** [state != nil && !state.OpenUntil.IsZero() && state.OpenUntil.After(now)] *)
Definition locally_open (now : Z) (state : option breakerState) : bool :=
  match state with
  | Some st => negb (IsZero (bk_OpenUntil st)) && After (bk_OpenUntil st) now
  | None => false
  end.

(** [isOpenLocked]: the local state first, then the shared one, whose answer
    is copied into the local state. *)
Definition isOpenLocked (now : Z) (name : string) (bs : breakers) (store : option B) :
    breakers * bool :=
  let state := bs !! name in
  if locally_open now state then (bs, true)
  else match store with
  | None => (bs, false)
  | Some s =>
      match bs_IsOpen now name s with
      | Ok openUntil =>
          if negb (IsZero openUntil) && After openUntil now
          then
            let st := default zero_breaker state in
            (<[name := mkBreakerState (bk_ConsecutiveFailures st) (bk_LastFailure st) openUntil
                         (bk_LastError st)]> bs, true)
          else (bs, false)
      | Err _ => (bs, false)
      end
  end.
End store.

(** Without a shared store. *)
#[export] Instance no_store : BreakerStore Empty_set := {|
  bs_IsOpen _ _ (s : Empty_set) := match s with end;
  bs_RecordFailure _ _ _ _ (s : Empty_set) := match s with end;
  bs_RecordSuccess _ _ (s : Empty_set) := match s with end;
|}.

(** ** The shared store in Redis *)

(** [RedisBreakerStore] with the database it talks to and the way its next
    calls end. *)
Record RedisBreakerStore (R : Type) := mkRedisBreakerStore {
  rb_client : option R;
  rb_prefix : string;
  rb_get : io;
  rb_pipe : io;
  rb_set : io;
}.
Arguments mkRedisBreakerStore {R}.
Arguments rb_client {R}.
Arguments rb_prefix {R}.
Arguments rb_get {R}.
Arguments rb_pipe {R}.
Arguments rb_set {R}.

Definition NewRedisBreakerStore {R} (client : option R) (keyPrefix : string) : RedisBreakerStore R :=
  mkRedisBreakerStore client (if (keyPrefix =? "")%string then "aiport" else keyPrefix) IoOk IoOk IoOk.

Section redis_store.
Context {R : Type} `{RedisCounter R, RedisStamp R}.
Implicit Types (s : RedisBreakerStore R).

(** The server's millisecond clock, read at the caller's time. *)
Variable server : Z -> Z.

Definition failuresKey (s : RedisBreakerStore R) (name : string) : string :=
  rb_prefix s +:+ ":breaker:" +:+ name +:+ ":failures".
Definition openKey (s : RedisBreakerStore R) (name : string) : string :=
  rb_prefix s +:+ ":breaker:" +:+ name +:+ ":open_until".

Definition set_client (s : RedisBreakerStore R) (r : R) : RedisBreakerStore R :=
  mkRedisBreakerStore (Some r) (rb_prefix s) (rb_get s) (rb_pipe s) (rb_set s).

Definition store_IsOpen (now : Z) (deployment : string) (s : RedisBreakerStore R) : result string Z :=
  match rb_client s with
  | None => Ok 0
  | Some r =>
      match rb_get s with
      | IoOk =>
          match TGET (server now) (openKey s deployment) r with
          | None => Ok 0
          | Some Garbage => Err "parse open_until"
          | Some (Stamp t) => if Before t now then Ok 0 else Ok t
          end
      | _ => Err "breaker is_open"
      end
  end.

Definition store_RecordFailure (now : Z) (deployment : string) (threshold cooldown : Z)
    (s : RedisBreakerStore R) : RedisBreakerStore R * result string (Z * Z) :=
  match rb_client s with
  | None => (s, Ok (0, 0))
  | Some r =>
      let '(r1, n) := INCRBY (server now) (failuresKey s deployment) 1 r in
      let r1 := CPEXPIRE (server now) (failuresKey s deployment) (Milliseconds cooldown) r1 in
      match rb_pipe s with
      | IoFailedBefore => (s, Err "breaker incr")
      | IoFailedAfter => (set_client s r1, Err "breaker incr")
      | IoOk =>
          if n <? threshold then (set_client s r1, Ok (n, 0))
          else
            let openUntil := now + cooldown in
            let r2 := TSET (server now) (openKey s deployment) (Stamp openUntil)
                        (Milliseconds cooldown) r1 in
            match rb_set s with
            | IoFailedBefore => (set_client s r1, Err "breaker set open")
            | IoFailedAfter => (set_client s r2, Err "breaker set open")
            | IoOk => (set_client s r2, Ok (n, openUntil))
            end
      end
  end.

Definition store_RecordSuccess (now : Z) (deployment : string) (s : RedisBreakerStore R) :
    RedisBreakerStore R * result string unit :=
  match rb_client s with
  | None => (s, Ok tt)
  | Some r =>
      let r1 := CDEL (server now) (failuresKey s deployment) r in
      let r1 := TDEL (server now) (openKey s deployment) r1 in
      match rb_pipe s with
      | IoFailedBefore => (s, Err "breaker reset")
      | IoFailedAfter => (set_client s r1, Err "breaker reset")
      | IoOk => (set_client s r1, Ok tt)
      end
  end.

Definition redis_store : BreakerStore (RedisBreakerStore R) := {|
  bs_IsOpen := store_IsOpen;
  bs_RecordFailure := store_RecordFailure;
  bs_RecordSuccess := store_RecordSuccess;
|}.
End redis_store.

(** ** What a breaker means: the current run of failures *)

(** An outcome of a deployment, with its time. *)
Inductive outcome := Failed (t : Z) (e : go_error) | Succeeded (t : Z).

Definition time_of (o : outcome) : Z := match o with Failed t _ | Succeeded t => t end.

(** Outcomes are listed latest first, each with its deployment. *)
Definition history := list (string * outcome).

(** The registry after a history. *)
Fixpoint replay (h : history) : breakers :=
  match h with
  | [] => ∅
  | (name, Failed t e) :: rest => (RecordFailure t name (Some e) (replay rest) (None : option Empty_set)).1
  | (name, Succeeded t) :: rest => (RecordSuccess t name (replay rest) (None : option Empty_set)).1
  end.

(** The latest retryable failure of a deployment. *)
Fixpoint last_failure (name : string) (h : history) : option Z :=
  match h with
  | [] => None
  | (n, Failed t e) :: rest =>
      if bool_decide (n = name) && IsRetryable (Some e) then Some t else last_failure name rest
  | _ :: rest => last_failure name rest
  end.

(** The length of the current run of retryable failures: no success in it and
    no gap longer than the cooldown. *)
Fixpoint streak (name : string) (h : history) : Z :=
  match h with
  | [] => 0
  | (n, Failed t e) :: rest =>
      if bool_decide (n = name) && IsRetryable (Some e)
      then match last_failure name rest with
           | Some u => if t - u <=? breakerCooldown then streak name rest + 1 else 1
           | None => 1
           end
      else streak name rest
  | (n, Succeeded _) :: rest => if bool_decide (n = name) then 0 else streak name rest
  end.

(** The history is in order and its clock is past the zero time. *)
Definition ordered (h : history) : Prop :=
  StronglySorted (fun a b => time_of b.2 <= time_of a.2) h /\
  Forall (fun a => 0 < time_of a.2) h /\ Z.of_nat (length h) < MaxInt64.

(** The state a breaker is in after a history. *)
Record tracks (name : string) (h : history) (st : breakerState) : Prop := {
  tracks_last : bk_LastFailure st = default 0 (last_failure name h);
  tracks_count : bk_ConsecutiveFailures st = streak name h;
  tracks_open : 3 <= streak name h -> bk_OpenUntil st = bk_LastFailure st + breakerCooldown;
  tracks_closed : streak name h < 3 ->
    bk_OpenUntil st = 0 \/ (last_failure name h <> None /\ bk_OpenUntil st < bk_LastFailure st);
  tracks_range : 0 <= streak name h <= Z.of_nat (length h);
}.

Lemma last_failure_time name h t :
  Forall (fun a => 0 < time_of a.2) h -> last_failure name h = Some t -> 0 < t.
Proof.
  induction 1 as [| [n o] h Ho _ IH]; simpl; [done |].
  destruct o; simpl in *; [case_match; [by intros [= <-] | done] | done].
Qed.

Lemma last_failure_before name h t n :
  Forall (fun a => time_of a.2 <= n) h -> last_failure name h = Some t -> t <= n.
Proof.
  induction 1 as [| [m o] h Ho _ IH]; simpl; [done |].
  destruct o; simpl in *; [case_match; [by intros [= <-] | done] | done].
Qed.

Lemma streak_zero name h : last_failure name h = None -> streak name h = 0.
Proof.
  induction h as [| [n [t e|t]] h IH]; simpl; [done | |].
  - case_match; [done | auto].
  - case_match; auto.
Qed.

Lemma streak_cons name h t e :
  IsRetryable (Some e) = true ->
  streak name ((name, Failed t e) :: h) =
    match last_failure name h with
    | Some u => if t - u <=? breakerCooldown then streak name h + 1 else 1
    | None => 1
    end /\
  last_failure name ((name, Failed t e) :: h) = Some t.
Proof. intros He. cbn [streak last_failure]. by rewrite bool_decide_true, He. Qed.

(** Outcomes of other deployments and errors that are not retryable do not
    change a breaker. *)
Lemma tracks_other name h n o st :
  tracks name h st ->
  n <> name \/ (exists t e, o = Failed t e /\ IsRetryable (Some e) = false) ->
  tracks name ((n, o) :: h) st.
Proof.
  intros [Hl Hc Ho Hcl Hr] Hn.
  assert (streak name ((n, o) :: h) = streak name h /\
          last_failure name ((n, o) :: h) = last_failure name h) as [Es El].
  { cbn [streak last_failure]. destruct Hn as [Hn | (t & e & -> & He)].
    - rewrite !bool_decide_false by done. by destruct o.
    - by rewrite He, andb_false_r. }
  split; rewrite ?Es, ?El; try done. cbn [length]. lia.
Qed.

(** A failure of the deployment itself. *)
Lemma tracks_failure name h t e st :
  tracks name h st -> ordered ((name, Failed t e) :: h) -> IsRetryable (Some e) = true ->
  tracks name ((name, Failed t e) :: h)
    (mkBreakerState (next_failures t st) t
      (if breakerFailureThreshold <=? next_failures t st then t + breakerCooldown
       else bk_OpenUntil st)
      (error_text e)).
Proof.
  intros [Hl Hc Ho Hcl Hr] [Hs [Hp Hlen]] He.
  apply StronglySorted_inv in Hs as [_ Hle]. apply Forall_cons in Hp as [Ht Hp].
  cbn [time_of snd length] in *.
  destruct (streak_cons name h t e He) as [Es El].
  assert (next_failures t st = streak name ((name, Failed t e) :: h) /\
    0 < streak name ((name, Failed t e) :: h) <= Z.of_nat (length h) + 1 /\
    (streak name ((name, Failed t e) :: h) < 3 -> bk_OpenUntil st = 0 \/ bk_OpenUntil st < t))
    as (Hnext & Hrange & Hopen).
  { rewrite Es. unfold next_failures. rewrite Hl, Hc in *.
    destruct (last_failure name h) as [u|] eqn:E; cbn [default from_option id] in *.
    - pose proof (last_failure_time _ _ _ Hp E). pose proof (last_failure_before _ _ _ _ Hle E).
      cbn [time_of snd] in *. unfold IsZero, Sub, clamp64, MinInt64, MaxInt64, breakerCooldown, Second in *.
      destruct (Z.eqb_spec u 0); [lia |]. simpl.
      destruct (Z.leb_spec (t - u) (30 * 1000000000)) as [Hg|Hg]; simpl in Hg.
      + replace (30000000000 <? _) with false by lia.
        rewrite wrap64_id by int64_lia. split_and!; [lia.. |]. intros ?. destruct Hcl; [lia | by left | right; lia].
      + replace (30000000000 <? _) with true by lia. split_and!; [done | lia | lia |]. intros _.
        destruct (Z.le_gt_cases 3 (streak name h)) as [H3|H3]; [right; rewrite Ho by done; lia |].
        destruct (Hcl H3) as [? | [_ ?]]; [by left | right; lia].
    - unfold IsZero. rewrite Z.eqb_refl. simpl. split_and!; [done | lia | lia |]. intros _.
      rewrite (streak_zero _ _ E) in Hcl. destruct Hcl as [? | [? ?]]; [lia | by left | done]. }
  split; rewrite ?El; cbn [bk_ConsecutiveFailures bk_LastFailure bk_OpenUntil default from_option id length];
    unfold breakerFailureThreshold; rewrite ?Hnext; try done; try lia.
  - intros H3. by replace (3 <=? _) with true by lia.
  - intros H3. replace (3 <=? _) with false by lia. destruct (Hopen H3); [by left | by right].
Qed.

(** A success of the deployment. *)
Lemma tracks_success name h t st :
  tracks name h st -> tracks name ((name, Succeeded t) :: h) (mkBreakerState 0 (bk_LastFailure st) 0 "").
Proof.
  intros [Hl Hc Ho Hcl Hr]. split; cbn [streak last_failure length bk_LastFailure bk_ConsecutiveFailures bk_OpenUntil];
    rewrite ?bool_decide_true by done; try done; try lia; by left.
Qed.

Lemma replay_tracks name h : ordered h -> tracks name h (ensureBreaker name (replay h)).
Proof.
  induction h as [| [n o] h IH]; intros Ho.
  { split; simpl; try done; try lia; by left. }
  assert (ordered h) as Hoh.
  { destruct Ho as (Hs & Hp & Hlen). apply StronglySorted_inv in Hs as [Hs _].
    apply Forall_cons in Hp as [_ Hp]. cbn [length] in Hlen. split_and!; try done; lia. }
  specialize (IH Hoh). unfold ensureBreaker in *. destruct o as [t e|t]; cbn [replay].
  - unfold RecordFailure. destruct (IsRetryable (Some e)) eqn:He; cbn [negb fst].
    + unfold failure_local, ensureBreaker. destruct (decide (n = name)) as [->|Hn].
      * rewrite lookup_insert_eq. by apply tracks_failure.
      * rewrite lookup_insert_ne by done. apply tracks_other; [done | by left].
    + apply tracks_other; [done | eauto].
  - unfold RecordSuccess, success_local, ensureBreaker. cbn [fst]. destruct (decide (n = name)) as [->|Hn].
    + rewrite lookup_insert_eq. by apply tracks_success.
    + rewrite lookup_insert_ne by done. apply tracks_other; [done | by left].
Qed.

(** ** A replica beside others *)

(** What one replica does with its breakers while others share its store:
    outcomes of its own requests and looks before a request. Each event finds
    the store as the other replicas have left it. *)
Inductive shared_event (B : Type) :=
| SOutcome (name : string) (o : outcome) (store : B)
| SLook (name : string) (t : Z) (store : B).
Arguments SOutcome {B}.
Arguments SLook {B}.

Section replica.
Context {B : Type} `{BreakerStore B}.

Definition replay_outcome (name : string) (o : outcome) (bs : breakers) (store : B) : breakers :=
  match o with
  | Failed t e => (RecordFailure t name (Some e) bs (Some store)).1
  | Succeeded t => (RecordSuccess t name bs (Some store)).1
  end.

(** The replica's breakers after its events, latest first. *)
Fixpoint replay_shared (h : list (shared_event B)) : breakers :=
  match h with
  | [] => ∅
  | SOutcome name o st :: rest => replay_outcome name o (replay_shared rest) st
  | SLook name t st :: rest => (isOpenLocked t name (replay_shared rest) (Some st)).1
  end.

(** The replica's own outcomes. *)
Fixpoint own_outcomes (h : list (shared_event B)) : history :=
  match h with
  | [] => []
  | SOutcome name o _ :: rest => (name, o) :: own_outcomes rest
  | SLook _ _ _ :: rest => own_outcomes rest
  end.

(** The shared failure counts stay far from the top of a 64-bit integer. *)
Definition sane_count (h : list (shared_event B)) : Prop :=
  forall name t e st n u,
    SOutcome name (Failed t e) st ∈ h ->
    (bs_RecordFailure t name breakerFailureThreshold breakerCooldown st).2 = Ok (n, u) ->
    n <= 2 ^ 62.

(** The part of [tracks] the others cannot undo. *)
Record at_least (name : string) (h : history) (st : breakerState) : Prop := {
  at_least_last : bk_LastFailure st = default 0 (last_failure name h);
  at_least_count : streak name h <= bk_ConsecutiveFailures st <= 2 ^ 62 + Z.of_nat (length h);
  at_least_open : 3 <= streak name h -> bk_LastFailure st + breakerCooldown <= bk_OpenUntil st;
}.

Lemma failure_run_nonneg name h : 0 <= streak name h.
Proof.
  induction h as [| [n [t e|t]] h IH]; simpl; [lia | |].
  - destruct (bool_decide (n = name) && _); [| done].
    destruct (last_failure name h) as [u|]; [| lia]. destruct (t - u <=? breakerCooldown); lia.
  - destruct (bool_decide (n = name)); lia.
Qed.

Lemma at_least_other name h n o st :
  at_least name h st ->
  n <> name \/ (exists t e, o = Failed t e /\ IsRetryable (Some e) = false) ->
  at_least name ((n, o) :: h) st.
Proof.
  intros [Hl Hc Ho] Hn.
  assert (streak name ((n, o) :: h) = streak name h /\
          last_failure name ((n, o) :: h) = last_failure name h) as [Es El].
  { cbn [streak last_failure]. destruct Hn as [Hn | (t & e & -> & He)].
    - rewrite !bool_decide_false by done. by destruct o.
    - by rewrite He, andb_false_r. }
  split; rewrite ?Es, ?El; try done. cbn [length]. lia.
Qed.

Lemma at_least_failure name h t e st :
  at_least name h st -> ordered ((name, Failed t e) :: h) -> Z.of_nat (length h) < 2 ^ 61 ->
  IsRetryable (Some e) = true ->
  at_least name ((name, Failed t e) :: h)
    (mkBreakerState (next_failures t st) t
      (if breakerFailureThreshold <=? next_failures t st then t + breakerCooldown
       else bk_OpenUntil st)
      (error_text e)).
Proof.
  intros [Hl Hc Ho] [Hs [Hp Hlen]] Hlen' He.
  apply StronglySorted_inv in Hs as [_ Hle]. apply Forall_cons in Hp as [Ht Hp].
  cbn [time_of snd length] in *. destruct (streak_cons name h t e He) as [Es El].
  pose proof (failure_run_nonneg name h).
  assert (streak name ((name, Failed t e) :: h) <= next_failures t st <= 2 ^ 62 + Z.of_nat (S (length h)))
    as Hnext.
  { rewrite Es. unfold next_failures. rewrite Hl in *.
    destruct (last_failure name h) as [u|] eqn:E; cbn [default from_option id] in *.
    - pose proof (last_failure_time _ _ _ Hp E). pose proof (last_failure_before _ _ _ _ Hle E).
      cbn [time_of snd] in *. unfold IsZero, Sub, clamp64, MinInt64, MaxInt64, breakerCooldown, Second in *.
      destruct (Z.eqb_spec u 0); [lia |]. simpl.
      destruct (Z.leb_spec (t - u) (30 * 1000000000)) as [Hg|Hg]; simpl in Hg.
      + replace (30000000000 <? _) with false by lia. rewrite wrap64_id by int64_lia. lia.
      + replace (30000000000 <? _) with true by lia. rewrite wrap64_id by int64_lia. lia.
    - unfold IsZero. rewrite Z.eqb_refl. cbn [orb]. rewrite wrap64_id by int64_lia. lia. }
  split; rewrite ?El; cbn [bk_ConsecutiveFailures bk_LastFailure bk_OpenUntil default from_option id length];
    try done.
  unfold breakerFailureThreshold. intros H3. replace (3 <=? _) with true by lia. lia.
Qed.

Lemma last_failure_nonneg name h :
  Forall (fun a => 0 < time_of a.2) h -> 0 <= default 0 (last_failure name h).
Proof.
  intros Hp. destruct (last_failure name h) as [t|] eqn:E; simpl; [| lia].
  pose proof (last_failure_time _ _ _ Hp E). lia.
Qed.

(** Adopting the shared view after a failure only raises the count and the
    time. *)
Lemma at_least_merge name h bs n u :
  Forall (fun a => 0 < time_of a.2) h ->
  at_least name h (ensureBreaker name bs) -> n <= 2 ^ 62 ->
  at_least name h (ensureBreaker name (failure_merge name n u bs)).
Proof.
  intros Hp [Hl Hc Ho] Hn. pose proof (last_failure_nonneg name h Hp) as H0.
  unfold failure_merge. set (st := ensureBreaker name bs) in *.
  unfold ensureBreaker. rewrite lookup_insert_eq. cbn [default from_option id].
  split; cbn [bk_ConsecutiveFailures bk_LastFailure bk_OpenUntil]; [done | case_match; lia |].
  intros H3. specialize (Ho H3). unfold IsZero, After, breakerCooldown, Second in *.
  destruct (Z.eqb_spec (bk_OpenUntil st) 0); cbn [orb]; [lia |].
  destruct (Z.ltb_spec (bk_OpenUntil st) u); lia.
Qed.

(** Copying the shared opening on a look never shortens an opening. *)
Lemma at_least_look name h n t bs store :
  Forall (fun a => 0 < time_of a.2) h ->
  at_least name h (ensureBreaker name bs) ->
  at_least name h (ensureBreaker name (isOpenLocked t n bs (Some store)).1).
Proof.
  intros Hp Hat. pose proof (last_failure_nonneg name h Hp) as H0. unfold isOpenLocked.
  destruct (locally_open t (bs !! n)) eqn:E; [done |].
  destruct (bs_IsOpen t n store) as [u | ?]; [| done].
  destruct (negb (IsZero u) && After u t) eqn:Eu; [| done]. cbn [fst].
  destruct (decide (n = name)) as [->|Hn]; unfold ensureBreaker in *;
    [| by rewrite lookup_insert_ne by done].
  rewrite lookup_insert_eq. destruct Hat as [Hl Hc Ho]. cbn [default from_option id].
  split; cbn [bk_ConsecutiveFailures bk_LastFailure bk_OpenUntil]; [done | done |].
  intros H3. specialize (Ho H3). unfold locally_open, IsZero, After, breakerCooldown, Second in *.
  destruct (bs !! name) as [st|]; cbn [default from_option id bk_OpenUntil bk_LastFailure zero_breaker] in *;
    lia.
Qed.

Lemma ordered_tail a h : ordered (a :: h) -> ordered h.
Proof.
  intros (Hs & Hp & Hlen). apply StronglySorted_inv in Hs as [Hs _].
  apply Forall_cons in Hp as [_ Hp]. cbn [length] in Hlen. split_and!; try done; lia.
Qed.

Lemma at_least_outcome name n o st h bs :
  ordered ((n, o) :: h) -> Z.of_nat (length h) < 2 ^ 61 ->
  sane_count [SOutcome n o st] -> at_least name h (ensureBreaker name bs) ->
  at_least name ((n, o) :: h)
    (ensureBreaker name (replay_outcome n o bs st)).
Proof.
  intros Ho Hlen Hsane Hat. destruct o as [t e|t]; cbn [replay_outcome].
  - unfold RecordFailure. destruct (IsRetryable (Some e)) eqn:He; cbn [negb fst];
      [| apply at_least_other; [done | eauto]].
    assert (at_least name ((n, Failed t e) :: h) (ensureBreaker name (failure_local t n e bs))) as Hloc.
    { unfold failure_local, ensureBreaker. destruct (decide (n = name)) as [->|Hn].
      - rewrite lookup_insert_eq. by apply at_least_failure.
      - rewrite lookup_insert_ne by done. apply at_least_other; [done | by left]. }
    destruct (bs_RecordFailure _ _ _ _ _) as [st' [[m u] | ?]] eqn:E; [| done].
    destruct (negb (IsZero u)); [| done]. cbn [fst]. destruct (decide (n = name)) as [->|Hn].
    + apply at_least_merge; [apply Ho | done |].
      apply (Hsane name t e st m u); [constructor | by rewrite E].
    + unfold failure_merge, ensureBreaker. rewrite lookup_insert_ne by done. exact Hloc.
  - unfold RecordSuccess, success_local. cbn [fst]. unfold ensureBreaker.
    destruct (decide (n = name)) as [->|Hn].
    + rewrite lookup_insert_eq. destruct Hat as [Hl _ _].
      split; cbn [streak last_failure length bk_LastFailure bk_ConsecutiveFailures bk_OpenUntil
                  default from_option id]; rewrite ?bool_decide_true by done; try done; lia.
    + rewrite lookup_insert_ne by done. apply at_least_other; [done | by left].
Qed.

(** Whatever the other replicas do to the shared store. *)
Lemma replay_shared_at_least name h :
  ordered (own_outcomes h) -> Z.of_nat (length (own_outcomes h)) < 2 ^ 61 -> sane_count h ->
  at_least name (own_outcomes h) (ensureBreaker name (replay_shared h)).
Proof.
  induction h as [| ev h IH]; intros Ho Hlen Hsane.
  { split; simpl; try done; lia. }
  assert (sane_count h) as Hsane'.
  { intros n t e st m u Hin. apply (Hsane n t e st m u). by constructor. }
  destruct ev as [n o st | n t st]; cbn [own_outcomes replay_shared] in *.
  - cbn [length] in Hlen. apply at_least_outcome; [done | lia | |].
    + intros n' t e st' m u Hin. apply (Hsane n' t e st' m u). apply list_elem_of_singleton in Hin as ->. constructor.
    + apply IH; [by eapply ordered_tail | lia | done].
  - apply at_least_look; [apply Ho | by apply IH].
Qed.

Lemma shared_streak_opens name h now store :
  ordered (own_outcomes h) -> Z.of_nat (length (own_outcomes h)) < 2 ^ 61 -> sane_count h ->
  3 <= streak name (own_outcomes h) ->
  forall t, last_failure name (own_outcomes h) = Some t -> now < t + breakerCooldown ->
  (isOpenLocked now name (replay_shared h) (Some store)).2 = true.
Proof.
  intros Ho Hlen Hsane H3 t Ht Hnow.
  destruct (replay_shared_at_least name h Ho Hlen Hsane) as [Hl _ Hopen].
  specialize (Hopen H3). rewrite Ht in Hl. cbn [default from_option id] in Hl.
  pose proof (last_failure_time _ _ _ (proj1 (proj2 Ho)) Ht).
  unfold isOpenLocked. assert (locally_open now (replay_shared h !! name) = true) as ->; [| done].
  unfold ensureBreaker, locally_open, IsZero, After, breakerCooldown, Second in *.
  destruct (replay_shared h !! name); cbn in *; lia.
Qed.
End replica.

(** Without a shared store a look reads the local state. *)
Lemma local_streak_opens name h now :
  ordered h -> Forall (fun a => time_of a.2 <= now) h ->
  locally_open now (replay h !! name) = true <->
  3 <= streak name h /\ exists t, last_failure name h = Some t /\ now < t + breakerCooldown.
Proof.
  intros Hord Hnow. pose proof (replay_tracks name h Hord) as [Hl Hc Ho Hcl _].
  assert (locally_open now (replay h !! name) =
          negb (IsZero (bk_OpenUntil (ensureBreaker name (replay h)))) &&
          After (bk_OpenUntil (ensureBreaker name (replay h))) now) as ->.
  { unfold ensureBreaker. by destruct (replay h !! name). }
  set (st := ensureBreaker name (replay h)) in *. unfold IsZero, After.
  destruct (Z.le_gt_cases 3 (streak name h)) as [H3|H3].
  - destruct (last_failure name h) as [t|] eqn:E.
    + pose proof (last_failure_time _ _ _ (proj1 (proj2 Hord)) E). rewrite Ho, Hl by done.
      cbn [default from_option id]. unfold breakerCooldown, Second in *.
      split; [intros Hb; split; [done |]; exists t; split; [done | lia] |].
      intros [_ (u & [= <-] & Hu)]. lia.
    + rewrite (streak_zero _ _ E) in H3. lia.
  - split; [| lia]. destruct (Hcl H3) as [-> | [Hne Hlt]]; [done |].
    destruct (last_failure name h) as [t|] eqn:E; [| done]. rewrite Hl in Hlt. cbn in Hlt.
    pose proof (last_failure_before _ _ _ _ Hnow E). lia.
Qed.

(** C39. A breaker refines its specification, the current run of retryable
    failures (no success in it, no gap over 30 s). Let a gateway process have
    seen a history of outcomes of any deployments, in order of time. Without
    a shared store the process treats a deployment as open exactly when the
    run has reached three and less than the cooldown has passed since its
    latest failure. With a shared store, whatever other replicas do to it and
    however its calls fail, the process still treats the deployment as open
    whenever its own run has reached three within the cooldown (it may treat
    it as open in other cases too, which is what the store is for); the
    shared counts are assumed not to reach 2^62 and the history 2^61. *)
Theorem breaker_refines_streak (name : string) (h : history) (now : Z)
    (Hord : ordered h) (Hnow : Forall (fun a => time_of a.2 <= now) h) :
  ((isOpenLocked now name (replay h) (None : option Empty_set)).2 = true <->
   3 <= streak name h /\ exists t, last_failure name h = Some t /\ now < t + breakerCooldown) /\
  (forall (B : Type) (HB : BreakerStore B) (hs : list (shared_event B)) (store : B),
     own_outcomes hs = h -> sane_count hs -> Z.of_nat (length h) < 2 ^ 61 ->
     3 <= streak name h ->
     forall t, last_failure name h = Some t -> now < t + breakerCooldown ->
     (isOpenLocked now name (replay_shared hs) (Some store)).2 = true).
Proof.
  split.
  - rewrite <- (local_streak_opens name h now Hord Hnow). unfold isOpenLocked.
    by destruct (locally_open now (replay h !! name)).
  - intros B HB hs store <- Hsane Hlen H3 t Ht Hlt.
    by apply (shared_streak_opens name hs now store Hord Hlen Hsane H3 t Ht Hlt).
Qed.

Definition http_500 : go_error := EUpstream (mkUpstreamError "openai" 500 "boom").

Definition witness_history : history :=
  [("a", Failed 3000 http_500); ("b", Succeeded 2500); ("a", Failed 2000 http_500);
   ("a", Failed 1500 (EOther "bad request")); ("a", Failed 1000 http_500)].

(** A store that answers every call with an error. *)
Definition dead_store : BreakerStore unit := {|
  bs_IsOpen _ _ _ := Err "down"%string;
  bs_RecordFailure _ _ _ _ s := (s, Err "down"%string);
  bs_RecordSuccess _ _ s := (s, Err "down"%string);
|}.

Definition witness_shared : list (shared_event unit) :=
  SLook "a" 3500 tt :: map (fun '(n, o) => SOutcome n o tt) witness_history.

Lemma breaker_refines_streak_witness :
  (isOpenLocked 4000 "a" (replay witness_history) (None : option Empty_set)).2 = true /\
  (@isOpenLocked unit dead_store 4000 "a" (@replay_shared unit dead_store witness_shared) (Some tt)).2 = true /\
  (isOpenLocked 4000 "b" (replay witness_history) (None : option Empty_set)).2 = false.
Proof.
  assert (ordered witness_history) as Hord.
  { split_and!; [repeat constructor; vm_compute; discriminate |
                 repeat constructor; vm_compute; done | vm_compute; done]. }
  assert (Forall (fun a => time_of a.2 <= 4000) witness_history) as Hnow
    by (repeat constructor; vm_compute; discriminate).
  destruct (breaker_refines_streak "a" witness_history 4000 Hord Hnow) as [H1 H2].
  split_and!; [| | reflexivity].
  - apply H1. split; [vm_compute; discriminate |]. exists 3000.
    split; [reflexivity | vm_compute; reflexivity].
  - apply (H2 unit dead_store witness_shared tt) with (t := 3000);
      [reflexivity | by intros ?????? _ ? | vm_compute; done | vm_compute; discriminate |
       reflexivity | vm_compute; done].
Defined.

(** ** The shared view *)

Section shared.
Context {R : Type} `{RedisCounterLaws R, RedisStampLaws R}.
Variable server : Z -> Z.
#[local] Instance shared_store : BreakerStore (RedisBreakerStore R) := redis_store server.

(** What a successful [RecordFailure] of the store leaves for the others. *)
Lemma store_RecordFailure_opens now dep s s' n u :
  store_RecordFailure server now dep breakerFailureThreshold breakerCooldown s = (s', Ok (n, u)) ->
  u <> 0 ->
  u = now + breakerCooldown /\ 3 <= n /\ rb_get s' = rb_get s /\
  exists r', rb_client s' = Some r' /\
    tview r' (openKey s' dep) = Some (Stamp u, Some (server now + 30000)).
Proof.
  unfold store_RecordFailure. destruct (rb_client s) as [r|]; [| intros [= <- <- <-]; done].
  destruct (INCRBY _ _ _ _) as [r1 m]. destruct (rb_pipe s); [| done | done].
  destruct (Z.ltb_spec m breakerFailureThreshold) as [|Hm]; [by intros [= <- <- <-] |].
  destruct (rb_set s); [| done | done]. intros [= <- <- <-] _. split_and!; try done.
  eexists. split; [reflexivity |]. rewrite TSET_view by done. by rewrite decide_True.
Qed.

(** A peer honours an opening: once a replica's failure has opened the
    shared breaker, every other replica that can read the store treats the
    deployment as open, whatever its own state, until the cooldown has passed
    on the server's clock. *)
Theorem peer_honours_opening (now now' : Z) (dep : string) (s s' : RedisBreakerStore R) (n u : Z)
    (mine : breakers)
    (Hfail : store_RecordFailure server now dep breakerFailureThreshold breakerCooldown s
             = (s', Ok (n, u)))
    (Hopen : u <> 0) (Hzero : 0 < now) (Hget : rb_get s = IoOk)
    (Hnow : now <= now' < now + breakerCooldown) (Hserver : server now' < server now + 30000) :
  (isOpenLocked now' dep mine (Some s')).2 = true.
Proof.
  apply store_RecordFailure_opens in Hfail as (-> & _ & Hg & r' & Hr & Hv); [| done].
  unfold isOpenLocked. destruct (locally_open now' (mine !! dep)); [done |].
  assert (bs_IsOpen now' dep s' = Ok (now + breakerCooldown)) as ->.
  { cbn. unfold store_IsOpen. rewrite Hr, Hg, Hget, TGET_spec, Hv. cbn.
    destruct (Z.leb_spec (server now + 30000) (server now')); [lia |]. cbn.
    unfold Before. destruct (Z.ltb_spec (now + breakerCooldown) now'); [lia | done]. }
  unfold IsZero, After, breakerCooldown, Second in *.
  destruct (Z.eqb_spec (now + 30 * 1000000000) 0); [lia |].
  destruct (Z.ltb_spec now' (now + 30 * 1000000000)); [done | lia].
Qed.
End shared.

(** Three failures on one replica, with the server's clock in step. *)
Definition ms_clock (t : Z) : Z := t / Millisecond.

#[export] Instance map_store : BreakerStore (RedisBreakerStore MapRedis.db) := redis_store ms_clock.

Definition store0 : RedisBreakerStore MapRedis.db := NewRedisBreakerStore (Some MapRedis.empty_db) "".

Definition replica_a : breakers * option (RedisBreakerStore MapRedis.db) :=
  let '(bs, st) := RecordFailure Second "d" (Some http_500) ∅ (Some store0) in
  let '(bs, st) := RecordFailure (2 * Second) "d" (Some http_500) bs st in
  RecordFailure (3 * Second) "d" (Some http_500) bs st.

Lemma peer_honours_opening_witness :
  exists s s' n u,
    store_RecordFailure ms_clock (3 * Second) "d" breakerFailureThreshold breakerCooldown s
      = (s', Ok (n, u)) /\ u <> 0 /\
    (isOpenLocked (32 * Second) "d" ∅ (Some s')).2 = true.
Proof.
  pose (two := RecordFailure (2 * Second) "d" (Some http_500)
                 (RecordFailure Second "d" (Some http_500) ∅ (Some store0)).1
                 (RecordFailure Second "d" (Some http_500) ∅ (Some store0)).2).
  pose (s := default store0 two.2).
  pose (out := store_RecordFailure ms_clock (3 * Second) "d" breakerFailureThreshold breakerCooldown s).
  exists s, out.1, 3, (33 * Second).
  split; [vm_compute; reflexivity |]. split; [done |].
  apply (peer_honours_opening ms_clock (3 * Second) (32 * Second) "d" s out.1 3 (33 * Second) ∅);
    [vm_compute; reflexivity | done | done | reflexivity | split; done | done].
Defined.

(** A success does not clear a peer's open state before the cooldown:
    replica B has copied the opening into its own state, replica A then
    records a success, which empties the shared breaker, and B still treats
    the deployment as open, although the code mirrors the success so that a
    peer's open state clears quickly. *)
Theorem success_leaves_peer_open :
  let '(a, st) := replica_a in
  let '(b, open1) := match st with
                     | Some s => isOpenLocked (4 * Second) "d" ∅ (Some s)
                     | None => (∅, false)
                     end in
  let '(a, st) := RecordSuccess (5 * Second) "d" a st in
  open1 = true /\
  (isOpenLocked (6 * Second) "d" a st).2 = false /\
  match st with Some s => store_IsOpen ms_clock (6 * Second) "d" s | None => Ok 1 end = Ok 0 /\
  (isOpenLocked (6 * Second) "d" b st).2 = true.
Proof. vm_compute. done. Qed.
