(* ===== verification/Limits.v ===== *)
(** * Deployment capacity across configuration refreshes

    The registry's map from deployment names to shared in-flight counters
    ([deploymentLimits] of [internal/router/router.go]): the part of
    [Registry.Refresh] that reuses counters, [TryAcquireDeployment],
    [DeploymentConcurrency] and [DeploymentPermit.Release].

    A counter is a pointer: permits keep the counter they were taken from, so
    the counters live in a heap and the map holds pointers into it. Each
    operation runs under the registry's lock, and [Counter.TryAcquire] and
    [Release] are the atomic operations of [Admission]. *)

From S2P Require Import Prelude Admission.
Import Counter.

Record Limits := mkLimits {
  lt_names : option (gmap string nat);  (** [None] is the nil map *)
  lt_heap : gmap nat Counter;
}.

Definition no_limits : Limits := mkLimits (Some ∅) ∅.

(** [limit] of a deployment row: positive or 0 for none. *)
Definition row_limit (maxParallel : option Z) : Z :=
  if ptr_pos maxParallel then deref maxParallel else 0.

(** One iteration of the first loop: reuse the counter or make one. *)
Definition ensure_counter (name : string) (limit : Z) (l : gmap string nat * gmap nat Counter) :
    gmap string nat * gmap nat Counter :=
  let '(names, heap) := l in
  match names !! name with
  | Some p => (names, alter (fun c => SetLimit c limit) p heap)
  | None =>
      let p := fresh (dom heap) in
      (<[name := p]> names, <[p := NewCounter limit]> heap)
  end.

Fixpoint ensure_counters (rows : list (string * Z)) (l : gmap string nat * gmap nat Counter) :
    gmap string nat * gmap nat Counter :=
  match rows with
  | [] => l
  | (name, limit) :: rest => ensure_counters rest (ensure_counter name limit l)
  end.

(** The counter behind a pointer. *)
Definition stats (heap : gmap nat Counter) (p : nat) : Counter := default (mkCounter 0 0) (heap !! p).

(** The two loops of [Refresh] over [deploymentLimits]; [rows] is the new
    deployment map with each row's limit. *)
Definition refresh_limits (rows : gmap string Z) (l : Limits) : Limits :=
  let names := default ∅ (lt_names l) in
  let '(names, heap) := ensure_counters (map_to_list rows) (names, lt_heap l) in
  mkLimits
    (Some (filter (fun '(name, p) =>
       is_Some (rows !! name) \/ inFlight (stats heap p) <> 0) names)) heap.

Record DeploymentPermit := mkDeploymentPermit { dp_name : string; dp_counter : option nat }.

Record DeploymentConcurrency := mkDeploymentConcurrency { dcy_InFlight : Z; dcy_Limit : Z }.

Definition TryAcquireDeployment (name : string) (l : Limits) :
    Limits * option DeploymentPermit * DeploymentConcurrency :=
  match lt_names l with
  | None => (l, Some (mkDeploymentPermit name None), mkDeploymentConcurrency 0 0)
  | Some names =>
      match names !! name with
      | None => (l, None, mkDeploymentConcurrency 0 0)
      | Some p =>
          let '(c, ok) := TryAcquire (stats (lt_heap l) p) in
          let state := mkDeploymentConcurrency (inFlight c) (limit c) in
          let l := mkLimits (lt_names l) (<[p := c]> (lt_heap l)) in
          if ok then (l, Some (mkDeploymentPermit name (Some p)), state) else (l, None, state)
      end
  end.

(** [DeploymentPermit.Release] of a live permit; the caller keeps the
    once-only flag of the permit. *)
Definition release_permit (p : DeploymentPermit) (l : Limits) : Limits :=
  match dp_counter p with
  | None => l
  | Some q => mkLimits (lt_names l) (<[q := Release (stats (lt_heap l) q)]> (lt_heap l))
  end.

Definition deploymentConcurrency (name : string) (l : Limits) : DeploymentConcurrency :=
  match default ∅ (lt_names l) !! name with
  | None => mkDeploymentConcurrency 0 0
  | Some p =>
      mkDeploymentConcurrency (inFlight (stats (lt_heap l) p)) (limit (stats (lt_heap l) p))
  end.

(** ** Refreshes, acquisitions and releases in any order *)

(** A permit and whether [Release] has been called on it. *)
Record sys := mkSys { limits : Limits; permits : list (DeploymentPermit * bool) }.

Inductive step : sys -> sys -> Prop :=
| step_refresh l ps rows : step (mkSys l ps) (mkSys (refresh_limits rows l) ps)
| step_acquire l l' ps name p st :
    TryAcquireDeployment name l = (l', Some p, st) ->
    step (mkSys l ps) (mkSys l' (ps ++ [(p, false)]))
| step_refused l l' ps name st :
    TryAcquireDeployment name l = (l', None, st) -> step (mkSys l ps) (mkSys l' ps)
| step_release l ps i p :
    ps !! i = Some (p, false) ->
    step (mkSys l ps) (mkSys (release_permit p l) (<[i := (p, true)]> ps))
| step_release_again l ps i p :
    ps !! i = Some (p, true) -> step (mkSys l ps) (mkSys l ps).

(** A permit for the counter at [q] that is still held. *)
Definition holds (q : nat) (p : DeploymentPermit * bool) : bool :=
  negb p.2 && bool_decide (dp_counter p.1 = Some q).

(** A permit for the deployment [name] that is still held. *)
Definition holds_name (name : string) (p : DeploymentPermit * bool) : bool :=
  negb p.2 && bool_decide (dp_name p.1 = name).

(** The invariant on the map and the heap, apart from the record. *)
Record wf (names : gmap string nat) (heap : gmap nat Counter) (ps : list (DeploymentPermit * bool)) :
    Prop := {
  wf_counted q c : heap !! q = Some c -> inFlight c = countZ (holds q) ps;
  wf_allocated name q : names !! name = Some q -> is_Some (heap !! q);
  wf_distinct name name' q : names !! name = Some q -> names !! name' = Some q -> name = name';
  wf_held p : (p, false) ∈ ps -> exists q, dp_counter p = Some q /\ names !! dp_name p = Some q;
}.

Lemma countZ_none {A} (f : A -> bool) l : (forall x, x ∈ l -> f x = false) -> countZ f l = 0.
Proof. intros Hf. rewrite (countZ_ext f (fun _ => false) l Hf). by rewrite countZ_const. Qed.

Lemma holds_spec q p b : holds q (p, b) = true <-> b = false /\ dp_counter p = Some q.
Proof. unfold holds. cbn. destruct b; rewrite ?bool_decide_eq_true; cbn; [intuition discriminate |].
  rewrite bool_decide_eq_true. tauto. Qed.

(** Nobody holds a permit of a counter that is not allocated. *)
Lemma wf_unallocated names heap ps q :
  wf names heap ps -> heap !! q = None -> countZ (holds q) ps = 0.
Proof.
  intros Hwf Hq. apply countZ_none. intros [p b] Hin. destruct (holds q (p, b)) eqn:E; [| done].
  apply holds_spec in E as [-> Ep]. destruct (wf_held _ _ _ Hwf p Hin) as (q' & E' & Hn).
  rewrite Ep in E'. injection E' as <-. destruct (wf_allocated _ _ _ Hwf _ _ Hn) as [c Hc]. congruence.
Qed.

Lemma wf_ensure name lim names heap ps names' heap' :
  wf names heap ps -> ensure_counter name lim (names, heap) = (names', heap') -> wf names' heap' ps.
Proof.
  intros Hwf. unfold ensure_counter. destruct (names !! name) as [p|] eqn:E; intros [= <- <-].
  - destruct Hwf as [Hc Ha Hd Hh]. split; try done.
    + intros q c. destruct (decide (p = q)) as [<-|Hne]; [rewrite lookup_alter_eq | rewrite lookup_alter_ne by done; apply Hc].
      destruct (heap !! p) as [c0|] eqn:E0; [| done]. intros [= <-]. cbn. by apply Hc.
    + intros n q Hn. destruct (Ha _ _ Hn) as [c Hq]. destruct (decide (p = q)) as [<-|Hne].
      * rewrite lookup_alter_eq, Hq. by eexists.
      * rewrite lookup_alter_ne by done. by eexists.
  - set (p := fresh (dom heap)). assert (heap !! p = None) as Hp.
    { apply not_elem_of_dom, is_fresh. }
    pose proof (wf_unallocated _ _ _ _ Hwf Hp) as Hz. destruct Hwf as [Hc Ha Hd Hh].
    assert (forall n q, names !! n = Some q -> q <> p) as Hne.
    { intros n q Hn ->. destruct (Ha _ _ Hn). congruence. }
    split.
    + intros q c [[<- <-] | [? Hq]]%lookup_insert_Some; [| by apply Hc].
      unfold NewCounter, SetLimit. cbn. lia.
    + intros n q [[<- <-] | [? Hn]]%lookup_insert_Some; [rewrite lookup_insert_eq; eauto |].
      rewrite lookup_insert_ne by (intros ->; by apply (Hne _ _ Hn)). by eapply Ha.
    + intros n n' q [[<- <-] | [? Hn]]%lookup_insert_Some [[<- Hq] | [? Hn']]%lookup_insert_Some;
        [done | by destruct (Hne _ _ Hn') | subst; by destruct (Hne _ _ Hn) | by eapply Hd].
    + intros d Hin. destruct (Hh d Hin) as (q & Eq & Hn). exists q. split; [done |].
      rewrite lookup_insert_ne; [done | congruence].
Qed.

Lemma wf_ensures rows names heap ps names' heap' :
  wf names heap ps -> ensure_counters rows (names, heap) = (names', heap') -> wf names' heap' ps.
Proof.
  revert names heap. induction rows as [| [n lim] rows IH]; intros names heap Hwf; cbn [ensure_counters].
  { by intros [= <- <-]. }
  destruct (ensure_counter n lim (names, heap)) as [names1 heap1] eqn:E. apply IH. by eapply wf_ensure.
Qed.

Lemma wf_filter (rows : gmap string Z) names heap ps :
  wf names heap ps ->
  wf (filter (fun '(name, p) => is_Some (rows !! name) \/ inFlight (stats heap p) <> 0) names) heap ps.
Proof.
  intros Hwf. pose proof (wf_held _ _ _ Hwf) as Hh. pose proof Hwf as [Hc Ha Hd _]. split; try done.
  - intros n q [Hn _]%map_lookup_filter_Some. by eapply Ha.
  - intros n n' q [Hn _]%map_lookup_filter_Some [Hn' _]%map_lookup_filter_Some. by eapply Hd.
  - intros p Hin. destruct (Hh p Hin) as (q & Eq & Hn). exists q. split; [done |].
    apply map_lookup_filter_Some. split; [done |]. right. destruct (Ha _ _ Hn) as [c Hq].
    unfold stats. rewrite Hq. cbn. rewrite (Hc _ _ Hq). apply list_elem_of_lookup in Hin as [i Hi].
    pose proof (countZ_pos (holds q) ps i (p, false) Hi ltac:(by apply holds_spec)). lia.
Qed.

(** Updating the counter at [q] together with its permits. *)
Lemma wf_update names heap ps q c c' ps' :
  wf names heap ps -> heap !! q = Some c ->
  (forall q', countZ (holds q') ps' =
     countZ (holds q') ps + (if decide (q = q') then inFlight c' - inFlight c else 0)) ->
  (forall p, (p, false) ∈ ps' -> exists q, dp_counter p = Some q /\ names !! dp_name p = Some q) ->
  wf names (<[q := c']> heap) ps'.
Proof.
  intros [Hc Ha Hd Hh] Hq Hps Hh'. split; try done.
  - intros q' d [[<- <-] | [Hne Hd']]%lookup_insert_Some.
    + rewrite Hps, decide_True by done. pose proof (Hc _ _ Hq). lia.
    + rewrite Hps, decide_False by done. pose proof (Hc _ _ Hd'). lia.
  - intros n q' Hn. destruct (decide (q = q')) as [<-|]; [rewrite lookup_insert_eq; eauto |].
    rewrite lookup_insert_ne by done. by eapply Ha.
Qed.

(** The whole invariant. *)
Definition good (s : sys) : Prop :=
  exists names, lt_names (limits s) = Some names /\ wf names (lt_heap (limits s)) (permits s).

Lemma good_acquire l l' ps name p st :
  good (mkSys l ps) -> TryAcquireDeployment name l = (l', p, st) ->
  good (mkSys l' (ps ++ match p with Some p => [(p, false)] | None => [] end)).
Proof.
  intros (names & En & Hwf). cbn in *. unfold TryAcquireDeployment. rewrite En.
  destruct (names !! name) as [q|] eqn:Eq; [| intros [= <- <- <-]; rewrite app_nil_r; by exists names].
  destruct (wf_allocated _ _ _ Hwf _ _ Eq) as [c Hq].
  unfold stats, TryAcquire. rewrite Hq. cbn [default from_option id].
  destruct ((0 <? limit c) && (limit c <=? inFlight c)); intros [= <- <- <-]; exists names; (split; [done |]); cbn.
  - rewrite app_nil_r. rewrite insert_id by done. done.
  - apply (wf_update _ _ ps q c); try done.
    + intros q'. rewrite countZ_app. unfold countZ at 2, holds at 2. cbn. case_decide as E.
      * subst. rewrite bool_decide_true by done. lia.
      * rewrite bool_decide_false by congruence. lia.
    + intros p [Hin | Hin]%elem_of_app; [by apply (wf_held _ _ _ Hwf) |].
      apply list_elem_of_singleton in Hin as [= ->]. by exists q.
Qed.

Lemma good_step s s' : step s s' -> good s -> good s'.
Proof.
  destruct 1 as [l ps rows | l l' ps name p st E | l l' ps name st E | l ps i p Hi | l ps i p Hi].
  - intros (names & En & Hwf). unfold good, refresh_limits. cbn in *. rewrite En. cbn [default from_option id].
    destruct (ensure_counters _ _) as [names' heap'] eqn:E. eexists. split; [done |]. cbn.
    eapply wf_filter, wf_ensures; [exact Hwf | exact E].
  - intros Hg. exact (good_acquire _ _ _ _ _ _ Hg E).
  - intros Hg. pose proof (good_acquire _ _ _ _ _ _ Hg E) as Hg'. cbn in Hg'. by rewrite app_nil_r in Hg'.
  - intros (names & En & Hwf). cbn in *. exists names. pose proof (list_elem_of_lookup_2 _ _ _ Hi) as Hin.
    destruct (wf_held _ _ _ Hwf p Hin) as (q & Eq & Hn). destruct (wf_allocated _ _ _ Hwf _ _ Hn) as [c Hq].
    unfold release_permit. rewrite Eq. cbn. split; [done |]. unfold stats. rewrite Hq. cbn.
    apply (wf_update _ _ ps q c); try done.
    + intros q'. rewrite (countZ_insert _ _ _ _ _ Hi). unfold holds at 2 3. cbn. case_decide as Ed.
      * subst. rewrite bool_decide_true by done. unfold Release. cbn. lia.
      * rewrite bool_decide_false by congruence. lia.
    + intros p' Hin'. apply list_elem_of_lookup in Hin' as [j Hj]. apply list_lookup_insert_Some in Hj as [(_ & [=] & _) | [_ Hj]].
      apply (wf_held _ _ _ Hwf). by eapply list_elem_of_lookup_2.
  - done.
Qed.

Lemma good_reachable s : rtc step (mkSys no_limits []) s -> good s.
Proof.
  intros Hs. assert (good (mkSys no_limits [])) as H0.
  { exists ∅. split; [done |]. split; try done. intros p Hin. by apply not_elem_of_nil in Hin. }
  remember (mkSys no_limits []) as s0 eqn:E. clear E. induction Hs; [done |]. eauto using good_step.
Qed.

Lemma good_count s name :
  good s -> dcy_InFlight (deploymentConcurrency name (limits s)) = countZ (holds_name name) (permits s).
Proof.
  intros (names & En & Hwf). unfold deploymentConcurrency. rewrite En. cbn.
  assert (forall p b, (p, b) ∈ permits s -> b = false ->
    exists q, dp_counter p = Some q /\ names !! dp_name p = Some q) as Hheld.
  { intros p b Hin ->. by apply (wf_held _ _ _ Hwf). }
  destruct (names !! name) as [q|] eqn:E; cbn.
  - destruct (wf_allocated _ _ _ Hwf _ _ E) as [c Hq]. unfold stats. rewrite Hq. cbn.
    rewrite (wf_counted _ _ _ Hwf _ _ Hq). apply countZ_ext. intros [p [|]] Hin; [done |].
    destruct (Hheld p false Hin eq_refl) as (q' & Eq & Hn). unfold holds, holds_name. cbn. rewrite Eq.
    apply bool_decide_ext. split; [intros [= ->]; by eapply wf_distinct | congruence].
  - symmetry. apply countZ_none. intros [p [|]] Hin; [done |].
    destruct (Hheld p false Hin eq_refl) as (q' & Eq & Hn). unfold holds_name. cbn.
    apply bool_decide_eq_false. congruence.
Qed.

(** A configuration refresh never forgets running work: under any order of
    refreshes (deployments added, removed, added again, limits changed),
    acquisitions and releases, the in-flight figure of a deployment is exactly
    the number of its permits that are still held, and an acquisition that
    succeeds keeps it within the deployment's current limit. *)
Theorem refresh_never_forgets_work (s : sys) (name : string)
    (Hs : rtc step (mkSys no_limits []) s) :
  dcy_InFlight (deploymentConcurrency name (limits s)) = countZ (holds_name name) (permits s) /\
  forall l' p st, TryAcquireDeployment name (limits s) = (l', Some p, st) ->
    0 < dcy_Limit st -> dcy_InFlight st = countZ (holds_name name) (permits s) + 1 /\ dcy_InFlight st <= dcy_Limit st.
Proof.
  pose proof (good_count s name (good_reachable s Hs)) as Hn. split; [done |].
  destruct (good_reachable s Hs) as (names & En & _). intros l' p st.
  unfold TryAcquireDeployment, deploymentConcurrency in *. rewrite En in *. cbn [default from_option id] in *.
  destruct (names !! name) as [q|]; [| done]. cbn in Hn. unfold TryAcquire.
  destruct ((0 <? limit (stats _ q)) && (limit (stats _ q) <=? inFlight (stats _ q))) eqn:E;
    intros [= <- <- <-]; cbn. lia.
Qed.

(** Remove a deployment while a permit is out, add it again, and try to take a
    second permit of its single place. *)
Lemma refresh_never_forgets_work_witness :
  exists s, rtc step (mkSys no_limits []) s /\
    dcy_InFlight (deploymentConcurrency "d" (limits s)) = countZ (holds_name "d") (permits s) /\
    countZ (holds_name "d") (permits s) = 1.
Proof.
  pose (l1 := refresh_limits {["d" := 1]} no_limits).
  pose (l2 := (TryAcquireDeployment "d" l1).1.1).
  pose (l3 := refresh_limits {["d" := 1]} (refresh_limits ∅ l2)).
  exists (mkSys l3 [(mkDeploymentPermit "d" (Some 0%nat), false)]).
  assert (rtc step (mkSys no_limits []) (mkSys l3 [(mkDeploymentPermit "d" (Some 0%nat), false)])) as Hr.
  { eapply rtc_l; [apply (step_refresh _ _ {["d" := 1]}) |].
    eapply rtc_l; [eapply (step_acquire _ l2 _ "d"); vm_compute; reflexivity |].
    eapply rtc_l; [apply (step_refresh _ _ ∅) |].
    eapply rtc_l; [apply (step_refresh _ _ {["d" := 1]}) |]. apply rtc_refl. }
  split; [exact Hr |]. split; [| vm_compute; reflexivity].
  apply (refresh_never_forgets_work _ "d" Hr).
Defined.
