(* ===== verification/Router.v ===== *)
(** * The model router ([internal/router/router.go])

    The registry maps an alias to deployments and picks one per request:
    priority bands first, then health, capability, tag and region filters,
    then cost or weighted round robin. It is a record of finite maps; an
    operation under the registry's lock is one function on it.

    The process environment ([getenv]) is a parameter. An adapter is represented by its type and its
    declared capabilities. *)

From S2P Require Import Prelude GoStrings Streaming Limits Models Providers Breaker.

(** ** Rows *)

Record DeploymentCapabilities := mkDeploymentCapabilities {
  dc_Responses : option bool;
  dc_Chat : bool;
  dc_StreamChat : bool;
  dc_Embeddings : bool;
  dc_Moderation : bool;
  dc_Rerank : bool;
  dc_Images : bool;
  dc_AudioTranscribe : bool;
  dc_AudioSpeech : bool;
  dc_MessagesPassthrough : bool;
}.

(** The columns routing reads. *)
Record Deployment := mkDeployment {
  dep_ID : Z;
  dep_Name : string;
  dep_ProviderType : string;
  dep_UpstreamModel : string;
  dep_CredentialRef : string;
  dep_BaseURL : option string;
  dep_Region : option string;
  dep_Enabled : bool;
  dep_Weight : Z;
  dep_MaxParallelRequests : option Z;
  dep_Tags : list string;
  dep_Capabilities : option DeploymentCapabilities;
  dep_Streaming : option StreamingConfig;
}.

(** A decoded JSON value, as far as strategy options look at it. *)
Inductive any := AString (s : string) | AList (l : list any) | AOther.

Record AliasTarget := mkAliasTargetRow { at_Deployment : string; at_Priority : Z; at_Weight : Z }.

Record AliasWithDeployments := mkAliasRow {
  al_Alias : string;
  al_Deployments : list string;
  al_Targets : list AliasTarget;
  al_CacheEnabled : bool;
  al_CacheTTLSeconds : Z;
  al_Strategy : string;
  al_StrategyOptions : gmap string any;
}.

Record PricingRow := mkPricingRow {
  pr_ProviderType : string;
  pr_UpstreamModel : string;
  pr_InputPerMillionCents : Z;
}.

(** An adapter: its type and its declaration. *)
Record Provider := mkProvider { pv_Type : string; pv_Capabilities : Capabilities }.

(** ** The registry *)

Record aliasTarget := mkAliasTarget { DeploymentName : string; Priority : Z; Weight : Z }.

Record AliasMeta := mkAliasMeta {
  am_CacheEnabled : bool;
  am_CacheTTLSeconds : Z;
  am_Strategy : string;
  am_StrategyOptions : gmap string any;
}.

Definition zero_meta : AliasMeta := mkAliasMeta false 0 "" ∅.

Record ResolveContext := mkResolveContext { rc_Tags : list string; rc_Region : string }.

Record Resolved := mkResolved {
  rv_Identity : string;
  rv_DeploymentName : string;
  rv_ProviderType : string;
  rv_Provider : option Provider;
  rv_UpstreamModel : string;
  rv_Priority : Z;
  rv_Weight : Z;
  rv_BaseURL : string;
  rv_APIKey : string;
}.

Inductive resolve_error := ErrUnknownAlias | ErrNoHealthyDeployment | NilDereference.

Record Registry (B : Type) := mkRegistry {
  rg_aliases : gmap string (list aliasTarget);
  rg_aliasMeta : gmap string AliasMeta;
  rg_deployments : gmap string Deployment;
  rg_identities : gmap string string;
  rg_providers : gmap string Provider;
  rg_pricing : gmap (string * string) Z;
  rg_rr : gmap string Z;
  rg_breakers : breakers;
  rg_deploymentLimits : Limits;
  rg_breakerStore : option B;
}.
Arguments mkRegistry {B}.
Arguments rg_aliases {B}.
Arguments rg_aliasMeta {B}.
Arguments rg_deployments {B}.
Arguments rg_identities {B}.
Arguments rg_providers {B}.
Arguments rg_pricing {B}.
Arguments rg_rr {B}.
Arguments rg_breakers {B}.
Arguments rg_deploymentLimits {B}.
Arguments rg_breakerStore {B}.

Definition set_breakers {B} (bs : breakers) (r : Registry B) : Registry B :=
  mkRegistry (rg_aliases r) (rg_aliasMeta r) (rg_deployments r) (rg_identities r) (rg_providers r)
    (rg_pricing r) (rg_rr r) bs (rg_deploymentLimits r) (rg_breakerStore r).

Definition set_rr {B} (rr : gmap string Z) (r : Registry B) : Registry B :=
  mkRegistry (rg_aliases r) (rg_aliasMeta r) (rg_deployments r) (rg_identities r) (rg_providers r)
    (rg_pricing r) rr (rg_breakers r) (rg_deploymentLimits r) (rg_breakerStore r).

(** ** Strategies *)

(** The strings of [compose]. *)
Fixpoint any_strings (l : list any) : list string :=
  match l with
  | [] => []
  | AString s :: rest => s :: any_strings rest
  | _ :: rest => any_strings rest
  end.

Definition strategyChain (meta : AliasMeta) : list string :=
  let plain :=
    if negb (am_Strategy meta =? "")%string && negb (am_Strategy meta =? "priority")%string
    then [am_Strategy meta] else [] in
  match am_StrategyOptions meta !! "compose" with
  | Some (AList compose) => match any_strings compose with [] => plain | out => out end
  | _ => plain
  end.

Fixpoint hasStrategy (chain : list string) (name : string) : bool :=
  match chain with
  | [] => false
  | s :: rest => if (s =? name)%string then true else hasStrategy rest name
  end.

Definition stringOption (opts : gmap string any) (key fallback : string) : string :=
  match opts !! key with
  | Some (AString v) => if negb (v =? "")%string then v else fallback
  | _ => fallback
  end.

(** [tagFilter]: [depTags] is the set of the deployment's tags. *)
Definition tagFilter (dep : Deployment) (requestTags : list string) (mode : string) : bool :=
  if bool_decide (requestTags = []) then true
  else if (mode =? "all")%string then forallb (fun t => bool_decide (t ∈ dep_Tags dep)) requestTags
  else existsb (fun t => bool_decide (t ∈ dep_Tags dep)) requestTags.

Definition effectiveCapabilities (d : option Deployment) (p : Provider) : Capabilities :=
  match d with
  | Some d =>
      match dep_Capabilities d with
      | Some c =>
          let responses := cap_Responses (pv_Capabilities p) && dc_Chat c in
          let responses := match dc_Responses c with Some b => b | None => responses end in
          mkCapabilities (dc_Chat c) (dc_StreamChat c) (dc_Embeddings c) responses
      | None => pv_Capabilities p
      end
  | None => pv_Capabilities p
  end.

(** ** Costs *)

Definition unknown_cost : Z := 2 ^ 62.

Definition candidateCost (t : aliasTarget) (deps : gmap string Deployment)
    (pricing : gmap (string * string) Z) : Z :=
  match deps !! DeploymentName t with
  | None => unknown_cost
  | Some dep => default unknown_cost (pricing !! (dep_ProviderType dep, dep_UpstreamModel dep))
  end.

(** [sort.SliceStable] by cost: insertion after the elements that are not more
    expensive. *)
Fixpoint insert_by_cost (cost : aliasTarget -> Z) (t : aliasTarget) (l : list aliasTarget) :
    list aliasTarget :=
  match l with
  | [] => [t]
  | u :: rest => if cost t <? cost u then t :: l else u :: insert_by_cost cost t rest
  end.

Fixpoint sort_by_cost (cost : aliasTarget -> Z) (sorted l : list aliasTarget) : list aliasTarget :=
  match l with
  | [] => sorted
  | t :: rest => sort_by_cost cost (insert_by_cost cost t sorted) rest
  end.

Definition sortCandidatesByCost (candidates : list aliasTarget) (deps : gmap string Deployment)
    (pricing : gmap (string * string) Z) : list aliasTarget :=
  sort_by_cost (fun t => candidateCost t deps pricing) [] candidates.

(** ** Priorities *)

(** The distinct priorities in order of first occurrence. *)
Fixpoint distinct_priorities (seen : list Z) (targets : list aliasTarget) : list Z :=
  match targets with
  | [] => []
  | t :: rest =>
      if bool_decide (Priority t ∈ seen) then distinct_priorities seen rest
      else Priority t :: distinct_priorities (Priority t :: seen) rest
  end.

Definition orderedPriorities (targets : list aliasTarget) : list Z :=
  merge_sort Z.le (distinct_priorities [] targets).

(** ** Resolution *)

Section resolution.
Context {B : Type} `{BreakerStore B}.
(** [os.Getenv] *)
Variable getenv : string -> string.
Implicit Types (r : Registry B).

(** The loop of [candidatesForPriorityLocked]. *)
Fixpoint candidates_loop (r : Registry B) (priority : Z) (tried : gset string) (healthyOnly : bool)
    (now : Z) (capability : Capability) (meta : AliasMeta) (rc : ResolveContext)
    (targets : list aliasTarget) (bs : breakers) : breakers * list aliasTarget :=
  match targets with
  | [] => (bs, [])
  | target :: rest =>
      let next bs := candidates_loop r priority tried healthyOnly now capability meta rc rest bs in
      if negb (Priority target =? priority) then next bs
      else if bool_decide (DeploymentName target ∈ tried) then next bs
      else
        match rg_deployments r !! DeploymentName target, rg_providers r !! DeploymentName target with
        | Some dep, Some prov =>
            if negb (dep_Enabled dep) then next bs
            else if negb (bool_decide (capability = CapabilityNone)) &&
                    negb (Supports (effectiveCapabilities (Some dep) prov) capability) then next bs
            else
              let '(bs, open) :=
                if healthyOnly then isOpenLocked now (DeploymentName target) bs (rg_breakerStore r)
                else (bs, false) in
              if open then next bs
              else if hasStrategy (strategyChain meta) "tagged" &&
                      negb (tagFilter dep (rc_Tags rc)
                              (stringOption (am_StrategyOptions meta) "tag_match" "any"))
              then next bs
              else if hasStrategy (strategyChain meta) "region" && negb (rc_Region rc =? "")%string &&
                      negb (bool_decide (dep_Region dep = Some (rc_Region rc))) &&
                      (stringOption (am_StrategyOptions meta) "region_fallback" "any" =? "block")%string
              then next bs
              else let '(bs, out) := next bs in (bs, target :: out)
        | _, _ => next bs
        end
  end.

Definition candidatesForPriorityLocked (r : Registry B) (targets : list aliasTarget) (priority : Z)
    (tried : gset string) (healthyOnly : bool) (now : Z) (capability : Capability)
    (meta : AliasMeta) (rc : ResolveContext) : Registry B * list aliasTarget :=
  let '(bs, out) :=
    candidates_loop r priority tried healthyOnly now capability meta rc targets (rg_breakers r) in
  (set_breakers bs r, out).

Definition resolvedLocked (r : Registry B) (chosen : aliasTarget) : result resolve_error Resolved :=
  match rg_deployments r !! DeploymentName chosen with
  | Some dep =>
      Ok (mkResolved (default "" (rg_identities r !! dep_Name dep)) (DeploymentName chosen)
            (dep_ProviderType dep) (rg_providers r !! DeploymentName chosen) (dep_UpstreamModel dep) (Priority chosen) (Weight chosen)
            (default "" (dep_BaseURL dep))
            (if negb (dep_CredentialRef dep =? "")%string then getenv (dep_CredentialRef dep) else ""))
  | None => Err NilDereference
  end.

(** [if weight <= 0 { weight = 1 }] *)
Definition weight_of (t : aliasTarget) : Z := if Weight t <=? 0 then 1 else Weight t.

Fixpoint total_weight (total : Z) (candidates : list aliasTarget) : Z :=
  match candidates with
  | [] => total
  | c :: rest => total_weight (total +w weight_of c) rest
  end.

(** The last loop of [pickLocked]. *)
Fixpoint pick_offset (idx offset : Z) (first : aliasTarget) (candidates : list aliasTarget) :
    aliasTarget :=
  match candidates with
  | [] => first
  | c :: rest =>
      let offset := offset +w weight_of c in
      if idx <? offset then c else pick_offset idx offset first rest
  end.

(** [fmt.Sprintf("%s|%d", alias, priority)] *)
Definition rr_key (alias : string) (priority : Z) : string := alias +:+ "|" +:+ pretty priority.

(** [pickLocked]; an empty candidate list would be an index panic. *)
Definition pickLocked (r : Registry B) (alias : string) (priority : Z) (candidates : list aliasTarget)
    (meta : AliasMeta) : Registry B * result resolve_error Resolved :=
  match candidates with
  | [] => (r, Err NilDereference)
  | first :: _ =>
      if hasStrategy (strategyChain meta) "cost" && (1 <? Z.of_nat (length candidates))
      then
        match sortCandidatesByCost candidates (rg_deployments r) (rg_pricing r) with
        | chosen :: _ => (r, resolvedLocked r chosen)
        | [] => (r, Err NilDereference)
        end
      else
        let key := rr_key alias priority in
        let total := total_weight 0 candidates in
        let n := default 0 (rg_rr r !! key) in
        let '(r, idx) :=
          if 0 <? total then (set_rr (<[key := n +w 1]> (rg_rr r)) r, n %g total) else (r, 0) in
        (r, resolvedLocked r (pick_offset idx 0 first candidates))
  end.

(** One pass over the priorities. *)
Fixpoint resolve_pass (alias : string) (targets : list aliasTarget) (tried : gset string)
    (healthyOnly : bool) (now : Z) (capability : Capability) (meta : AliasMeta)
    (rc : ResolveContext) (priorities : list Z) (r : Registry B) :
    Registry B * option (result resolve_error Resolved) :=
  match priorities with
  | [] => (r, None)
  | priority :: rest =>
      let '(r, candidates) :=
        candidatesForPriorityLocked r targets priority tried healthyOnly now capability meta rc in
      match candidates with
      | [] => resolve_pass alias targets tried healthyOnly now capability meta rc rest r
      | _ => let '(r, res) := pickLocked r alias priority candidates meta in (r, Some res)
      end
  end.

Definition ResolveWithContext (now : Z) (alias : string) (tried : gset string)
    (capability : Capability) (rc : ResolveContext) (r : Registry B) :
    Registry B * result resolve_error Resolved :=
  match rg_aliases r !! alias with
  | None | Some [] => (r, Err ErrUnknownAlias)
  | Some targets =>
      let meta := default zero_meta (rg_aliasMeta r !! alias) in
      let priorities := orderedPriorities targets in
      let '(r, res) := resolve_pass alias targets tried true now capability meta rc priorities r in
      match res with
      | Some res => (r, res)
      | None =>
          let '(r, res) := resolve_pass alias targets tried false now capability meta rc priorities r in
          match res with
          | Some res => (r, res)
          | None => (r, Err ErrNoHealthyDeployment)
          end
      end
  end.

Definition ResolveNextFor (now : Z) (alias : string) (tried : gset string) (capability : Capability)
    (r : Registry B) : Registry B * result resolve_error Resolved :=
  ResolveWithContext now alias tried capability (mkResolveContext [] "") r.

(** The loop of [TargetsFor]. *)
Fixpoint targets_loop (r : Registry B) (capability : Capability) (targets : list aliasTarget) :
    list Resolved :=
  match targets with
  | [] => []
  | target :: rest =>
      match rg_deployments r !! DeploymentName target, rg_providers r !! DeploymentName target with
      | Some dep, Some prov =>
          if negb (dep_Enabled dep) then targets_loop r capability rest
          else if negb (bool_decide (capability = CapabilityNone)) &&
                  negb (Supports (effectiveCapabilities (Some dep) prov) capability)
          then targets_loop r capability rest
          else
            mkResolved (default "" (rg_identities r !! dep_Name dep)) (DeploymentName target)
              (dep_ProviderType dep) (Some prov) (dep_UpstreamModel dep) (Priority target) (Weight target) "" ""
            :: targets_loop r capability rest
      | _, _ => targets_loop r capability rest
      end
  end.

Definition TargetsFor (alias : string) (capability : Capability) (r : Registry B) :
    result resolve_error (list Resolved) :=
  match rg_aliases r !! alias with
  | None | Some [] => Err ErrUnknownAlias
  | Some targets =>
      match targets_loop r capability targets with
      | [] => Err ErrNoHealthyDeployment
      | out => Ok out
      end
  end.
End resolution.

(** ** What a resolution promises *)

Section resolution_facts.
Context {B : Type} `{BreakerStore B}.
Variable getenv : string -> string.
Implicit Types (r : Registry B).

(** The breaker of a deployment is open, here or in the shared store. *)
Definition open_at (now : Z) (name : string) (bs : breakers) (store : option B) : bool :=
  (isOpenLocked now name bs store).2.

(** The target passes every filter that does not depend on health. *)
Definition usable r (tried : gset string) (capability : Capability) (meta : AliasMeta)
    (rc : ResolveContext) (t : aliasTarget) : bool :=
  negb (bool_decide (DeploymentName t ∈ tried)) &&
  match rg_deployments r !! DeploymentName t, rg_providers r !! DeploymentName t with
  | Some dep, Some prov =>
      dep_Enabled dep &&
      (bool_decide (capability = CapabilityNone) ||
       Supports (effectiveCapabilities (Some dep) prov) capability) &&
      (negb (hasStrategy (strategyChain meta) "tagged") ||
       tagFilter dep (rc_Tags rc) (stringOption (am_StrategyOptions meta) "tag_match" "any")) &&
      (negb (hasStrategy (strategyChain meta) "region") || (rc_Region rc =? "")%string ||
       bool_decide (dep_Region dep = Some (rc_Region rc)) ||
       negb (stringOption (am_StrategyOptions meta) "region_fallback" "any" =? "block")%string)
  | _, _ => false
  end.

(** Reading the breaker never changes what any breaker says at that time. *)
Lemma isOpenLocked_stable now name bs store name' :
  open_at now name' (isOpenLocked now name bs store).1 store = open_at now name' bs store.
Proof.
  unfold isOpenLocked at 1. destruct (locally_open now (bs !! name)) eqn:El; [done |].
  destruct store as [s|]; [| done]. destruct (bs_IsOpen now name s) as [u|] eqn:Eo; [| done].
  destruct (negb (IsZero u) && After u now) eqn:Eu; [| done]. cbn [fst].
  unfold open_at, isOpenLocked. destruct (decide (name = name')) as [<-|Hn].
  - rewrite lookup_insert_eq, El, Eo, Eu. cbn [locally_open bk_OpenUntil]. by rewrite Eu.
  - rewrite lookup_insert_ne by done. destruct (locally_open now (bs !! name')); [done |].
    destruct (bs_IsOpen now name' s); [| done]. by case_match.
Qed.

(** The candidates of one band, as a filter of the targets. *)
Definition candidate r (priority : Z) tried (healthyOnly : bool) now capability meta rc (t : aliasTarget) : bool :=
  (Priority t =? priority) && usable r tried capability meta rc t &&
  negb (healthyOnly && open_at now (DeploymentName t) (rg_breakers r) (rg_breakerStore r)).

(** The breaker test of the loop: its answer does not depend on what the loop
    has read so far. *)
Lemma loop_open r (healthyOnly : bool) now name bs :
  (forall n, open_at now n bs (rg_breakerStore r) = open_at now n (rg_breakers r) (rg_breakerStore r)) ->
  exists bs1,
    (if healthyOnly then isOpenLocked now name bs (rg_breakerStore r) else (bs, false)) =
    (bs1, healthyOnly && open_at now name (rg_breakers r) (rg_breakerStore r)) /\
    forall n, open_at now n bs1 (rg_breakerStore r) = open_at now n (rg_breakers r) (rg_breakerStore r).
Proof.
  intros Hbs. destruct healthyOnly; [| eauto].
  exists (isOpenLocked now name bs (rg_breakerStore r)).1. split.
  - rewrite <- Hbs. unfold open_at. by destruct (isOpenLocked _ _ _ _).
  - intros n. by rewrite isOpenLocked_stable.
Qed.

Lemma candidates_loop_spec r priority tried healthyOnly now capability meta rc targets bs :
  (forall n, open_at now n bs (rg_breakerStore r) = open_at now n (rg_breakers r) (rg_breakerStore r)) ->
  let '(bs', out) := candidates_loop r priority tried healthyOnly now capability meta rc targets bs in
  (forall n, open_at now n bs' (rg_breakerStore r) = open_at now n (rg_breakers r) (rg_breakerStore r)) /\
  out = List.filter (candidate r priority tried healthyOnly now capability meta rc) targets.
Proof.
  revert bs. induction targets as [| t targets IH]; intros bs Hbs; cbn [candidates_loop List.filter]; [done |].
  unfold candidate at 1, usable.
  destruct (Priority t =? priority); cbn [negb andb]; [| by apply IH].
  case_bool_decide; cbn [negb andb]; [by apply IH |].
  destruct (rg_deployments r !! DeploymentName t) as [dep|]; [| by apply IH].
  destruct (rg_providers r !! DeploymentName t) as [prov|]; [| by apply IH].
  destruct (dep_Enabled dep); cbn [negb andb]; [| by apply IH].
  destruct (bool_decide (capability = CapabilityNone)),
    (Supports (effectiveCapabilities (Some dep) prov) capability); cbn [negb andb orb];
    try (by apply IH).
  all: destruct (loop_open r healthyOnly now (DeploymentName t) bs Hbs) as (bs1 & -> & Hbs1);
    destruct (healthyOnly && open_at now (DeploymentName t) _ _); cbn [negb];
    [rewrite andb_false_r; by apply IH |]; rewrite andb_true_r.
  all: destruct (hasStrategy (strategyChain meta) "tagged"), (tagFilter dep _ _); cbn [negb andb orb];
    try (by apply IH).
  all: destruct (hasStrategy (strategyChain meta) "region"), (rc_Region rc =? "")%string,
    (bool_decide (dep_Region dep = _)), (stringOption _ "region_fallback" "any" =? "block")%string;
    cbn [negb andb orb]; try (by apply IH).
  all: specialize (IH _ Hbs1); destruct (candidates_loop _ _ _ _ _ _ _ _ _ bs1) as [bs2 out];
    destruct IH as [? ->]; done.
Qed.

(** Two registries route alike at [now]: same configuration and breakers that
    say the same. The round-robin counters may differ. *)
Definition same_routing (now : Z) r r' : Prop :=
  rg_aliases r' = rg_aliases r /\ rg_aliasMeta r' = rg_aliasMeta r /\
  rg_deployments r' = rg_deployments r /\ rg_identities r' = rg_identities r /\
  rg_providers r' = rg_providers r /\ rg_pricing r' = rg_pricing r /\
  rg_deploymentLimits r' = rg_deploymentLimits r /\ rg_breakerStore r' = rg_breakerStore r /\
  forall n, open_at now n (rg_breakers r') (rg_breakerStore r) =
            open_at now n (rg_breakers r) (rg_breakerStore r).

Lemma same_routing_refl now r : same_routing now r r.
Proof. by repeat split. Qed.

Lemma same_routing_trans now r1 r2 r3 :
  same_routing now r1 r2 -> same_routing now r2 r3 -> same_routing now r1 r3.
Proof.
  intros (? & ? & ? & ? & ? & ? & ? & E & Ho) (? & ? & ? & ? & ? & ? & ? & ? & Ho').
  rewrite E in Ho'. repeat split; try congruence; intros n; by rewrite Ho', Ho.
Qed.

Lemma candidate_ext now r r' priority tried healthyOnly capability meta rc t :
  same_routing now r r' ->
  candidate r' priority tried healthyOnly now capability meta rc t =
  candidate r priority tried healthyOnly now capability meta rc t.
Proof.
  intros (_ & _ & Ed & _ & Ep & _ & _ & Es & Ho). unfold candidate, usable.
  by rewrite Ed, Ep, Es, Ho.
Qed.

Lemma filter_ext_bool {A} (f g : A -> bool) l : (forall x, f x = g x) -> List.filter f l = List.filter g l.
Proof. intros Hfg. induction l as [| x l IH]; simpl; [done |]. by rewrite Hfg, IH. Qed.

Lemma elem_of_filter_bool {A} (f : A -> bool) l x : x ∈ List.filter f l <-> f x = true /\ x ∈ l.
Proof. rewrite !list_elem_of_In, List.filter_In. tauto. Qed.

Lemma candidatesForPriorityLocked_spec now r targets priority tried healthyOnly capability meta rc :
  let '(r', out) :=
    candidatesForPriorityLocked r targets priority tried healthyOnly now capability meta rc in
  same_routing now r r' /\
  out = List.filter (candidate r priority tried healthyOnly now capability meta rc) targets.
Proof.
  unfold candidatesForPriorityLocked.
  pose proof (candidates_loop_spec r priority tried healthyOnly now capability meta rc targets
    (rg_breakers r) ltac:(done)) as Hs.
  destruct (candidates_loop _ _ _ _ _ _ _ _ _ _) as [bs out]. destruct Hs as [Hb ->].
  split; [| done]. by repeat split.
Qed.

Lemma pick_offset_elem idx off first l : pick_offset idx off first l ∈ first :: l.
Proof.
  revert off. induction l as [| c l IH]; intros off; cbn [pick_offset]; [constructor |].
  case_match; [set_solver |]. specialize (IH (off +w weight_of c)). set_solver.
Qed.

Lemma insert_by_cost_perm cost t l : insert_by_cost cost t l ≡ₚ t :: l.
Proof.
  induction l as [| u l IH]; cbn [insert_by_cost]; [done |]. case_match; [done |].
  rewrite IH. apply Permutation_swap.
Qed.

Lemma sort_by_cost_perm cost sorted l : sort_by_cost cost sorted l ≡ₚ sorted ++ l.
Proof.
  revert sorted. induction l as [| t l IH]; intros sorted; cbn [sort_by_cost]; [by rewrite app_nil_r |].
  rewrite IH, insert_by_cost_perm. apply Permutation_middle.
Qed.

Lemma pickLocked_spec now r alias priority candidates meta :
  candidates <> [] ->
  exists r' t, t ∈ candidates /\ same_routing now r r' /\
    pickLocked getenv r alias priority candidates meta = (r', resolvedLocked getenv r t).
Proof.
  intros Hne. unfold pickLocked. destruct candidates as [| first l]; [done |].
  destruct (hasStrategy _ "cost" && _).
  - unfold sortCandidatesByCost.
    set (cost := fun t => candidateCost t (rg_deployments r) (rg_pricing r)).
    pose proof (sort_by_cost_perm cost [] (first :: l)) as Hp.
    destruct (sort_by_cost cost [] (first :: l)) as [| chosen rest].
    { apply Permutation_nil_l in Hp. done. }
    exists r, chosen. split_and!; [| apply same_routing_refl | done].
    rewrite <- Hp. constructor.
  - destruct (0 <? total_weight 0 (first :: l)).
    + eexists _, _. split_and!; [| | reflexivity]; [| by repeat split].
      pose proof (pick_offset_elem (default 0 (rg_rr r !! rr_key alias priority) %g
        total_weight 0 (first :: l)) 0 first (first :: l)). set_solver.
    + eexists _, _. split_and!; [| apply same_routing_refl | reflexivity].
      pose proof (pick_offset_elem 0 0 first (first :: l)). set_solver.
Qed.

(** One pass: the first band with a candidate decides. *)
Lemma resolve_pass_spec now alias targets tried healthyOnly capability meta rc priorities r :
  let cands p := List.filter (candidate r p tried healthyOnly now capability meta rc) targets in
  exists r', same_routing now r r' /\
  match resolve_pass getenv alias targets tried healthyOnly now capability meta rc priorities r with
  | (r'', None) => r'' = r' /\ forall p, p ∈ priorities -> cands p = []
  | (r'', Some res) =>
      r'' = r' /\ exists before p after t, priorities = before ++ p :: after /\
        (forall q, q ∈ before -> cands q = []) /\ t ∈ cands p /\ res = resolvedLocked getenv r t
  end.
Proof.
  revert r. induction priorities as [| p ps IH]; intros r cands; cbn [resolve_pass].
  { exists r. split; [apply same_routing_refl |]. split; [done |]. by intros p ?%not_elem_of_nil. }
  pose proof (candidatesForPriorityLocked_spec now r targets p tried healthyOnly capability meta rc) as Hc.
  destruct (candidatesForPriorityLocked _ _ _ _ _ _ _ _ _) as [r1 out]. destruct Hc as [Hs1 Hout].
  destruct out as [| c out].
  - destruct (IH r1) as (r' & Hs' & Hm). exists r'. split; [by eapply same_routing_trans |].
    assert (forall q, List.filter (candidate r1 q tried healthyOnly now capability meta rc) targets = cands q)
      as Hq. { intros q. apply filter_ext_bool. intros t. by apply candidate_ext. }
    destruct (resolve_pass _ _ _ _ _ _ _ _ _ _ r1) as [r'' [res|]].
    + destruct Hm as (-> & before & q & after & t & -> & Hb & Ht & ->). split; [done |].
      exists (p :: before), q, after, t. split_and!; [done | | by rewrite <- Hq |].
      * intros q' [-> | Hin]%elem_of_cons; [done | rewrite <- Hq; auto].
      * unfold resolvedLocked. destruct Hs1 as (_ & _ & -> & -> & -> & _). done.
    + destruct Hm as (-> & Hall). split; [done |]. intros q [-> | Hin]%elem_of_cons; [done |].
      rewrite <- Hq. auto.
  - destruct (pickLocked_spec now r1 alias p (c :: out) meta ltac:(done)) as (r2 & t & Ht & Hs2 & ->).
    exists r2. split; [by eapply same_routing_trans |]. split; [done |].
    exists [], p, ps, t. split_and!; [done | by intros q ?%not_elem_of_nil | unfold cands; by rewrite <- Hout |].
    unfold resolvedLocked. destruct Hs1 as (_ & _ & -> & -> & -> & _). done.
Qed.

(** ** Priorities are complete and ordered *)

Lemma distinct_priorities_elem seen targets p :
  p ∈ distinct_priorities seen targets <-> (p ∉ seen) /\ exists t, t ∈ targets /\ Priority t = p.
Proof.
  revert seen. induction targets as [| t targets IH]; intros seen; cbn [distinct_priorities].
  { rewrite elem_of_nil. set_solver. }
  case_bool_decide as E.
  - rewrite IH. split; [set_solver |]. intros [Hp (u & [-> | Hu]%elem_of_cons & <-)]; [done | eauto].
  - rewrite elem_of_cons, IH, not_elem_of_cons. split.
    + intros [-> | [[? ?] (u & ? & <-)]]; [set_solver | set_solver].
    + intros [Hp (u & [-> | Hu]%elem_of_cons & <-)]; [by left |].
      destruct (decide (Priority u = Priority t)) as [-> |]; [by left | right; eauto].
Qed.

Lemma orderedPriorities_elem targets t : t ∈ targets -> Priority t ∈ orderedPriorities targets.
Proof.
  intros Ht. unfold orderedPriorities. rewrite merge_sort_Permutation.
  apply distinct_priorities_elem. split; [apply not_elem_of_nil | eauto].
Qed.

Lemma orderedPriorities_split targets before p after q :
  orderedPriorities targets = before ++ p :: after -> q ∈ after -> p <= q.
Proof.
  intros E Hq. assert (StronglySorted Z.le (before ++ p :: after)) as Hs.
  { rewrite <- E. apply (StronglySorted_merge_sort Z.le). }
  clear E. induction before as [| b before IH]; simpl in Hs; apply StronglySorted_inv in Hs as [Hs Hf].
  - by eapply Forall_forall in Hf.
  - auto.
Qed.

(** The resolved deployment is the target that was picked. *)
Lemma resolvedLocked_usable r tried capability meta rc t :
  usable r tried capability meta rc t = true ->
  exists v dep prov, resolvedLocked getenv r t = Ok v /\
    rg_deployments r !! DeploymentName t = Some dep /\ rg_providers r !! DeploymentName t = Some prov /\
    rv_DeploymentName v = DeploymentName t /\ rv_Priority v = Priority t /\
    rv_Provider v = Some prov /\ rv_ProviderType v = dep_ProviderType dep /\
    rv_UpstreamModel v = dep_UpstreamModel dep.
Proof.
  unfold usable, resolvedLocked. intros [_ Hu]%andb_true_iff.
  destruct (rg_deployments r !! DeploymentName t) as [dep|]; [| done].
  destruct (rg_providers r !! DeploymentName t) as [prov|]; [| done].
  by eexists _, dep, prov.
Qed.

(** A candidate of a band and a band without candidates, read back. *)
Lemma elem_of_cands r now p tried healthyOnly capability meta rc targets t :
  t ∈ List.filter (candidate r p tried healthyOnly now capability meta rc) targets <->
  t ∈ targets /\ Priority t = p /\ usable r tried capability meta rc t = true /\
  (healthyOnly = true -> open_at now (DeploymentName t) (rg_breakers r) (rg_breakerStore r) = false).
Proof.
  rewrite elem_of_filter_bool. unfold candidate.
  destruct (Z.eqb_spec (Priority t) p), (usable r tried capability meta rc t), healthyOnly,
    (open_at _ _ _ _); simpl; intuition congruence.
Qed.

Lemma no_cands r now p tried healthyOnly capability meta rc targets t :
  List.filter (candidate r p tried healthyOnly now capability meta rc) targets = [] ->
  t ∈ targets -> Priority t = p -> usable r tried capability meta rc t = true ->
  (healthyOnly = true -> open_at now (DeploymentName t) (rg_breakers r) (rg_breakerStore r) = false) ->
  False.
Proof.
  intros E Ht Hp Hu Ho. apply (not_elem_of_nil t). rewrite <- E. by apply elem_of_cands.
Qed.

(** What a pass says of the usable targets. *)
Lemma pass_result r now targets tried healthyOnly capability meta rc before p after t :
  orderedPriorities targets = before ++ p :: after ->
  (forall q, q ∈ before ->
     List.filter (candidate r q tried healthyOnly now capability meta rc) targets = []) ->
  t ∈ List.filter (candidate r p tried healthyOnly now capability meta rc) targets ->
  forall u, u ∈ targets -> usable r tried capability meta rc u = true ->
  (healthyOnly = true -> open_at now (DeploymentName u) (rg_breakers r) (rg_breakerStore r) = false) ->
  Priority t <= Priority u.
Proof.
  intros E Hb Ht u Hu Hus Ho. apply elem_of_cands in Ht as (_ & -> & _).
  pose proof (orderedPriorities_elem targets u Hu) as Hin. rewrite E in Hin.
  apply elem_of_app in Hin as [Hin | [-> | Hin]%elem_of_cons].
  - exfalso. eapply (no_cands r now); [exact (Hb _ Hin) | done..].
  - lia.
  - by eapply orderedPriorities_split.
Qed.

Lemma resolve_spec (now : Z) (alias : string) (tried : gset string) (capability : Capability)
    (rc : ResolveContext) (r : Registry B) :
  let meta := default zero_meta (rg_aliasMeta r !! alias) in
  let ok := usable r tried capability meta rc in
  let is_open t := open_at now (DeploymentName t) (rg_breakers r) (rg_breakerStore r) in
  match (ResolveWithContext getenv now alias tried capability rc r).2 with
  | Ok v => exists targets t, rg_aliases r !! alias = Some targets /\ t ∈ targets /\
      rv_DeploymentName v = DeploymentName t /\ rv_Priority v = Priority t /\ ok t = true /\
      ((is_open t = false /\
        forall u, u ∈ targets -> ok u = true -> is_open u = false -> Priority t <= Priority u) \/
       ((forall u, u ∈ targets -> ok u = true -> is_open u = true) /\
        forall u, u ∈ targets -> ok u = true -> Priority t <= Priority u))
  | Err ErrUnknownAlias => rg_aliases r !! alias = None \/ rg_aliases r !! alias = Some []
  | Err ErrNoHealthyDeployment => exists targets, rg_aliases r !! alias = Some targets /\
      forall u, u ∈ targets -> ok u = false
  | Err NilDereference => False
  end.
Proof.
  intros meta ok is_open. unfold ResolveWithContext.
  destruct (rg_aliases r !! alias) as [[| t0 ts]|] eqn:Ea; [by right | | by left].
  set (targets := t0 :: ts) in *.
  destruct (resolve_pass_spec now alias targets tried true capability meta rc
    (orderedPriorities targets) r) as (r1 & Hs1 & Hp1). fold meta.
  destruct (resolve_pass getenv alias targets tried true now capability meta rc _ r) as [r1' [res|]].
  - destruct Hp1 as (-> & before & p & after & t & E & Hb & Ht & ->). cbn [snd].
    pose proof (pass_result r now targets tried true capability meta rc _ _ _ t E Hb Ht) as Hmin.
    apply elem_of_cands in Ht as (Hin & _ & Hu & Ho).
    destruct (resolvedLocked_usable r tried capability meta rc t Hu) as (v & dep & prov & -> & _ & _ & Hn & Hpr & _).
    exists targets, t. split_and!; try done. left. split; [by apply Ho | auto].
  - destruct Hp1 as (-> & Hnone).
    destruct (resolve_pass_spec now alias targets tried false capability meta rc
      (orderedPriorities targets) r1) as (r2 & Hs2 & Hp2).
    assert (forall p healthyOnly, List.filter (candidate r1 p tried healthyOnly now capability meta rc) targets =
              List.filter (candidate r p tried healthyOnly now capability meta rc) targets) as Hext.
    { intros. apply filter_ext_bool. intros. by apply candidate_ext. }
    assert (forall u, u ∈ targets -> ok u = true -> is_open u = true) as Hopen.
    { intros u Hu Hok. destruct (is_open u) eqn:Eo; [done |]. exfalso.
      eapply (no_cands r now); [exact (Hnone _ (orderedPriorities_elem _ _ Hu)) | done..]. }
    destruct (resolve_pass getenv alias targets tried false now capability meta rc _ r1) as [r2' [res|]].
    + destruct Hp2 as (-> & before & p & after & t & E & Hb & Ht & ->). cbn [snd].
      rewrite Hext in Ht.
      pose proof (pass_result r now targets tried false capability meta rc _ _ _ t E) as Hmin.
      specialize (Hmin ltac:(intros q Hq; rewrite <- Hext; auto) Ht).
      apply elem_of_cands in Ht as (Hin & _ & Hu & _).
      destruct (resolvedLocked_usable r tried capability meta rc t Hu) as (v & dep & prov & Hv & _ & _ & Hn & Hpr & _).
      assert (resolvedLocked getenv r1 t = Ok v) as ->.
      { rewrite <- Hv. unfold resolvedLocked. by destruct Hs1 as (_ & _ & -> & -> & -> & _). }
      exists targets, t. split_and!; try done. right. split; [done |]. intros u Hu' Hok. by apply Hmin.
    + destruct Hp2 as (-> & Hnone2). cbn [snd]. exists targets. split; [done |].
      intros u Hu. destruct (ok u) eqn:Eok; [| done]. exfalso.
      specialize (Hnone2 _ (orderedPriorities_elem _ _ Hu)). rewrite Hext in Hnone2.
      by eapply (no_cands r now).
Qed.

(** Resolving changes no configuration. *)
Lemma resolve_routing now alias tried capability rc r :
  same_routing now r (ResolveWithContext getenv now alias tried capability rc r).1.
Proof.
  unfold ResolveWithContext. destruct (rg_aliases r !! alias) as [[| t0 ts]|]; try apply same_routing_refl.
  set (targets := t0 :: ts). set (meta := default _ _).
  destruct (resolve_pass_spec now alias targets tried true capability meta rc (orderedPriorities targets) r)
    as (r1 & Hs1 & Hp1).
  destruct (resolve_pass getenv alias targets tried true now capability meta rc _ r) as [r1' [res|]].
  - destruct Hp1 as [-> _]. done.
  - destruct Hp1 as [-> _].
    destruct (resolve_pass_spec now alias targets tried false capability meta rc (orderedPriorities targets) r1)
      as (r2 & Hs2 & Hp2).
    destruct (resolve_pass getenv alias targets tried false now capability meta rc _ r1) as [r2' [res|]];
      destruct Hp2 as [-> _]; by eapply same_routing_trans.
Qed.

(** C25. Resolution is correct on every branch. A deployment that is returned
    is a target of the alias that was not tried, exists with a client, is
    enabled, supports the capability and passes the tag and region filters;
    it is healthy and in the lowest priority band that has a healthy usable
    target, or no usable target is healthy and it is in the lowest usable
    band. "No healthy deployment" means that no target is usable at all, and
    "unknown alias" that the alias has no targets. *)
Theorem resolve_correct (now : Z) (alias : string) (tried : gset string) (capability : Capability)
    (rc : ResolveContext) (r : Registry B) :
  let meta := default zero_meta (rg_aliasMeta r !! alias) in
  let ok := usable r tried capability meta rc in
  let is_open t := open_at now (DeploymentName t) (rg_breakers r) (rg_breakerStore r) in
  match (ResolveWithContext getenv now alias tried capability rc r).2 with
  | Ok v => exists targets t, rg_aliases r !! alias = Some targets /\ t ∈ targets /\
      rv_DeploymentName v = DeploymentName t /\ rv_Priority v = Priority t /\ ok t = true /\
      ((is_open t = false /\
        forall u, u ∈ targets -> ok u = true -> is_open u = false -> Priority t <= Priority u) \/
       ((forall u, u ∈ targets -> ok u = true -> is_open u = true) /\
        forall u, u ∈ targets -> ok u = true -> Priority t <= Priority u))
  | Err ErrUnknownAlias => rg_aliases r !! alias = None \/ rg_aliases r !! alias = Some []
  | Err ErrNoHealthyDeployment => exists targets, rg_aliases r !! alias = Some targets /\
      forall u, u ∈ targets -> ok u = false
  | Err NilDereference => False
  end.
Proof. apply resolve_spec. Qed.

(** The target behind a resolution. *)
Lemma resolve_usable now alias tried capability rc r r' v :
  ResolveWithContext getenv now alias tried capability rc r = (r', Ok v) ->
  same_routing now r r' /\
  exists targets t, rg_aliases r !! alias = Some targets /\ t ∈ targets /\
    usable r tried capability (default zero_meta (rg_aliasMeta r !! alias)) rc t = true /\
    resolvedLocked getenv r t = Ok v.
Proof.
  unfold ResolveWithContext. set (meta := default zero_meta _).
  destruct (rg_aliases r !! alias) as [[| t0 ts]|] eqn:Ea; [done | | done].
  set (targets := t0 :: ts) in *.
  destruct (resolve_pass_spec now alias targets tried true capability meta rc
    (orderedPriorities targets) r) as (r1 & Hs1 & Hp1).
  destruct (resolve_pass getenv alias targets tried true now capability meta rc _ r) as [r1' [res|]].
  { destruct Hp1 as (-> & before & p & after & t & E & Hb & Ht & ->). intros [= <- Hv].
    split; [done |]. exists targets, t. apply elem_of_cands in Ht as (? & _ & ? & _). done. }
  destruct Hp1 as (-> & _).
  destruct (resolve_pass_spec now alias targets tried false capability meta rc
    (orderedPriorities targets) r1) as (r2 & Hs2 & Hp2).
  destruct (resolve_pass getenv alias targets tried false now capability meta rc _ r1) as [r2' [res|]];
    [| by destruct Hp2 as (-> & _)].
  destruct Hp2 as (-> & before & p & after & t & E & Hb & Ht & ->). intros [= <- Hv].
  split; [by eapply same_routing_trans |]. exists targets, t.
  apply elem_of_cands in Ht as (? & _ & Hu & _). split_and!; try done.
  - rewrite <- Hu. unfold usable. by destruct Hs1 as (_ & _ & -> & _ & -> & _).
  - rewrite <- Hv. unfold resolvedLocked. by destruct Hs1 as (_ & _ & -> & -> & -> & _).
Qed.

Lemma targets_loop_elem r capability targets t dep prov :
  t ∈ targets -> rg_deployments r !! DeploymentName t = Some dep ->
  rg_providers r !! DeploymentName t = Some prov -> dep_Enabled dep = true ->
  (bool_decide (capability = CapabilityNone) ||
   Supports (effectiveCapabilities (Some dep) prov) capability) = true ->
  exists w, w ∈ targets_loop r capability targets /\ rv_DeploymentName w = DeploymentName t /\
    rv_ProviderType w = dep_ProviderType dep /\ rv_UpstreamModel w = dep_UpstreamModel dep.
Proof.
  intros Ht Hd Hp He Hc. induction targets as [| u targets IH]; [by apply not_elem_of_nil in Ht |].
  apply elem_of_cons in Ht as [<- | Ht]; cbn [targets_loop].
  - rewrite Hd, Hp, He, <- negb_orb, Hc. cbn [negb]. eexists. split; [by apply elem_of_cons; left | done].
  - destruct (IH Ht) as (w & Hw & Hrest). exists w. split; [| done].
    repeat case_match; try done. apply elem_of_cons. by right.
Qed.

(** The capability whose targets cover a request: streaming chat is budgeted
    as chat. *)
Definition covers (budgeted requested : Capability) : Prop :=
  budgeted = requested \/ (budgeted = CapabilityChat /\ requested = CapabilityStreamChat).

(** Whatever the router resolves was budgeted for: the deployment, provider
    type and upstream model of any resolution, fallbacks included, are among
    the targets that admission enumerates to reserve the worst case, also
    when a streaming request is budgeted with the chat targets. *)
Theorem resolved_is_budgeted (now : Z) (alias : string) (tried : gset string)
    (requested budgeted : Capability) (rc : ResolveContext) (r r' : Registry B) (v : Resolved)
    (Hres : ResolveWithContext getenv now alias tried requested rc r = (r', Ok v))
    (Hcov : covers budgeted requested) :
  exists l w, TargetsFor alias budgeted r = Ok l /\ w ∈ l /\
    rv_DeploymentName w = rv_DeploymentName v /\ rv_ProviderType w = rv_ProviderType v /\
    rv_UpstreamModel w = rv_UpstreamModel v.
Proof.
  destruct (resolve_usable _ _ _ _ _ _ _ _ Hres) as (_ & targets & t & Ea & Ht & Hu & Hv).
  destruct (resolvedLocked_usable _ _ _ _ _ _ Hu) as (v' & dep & prov & Hv' & Hd & Hp & Hn & _ & _ & Hty & Hm).
  rewrite Hv in Hv'. injection Hv' as <-.
  unfold usable in Hu. rewrite Hd, Hp in Hu.
  apply andb_true_iff in Hu as [_ [[[He Hc]%andb_true_iff _]%andb_true_iff _]%andb_true_iff].
  destruct (targets_loop_elem r budgeted targets t dep prov Ht Hd Hp He) as (w & Hw & Hwn & Hwt & Hwm).
  { destruct Hcov as [-> | [-> ->]]; [done |]. cbn in *. by apply andb_true_iff in Hc as [-> _]. }
  unfold TargetsFor. rewrite Ea. destruct targets as [| t0 ts]; [by apply not_elem_of_nil in Ht |].
  destruct (targets_loop r budgeted (t0 :: ts)) as [| w0 l] eqn:El; [by apply not_elem_of_nil in Hw |].
  exists (w0 :: l), w. split_and!; try done; congruence.
Qed.
End resolution_facts.

(** ** Weighted round robin *)

Section round_robin.
Context {B : Type} `{BreakerStore B}.
Variable getenv : string -> string.
Implicit Types (r : Registry B) (l : list aliasTarget).

Definition weights l : Z := sumZ (map weight_of l).

Lemma weight_of_pos t : 1 <= weight_of t.
Proof. unfold weight_of. destruct (Z.leb_spec (Weight t) 0); lia. Qed.

Lemma weights_nonneg l : 0 <= weights l.
Proof.
  unfold weights. induction l as [| t l IH]; simpl; [lia |]. pose proof (weight_of_pos t). lia.
Qed.

Lemma total_weight_sum acc l :
  0 <= acc -> acc + weights l <= MaxInt64 -> total_weight acc l = acc + weights l.
Proof.
  revert acc. induction l as [| t l IH]; intros acc Ha Hm; cbn [total_weight]; [unfold weights; simpl; lia |].
  change (weights (t :: l)) with (weight_of t + weights l) in *.
  pose proof (weight_of_pos t). pose proof (weights_nonneg l).
  rewrite wrap64_id by int64_lia. rewrite IH by lia. lia.
Qed.

(** Over one period of offsets each candidate is picked as often as it weighs. *)
Lemma count_pick (g : aliasTarget -> bool) first l off :
  0 <= off -> off + weights l <= MaxInt64 ->
  countZ (fun idx => g (pick_offset idx off first l)) (seqZ off (weights l)) =
  sumZ (map (fun c => if g c then weight_of c else 0) l).
Proof.
  revert off. induction l as [| c l IH]; intros off Ho Hm; [done |].
  change (weights (c :: l)) with (weight_of c + weights l) in *.
  pose proof (weight_of_pos c). pose proof (weights_nonneg l).
  rewrite seqZ_app by lia. rewrite countZ_app. cbn [map]. change (sumZ (?a :: ?b)) with (a + sumZ b).
  rewrite <- (IH (off + weight_of c)) by lia. f_equal.
  - rewrite (countZ_ext _ (fun _ => g c)).
    + rewrite countZ_const, length_seqZ. destruct (g c); lia.
    + intros x Hx%elem_of_seqZ. cbn [pick_offset]. rewrite wrap64_id by int64_lia.
      by destruct (Z.ltb_spec x (off + weight_of c)); [| lia].
  - apply countZ_ext. intros x Hx%elem_of_seqZ. cbn [pick_offset]. rewrite wrap64_id by int64_lia.
    by destruct (Z.ltb_spec x (off + weight_of c)); [lia |].
Qed.

(** Successive picks from the same candidates. *)
Fixpoint pick_many (k : nat) (alias : string) (priority : Z) l (meta : AliasMeta) r :
    list (result resolve_error Resolved) :=
  match k with
  | O => []
  | S k =>
      let '(r, res) := pickLocked getenv r alias priority l meta in
      res :: pick_many k alias priority l meta r
  end.

Lemma pick_many_spec k alias priority first l meta r n :
  hasStrategy (strategyChain meta) "cost" = false -> weights (first :: l) <= MaxInt64 ->
  default 0 (rg_rr r !! rr_key alias priority) = n -> 0 <= n -> n + Z.of_nat k <= MaxInt64 ->
  pick_many k alias priority (first :: l) meta r =
  map (fun i => resolvedLocked getenv r
         (pick_offset ((n + i) mod weights (first :: l)) 0 first (first :: l))) (seqZ 0 (Z.of_nat k)).
Proof.
  intros Hc Hw. revert n r. induction k as [| k IH]; intros n r Hn H0 Hk; [done |].
  cbn [pick_many]. unfold pickLocked. rewrite Hc, total_weight_sum by lia. cbn [andb].
  pose proof (weight_of_pos first). pose proof (weights_nonneg l).
  assert (weights (first :: l) = weight_of first + weights l) as Hwl by done.
  destruct (Z.ltb_spec 0 (0 + weights (first :: l))); [| lia].
  rewrite Z.add_0_l, Hn, wrap64_id by int64_lia.
  rewrite (IH (n + 1)); [| cbn; by rewrite lookup_insert_eq | lia | lia].
  rewrite Nat2Z.inj_succ, (seqZ_cons 0 (Z.succ (Z.of_nat k))) by lia. cbn [map]. f_equal.
  - rewrite Z.add_0_r, Z.rem_mod_nonneg by lia. done.
  - replace (Z.pred (Z.succ (Z.of_nat k))) with (Z.of_nat k) by lia.
    change (Z.succ 0) with (1 + 0). rewrite <- fmap_add_seqZ.
    change (Z.add 1 <$> seqZ 0 (Z.of_nat k)) with (map (Z.add 1) (seqZ 0 (Z.of_nat k))).
    rewrite map_map. apply map_ext. intros i. do 2 f_equal. f_equal. lia.
Qed.

Definition picked (name : string) (res : result resolve_error Resolved) : bool :=
  match res with Ok v => (rv_DeploymentName v =? name)%string | Err _ => false end.

Lemma sum_one l c :
  NoDup (map DeploymentName l) -> c ∈ l ->
  sumZ (map (fun t => if (DeploymentName t =? DeploymentName c)%string then weight_of t else 0) l) = weight_of c.
Proof.
  assert (forall k l, k ∉ map DeploymentName l ->
    sumZ (map (fun t => if (DeploymentName t =? k)%string then weight_of t else 0) l) = 0) as Hz.
  { intros k. induction l0 as [| t l0 IH]; [done |]. cbn [map]. rewrite not_elem_of_cons. intros [? ?].
    change (sumZ (?a :: ?b)) with (a + sumZ b). rewrite IH by done.
    destruct (String.eqb_spec (DeploymentName t) k); [congruence | lia]. }
  induction l as [| t l IH]; [by intros _ ?%not_elem_of_nil |]. cbn [map].
  intros [Hni Hnd]%NoDup_cons [-> | Hc]%elem_of_cons; change (sumZ (?a :: ?b)) with (a + sumZ b).
  - rewrite Hz, String.eqb_refl by done. lia.
  - rewrite IH by done. destruct (String.eqb_spec (DeploymentName t) (DeploymentName c)) as [E|]; [| lia].
    exfalso. apply Hni. rewrite E. by apply list_elem_of_fmap_2.
Qed.

(** Weighted round robin is fair: with the candidates of a band
    unchanged, over one period of as many picks as their weights add up to,
    from any counter value, each deployment is picked exactly as often as its
    weight says (a weight that is not positive counts as one). *)
Theorem round_robin_fair (alias : string) (priority : Z) (l : list aliasTarget) (meta : AliasMeta)
    (r : Registry B) (c : aliasTarget)
    (Hcost : hasStrategy (strategyChain meta) "cost" = false)
    (Hw : weights l <= MaxInt64)
    (Hnd : NoDup (map DeploymentName l)) (Hc : c ∈ l)
    (Hdep : Forall (fun t => is_Some (rg_deployments r !! DeploymentName t)) l)
    (Hrr : 0 <= default 0 (rg_rr r !! rr_key alias priority) <= MaxInt64 - weights l) :
  countZ (picked (DeploymentName c))
    (pick_many (Z.to_nat (weights l)) alias priority l meta r) = weight_of c.
Proof.
  destruct l as [| first l]; [by apply not_elem_of_nil in Hc |].
  pose proof (weight_of_pos first). pose proof (weights_nonneg l).
  assert (weights (first :: l) = weight_of first + weights l) as Hwl by done.
  rewrite (pick_many_spec _ _ _ _ _ _ _ _ Hcost Hw eq_refl) by lia.
  rewrite countZ_map, Z2Nat.id by lia.
  set (W := weights (first :: l)) in *. set (n := default 0 _) in *.
  set (g := fun t => (DeploymentName t =? DeploymentName c)%string).
  rewrite (countZ_ext _ (fun i => g (pick_offset ((n + i) mod W) 0 first (first :: l)))).
  - rewrite (countZ_rotate (fun i => g (pick_offset i 0 first (first :: l)))) by lia.
    unfold W. rewrite count_pick by lia. by apply sum_one.
  - intros i _. set (t := pick_offset _ _ _ _).
    assert (t ∈ first :: l) as Ht.
    { pose proof (pick_offset_elem ((n + i) mod W) 0 first (first :: l)). subst t. set_solver. }
    eapply Forall_forall in Hdep as [dep Hd]; [| exact Ht]. unfold resolvedLocked. by rewrite Hd.
Qed.

(** ** Cost ordering *)

(** The first of the cheapest candidates. *)
Fixpoint first_min (cost : aliasTarget -> Z) (h : aliasTarget) l : aliasTarget :=
  match l with
  | [] => h
  | t :: rest => first_min cost (if cost t <? cost h then t else h) rest
  end.

Lemma sort_by_cost_head cost h s l : exists s', sort_by_cost cost (h :: s) l = first_min cost h l :: s'.
Proof.
  revert h s. induction l as [| t l IH]; intros h s; cbn [sort_by_cost first_min]; [eauto |].
  cbn [insert_by_cost]. destruct (cost t <? cost h); apply IH.
Qed.

Lemma first_min_spec cost h l :
  exists before after, h :: l = before ++ first_min cost h l :: after /\
    Forall (fun u => cost (first_min cost h l) < cost u) before /\
    Forall (fun u => cost (first_min cost h l) <= cost u) after.
Proof.
  revert h. induction l as [| t l IH]; intros h; cbn [first_min]; [by exists [], [] |].
  destruct (Z.ltb_spec (cost t) (cost h)).
  - destruct (IH t) as (b & a & E & Hb & Ha). exists (h :: b), a. split_and!; [by rewrite E | | done].
    constructor; [| done]. destruct b as [| t' b]; simpl in E; injection E as Et _; subst; [congruence |].
    apply Forall_cons in Hb as [? _]. lia.
  - destruct (IH h) as (b & a & E & Hb & Ha). destruct b as [| h' b]; simpl in E.
    + injection E as Eh El. exists [], (t :: l). split_and!; [simpl; congruence | done |].
      rewrite <- Eh in *. constructor; [lia | by rewrite El].
    + injection E as <- El. exists (h :: t :: b), a. split_and!; [simpl; congruence | | done].
      apply Forall_cons in Hb as [? ?]. constructor; [done |]. constructor; [lia | done].
Qed.

(** The cost strategy picks a cheapest candidate, the earliest one among
    equals, and never one without a pricing row while a priced one is
    cheaper than the unknown cost. *)
Theorem cost_picks_cheapest (alias : string) (priority : Z) (l : list aliasTarget) (meta : AliasMeta)
    (r r' : Registry B) (v : Resolved)
    (Hcost : hasStrategy (strategyChain meta) "cost" = true) (Hlen : (1 < length l)%nat)
    (Hpick : pickLocked getenv r alias priority l meta = (r', Ok v)) :
  let cost t := candidateCost t (rg_deployments r) (rg_pricing r) in
  r' = r /\ exists before c after, l = before ++ c :: after /\
    rv_DeploymentName v = DeploymentName c /\
    Forall (fun u => cost c < cost u) before /\ Forall (fun u => cost c <= cost u) after.
Proof.
  intros cost. unfold pickLocked in Hpick. destruct l as [| first l]; [done |].
  rewrite Hcost in Hpick. replace (1 <? Z.of_nat (length (first :: l))) with true in Hpick by lia.
  cbn [andb] in Hpick. unfold sortCandidatesByCost in Hpick. cbn [sort_by_cost insert_by_cost] in Hpick.
  fold cost in Hpick. destruct (sort_by_cost_head cost first [] l) as [s' Es]. rewrite Es in Hpick.
  injection Hpick as <- Hv. split; [done |].
  destruct (first_min_spec cost first l) as (b & a & E & Hb & Ha).
  exists b, (first_min cost first l), a. split_and!; try done.
  unfold resolvedLocked in Hv. case_match; [| done]. by injection Hv as <-.
Qed.
End round_robin.
