(* ===== verification/Registry.v ===== *)
(** * Loading and watching the registry

    The rest of [internal/router]: building adapters from rows, [Refresh],
    the concurrency policy snapshot ([concurrency.go]) and [Health].

    The database is read through rows, each load either returning rows or an
    error. Parameters: the environment, the digest behind a routing identity,
    and whether the SDK client of a cloud provider can be built. *)

From S2P Require Import Prelude GoStrings Streaming Limits Concurrency Models Providers Breaker Router.

(** ** Adapters *)

(** The declared capabilities of each adapter. *)
Definition full_caps : Capabilities := mkCapabilities true true true true.
Definition common_caps : Capabilities := mkCapabilities true true true false.
Definition chat_caps : Capabilities := mkCapabilities true true false false.

(** The adapter a provider type selects. *)
Definition adapter (providerType : string) : option Provider :=
  if (providerType =? "openai")%string then Some (mkProvider "openai" full_caps)
  else if (providerType =? "azure_openai")%string then Some (mkProvider "azure_openai" common_caps)
  else if bool_decide (providerType ∈ ["openai_compatible"; "ollama"; "vllm"])
       then Some (mkProvider "openai_compatible" full_caps)
  else if (providerType =? "anthropic")%string then Some (mkProvider "anthropic" chat_caps)
  else if (providerType =? "mistral")%string then Some (mkProvider "mistral" common_caps)
  else if (providerType =? "groq")%string then Some (mkProvider "groq" chat_caps)
  else if (providerType =? "together")%string then Some (mkProvider "together" common_caps)
  else if (providerType =? "fireworks")%string then Some (mkProvider "fireworks" common_caps)
  else if (providerType =? "openrouter")%string then Some (mkProvider "openrouter" chat_caps)
  else if (providerType =? "cohere")%string then Some (mkProvider "cohere" common_caps)
  else if (providerType =? "bedrock")%string then Some (mkProvider "bedrock" common_caps)
  else if (providerType =? "vertex")%string then Some (mkProvider "vertex" common_caps)
  else if (providerType =? "gemini")%string then Some (mkProvider "gemini" common_caps)
  else None.

Definition DefaultCapabilities (providerType : string) : Capabilities :=
  match adapter providerType with
  | Some p => pv_Capabilities p
  | None => mkCapabilities false false false false
  end.

Inductive load_error := LoadPolicies | LoadDeployments | LoadAliases.

(** ** The policy snapshot ([concurrency.go]) *)

Definition ConcurrencyPolicyMaxAge : Z := 15 * Second.

Record RoutingConcurrencyLimit := mkRoutingConcurrencyLimit {
  rl_ID : Z;
  rl_Scope : string;
  rl_Subject : string;
  rl_MaxParallelRequests : option Z;
}.

Record concurrencyPolicies := mkConcurrencyPolicies {
  cp_byScope : gmap string (gmap string RoutingConcurrencyLimit);
  cp_loadedAt : Z;
}.

Definition no_policies : concurrencyPolicies := mkConcurrencyPolicies ∅ 0.

(** The loop over the rows; a later row of the same subject wins. *)
Fixpoint index_policies (rows : list RoutingConcurrencyLimit)
    (byScope : gmap string (gmap string RoutingConcurrencyLimit)) :
    gmap string (gmap string RoutingConcurrencyLimit) :=
  match rows with
  | [] => byScope
  | row :: rest =>
      match rl_MaxParallelRequests row with
      | None => index_policies rest byScope
      | Some _ =>
          index_policies rest
            (<[rl_Scope row := <[rl_Subject row := row]> (default ∅ (byScope !! rl_Scope row))]> byScope)
      end
  end.

Definition RefreshConcurrencyPolicies (now : Z)
    (rows customers : result string (list RoutingConcurrencyLimit)) (p : concurrencyPolicies) :
    concurrencyPolicies * result string unit :=
  match rows with
  | Err e => (p, Err e)
  | Ok rows =>
      match customers with
      | Err e => (p, Err e)
      | Ok customers => (mkConcurrencyPolicies (index_policies (rows ++ customers) ∅) now, Ok tt)
      end
  end.

(** [ConcurrencyScope]; [has_store] is [r.store != nil]. *)
Definition ConcurrencyScope (has_store : bool) (now : Z) (kind subject : string)
    (p : concurrencyPolicies) : result string (list Scope) :=
  if has_store && (IsZero (cp_loadedAt p) || (ConcurrencyPolicyMaxAge <? Sub now (cp_loadedAt p)))
  then Err "concurrency policy snapshot is stale"
  else match default ∅ (cp_byScope p !! kind) !! subject with
  | None => Ok []
  | Some row => Ok [mkScope kind (rl_ID row) (deref (rl_MaxParallelRequests row))]
  end.

(** ** Refresh *)

Section refresh.
Context {B : Type} `{BreakerStore B}.
Variable getenv : string -> string.
(** [RoutingIdentity]: the digest of the row *)
Variable routingIdentity : Deployment -> string.
(** [bedrock.New] and [vertex.New] succeed for this row *)
Variable cloud_client : Deployment -> bool.
Implicit Types (r : Registry B).

Definition buildProvider (d : Deployment) : result string Provider :=
  if negb (dep_Enabled d) then Err "deployment disabled"
  else
    let apiKey := if negb (dep_CredentialRef d =? "")%string then getenv (dep_CredentialRef d) else "" in
    match adapter (dep_ProviderType d) with
    | None => Err "unsupported provider type"
    | Some p =>
        if bool_decide (dep_ProviderType d ∈ ["openai_compatible"; "ollama"; "vllm"]) then Ok p
        else if bool_decide (dep_ProviderType d ∈ ["bedrock"; "vertex"])
        then if cloud_client d then Ok p else Err "client init failed"
        else if (apiKey =? "")%string then Err "credential env empty" else Ok p
    end.

(** The loop over the deployment rows. *)
Fixpoint load_deployments (deps : list Deployment)
    (acc : gmap string Deployment * gmap string string * gmap string Provider) :
    gmap string Deployment * gmap string string * gmap string Provider :=
  match deps with
  | [] => acc
  | d :: rest =>
      let '(newDep, newIdentities, newProv) := acc in
      let newDep := <[dep_Name d := d]> newDep in
      let newIdentities := <[dep_Name d := routingIdentity d]> newIdentities in
      let newProv :=
        match buildProvider d with Ok p => <[dep_Name d := p]> newProv | Err _ => newProv end in
      load_deployments rest (newDep, newIdentities, newProv)
  end.

Definition alias_targets (a : AliasWithDeployments) : list aliasTarget :=
  if 0 <? Z.of_nat (length (al_Targets a))
  then map (fun t => mkAliasTarget (at_Deployment t) (at_Priority t) (at_Weight t)) (al_Targets a)
  else imap (fun i name => mkAliasTarget name (Z.of_nat i) 1) (al_Deployments a).

Fixpoint load_aliases (aliases : list AliasWithDeployments)
    (acc : gmap string (list aliasTarget) * gmap string AliasMeta) :
    gmap string (list aliasTarget) * gmap string AliasMeta :=
  match aliases with
  | [] => acc
  | a :: rest =>
      let '(newAliases, newMeta) := acc in
      load_aliases rest
        (<[al_Alias a := alias_targets a]> newAliases,
         <[al_Alias a := mkAliasMeta (al_CacheEnabled a) (al_CacheTTLSeconds a) (al_Strategy a)
                           (al_StrategyOptions a)]> newMeta)
  end.

Fixpoint load_pricing (rows : list PricingRow) (acc : gmap (string * string) Z) :
    gmap (string * string) Z :=
  match rows with
  | [] => acc
  | p :: rest =>
      load_pricing rest (<[(pr_ProviderType p, pr_UpstreamModel p) := pr_InputPerMillionCents p]> acc)
  end.

(** [Registry.Refresh] with the answers of its loads. *)
Definition Refresh (now : Z) (policies customers : result string (list RoutingConcurrencyLimit))
    (deps : result string (list Deployment)) (aliases : result string (list AliasWithDeployments))
    (pricing : result string (list PricingRow)) (cp : concurrencyPolicies) r :
    concurrencyPolicies * Registry B * result load_error unit :=
  let '(cp, loaded) := RefreshConcurrencyPolicies now policies customers cp in
  match loaded with
  | Err _ => (cp, r, Err LoadPolicies)
  | Ok _ =>
      match deps with
      | Err _ => (cp, r, Err LoadDeployments)
      | Ok deps =>
          match aliases with
          | Err _ => (cp, r, Err LoadAliases)
          | Ok aliases =>
              let '(newDep, newIdentities, newProv) := load_deployments deps (∅, ∅, ∅) in
              let '(newAliases, newMeta) := load_aliases aliases (∅, ∅) in
              let newPricing :=
                match pricing with Ok rows => load_pricing rows ∅ | Err _ => ∅ end in
              let rows := (fun d => row_limit (dep_MaxParallelRequests d)) <$> newDep in
              (cp,
               mkRegistry newAliases newMeta newDep newIdentities newProv newPricing (rg_rr r)
                 (rg_breakers r) (refresh_limits rows (rg_deploymentLimits r)) (rg_breakerStore r),
               Ok tt)
          end
      end
  end.

(** ** Health *)

Record DeploymentHealth := mkDeploymentHealth {
  dh_Name : string;
  dh_ProviderType : string;
  dh_Enabled : bool;
  dh_Ready : bool;
  dh_HasCredential : bool;
  dh_Circuit : string;
  dh_ConsecutiveFailures : Z;
  dh_OpenUntil : option Z;
  dh_LastError : string;
  dh_InFlight : Z;
  dh_MaxParallelRequests : Z;
}.

(** The entry of one deployment. *)
Definition deployment_health (now : Z) r (name : string) (dep : Deployment) : DeploymentHealth :=
  let state := rg_breakers r !! name in
  let ready := bool_decide (is_Some (rg_providers r !! name)) in
  let hasCredential :=
    (dep_CredentialRef dep =? "")%string || negb (getenv (dep_CredentialRef dep) =? "")%string in
  let stats := deploymentConcurrency name (rg_deploymentLimits r) in
  let open := locally_open now state in
  let circuit := if open then "open" else "closed" in
  let circuit := if negb ready && dep_Enabled dep then "unavailable" else circuit in
  mkDeploymentHealth name (dep_ProviderType dep) (dep_Enabled dep) ready hasCredential circuit
    (match state with Some st => bk_ConsecutiveFailures st | None => 0 end)
    (if open then option_map bk_OpenUntil state else None)
    (match state with Some st => bk_LastError st | None => "" end)
    (dcy_InFlight stats) (dcy_Limit stats).

(** Byte order of Go strings. *)
Definition string_le (a b : string) : Prop := String.leb a b = true.
#[local] Instance string_le_dec a b : Decision (string_le a b).
Proof. unfold string_le. apply _. Defined.

Definition Health (now : Z) r : list DeploymentHealth :=
  let names := merge_sort string_le (map_to_list (rg_deployments r)).*1 in
  omap (fun name => deployment_health now r name <$> rg_deployments r !! name) names.

Definition Aliases r : list string := merge_sort string_le (map_to_list (rg_aliases r)).*1.
End refresh.

(** ** The policy snapshot is exact and fails closed *)

(** The row that governs a subject: the last one that sets a limit. *)
Fixpoint governing (kind subject : string) (rows : list RoutingConcurrencyLimit) :
    option RoutingConcurrencyLimit :=
  match rows with
  | [] => None
  | row :: rest =>
      match governing kind subject rest with
      | Some row' => Some row'
      | None =>
          if (rl_Scope row =? kind)%string && (rl_Subject row =? subject)%string &&
             bool_decide (is_Some (rl_MaxParallelRequests row))
          then Some row else None
      end
  end.

Lemma index_policies_lookup rows m kind subject :
  default ∅ (index_policies rows m !! kind) !! subject =
  match governing kind subject rows with
  | Some row => Some row
  | None => default ∅ (m !! kind) !! subject
  end.
Proof.
  revert m. induction rows as [| row rows IH]; intros m; cbn [index_policies governing]; [done |].
  destruct (rl_MaxParallelRequests row) as [v|] eqn:E.
  - rewrite IH. destruct (governing kind subject rows); [done |].
    rewrite bool_decide_true by eauto. rewrite andb_true_r.
    destruct (String.eqb_spec (rl_Scope row) kind) as [->|Hs]; cbn [andb].
    + rewrite lookup_insert_eq. cbn [default from_option id].
      destruct (String.eqb_spec (rl_Subject row) subject) as [->|Hsub].
      * by rewrite lookup_insert_eq.
      * by rewrite lookup_insert_ne.
    + by rewrite lookup_insert_ne.
  - rewrite IH. destruct (governing kind subject rows); [done |].
    rewrite bool_decide_false by (intros [? ?]; congruence). by rewrite andb_false_r.
Qed.

(** Concurrency policies fail closed: after a load at [t], a lookup within
    15 seconds answers with the last row that sets a limit for that subject
    (none when there is none), every later lookup is refused as stale, and a
    failed load changes nothing. *)
Theorem policy_snapshot_exact (t now : Z) (rows customers : list RoutingConcurrencyLimit)
    (p : concurrencyPolicies) (kind subject : string) (Ht : 0 < t) (Hnow : t <= now) :
  let p' := (RefreshConcurrencyPolicies t (Ok rows) (Ok customers) p).1 in
  ConcurrencyScope true now kind subject p' =
    (if ConcurrencyPolicyMaxAge <? now - t then Err "concurrency policy snapshot is stale"
     else match governing kind subject (rows ++ customers) with
          | Some row => Ok [mkScope kind (rl_ID row) (deref (rl_MaxParallelRequests row))]
          | None => Ok []
          end) /\
  forall e, (RefreshConcurrencyPolicies now (Err e) (Ok customers) p').1 = p' /\
            (RefreshConcurrencyPolicies now (Ok rows) (Err e) p').1 = p'.
Proof.
  cbn [RefreshConcurrencyPolicies fst]. split; [| done]. unfold ConcurrencyScope. cbn [cp_loadedAt cp_byScope andb].
  unfold IsZero. destruct (Z.eqb_spec t 0); [lia |]. cbn [orb].
  assert ((ConcurrencyPolicyMaxAge <? Sub now t) = (ConcurrencyPolicyMaxAge <? now - t)) as ->.
  { unfold Sub, clamp64, MinInt64, MaxInt64, ConcurrencyPolicyMaxAge, Second.
    destruct (Z.ltb_spec (15 * 1000000000) (now - t)), (Z.ltb_spec (15 * 1000000000)
      (Z.max (-9223372036854775808) (Z.min 9223372036854775807 (now - t)))); lia. }
  destruct (_ <? _); [done |]. rewrite index_policies_lookup.
  destruct (governing kind subject (rows ++ customers)); [done |]. by rewrite lookup_empty.
Qed.

Definition witness_rows : list RoutingConcurrencyLimit :=
  [mkRoutingConcurrencyLimit 1 "model" "gpt" (Some 4); mkRoutingConcurrencyLimit 2 "model" "gpt" None].

Lemma policy_snapshot_exact_witness :
  ConcurrencyScope true (5 * Second) "model" "gpt"
    (RefreshConcurrencyPolicies Second (Ok witness_rows) (Ok []) no_policies).1
  = Ok [mkScope "model" 1 4].
Proof.
  refine (eq_trans (proj1 (policy_snapshot_exact Second (5 * Second) witness_rows [] no_policies
    "model" "gpt" ltac:(reflexivity) ltac:(discriminate))) _).
  vm_compute. reflexivity.
Defined.

(** ** A registry to evaluate *)

Definition example_deployments : list Deployment :=
  [mkDeployment 1 "east" "openai" "gpt-4o" "KEY" None (Some "us") true 1 (Some 8) ["fast"] None None;
   mkDeployment 2 "west" "openai" "gpt-4o" "KEY" None (Some "eu") true 1 None [] None None;
   mkDeployment 3 "backup" "anthropic" "claude" "KEY" None None true 1 None [] None None].

Definition example_aliases : list AliasWithDeployments :=
  [mkAliasRow "gpt" [] [mkAliasTargetRow "east" 0 3; mkAliasTargetRow "west" 0 1;
     mkAliasTargetRow "backup" 1 1] false 0 "" ∅;
   mkAliasRow "cheap" [] [mkAliasTargetRow "east" 0 1; mkAliasTargetRow "backup" 0 1] false 0 "cost" ∅].

Definition example_env (name : string) : string := if (name =? "KEY")%string then "secret" else "".

Definition empty_registry : Registry Empty_set :=
  mkRegistry ∅ ∅ ∅ ∅ ∅ ∅ ∅ ∅ no_limits None.

Definition example_registry : Registry Empty_set :=
  (Refresh example_env dep_Name (fun _ => true) Second (Ok []) (Ok []) (Ok example_deployments)
     (Ok example_aliases) (Ok [mkPricingRow "openai" "gpt-4o" 250; mkPricingRow "anthropic" "claude" 80])
     no_policies empty_registry).1.2.

Definition example_out : Registry Empty_set * result resolve_error Resolved :=
  ResolveWithContext example_env Second "gpt" {["east"]} CapabilityStreamChat (mkResolveContext [] "")
    example_registry.

Definition example_v : Resolved :=
  mkResolved "west" "west" "openai" (Some (mkProvider "openai" full_caps)) "gpt-4o" 0 1 "" "secret".

Lemma example_resolves : example_out = (example_out.1, Ok example_v).
Proof.
  assert (example_out.2 = Ok example_v) as E by (vm_compute; reflexivity).
  rewrite <- E. apply surjective_pairing.
Qed.

Lemma resolved_is_budgeted_witness :
  exists l w, TargetsFor "gpt" CapabilityChat example_registry = Ok l /\ w ∈ l /\
    rv_DeploymentName w = "west".
Proof.
  destruct (resolved_is_budgeted example_env Second "gpt" {["east"]} CapabilityStreamChat CapabilityChat
    (mkResolveContext [] "") example_registry _ _ example_resolves
    (or_intror (conj eq_refl eq_refl))) as (l & w & Hl & Hw & Hn & _).
  exists l, w. split; [exact Hl |]. split; [exact Hw | exact Hn].
Defined.

Definition example_band : list aliasTarget := [mkAliasTarget "east" 0 3; mkAliasTarget "west" 0 1].

Lemma round_robin_fair_witness :
  countZ (picked "east")
    (pick_many example_env (Z.to_nat (weights example_band)) "gpt" 0 example_band zero_meta
       example_registry) = 3.
Proof.
  apply (round_robin_fair example_env "gpt" 0 example_band zero_meta example_registry
    (mkAliasTarget "east" 0 3)).
  - reflexivity.
  - vm_compute. discriminate.
  - repeat constructor; rewrite ?not_elem_of_cons; repeat split; try discriminate; apply not_elem_of_nil.
  - left.
  - repeat constructor; vm_compute; eexists; reflexivity.
  - vm_compute. split; discriminate.
Defined.

Definition cheap_band : list aliasTarget := [mkAliasTarget "east" 0 1; mkAliasTarget "backup" 0 1].
Definition cheap_meta : AliasMeta := mkAliasMeta false 0 "cost" ∅.

Definition cheap_v : Resolved :=
  mkResolved "backup" "backup" "anthropic" (Some (mkProvider "anthropic" chat_caps)) "claude" 0 1 "" "secret".

Lemma cheap_picks :
  pickLocked example_env example_registry "cheap" 0 cheap_band cheap_meta = (example_registry, Ok cheap_v).
Proof.
  assert (resolvedLocked example_env example_registry (mkAliasTarget "backup" 0 1) = Ok cheap_v) as <-
    by (vm_compute; reflexivity).
  assert (sortCandidatesByCost cheap_band (rg_deployments example_registry) (rg_pricing example_registry) =
    [mkAliasTarget "backup" 0 1; mkAliasTarget "east" 0 1]) as E by (vm_compute; reflexivity).
  unfold pickLocked, cheap_band in *. cbn [length]. by rewrite E.
Qed.

Lemma cost_picks_cheapest_witness :
  exists before c after, cheap_band = before ++ c :: after /\ DeploymentName c = "backup".
Proof.
  destruct (cost_picks_cheapest example_env "cheap" 0 cheap_band cheap_meta example_registry
    example_registry cheap_v eq_refl ltac:(vm_compute; lia) cheap_picks)
    as (_ & b & c & a & E & Hn & _).
  exists b, c, a. split; [exact E | exact (eq_sym Hn)].
Defined.
