(* ===== verification/Calendar.v ===== *)
(** * The UTC calendar

    What the budget windows use of package [time]: the date of an instant and
    the first day of its month and of the next one, in the proleptic Gregorian
    calendar. Days are counted from January 1 of year 1, as [Prelude]'s
    instants are. *)

From S2P Require Import Prelude.

Definition Day : Z := 24 * Hour.

(** [(stamp AT TIME ZONE 'UTC')::date] *)
Definition day_of (t : Z) : Z := t / Day.

(** The position of a day in the 400-year cycle. *)
Record cycle := mkCycle {
  n400 : Z;  (** whole cycles *)
  n100 : Z;  (** whole centuries in the cycle *)
  n4 : Z;    (** whole four-year groups in the century *)
  n1 : Z;    (** whole years in the group *)
  yday : Z;  (** days since January 1 *)
}.

Definition cycle_of (d : Z) : cycle :=
  let r := d mod 146097 in
  let c := Z.min (r / 36524) 3 in
  let r := r - 36524 * c in
  let q := r / 1461 in
  let r := r mod 1461 in
  let y := Z.min (r / 365) 3 in
  mkCycle (d / 146097) c q y (r - 365 * y).

Definition year (c : cycle) : Z := 400 * n400 c + 100 * n100 c + 4 * n4 c + n1 c + 1.

Definition leap (c : cycle) : bool :=
  (n1 c =? 3) && (negb (n4 c =? 24) || (n100 c =? 3)).

Definition month_lengths (leap : bool) : list Z :=
  [31; if leap then 29 else 28; 31; 30; 31; 30; 31; 31; 30; 31; 30; 31].

(** The month that holds [yd], as the days from January 1 to its first day and
    to the first day of the next month. *)
Fixpoint month_span (lengths : list Z) (first yd : Z) : Z * Z :=
  match lengths with
  | [] => (first, first)
  | n :: rest => if yd <? first + n then (first, first + n) else month_span rest (first + n) yd
  end.

(** The first day of the month of [d] and of the next month. *)
Definition month_of (d : Z) : Z * Z :=
  let c := cycle_of d in
  let '(a, b) := month_span (month_lengths (leap c)) 0 (yday c) in
  (d - yday c + a, d - yday c + b).

(** ** Days of one year share its position *)

(** A position that occurs. *)
Definition valid (c : cycle) : Prop :=
  0 <= n100 c <= 3 /\ 0 <= n4 c <= 24 /\ 0 <= n1 c <= 3 /\
  0 <= yday c < (if leap c then 366 else 365).

Definition compose (c : cycle) : Z :=
  146097 * n400 c + 36524 * n100 c + 1461 * n4 c + 365 * n1 c + yday c.

Lemma leap_spec c :
  leap c = true <-> n1 c = 3 /\ (n4 c <> 24 \/ n100 c = 3).
Proof. unfold leap. destruct (Z.eqb_spec (n1 c) 3), (Z.eqb_spec (n4 c) 24), (Z.eqb_spec (n100 c) 3); simpl; intuition lia. Qed.

Lemma cycle_of_valid d : valid (cycle_of d) /\ compose (cycle_of d) = d.
Proof.
  unfold valid, compose. pose proof (leap_spec (cycle_of d)) as Hl.
  unfold cycle_of in *. cbn [n400 n100 n4 n1 yday] in *.
  pose proof (Z.div_mod d 146097 ltac:(lia)). pose proof (Z.mod_pos_bound d 146097 ltac:(lia)).
  set (r := d mod 146097) in *.
  pose proof (Z.div_mod r 36524 ltac:(lia)). pose proof (Z.mod_pos_bound r 36524 ltac:(lia)).
  set (c := Z.min (r / 36524) 3) in *. set (s := r - 36524 * c) in *.
  pose proof (Z.div_mod s 1461 ltac:(lia)). pose proof (Z.mod_pos_bound s 1461 ltac:(lia)).
  set (u := s mod 1461) in *.
  pose proof (Z.div_mod u 365 ltac:(lia)). pose proof (Z.mod_pos_bound u 365 ltac:(lia)).
  destruct (leap _).
  - destruct (proj1 Hl eq_refl) as [? ?]. lia.
  - destruct (decide (Z.min (u / 365) 3 = 3 /\ (s / 1461 <> 24 \/ c = 3))) as [Hd|Hd].
    { apply Hl in Hd. done. }
    lia.
Qed.

Lemma cycle_of_compose c : valid c -> cycle_of (compose c) = c.
Proof.
  destruct c as [a b e f g]. unfold valid, compose. cbn [n400 n100 n4 n1 yday]. intros (Hb & He & Hf & Hg).
  pose proof (leap_spec (mkCycle a b e f g)) as Hl. cbn [n400 n100 n4 n1 yday] in Hl.
  assert (0 <= g <= 365 /\ (g = 365 -> f = 3 /\ (e <> 24 \/ b = 3))) as [Hg0 Hg1].
  { destruct (leap _); [split; [lia | tauto] | split; lia]. }
  clear Hg Hl. unfold cycle_of.
  assert ((146097 * a + 36524 * b + 1461 * e + 365 * f + g) / 146097 = a /\
          (146097 * a + 36524 * b + 1461 * e + 365 * f + g) mod 146097 = 36524 * b + 1461 * e + 365 * f + g)
    as [-> ->].
  { split; [symmetry; apply Z.div_unique_pos with (36524 * b + 1461 * e + 365 * f + g); lia |
            symmetry; apply Z.mod_unique_pos with a; lia]. }
  assert (Z.min ((36524 * b + 1461 * e + 365 * f + g) / 36524) 3 = b) as ->.
  { pose proof (Z.div_mod (36524 * b + 1461 * e + 365 * f + g) 36524 ltac:(lia)).
    pose proof (Z.mod_pos_bound (36524 * b + 1461 * e + 365 * f + g) 36524 ltac:(lia)). lia. }
  replace (36524 * b + 1461 * e + 365 * f + g - 36524 * b) with (1461 * e + (365 * f + g)) by lia.
  assert ((1461 * e + (365 * f + g)) / 1461 = e /\ (1461 * e + (365 * f + g)) mod 1461 = 365 * f + g)
    as [-> ->].
  { split; [symmetry; apply Z.div_unique_pos with (365 * f + g); lia |
            symmetry; apply Z.mod_unique_pos with e; lia]. }
  assert (Z.min ((365 * f + g) / 365) 3 = f) as ->.
  { pose proof (Z.div_mod (365 * f + g) 365 ltac:(lia)). pose proof (Z.mod_pos_bound (365 * f + g) 365 ltac:(lia)). lia. }
  f_equal; lia.
Qed.

(** ** Months partition the days *)

Lemma month_span_spec lengths first yd :
  Forall (fun n => 0 < n) lengths -> first <= yd < first + sumZ lengths ->
  let '(a, b) := month_span lengths first yd in
  first <= a <= yd /\ yd < b <= first + sumZ lengths /\
  forall yd', a <= yd' < b -> month_span lengths first yd' = (a, b).
Proof.
  revert first. induction lengths as [| n lengths IH]; intros first Hp Hyd; [simpl in Hyd; lia |].
  apply Forall_cons in Hp as [Hn Hp]. change (sumZ (n :: lengths)) with (n + sumZ lengths) in *.
  assert (0 <= sumZ lengths). { apply sumZ_nonneg. eapply Forall_impl; [exact Hp |]. simpl. lia. }
  cbn [month_span]. destruct (Z.ltb_spec yd (first + n)).
  - split_and!; try lia. intros yd' Hyd'. by destruct (Z.ltb_spec yd' (first + n)); [| lia].
  - specialize (IH (first + n) Hp ltac:(lia)). destruct (month_span lengths (first + n) yd) as [a b].
    destruct IH as (? & ? & Hs). split_and!; try lia. intros yd' Hyd'.
    destruct (Z.ltb_spec yd' (first + n)); [lia |]. by apply Hs.
Qed.

(** The month of a day contains it, and it is the month of each of its days. *)
Lemma month_of_spec d :
  let '(a, b) := month_of d in
  a <= d < b /\ forall d', a <= d' < b -> month_of d' = (a, b).
Proof.
  unfold month_of. destruct (cycle_of_valid d) as [Hv Hc]. set (c := cycle_of d) in *.
  assert (sumZ (month_lengths (leap c)) = if leap c then 366 else 365) as Hsum by by destruct (leap c).
  assert (0 <= yday c < 0 + sumZ (month_lengths (leap c))) as Hy by (rewrite Hsum; apply Hv).
  pose proof (month_span_spec (month_lengths (leap c)) 0 (yday c)
    ltac:(destruct (leap c); repeat constructor; lia) Hy) as Hs.
  destruct (month_span (month_lengths (leap c)) 0 (yday c)) as [a b]. destruct Hs as (Ha & Hb & Hs).
  split; [lia |]. intros d' Hd'.
  set (c' := mkCycle (n400 c) (n100 c) (n4 c) (n1 c) (yday c + (d' - d))).
  assert (leap c' = leap c) as Hleap by done.
  assert (cycle_of d' = c') as ->.
  { replace d' with (compose c') by (unfold compose, c' in *; cbn [n400 n100 n4 n1 yday] in *; lia).
    apply cycle_of_compose. unfold valid in *. rewrite Hleap. cbn [c' n400 n100 n4 n1 yday]. lia. }
  rewrite Hleap. cbn [c' yday]. rewrite (Hs (yday c + (d' - d))) by lia. f_equal; lia.
Qed.

(** February 2024, in days from 1 January 1970. *)
Example february_2024 :
  let epoch := unix_epoch / 86400 in month_of (epoch + 19782) = (epoch + 19754, epoch + 19783).
Proof. reflexivity. Qed.
