(* ===== verification/Ledger.v ===== *)
(** * The budget ledger in the database

    The tables behind budgets and accounting and the triggers that keep the
    daily totals ([store/migrations/0041_exact_microcents.up.sql], with the
    tables of 0006, 0038 and 0039). A statement that raises an exception or
    violates a constraint is [None]: the transaction it runs in changes
    nothing. Each operation is one statement of the gateway; row and advisory
    locks make the statements on one request and the admissions of one scope
    follow each other. *)

From S2P Require Import Prelude Money Calendar.

(** ** Rows *)

(** Whom a row is charged to. *)
Record owner := mkOwner {
  ow_team : Z;
  ow_user : option Z;
  ow_service_account : option Z;
  ow_key : option Z;
  ow_customer : option Z;
}.

Inductive status := Reserved | Settled | OtherStatus.
#[export] Instance status_eq_dec : EqDecision status.
Proof. solve_decision. Defined.

Record reservation := mkReservation {
  rs_request_id : string;
  rs_owner : owner;
  rs_alias : string;
  rs_estimated_cents : Z;
  rs_estimated_micro : option Z;
  rs_settled_cents : Z;
  rs_settled_micro : option Z;
  rs_status : status;
  rs_created_at : Z;
}.

Record usage_row := mkUsageRow {
  ur_request_id : string;
  ur_accounting_id : option string;
  ur_owner : owner;
  ur_ts : Z;
  ur_cost_cents : Z;
  ur_cost_micro : option Z;
  ur_accounting : string;
  ur_status_code : Z;
}.

(** [COALESCE(micro, cents*1000000)] *)
Definition coalesce_micro (cents : Z) (micro : option Z) : Z :=
  match micro with Some m => m | None => cents * MicrocentsPerCent end.

(** What a reservation holds: its estimate until it is settled. *)
Definition reservation_charge (r : reservation) : Z :=
  match rs_status r with
  | Reserved => coalesce_micro (rs_estimated_cents r) (rs_estimated_micro r)
  | Settled => coalesce_micro (rs_settled_cents r) (rs_settled_micro r)
  | OtherStatus => 0
  end.

Definition usage_cost (u : usage_row) : Z := coalesce_micro (ur_cost_cents u) (ur_cost_micro u).

(** ** Daily totals *)

Definition total_key : Type := string * Z * Z.

Definition opt_scope (scope : string) (id : option Z) : list (string * Z) :=
  match id with Some i => [(scope, i)] | None => [] end.

(** The identities of a row, in the order of the scopes. *)
Definition identities (o : owner) : list (string * Z) :=
  opt_scope "customer" (ow_customer o) ++ opt_scope "key" (ow_key o) ++
  opt_scope "service_account" (ow_service_account o) ++ [("team", ow_team o)] ++
  opt_scope "user" (ow_user o).

Definition keys_of (o : owner) (day : Z) : list total_key := map (fun '(s, i) => (s, i, day)) (identities o).

(** The body of [budget_apply_daily]'s loop for one identity. *)
Definition apply_one (delta : Z) (k : total_key) (t : gmap total_key Z) : option (gmap total_key Z) :=
  if 0 <? delta
  then
    let v := default 0 (t !! k) + delta in
    if MaxInt64 <? v then None else Some (<[k := v]> t)
  else
    match t !! k with
    | None => None
    | Some v => if v + delta <? 0 then None else Some (<[k := v + delta]> t)
    end.

Fixpoint apply_keys (delta : Z) (ks : list total_key) (t : gmap total_key Z) :
    option (gmap total_key Z) :=
  match ks with
  | [] => Some t
  | k :: rest => t ← apply_one delta k t; apply_keys delta rest t
  end.

Definition budget_apply_daily (o : owner) (stamp delta : Z) (t : gmap total_key Z) :
    option (gmap total_key Z) :=
  if delta =? 0 then Some t else apply_keys delta (keys_of o (day_of stamp)) t.

(** ** Transactions *)

(** How the commit of a transaction ends: done, not done, or done without the
    reply. *)
Inductive commit := Committed | NotCommitted | CommittedSilently.

(** ** The tables *)

Record tables := mkTables {
  tb_reservations : gmap string reservation;
  tb_usage : list usage_row;  (** the row with id [n] is at index [n - 1] *)
  tb_totals : gmap total_key Z;
}.

Definition empty_tables : tables := mkTables ∅ [] ∅.

(** [EXISTS (SELECT 1 FROM budget_reservations WHERE request_id=... AND team_id=...)] *)
Definition has_reservation (rs : gmap string reservation) (request_id : string) (team : Z) : bool :=
  match rs !! request_id with Some r => ow_team (rs_owner r) =? team | None => false end.

(** The loop of the reservation trigger over the usage of the same request. *)
Fixpoint discount_usage (request_id : string) (team : Z) (us : list usage_row)
    (t : gmap total_key Z) : option (gmap total_key Z) :=
  match us with
  | [] => Some t
  | u :: rest =>
      if (ur_request_id u =? request_id)%string && (ow_team (ur_owner u) =? team) &&
         negb (ur_cost_cents u =? 0)
      then t ← budget_apply_daily (ur_owner u) (ur_ts u) (- usage_cost u) t;
           discount_usage request_id team rest t
      else discount_usage request_id team rest t
  end.

(** [cost_microcents >= 0 AND cost_cents = ceil(cost_microcents)] *)
Definition exact_check (cents : Z) (micro : option Z) : bool :=
  match micro with
  | None => true
  | Some m => (0 <=? m) && (cents =? m /g MicrocentsPerCent + (if m %g MicrocentsPerCent =? 0 then 0 else 1))
  end.

(** [INSERT INTO budget_reservations] with its primary key, constraints and
    trigger. *)
Definition insert_reservation (r : reservation) (db : tables) : option tables :=
  match tb_reservations db !! rs_request_id r with
  | Some _ => None
  | None =>
      if negb (exact_check (rs_estimated_cents r) (rs_estimated_micro r)) ||
         negb (exact_check (rs_settled_cents r) (rs_settled_micro r)) then None else
      t ← budget_apply_daily (rs_owner r) (rs_created_at r) (reservation_charge r) (tb_totals db);
      t ← discount_usage (rs_request_id r) (ow_team (rs_owner r)) (tb_usage db) t;
      Some (mkTables (<[rs_request_id r := r]> (tb_reservations db)) (tb_usage db) t)
  end.

(** The settled form of a reservation. *)
Definition settled (r : reservation) (cents : Z) (micro : option Z) : reservation :=
  mkReservation (rs_request_id r) (rs_owner r) (rs_alias r) (rs_estimated_cents r)
    (rs_estimated_micro r) cents micro Settled (rs_created_at r).

(** [UPDATE budget_reservations SET settled..., status='settled' WHERE
    request_id=$1 AND status='reserved'] with its trigger; the result tells
    whether a row was updated. *)
Definition settle_reservation (request_id : string) (cents : Z) (micro : option Z) (db : tables) :
    option (tables * bool) :=
  match tb_reservations db !! request_id with
  | None => Some (db, false)
  | Some r =>
      if bool_decide (rs_status r = Reserved)
      then
        let r' := settled r cents micro in
        if negb (exact_check cents micro) then None
        else
          t ← budget_apply_daily (rs_owner r) (rs_created_at r)
                (reservation_charge r' - reservation_charge r) (tb_totals db);
          Some (mkTables (<[request_id := r']> (tb_reservations db)) (tb_usage db) t, true)
      else Some (db, false)
  end.

(** [CHECK (accounting_state IN (...))] *)
Definition accounting_states : list string :=
  ["legacy"; "priced"; "estimated"; "unknown"; "unpriced"; "not_billable"].

(** [INSERT INTO usage_log] with its constraints and trigger; the result is
    the new id. *)
Definition insert_usage_row (u : usage_row) (db : tables) : option (tables * Z) :=
  if negb (exact_check (ur_cost_cents u) (ur_cost_micro u)) ||
     negb (bool_decide (ur_accounting u ∈ accounting_states)) then None
  else if match ur_accounting_id u with
          | Some a => existsb (fun v => bool_decide (ur_accounting_id v = Some a)) (tb_usage db)
          | None => false
          end then None
  else
    t ← (if negb (ur_cost_cents u =? 0) &&
            negb (has_reservation (tb_reservations db) (ur_request_id u) (ow_team (ur_owner u)))
         then budget_apply_daily (ur_owner u) (ur_ts u) (usage_cost u) (tb_totals db)
         else Some (tb_totals db));
    Some (mkTables (tb_reservations db) (tb_usage db ++ [u]) t, Z.of_nat (length (tb_usage db)) + 1).

(** The row that already has the accounting id. *)
Definition conflicting_usage (u : usage_row) (us : list usage_row) : option nat :=
  a ← ur_accounting_id u; fst <$> list_find (fun v => ur_accounting_id v = Some a) us.

(** The same statement with [ON CONFLICT (accounting_id) DO UPDATE SET
    accounting_id=EXCLUDED.accounting_id RETURNING id]: the constraints are
    checked for the proposed row, and a row that has its accounting id is
    returned as it is (the trigger takes its cost out of the totals and puts it
    back). *)
Definition upsert_usage_row (u : usage_row) (db : tables) : option (tables * Z) :=
  match conflicting_usage u (tb_usage db) with
  | Some i =>
      if exact_check (ur_cost_cents u) (ur_cost_micro u) && bool_decide (ur_accounting u ∈ accounting_states)
      then Some (db, Z.of_nat i + 1) else None
  | None => insert_usage_row u db
  end.

Lemma upsert_fresh u db :
  (forall v, v ∈ tb_usage db -> ur_accounting_id u = None \/ ur_accounting_id v <> ur_accounting_id u) ->
  upsert_usage_row u db = insert_usage_row u db.
Proof.
  intros Hf. unfold upsert_usage_row, conflicting_usage. destruct (ur_accounting_id u) as [a|] eqn:Ea; [| done].
  cbn. destruct (list_find _ _) as [[i v]|] eqn:E; [| done]. apply list_find_Some in E as (Hi & Hv & _).
  apply list_elem_of_lookup_2, Hf in Hi as [? | ?]; done.
Qed.

(** ** Reading the totals *)

(** The rows of one subject in the days [from, to). *)
Record window := mkWindow { w_scope : string; w_id : Z; w_from : Z; w_to : Z }.


(** The value at one key, as a part of the window's sum. *)
Definition window_part (w : window) (k : total_key) (v : Z) : Z :=
  let '(s, i, d) := k in
  if (s =? w_scope w)%string && (i =? w_id w) && (w_from w <=? d) && (d <? w_to w) then v else 0.

(** [SELECT COALESCE(SUM(cost_microcents),0) ... day >= from AND day < to] *)
Definition used_in (w : window) (t : gmap total_key Z) : Z :=
  sumZ (map (fun '(k, v) => window_part w k v) (map_to_list t)).

(** The charge that falls in a window. *)
Definition in_window (w : window) (o : owner) (stamp amount : Z) : Z :=
  if bool_decide ((w_scope w, w_id w) ∈ identities o) && (w_from w <=? day_of stamp) &&
     (day_of stamp <? w_to w)
  then amount else 0.

Lemma keys_of_NoDup o day : NoDup (keys_of o day).
Proof.
  unfold keys_of. apply NoDup_fmap_2; [intros [? ?] [? ?]; congruence |].
  unfold identities, opt_scope. destruct (ow_customer o), (ow_key o), (ow_service_account o), (ow_user o);
    simpl; repeat constructor; rewrite ?not_elem_of_cons; repeat split; try discriminate;
    apply not_elem_of_nil.
Qed.

Lemma used_in_insert w k v t :
  used_in w (<[k := v]> t) =
  used_in w t + window_part w k (v - default 0 (t !! k)).
Proof.
  assert (forall x (m : gmap total_key Z), m !! k = None ->
    used_in w (<[k := x]> m) = window_part w k x + used_in w m) as Hnew.
  { intros x m Hm. unfold used_in.
    rewrite (sumZ_Permutation _ (map (fun '(k, v) => window_part w k v) ((k, x) :: map_to_list m))).
    - done.
    - apply Permutation_map. by apply map_to_list_insert. }
  destruct (t !! k) as [v0|] eqn:E; simpl.
  - rewrite <- (insert_delete_eq t k v), Hnew by apply lookup_delete_eq.
    rewrite <- (insert_delete_id t k v0 E) at 2. rewrite Hnew by apply lookup_delete_eq.
    unfold window_part. destruct k as [[s i] d]. case_match; lia.
  - rewrite Hnew by done. replace (v - 0) with v by lia. lia.
Qed.

Lemma used_in_apply_one w delta k t t' :
  apply_one delta k t = Some t' ->
  used_in w t' = used_in w t + window_part w k delta.
Proof.
  unfold apply_one. intros E.
  assert (exists v, t' = <[k := v]> t /\ v = default 0 (t !! k) + delta) as (v & -> & ->).
  { destruct (0 <? delta).
    - destruct (MaxInt64 <? _); [done |]. injection E as <-. eauto.
    - destruct (t !! k) as [v|] eqn:Ek; [| done]. destruct (v + delta <? 0); [done |].
      injection E as <-. eauto. }
  rewrite used_in_insert. do 2 f_equal. lia.
Qed.

Lemma used_in_apply_daily w o stamp delta t t' :
  budget_apply_daily o stamp delta t = Some t' ->
  used_in w t' =
  used_in w t + in_window w o stamp delta.
Proof.
  unfold budget_apply_daily, in_window. destruct (Z.eqb_spec delta 0) as [->|].
  { intros [= <-]. case_match; lia. }
  assert (NoDup (identities o)) as Hnd.
  { pose proof (keys_of_NoDup o 0) as Hk. unfold keys_of in Hk. by apply NoDup_fmap_1 in Hk. }
  unfold keys_of. revert t. induction (identities o) as [| [s i] ids IH]; intros t; cbn [map apply_keys].
  { intros [= <-]. rewrite bool_decide_false by apply not_elem_of_nil. simpl. lia. }
  apply NoDup_cons in Hnd as [Hni Hnd]. destruct (apply_one _ _ _) as [t1|] eqn:E1; [| done]. cbn. intros E.
  rewrite (IH Hnd t1 E), (used_in_apply_one _ _ _ _ _ E1). unfold window_part.
  destruct (decide ((w_scope w, w_id w) = (s, i))) as [E0|Hne].
  - injection E0 as <- <-. rewrite (bool_decide_false ((w_scope w, w_id w) ∈ ids)) by done. rewrite bool_decide_true by (apply elem_of_cons; by left).
    rewrite String.eqb_refl, Z.eqb_refl. cbn [andb]. lia.
  - assert ((s =? w_scope w)%string && (i =? w_id w) = false) as ->.
    { destruct (String.eqb_spec s (w_scope w)), (Z.eqb_spec i (w_id w)); try done. congruence. }
    cbn [andb]. rewrite Z.add_0_r. f_equal. erewrite bool_decide_ext; [done |].
    rewrite elem_of_cons. intuition.
Qed.

(** ** What the totals mean *)

Definition reservation_at (w : window) (r : reservation) : Z :=
  in_window w (rs_owner r) (rs_created_at r) (reservation_charge r).

(** A usage row counts unless a reservation of its request stands for it. *)
Definition usage_at (rs : gmap string reservation) (w : window) (u : usage_row) : Z :=
  if negb (ur_cost_cents u =? 0) && negb (has_reservation rs (ur_request_id u) (ow_team (ur_owner u)))
  then in_window w (ur_owner u) (ur_ts u) (usage_cost u) else 0.

Definition sum_reservations (w : window) (rs : gmap string reservation) : Z :=
  sumZ (map (reservation_at w) (map_to_list rs).*2).

Definition sum_usage (rs : gmap string reservation) (w : window) (us : list usage_row) : Z :=
  sumZ (map (usage_at rs w) us).

(** The totals are exactly the charges, each request counted once. *)
Definition exact (db : tables) : Prop :=
  forall w, used_in w (tb_totals db) =
    sum_reservations w (tb_reservations db) + sum_usage (tb_reservations db) w (tb_usage db).

(** ** Sums over the tables *)

Lemma sum_reservations_new w rs r :
  rs !! rs_request_id r = None ->
  sum_reservations w (<[rs_request_id r := r]> rs) = reservation_at w r + sum_reservations w rs.
Proof.
  intros Hr. unfold sum_reservations.
  rewrite (sumZ_Permutation _ (map (reservation_at w) ((rs_request_id r, r) :: map_to_list rs).*2)); [done |].
  apply Permutation_map, fmap_Permutation. by apply map_to_list_insert.
Qed.

Lemma sum_reservations_update w rs req r r' :
  rs !! req = Some r ->
  sum_reservations w (<[req := r']> rs) =
  sum_reservations w rs - reservation_at w r + reservation_at w r'.
Proof.
  intros Hr.
  assert (forall x, sum_reservations w (<[req := x]> (delete req rs)) =
            reservation_at w x + sum_reservations w (delete req rs)) as Hx.
  { intros x. unfold sum_reservations.
    rewrite (sumZ_Permutation _ (map (reservation_at w) ((req, x) :: map_to_list (delete req rs)).*2)); [done |].
    apply Permutation_map, fmap_Permutation, map_to_list_insert, lookup_delete_eq. }
  rewrite <- (insert_delete_eq rs req r'), Hx. rewrite <- (insert_delete_id rs req r Hr) at 2.
  rewrite Hx. lia.
Qed.

(** The usage of one request. *)
Definition usage_of (req : string) (team : Z) (w : window) (u : usage_row) : Z :=
  if (ur_request_id u =? req)%string && (ow_team (ur_owner u) =? team) && negb (ur_cost_cents u =? 0)
  then in_window w (ur_owner u) (ur_ts u) (usage_cost u) else 0.

Lemma in_window_opp w o stamp d : in_window w o stamp (- d) = - in_window w o stamp d.
Proof. unfold in_window. case_match; lia. Qed.

Lemma discount_usage_spec req team us t t' w :
  discount_usage req team us t = Some t' ->
  used_in w t' = used_in w t - sumZ (map (usage_of req team w) us).
Proof.
  revert t. induction us as [| u us IH]; intros t; cbn [discount_usage map].
  { intros [= <-]. simpl. lia. }
  change (sumZ (?a :: ?b)) with (a + sumZ b). unfold usage_of at 1.
  destruct (_ && _ && _).
  - destruct (budget_apply_daily _ _ _ _) as [t1|] eqn:E1; [| done]. cbn. intros E.
    rewrite (IH _ E), (used_in_apply_daily w _ _ _ _ _ E1), in_window_opp. lia.
  - intros E. rewrite (IH _ E). lia.
Qed.

(** Once a reservation stands for a request, its usage counts no more. *)
Lemma sum_usage_new rs r w us :
  rs !! rs_request_id r = None ->
  sum_usage (<[rs_request_id r := r]> rs) w us =
  sum_usage rs w us - sumZ (map (usage_of (rs_request_id r) (ow_team (rs_owner r)) w) us).
Proof.
  intros Hr. unfold sum_usage. induction us as [| u us IH]; simpl; [lia |]. rewrite IH.
  assert (usage_at (<[rs_request_id r := r]> rs) w u =
    usage_at rs w u - usage_of (rs_request_id r) (ow_team (rs_owner r)) w u) as ->; [| lia].
  unfold usage_at, usage_of, has_reservation.
  destruct (String.eqb_spec (ur_request_id u) (rs_request_id r)) as [E|E]; cbn [andb].
  - rewrite E, lookup_insert_eq, Hr. rewrite (Z.eqb_sym (ow_team (rs_owner r))).
    destruct (ow_team (ur_owner u) =? ow_team (rs_owner r)), (ur_cost_cents u =? 0); cbn; lia.
  - rewrite lookup_insert_ne by done. lia.
Qed.

Lemma sum_usage_update rs req r r' w us :
  rs !! req = Some r -> ow_team (rs_owner r') = ow_team (rs_owner r) ->
  sum_usage (<[req := r']> rs) w us = sum_usage rs w us.
Proof.
  intros Hr Ht. unfold sum_usage. f_equal. apply map_ext. intros u. unfold usage_at, has_reservation.
  destruct (decide (req = ur_request_id u)) as [<-|]; [by rewrite lookup_insert_eq, Hr, Ht |].
  by rewrite lookup_insert_ne.
Qed.

(** ** The statements keep the totals exact *)

Lemma insert_reservation_exact r db db' :
  exact db -> insert_reservation r db = Some db' -> exact db'.
Proof.
  intros Hex. unfold insert_reservation. destruct (tb_reservations db !! rs_request_id r) eqn:Hr; [done |].
  destruct (negb _ || negb _); [done |].
  destruct (budget_apply_daily _ _ _ _) as [t1|] eqn:E1; [| done]. cbn.
  destruct (discount_usage _ _ _ _) as [t2|] eqn:E2; [| done]. cbn. intros [= <-] w. cbn [tb_totals tb_reservations tb_usage].
  rewrite (discount_usage_spec _ _ _ _ _ w E2), (used_in_apply_daily w _ _ _ _ _ E1), Hex.
  rewrite sum_reservations_new, sum_usage_new by done. unfold reservation_at. lia.
Qed.

Lemma settle_reservation_exact req cents micro db db' b :
  exact db -> settle_reservation req cents micro db = Some (db', b) -> exact db'.
Proof.
  intros Hex. unfold settle_reservation. destruct (tb_reservations db !! req) as [r|] eqn:Hr;
    [| by intros [= <- _]].
  case_bool_decide; [| by intros [= <- _]]. destruct (negb (exact_check cents micro)); [done |].
  destruct (budget_apply_daily _ _ _ _) as [t1|] eqn:E1; [| done]. cbn. intros [= <- _] w. cbn [tb_totals tb_reservations tb_usage].
  rewrite (used_in_apply_daily w _ _ _ _ _ E1), Hex, (sum_reservations_update w _ _ _ _ Hr).
  rewrite (sum_usage_update _ _ _ _ _ _ Hr) by done.
  unfold reservation_at, in_window. cbn [rs_owner settled rs_created_at]. case_match; lia.
Qed.

Lemma insert_usage_row_exact u db db' id :
  exact db -> insert_usage_row u db = Some (db', id) -> exact db'.
Proof.
  intros Hex. unfold insert_usage_row. destruct (negb _ || negb _); [done |].
  destruct (match ur_accounting_id u with Some _ => _ | None => _ end); [done |].
  destruct (if _ && _ then _ else _) as [t1|] eqn:E1; [| done]. cbn. intros [= <- _] w. cbn [tb_totals tb_reservations tb_usage].
  unfold sum_usage. rewrite map_app, sumZ_app. simpl. unfold usage_at at 2.
  destruct (negb (ur_cost_cents u =? 0) && _).
  - rewrite (used_in_apply_daily w _ _ _ _ _ E1), Hex. unfold sum_usage. lia.
  - injection E1 as <-. rewrite Hex. unfold sum_usage. lia.
Qed.

(** ** What the statements do *)

Lemma settle_reservation_inv req cents micro db db' b :
  settle_reservation req cents micro db = Some (db', b) ->
  tb_usage db' = tb_usage db /\
  ((b = false /\ db' = db /\ forall r, tb_reservations db !! req = Some r -> rs_status r <> Reserved) \/
   (b = true /\ exact_check cents micro = true /\ exists r, tb_reservations db !! req = Some r /\
      rs_status r = Reserved /\
      tb_reservations db' = <[req := settled r cents micro]> (tb_reservations db))).
Proof.
  unfold settle_reservation. destruct (tb_reservations db !! req) as [r|] eqn:Hr.
  2: { intros [= <- <-]. split; [done |]. left. split_and!; [done | done | intros; congruence]. }
  case_bool_decide as Hst.
  2: { intros [= <- <-]. split; [done |]. left. split_and!; [done | done | intros; congruence]. }
  destruct (exact_check cents micro); [| done]. cbn [negb].
  destruct (budget_apply_daily _ _ _ _) as [t1|]; [| done]. cbn. intros [= <- <-].
  split; [done |]. right. split_and!; [done | done |]. exists r. done.
Qed.

Lemma insert_usage_row_inv u db db' id :
  insert_usage_row u db = Some (db', id) ->
  tb_reservations db' = tb_reservations db /\ tb_usage db' = tb_usage db ++ [u] /\
  id = Z.of_nat (length (tb_usage db)) + 1 /\ exact_check (ur_cost_cents u) (ur_cost_micro u) = true /\
  (forall a v, ur_accounting_id u = Some a -> v ∈ tb_usage db -> ur_accounting_id v <> Some a).
Proof.
  unfold insert_usage_row. destruct (exact_check _ _) eqn:Ex; [| done].
  destruct (bool_decide (ur_accounting u ∈ _)); [| done]. cbn [negb orb].
  destruct (match ur_accounting_id u with Some _ => _ | None => _ end) eqn:Ea; [done |].
  destruct (if _ && _ then _ else _) as [t1|]; [| done]. cbn. intros [= <- <-].
  split_and!; try done. intros a v Hu Hv Hva. rewrite Hu in Ea.
  apply not_true_iff_false in Ea. apply Ea, existsb_exists. exists v. split; [by apply list_elem_of_In |].
  by apply bool_decide_eq_true.
Qed.

(** ** When they succeed *)

(** No charge is negative. *)
Definition charges_nonneg (db : tables) : Prop :=
  (forall req r, tb_reservations db !! req = Some r -> 0 <= reservation_charge r) /\
  (forall u, u ∈ tb_usage db -> 0 <= usage_cost u).

(** The window of one day reads one key. *)
Lemma used_in_key s i d t : used_in (mkWindow s i d (d + 1)) t = default 0 (t !! ((s, i, d) : total_key)).
Proof.
  induction t as [| [[s' i'] d'] x t Hn IH] using map_ind; [done |].
  rewrite used_in_insert, Hn, IH. cbn [window_part w_scope w_id w_from w_to default from_option id].
  destruct (decide ((s', i', d') = (s, i, d))) as [[= -> -> ->]|Hne].
  - rewrite String.eqb_refl, Z.eqb_refl, lookup_insert_eq, Hn. cbn [andb default].
    destruct (Z.leb_spec d d), (Z.ltb_spec d (d + 1)); cbn [andb from_option id]; lia.
  - rewrite lookup_insert_ne by done.
    assert ((s' =? s)%string && (i' =? i) && (d <=? d') && (d' <? d + 1) = false) as ->; [| lia].
    destruct (String.eqb_spec s' s), (Z.eqb_spec i' i), (Z.leb_spec d d'), (Z.ltb_spec d' (d + 1)); try done.
    exfalso. apply Hne. repeat f_equal; try done. lia.
Qed.

Lemma apply_keys_succeeds delta ks t :
  delta < 0 -> NoDup ks -> (forall k, k ∈ ks -> 0 <= default 0 (t !! k) + delta) ->
  exists t', apply_keys delta ks t = Some t'.
Proof.
  intros Hd Hnd. revert t. induction Hnd as [| k ks Hk Hnd IH]; intros t Ht; [by exists t |].
  cbn [apply_keys]. pose proof (Ht k ltac:(set_solver)) as Hv. unfold apply_one.
  destruct (Z.ltb_spec 0 delta); [lia |]. destruct (t !! k) as [v|]; cbn in Hv; [| lia].
  destruct (Z.ltb_spec (v + delta) 0); [lia |]. cbn. apply IH. intros k' Hk'.
  rewrite lookup_insert_ne by set_solver. apply Ht. set_solver.
Qed.

Lemma sumZ_elem_le l x : Forall (fun z => 0 <= z) l -> x ∈ l -> x <= sumZ l.
Proof.
  induction 1 as [| y l Hy Hl IH]; intros Hx; [by apply not_elem_of_nil in Hx |]. cbn [sumZ foldr].
  pose proof (sumZ_nonneg l Hl). unfold sumZ in *.
  apply elem_of_cons in Hx as [-> | Hx]; [lia |]. specialize (IH Hx). lia.
Qed.

Lemma in_window_nonneg w o stamp a : 0 <= a -> 0 <= in_window w o stamp a.
Proof. unfold in_window. case_match; lia. Qed.

(** Every key of a reservation holds at least its charge. *)
Lemma key_covers_charge db req r s i :
  exact db -> charges_nonneg db -> tb_reservations db !! req = Some r -> (s, i) ∈ identities (rs_owner r) ->
  reservation_charge r <= default 0 (tb_totals db !! ((s, i, day_of (rs_created_at r)) : total_key)).
Proof.
  intros Hex [Hr Hu] Hreq Hi. set (d := day_of (rs_created_at r)). rewrite <- used_in_key, Hex.
  set (w := mkWindow s i d (d + 1)).
  assert (reservation_at w r = reservation_charge r) as <-.
  { unfold reservation_at, in_window. cbn [w w_scope w_id w_from w_to]. rewrite bool_decide_true by done.
    fold d. destruct (Z.leb_spec d d), (Z.ltb_spec d (d + 1)); cbn; lia. }
  assert (0 <= sum_usage (tb_reservations db) w (tb_usage db)) as Hsu.
  { apply sumZ_nonneg, Forall_map, Forall_forall. intros u Hin. unfold usage_at.
    case_match; [apply in_window_nonneg; eauto | lia]. }
  assert (reservation_at w r <= sum_reservations w (tb_reservations db)); [| lia].
  apply sumZ_elem_le.
  - apply Forall_map, Forall_forall. intros r' ([k ?] & -> & Hk)%list_elem_of_fmap.
    apply elem_of_map_to_list in Hk. apply in_window_nonneg. eauto.
  - apply list_elem_of_fmap. exists r. split; [done |]. apply list_elem_of_fmap. exists (req, r).
    split; [done |]. by apply elem_of_map_to_list.
Qed.

(** Settling at no more than what is held always succeeds. *)
Lemma settle_reservation_succeeds req r cents micro db :
  exact db -> charges_nonneg db -> tb_reservations db !! req = Some r -> rs_status r = Reserved ->
  exact_check cents micro = true -> 0 <= coalesce_micro cents micro <= reservation_charge r ->
  exists db', settle_reservation req cents micro db = Some (db', true).
Proof.
  intros Hex Hnn Hr Hst Hc Hle. unfold settle_reservation. rewrite Hr, bool_decide_true, Hc by done. cbn [negb].
  change (reservation_charge (settled r cents micro)) with (coalesce_micro cents micro).
  enough (exists t, budget_apply_daily (rs_owner r) (rs_created_at r)
    (coalesce_micro cents micro - reservation_charge r) (tb_totals db) = Some t) as [t ->] by (cbn; eauto).
  unfold budget_apply_daily. destruct (Z.eqb_spec (coalesce_micro cents micro - reservation_charge r) 0); [eauto |].
  apply apply_keys_succeeds; [lia | apply keys_of_NoDup |].
  intros k ([s i] & -> & Hi)%list_elem_of_fmap. pose proof (key_covers_charge db req r s i Hex Hnn Hr Hi). lia.
Qed.

(** A row that costs nothing, or whose request is reserved, is only appended. *)
Lemma insert_usage_row_succeeds u db :
  exact_check (ur_cost_cents u) (ur_cost_micro u) = true -> ur_accounting u ∈ accounting_states ->
  (forall a v, ur_accounting_id u = Some a -> v ∈ tb_usage db -> ur_accounting_id v <> Some a) ->
  (ur_cost_cents u = 0 \/ has_reservation (tb_reservations db) (ur_request_id u) (ow_team (ur_owner u)) = true) ->
  insert_usage_row u db =
  Some (mkTables (tb_reservations db) (tb_usage db ++ [u]) (tb_totals db), Z.of_nat (length (tb_usage db)) + 1).
Proof.
  intros Hc Ha Huniq Hz. unfold insert_usage_row. rewrite Hc, bool_decide_true by done. cbn [negb orb].
  assert (match ur_accounting_id u with
          | Some a => existsb (fun v => bool_decide (ur_accounting_id v = Some a)) (tb_usage db)
          | None => false end = false) as ->.
  { destruct (ur_accounting_id u) as [a|] eqn:E; [| done]. apply not_true_is_false. intros Hx.
    apply existsb_exists in Hx as (v & Hv%list_elem_of_In & Hd). apply bool_decide_eq_true in Hd. by eapply Huniq. }
  assert (negb (ur_cost_cents u =? 0) &&
    negb (has_reservation (tb_reservations db) (ur_request_id u) (ow_team (ur_owner u))) = false) as ->; [| done].
  destruct Hz as [-> | ->]; [done |]. apply andb_false_r.
Qed.

(** ** Any sequence of statements *)

Inductive statement : tables -> tables -> Prop :=
| st_reserve r db db' : insert_reservation r db = Some db' -> statement db db'
| st_settle req cents micro db db' b :
    settle_reservation req cents micro db = Some (db', b) -> statement db db'
| st_usage u db db' id : insert_usage_row u db = Some (db', id) -> statement db db'.

Lemma statement_exact db db' : statement db db' -> exact db -> exact db'.
Proof.
  destruct 1; eauto using insert_reservation_exact, settle_reservation_exact, insert_usage_row_exact.
Qed.

Lemma empty_exact : exact empty_tables.
Proof. intros w. reflexivity. Qed.

(** C9. The trigger-maintained totals are exact: after any sequence of
    reservations, settlements and usage inserts, the sum admission reads for
    a subject and a range of days equals the charges of that subject's
    requests in those days, where a request with a reservation counts once
    (its estimate, or what it was settled at) and its usage row not again,
    and a usage row without reservation counts its cost. *)
Theorem totals_count_each_request_once (db : tables) (w : window)
    (Hdb : rtc statement empty_tables db) :
  used_in w (tb_totals db) =
  sum_reservations w (tb_reservations db) + sum_usage (tb_reservations db) w (tb_usage db).
Proof.
  assert (exact db) as Hex; [| apply Hex]. pose proof empty_exact as H0.
  revert H0. induction Hdb as [| ? ? ? Hst _ IH]; [done |]. intros H0.
  apply IH. by eapply statement_exact.
Qed.

(** A request is reserved at 5 and settled at 3 micro-cents, and another one
    has usage of 2 without a reservation. *)
Definition witness_owner : owner := mkOwner 1 (Some 4) None None None.
Definition witness_reservation : reservation :=
  mkReservation "r1" witness_owner "gpt" 1 (Some 5) 0 None Reserved Day.
Definition witness_usage : usage_row :=
  mkUsageRow "r2" None witness_owner Day 1 (Some 2) "priced" 200.

Definition witness_db1 : tables := default empty_tables (insert_reservation witness_reservation empty_tables).
Definition witness_db2 : tables :=
  match settle_reservation "r1" 1 (Some 3) witness_db1 with Some (db, _) => db | None => empty_tables end.
Definition witness_db3 : tables :=
  match insert_usage_row witness_usage witness_db2 with Some (db, _) => db | None => empty_tables end.

Lemma totals_count_each_request_once_witness :
  used_in (mkWindow "team" 1 0 31) (tb_totals witness_db3) = 5 /\
  used_in (mkWindow "team" 1 0 31) (tb_totals witness_db3) =
  sum_reservations (mkWindow "team" 1 0 31) (tb_reservations witness_db3) +
  sum_usage (tb_reservations witness_db3) (mkWindow "team" 1 0 31) (tb_usage witness_db3).
Proof.
  split; [vm_compute; reflexivity |].
  apply (totals_count_each_request_once witness_db3).
  eapply rtc_l; [apply (st_reserve witness_reservation _ witness_db1); vm_compute; reflexivity |].
  eapply rtc_l; [apply (st_settle "r1" 1 (Some 3) _ witness_db2 true); vm_compute; reflexivity |].
  eapply rtc_l; [apply (st_usage witness_usage _ witness_db3 1); vm_compute; reflexivity |].
  apply rtc_refl.
Defined.
