(* ===== verification/Budget.v ===== *)
(** * Budget admission ([internal/budget/service.go])

    [Admit] estimates the worst case over the targets of an alias, compares it
    with what each budgeted scope has used in its window, and reserves it in
    the ledger. The database is the [tables] of [Ledger]; the advisory locks of
    a transaction make admissions of one scope follow each other, so one
    admission is one function of two clocks: the window is that of the gateway's,
    read after the locks, and the reservation is dated by the database's, which
    stands at the start of the transaction. A parameter tells which database calls fail. The
    service and its store are configured. *)

From S2P Require Import Prelude GoStrings Money Models Calendar Ledger.

Record Target := mkTarget { tg_ProviderType : string; tg_UpstreamModel : string }.

Record AdmissionRequest := mkAdmissionRequest {
  ar_RequestID : string;
  ar_Team : option Team;
  ar_User : option User;
  ar_ServiceAccount : option ServiceAccount;
  ar_Key : option VirtualKey;
  ar_Customer : option Customer;
  ar_Alias : string;
  ar_PromptTokens : Z;
  ar_CompletionTokens : Z;
  ar_Targets : list Target;
}.

Record Reservation := mkBudgetReservation {
  rv_RequestID : string;
  rv_EstimatedCostCents : Z;
  rv_EstimatedCostMicrocents : Z;
}.

Record ExceededError := mkExceededError {
  ee_Scope : string;
  ee_LimitCents : Z;
  ee_UsedCents : Z;
  ee_NeedCents : Z;
  ee_LimitMicrocents : Z;
  ee_UsedMicrocents : Z;
  ee_NeedMicrocents : Z;
}.

Inductive admit_error :=
| InvalidBudgetIdentity
| PricingUnavailableError (providerType upstreamModel : string)
| CostError (e : cost_error)
| Exceeded (e : ExceededError)
| DatabaseError
| Panic.

(** The database calls of one admission. *)
Inductive call := CallPricing | CallBegin | CallLock | CallUsed (scope : string) | CallInsert.

(** ** Windows *)

Definition budgetWindow (now : Z) (period : string) : Z * Z :=
  if (period =? "day")%string
  then let start := day_of now * Day in (start, start + 24 * Hour)
  else let '(a, b) := month_of (day_of now) in (a * Day, b * Day).

(** [budgetUsedForScope]: the sum over the days of the window; a sum that does
    not fit in an [int64] fails to scan. *)
Definition budgetUsedForScope (ok : bool) (scope : string) (id from to : Z) (db : tables) :
    result admit_error Z :=
  let used := used_in (mkWindow scope id (day_of from) (day_of to)) (tb_totals db) in
  if negb ok || (MaxInt64 <? used) then Err DatabaseError else Ok used.

(** ** The comparison *)

Definition wouldExceed (used need limit : Z) : bool :=
  (used <? 0) || (need <? 0) || (limit <? 0) || (limit <? used) || (limit -w used <? need).

(** [reportCents]; [None] is a panic of [CeilCents]. *)
Definition reportCents (microcents : Z) : option Z :=
  if microcents <? 0
  then c ← CeilCents (- Z.max microcents (- MaxInt64)); Some (- c)
  else CeilCents microcents.

Definition reportLimit (limitCents : Z) : option Z :=
  if limitCents <? 0 then Some limitCents else LimitMicrocents limitCents.

(** [scopeExceeded]: nothing when the scope has room. *)
Definition scopeExceeded (scope : string) (limitCents used need : Z) : result admit_error unit :=
  let fits :=
    (0 <=? limitCents) &&
    match LimitMicrocents limitCents with
    | Some limit => negb (wouldExceed used need limit)
    | None => false
    end in
  if fits then Ok tt
  else match reportCents used, reportCents need, reportLimit limitCents with
  | Some u, Some n, Some l => Err (Exceeded (mkExceededError scope limitCents u n l used need))
  | _, _, _ => Err Panic
  end.

(** One scope's check of [Admit]. *)
Definition check_scope (ok : call -> bool) (now : Z) (scope : string) (id limitCents : Z)
    (period : string) (estimated : Z) (db : tables) : result admit_error unit :=
  let '(start, end_) := budgetWindow now period in
  used ← budgetUsedForScope (ok (CallUsed scope)) scope id start end_ db;
  scopeExceeded scope limitCents used estimated.

(** ** Pricing *)

(** [GetCurrentPricing]: the row of the pair that is in effect last. *)
Fixpoint latest (providerType upstreamModel : string) (rows : list Pricing) (best : option Pricing) :
    option Pricing :=
  match rows with
  | [] => best
  | p :: rest =>
      if (p_ProviderType p =? providerType)%string && (p_UpstreamModel p =? upstreamModel)%string &&
         match best with Some b => EffectiveAt b <? EffectiveAt p | None => true end
      then latest providerType upstreamModel rest (Some p)
      else latest providerType upstreamModel rest best
  end.

Definition GetCurrentPricing (providerType upstreamModel : string) (rows : list Pricing) : option Pricing :=
  latest providerType upstreamModel rows None.

(** The loop of [maxEstimatedCost]. *)
Fixpoint max_estimate (ok : bool) (prompt completion : Z) (rows : list Pricing) (maxCost : Z)
    (targets : list Target) : result admit_error Z :=
  match targets with
  | [] => Ok maxCost
  | t :: rest =>
      if negb ok then Err DatabaseError
      else match GetCurrentPricing (tg_ProviderType t) (tg_UpstreamModel t) rows with
      | None => Err (PricingUnavailableError (tg_ProviderType t) (tg_UpstreamModel t))
      | Some pricing =>
          match estimatedTierCost pricing prompt completion with
          | Err e => Err (CostError e)
          | Ok cost =>
              max_estimate ok prompt completion rows (if maxCost <? cost then cost else maxCost) rest
          end
      end
  end.

Definition maxEstimatedCost (ok : bool) (prompt completion : Z) (rows : list Pricing)
    (targets : list Target) : result admit_error Z :=
  match targets with
  | [] => Err (PricingUnavailableError "" "")
  | _ => max_estimate ok prompt completion rows 0 targets
  end.

Definition ComputeUsageCost (ok : bool) (providerType upstreamModel : string) (u : Usage)
    (rows : list Pricing) : result admit_error Z :=
  if (providerType =? "")%string || (upstreamModel =? "")%string then Ok 0
  else if negb ok then Err DatabaseError
  else match GetCurrentPricing providerType upstreamModel rows with
  | None => Err (PricingUnavailableError providerType upstreamModel)
  | Some p => match CostUsage (Some p) u with Ok c => Ok c | Err e => Err (CostError e) end
  end.

(** ** Admission *)

Definition nullableKeyID (vk : option VirtualKey) : option Z :=
  match vk with Some k => if vk_ID k <=? 0 then None else Some (vk_ID k) | None => None end.

(** The columns of the reservation that name its owner. *)
Definition request_owner (team : Team) (req : AdmissionRequest) : owner :=
  mkOwner (tm_ID team) (option_map us_ID (ar_User req)) (option_map sa_ID (ar_ServiceAccount req))
    (nullableKeyID (ar_Key req))
    (match ar_Customer req with Some c => if 0 <? cu_ID c then Some (cu_ID c) else None | None => None end).

(** The budgeted scopes of a request, in the order they are checked: name,
    subject, limit and period. *)
Definition budget_scopes (team : Team) (req : AdmissionRequest) : list (string * Z * Z * string) :=
  (if ptr_pos (tm_UsdLimitCents team)
   then [("team", tm_ID team, deref (tm_UsdLimitCents team), tm_Period team)] else []) ++
  match ar_User req with
  | Some u => if ptr_pos (us_UsdLimitCents u)
              then [("user", us_ID u, deref (us_UsdLimitCents u), us_Period u)] else []
  | None => []
  end ++
  match ar_ServiceAccount req with
  | Some a => if ptr_pos (sa_UsdLimitCents a)
              then [("service_account", sa_ID a, deref (sa_UsdLimitCents a), sa_Period a)] else []
  | None => []
  end ++
  match ar_Key req with
  | Some k => if ptr_pos (vk_ScopedUsdLimitCents k)
              then [("key", vk_ID k, deref (vk_ScopedUsdLimitCents k), tm_Period team)] else []
  | None => []
  end ++
  match ar_Customer req with
  | Some c => match cu_UsdLimitCents c with
              | Some l => [("customer", cu_ID c, l, cu_Period c)]
              | None => []
              end
  | None => []
  end.

Fixpoint check_scopes (ok : call -> bool) (now estimated : Z) (scopes : list (string * Z * Z * string))
    (db : tables) : result admit_error unit :=
  match scopes with
  | [] => Ok tt
  | (scope, id, limit, period) :: rest =>
      _ ← check_scope ok now scope id limit period estimated db;
      check_scopes ok now estimated rest db
  end.

(** [Service.Admit]; [now] is the gateway's clock and [db_now] the database's. *)
Definition Admit (ok : call -> bool) (end_ : commit) (now db_now : Z) (rows : list Pricing)
    (req : AdmissionRequest) (db : tables) : tables * result admit_error (option Reservation) :=
  match ar_Team req with
  | None => (db, Ok None)
  | Some team =>
      if (ar_RequestID req =? "")%string || (ar_Alias req =? "")%string then (db, Ok None)
      else if match ar_Customer req with
              | Some c => negb (cu_TeamID c =? tm_ID team) ||
                          ((cu_ID c <=? 0) && bool_decide (is_Some (cu_UsdLimitCents c)))
              | None => false
              end
      then (db, Err InvalidBudgetIdentity)
      else match budget_scopes team req with
      | [] => (db, Ok None)
      | scopes =>
          match maxEstimatedCost (ok CallPricing) (ar_PromptTokens req) (ar_CompletionTokens req) rows
                  (ar_Targets req) with
          | Err e => (db, Err e)
          | Ok estimated =>
              if negb (ok CallBegin) || negb (ok CallLock) then (db, Err DatabaseError)
              else match check_scopes ok now estimated scopes db with
              | Err e => (db, Err e)
              | Ok _ =>
                  match CeilCents estimated with
                  | None => (db, Err Panic)
                  | Some cents =>
                      let r := mkReservation (ar_RequestID req) (request_owner team req) (ar_Alias req)
                                 cents (Some estimated) 0 None Reserved db_now in
                      match (if ok CallInsert then insert_reservation r db else None) with
                      | None => (db, Err DatabaseError)
                      | Some db' =>
                          match end_ with
                          | Committed => (db', Ok (Some (mkBudgetReservation (ar_RequestID req) cents estimated)))
                          | NotCommitted => (db, Err DatabaseError)
                          | CommittedSilently => (db', Err DatabaseError)
                          end
                      end
                  end
              end
          end
      end
  end.

(** [Service.Settle] *)
Definition Settle (ok : bool) (requestID : string) (microcents : Z) (db : tables) :
    tables * result admit_error unit :=
  if microcents <? 0 then (db, Err DatabaseError)
  else if (requestID =? "")%string then (db, Ok tt)
  else match CeilCents microcents with
  | None => (db, Err Panic)
  | Some cents =>
      match (if ok then settle_reservation requestID cents (Some microcents) db else None) with
      | None => (db, Err DatabaseError)
      | Some (db, _) => (db, Ok tt)
      end
  end.

(** [Service.SettleEstimated] *)
Definition SettleEstimated (ok : bool) (requestID : string) (db : tables) :
    tables * result admit_error Z :=
  if (requestID =? "")%string then (db, Ok 0)
  else if negb ok then (db, Err DatabaseError)
  else match tb_reservations db !! requestID with
  | None => (db, Ok 0)
  | Some r =>
      match settle_reservation requestID (rs_estimated_cents r) (rs_estimated_micro r) db with
      | None => (db, Err DatabaseError)
      | Some (db, true) => (db, Ok (rs_estimated_cents r))
      | Some (db, false) => (db, Ok 0)
      end
  end.

(** ** Summaries *)

Record UserSummary := mkUserSummary {
  sm_LimitCents : option Z;
  sm_Period : string;
  sm_WindowStart : Z;
  sm_WindowEnd : Z;
  sm_UsedCents : Z;
  sm_UsedMicrocents : Z;
}.

(** The common part of the three summaries. *)
Definition summary (ok : bool) (now : Z) (scope : string) (id : Z) (limit : option Z)
    (period : string) (db : tables) : result admit_error UserSummary :=
  let '(start, end_) := budgetWindow now period in
  used ← budgetUsedForScope ok scope id start end_ db;
  match CeilCents used with
  | Some cents => Ok (mkUserSummary limit period start end_ cents used)
  | None => Err Panic
  end.

Definition summary_period (period : string) : string :=
  if negb (period =? "day")%string && negb (period =? "month")%string then "month" else period.

Definition CustomerSummary (ok : bool) (now : Z) (c : Customer) (db : tables) :
    result admit_error UserSummary :=
  summary ok now "customer" (cu_ID c) (cu_UsdLimitCents c) (cu_Period c) db.

Definition KeySummary (ok : bool) (now : Z) (key : VirtualKey) (team : Team) (db : tables) :
    result admit_error UserSummary :=
  if negb (vk_TeamID key =? tm_ID team) || (vk_ID key <=? 0) then Err InvalidBudgetIdentity
  else summary ok now "key" (vk_ID key) (vk_ScopedUsdLimitCents key) (summary_period (tm_Period team)) db.

Definition User_Summary (ok : bool) (now : Z) (user : User) (db : tables) :
    result admit_error UserSummary :=
  summary ok now "user" (us_ID user) (us_UsdLimitCents user) (summary_period (us_Period user)) db.

(** ** The comparison is exact *)

Lemma wouldExceed_spec used need limit :
  int64_ok used -> int64_ok need -> int64_ok limit ->
  wouldExceed used need limit = false <->
  0 <= used /\ 0 <= need /\ 0 <= limit /\ used + need <= limit.
Proof.
  intros Hu Hn Hl. unfold wouldExceed.
  destruct (Z.ltb_spec used 0), (Z.ltb_spec need 0), (Z.ltb_spec limit 0), (Z.ltb_spec limit used);
    cbn [orb]; try (split; [discriminate | lia]).
  rewrite wrap64_id by int64_lia. destruct (Z.ltb_spec (limit - used) need); split; try discriminate; lia.
Qed.

Lemma scopeExceeded_Ok scope limit used need :
  int64_ok used -> int64_ok need ->
  scopeExceeded scope limit used need = Ok tt <->
  0 <= limit /\ 0 <= used /\ 0 <= need /\ used + need <= Z.min (limit * MicrocentsPerCent) MaxInt64.
Proof.
  intros Hu Hn. unfold scopeExceeded.
  destruct (Z.leb_spec 0 limit) as [Hl|Hl]; cbn [andb].
  - rewrite LimitMicrocents_value by done.
    pose proof (wouldExceed_spec used need (clamp64 (limit * MicrocentsPerCent)) Hu Hn (clamp64_ok _)) as Hw.
    assert (clamp64 (limit * MicrocentsPerCent) = Z.min (limit * MicrocentsPerCent) MaxInt64) as Hc.
    { unfold clamp64, MicrocentsPerCent. int64_lia. }
    rewrite Hc in *. destruct (wouldExceed _ _ _); cbn [negb].
    + split; [intros E; repeat case_match; discriminate |]. intros (? & ? & ? & ?).
      assert (true = false); [| discriminate]. apply Hw. unfold MicrocentsPerCent in *. int64_lia.
    + split; [intros _ | done]. destruct (proj1 Hw eq_refl) as (? & ? & ? & ?). done.
  - split; [| lia]. intros E. repeat case_match; discriminate.
Qed.

(** The reports of a refusal never panic on machine integers. *)
Lemma scopeExceeded_no_panic scope limit used need :
  int64_ok used -> int64_ok need -> scopeExceeded scope limit used need <> Err Panic.
Proof.
  intros Hu Hn. unfold scopeExceeded. case_match; [done |].
  assert (forall m, int64_ok m -> exists c, reportCents m = Some c) as Hr.
  { intros m Hm. unfold reportCents. destruct (Z.ltb_spec m 0).
    - destruct (CeilCents_total (- Z.max m (- MaxInt64))) as [c ->]; [int64_lia |]. eauto.
    - by apply CeilCents_total. }
  destruct (Hr used Hu) as [a ->], (Hr need Hn) as [b ->].
  unfold reportLimit. destruct (Z.ltb_spec limit 0); [done |]. by rewrite LimitMicrocents_value.
Qed.

(** ** The estimate covers every target *)

Lemma max_estimate_Ok ok prompt completion rows m targets e :
  max_estimate ok prompt completion rows m targets = Ok e ->
  m <= e /\ forall t, t ∈ targets -> exists p c,
    GetCurrentPricing (tg_ProviderType t) (tg_UpstreamModel t) rows = Some p /\
    estimatedTierCost p prompt completion = Ok c /\ c <= e.
Proof.
  revert m. induction targets as [| t targets IH]; intros m; cbn [max_estimate].
  { intros [= <-]. split; [lia |]. by intros t ?%not_elem_of_nil. }
  destruct ok; cbn [negb]; [| done].
  destruct (GetCurrentPricing _ _ rows) as [p|] eqn:Ep; [| done].
  destruct (estimatedTierCost p prompt completion) as [c|] eqn:Ec; [| done]. intros E.
  destruct (IH _ E) as [Hm Hall]. destruct (Z.ltb_spec m c); (split; [lia |]);
    intros u [-> | Hu]%elem_of_cons; auto; exists p, c; split_and!; try done; lia.
Qed.

Lemma max_estimate_range ok prompt completion rows m targets e :
  int64_ok prompt -> int64_ok completion -> 0 <= m <= MaxInt64 ->
  max_estimate ok prompt completion rows m targets = Ok e -> 0 <= e <= MaxInt64.
Proof.
  intros Hp Hc. revert m. induction targets as [| t targets IH]; intros m Hm; cbn [max_estimate].
  { intros [= <-]. done. }
  destruct ok; cbn [negb]; [| done].
  destruct (GetCurrentPricing _ _ rows) as [p|]; [| done].
  destruct (estimatedTierCost p prompt completion) as [c|] eqn:Ec; [| done].
  apply IH. apply estimate_charge in Ec as (_ & _ & _ & _ & ?); [| done..]. case_match; lia.
Qed.

Lemma maxEstimatedCost_Ok ok prompt completion rows targets e :
  int64_ok prompt -> int64_ok completion ->
  maxEstimatedCost ok prompt completion rows targets = Ok e ->
  targets <> [] /\ 0 <= e <= MaxInt64 /\ forall t, t ∈ targets -> exists p c,
    GetCurrentPricing (tg_ProviderType t) (tg_UpstreamModel t) rows = Some p /\
    estimatedTierCost p prompt completion = Ok c /\ c <= e.
Proof.
  intros Hp Hc. unfold maxEstimatedCost. destruct targets as [| t targets]; [done |]. intros E.
  pose proof (max_estimate_range ok prompt completion rows 0 _ e Hp Hc ltac:(int64_lia) E) as Hr.
  split; [done |]. split; [done |]. by apply max_estimate_Ok in E as [_ E].
Qed.

(** ** What a successful admission has checked *)

(** The days a scope's window covers. *)
Definition scope_window (now : Z) (s : string * Z * Z * string) : window :=
  let '(scope, id, _, period) := s in
  let '(start, end_) := budgetWindow now period in mkWindow scope id (day_of start) (day_of end_).

Definition scope_limit (s : string * Z * Z * string) : Z := let '(_, _, limit, _) := s in limit.

Lemma check_scopes_Ok ok now estimated scopes db :
  0 <= estimated <= MaxInt64 ->
  check_scopes ok now estimated scopes db = Ok tt ->
  Forall (fun s => 0 <= used_in (scope_window now s) (tb_totals db) /\
    used_in (scope_window now s) (tb_totals db) + estimated <= scope_limit s * MicrocentsPerCent) scopes.
Proof.
  intros He. induction scopes as [| [[[scope id] limit] period] scopes IH]; cbn [check_scopes]; [by constructor |].
  intros E. bind_inv. constructor; [| by apply IH]. clear IH E.
  unfold check_scope, scope_window in *. destruct (budgetWindow now period) as [start end_].
  bind_inv. rename r0 into used. unfold budgetUsedForScope in Hr0. cbn [scope_limit] in *.
  destruct (negb _ || _) eqn:Eo; [done |]. injection Hr0 as <-.
  apply orb_false_iff in Eo as [_ Eo]. destruct r.
  set (u := used_in _ _) in *.
  destruct (Z.ltb_spec u 0) as [Hneg|Hpos].
  - exfalso. unfold scopeExceeded in Hr. unfold wouldExceed in Hr.
    replace (u <? 0) with true in Hr by lia. cbn [orb negb] in Hr.
    destruct (LimitMicrocents limit); rewrite ?andb_false_r in Hr; repeat case_match; discriminate.
  - apply scopeExceeded_Ok in Hr as (? & ? & ? & ?); [| int64_lia | int64_lia]. lia.
Qed.

Lemma insert_reservation_inv r db db' :
  insert_reservation r db = Some db' ->
  tb_reservations db !! rs_request_id r = None /\
  tb_reservations db' = <[rs_request_id r := r]> (tb_reservations db) /\ tb_usage db' = tb_usage db /\
  forall w, used_in w (tb_totals db') =
    used_in w (tb_totals db) + reservation_at w r -
    sumZ (map (usage_of (rs_request_id r) (ow_team (rs_owner r)) w) (tb_usage db)).
Proof.
  unfold insert_reservation. destruct (tb_reservations db !! rs_request_id r); [done |].
  destruct (negb _ || negb _); [done |].
  destruct (budget_apply_daily _ _ _ _) as [t1|] eqn:E1; [| done]. cbn.
  destruct (discount_usage _ _ _ _) as [t2|] eqn:E2; [| done]. cbn. intros [= <-].
  split_and!; try done. intros w. cbn [tb_totals].
  rewrite (discount_usage_spec _ _ _ _ _ w E2), (used_in_apply_daily w _ _ _ _ _ E1). done.
Qed.

Lemma usage_of_none req team w us :
  (forall u, u ∈ us -> ur_request_id u <> req) -> sumZ (map (usage_of req team w) us) = 0.
Proof.
  induction us as [| u us IH]; intros Hu; [done |]. simpl. rewrite IH by set_solver.
  unfold usage_of. destruct (String.eqb_spec (ur_request_id u) req) as [E|]; [| done].
  exfalso. apply (Hu u); [set_solver | done].
Qed.

(** The steps of a successful [Admit]. *)
Lemma Admit_Ok_inv ok end_ now db_now rows req db db' res :
  Admit ok end_ now db_now rows req db = (db', res) -> (db' = db /\ forall v, res <> Ok (Some v)) \/
  exists team estimated cents r,
    ar_Team req = Some team /\
    maxEstimatedCost (ok CallPricing) (ar_PromptTokens req) (ar_CompletionTokens req) rows
      (ar_Targets req) = Ok estimated /\
    check_scopes ok now estimated (budget_scopes team req) db = Ok tt /\
    CeilCents estimated = Some cents /\
    r = mkReservation (ar_RequestID req) (request_owner team req) (ar_Alias req) cents (Some estimated)
          0 None Reserved db_now /\
    insert_reservation r db = Some db' /\
    (forall v, res = Ok (Some v) -> v = mkBudgetReservation (ar_RequestID req) cents estimated).
Proof.
  unfold Admit. destruct (ar_Team req) as [team|] eqn:Et; [| intros [= <- <-]; left; split; [done | by intros v]].
  destruct ((ar_RequestID req =? "")%string || _); [intros [= <- <-]; left; split; [done | by intros v] |].
  destruct (match ar_Customer req with Some _ => _ | None => _ end); [intros [= <- <-]; left; split; [done | by intros v] |].
  destruct (budget_scopes team req) as [| s scopes] eqn:Es; [intros [= <- <-]; left; split; [done | by intros v] |].
  destruct (maxEstimatedCost _ _ _ _ _) as [estimated|] eqn:Ee; [| intros [= <- <-]; left; split; [done | by intros v]].
  destruct (negb _ || negb _); [intros [= <- <-]; left; split; [done | by intros v] |].
  destruct (check_scopes ok now estimated (s :: scopes) db) as [[]|] eqn:Ec; [| intros [= <- <-]; left; split; [done | by intros v]].
  destruct (CeilCents estimated) as [cents|] eqn:Ecc; [| intros [= <- <-]; left; split; [done | by intros v]].
  destruct (if ok CallInsert then _ else _) as [db1|] eqn:Ei; [| intros [= <- <-]; left; split; [done | by intros v]].
  destruct (ok CallInsert); [| done].
  intros E. destruct end_; injection E as <- <-; [right | left; split; [done | by intros v] | right];
    exists team, estimated, cents; eexists; rewrite ?Es; split_and!; try done; by intros v [= <-].
Qed.

(** ** Windows partition time *)

Lemma day_of_start d : day_of (d * Day) = d.
Proof. unfold day_of. by apply Z.div_mul. Qed.

(** A window holds its instant and is the window of each of its instants. *)
Lemma budgetWindow_spec t0 period start end_ :
  budgetWindow t0 period = (start, end_) ->
  start <= t0 < end_ /\
  forall t, day_of start <= day_of t < day_of end_ <-> budgetWindow t period = (start, end_).
Proof.
  unfold budgetWindow. pose proof (Z.div_mod t0 Day ltac:(done)) as Ht.
  pose proof (Z.mod_pos_bound t0 Day ltac:(done)) as Hm. fold (day_of t0) in Ht.
  destruct (String.eqb_spec period "day").
  - intros [= <- <-]. assert (day_of (day_of t0 * Day + 24 * Hour) = day_of t0 + 1) as ->.
    { rewrite <- (day_of_start (day_of t0 + 1)). f_equal. unfold Day, Hour, Minute, Second. lia. }
    rewrite day_of_start. unfold Day, Hour, Minute, Second in *. split; [lia |]. intros t. split.
    + intros Hd. by replace (day_of t) with (day_of t0) by lia.
    + intros [= E _]. lia.
  - pose proof (month_of_spec (day_of t0)) as Hs. destruct (month_of (day_of t0)) as [a b].
    destruct Hs as [Hab Hs]. intros [= <- <-]. rewrite !day_of_start.
    assert (0 < Day) by done. split; [nia |]. intros t. split.
    + intros Hd. by rewrite (Hs _ Hd).
    + pose proof (month_of_spec (day_of t)) as Hs'. destruct (month_of (day_of t)) as [a' b'].
      destruct Hs' as [Hab' _]. intros [= Ea Eb]. unfold Day, Hour, Minute, Second in *. lia.
Qed.

Definition tokens_ok (req : AdmissionRequest) : Prop :=
  int64_ok (ar_PromptTokens req) /\ int64_ok (ar_CompletionTokens req).

(** C6. A granted admission is within every budget and covers the bill: each
    budgeted scope of the request had room, in its own window, for the whole
    estimate; the estimate is at least the exact cost of any usage within the
    declared tokens on any target at the price in effect; and the ledger now
    holds a reservation of exactly that estimate for the request's owner. *)
Theorem admission_is_covered (ok : call -> bool) (end_ : commit) (now db_now : Z) (rows : list Pricing)
    (req : AdmissionRequest) (db db' : tables) (v : Reservation) (Htok : tokens_ok req)
    (Hadmit : Admit ok end_ now db_now rows req db = (db', Ok (Some v))) :
  exists team r, ar_Team req = Some team /\
    Forall (fun s => used_in (scope_window now s) (tb_totals db) + rv_EstimatedCostMicrocents v
                     <= scope_limit s * MicrocentsPerCent) (budget_scopes team req) /\
    (forall t p u c, t ∈ ar_Targets req ->
       GetCurrentPricing (tg_ProviderType t) (tg_UpstreamModel t) rows = Some p -> usage_int64 u ->
       PromptTokens u <= ar_PromptTokens req -> CompletionTokens u <= ar_CompletionTokens req ->
       CostUsage (Some p) u = Ok c -> c <= rv_EstimatedCostMicrocents v) /\
    tb_reservations db' !! ar_RequestID req = Some r /\ rs_status r = Reserved /\
    rs_owner r = request_owner team req /\ reservation_charge r = rv_EstimatedCostMicrocents v.
Proof.
  destruct Htok as [Hp Hc]. apply Admit_Ok_inv in Hadmit as Hinv.
  destruct Hinv as [[_ Hno] | (team & est & cents & r & Et & Ee & Ech & Ecc & -> & Ei & Hv)];
    [by destruct (Hno v) |].
  specialize (Hv v eq_refl). subst v. cbn [rv_EstimatedCostMicrocents].
  apply maxEstimatedCost_Ok in Ee as (_ & Hrange & Hall); [| done..].
  apply insert_reservation_inv in Ei as (_ & Hres & _). cbn [rs_request_id] in Hres.
  eexists team, _. split_and!; [done | | | rewrite Hres; apply lookup_insert_eq | done | done | done].
  - eapply Forall_impl; [by eapply check_scopes_Ok |]. intros s. cbn. lia.
  - intros t p u c Ht Ep Hu Hup Huc Hcost. destruct (Hall t Ht) as (p' & c' & Ep' & Ec' & Hle).
    rewrite Ep in Ep'. injection Ep' as <-.
    pose proof (estimate_upper p u _ _ c c' Hu Hp Hc Hup Huc Hcost Ec'). lia.
Qed.

(** The scope a budget refusal names. *)
Lemma check_scopes_Exceeded ok now estimated scopes db x :
  0 <= estimated <= MaxInt64 ->
  check_scopes ok now estimated scopes db = Err (Exceeded x) ->
  exists s, s ∈ scopes /\ ee_Scope x = s.1.1.1 /\ ee_LimitCents x = scope_limit s /\
    ee_UsedMicrocents x = used_in (scope_window now s) (tb_totals db) /\
    ee_NeedMicrocents x = estimated /\
    ~ (0 <= scope_limit s /\ 0 <= ee_UsedMicrocents x /\
       ee_UsedMicrocents x + estimated <= Z.min (scope_limit s * MicrocentsPerCent) MaxInt64).
Proof.
  intros He. induction scopes as [| [[[scope id] limit] period] scopes IH]; cbn [check_scopes]; [done |].
  destruct (check_scope ok now scope id limit period estimated db) as [[]|e] eqn:Ec; cbn.
  { intros E. destruct (IH E) as (s & Hs & Hrest). exists s. split; [by apply elem_of_cons; right | done]. }
  intros [= ->]. exists (scope, id, limit, period). split; [by apply elem_of_cons; left |].
  unfold check_scope, scope_window in *. cbn [scope_limit fst].
  destruct (budgetWindow now period) as [start endt].
  unfold budgetUsedForScope in Ec. destruct (negb _ || _) eqn:Eo; [done |]. cbn in Ec.
  apply orb_false_iff in Eo as [_ Eo]. set (u := used_in _ _) in *.
  assert (~ (0 <= limit /\ 0 <= u /\ u + estimated <= Z.min (limit * MicrocentsPerCent) MaxInt64)) as Hn.
  { intros (? & ? & ?). assert (scopeExceeded scope limit u estimated = Ok tt); [| congruence].
    apply scopeExceeded_Ok; [int64_lia | int64_lia |]. lia. }
  unfold scopeExceeded in Ec. destruct ((0 <=? limit) && _); [done |].
  destruct (reportCents u), (reportCents estimated), (reportLimit limit); try done.
  by injection Ec as <-.
Qed.

(** The rows of a scope add up to no less than nothing. *)
Lemma used_nonneg w t : map_Forall (fun _ v => 0 <= v) t -> 0 <= used_in w t.
Proof.
  intros Ht. unfold used_in. apply sumZ_nonneg, Forall_map, Forall_forall.
  intros [[[s i] d] v] Hin%elem_of_map_to_list. specialize (Ht _ _ Hin). cbn in Ht |- *. case_match; lia.
Qed.

(** C40. A refusal leaves no trace and is justified. On a ledger whose totals
    are not negative, as the table demands, when an admission fails, for
    whatever reason other than a commit that went through without its reply,
    the ledger is unchanged. A budget refusal names a budgeted scope of the
    request with its limit; the used amount it reports is what the totals hold
    for the scope's window, the needed amount is the estimate of this very
    request, the largest over its targets, and either the limit is negative,
    which only a customer's can be, or the two together pass the limit, taken
    as the largest 64-bit amount when the limit in micro-cents is larger. *)
Theorem refusal_is_justified (ok : call -> bool) (end_ : commit) (now db_now : Z)
    (rows : list Pricing) (req : AdmissionRequest) (db db' : tables) (e : admit_error)
    (Htok : tokens_ok req) (Hend : end_ <> CommittedSilently)
    (Htotals : map_Forall (fun _ v => 0 <= v) (tb_totals db))
    (Hadmit : Admit ok end_ now db_now rows req db = (db', Err e)) :
  db' = db /\
  forall x, e = Exceeded x -> exists team s, ar_Team req = Some team /\ s ∈ budget_scopes team req /\
    ee_Scope x = s.1.1.1 /\ ee_LimitCents x = scope_limit s /\
    ee_UsedMicrocents x = used_in (scope_window now s) (tb_totals db) /\
    maxEstimatedCost (ok CallPricing) (ar_PromptTokens req) (ar_CompletionTokens req) rows (ar_Targets req)
      = Ok (ee_NeedMicrocents x) /\
    (scope_limit s < 0 \/
     Z.min (scope_limit s * MicrocentsPerCent) MaxInt64 < ee_UsedMicrocents x + ee_NeedMicrocents x).
Proof.
  destruct Htok as [Hp Hc]. split.
  - apply Admit_Ok_inv in Hadmit as Hinv.
    destruct Hinv as [[-> _] | (team & est & cents & r & _ & _ & _ & _ & -> & Ei & _)]; [done |].
    revert Hadmit. unfold Admit. repeat (case_match; try discriminate); by intros [= -> _].
  - intros x ->. revert Hadmit. unfold Admit. destruct (ar_Team req) as [team|]; [| done].
    destruct ((ar_RequestID req =? "")%string || _); [done |].
    destruct (match ar_Customer req with Some _ => _ | None => _ end); [done |].
    destruct (budget_scopes team req) as [| s0 scopes] eqn:Es; [done |]. rewrite <- Es.
    destruct (maxEstimatedCost _ _ _ _ _) as [estimated|e0] eqn:Ee.
    2: { intros [= _ ->]. exfalso. revert Ee. unfold maxEstimatedCost.
         destruct (ar_Targets req) as [| t ts]; [done |]. generalize 0 as m.
         induction (t :: ts) as [| t' ts' IH]; intros m; cbn [max_estimate]; [done |].
         repeat (case_match; try discriminate); apply IH. }
    apply maxEstimatedCost_Ok in Ee as (_ & Hrange & _); [| done..].
    destruct (negb _ || negb _); [done |].
    destruct (check_scopes ok now estimated (budget_scopes team req) db) as [|e0] eqn:Ec;
      [by repeat (case_match; try discriminate) |].
    intros [= _ ->]. apply check_scopes_Exceeded in Ec as (s & Hs & ? & ? & Hu & Hneed & Hno); [| done].
    exists team, s. pose proof (used_nonneg (scope_window now s) _ Htotals).
    rewrite Hneed in *. split_and!; try done. lia.
Qed.

(** ** A team's spending over time *)

Section team_budget.
Variables (T L : Z) (P : string).
Hypothesis HL : 0 < L.

(** Every request of the team carries a positive limit of at most [L] and the
    period [P]. *)
Definition same_team (req : AdmissionRequest) : Prop :=
  forall team, ar_Team req = Some team -> tm_ID team = T ->
    tm_Period team = P /\ exists l, tm_UsdLimitCents team = Some l /\ 0 < l <= L.

(** The reservation of an admission that was checked against one window and
    charged to another: the gateway reads its clock once it has the locks, and
    the row is stamped with the time at which the transaction began. *)
Definition strayed (now db_now : Z) (req : AdmissionRequest) (db db' : tables) : list reservation :=
  if decide (budgetWindow db_now P = budgetWindow now P) then []
  else match tb_reservations db !! ar_RequestID req, tb_reservations db' !! ar_RequestID req with
       | None, Some r => [r]
       | _, _ => []
       end.

(** What can happen to the ledger: admissions, at any two clocks, settlements
    of at most the reserved amount, and usage of reserved requests. The second
    component collects the reservations that strayed. *)
Inductive budget_step : tables * list reservation -> tables * list reservation -> Prop :=
| bs_admit ok end_ now db_now rows req db db' res l :
    same_team req -> tokens_ok req ->
    Admit ok end_ now db_now rows req db = (db', res) ->
    budget_step (db, l) (db', strayed now db_now req db db' ++ l)
| bs_settle ok req micro db db' res l :
    (forall r, tb_reservations db !! req = Some r -> rs_status r = Reserved ->
       micro <= reservation_charge r) ->
    Settle ok req micro db = (db', res) -> budget_step (db, l) (db', l)
| bs_settle_estimated ok req db db' res l :
    SettleEstimated ok req db = (db', res) -> budget_step (db, l) (db', l)
| bs_usage u db db' id l :
    has_reservation (tb_reservations db) (ur_request_id u) (ow_team (ur_owner u)) = true ->
    insert_usage_row u db = Some (db', id) -> budget_step (db, l) (db', l).

Definition team_window (t0 : Z) : window := scope_window t0 ("team", T, L, P).

(** What the reservations charge to the team's window of an instant. *)
Definition charged_at (t0 : Z) (l : list reservation) : Z :=
  sumZ (map (reservation_at (team_window t0)) l).

(** Within the limit in every window, but for what strayed there, and every
    usage row is a reserved request's. *)
Definition within (db : tables) (l : list reservation) : Prop :=
  (forall t0, used_in (team_window t0) (tb_totals db) <= L * MicrocentsPerCent + charged_at t0 l) /\
  Forall (fun r => 0 <= reservation_charge r) l /\
  (forall u, u ∈ tb_usage db -> is_Some (tb_reservations db !! ur_request_id u)).

Lemma team_identity (o : owner) : ("team", T) ∈ identities o <-> ow_team o = T.
Proof.
  unfold identities, opt_scope. rewrite !elem_of_app, list_elem_of_singleton.
  destruct (ow_customer o), (ow_key o), (ow_service_account o), (ow_user o);
    rewrite ?list_elem_of_singleton, ?elem_of_nil; intuition congruence.
Qed.

(** What a reservation adds to a window of the team. *)
Lemma reservation_at_team t0 r start end_ :
  budgetWindow t0 P = (start, end_) ->
  reservation_at (team_window t0) r =
  if decide (ow_team (rs_owner r) = T /\ budgetWindow (rs_created_at r) P = (start, end_))
  then reservation_charge r else 0.
Proof.
  intros E. unfold reservation_at, in_window, team_window, scope_window. rewrite E. cbn [w_scope w_id w_from w_to].
  pose proof (proj2 (budgetWindow_spec _ _ _ _ E) (rs_created_at r)) as Hw.
  destruct (bool_decide_reflect (("team", T) ∈ identities (rs_owner r))) as [Hi|Hi];
    rewrite team_identity in Hi; cbn [andb].
  - destruct (Z.leb_spec (day_of start) (day_of (rs_created_at r))),
      (Z.ltb_spec (day_of (rs_created_at r)) (day_of end_)); cbn [andb]; case_decide as D; try done;
      exfalso; intuition lia.
  - rewrite decide_False by tauto. done.
Qed.

Lemma charged_at_cons t0 r l : charged_at t0 (r :: l) = reservation_at (team_window t0) r + charged_at t0 l.
Proof. done. Qed.

Lemma charged_nonneg t0 l : Forall (fun r => 0 <= reservation_charge r) l -> 0 <= charged_at t0 l.
Proof.
  intros Hl. unfold charged_at. apply sumZ_nonneg, Forall_map. eapply Forall_impl; [exact Hl |].
  intros r Hr. unfold compose, reservation_at, in_window. cbv beta in *. case_match; lia.
Qed.

Lemma within_admit ok end_ now db_now rows req db db' res l :
  same_team req -> tokens_ok req ->
  Admit ok end_ now db_now rows req db = (db', res) -> within db l ->
  within db' (strayed now db_now req db db' ++ l).
Proof.
  intros Hsame [Hp Hc] Hadmit (Hw & Hl & Hu). apply Admit_Ok_inv in Hadmit.
  destruct Hadmit as [[-> _] | (team & est & cents & r & Et & Ee & Ech & Ecc & -> & Ei & _)].
  { unfold strayed. case_decide; [done |]. by destruct (tb_reservations db !! _). }
  apply maxEstimatedCost_Ok in Ee as (_ & Hrange & _); [| done..].
  apply insert_reservation_inv in Ei as (Hn & Hres & Hus & Hused). cbn [rs_request_id rs_owner] in *.
  split_and!.
  - intros t0. rewrite Hused, usage_of_none.
    2: { intros u Hin E. apply Hu in Hin as [? Hin]. rewrite E in Hin. congruence. }
    unfold strayed. case_decide as Hclock.
    2: { rewrite Hn, Hres, lookup_insert_eq. cbn [app]. rewrite charged_at_cons. specialize (Hw t0). lia. }
    cbn [app]. specialize (Hw t0).
    destruct (budgetWindow t0 P) as [start endt] eqn:E0. rewrite (reservation_at_team _ _ _ _ E0).
    cbn [rs_owner rs_created_at]. case_decide as D; [| lia].
    destruct D as [HT Hwin]. cbn [request_owner ow_team] in HT.
    destruct (Hsame team Et HT) as [Hper (lim & Hlim & Hpos)].
    eapply check_scopes_Ok in Ech; [| done]. eapply Forall_forall in Ech as [_ Hle].
    2: { unfold budget_scopes. rewrite Hlim. unfold ptr_pos. replace (0 <? lim) with true by lia.
         apply elem_of_app. left. apply list_elem_of_singleton. reflexivity. }
    cbn [scope_limit scope_window deref from_option] in Hle. rewrite HT, Hper in Hle.
    rewrite <- Hclock, Hwin in Hle. pose proof (charged_nonneg t0 l Hl) as H0.
    unfold team_window, scope_window in *. rewrite E0 in *. cbn in Hle |- *. unfold MicrocentsPerCent in *. lia.
  - unfold strayed. case_decide; [done |]. rewrite Hn, Hres, lookup_insert_eq. constructor; [| done]. cbn. lia.
  - intros u Hin. rewrite Hres. rewrite Hus in Hin. apply Hu in Hin as [r0 Hr0].
    rewrite lookup_insert_ne by congruence. eauto.
Qed.

(** A settlement at no more than the reserved amount frees room. *)
Lemma within_settle req cents micro db db' b l :
  (forall r, tb_reservations db !! req = Some r -> rs_status r = Reserved ->
     coalesce_micro cents micro <= reservation_charge r) ->
  settle_reservation req cents micro db = Some (db', b) -> within db l -> within db' l.
Proof.
  intros Hle Hs (Hw & Hl & Hu). revert Hs. unfold settle_reservation.
  destruct (tb_reservations db !! req) as [r|] eqn:Er; [| intros [= <- _]; by split].
  case_bool_decide as Est; [| intros [= <- _]; by split].
  destruct (negb (exact_check cents micro)); [done |].
  destruct (budget_apply_daily _ _ _ _) as [t1|] eqn:E1; [| done]. cbn. intros [= <- _].
  specialize (Hle r eq_refl Est). split_and!; [| done |].
  - intros t0. cbn [tb_totals]. rewrite (used_in_apply_daily _ _ _ _ _ _ E1).
    assert (in_window (team_window t0) (rs_owner r) (rs_created_at r)
              (reservation_charge (settled r cents micro) - reservation_charge r) <= 0).
    { unfold in_window. unfold reservation_charge at 1. cbn [settled rs_status rs_settled_cents rs_settled_micro].
      case_match; lia. }
    specialize (Hw t0). lia.
  - intros u Hin. cbn [tb_usage tb_reservations] in *. apply Hu in Hin as [r0 Hr0].
    destruct (decide (req = ur_request_id u)) as [<-|]; [rewrite lookup_insert_eq; eauto |].
    rewrite lookup_insert_ne by done. eauto.
Qed.

Lemma within_step s s' : budget_step s s' -> within s.1 s.2 -> within s'.1 s'.2.
Proof.
  destruct 1 as [ok end_ now db_now rows req db db' res l Hs Ht Ha | ok req micro db db' res l Hle Hs
                | ok req db db' res l Hs | u db db' id l Hr Hi]; cbn [fst snd].
  - by eapply within_admit.
  - unfold Settle in Hs. destruct (Z.ltb_spec micro 0); [injection Hs as <- _; done |].
    destruct (req =? "")%string; [injection Hs as <- _; done |].
    destruct (CeilCents micro) as [cents|]; [| injection Hs as <- _; done].
    destruct ok; [| injection Hs as <- _; done].
    destruct (settle_reservation req cents (Some micro) db) as [[db1 b]|] eqn:E; injection Hs as <- _; [| done].
    eapply within_settle; [| exact E]. exact Hle.
  - unfold SettleEstimated in Hs. destruct (req =? "")%string; [injection Hs as <- _; done |].
    destruct ok; cbn [negb] in Hs; [| injection Hs as <- _; done].
    destruct (tb_reservations db !! req) as [r|] eqn:Er; [| injection Hs as <- _; done].
    destruct (settle_reservation req _ _ db) as [[db1 b]|] eqn:E; [| injection Hs as <- _; done].
    assert (db' = db1) as -> by (destruct b; congruence). eapply within_settle; [| exact E].
    intros r0 Hr0 Hst. rewrite Er in Hr0. injection Hr0 as <-. unfold reservation_charge. rewrite Hst. lia.
  - intros (Hw & Hl & Hu). revert Hi. unfold insert_usage_row. rewrite Hr, andb_false_r.
    destruct (negb _ || negb _); [done |].
    destruct (match ur_accounting_id u with Some _ => _ | None => _ end); [done |]. cbn. intros [= <- _].
    split_and!; [done | done |]. cbn. intros v [Hv | ->%list_elem_of_singleton]%elem_of_app; [by apply Hu |].
    unfold has_reservation in Hr. destruct (tb_reservations db !! ur_request_id u); [eauto | done].
Qed.

(** C1. A team never spends past its budget. Under any sequence of admissions
    of any teams, settlements at no more than the reserved amount and usage of
    reserved requests, where every admission of the team carries the same
    period and a positive limit of at most [L], what the team has reserved and
    settled in a window (the UTC day or month of any instant) never exceeds the
    limit by more than the reservations that strayed into it: those of
    admissions whose transaction began in that window on the database's clock
    while the gateway, reading its own clock later, checked another window.
    When no admission spans the end of a window, nothing strays and the limit
    holds. *)
Theorem team_budget_never_exceeded (db : tables) (astray : list reservation) (t0 : Z)
    (Hdb : rtc budget_step (empty_tables, []) (db, astray)) :
  used_in (team_window t0) (tb_totals db) <= L * MicrocentsPerCent + charged_at t0 astray /\
  (Forall (fun r => reservation_at (team_window t0) r = 0) astray ->
   used_in (team_window t0) (tb_totals db) <= L * MicrocentsPerCent).
Proof.
  assert (within db astray) as (Hw & _ & _).
  { change (within (db, astray).1 (db, astray).2). assert (within empty_tables []) as H0.
    { split_and!; [| constructor | intros u Hu; by apply not_elem_of_nil in Hu].
      intros t. change (used_in (team_window t) (tb_totals empty_tables)) with 0.
      unfold MicrocentsPerCent. cbn. lia. }
    change (within (empty_tables, [] : list reservation).1 (empty_tables, [] : list reservation).2) in H0.
    revert H0. induction Hdb as [| ? ? ? Hst _ IH]; [done |]. intros H0. apply IH. by eapply within_step. }
  split; [done |]. intros Hz. specialize (Hw t0). assert (charged_at t0 astray = 0); [| lia].
  clear -Hz. induction Hz as [| r l Hr _ IH]; [done |]. rewrite charged_at_cons. lia.
Qed.
End team_budget.

(** ** Evaluation *)

Definition example_team : Team :=
  mkTeam 1 "core" "Core" (Some 2) "month" [] None None None false "open" 1 None.
Definition example_rows : list Pricing :=
  [mkPricing (mkPricingTiers None None None None) "openai" "gpt-4o" 250 1000 1].
Definition example_request (id : string) : AdmissionRequest :=
  mkAdmissionRequest id (Some example_team) None None None None "gpt" 1000 1000
    [mkTarget "openai" "gpt-4o"].
Definition all_ok (c : call) : bool := true.
(** 10 January 2024 *)
Definition example_now : Z := (unix_epoch + 1704844800) * Second.

Definition example_admit (id : string) (db : tables) : tables * result admit_error (option Reservation) :=
  Admit all_ok Committed example_now example_now example_rows (example_request id) db.

(** The first request fits in the budget of two cents, the second does not. *)
Definition after_first : tables := (example_admit "r1" empty_tables).1.

Lemma first_admitted :
  example_admit "r1" empty_tables = (after_first, Ok (Some (mkBudgetReservation "r1" 2 1250000))).
Proof.
  unfold after_first. assert ((example_admit "r1" empty_tables).2 = Ok (Some (mkBudgetReservation "r1" 2 1250000)))
    as <- by (vm_compute; reflexivity).
  apply surjective_pairing.
Qed.

Definition second_refusal : ExceededError := mkExceededError "team" 2 2 2 2000000 1250000 1250000.

Lemma second_refused :
  example_admit "r2" after_first = (after_first, Err (Exceeded second_refusal)).
Proof. vm_compute. reflexivity. Qed.

Lemma example_tokens id : tokens_ok (example_request id).
Proof. split; vm_compute; split; discriminate. Qed.

Lemma admission_is_covered_witness :
  exists team r, ar_Team (example_request "r1") = Some team /\
    tb_reservations after_first !! "r1" = Some r /\ reservation_charge r = 1250000.
Proof.
  destruct (admission_is_covered all_ok Committed example_now example_now example_rows
    (example_request "r1") empty_tables after_first _ (example_tokens "r1") first_admitted)
    as (team & r & Ht & _ & _ & Hr & _ & _ & Hc).
  exists team, r. split; [exact Ht |]. split; [exact Hr | exact Hc].
Defined.

Lemma refusal_is_justified_witness :
  after_first = after_first /\
  exists team s, ar_Team (example_request "r2") = Some team /\ s ∈ budget_scopes team (example_request "r2") /\
    "team" = s.1.1.1 /\
    maxEstimatedCost true 1000 1000 example_rows [mkTarget "openai" "gpt-4o"] = Ok 1250000 /\
    (scope_limit s < 0 \/ Z.min (scope_limit s * MicrocentsPerCent) MaxInt64 < 1250000 + 1250000).
Proof.
  assert (map_Forall (fun _ v => 0 <= v) (tb_totals after_first)) as Ht.
  { apply map_Forall_to_list. vm_compute. repeat constructor; discriminate. }
  destruct (refusal_is_justified all_ok Committed example_now example_now example_rows
    (example_request "r2") after_first after_first _ (example_tokens "r2") ltac:(discriminate) Ht
    second_refused) as [E Hx].
  split; [exact E |]. destruct (Hx _ eq_refl) as (team & s & Ht' & Hs & Hn & _ & _ & Hneed & Hover).
  exists team, s. split; [exact Ht' |]. split; [exact Hs |]. split; [exact Hn |]. split; [exact Hneed | exact Hover].
Defined.

Lemma team_budget_never_exceeded_witness :
  used_in (team_window 1 2 "month" example_now) (tb_totals after_first) = 1250000 /\
  used_in (team_window 1 2 "month" example_now) (tb_totals after_first) <= 2 * MicrocentsPerCent.
Proof.
  split; [vm_compute; reflexivity |].
  destruct (team_budget_never_exceeded 1 2 "month" ltac:(reflexivity) after_first [] example_now) as [_ H];
    [| by apply H].
  eapply rtc_l; [| apply rtc_refl].
  apply (bs_admit 1 2 "month" all_ok Committed example_now example_now example_rows
    (example_request "r1") empty_tables after_first (Ok (Some (mkBudgetReservation "r1" 2 1250000))) []).
  - intros team [= <-] _. split; [reflexivity |]. exists 2. split; [reflexivity | done].
  - exact (example_tokens "r1").
  - exact first_admitted.
Defined.

(** ** The end of a window *)

(** 1 February 2024, and the last second of January. *)
Definition february : Z := (unix_epoch + 1706745600) * Second.
Definition late_january : Z := february - Second.

(** The budget of January is all but spent. An admission whose transaction
    begins in the last second of January and gets its locks in February is
    compared with the empty budget of February, admitted, and charged to
    January, which then holds more than its limit. *)
Lemma admission_across_midnight_overdraws :
  let second := Admit all_ok Committed february late_january example_rows (example_request "r2") after_first in
  is_ok second.2 = true /\
  used_in (team_window 1 2 "month" late_january) (tb_totals second.1) = 2500000 /\
  2 * MicrocentsPerCent < 2500000 /\
  used_in (team_window 1 2 "month" february) (tb_totals second.1) = 0.
Proof. vm_compute. done. Qed.
