(* ===== verification/Accounting.v ===== *)
(** * Durable accounting ([internal/store/accounting.go])

    A request is journaled before any upstream call and finalized once, by the
    handler or by recovery after its deadline. Finalization inserts the usage
    row, settles the reservation and completes the journal entry in one
    transaction, so each function here either returns a new database or an
    error with the database unchanged.

    The journal stores the entry as JSON; the size of that JSON is a
    parameter. Which optional identities still exist is read from tables that
    are not part of the ledger, so it is a parameter too. The fields of
    [UsageEntry] that only describe the request (names, tags, addresses, the
    timings inside the latency) are left out. Two parameters tell how the database behaves in a
    call: [ok], that no statement fails for an outside reason, and [commit],
    how the transaction ends. *)

From S2P Require Import Prelude GoStrings Money Models Ledger Budget.

Record UsageEntry := mkUsageEntry {
  ue_AccountingID : string;
  ue_Accounting : string;
  ue_TokenDetails : string;
  ue_TeamID : Z;
  ue_UserID : option Z;
  ue_KeyID : option Z;
  ue_CustomerID : option Z;
  ue_ServiceAccountID : option Z;
  ue_Alias : string;
  ue_RequestID : string;
  ue_PromptTokens : Z;
  ue_CompletionTokens : Z;
  ue_TotalTokens : Z;
  ue_CostCents : Z;
  ue_CostMicrocents : option Z;
  ue_LatencyMs : Z;
  ue_StatusCode : Z;
  ue_Error : string;
  ue_Cached : bool;
  ue_Ts : Z;
}.

(** The assignments of the finalization, as record updates. *)
Definition set_cost (e : UsageEntry) (cents : Z) (micro : option Z) : UsageEntry :=
  mkUsageEntry (ue_AccountingID e) (ue_Accounting e) (ue_TokenDetails e) (ue_TeamID e) (ue_UserID e)
    (ue_KeyID e) (ue_CustomerID e) (ue_ServiceAccountID e) (ue_Alias e) (ue_RequestID e)
    (ue_PromptTokens e) (ue_CompletionTokens e) (ue_TotalTokens e) cents micro
    (ue_LatencyMs e) (ue_StatusCode e) (ue_Error e) (ue_Cached e) (ue_Ts e).

Definition set_accounting (e : UsageEntry) (a : string) : UsageEntry :=
  mkUsageEntry (ue_AccountingID e) a (ue_TokenDetails e) (ue_TeamID e) (ue_UserID e)
    (ue_KeyID e) (ue_CustomerID e) (ue_ServiceAccountID e) (ue_Alias e) (ue_RequestID e)
    (ue_PromptTokens e) (ue_CompletionTokens e) (ue_TotalTokens e) (ue_CostCents e) (ue_CostMicrocents e)
    (ue_LatencyMs e) (ue_StatusCode e) (ue_Error e) (ue_Cached e) (ue_Ts e).

(** [e.AccountingID = j.requestID; e.RequestID = j.requestID; e.Ts = base.Ts] *)
Definition set_identity (e : UsageEntry) (requestID : string) (ts : Z) : UsageEntry :=
  mkUsageEntry requestID (ue_Accounting e) (ue_TokenDetails e) (ue_TeamID e) (ue_UserID e)
    (ue_KeyID e) (ue_CustomerID e) (ue_ServiceAccountID e) (ue_Alias e) requestID
    (ue_PromptTokens e) (ue_CompletionTokens e) (ue_TotalTokens e) (ue_CostCents e) (ue_CostMicrocents e)
    (ue_LatencyMs e) (ue_StatusCode e) (ue_Error e) (ue_Cached e) ts.

Definition set_ts (e : UsageEntry) (ts : Z) : UsageEntry :=
  mkUsageEntry (ue_AccountingID e) (ue_Accounting e) (ue_TokenDetails e) (ue_TeamID e) (ue_UserID e)
    (ue_KeyID e) (ue_CustomerID e) (ue_ServiceAccountID e) (ue_Alias e) (ue_RequestID e)
    (ue_PromptTokens e) (ue_CompletionTokens e) (ue_TotalTokens e) (ue_CostCents e) (ue_CostMicrocents e)
    (ue_LatencyMs e) (ue_StatusCode e) (ue_Error e) (ue_Cached e) ts.

Record UsageReceipt := mkUsageReceipt {
  rc_ID : Z;
  rc_CostCents : Z;
  rc_CostMicrocents : Z;
  rc_Accounting : string;
}.

Inductive journal_state := Pending | Complete.
#[export] Instance journal_state_eq_dec : EqDecision journal_state.
Proof. solve_decision. Defined.

(** A row of [inference_journal]. *)
Record journal_row := mkJournalRow {
  jr_team_id : Z;
  jr_entry : UsageEntry;
  jr_started : bool;
  jr_recover_after : Z;
  jr_state : journal_state;
  jr_usage_id : option Z;
  jr_created_at : Z;
}.

Record database := mkDatabase {
  db_tables : tables;
  db_journal : gmap string journal_row;
}.

Inductive accounting_error :=
| InvalidRequestOrDeadline
| MetadataTooLarge
| ErrAccountingConflict
| IntentMissingOrExpired
| PrincipalMismatch
| CompletedEntryRemoved
| NegativeCost
| NoJournal
| AccountingDatabase.

(** ** Intents *)

Section accounting.
(** [len(json.Marshal(e))] *)
Variable json_size : UsageEntry -> Z.
(** [(SELECT id FROM <table> WHERE id=... AND team_id=...)] finds the row; the
    lookup in [users] has no team. *)
Variable alive : string -> option Z -> Z -> bool.

(** What is left and returned when the statements succeeded. *)
Definition committed {A} (end_ : commit) (d d' : database) (a : A) :
    database * result accounting_error A :=
  match end_ with
  | Committed => (d', Ok a)
  | NotCommitted => (d, Err AccountingDatabase)
  | CommittedSilently => (d', Err AccountingDatabase)
  end.

Definition BeginAccounting (ok : bool) (end_ : commit) (now db_now : Z) (e : UsageEntry) (remaining : Z)
    (d : database) : database * result accounting_error unit :=
  if (ue_RequestID e =? "")%string || (256 <? Z.of_nat (String.length (ue_RequestID e))) ||
     (remaining <=? 0) || (24 * Hour <? remaining)
  then (d, Err InvalidRequestOrDeadline)
  else
    let e := set_ts e now in
    if 24576 <? json_size e then (d, Err MetadataTooLarge)
    else if negb ok then (d, Err AccountingDatabase)
    else if bool_decide (is_Some (tb_reservations (db_tables d) !! ue_RequestID e)) ||
            bool_decide (is_Some (db_journal d !! ue_RequestID e))
    then (d, Err ErrAccountingConflict)
    else
      committed end_ d
        (mkDatabase (db_tables d)
           (<[ue_RequestID e := mkJournalRow (ue_TeamID e) e false
                (db_now + Milliseconds remaining * Millisecond + 30 * Second) Pending None db_now]>
              (db_journal d))) tt.

Definition MarkAccountingStarted (ok : bool) (end_ : commit) (db_now : Z) (requestID : string) (d : database) :
    database * result accounting_error unit :=
  if negb ok then (d, Err AccountingDatabase)
  else match db_journal d !! requestID with
  | Some j =>
      if bool_decide (jr_state j = Pending) && (db_now <? jr_recover_after j)
      then committed end_ d
             (mkDatabase (db_tables d)
                (<[requestID := mkJournalRow (jr_team_id j) (jr_entry j) true (jr_recover_after j)
                     (jr_state j) (jr_usage_id j) (jr_created_at j)]> (db_journal d))) tt
      else (d, Err IntentMissingOrExpired)
  | None => (d, Err IntentMissingOrExpired)
  end.

(** ** Finalization *)

Definition classifyAccounting (e : UsageEntry) : string :=
  if negb (ue_Accounting e =? "")%string then ue_Accounting e
  else if Contains (ue_TokenDetails e) (String (Ascii.ascii_of_nat 34) "unpriced_") then "unpriced"
  else if ue_Cached e || ((400 <=? ue_StatusCode e) && (ue_CostCents e =? 0) &&
          match ue_CostMicrocents e with None => true | Some m => m =? 0 end) then "not_billable"
  else if (0 <? ue_CostCents e) || ptr_pos (ue_CostMicrocents e) then "priced"
  else "unknown".

(** A panic of [CeilCents] is excluded by the test before it. *)
Definition normalizeCost (e : UsageEntry) : result accounting_error UsageEntry :=
  if (ue_CostCents e <? 0) || match ue_CostMicrocents e with Some m => m <? 0 | None => false end
  then Err NegativeCost
  else match ue_CostMicrocents e with
  | Some m => Ok (set_cost e (default 0 (CeilCents m)) (Some m))
  | None => Ok e
  end.

Definition entry_owner (e : UsageEntry) : owner :=
  mkOwner (ue_TeamID e) (ue_UserID e) (ue_ServiceAccountID e) (ue_KeyID e) (ue_CustomerID e).

(** The values the [INT] columns of [usage_log] take; any other value fails the
    statement. The four columns with the parts of the latency belong to fields that
    [UsageEntry] leaves out here. *)
Definition int4_ok (z : Z) : bool := (-2147483648 <=? z) && (z <=? 2147483647).
Definition int4_columns (e : UsageEntry) : bool :=
  forallb int4_ok [ue_PromptTokens e; ue_CompletionTokens e; ue_TotalTokens e; ue_LatencyMs e; ue_StatusCode e].

(** [insertUsage] *)
Definition insertUsage (now : Z) (e : UsageEntry) (t : tables) :
    result accounting_error (tables * Z) :=
  let e := if (ue_Accounting e =? "")%string then set_accounting e "legacy" else e in
  let e := if IsZero (ue_Ts e) then set_ts e now else e in
  if match ue_CostMicrocents e with Some m => m <? 0 | None => false end then Err NegativeCost
  else
    let e := match ue_CostMicrocents e with
             | Some m => set_cost e (default 0 (CeilCents m)) (Some m)
             | None => e
             end in
    if negb (int4_columns e) then Err AccountingDatabase
    else
    match upsert_usage_row
            (mkUsageRow (ue_RequestID e)
               (if (ue_AccountingID e =? "")%string then None else Some (ue_AccountingID e))
               (entry_owner e) (ue_Ts e) (ue_CostCents e) (ue_CostMicrocents e) (ue_Accounting e)
               (ue_StatusCode e)) t with
    | Some r => Ok r
    | None => Err AccountingDatabase
    end.

(** The entry recovery writes for an interrupted request. *)
Definition recovered_entry (now : Z) (base : UsageEntry) : UsageEntry :=
  let team := Some (ue_TeamID base) in
  let keep (table : string) (team id : option Z) :=
    match id with Some i => if alive table team i then Some i else None | None => None end in
  mkUsageEntry (ue_AccountingID base)
    (if negb (ue_Accounting base =? "not_billable")%string then "unknown" else ue_Accounting base)
    (ue_TokenDetails base) (ue_TeamID base) (keep "users" None (ue_UserID base))
    (keep "virtual_keys" team (ue_KeyID base)) (keep "customers" team (ue_CustomerID base))
    (keep "service_accounts" team (ue_ServiceAccountID base)) (ue_Alias base) (ue_RequestID base)
    (ue_PromptTokens base) (ue_CompletionTokens base) (ue_TotalTokens base) (ue_CostCents base)
    (ue_CostMicrocents base) (Milliseconds (Sub now (ue_Ts base))) 503
    "request_interrupted_or_unrecorded" (ue_Cached base) (ue_Ts base).

(** The reservation's part of [finalizeJournal]: the entry it is accounted at
    and the tables with the reservation settled. *)
Definition settle_entry (requestID : string) (started : bool) (e : UsageEntry) (t : tables) :
    result accounting_error (UsageEntry * tables) :=
  match tb_reservations t !! requestID with
  | None => Ok (e, t)
  | Some r =>
      if bool_decide (rs_status r = Settled)
      then
        let e1 :=
          if negb (EffectiveMicrocents (ue_CostCents e) (ue_CostMicrocents e) =?
                   EffectiveMicrocents (rs_settled_cents r) (rs_settled_micro r)) ||
             (ue_Accounting e =? "unknown")%string
          then set_accounting e "estimated" else e in
        Ok (set_cost e1 (rs_settled_cents r) (rs_settled_micro r), t)
      else
        let e1 :=
          if started && bool_decide (ue_Accounting e ∈ ["unknown"; "estimated"; "unpriced"])
          then set_accounting (set_cost e (rs_estimated_cents r) (rs_estimated_micro r)) "estimated"
          else e in
        match settle_reservation requestID (ue_CostCents e1) (ue_CostMicrocents e1) t with
        | Some (t', _) => Ok (e1, t')
        | None => Err AccountingDatabase
        end
  end.

(** What is accounted for a pending entry, before the reservation is looked at. *)
Definition accounted_entry (now : Z) (requestID : string) (j : journal_row) (e : UsageEntry)
    (recovering : bool) : result accounting_error UsageEntry :=
  let base := jr_entry j in
  let e := if recovering then recovered_entry now base else e in
  let e := set_identity e requestID (ue_Ts base) in
  let e := set_accounting e (classifyAccounting e) in
  let e := if negb (jr_started j) then set_accounting (set_cost e 0 (Some 0)) "not_billable" else e in
  normalizeCost e.

(** The receipt of the usage row [id]. *)
Definition receipt_of (id : Z) (t : tables) : result accounting_error UsageReceipt :=
  match tb_usage t !! Z.to_nat (id - 1) with
  | Some u =>
      if id <=? 0 then Err AccountingDatabase
      else Ok (mkUsageReceipt id (ur_cost_cents u) (EffectiveMicrocents (ur_cost_cents u) (ur_cost_micro u))
                 (ur_accounting u))
  | None => Err AccountingDatabase
  end.

Definition finalizeJournal (now : Z) (requestID : string) (j : journal_row) (e : UsageEntry)
    (recovering : bool) (d : database) : result accounting_error (database * UsageReceipt) :=
  if negb recovering && negb (ue_TeamID e =? ue_TeamID (jr_entry j)) then Err PrincipalMismatch
  else if bool_decide (jr_state j = Complete)
  then match jr_usage_id j with
       | None => Err CompletedEntryRemoved
       | Some id => receipt ← receipt_of id (db_tables d); Ok (d, receipt)
       end
  else
    e ← accounted_entry now requestID j e recovering;
    '(e, t) ← settle_entry requestID (jr_started j) e (db_tables d);
    '(t, id) ← insertUsage now e t;
    Ok (mkDatabase t
          (<[requestID := mkJournalRow (jr_team_id j) (jr_entry j) (jr_started j) (jr_recover_after j)
               Complete (Some id) (jr_created_at j)]> (db_journal d)),
        mkUsageReceipt id (ue_CostCents e) (EffectiveMicrocents (ue_CostCents e) (ue_CostMicrocents e))
          (ue_Accounting e)).

Definition FinalizeUsage (ok : bool) (end_ : commit) (now : Z) (e : UsageEntry) (d : database) :
    database * result accounting_error UsageReceipt :=
  if negb ok then (d, Err AccountingDatabase)
  else if (ue_AccountingID e =? "")%string
  then
    match (e1 ← normalizeCost (set_accounting e (classifyAccounting e));
           r ← insertUsage now e1 (db_tables d); Ok (e1, r)) with
    | Ok (e1, (t, id)) =>
        committed end_ d (mkDatabase t (db_journal d))
          (mkUsageReceipt id (ue_CostCents e1)
             (EffectiveMicrocents (ue_CostCents e1) (ue_CostMicrocents e1)) (ue_Accounting e1))
    | Err x => (d, Err x)
    end
  else match db_journal d !! ue_AccountingID e with
  | None => (d, Err NoJournal)
  | Some j =>
      match finalizeJournal now (ue_AccountingID e) j e false d with
      | Ok (d', receipt) => committed end_ d d' receipt
      | Err x => (d, Err x)
      end
  end.

(** ** Recovery *)

(** [state='pending' AND recover_after<NOW()] *)
Definition due (db_now : Z) (j : journal_row) : bool :=
  bool_decide (jr_state j = Pending) && (jr_recover_after j <? db_now).

(** [ORDER BY recover_after, request_id] *)
Definition recovery_le (a b : string * journal_row) : Prop :=
  jr_recover_after a.2 < jr_recover_after b.2 \/
  (jr_recover_after a.2 = jr_recover_after b.2 /\ String.leb a.1 b.1 = true).
#[local] Instance recovery_le_dec a b : Decision (recovery_le a b).
Proof. unfold recovery_le. apply _. Defined.

(** The rows of one pass: at most 64, oldest deadline first, without the rows
    another transaction has locked ([FOR UPDATE SKIP LOCKED]). *)
Definition recovery_batch (locked : string -> bool) (db_now : Z) (d : database) :
    list (string * journal_row) :=
  take 64 (merge_sort recovery_le
    (List.filter (fun '(id, j) => due db_now j && negb (locked id)) (map_to_list (db_journal d)))).

Definition zero_entry : UsageEntry :=
  mkUsageEntry "" "" "" 0 None None None None "" "" 0 0 0 0 None 0 0 "" false 0.

Fixpoint reconcile_all (now : Z) (batch : list (string * journal_row)) (d : database) :
    result accounting_error database :=
  match batch with
  | [] => Ok d
  | (requestID, j) :: rest =>
      '(d, _) ← finalizeJournal now requestID j zero_entry true d;
      reconcile_all now rest d
  end.

Definition ReconcileAccounting (ok : bool) (end_ : commit) (locked : string -> bool) (now db_now : Z)
    (d : database) : database * result accounting_error Z :=
  if negb ok then (d, Err AccountingDatabase)
  else
    let batch := recovery_batch locked db_now d in
    match reconcile_all now batch d with
    | Ok d' => committed end_ d d' (Z.of_nat (length batch))
    | Err e => (d, Err e)
    end.

(** [AccountingCheckpoint]: whether an intent of the time before [cutoff] is
    still pending. *)
Definition AccountingCheckpoint (db_now : Z) (before : option Z) (d : database) : Z * bool :=
  let cutoff := default db_now before in
  (cutoff, existsb (fun '(_, j) => bool_decide (jr_state j = Pending) && (jr_created_at j <=? cutoff))
             (map_to_list (db_journal d))).

(** ** Amounts *)

(** An amount as the code stores it: whole cents, derived from the exact value
    when there is one. *)
Definition amount_ok (cents : Z) (micro : option Z) : Prop :=
  0 <= cents /\
  match micro with Some m => 0 <= m <= MaxInt64 /\ CeilCents m = Some cents | None => True end.

(** The exact cost fits the [int64] it is stored in. *)
Definition entry_int64 (e : UsageEntry) : Prop :=
  match ue_CostMicrocents e with Some m => m <= MaxInt64 | None => True end.

Lemma CeilCents_check m c : 0 <= m <= MaxInt64 -> CeilCents m = Some c ->
  0 <= c /\ c = m /g MicrocentsPerCent + (if m %g MicrocentsPerCent =? 0 then 0 else 1).
Proof.
  intros Hm. pose proof (Z.quot_pos m MicrocentsPerCent ltac:(lia) ltac:(done)) as Hq.
  assert (m /g MicrocentsPerCent <= m) by (apply Z.quot_le_upper_bound; unfold MicrocentsPerCent; lia).
  assert (m /g MicrocentsPerCent < MaxInt64) as Hlt.
  { apply Z.quot_lt_upper_bound; unfold MicrocentsPerCent, MaxInt64 in *; lia. }
  unfold CeilCents. destruct (Z.ltb_spec m 0); [lia |].
  destruct (m %g MicrocentsPerCent =? 0); cbn [negb]; intros [= <-]; [lia |].
  rewrite wrap64_id by int64_lia. lia.
Qed.

Lemma amount_ok_check c m : amount_ok c m -> exact_check c m = true.
Proof.
  intros [Hc Hm]. destruct m as [m|]; [| done]. destruct Hm as [Hr Hm]. cbn [exact_check].
  apply CeilCents_check in Hm as [_ ->]; [| done]. destruct (Z.leb_spec 0 m); [| lia]. cbn [andb]. by apply Z.eqb_eq.
Qed.

Lemma amount_ok_nonneg c m : amount_ok c m -> 0 <= coalesce_micro c m.
Proof. intros [Hc Hm]. destruct m as [m|]; cbn; unfold MicrocentsPerCent; lia. Qed.

Lemma amount_ok_zero : amount_ok 0 (Some 0).
Proof. split; [done |]. split; [unfold MaxInt64; lia | done]. Qed.

Lemma amount_ok_ceil c m : amount_ok c (Some m) -> default 0 (CeilCents m) = c.
Proof. by intros [_ [_ ->]]. Qed.

Lemma normalizeCost_inv e e' :
  entry_int64 e -> normalizeCost e = Ok e' ->
  exists c, e' = set_cost e c (ue_CostMicrocents e) /\ amount_ok c (ue_CostMicrocents e).
Proof.
  unfold normalizeCost, entry_int64, amount_ok. destruct (Z.ltb_spec (ue_CostCents e) 0); [done |]. cbn [orb].
  destruct (ue_CostMicrocents e) as [m|] eqn:Em.
  - intros Hm. destruct (Z.ltb_spec m 0); [done |]. intros [= <-].
    destruct (CeilCents_total m ltac:(lia)) as [c Hc]. rewrite Hc. exists c. split; [done |].
    split; [| done]. by apply CeilCents_check in Hc as [? _].
  - intros _ [= <-]. exists (ue_CostCents e). split; [| done]. rewrite <- Em. by destruct e.
Qed.

(** ** The parts of a finalization *)

Lemma finalize_pending_inv now rid j e rec d d' rc :
  jr_state j = Pending -> finalizeJournal now rid j e rec d = Ok (d', rc) ->
  exists e0 e1 t1 t2 id, accounted_entry now rid j e rec = Ok e0 /\
    settle_entry rid (jr_started j) e0 (db_tables d) = Ok (e1, t1) /\
    insertUsage now e1 t1 = Ok (t2, id) /\
    d' = mkDatabase t2 (<[rid := mkJournalRow (jr_team_id j) (jr_entry j) (jr_started j)
           (jr_recover_after j) Complete (Some id) (jr_created_at j)]> (db_journal d)) /\
    rc = mkUsageReceipt id (ue_CostCents e1) (EffectiveMicrocents (ue_CostCents e1) (ue_CostMicrocents e1))
           (ue_Accounting e1).
Proof.
  intros Hp. unfold finalizeJournal. destruct (negb rec && _); [done |].
  rewrite bool_decide_false by congruence. intros H. bind_inv. destruct r0 as [e1 t1]. cbn in H. bind_inv.
  destruct r0 as [t2 id]. injection H as <- <-. exists r, e1, t1, t2, id. done.
Qed.

(** What an entry is accounted at before the reservation is looked at. *)
Lemma accounted_entry_inv now rid j e (rec : bool) e0 :
  entry_int64 (if rec then jr_entry j else e) -> accounted_entry now rid j e rec = Ok e0 ->
  ue_AccountingID e0 = rid /\ ue_RequestID e0 = rid /\ amount_ok (ue_CostCents e0) (ue_CostMicrocents e0) /\
  ue_TeamID e0 = ue_TeamID (if rec then jr_entry j else e) /\
  (jr_started j = false ->
     ue_CostCents e0 = 0 /\ ue_CostMicrocents e0 = Some 0 /\ ue_Accounting e0 = "not_billable") /\
  (jr_started j = true -> ue_CostMicrocents e0 = ue_CostMicrocents (if rec then jr_entry j else e) /\
     (rec = true -> ue_Accounting e0 =
        if (ue_Accounting (jr_entry j) =? "not_billable")%string then "not_billable" else "unknown")).
Proof.
  intros Hi. unfold accounted_entry. destruct (jr_started j); cbn [negb]; intros H.
  - apply normalizeCost_inv in H as (c & -> & Hc); [| by destruct rec].
    split_and!; try done; try (by destruct rec).
    intros _. split; [by destruct rec |]. intros ->. cbn. unfold classifyAccounting. cbn.
    destruct (String.eqb_spec (ue_Accounting (jr_entry j)) "not_billable") as [->|]; done.
  - apply normalizeCost_inv in H as (c & -> & Hc); [| cbn; unfold MaxInt64; lia].
    cbn in Hc |- *. destruct Hc as [_ [_ [= <-]]].
    split_and!; try done; try apply amount_ok_zero. by destruct rec.
Qed.

(** The settlement keeps the identity of the entry, and what it accounts is
    what the reservation is settled at. *)
Lemma settle_entry_inv rid st e0 t e1 t1 :
  (forall r, tb_reservations t !! rid = Some r ->
     amount_ok (rs_estimated_cents r) (rs_estimated_micro r) /\
     amount_ok (rs_settled_cents r) (rs_settled_micro r)) ->
  amount_ok (ue_CostCents e0) (ue_CostMicrocents e0) ->
  settle_entry rid st e0 t = Ok (e1, t1) ->
  tb_usage t1 = tb_usage t /\ amount_ok (ue_CostCents e1) (ue_CostMicrocents e1) /\
  (exists c m a, e1 = set_accounting (set_cost e0 c m) a) /\ (exact t -> exact t1) /\
  match tb_reservations t !! rid with
  | None => e1 = e0 /\ t1 = t
  | Some r =>
      match rs_status r with
      | Reserved =>
          tb_reservations t1 = <[rid := settled r (ue_CostCents e1) (ue_CostMicrocents e1)]> (tb_reservations t) /\
          (st = true -> ue_Accounting e0 ∈ ["unknown"; "estimated"; "unpriced"] ->
           ue_CostCents e1 = rs_estimated_cents r /\ ue_CostMicrocents e1 = rs_estimated_micro r) /\
          (st && bool_decide (ue_Accounting e0 ∈ ["unknown"; "estimated"; "unpriced"]) = false -> e1 = e0)
      | Settled =>
          t1 = t /\ ue_CostCents e1 = rs_settled_cents r /\ ue_CostMicrocents e1 = rs_settled_micro r
      | OtherStatus => t1 = t
      end
  end.
Proof.
  intros Hres Ha. unfold settle_entry. destruct (tb_reservations t !! rid) as [r|] eqn:Hr.
  2: { intros [= <- <-]. split_and!; try done. exists (ue_CostCents e0), (ue_CostMicrocents e0), (ue_Accounting e0).
       by destruct e0. }
  destruct (Hres r eq_refl) as [Hest Hset]. case_bool_decide as Hst.
  { intros [= <- <-]. rewrite Hst. split_and!; try done.
    exists (rs_settled_cents r), (rs_settled_micro r).
    case_match; [by exists "estimated" | exists (ue_Accounting e0); by destruct e0]. }
  set (b := st && _). set (e := if b then _ else e0).
  assert (amount_ok (ue_CostCents e) (ue_CostMicrocents e)) as Hae by (unfold e; destruct b; done).
  assert (exists c m a, e = set_accounting (set_cost e0 c m) a) as He.
  { unfold e. destruct b; [eexists _, _, _; reflexivity |].
    exists (ue_CostCents e0), (ue_CostMicrocents e0), (ue_Accounting e0). by destruct e0. }
  destruct (settle_reservation rid _ _ t) as [[t' b']|] eqn:Es; [| done]. intros [= <- <-].
  pose proof (fun Hx => settle_reservation_exact _ _ _ _ _ _ Hx Es) as Hex.
  apply settle_reservation_inv in Es as [Hu Hcase]. split_and!; try done.
  destruct (rs_status r) eqn:Hrs; [| done |].
  - destruct Hcase as [(_ & _ & Hn) | (_ & _ & r0 & Hr0 & _ & Hins)]; [by destruct (Hn r Hr) |].
    replace r0 with r in Hins by congruence. split_and!; [done | |].
    + intros -> Hin. unfold e, b. rewrite bool_decide_true by done. done.
    + intros Hb. unfold e. by rewrite Hb.
  - destruct Hcase as [(_ & -> & _) | (_ & _ & r0 & Hr0 & Hs0 & _)]; [done | congruence].
Qed.

Lemma classifyAccounting_not_blank e : classifyAccounting e <> "".
Proof.
  unfold classifyAccounting. destruct (String.eqb_spec (ue_Accounting e) ""); cbn [negb]; [| done].
  repeat case_match; done.
Qed.

(** Whatever is written has an accounting state. *)
Lemma accounted_not_blank now rid j e rec e0 st t e1 t1 :
  accounted_entry now rid j e rec = Ok e0 -> settle_entry rid st e0 t = Ok (e1, t1) -> ue_Accounting e1 <> "".
Proof.
  intros Hacc Hset. assert (ue_Accounting e0 <> "") as H0.
  { revert Hacc. unfold accounted_entry, normalizeCost. set (x := if negb (jr_started j) then _ else _).
    assert (ue_Accounting x <> "") as Hx.
    { unfold x. destruct (negb (jr_started j)); [done |]. apply classifyAccounting_not_blank. }
    destruct (_ || _); [done |]. destruct (ue_CostMicrocents x); intros [= <-]; done. }
  revert Hset. unfold settle_entry. destruct (tb_reservations t !! rid) as [r|]; [| by intros [= <- _]].
  case_bool_decide.
  - intros [= <- _]. cbn. case_match; done.
  - destruct (settle_reservation _ _ _ t) as [[t' b]|]; [| done]. intros [= <- _]. case_match; done.
Qed.

(** A row is written only when the [INT] columns take its values. *)
Lemma insertUsage_columns now e t r : insertUsage now e t = Ok r -> int4_columns e = true.
Proof.
  unfold insertUsage.
  set (e1 := if (ue_Accounting e =? "")%string then _ else e). set (e2 := if IsZero (ue_Ts e1) then _ else e1).
  destruct (match ue_CostMicrocents e2 with Some m => m <? 0 | None => false end); [done |].
  set (e3 := match ue_CostMicrocents e2 with Some m => _ | None => e2 end).
  assert (int4_columns e3 = int4_columns e) as ->.
  { unfold e3, e2, e1. destruct (ue_Accounting e =? "")%string, (IsZero _), (ue_CostMicrocents _); done. }
  by destruct (int4_columns e).
Qed.

(** No row has the accounting id of the entry yet. *)
Definition fresh_usage (e : UsageEntry) (t : tables) : Prop :=
  ue_AccountingID e = "" \/ forall v, v ∈ tb_usage t -> ur_accounting_id v <> Some (ue_AccountingID e).

Lemma upsert_fresh_entry e t u :
  fresh_usage e t -> ur_accounting_id u = (if (ue_AccountingID e =? "")%string then None else Some (ue_AccountingID e)) ->
  upsert_usage_row u t = insert_usage_row u t.
Proof.
  intros Hf Hu. apply upsert_fresh. intros v Hv. rewrite Hu. destruct Hf as [-> | Hf]; [by left |].
  destruct (ue_AccountingID e =? "")%string; [by left |]. right. by apply Hf.
Qed.

Lemma insertUsage_inv now e t t' id :
  amount_ok (ue_CostCents e) (ue_CostMicrocents e) -> fresh_usage e t -> insertUsage now e t = Ok (t', id) ->
  exists u, insert_usage_row u t = Some (t', id) /\ ur_request_id u = ue_RequestID e /\
    ur_accounting_id u = (if (ue_AccountingID e =? "")%string then None else Some (ue_AccountingID e)) /\
    ow_team (ur_owner u) = ue_TeamID e /\ ur_cost_cents u = ue_CostCents e /\
    ur_cost_micro u = ue_CostMicrocents e /\
    ur_accounting u = (if (ue_Accounting e =? "")%string then "legacy" else ue_Accounting e).
Proof.
  intros Ha Hfresh. unfold insertUsage.
  set (e1 := if (ue_Accounting e =? "")%string then _ else e). set (e2 := if IsZero (ue_Ts e1) then _ else e1).
  assert (ue_CostMicrocents e2 = ue_CostMicrocents e /\ ue_CostCents e2 = ue_CostCents e /\
    ue_RequestID e2 = ue_RequestID e /\ ue_AccountingID e2 = ue_AccountingID e /\ ue_TeamID e2 = ue_TeamID e /\
    ue_Accounting e2 = if (ue_Accounting e =? "")%string then "legacy" else ue_Accounting e)
    as (Em & Ec & Er & Ei & Et & Eacc).
  { unfold e2, e1. destruct (ue_Accounting e =? "")%string, (IsZero _); done. }
  destruct (match ue_CostMicrocents e2 with Some m => m <? 0 | None => false end); [done |].
  set (e3 := match ue_CostMicrocents e2 with Some m => _ | None => e2 end).
  assert (ue_CostMicrocents e3 = ue_CostMicrocents e /\ ue_CostCents e3 = ue_CostCents e /\
    ue_RequestID e3 = ue_RequestID e /\ ue_AccountingID e3 = ue_AccountingID e /\ ue_TeamID e3 = ue_TeamID e /\
    ue_Accounting e3 = ue_Accounting e2) as (Em' & Ec' & Er' & Ei' & Et' & Eacc').
  { unfold e3. rewrite Em. destruct (ue_CostMicrocents e) as [m|] eqn:E; [| done].
    apply amount_ok_ceil in Ha. cbn. rewrite Ha. done. }
  destruct (negb (int4_columns e3)); [done |].
  rewrite (upsert_fresh_entry e t) by (done || cbn; by rewrite Ei').
  destruct (insert_usage_row _ t) as [[t1 id1]|] eqn:Eu; [| done]. intros [= <- <-].
  eexists. split; [exact Eu |]. cbn. rewrite Ei', Eacc', Eacc. done.
Qed.

(** The row of an entry that costs nothing or is reserved is always written. *)
Lemma insertUsage_succeeds now e t :
  amount_ok (ue_CostCents e) (ue_CostMicrocents e) ->
  (if (ue_Accounting e =? "")%string then "legacy" else ue_Accounting e) ∈ accounting_states ->
  (forall v, v ∈ tb_usage t -> ur_accounting_id v <> Some (ue_AccountingID e)) ->
  int4_columns e = true ->
  (ue_CostCents e = 0 \/ has_reservation (tb_reservations t) (ue_RequestID e) (ue_TeamID e) = true) ->
  exists t' id, insertUsage now e t = Ok (t', id).
Proof.
  intros Ha Hs Huniq Hint Hz. unfold insertUsage.
  set (e1 := if (ue_Accounting e =? "")%string then _ else e). set (e2 := if IsZero (ue_Ts e1) then _ else e1).
  assert (exists a ts, e2 = set_ts (set_accounting e a) ts /\ a = (if (ue_Accounting e =? "")%string then "legacy" else ue_Accounting e)) as (a & ts & -> & Hacc).
  { exists (ue_Accounting e1), (ue_Ts e2). unfold e2, e1.
    destruct (ue_Accounting e =? "")%string, (IsZero _); split; by destruct e. }
  rewrite <- Hacc in Hs. cbn [set_ts set_accounting ue_CostMicrocents].
  assert (match ue_CostMicrocents e with Some m => m <? 0 | None => false end = false) as ->.
  { destruct Ha as [_ Ha]. destruct (ue_CostMicrocents e); [lia | done]. }
  set (e3 := match ue_CostMicrocents e with Some m => _ | None => _ end).
  assert (e3 = set_ts (set_accounting e a) ts) as ->.
  { unfold e3. destruct (ue_CostMicrocents e) as [m|] eqn:E; [| done]. apply amount_ok_ceil in Ha.
    rewrite Ha, <- E. done. }
  change (int4_columns (set_ts (set_accounting e a) ts)) with (int4_columns e). rewrite Hint. cbn [negb].
  rewrite (upsert_fresh_entry e t) by (done || by right).
  rewrite insert_usage_row_succeeds; [eauto | | done | | done].
  - by apply amount_ok_check.
  - cbn. intros x v. destruct (ue_AccountingID e =? "")%string; [done |]. intros [= <-]. apply Huniq.
Qed.

(** ** What can happen to the database *)

(** The intent the gateway writes: an exact zero until priced, and no tokens
    ([api/accounting.go], [beginAccounting]). *)
Definition intent (e : UsageEntry) : Prop :=
  ue_CostCents e = 0 /\ ue_CostMicrocents e = Some 0 /\
  (ue_Accounting e = "" \/ ue_Accounting e = "not_billable") /\
  ue_PromptTokens e = 0 /\ ue_CompletionTokens e = 0 /\ ue_TotalTokens e = 0.

(** An admission is for the team that journaled the request. *)
Definition journaled_team (req : AdmissionRequest) (d : database) : Prop :=
  forall team j, ar_Team req = Some team -> db_journal d !! ar_RequestID req = Some j ->
  ue_TeamID (jr_entry j) = tm_ID team.

Inductive event : database -> database -> Prop :=
| ev_begin ok end_ now db_now e remaining d d' res :
    intent e -> BeginAccounting ok end_ now db_now e remaining d = (d', res) -> event d d'
| ev_start ok end_ db_now id d d' res :
    MarkAccountingStarted ok end_ db_now id d = (d', res) -> event d d'
| ev_admit ok end_ now db_now rows req d t res :
    tokens_ok req -> journaled_team req d ->
    Admit ok end_ now db_now rows req (db_tables d) = (t, res) -> event d (mkDatabase t (db_journal d))
| ev_settle ok id micro d t res :
    micro <= MaxInt64 -> Settle ok id micro (db_tables d) = (t, res) -> event d (mkDatabase t (db_journal d))
| ev_settle_estimated ok id d t res :
    SettleEstimated ok id (db_tables d) = (t, res) -> event d (mkDatabase t (db_journal d))
| ev_finalize ok end_ now e d d' res :
    entry_int64 e -> FinalizeUsage ok end_ now e d = (d', res) -> event d d'
| ev_reconcile ok end_ locked now db_now d d' res :
    ReconcileAccounting ok end_ locked now db_now d = (d', res) -> event d d'.

Definition empty_database : database := mkDatabase empty_tables ∅.

Definition reachable (d : database) : Prop := rtc event empty_database d.

(** ** The invariant *)

Definition reservation_ok (r : reservation) : Prop :=
  amount_ok (rs_estimated_cents r) (rs_estimated_micro r) /\ amount_ok (rs_settled_cents r) (rs_settled_micro r).

Record consistent (d : database) : Prop := {
  c_exact : exact (db_tables d);
  c_reservations : forall id r, tb_reservations (db_tables d) !! id = Some r -> reservation_ok r;
  c_usage : forall u, u ∈ tb_usage (db_tables d) -> amount_ok (ur_cost_cents u) (ur_cost_micro u);
  c_journal : forall id j, db_journal d !! id = Some j -> id <> "" /\ intent (jr_entry j) /\
    forall r, tb_reservations (db_tables d) !! id = Some r -> ow_team (rs_owner r) = ue_TeamID (jr_entry j);
  c_complete : forall id j, db_journal d !! id = Some j -> jr_state j = Complete ->
    exists i u, jr_usage_id j = Some (Z.of_nat i + 1) /\ tb_usage (db_tables d) !! i = Some u /\
      ur_accounting_id u = Some id;
  c_recorded : forall i u id, tb_usage (db_tables d) !! i = Some u -> ur_accounting_id u = Some id ->
    exists j, db_journal d !! id = Some j /\ jr_state j = Complete /\ jr_usage_id j = Some (Z.of_nat i + 1);
}.

Lemma consistent_empty : consistent empty_database.
Proof.
  split; cbn.
  - apply empty_exact.
  - intros id r. rewrite lookup_empty. discriminate.
  - intros u Hu. by apply not_elem_of_nil in Hu.
  - intros id j. rewrite lookup_empty. discriminate.
  - intros id j. rewrite lookup_empty. discriminate.
  - intros i u id. rewrite lookup_nil. discriminate.
Qed.

Lemma consistent_nonneg d : consistent d -> charges_nonneg (db_tables d).
Proof.
  intros H. split.
  - intros id r Hr. destruct (c_reservations d H id r Hr) as [He Hs]. unfold reservation_charge.
    destruct (rs_status r); [by apply amount_ok_nonneg | by apply amount_ok_nonneg | lia].
  - intros u Hu. by apply amount_ok_nonneg, (c_usage d H).
Qed.

(** Only reservations change. *)
Lemma consistent_reservations d t :
  consistent d -> exact t -> tb_usage t = tb_usage (db_tables d) ->
  (forall id r, tb_reservations t !! id = Some r -> reservation_ok r) ->
  (forall id r j, tb_reservations t !! id = Some r -> db_journal d !! id = Some j ->
     ow_team (rs_owner r) = ue_TeamID (jr_entry j)) ->
  consistent (mkDatabase t (db_journal d)).
Proof.
  intros H Hex Hu Hres Hteam. split; cbn; rewrite ?Hu; try apply H; [done | done |].
  intros id j Hj. destruct (c_journal d H id j Hj) as (? & ? & _). eauto.
Qed.

Lemma consistent_settle d id cents micro t b :
  consistent d -> amount_ok cents micro -> settle_reservation id cents micro (db_tables d) = Some (t, b) ->
  consistent (mkDatabase t (db_journal d)).
Proof.
  intros H Ha Es. pose proof (settle_reservation_exact _ _ _ _ _ _ (c_exact d H) Es) as Hex.
  apply settle_reservation_inv in Es as [Hu [(_ & -> & _) | (_ & _ & r & Hr & _ & Hins)]]; [by destruct d |].
  apply consistent_reservations; try done.
  - intros id' r'. rewrite Hins. intros [[<- <-] | [_ Hr']]%lookup_insert_Some; [| by eapply c_reservations].
    split; [apply (c_reservations d H id r Hr) | done].
  - intros id' r' j. rewrite Hins. intros [[<- <-] | [_ Hr']]%lookup_insert_Some Hj;
      destruct (c_journal d H _ j Hj) as (_ & _ & Ht); eauto. by apply (Ht r).
Qed.

Lemma Admit_inv ok end_ now db_now rows req t t' res :
  tokens_ok req -> Admit ok end_ now db_now rows req t = (t', res) ->
  t' = t \/ exists r team, ar_Team req = Some team /\ insert_reservation r t = Some t' /\
    rs_request_id r = ar_RequestID req /\ reservation_ok r /\ ow_team (rs_owner r) = tm_ID team.
Proof.
  intros [Hp Hc]. unfold Admit. destruct (ar_Team req) as [team|]; [| intros [= <- _]; by left].
  destruct (_ || _); [intros [= <- _]; by left |]. destruct (match ar_Customer req with Some _ => _ | None => _ end);
    [intros [= <- _]; by left |].
  destruct (budget_scopes team req) as [| s ss]; [intros [= <- _]; by left |].
  destruct (maxEstimatedCost _ _ _ _ _) as [est|] eqn:Ee; [| intros [= <- _]; by left].
  apply maxEstimatedCost_Ok in Ee as (_ & Hrange & _); [| done..].
  destruct (negb _ || negb _); [intros [= <- _]; by left |].
  destruct (check_scopes _ _ _ _ _); [| intros [= <- _]; by left].
  destruct (CeilCents est) as [cents|] eqn:Ecents; [| intros [= <- _]; by left].
  destruct (if ok CallInsert then _ else None) as [t1|] eqn:Ei; [| intros [= <- _]; by left].
  destruct (ok CallInsert); [| done].
  assert (t' = t \/ t' = t1 -> t' = t \/ exists r team0, Some team = Some team0 /\ insert_reservation r t = Some t' /\
    rs_request_id r = ar_RequestID req /\ reservation_ok r /\ ow_team (rs_owner r) = tm_ID team0) as Hgo.
  { intros [-> | ->]; [by left | right]. eexists _, team. split_and!; [done | exact Ei | done | | done].
    split; [| split; [done |]; done]. split; [by apply CeilCents_check in Ecents as [? _] | done]. }
  destruct end_; intros [= <- _]; auto.
Qed.

Lemma consistent_admit ok end_ now db_now rows req d t res :
  consistent d -> tokens_ok req -> journaled_team req d ->
  Admit ok end_ now db_now rows req (db_tables d) = (t, res) -> consistent (mkDatabase t (db_journal d)).
Proof.
  intros H Htok Hteam Ha. apply Admit_inv in Ha as [-> | (r & team & Et & Ei & Hid & Hok & Ho)]; [by destruct d | | done].
  pose proof (insert_reservation_exact _ _ _ (c_exact d H) Ei) as Hex.
  apply insert_reservation_inv in Ei as (_ & Hins & Hu & _). apply consistent_reservations; try done.
  - intros id r'. rewrite Hins. intros [[_ <-] | [_ Hr']]%lookup_insert_Some; [done | by eapply c_reservations].
  - intros id r' j. rewrite Hins, Hid. intros [[<- <-] | [_ Hr']]%lookup_insert_Some Hj.
    + rewrite Ho. symmetry. by apply Hteam.
    + destruct (c_journal d H id j Hj) as (_ & _ & Ht). eauto.
Qed.

(** A usage row without a journal entry. *)
Lemma consistent_usage d u t id :
  consistent d -> amount_ok (ur_cost_cents u) (ur_cost_micro u) -> ur_accounting_id u = None ->
  insert_usage_row u (db_tables d) = Some (t, id) -> consistent (mkDatabase t (db_journal d)).
Proof.
  intros H Ha Hn Eu. pose proof (insert_usage_row_exact _ _ _ _ (c_exact d H) Eu) as Hex.
  apply insert_usage_row_inv in Eu as (Hr & Hu & _). split; cbn; rewrite ?Hr, ?Hu; try apply H; [done | | |].
  - intros v [Hv | ->%list_elem_of_singleton]%elem_of_app; [by apply H | done].
  - intros id' j Hj Hc. destruct (c_complete d H id' j Hj Hc) as (i & v & Hi & Hv & Hva).
    exists i, v. split_and!; [done | by apply lookup_app_l_Some | done].
  - intros i v id' [[_ Hv] | [_ <-]]%lookup_snoc_Some Hva; [by eapply c_recorded | congruence].
Qed.

(** The usage row of a journaled request, with the entry completed. *)
Lemma consistent_record d u t id rid j :
  consistent d -> amount_ok (ur_cost_cents u) (ur_cost_micro u) -> ur_accounting_id u = Some rid ->
  insert_usage_row u (db_tables d) = Some (t, id) ->
  db_journal d !! rid = Some j -> jr_state j = Pending ->
  consistent (mkDatabase t (<[rid := mkJournalRow (jr_team_id j) (jr_entry j) (jr_started j)
    (jr_recover_after j) Complete (Some id) (jr_created_at j)]> (db_journal d))).
Proof.
  intros H Ha Hn Eu Hj Hp. pose proof (insert_usage_row_exact _ _ _ _ (c_exact d H) Eu) as Hex.
  apply insert_usage_row_inv in Eu as (Hr & Hu & Hid & _). split; cbn [db_tables db_journal]; rewrite ?Hr, ?Hu;
    try apply H; [done | | | |].
  - intros v [Hv | ->%list_elem_of_singleton]%elem_of_app; [by apply H | done].
  - intros id' j' [[<- <-] | [_ Hj']]%lookup_insert_Some; [apply (c_journal d H rid j Hj) | by apply H].
  - intros id' j' [[<- <-] | [_ Hj']]%lookup_insert_Some Hc.
    + exists (length (tb_usage (db_tables d))), u. cbn [jr_usage_id]. split_and!; [congruence | | done].
      by apply list_lookup_middle.
    + destruct (c_complete d H id' j' Hj' Hc) as (i & v & Hi & Hv & Hva).
      exists i, v. split_and!; [done | by apply lookup_app_l_Some | done].
  - intros i v id' [[_ Hv] | [-> <-]]%lookup_snoc_Some Hva.
    + destruct (c_recorded d H i v id' Hv Hva) as (j' & Hj' & Hc & Hi). exists j'.
      rewrite lookup_insert_ne by congruence. done.
    + replace id' with rid by congruence. eexists. rewrite lookup_insert_eq. split_and!; [done.. |].
      cbn. congruence.
Qed.

Lemma settle_entry_tables rid st e0 t e1 t1 :
  settle_entry rid st e0 t = Ok (e1, t1) ->
  t1 = t \/ exists b, settle_reservation rid (ue_CostCents e1) (ue_CostMicrocents e1) t = Some (t1, b).
Proof.
  unfold settle_entry. destruct (tb_reservations t !! rid) as [r|]; [| intros [= _ <-]; by left].
  case_bool_decide; [intros [= _ <-]; by left |].
  destruct (settle_reservation _ _ _ t) as [[t' b]|] eqn:Es; [| done]. intros [= <- <-]. eauto.
Qed.

Lemma consistent_settle_entry d rid st e0 e1 t1 :
  consistent d -> amount_ok (ue_CostCents e0) (ue_CostMicrocents e0) ->
  settle_entry rid st e0 (db_tables d) = Ok (e1, t1) -> consistent (mkDatabase t1 (db_journal d)).
Proof.
  intros H Ha He. pose proof (settle_entry_tables _ _ _ _ _ _ He) as Ht.
  apply settle_entry_inv in He as (_ & Ha1 & _); [| apply (c_reservations d H) | done].
  destruct Ht as [-> | [b Hb]]; [by destruct d | by eapply consistent_settle].
Qed.

(** The record updates of the settlement, read back. *)
Lemma settled_shape e0 e1 :
  (exists c m a, e1 = set_accounting (set_cost e0 c m) a) ->
  ue_AccountingID e1 = ue_AccountingID e0 /\ ue_RequestID e1 = ue_RequestID e0 /\ ue_TeamID e1 = ue_TeamID e0.
Proof. by intros (c & m & a & ->). Qed.

(** No usage row has the id of a pending entry. *)
Lemma pending_fresh d rid j v :
  consistent d -> db_journal d !! rid = Some j -> jr_state j = Pending -> v ∈ tb_usage (db_tables d) ->
  ur_accounting_id v <> Some rid.
Proof.
  intros H Hj Hp [i Hv]%list_elem_of_lookup Hva.
  destruct (c_recorded d H i v rid Hv Hva) as (j' & Hj' & Hc & _). congruence.
Qed.

(** A successful finalization of a pending entry, in one statement. *)
Lemma finalize_spec now rid j e (rec : bool) d d' rc :
  consistent d -> db_journal d !! rid = Some j -> jr_state j = Pending ->
  entry_int64 (if rec then jr_entry j else e) -> finalizeJournal now rid j e rec d = Ok (d', rc) ->
  consistent d' /\
  (exists id, db_journal d' = <[rid := mkJournalRow (jr_team_id j) (jr_entry j) (jr_started j)
     (jr_recover_after j) Complete (Some id) (jr_created_at j)]> (db_journal d) /\
     receipt_of id (db_tables d') = Ok rc) /\
  exists e0 e1 u, accounted_entry now rid j e rec = Ok e0 /\
    tb_usage (db_tables d') = tb_usage (db_tables d) ++ [u] /\ ur_accounting_id u = Some rid /\
    ur_cost_cents u = ue_CostCents e1 /\ ur_cost_micro u = ue_CostMicrocents e1 /\
    (exists t1, settle_entry rid (jr_started j) e0 (db_tables d) = Ok (e1, t1) /\
       tb_reservations (db_tables d') = tb_reservations t1).
Proof.
  intros H Hj Hp Hi Hf. apply finalize_pending_inv in Hf as (e0 & e1 & t1 & t2 & id & Hacc & Hset & Hins & -> & ->);
    [| done]. destruct (c_journal d H rid j Hj) as (Hne & _ & _).
  destruct (accounted_entry_inv _ _ _ _ _ _ Hi Hacc) as (Eid & _ & Ha0 & _ & Hns & Hs).
  pose proof (consistent_settle_entry _ _ _ _ _ _ H Ha0 Hset) as H1.
  destruct (settle_entry_inv _ _ _ _ _ _ (c_reservations d H rid) Ha0 Hset) as (Hu & Ha1 & Hshape & _ & _).
  destruct (settled_shape _ _ Hshape) as (Eid1 & _ & _).
  apply insertUsage_inv in Hins as (u & Eu & _ & Haid & _ & Hc & Hm & Hacc1); [| done |].
  2: { right. intros v Hv. rewrite Hu in Hv. rewrite Eid1, Eid. by apply (pending_fresh d rid j v). }
  rewrite Eid1, Eid in Haid. destruct (String.eqb_spec rid ""); [done |].
  split; [| split].
  - apply (consistent_record (mkDatabase t1 (db_journal d)) u t2 id rid j); try done. by rewrite Hc, Hm.
  - exists id. split; [done |]. apply insert_usage_row_inv in Eu as (_ & Hu2 & -> & _). cbn [db_tables].
    unfold receipt_of. rewrite Hu2. replace (Z.to_nat _) with (length (tb_usage t1)) by lia.
    rewrite list_lookup_middle by done. destruct (Z.leb_spec (Z.of_nat (length (tb_usage t1)) + 1) 0); [lia |].
    rewrite Hc, Hm, Hacc1. do 2 f_equal.
    destruct (String.eqb_spec (ue_Accounting e1) ""); [| done]. exfalso.
    by eapply accounted_not_blank.
  - exists e0, e1, u. apply insert_usage_row_inv in Eu as (Hr2 & Hu2 & _). cbn [db_tables]. rewrite Hu2, Hu.
    split_and!; try done. exists t1. done.
Qed.

(** ** Every event keeps the invariant and what is complete *)

(** Usage is only appended, a completed entry stays as it is, and an entry
    keeps the time it was created at. *)
(** A row keeps its intent and its time, and stays started. *)
Definition continues (j j' : journal_row) : Prop :=
  jr_created_at j' = jr_created_at j /\ jr_entry j' = jr_entry j /\ (jr_started j = true -> jr_started j' = true).

#[export] Instance continues_preorder : PreOrder continues.
Proof.
  split; [by intros j |]. intros j1 j2 j3 (C1 & E1 & S1) (C2 & E2 & S2). split_and!; [congruence | congruence | auto].
Qed.

Definition extends (d d' : database) : Prop :=
  (exists k, tb_usage (db_tables d') = tb_usage (db_tables d) ++ k) /\
  (forall id j, db_journal d !! id = Some j -> jr_state j = Complete -> db_journal d' !! id = Some j) /\
  (forall id j, db_journal d !! id = Some j ->
     exists j', db_journal d' !! id = Some j' /\ continues j j').

Lemma extends_refl d : extends d d.
Proof. split; [exists []; by rewrite app_nil_r | split; [done |]]. intros id j Hj. by exists j. Qed.

Lemma extends_trans d1 d2 d3 : extends d1 d2 -> extends d2 d3 -> extends d1 d3.
Proof.
  intros ([k1 H1] & J1 & T1) ([k2 H2] & J2 & T2). split_and!; [| eauto |].
  - exists (k1 ++ k2). by rewrite H2, H1, app_assoc.
  - intros id j Hj. destruct (T1 id j Hj) as (j2 & Hj2 & E1). destruct (T2 id j2 Hj2) as (j3 & ? & E2). exists j3. split; [done | by etransitivity].
Qed.

Lemma extends_tables d t :
  tb_usage t = tb_usage (db_tables d) -> extends d (mkDatabase t (db_journal d)).
Proof. intros Hu. split; [exists []; by rewrite app_nil_r | split; [done |]]. intros id j Hj. by exists j. Qed.

Definition preserved (d d' : database) : Prop := consistent d' /\ extends d d'.

Lemma preserved_refl d : consistent d -> preserved d d.
Proof. split; [done | apply extends_refl]. Qed.

(** A branch that leaves the database alone. *)
Ltac unchanged :=
  match goal with |- _ = (_, _) -> _ => intros [= <- _] | H : (_, _) = (_, _) |- _ => injection H as <- _ end;
  first [by apply preserved_refl | match goal with d : database |- _ => destruct d; by apply preserved_refl end].

(** Whether or not the commit happened. *)
Lemma preserved_committed {A} end_ d d' (a : A) d1 res :
  consistent d -> preserved d d' -> committed end_ d d' a = (d1, res) -> preserved d d1.
Proof.
  intros H Hp. destruct end_; cbn; intros [= <- _]; [done | by apply preserved_refl | done].
Qed.

Lemma preserved_journal d id j j0 :
  consistent d -> db_journal d !! id = j0 -> (forall j', j0 = Some j' -> jr_state j' = Pending) ->
  (forall j', j0 = Some j' -> continues j' j) -> jr_state j = Pending -> id <> "" -> intent (jr_entry j) ->
  (forall r, tb_reservations (db_tables d) !! id = Some r -> ow_team (rs_owner r) = ue_TeamID (jr_entry j)) ->
  preserved d (mkDatabase (db_tables d) (<[id := j]> (db_journal d))).
Proof.
  intros H Hj0 Hpend Htime Hp Hne Hint Hteam. split; [split; cbn; try apply H |].
  - intros id' j' [[<- <-] | [_ Hj']]%lookup_insert_Some; [done | by apply H].
  - intros id' j' [[<- <-] | [_ Hj']]%lookup_insert_Some Hc; [congruence | by apply H].
  - intros i u id' Hu Ha. destruct (c_recorded d H i u id' Hu Ha) as (j' & Hj' & Hc & Hi).
    exists j'. rewrite lookup_insert_ne; [done |]. intros <-.
    pose proof (Hpend j' ltac:(congruence)). congruence.
  - split_and!; [exists []; by rewrite app_nil_r | |]; intros id' j' Hj'; cbn.
    + intros Hc. rewrite lookup_insert_ne; [done |]. intros <-. pose proof (Hpend j' ltac:(congruence)). congruence.
    + destruct (decide (id = id')) as [<-|]; [rewrite lookup_insert_eq | rewrite lookup_insert_ne by done; by eexists].
      exists j. split; [done |]. apply Htime. congruence.
Qed.

Lemma preserved_begin ok end_ now db_now e remaining d d' res :
  consistent d -> intent e -> BeginAccounting ok end_ now db_now e remaining d = (d', res) -> preserved d d'.
Proof.
  intros H Hint. unfold BeginAccounting. destruct (String.eqb_spec (ue_RequestID e) "") as [|Hne]; cbn [orb].
  { unchanged. }
  destruct (_ || _ || _); [unchanged |].
  destruct (24576 <? _); [unchanged |].
  destruct (negb ok); [unchanged |]. cbn [set_ts ue_RequestID].
  case_bool_decide as Hr; [unchanged |].
  case_bool_decide as Hj; [unchanged |]. cbn [orb].
  apply eq_None_not_Some in Hr, Hj.
  apply preserved_committed; [done |]. apply (preserved_journal d _ _ None); try done.
  intros r Hr'. cbn in Hr'. congruence.
Qed.

Lemma preserved_start ok end_ db_now id d d' res :
  consistent d -> MarkAccountingStarted ok end_ db_now id d = (d', res) -> preserved d d'.
Proof.
  intros H. unfold MarkAccountingStarted. destruct (negb ok); [unchanged |].
  destruct (db_journal d !! id) as [j|] eqn:Hj; [| unchanged].
  case_bool_decide as Hp; cbn [andb]; [| unchanged].
  destruct (db_now <? jr_recover_after j); [| unchanged].
  destruct (c_journal d H id j Hj) as (Hne & Hint & Hteam).
  apply preserved_committed; [done |]. apply (preserved_journal d _ _ (Some j)); try done.
  all: by intros j' [= <-].
Qed.

Lemma preserved_finalize now rid j e (rec : bool) d d' rc :
  consistent d -> db_journal d !! rid = Some j ->
  entry_int64 (if rec then jr_entry j else e) -> finalizeJournal now rid j e rec d = Ok (d', rc) ->
  preserved d d'.
Proof.
  intros H Hj Hi Hf. destruct (jr_state j) eqn:Hs.
  - destruct (finalize_spec _ _ _ _ _ _ _ _ H Hj Hs Hi Hf) as (H' & (id & Hjr & _) & (_ & _ & u & _ & Hu & _)).
    split; [done |]. split_and!; [by exists [u] | |]; intros id' j' Hj'; rewrite Hjr.
    + intros Hc. rewrite lookup_insert_ne; [done |]. intros <-. congruence.
    + destruct (decide (rid = id')) as [<-|]; [rewrite lookup_insert_eq | rewrite lookup_insert_ne by done; by eexists].
      replace j' with j by congruence. by eexists.
  - revert Hf. unfold finalizeJournal. destruct (negb rec && _); [done |]. rewrite bool_decide_true by done.
    destruct (jr_usage_id j); [| done]. destruct (receipt_of _ _); [| done]. cbn. intros [= <- _].
    by apply preserved_refl.
Qed.

(** The intent of a pending entry fits. *)
Lemma intent_int64 e : intent e -> entry_int64 e.
Proof. intros (_ & E & _). unfold entry_int64. rewrite E. unfold MaxInt64. lia. Qed.

(** What recovery accounts before it looks at the reservation. *)
Lemma recovered_accounted now rid j e :
  intent (jr_entry j) -> exists e0, accounted_entry now rid j e true = Ok e0 /\
    ue_AccountingID e0 = rid /\ ue_RequestID e0 = rid /\ ue_TeamID e0 = ue_TeamID (jr_entry j) /\
    ue_CostCents e0 = 0 /\ ue_CostMicrocents e0 = Some 0 /\
    ue_Accounting e0 = (if jr_started j && negb (ue_Accounting (jr_entry j) =? "not_billable")%string
                        then "unknown" else "not_billable").
Proof.
  intros Hint. assert (exists e0, accounted_entry now rid j e true = Ok e0) as [e0 He].
  { destruct Hint as (Hc & Hm & _). unfold accounted_entry, normalizeCost.
    destruct (jr_started j); cbn; rewrite ?Hc, ?Hm; eauto. }
  destruct (accounted_entry_inv _ _ _ _ true _ (intent_int64 _ Hint) He) as (? & ? & Ha & ? & Hns & Hs).
  assert (ue_CostMicrocents e0 = Some 0) as Hm.
  { destruct (jr_started j); [destruct (Hs eq_refl) as [-> _]; apply Hint | by apply Hns]. }
  rewrite Hm in Ha. destruct Ha as [_ [_ Ha]]. exists e0. split_and!; try done; [by injection Ha |].
  destruct (jr_started j); cbn [andb]; [| by apply Hns].
  destruct (Hs eq_refl) as [_ ->]; [| done]. by destruct (_ =? _)%string.
Qed.

(** The charge of a reservation after its request is recovered. *)
Definition recovered_charge (j : journal_row) (r : reservation) : Z :=
  match rs_status r with
  | Reserved =>
      if jr_started j && negb (ue_Accounting (jr_entry j) =? "not_billable")%string
      then reservation_charge r else 0
  | _ => reservation_charge r
  end.

(** Settling the recovered entry succeeds, at that charge. *)
Lemma recovered_settles d rid j e0 :
  consistent d -> ue_CostCents e0 = 0 -> ue_CostMicrocents e0 = Some 0 ->
  ue_Accounting e0 = (if jr_started j && negb (ue_Accounting (jr_entry j) =? "not_billable")%string
                      then "unknown" else "not_billable") ->
  exists e1 t1, settle_entry rid (jr_started j) e0 (db_tables d) = Ok (e1, t1) /\
    ue_Accounting e1 ∈ ["unknown"; "not_billable"; "estimated"] /\
    (forall id, id <> rid -> tb_reservations t1 !! id = tb_reservations (db_tables d) !! id) /\
    match tb_reservations (db_tables d) !! rid with
    | None => ue_CostCents e1 = 0 /\ tb_reservations t1 !! rid = None
    | Some r => exists r', tb_reservations t1 !! rid = Some r' /\ rs_owner r' = rs_owner r /\
        reservation_charge r' = recovered_charge j r
    end.
Proof.
  intros H Hc Hm Hacc. unfold settle_entry, recovered_charge.
  assert (ue_Accounting e0 ∈ ["unknown"; "not_billable"; "estimated"]) as Hin.
  { rewrite Hacc. case_match; set_solver. }
  destruct (tb_reservations (db_tables d) !! rid) as [r|] eqn:Hr.
  2: { exists e0, (db_tables d). done. }
  case_bool_decide as Hst.
  { eexists _, _. split; [done |]. split_and!; [| done |].
    - destruct (negb _ || _); [cbn; set_solver | done].
    - exists r. rewrite Hst. done. }
  destruct (c_reservations d H rid r Hr) as [Hest _].
  destruct (decide (rs_status r = Reserved)) as [Hres|Hres].
  2: { unfold settle_reservation. rewrite Hr, bool_decide_false by done. eexists _, _. split; [done |].
       split_and!; [| done |].
       { destruct (jr_started j && bool_decide _); [| done]. cbn [ue_Accounting set_accounting].
         rewrite !elem_of_cons. auto. }
       exists r. unfold reservation_charge. destruct (rs_status r); done. }
  rewrite Hres. set (b := jr_started j && negb _) in *.
  assert (jr_started j && bool_decide (ue_Accounting e0 ∈ ["unknown"; "estimated"; "unpriced"]) = b) as Hb.
  { rewrite Hacc. unfold b. by destruct (jr_started j), (ue_Accounting (jr_entry j) =? "not_billable")%string. }
  rewrite Hb. set (e1 := if b then _ else e0).
  assert (ue_CostCents e1 = (if b then rs_estimated_cents r else 0) /\
    ue_CostMicrocents e1 = (if b then rs_estimated_micro r else Some 0)) as [Ec Em].
  { unfold e1. destruct b; done. }
  pose proof (consistent_nonneg d H) as Hnn. pose proof (proj1 Hnn _ _ Hr) as Hr0.
  assert (reservation_charge r = coalesce_micro (rs_estimated_cents r) (rs_estimated_micro r)) as Hch.
  { unfold reservation_charge. by rewrite Hres. }
  destruct (settle_reservation_succeeds rid r (ue_CostCents e1) (ue_CostMicrocents e1) (db_tables d))
    as [t1 Ht1]; try done; try apply H.
  { rewrite Ec, Em. destruct b; [by apply amount_ok_check | done]. }
  { rewrite Ec, Em. destruct b; cbn [coalesce_micro]; lia. }
  rewrite Ht1. eexists _, _. split; [done |].
  apply settle_reservation_inv in Ht1 as [_ [(? & _) | (_ & _ & r0 & Hr0' & _ & Hins)]]; [done |].
  replace r0 with r in Hins by congruence. split_and!.
  - unfold e1. destruct b; [set_solver | done].
  - intros id Hid. by rewrite Hins, lookup_insert_ne.
  - eexists. rewrite Hins, lookup_insert_eq. split_and!; [done | done |].
    change (coalesce_micro (ue_CostCents e1) (ue_CostMicrocents e1) = if b then reservation_charge r else 0).
    rewrite Ec, Em. destruct b; [by rewrite Hch | done].
Qed.

(** The latency recovery records for an entry. *)
Definition recovered_latency (now : Z) (j : journal_row) : Z := Milliseconds (Sub now (ue_Ts (jr_entry j))).

(** What the entry that is written has in the [INT] columns. *)
Lemma recovered_columns now rid j e e0 st t e1 t1 :
  accounted_entry now rid j e true = Ok e0 -> settle_entry rid st e0 t = Ok (e1, t1) ->
  int4_columns e1 = forallb int4_ok [ue_PromptTokens (jr_entry j); ue_CompletionTokens (jr_entry j);
    ue_TotalTokens (jr_entry j); recovered_latency now j; 503].
Proof.
  intros Hacc Hset. transitivity (int4_columns e0).
  - revert Hset. unfold settle_entry. destruct (tb_reservations t !! rid) as [r|]; [| by intros [= <- _]].
    case_bool_decide.
    + intros [= <- _]. by destruct (negb _ || _).
    + destruct (settle_reservation _ _ _ t) as [[t' b]|]; [| done]. intros [= <- _]. by destruct (st && _).
  - revert Hacc. unfold accounted_entry, normalizeCost. destruct (jr_started j); cbn [negb];
      (destruct (_ || _); [done |]); destruct (ue_CostMicrocents _); by intros [= <-].
Qed.

(** Recovery of one pending entry succeeds when its latency fits the column. *)
Lemma recover_one now rid j d :
  consistent d -> db_journal d !! rid = Some j -> jr_state j = Pending ->
  int4_ok (recovered_latency now j) = true ->
  exists d' rc id, finalizeJournal now rid j zero_entry true d = Ok (d', rc) /\ preserved d d' /\
    db_journal d' = <[rid := mkJournalRow (jr_team_id j) (jr_entry j) (jr_started j)
      (jr_recover_after j) Complete (Some id) (jr_created_at j)]> (db_journal d) /\
    (forall k, k <> rid -> tb_reservations (db_tables d') !! k = tb_reservations (db_tables d) !! k) /\
    (forall r, tb_reservations (db_tables d) !! rid = Some r ->
       exists r', tb_reservations (db_tables d') !! rid = Some r' /\ reservation_charge r' = recovered_charge j r).
Proof.
  intros H Hj Hp Hlat. destruct (c_journal d H rid j Hj) as (Hne & Hint & Hteam).
  destruct (recovered_accounted now rid j zero_entry Hint) as (e0 & Hacc & Eid & Erid & Etm & Ec & Em & Eacc).
  destruct (recovered_settles d rid j e0 H Ec Em Eacc) as (e1 & t1 & Hset & Hst & Hother & Hcase).
  assert (amount_ok (ue_CostCents e0) (ue_CostMicrocents e0)) as Ha0 by (rewrite Ec, Em; apply amount_ok_zero).
  destruct (settle_entry_inv _ _ _ _ _ _ (c_reservations d H rid) Ha0 Hset) as (Hu & Ha1 & Hshape & _ & _).
  destruct (settled_shape _ _ Hshape) as (Eid1 & Erid1 & Etm1).
  assert (exists t2 id, insertUsage now e1 t1 = Ok (t2, id)) as (t2 & id & Hins).
  { apply insertUsage_succeeds; [done | | | |].
    - revert Hst. rewrite !elem_of_cons. intros [-> | [-> | [-> | Hn%elem_of_nil]]]; [cbn; set_solver.. | done].
    - intros v Hv. rewrite Hu in Hv. rewrite Eid1, Eid. by apply (pending_fresh d rid j v).
    - rewrite (recovered_columns _ _ _ _ _ _ _ _ _ Hacc Hset). destruct Hint as (_ & _ & _ & -> & -> & ->).
      cbn [forallb]. by rewrite Hlat.
    - rewrite Erid1, Erid, Etm1, Etm. unfold has_reservation.
      destruct (tb_reservations (db_tables d) !! rid) as [r|] eqn:Hr.
      + right. destruct Hcase as (r' & -> & Ho & _). rewrite Ho, (Hteam r eq_refl). apply Z.eqb_refl.
      + left. apply Hcase. }
  assert (exists d' rc, finalizeJournal now rid j zero_entry true d = Ok (d', rc)) as (d' & rc & Hf).
  { unfold finalizeJournal. cbn [negb andb]. rewrite bool_decide_false by congruence. rewrite Hacc. cbn [mbind result_bind].
    rewrite Hset. cbn. rewrite Hins. cbn. eauto. }
  destruct (finalize_spec _ _ _ _ true _ _ _ H Hj Hp (intent_int64 _ Hint) Hf)
    as (H' & (id' & Hjr & _) & (e0' & e1' & u & Hacc' & _ & _ & _ & _ & (t1' & Hset' & Hres))).
  rewrite Hacc in Hacc'. injection Hacc' as <-. rewrite Hset in Hset'. injection Hset' as <- <-.
  exists d', rc, id'. split_and!; [done | by eapply (preserved_finalize now rid j zero_entry true d d' rc); try done; apply intent_int64 | done | |].
  - intros k Hk. rewrite Hres. by apply Hother.
  - intros r Hr. rewrite Hres. rewrite Hr in Hcase. destruct Hcase as (r' & ? & _ & ?). eauto.
Qed.

(** The entries of a batch are pending and distinct. *)
Definition batch_ok (d : database) (batch : list (string * journal_row)) : Prop :=
  NoDup batch.*1 /\ forall id j, (id, j) ∈ batch -> db_journal d !! id = Some j /\ jr_state j = Pending.

Lemma elem_of_List_filter {A} (f : A -> bool) l x : x ∈ List.filter f l <-> x ∈ l /\ f x = true.
Proof. rewrite !list_elem_of_In. apply filter_In. Qed.

Lemma NoDup_List_filter {A B} (f : A -> bool) (g : A -> B) l : NoDup (g <$> l) -> NoDup (g <$> List.filter f l).
Proof.
  induction l as [| x l IH]; cbn; [done |]. intros [Hx Hl]%NoDup_cons. destruct (f x); [| auto]. cbn.
  apply NoDup_cons. split; [| auto]. intros (y & E & [Hy _]%elem_of_List_filter)%list_elem_of_fmap.
  apply Hx. rewrite E. by apply list_elem_of_fmap_2.
Qed.

Lemma recovery_batch_ok locked db_now d : batch_ok d (recovery_batch locked db_now d).
Proof.
  unfold recovery_batch. set (l := List.filter _ _). set (s := merge_sort recovery_le l).
  assert (s ≡ₚ l) as Hs by apply merge_sort_Permutation. split.
  - apply (sublist_NoDup _ s.*1).
    + rewrite Hs. apply NoDup_List_filter, NoDup_fst_map_to_list.
    + rewrite fmap_take. apply sublist_take.
  - intros id j Hin. apply (elem_of_sublist _ s) in Hin; [| apply sublist_take].
    rewrite Hs in Hin. apply elem_of_List_filter in Hin as [Hin [Hd _]%andb_true_iff].
    apply elem_of_map_to_list in Hin. unfold due in Hd. apply andb_true_iff in Hd as [Hp%bool_decide_eq_true _]. done.
Qed.

(** A batch that is recovered keeps the invariant and touches no other entry. *)
Lemma reconcile_all_preserved now batch d d' :
  consistent d -> batch_ok d batch -> reconcile_all now batch d = Ok d' ->
  preserved d d' /\ forall id, id ∉ batch.*1 -> db_journal d' !! id = db_journal d !! id.
Proof.
  revert d. induction batch as [| [rid j] batch IH]; intros d H [Hnd Hall]; cbn [reconcile_all].
  { intros [= <-]. split; [by apply preserved_refl | done]. }
  cbn in Hnd. apply NoDup_cons in Hnd as [Hni Hnd]. destruct (Hall rid j ltac:(set_solver)) as [Hj Hp].
  destruct (c_journal d H rid j Hj) as (_ & Hint & _).
  destruct (finalizeJournal now rid j zero_entry true d) as [[d1 rc]|] eqn:Hf; [| done]. cbn. intros E.
  destruct (finalize_spec _ _ _ _ true _ _ _ H Hj Hp (intent_int64 _ Hint) Hf) as (H1 & (uid & Hjr & _) & _).
  destruct (preserved_finalize _ _ _ _ true _ _ _ H Hj (intent_int64 _ Hint) Hf) as [_ X1].
  destruct (IH d1) as [[H2 X2] Hrest]; [done | | done |].
  { split; [done |]. intros id j' Hin. destruct (Hall id j' ltac:(set_solver)) as [Hj' Hp'].
    rewrite Hjr, lookup_insert_ne; [done |]. intros <-. apply Hni, list_elem_of_fmap. by exists (rid, j'). }
  split; [split; [done | by eapply extends_trans] |]. intros id [Hid Hin]%not_elem_of_cons.
  by rewrite (Hrest id Hin), Hjr, lookup_insert_ne by done.
Qed.

(** A whole batch is recovered when the latencies fit their column. *)
Lemma reconcile_all_spec now batch d :
  consistent d -> batch_ok d batch -> (forall id j, (id, j) ∈ batch -> int4_ok (recovered_latency now j) = true) ->
  exists d', reconcile_all now batch d = Ok d' /\ preserved d d' /\
    (forall id j, (id, j) ∈ batch -> exists uid,
       db_journal d' !! id = Some (mkJournalRow (jr_team_id j) (jr_entry j) (jr_started j)
         (jr_recover_after j) Complete (Some uid) (jr_created_at j)) /\
       forall r, tb_reservations (db_tables d) !! id = Some r -> exists r',
         tb_reservations (db_tables d') !! id = Some r' /\ reservation_charge r' = recovered_charge j r) /\
    (forall id, id ∉ batch.*1 -> db_journal d' !! id = db_journal d !! id /\
       tb_reservations (db_tables d') !! id = tb_reservations (db_tables d) !! id).
Proof.
  revert d. induction batch as [| [rid j] batch IH]; intros d H [Hnd Hall] Hlat.
  { exists d. split_and!; try done; [by apply preserved_refl |]. intros id j Hin. by apply not_elem_of_nil in Hin. }
  cbn in Hnd. apply NoDup_cons in Hnd as [Hni Hnd]. destruct (Hall rid j ltac:(set_solver)) as [Hj Hp].
  destruct (recover_one now rid j d H Hj Hp (Hlat rid j ltac:(set_solver))) as (d1 & rc & uid & Hf & [H1 X1] & Hjr & Hoth & Hch).
  assert (forall id j', (id, j') ∈ batch -> id <> rid) as Hdiff.
  { intros id j' Hin ->. apply Hni. apply list_elem_of_fmap. by exists (rid, j'). }
  destruct (IH d1 H1) as (d2 & Hrec & [H2 X2] & Hdone & Hrest).
  { split; [done |]. intros id j' Hin. destruct (Hall id j' ltac:(set_solver)) as [Hj' Hp'].
    rewrite Hjr, lookup_insert_ne by (apply not_eq_sym; by eapply Hdiff). done. }
  { intros id j' Hin. apply (Hlat id j'). by apply elem_of_cons; right. }
  exists d2. cbn [reconcile_all]. rewrite Hf. cbn. split; [done |]. split; [split; [done | by eapply extends_trans] |].
  split.
  - intros id j' [[= -> ->] | Hin]%elem_of_cons.
    + destruct (Hrest rid Hni) as [-> ->]. exists uid. rewrite Hjr, lookup_insert_eq. split; [done |]. exact Hch.
    + destruct (Hdone id j' Hin) as (uid' & ? & Hc). exists uid'. split; [done |]. intros r Hr. apply Hc.
      rewrite Hoth; [done |]. by eapply Hdiff.
  - intros id [Hid Hin]%not_elem_of_cons. destruct (Hrest id Hin) as [-> ->].
    rewrite Hjr, lookup_insert_ne by done. split; [done |]. by apply Hoth.
Qed.

Lemma preserved_tables d t :
  consistent (mkDatabase t (db_journal d)) -> tb_usage t = tb_usage (db_tables d) ->
  preserved d (mkDatabase t (db_journal d)).
Proof. split; [done | by apply extends_tables]. Qed.

Lemma preserved_settle d id cents micro t b :
  consistent d -> amount_ok cents micro -> settle_reservation id cents micro (db_tables d) = Some (t, b) ->
  preserved d (mkDatabase t (db_journal d)).
Proof.
  intros H Ha Es. apply preserved_tables; [by eapply consistent_settle |]. by apply settle_reservation_inv in Es as [? _].
Qed.

Lemma preserved_FinalizeUsage ok end_ now e d d' res :
  consistent d -> entry_int64 e -> FinalizeUsage ok end_ now e d = (d', res) -> preserved d d'.
Proof.
  intros H Hi. unfold FinalizeUsage. destruct (negb ok); [unchanged |].
  destruct (String.eqb_spec (ue_AccountingID e) "") as [He|He].
  - destruct (normalizeCost _) as [e1|] eqn:En; cbn; [| unchanged].
    apply normalizeCost_inv in En as (c & -> & Ha); [| done].
    destruct (insertUsage _ _ _) as [[t id]|] eqn:Eu; cbn; [| unchanged].
    apply insertUsage_inv in Eu as (u & Eu & _ & Hid & _ & Hc & Hm & _); [| done | by left].
    apply preserved_committed; [done |]. split.
    + apply (consistent_usage d u t id); try done; [by rewrite Hc, Hm |]. rewrite Hid. cbn. by rewrite He.
    + split; [| split; [done | intros id' j' Hj'; by exists j']]. exists [u]. by apply insert_usage_row_inv in Eu as (_ & ? & _).
  - destruct (db_journal d !! ue_AccountingID e) as [j|] eqn:Hj; [| unchanged].
    destruct (finalizeJournal _ _ _ _ _ _) as [[d1 rc]|] eqn:Hf; [| unchanged].
    apply preserved_committed; [done |]. by eapply (preserved_finalize now _ j e false).
Qed.

Lemma event_preserved d d' : event d d' -> consistent d -> preserved d d'.
Proof.
  intros Hev H. destruct Hev as [ok end_ now db_now e remaining d d' res Hint Hb | ok end_ db_now id d d' res Hm
    | ok end_ now db_now rows req d t res Htok Hteam Ha | ok id micro d t res Hmax Hs | ok id d t res Hs
    | ok end_ now e d d' res Hi Hf | ok end_ locked now db_now d d' res Hr].
  - by eapply preserved_begin.
  - by eapply preserved_start.
  - apply preserved_tables; [by eapply consistent_admit |].
    apply Admit_inv in Ha as [-> | (r & _ & _ & Ei & _)]; [done | | done].
    by apply insert_reservation_inv in Ei as (_ & _ & ? & _).
  - unfold Settle in Hs. destruct (Z.ltb_spec micro 0); [unchanged |].
    destruct (id =? "")%string; [unchanged |].
    destruct (CeilCents micro) as [cents|] eqn:Ec; [| unchanged].
    destruct ok; [| unchanged].
    destruct (settle_reservation _ _ _ _) as [[t1 b]|] eqn:Es; injection Hs as <- _;
      [| destruct d; by apply preserved_refl].
    eapply preserved_settle; [done | | done]. split; [by apply CeilCents_check in Ec as [? _] | done].
  - unfold SettleEstimated in Hs. destruct (id =? "")%string; [unchanged |].
    destruct ok; cbn [negb] in Hs; [| unchanged].
    destruct (tb_reservations (db_tables d) !! id) as [r|] eqn:Hr; [| unchanged].
    destruct (settle_reservation _ _ _ _) as [[t1 b]|] eqn:Es; [| unchanged].
    assert (t = t1) as -> by (destruct b; congruence).
    eapply preserved_settle; [done | | done]. apply (c_reservations d H id r Hr).
  - by eapply preserved_FinalizeUsage.
  - unfold ReconcileAccounting in Hr. destruct (negb ok); [unchanged |].
    destruct (reconcile_all now _ d) as [d1|] eqn:E; [| unchanged].
    destruct (reconcile_all_preserved _ _ _ _ H (recovery_batch_ok locked db_now d) E) as [Hp _].
    by eapply preserved_committed.
Qed.

Lemma events_preserved d d' : rtc event d d' -> consistent d -> preserved d d'.
Proof.
  induction 1 as [| d1 d2 d3 Hev _ IH]; intros H; [by apply preserved_refl |].
  destruct (event_preserved _ _ Hev H) as [H2 X2]. destruct (IH H2) as [H3 X3].
  split; [done | by eapply extends_trans].
Qed.

Lemma reachable_consistent d : reachable d -> consistent d.
Proof. intros Hd. by apply (events_preserved _ _ Hd), consistent_empty. Qed.

(** ** Towards the properties *)

Lemma accounted_entry_class now rid j e e0 :
  jr_started j = true -> accounted_entry now rid j e false = Ok e0 -> ue_Accounting e0 = classifyAccounting e.
Proof.
  intros Hs. unfold accounted_entry. rewrite Hs. cbn [negb]. unfold normalizeCost.
  destruct (_ || _); [done |]. destruct (ue_CostMicrocents _); intros [= <-]; done.
Qed.

Lemma finalize_same_team now rid j e d d' rc :
  finalizeJournal now rid j e false d = Ok (d', rc) -> ue_TeamID e = ue_TeamID (jr_entry j).
Proof.
  unfold finalizeJournal. destruct (Z.eqb_spec (ue_TeamID e) (ue_TeamID (jr_entry j))); [done |]. done.
Qed.

Lemma receipt_of_app id t t' k rc :
  tb_usage t' = tb_usage t ++ k -> receipt_of id t = Ok rc -> receipt_of id t' = Ok rc.
Proof.
  intros Hk. unfold receipt_of. rewrite Hk. destruct (tb_usage t !! Z.to_nat (id - 1)) as [u|] eqn:E; [| done].
  by rewrite (lookup_app_l_Some _ _ _ _ E).
Qed.

(** After a finalization the entry is complete and has its receipt. *)
Lemma completed_after now rid j e d d' rc :
  consistent d -> db_journal d !! rid = Some j -> entry_int64 e -> finalizeJournal now rid j e false d = Ok (d', rc) ->
  exists j' uid, db_journal d' !! rid = Some j' /\ jr_state j' = Complete /\ jr_usage_id j' = Some uid /\
    jr_entry j' = jr_entry j /\ receipt_of uid (db_tables d') = Ok rc.
Proof.
  intros H Hj Hi Hf. destruct (jr_state j) eqn:Hs.
  - destruct (finalize_spec _ _ _ _ false _ _ _ H Hj Hs Hi Hf) as (_ & (uid & Hjr & Hrc) & _).
    eexists _, uid. rewrite Hjr, lookup_insert_eq. done.
  - revert Hf. unfold finalizeJournal. destruct (negb false && _); [done |]. rewrite bool_decide_true by done.
    destruct (jr_usage_id j) as [uid|] eqn:Hu; [| done]. destruct (receipt_of uid _) as [rc0|] eqn:Er; [| done].
    cbn. intros [= <- <-]. exists j, uid. done.
Qed.

Lemma recovery_batch_due locked db_now d id j :
  (id, j) ∈ recovery_batch locked db_now d -> db_journal d !! id = Some j /\ due db_now j = true.
Proof.
  unfold recovery_batch. intros Hin. eapply elem_of_sublist in Hin; [| apply sublist_take].
  rewrite merge_sort_Permutation in Hin. apply elem_of_List_filter in Hin as [Hin [Hdue _]%andb_true_iff].
  by apply elem_of_map_to_list in Hin.
Qed.

Lemma recovery_batch_complete locked db_now d :
  (length (recovery_batch locked db_now d) < 64)%nat -> forall id j, db_journal d !! id = Some j ->
  due db_now j = true -> locked id = false -> (id, j) ∈ recovery_batch locked db_now d.
Proof.
  unfold recovery_batch. intros Hl id j Hj Hdue Hlock. rewrite length_take in Hl.
  rewrite take_ge by lia. rewrite merge_sort_Permutation. apply elem_of_List_filter.
  rewrite elem_of_map_to_list, Hdue, Hlock. done.
Qed.

(** ** The properties *)

(** C2. A finalization settles what it records: in every reachable database,
    finalizing a pending entry appends one usage row that carries the entry's
    id, completes the entry with that row, and returns the row's receipt. A
    reservation of the request ends up settled at exactly the cost of the row.
    When the upstream call had started and its cost is not known, the row and
    the reservation keep the estimate; when the call never started, nothing is
    charged. *)
Theorem settlement_agrees_with_usage (now : Z) (e : UsageEntry) (j : journal_row) (d d' : database)
    (rc : UsageReceipt) (Hd : reachable d) (Hid : ue_AccountingID e <> "") (Hi : entry_int64 e)
    (Hj : db_journal d !! ue_AccountingID e = Some j) (Hp : jr_state j = Pending)
    (Hf : FinalizeUsage true Committed now e d = (d', Ok rc)) :
  exists u uid j',
    tb_usage (db_tables d') = tb_usage (db_tables d) ++ [u] /\ ur_accounting_id u = Some (ue_AccountingID e) /\
    db_journal d' !! ue_AccountingID e = Some j' /\ jr_state j' = Complete /\ jr_usage_id j' = Some uid /\
    receipt_of uid (db_tables d') = Ok rc /\ exact (db_tables d') /\
    forall r, tb_reservations (db_tables d) !! ue_AccountingID e = Some r -> rs_status r = Reserved ->
    exists r', tb_reservations (db_tables d') !! ue_AccountingID e = Some r' /\ rs_status r' = Settled /\
      reservation_charge r' = usage_cost u /\
      (jr_started j = false -> usage_cost u = 0) /\
      (jr_started j = true -> classifyAccounting e ∈ ["unknown"; "estimated"; "unpriced"] ->
       usage_cost u = reservation_charge r).
Proof.
  apply reachable_consistent in Hd. revert Hf. unfold FinalizeUsage. cbn [negb].
  destruct (String.eqb_spec (ue_AccountingID e) ""); [done |]. rewrite Hj.
  destruct (finalizeJournal _ _ _ _ _ _) as [[d1 rc1]|] eqn:Hf; [| done]. cbn. intros [= -> ->].
  destruct (finalize_spec _ _ _ _ false _ _ _ Hd Hj Hp Hi Hf)
    as (H' & (uid & Hjr & Hrc) & (e0 & e1 & u & Hacc & Hu & Haid & Hc & Hm & (t1 & Hset & Hres))).
  exists u, uid. eexists. split_and!; [done | done | rewrite Hjr; apply lookup_insert_eq | done | done | done
    | apply H' |].
  intros r Hr Hst. destruct (accounted_entry_inv _ _ _ _ false _ Hi Hacc) as (_ & _ & Ha0 & _ & Hns & _).
  destruct (settle_entry_inv _ _ _ _ _ _ (c_reservations d Hd _) Ha0 Hset) as (_ & _ & _ & _ & Hcase).
  rewrite Hr, Hst in Hcase. destruct Hcase as (Hins & Hest & Hsame).
  eexists. rewrite Hres, Hins, lookup_insert_eq. unfold usage_cost. rewrite Hc, Hm.
  split_and!; [done | done | done | |].
  - intros Hs. destruct (Hns Hs) as (Ec & Em & _). rewrite Hs in Hsame. rewrite (Hsame eq_refl), Ec, Em. done.
  - intros Hs Hin. destruct (Hest Hs) as [-> ->].
    + by rewrite (accounted_entry_class _ _ _ _ _ Hs Hacc).
    + unfold reservation_charge. by rewrite Hst.
Qed.

(** C4. Each journaled request is recorded at most once, and exactly when its
    entry is complete: after any sequence of intents, starts, admissions,
    settlements, finalizations (repeated or not, with commits whose reply was
    lost) and recoveries, the number of usage rows with the request's
    accounting id is 1 if its entry is complete and 0 otherwise. *)
Theorem each_request_recorded_once (d : database) (id : string) (Hd : reachable d) :
  countZ (fun u => bool_decide (ur_accounting_id u = Some id)) (tb_usage (db_tables d)) =
  match db_journal d !! id with
  | Some j => match jr_state j with Complete => 1 | Pending => 0 end
  | None => 0
  end.
Proof.
  apply reachable_consistent in Hd. set (f := fun u => _).
  assert (forall i u, tb_usage (db_tables d) !! i = Some u -> f u = true -> exists j, db_journal d !! id = Some j /\
    jr_state j = Complete /\ jr_usage_id j = Some (Z.of_nat i + 1)) as Hrec.
  { intros i u Hu Hfu. apply bool_decide_eq_true in Hfu. by apply (c_recorded d Hd i u id). }
  destruct (db_journal d !! id) as [j|] eqn:Hj; [destruct (jr_state j) eqn:Hs |].
  - apply countZ_zero. intros i u Hu. apply not_true_is_false. intros Hfu.
    destruct (Hrec i u Hu Hfu) as (j' & ? & ? & _). congruence.
  - destruct (c_complete d Hd id j Hj Hs) as (i & u & Hi & Hu & Ha). apply (countZ_one f _ i u Hu).
    + by apply bool_decide_eq_true.
    + intros k v Hv Hfv. destruct (Hrec k v Hv Hfv) as (j' & Hj' & _ & Hk).
      replace j' with j in Hk by congruence. rewrite Hi in Hk. injection Hk. lia.
  - apply countZ_zero. intros i u Hu. apply not_true_is_false. intros Hfu. destruct (Hrec i u Hu Hfu) as (? & ? & _). congruence.
Qed.

(** C10. Finalization is idempotent: once a request was finalized, also when
    the commit's reply was lost, a later finalization of the same request by
    the same team returns the same receipt and changes nothing, whatever
    happened in between and whatever the retry claims. *)
Theorem retry_returns_the_receipt (now : Z) (e : UsageEntry) (d d1 : database) (rc : UsageReceipt)
    (Hd : reachable d) (Hid : ue_AccountingID e <> "") (Hi : entry_int64 e)
    (Hf : FinalizeUsage true Committed now e d = (d1, Ok rc)) :
  FinalizeUsage true CommittedSilently now e d = (d1, Err AccountingDatabase) /\
  forall now' e' d2, rtc event d1 d2 -> ue_AccountingID e' = ue_AccountingID e -> ue_TeamID e' = ue_TeamID e ->
  FinalizeUsage true Committed now' e' d2 = (d2, Ok rc).
Proof.
  apply reachable_consistent in Hd. revert Hf. unfold FinalizeUsage. cbn [negb].
  destruct (String.eqb_spec (ue_AccountingID e) ""); [done |].
  destruct (db_journal d !! ue_AccountingID e) as [j|] eqn:Hj; [| done].
  destruct (finalizeJournal _ _ _ _ _ _) as [[d0 rc0]|] eqn:Hf; [| done]. cbn [committed]. intros [= -> ->].
  split; [done |]. intros now' e' d2 Hst Hid' Hteam'.
  destruct (completed_after _ _ _ _ _ _ _ Hd Hj Hi Hf) as (j1 & uid & Hj1 & Hs1 & Hu1 & He1 & Hrc).
  destruct (events_preserved _ _ Hst (proj1 (preserved_finalize _ _ _ _ false _ _ _ Hd Hj Hi Hf))) as [_ ([k Hk] & Hkeep & _)].
  rewrite Hid'. destruct (String.eqb_spec (ue_AccountingID e) ""); [done |]. rewrite (Hkeep _ _ Hj1 Hs1).
  unfold finalizeJournal. rewrite He1, Hteam', (finalize_same_team _ _ _ _ _ _ _ Hf), Z.eqb_refl. cbn [negb andb].
  rewrite bool_decide_true, Hu1 by done. rewrite (receipt_of_app _ _ _ _ _ Hk Hrc). done.
Qed.

(** An intent this close to the clock has a latency that fits its column. *)
Definition young (now : Z) (j : journal_row) : Prop := Z.abs (now - ue_Ts (jr_entry j)) < 2 ^ 31 * Millisecond.

Lemma young_latency now j : young now j -> int4_ok (recovered_latency now j) = true.
Proof.
  unfold young, recovered_latency, Milliseconds, Sub, int4_ok. intros H.
  rewrite clamp64_id by (unfold Millisecond in *; int64_lia). set (x := now - _) in *.
  assert (forall y, 0 <= y -> y < 2 ^ 31 * Millisecond -> 0 <= y /g Millisecond < 2147483648) as Hq.
  { intros y Hy Hlt. split; [by apply Z.quot_pos | apply Z.quot_lt_upper_bound; unfold Millisecond in *; lia]. }
  destruct (Z.le_gt_cases 0 x) as [Hx|Hx]; [specialize (Hq x Hx ltac:(lia)); lia |].
  specialize (Hq (- x) ltac:(lia) ltac:(lia)). rewrite Z.quot_opp_l in Hq by done. lia.
Qed.

(** One entry whose latency does not fit stops the pass it is in, which then
    changes nothing. *)
Lemma stale_entry_stops_recovery locked now db_now end_ d id j :
  (id, j) ∈ recovery_batch locked db_now d -> int4_ok (recovered_latency now j) = false ->
  exists e, ReconcileAccounting true end_ locked now db_now d = (d, Err e).
Proof.
  intros Hin Hlat. unfold ReconcileAccounting. cbn [negb].
  assert (forall batch d0, (id, j) ∈ batch -> exists e, reconcile_all now batch d0 = Err e) as Hstop.
  2: { destruct (Hstop _ d Hin) as [e ->]. eauto. }
  pose proof (proj2 (recovery_batch_ok locked db_now d) id j Hin) as [_ Hp]. clear Hin.
  induction batch as [| [rid k] batch IH]; intros d0; [by intros ?%elem_of_nil |]. cbn [reconcile_all].
  intros [[= <- <-] | Hin]%elem_of_cons.
  - destruct (finalizeJournal now id j zero_entry true d0) as [[d1 rc]|e] eqn:Hf; [| cbn; eauto]. exfalso.
    apply finalize_pending_inv in Hf as (e0 & e1 & t1 & t2 & uid & Hacc & Hset & Hins & _); [| done].
    pose proof (recovered_columns _ _ _ _ _ _ _ _ _ Hacc Hset) as Hcols.
    apply insertUsage_columns in Hins. rewrite Hins in Hcols. cbn [forallb] in Hcols. rewrite Hlat in Hcols.
    by rewrite !andb_false_r in Hcols.
  - destruct (finalizeJournal now rid k zero_entry true d0) as [[d1 rc]|e]; cbn; [by apply IH | eauto].
Qed.

(** C8. Recovery completes: on every reachable database, a pass over entries whose
    intents were written within 2^31 ms (24.8 days) of the gateway's clock, no
    database call failing for an outside reason, succeeds. It takes every due entry that is not locked unless it is full (64
    entries), completes each entry it takes and leaves every other one alone. A
    reservation that is still open keeps its whole charge when the upstream
    call had started and the request is billable, never a silent refund; it is
    released when the call had not started or the request is marked not
    billable. *)
Theorem recovery_completes (locked : string -> bool) (now db_now : Z) (d : database) (Hd : reachable d)
    (Hyoung : forall id j, (id, j) ∈ recovery_batch locked db_now d -> young now j) :
  let batch := recovery_batch locked db_now d in
  exists d', ReconcileAccounting true Committed locked now db_now d = (d', Ok (Z.of_nat (length batch))) /\
    (length batch <= 64)%nat /\
    ((length batch < 64)%nat -> forall id j, db_journal d !! id = Some j -> due db_now j = true ->
       locked id = false -> (id, j) ∈ batch) /\
    (forall id j, (id, j) ∈ batch -> db_journal d !! id = Some j /\ due db_now j = true) /\
    (forall id j, (id, j) ∈ batch -> exists j', db_journal d' !! id = Some j' /\ jr_state j' = Complete /\
       forall r, tb_reservations (db_tables d) !! id = Some r -> rs_status r = Reserved -> exists r',
         tb_reservations (db_tables d') !! id = Some r' /\
         reservation_charge r' =
           if jr_started j && negb (ue_Accounting (jr_entry j) =? "not_billable")%string
           then reservation_charge r else 0) /\
    (forall id, id ∉ batch.*1 -> db_journal d' !! id = db_journal d !! id /\
       tb_reservations (db_tables d') !! id = tb_reservations (db_tables d) !! id).
Proof.
  intros batch. apply reachable_consistent in Hd.
  destruct (reconcile_all_spec now batch d Hd (recovery_batch_ok locked db_now d)) as (d' & E & _ & Hdone & Hrest).
  { intros id j Hin. by eapply young_latency, Hyoung. }
  exists d'. unfold ReconcileAccounting. fold batch. rewrite E. cbn [negb committed].
  split_and!; [done | apply (take_le_length 64) | by apply recovery_batch_complete | apply recovery_batch_due | | done].
  intros id j Hin. destruct (Hdone id j Hin) as (uid & Hj' & Hc). eexists. split_and!; [done | done |].
  intros r Hr Hst. destruct (Hc r Hr) as (r' & ? & Hch). exists r'. split; [done |].
  unfold recovered_charge in Hch. by rewrite Hst in Hch.
Qed.
End accounting.

(** ** Evaluation *)

Definition small (e : UsageEntry) : Z := 100.
Definition kept (table : string) (team : option Z) (id : Z) : bool := true.

Definition example_intent (id : string) : UsageEntry :=
  mkUsageEntry "" "" "" 1 (Some 4) None None None "gpt" id 0 0 0 0 (Some 0) 0 0 "" false 0.

(** The request is journaled, reserved at 1250000 micro-cents and started. *)
Definition journaled : database :=
  (BeginAccounting small true Committed example_now example_now (example_intent "r1") (60 * Second)
     empty_database).1.
Definition reserved_db : database := mkDatabase (example_admit "r1" (db_tables journaled)).1 (db_journal journaled).
Definition started_db : database := (MarkAccountingStarted true Committed example_now "r1" reserved_db).1.

(** The upstream call ended at 900000 micro-cents. *)
Definition example_completion : UsageEntry :=
  mkUsageEntry "r1" "priced" "" 1 (Some 4) None None None "gpt" "r1" 1000 500 1500 1 (Some 900000) 120 200 "" false 0.
Definition finalized : database := (FinalizeUsage kept true Committed example_now example_completion started_db).1.

Lemma journaled_event : event small kept empty_database journaled.
Proof.
  eapply (ev_begin small kept true Committed example_now example_now (example_intent "r1") (60 * Second));
    [split_and!; try done; by left |]. apply surjective_pairing.
Qed.

Lemma reserved_event : event small kept journaled reserved_db.
Proof.
  eapply (ev_admit small kept all_ok Committed example_now example_now example_rows (example_request "r1")).
  - apply example_tokens.
  - intros team j [= <-]. vm_compute. intros [= <-]. reflexivity.
  - apply surjective_pairing.
Qed.

Lemma started_event : event small kept reserved_db started_db.
Proof. eapply (ev_start small kept true Committed example_now "r1"). apply surjective_pairing. Qed.

Lemma started_reachable : reachable small kept started_db.
Proof.
  eapply rtc_l; [apply journaled_event |]. eapply rtc_l; [apply reserved_event |].
  apply rtc_once, started_event.
Qed.

Definition started_row : journal_row :=
  mkJournalRow 1 (set_ts (example_intent "r1") example_now) true (example_now + 90 * Second) Pending None example_now.

Lemma started_lookup : db_journal started_db !! "r1" = Some started_row.
Proof. vm_compute. reflexivity. Qed.

Definition example_receipt : UsageReceipt := mkUsageReceipt 1 1 900000 "priced".

Lemma completion_finalized :
  FinalizeUsage kept true Committed example_now example_completion started_db = (finalized, Ok example_receipt).
Proof.
  unfold finalized. assert ((FinalizeUsage kept true Committed example_now example_completion started_db).2 =
    Ok example_receipt) as <- by (vm_compute; reflexivity).
  apply surjective_pairing.
Qed.

Lemma completion_int64 : entry_int64 example_completion.
Proof. vm_compute. discriminate. Qed.

Lemma settlement_agrees_with_usage_witness :
  exists u, tb_usage (db_tables finalized) = tb_usage (db_tables started_db) ++ [u] /\
    ur_accounting_id u = Some "r1".
Proof.
  destruct (settlement_agrees_with_usage small kept example_now example_completion started_row started_db
    finalized example_receipt started_reachable ltac:(discriminate) completion_int64 started_lookup eq_refl
    completion_finalized) as (u & _ & _ & Hu & Ha & _).
  exists u. split; [exact Hu | exact Ha].
Defined.

Lemma each_request_recorded_once_witness :
  countZ (fun u => bool_decide (ur_accounting_id u = Some "r1")) (tb_usage (db_tables started_db)) = 0.
Proof.
  pose proof (each_request_recorded_once small kept started_db "r1" started_reachable) as E.
  rewrite started_lookup in E. exact E.
Defined.

Lemma retry_returns_the_receipt_witness :
  FinalizeUsage kept true Committed (example_now + 1) example_completion finalized = (finalized, Ok example_receipt).
Proof.
  apply (proj2 (retry_returns_the_receipt small kept example_now example_completion started_db finalized
    example_receipt started_reachable ltac:(discriminate) completion_int64 completion_finalized)
    (example_now + 1) example_completion finalized).
  - apply rtc_refl.
  - reflexivity.
  - reflexivity.
Defined.

(** The gateway died: an hour later the request is recovered at its estimate. *)
Lemma recovery_completes_witness :
  exists d', ReconcileAccounting kept true Committed (fun _ => false) (example_now + Hour) (example_now + Hour)
    started_db = (d', Ok 1).
Proof.
  destruct (recovery_completes small kept (fun _ => false) (example_now + Hour) (example_now + Hour) started_db
    started_reachable) as (d' & E & _).
  { assert (recovery_batch (fun _ => false) (example_now + Hour) started_db = [("r1", started_row)]) as ->
      by (vm_compute; reflexivity).
    intros id j [= -> ->]%list_elem_of_singleton. vm_compute. reflexivity. }
  exists d'. etransitivity; [exact E |]. f_equal.
Defined.
