(* ===== verification/Logger.v ===== *)
(** * The usage logger ([internal/usage/logger.go])

    Completions are finalized synchronously; a completion that could not be
    written makes the replica unready until the recovery worker has seen that
    no intent from before the failure is still pending. The two counters are
    atomics shared by the handlers and the worker, the checkpoint belongs to
    the worker. The worker's pass is cut at its accesses to shared state, so a
    completion may fail between any two of them. The observer and the log lines
    have no effect and are left out. *)

From S2P Require Import Prelude GoStrings Money Ledger Budget Accounting.

Record Logger := mkLogger {
  lg_failures : Z;  (** atomic.Uint64 *)
  lg_healthy : Z;   (** atomic.Uint64 *)
  lg_observed : Z;
  lg_cutoff : option Z;
}.

Definition NewLogger : Logger := mkLogger 0 0 0 None.

(** [failures.Add(1)] on an unsigned 64-bit counter. *)
Definition add_failure (l : Logger) : Logger :=
  mkLogger ((lg_failures l + 1) mod 2 ^ 64) (lg_healthy l) (lg_observed l) (lg_cutoff l).

Definition Ready (l : Logger) : bool := lg_failures l =? lg_healthy l.

Section logger.
Variable json_size : UsageEntry -> Z.
Variable alive : string -> option Z -> Z -> bool.

(** [Logger.Record] *)
Definition Logger_Record (ok : bool) (end_ : commit) (now : Z) (e : UsageEntry) (l : Logger) (d : database) :
    Logger * database * result accounting_error UsageReceipt :=
  let e := if IsZero (ue_Ts e) then set_ts e now else e in
  let '(d', res) := FinalizeUsage alive ok end_ now e d in
  (if negb (is_ok res) && negb (ue_AccountingID e =? "")%string then add_failure l else l, d', res).

(** ** One pass of the worker *)

(** Loading the failure epoch: nothing to do when it is acknowledged;
    otherwise a new epoch drops the checkpoint of the old one. *)
Definition load_epoch (l : Logger) : option (Z * Logger) :=
  let epoch := lg_failures l in
  if epoch =? lg_healthy l then None
  else if negb (epoch =? lg_observed l)
  then Some (epoch, mkLogger (lg_failures l) (lg_healthy l) epoch None)
  else Some (epoch, l).

(** Reading the checkpoint and keeping its cutoff. *)
Definition checkpoint (db_now : Z) (d : database) (l : Logger) : Logger * bool :=
  let '(cutoff, pending) := AccountingCheckpoint db_now (lg_cutoff l) d in
  (mkLogger (lg_failures l) (lg_healthy l) (lg_observed l) (Some cutoff), pending).

(** [if !pending { l.healthy.Store(epoch) }] *)
Definition acknowledge (epoch : Z) (pending : bool) (l : Logger) : Logger :=
  if pending then l else mkLogger (lg_failures l) epoch (lg_observed l) (lg_cutoff l).

(** [Logger.reconcile] without interruption; [ok_check] tells whether the
    checkpoint query succeeds. *)
Definition reconcile (ok ok_check : bool) (end_ : commit) (locked : string -> bool) (now db_now : Z)
    (l : Logger) (d : database) : Logger * database * result accounting_error Z :=
  match ReconcileAccounting alive ok end_ locked now db_now d with
  | (d', Err e) => (l, d', Err e)
  | (d', Ok count) =>
      match load_epoch l with
      | None => (l, d', Ok count)
      | Some (epoch, l) =>
          if negb ok_check then (l, d', Err AccountingDatabase)
          else
            let '(l, pending) := checkpoint db_now d' l in
            (acknowledge epoch pending l, d', Ok count)
      end
  end.

(** The body of the ticker's case in [Logger.run]; [stopping] is
    [ctx.Err() != nil]. *)
Definition run_tick (stopping ok ok_check : bool) (end_ : commit) (locked : string -> bool) (now db_now : Z)
    (l : Logger) (d : database) : Logger * database :=
  let '(l, d, res) := reconcile ok ok_check end_ locked now db_now l d in
  (if negb (is_ok res) && negb stopping then add_failure l else l, d).

(** ** The logger among handlers, the worker and other replicas *)

Inductive phase :=
| Idle
| Reconciled
| Loaded (epoch : Z)
| Checked (epoch : Z) (pending : bool).

Record world := mkWorld {
  wd_logger : Logger;
  wd_phase : phase;
  wd_db : database;
  wd_clock : Z;                    (** the database's clock *)
  wd_failed : list (Z * string);   (** failed completions, with the count they made *)
}.

Definition stamped (clock : Z) (d : database) : Prop :=
  forall id j, db_journal d !! id = Some j -> jr_created_at j <= clock.

Definition set_worker (w : world) (l : Logger) (p : phase) (d : database) : world :=
  mkWorld l p d (wd_clock w) (wd_failed w).

(** The failed completions after [Logger_Record]. *)
Definition note_failure (res : result accounting_error UsageReceipt) (e : UsageEntry) (l' : Logger)
    (failed : list (Z * string)) : list (Z * string) :=
  if negb (is_ok res) && negb (ue_AccountingID e =? "")%string
  then (lg_failures l', ue_AccountingID e) :: failed else failed.

Inductive step : world -> world -> Prop :=
(** the database's clock advances *)
| s_clock w t :
    wd_clock w <= t -> step w (mkWorld (wd_logger w) (wd_phase w) (wd_db w) t (wd_failed w))
(** any transaction of this or another replica *)
| s_other w d' :
    event json_size alive (wd_db w) d' -> stamped (wd_clock w) d' ->
    step w (set_worker w (wd_logger w) (wd_phase w) d')
(** a completion of a request this replica has journaled *)
| s_record w ok end_ now e l' d' res :
    entry_int64 e -> (ue_AccountingID e = "" \/ is_Some (db_journal (wd_db w) !! ue_AccountingID e)) ->
    lg_failures (wd_logger w) + 1 < 2 ^ 64 ->
    Logger_Record ok end_ now e (wd_logger w) (wd_db w) = (l', d', res) ->
    step w (mkWorld l' (wd_phase w) d' (wd_clock w) (note_failure res e l' (wd_failed w)))
(** the worker *)
| s_reconcile w ok end_ locked now d' count :
    wd_phase w = Idle ->
    ReconcileAccounting alive ok end_ locked now (wd_clock w) (wd_db w) = (d', Ok count) ->
    step w (set_worker w (wd_logger w) Reconciled d')
| s_reconcile_failed w ok end_ locked now d' e :
    wd_phase w = Idle -> lg_failures (wd_logger w) + 1 < 2 ^ 64 ->
    ReconcileAccounting alive ok end_ locked now (wd_clock w) (wd_db w) = (d', Err e) ->
    step w (set_worker w (add_failure (wd_logger w)) Idle d')
| s_nothing w :
    wd_phase w = Reconciled -> load_epoch (wd_logger w) = None ->
    step w (set_worker w (wd_logger w) Idle (wd_db w))
| s_load w epoch l' :
    wd_phase w = Reconciled -> load_epoch (wd_logger w) = Some (epoch, l') ->
    step w (set_worker w l' (Loaded epoch) (wd_db w))
| s_check_failed w epoch :
    wd_phase w = Loaded epoch -> lg_failures (wd_logger w) + 1 < 2 ^ 64 ->
    step w (set_worker w (add_failure (wd_logger w)) Idle (wd_db w))
| s_check w epoch l' pending :
    wd_phase w = Loaded epoch -> checkpoint (wd_clock w) (wd_db w) (wd_logger w) = (l', pending) ->
    step w (set_worker w l' (Checked epoch pending) (wd_db w))
| s_acknowledge w epoch pending :
    wd_phase w = Checked epoch pending ->
    step w (set_worker w (acknowledge epoch pending (wd_logger w)) Idle (wd_db w)).

Definition start (clock : Z) : world := mkWorld NewLogger Idle empty_database clock [].

(** The request's entry is complete. *)
Definition finished (d : database) (id : string) : Prop :=
  exists j, db_journal d !! id = Some j /\ jr_state j = Complete.

(** ** The invariant *)

(** Every failure counted up to [n] is recovered. *)
Definition recovered_to (w : world) (n : Z) : Prop :=
  forall k id, (k, id) ∈ wd_failed w -> k <= n -> finished (wd_db w) id.

Record sound (w : world) : Prop := {
  so_db : consistent (wd_db w);
  so_stamped : stamped (wd_clock w) (wd_db w);
  so_counts : 0 <= lg_healthy (wd_logger w) <= lg_failures (wd_logger w) /\
    lg_observed (wd_logger w) <= lg_failures (wd_logger w);
  so_failed : forall k id, (k, id) ∈ wd_failed w ->
    k <= lg_failures (wd_logger w) /\ is_Some (db_journal (wd_db w) !! id);
  so_healthy : recovered_to w (lg_healthy (wd_logger w));
  so_cutoff : forall c, lg_cutoff (wd_logger w) = Some c -> forall k id j, (k, id) ∈ wd_failed w ->
    k <= lg_observed (wd_logger w) -> db_journal (wd_db w) !! id = Some j -> jr_created_at j <= c;
  so_phase : match wd_phase w with
    | Idle | Reconciled => True
    | Loaded epoch => epoch = lg_observed (wd_logger w) /\ 0 <= epoch
    | Checked epoch pending =>
        0 <= epoch <= lg_failures (wd_logger w) /\ (pending = false -> recovered_to w epoch)
    end;
}.

Lemma finished_extends d d' id : extends d d' -> finished d id -> finished d' id.
Proof. intros (_ & Hc & _) (j & Hj & Hs). exists j. eauto. Qed.

(** The database moves on under the logger. *)
Lemma sound_database w d' p :
  sound w -> preserved (wd_db w) d' -> stamped (wd_clock w) d' ->
  (p = wd_phase w \/ p = Idle \/ p = Reconciled) ->
  sound (set_worker w (wd_logger w) p d').
Proof.
  intros H [Hc Hx] Hst Hp. pose proof Hx as (_ & _ & Htime).
  assert (forall n, recovered_to w n -> recovered_to (set_worker w (wd_logger w) p d') n) as Hrec.
  { intros n Hn k id Hk Hle. eapply finished_extends; [done |]. by apply (Hn k id). }
  split; cbn [set_worker wd_db wd_logger wd_clock wd_failed wd_phase]; try done.
  - apply H.
  - intros k id Hk. destruct (so_failed w H k id Hk) as [? [j Hj]]. split; [done |].
    destruct (Htime id j Hj) as (j' & ? & _). eauto.
  - apply Hrec, H.
  - intros c Hcut k id j' Hk Hle Hj'. destruct (so_failed w H k id Hk) as [_ [j Hj]].
    destruct (Htime id j Hj) as (j2 & Hj2 & E & _). replace j' with j2 by congruence. rewrite E.
    by eapply (so_cutoff w H).
  - destruct Hp as [-> | [-> | ->]]; [| done | done]. pose proof (so_phase w H) as Hph.
    destruct (wd_phase w); try done. destruct Hph as [? Hph]. split; [done |]. intros Hpe. by apply Hrec, Hph.
Qed.

(** A failure is counted. *)
Lemma add_failure_count l : 0 <= lg_failures l -> lg_failures l + 1 < 2 ^ 64 ->
  lg_failures (add_failure l) = lg_failures l + 1.
Proof. intros H0 H1. cbn. apply Z.mod_small. lia. Qed.

Lemma sound_failure w p failed :
  sound w -> lg_failures (wd_logger w) + 1 < 2 ^ 64 -> (p = wd_phase w \/ p = Idle) ->
  (failed = wd_failed w \/ exists id, is_Some (db_journal (wd_db w) !! id) /\
     failed = (lg_failures (wd_logger w) + 1, id) :: wd_failed w) ->
  sound (mkWorld (add_failure (wd_logger w)) p (wd_db w) (wd_clock w) failed).
Proof.
  intros H Hlt Hp Hf. destruct (so_counts w H) as [? ?].
  pose proof (add_failure_count (wd_logger w) ltac:(lia) Hlt) as Hc.
  assert (forall k id, (k, id) ∈ failed -> k <= lg_failures (wd_logger w) -> (k, id) ∈ wd_failed w) as Hold.
  { intros k id Hk Hle. destruct Hf as [-> | (id0 & _ & ->)]; [done |].
    apply elem_of_cons in Hk as [[= -> ->] | Hk]; [lia | done]. }
  assert (forall n, n <= lg_failures (wd_logger w) -> recovered_to w n ->
    recovered_to (mkWorld (add_failure (wd_logger w)) p (wd_db w) (wd_clock w) failed) n) as Hrec.
  { intros n Hn Hr k id Hk Hle. eapply Hr; [apply Hold; [done | lia] | done]. }
  split; cbn [wd_db wd_clock wd_failed wd_phase wd_logger]; rewrite ?Hc; try apply H.
  - cbn. lia.
  - intros k id Hk. destruct Hf as [-> | (id0 & Hs & ->)].
    + destruct (so_failed w H k id Hk). split; [lia | done].
    + apply elem_of_cons in Hk as [[= -> ->] | Hk]; [split; [lia | done] |].
      destruct (so_failed w H k id Hk). split; [lia | done].
  - apply Hrec; [cbn; lia | apply H].
  - cbn [add_failure lg_cutoff lg_observed]. intros c Hcut k id j Hk Hle. apply (so_cutoff w H c Hcut k id); [| done].
    apply Hold; [done | lia].
  - destruct Hp as [-> | ->]; [| done]. pose proof (so_phase w H) as Hph. destruct (wd_phase w); try done.
    destruct Hph as [? Hph]. split; [lia |]. intros Hpe. apply Hrec; [lia | by apply Hph].
Qed.

(** A checkpoint that finds nothing pending covers the epoch it was taken for. *)
Lemma checkpoint_covers w l' pending :
  sound w -> checkpoint (wd_clock w) (wd_db w) (wd_logger w) = (l', pending) ->
  (exists c, lg_cutoff l' = Some c /\ lg_failures l' = lg_failures (wd_logger w) /\
     lg_healthy l' = lg_healthy (wd_logger w) /\ lg_observed l' = lg_observed (wd_logger w) /\
     forall k id j, (k, id) ∈ wd_failed w -> k <= lg_observed (wd_logger w) ->
     db_journal (wd_db w) !! id = Some j -> jr_created_at j <= c) /\
  (pending = false -> recovered_to w (lg_observed (wd_logger w))).
Proof.
  intros H. unfold checkpoint, AccountingCheckpoint. set (c := default _ _). intros [= <- Hp].
  assert (forall k id j, (k, id) ∈ wd_failed w -> k <= lg_observed (wd_logger w) ->
    db_journal (wd_db w) !! id = Some j -> jr_created_at j <= c) as Hcov.
  { intros k id j Hk Hle Hj. unfold c. destruct (lg_cutoff (wd_logger w)) as [c0|] eqn:Ec; cbn.
    - by eapply (so_cutoff w H).
    - by apply (so_stamped w H id). }
  split; [exists c; done |]. intros -> k id Hk Hle. destruct (so_failed w H k id Hk) as [_ [j Hj]].
  exists j. split; [done |]. destruct (jr_state j) eqn:Hs; [| done]. exfalso.
  apply not_true_iff_false in Hp. apply Hp, existsb_exists. exists (id, j).
  split; [by apply list_elem_of_In, elem_of_map_to_list |]. rewrite bool_decide_true by done.
  apply Z.leb_le. by eapply Hcov.
Qed.

(** Recovery and completions keep the entries' times. *)
Lemma preserved_stamped d d' clock :
  consistent d -> (forall id, is_Some (db_journal d' !! id) -> is_Some (db_journal d !! id)) ->
  extends d d' -> stamped clock d -> stamped clock d'.
Proof.
  intros H Hno (_ & _ & Htime) Hst id j' Hj'. destruct (Hno id ltac:(eauto)) as [j Hj].
  destruct (Htime id j Hj) as (j2 & Hj2 & E & _). replace j' with j2 by congruence. rewrite E. eauto.
Qed.

Lemma finalize_no_new now rid j e rec d d' rc :
  db_journal d !! rid = Some j -> finalizeJournal alive now rid j e rec d = Ok (d', rc) ->
  forall id, is_Some (db_journal d' !! id) -> is_Some (db_journal d !! id).
Proof.
  intros Hj Hf id Hid. destruct (jr_state j) eqn:Hs.
  - apply finalize_pending_inv in Hf as (? & ? & ? & ? & ? & _ & _ & _ & -> & _); [| done]. cbn in Hid.
    apply lookup_insert_is_Some in Hid as [<- | [_ Hid]]; eauto.
  - revert Hf. unfold finalizeJournal. destruct (negb rec && _); [done |]. rewrite bool_decide_true by done.
    destruct (jr_usage_id j); [| done]. destruct (receipt_of _ _); [| done]. cbn. by intros [= <- _].
Qed.

Lemma committed_no_new {A} end_ d d' (a : A) d1 res :
  committed end_ d d' a = (d1, res) ->
  (forall id, is_Some (db_journal d' !! id) -> is_Some (db_journal d !! id)) ->
  forall id, is_Some (db_journal d1 !! id) -> is_Some (db_journal d !! id).
Proof. destruct end_; cbn; intros [= <- _]; eauto. Qed.

Lemma FinalizeUsage_no_new ok end_ now e d d' res :
  FinalizeUsage alive ok end_ now e d = (d', res) ->
  forall id, is_Some (db_journal d' !! id) -> is_Some (db_journal d !! id).
Proof.
  unfold FinalizeUsage. destruct (negb ok); [by intros [= <- _] |].
  destruct (ue_AccountingID e =? "")%string.
  - destruct (_ ≫= _) as [[e1 [t id]]|]; [| by intros [= <- _]].
    intros Hc. eapply committed_no_new; [exact Hc | done].
  - destruct (db_journal d !! ue_AccountingID e) as [j|] eqn:Hj; [| by intros [= <- _]].
    destruct (finalizeJournal _ _ _ _ _ _ _) as [[d1 rc]|] eqn:Hf; [| by intros [= <- _]].
    intros Hc. eapply committed_no_new; [exact Hc |]. by eapply finalize_no_new.
Qed.

Lemma Reconcile_no_new ok end_ locked now db_now d d' res :
  consistent d -> ReconcileAccounting alive ok end_ locked now db_now d = (d', res) ->
  forall id, is_Some (db_journal d' !! id) -> is_Some (db_journal d !! id).
Proof.
  intros H. unfold ReconcileAccounting. destruct (negb ok); [by intros [= <- _] |].
  pose proof (recovery_batch_ok locked db_now d) as Hb. set (batch := recovery_batch _ _ _) in *.
  destruct (reconcile_all alive now batch d) as [d1|] eqn:E; [| by intros [= <- _]]. intros Hc.
  destruct (reconcile_all_preserved _ _ _ _ _ H Hb E) as [_ Hrest].
  eapply committed_no_new; [exact Hc |]. intros id Hid.
  destruct (decide (id ∈ batch.*1)) as [Hin|Hin]; [| by rewrite <- (Hrest id Hin)].
  apply list_elem_of_fmap in Hin as ([? j] & -> & Hin). destruct (proj2 Hb _ _ Hin) as [Hj _]. eauto.
Qed.

(** Every step keeps the invariant. *)
Lemma sound_record w ok end_ now e l' d' res :
  sound w -> entry_int64 e -> (ue_AccountingID e = "" \/ is_Some (db_journal (wd_db w) !! ue_AccountingID e)) ->
  lg_failures (wd_logger w) + 1 < 2 ^ 64 ->
  Logger_Record ok end_ now e (wd_logger w) (wd_db w) = (l', d', res) ->
  sound (mkWorld l' (wd_phase w) d' (wd_clock w) (note_failure res e l' (wd_failed w))).
Proof.
  intros H Hi Hid Hlt. unfold Logger_Record. set (e1 := if IsZero _ then _ else _).
  assert (ue_AccountingID e1 = ue_AccountingID e /\ entry_int64 e1) as [E1 Hi1].
  { unfold e1. destruct (IsZero _); done. }
  destruct (FinalizeUsage _ _ _ _ _ _) as [d1 res1] eqn:Hf. intros [= <- <- <-]. unfold note_failure. rewrite E1.
  pose proof (preserved_FinalizeUsage _ _ _ _ _ _ _ _ (so_db w H) Hi1 Hf) as [Hc Hx].
  assert (sound (set_worker w (wd_logger w) (wd_phase w) d1)) as H1.
  { apply sound_database; [done | done | | by left]. eapply preserved_stamped; [apply H | | done | apply H].
    by eapply FinalizeUsage_no_new. }
  destruct (is_ok res1); cbn [negb andb]; [exact H1 |].
  destruct (String.eqb_spec (ue_AccountingID e) ""); cbn [negb]; [exact H1 |].
  destruct (so_counts w H) as [? _]. rewrite add_failure_count by lia.
  apply (sound_failure (set_worker w (wd_logger w) (wd_phase w) d1)); [done | done | by left |].
  right. exists (ue_AccountingID e). split; [| done]. destruct Hid as [| [j Hj]]; [done |].
  destruct Hx as (_ & _ & Htime). destruct (Htime _ j Hj) as (j' & ? & _). eauto.
Qed.

Lemma sound_step w w' : step w w' -> sound w -> sound w'.
Proof.
  intros Hst H. destruct (so_counts w H) as [Hhe Hob]. destruct Hst as [w t Ht | w d' Hev Hs | w ok end_ now e l' d' res Hi Hid Hlt Hr
    | w ok end_ locked now d' count Hp Hr | w ok end_ locked now d' e Hp Hlt Hr | w Hp Hl | w epoch l' Hp Hl
    | w epoch Hp Hlt | w epoch l' pending Hp Hc | w epoch pending Hp].
  - split; try apply H. intros id j Hj. pose proof (so_stamped w H id j Hj). cbn. lia.
  - apply sound_database; [done | by eapply event_preserved, H | done | by left].
  - by eapply sound_record.
  - apply sound_database; [done | | | auto].
    + eapply event_preserved; [by eapply (ev_reconcile json_size) | apply H].
    + eapply preserved_stamped; [apply H | | | apply H]; [by eapply Reconcile_no_new, Hr; apply H |].
      eapply event_preserved; [by eapply (ev_reconcile json_size) | apply H].
  - assert (sound (set_worker w (wd_logger w) Idle d')) as H1.
    { apply sound_database; [done | | | auto].
      + eapply event_preserved; [by eapply (ev_reconcile json_size) | apply H].
      + eapply preserved_stamped; [apply H | | | apply H]; [by eapply Reconcile_no_new, Hr; apply H |].
        eapply event_preserved; [by eapply (ev_reconcile json_size) | apply H]. }
    apply (sound_failure (set_worker w (wd_logger w) Idle d')); auto.
  - apply sound_database; [done | apply preserved_refl, H | apply H | auto].
  - revert Hl. unfold load_epoch. destruct (_ =? lg_healthy _); [done |].
    destruct (Z.eqb_spec (lg_failures (wd_logger w)) (lg_observed (wd_logger w))) as [E|E]; cbn [negb];
      intros [= <- <-]; split; cbn; try apply H; try done; try lia.
  - apply (sound_failure w Idle (wd_failed w)); auto.
  - destruct (checkpoint_covers w l' pending H Hc) as ((c & Ec & Ef & Eh & Eo & Hcov) & Hrec).
    pose proof (so_phase w H) as Hph. rewrite Hp in Hph. destruct Hph as [-> Hep].
    split; cbn; rewrite ?Ef, ?Eh, ?Eo; try apply H; try done.
    intros c' Hc'. replace c' with c by congruence. exact Hcov.
  - pose proof (so_phase w H) as Hph. rewrite Hp in Hph. destruct Hph as [Hep Hrec].
    unfold acknowledge. destruct pending; [apply sound_database; [done | apply preserved_refl, H | apply H | auto] |].
    split; cbn; try apply H; try done; try lia. by apply Hrec.
Qed.

(** A replica is ready only when no failed completion is open: under any
    interleaving of completions, the recovery worker's steps, the database's
    clock and the transactions of other replicas, whenever the logger reports
    ready, every journaled request whose completion ever failed on this replica
    has its entry complete. A completion that fails while a checkpoint is
    being read is not acknowledged by it. *)
Theorem ready_means_recovered (clock : Z) (w : world) (k : Z) (id : string)
    (Hw : rtc step (start clock) w) (Hready : Ready (wd_logger w) = true)
    (Hk : (k, id) ∈ wd_failed w) :
  finished (wd_db w) id.
Proof.
  assert (sound w) as H.
  { assert (sound (start clock)) as H0.
    { split; cbn; try done; try (by apply consistent_empty).
      - intros k' id' Hin. by apply not_elem_of_nil in Hin.
      - intros k' id' Hin. by apply not_elem_of_nil in Hin. }
    revert H0. clear Hready Hk. induction Hw as [| ? ? ? Hst _ IH]; [done |]. intros H0. by apply IH, (sound_step _ _ Hst). }
  apply Z.eqb_eq in Hready. apply (so_healthy w H k id Hk). rewrite <- Hready. by apply (so_failed w H k id).
Qed.
End logger.

(** ** Evaluation *)

(** A request is journaled and started; its completion fails while the database
    is away; an hour later it is recovered and the replica is ready again. *)
Definition later : Z := example_now + Hour.
Definition none_locked (id : string) : bool := false.

Definition recovered_db : database :=
  (ReconcileAccounting kept true Committed none_locked later later started_db).1.

Definition failed_logger : Logger := add_failure NewLogger.

Definition recovered_world : world :=
  mkWorld (mkLogger 1 1 1 (Some later)) Idle recovered_db later [(1, "r1")].

Definition unstarted_row : journal_row :=
  mkJournalRow 1 (set_ts (example_intent "r1") example_now) false (example_now + 90 * Second) Pending None example_now.

Lemma stamped_singleton d r clock :
  db_journal d = {["r1" := r]} -> jr_created_at r <= clock -> stamped clock d.
Proof. intros E Hr id j. rewrite E. by intros [<- <-]%lookup_singleton_Some. Qed.

Lemma recovered_reachable : rtc (step small kept) (start example_now) recovered_world.
Proof.
  eapply rtc_l.
  { apply (s_other small kept _ journaled); [apply journaled_event |].
    apply (stamped_singleton _ unstarted_row); [vm_compute; reflexivity | done]. }
  eapply rtc_l.
  { apply (s_other small kept _ reserved_db); [apply reserved_event |].
    apply (stamped_singleton _ unstarted_row); [vm_compute; reflexivity | done]. }
  eapply rtc_l.
  { apply (s_other small kept _ started_db); [apply started_event |].
    apply (stamped_singleton _ started_row); [vm_compute; reflexivity | done]. }
  eapply rtc_l.
  { apply (s_record small kept _ false Committed example_now example_completion failed_logger started_db
      (Err AccountingDatabase)); [apply completion_int64 | | reflexivity | reflexivity].
    right. exists started_row. apply started_lookup. }
  eapply rtc_l; [apply (s_clock small kept _ later); vm_compute; discriminate |].
  eapply rtc_l.
  { apply (s_reconcile small kept _ true Committed none_locked later recovered_db 1); [reflexivity |].
    unfold recovered_db. assert ((ReconcileAccounting kept true Committed none_locked later later started_db).2 = Ok 1)
      as <- by (vm_compute; reflexivity).
    apply surjective_pairing. }
  eapply rtc_l; [apply (s_load small kept _ 1 (mkLogger 1 0 1 None)); reflexivity |].
  eapply rtc_l.
  { apply (s_check small kept _ 1 (mkLogger 1 0 1 (Some later)) false); [reflexivity | vm_compute; reflexivity]. }
  apply rtc_once.
  exact (s_acknowledge small kept (mkWorld (mkLogger 1 0 1 (Some later)) (Checked 1 false) recovered_db later
    [(1, "r1")]) 1 false eq_refl).
Qed.

Lemma ready_means_recovered_witness : finished recovered_db "r1".
Proof.
  apply (ready_means_recovered small kept example_now recovered_world 1 "r1" recovered_reachable).
  - reflexivity.
  - left.
Defined.
