(* ===== verification/LoginThrottle.v ===== *)
(** * Login attempts ([internal/server/login_throttle.go])

    Attempts are counted per source address and per account in a 15-minute
    window, in one Redis hash or, without Redis, in a map of the process. The
    digest of an identity and the decoding of the request's JSON are parameters;
    no property depends on the digest being free of collisions, since two
    identities that share a digest share a counter. *)

From S2P Require Import Prelude GoStrings Redis.

Definition loginCounterCapacity : Z := 10000.
Definition login_window : Z := 15 * Minute.

Definition StatusRequestEntityTooLarge : Z := 413.
Definition StatusTooManyRequests : Z := 429.
Definition StatusServiceUnavailable : Z := 503.

(** The in-memory side of the throttle. *)
Record loginThrottle := mkLoginThrottle { lt_counts : gmap string Z; lt_bucket : Z }.

Definition newLoginThrottle : loginThrottle := mkLoginThrottle ∅ 0.

Section throttle.
(** [hex.EncodeToString(sha256.Sum256(value))] *)
Variable digest : string -> string.
(** The [email] of the request's JSON body, empty when there is none. *)
Variable envelope_email : string -> string.

Definition loginIdentity (kind value : string) : string := kind ++ ":" ++ digest value.

Definition nul : string := String (byte 0) EmptyString.

(** The counters of an attempt and their limits. *)
Definition login_fields (endpoint ip email : string) : list (string * Z) :=
  (loginIdentity "ip" (endpoint ++ nul ++ ip), 20) ::
  (if (email =? "")%string then [] else [(loginIdentity "account" (endpoint ++ nul ++ email), 5)]).

(** The window of an instant and what is left of it. *)
Definition window_start (now : Z) : Z := Truncate now login_window.
Definition retry_after (now : Z) : Z := Sub (window_start now + login_window) now.

(** ** In memory *)

(** The first loop: [None] when a counter is at its limit, otherwise the number
    of new counters. *)
Fixpoint throttle_check (counts : gmap string Z) (missing : Z) (fields : list (string * Z)) : option Z :=
  match fields with
  | [] => Some missing
  | (field, limit) :: rest =>
      if limit <=? default 0 (counts !! field) then None
      else throttle_check counts
             (if bool_decide (is_Some (counts !! field)) then missing else missing + 1) rest
  end.

Fixpoint throttle_count (fields : list (string * Z)) (counts : gmap string Z) : gmap string Z :=
  match fields with
  | [] => counts
  | (field, _) :: rest => throttle_count rest (<[field := default 0 (counts !! field) + 1]> counts)
  end.

Definition allow_memory (now : Z) (endpoint ip email : string) (t : loginThrottle) : loginThrottle * (Z * Z) :=
  let retry := retry_after now in
  let start := Unix (window_start now) in
  let fields := login_fields endpoint ip email in
  let t := if negb (lt_bucket t =? start) then mkLoginThrottle ∅ start else t in
  match throttle_check (lt_counts t) 0 fields with
  | None => (t, (StatusTooManyRequests, retry))
  | Some missing =>
      if loginCounterCapacity <? Z.of_nat (size (lt_counts t)) + missing
      then (t, (StatusServiceUnavailable, retry))
      else (mkLoginThrottle (throttle_count fields (lt_counts t)) (lt_bucket t), (0, retry))
  end.

(** ** In Redis *)

Section redis.
Context {R : Type} `{RedisHash R}.

Fixpoint script_check (now : Z) (key : string) (missing : Z) (fields : list (string * Z)) (r : R) : option Z :=
  match fields with
  | [] => Some missing
  | (field, limit) :: rest =>
      if limit <=? default 0 (HGET now key field r) then None
      else script_check now key (if negb (HEXISTS now key field r) then missing + 1 else missing) rest r
  end.

Fixpoint script_incr (now : Z) (key : string) (fields : list (string * Z)) (r : R) : R :=
  match fields with
  | [] => r
  | (field, _) :: rest => script_incr now key rest (HINCRBY now key field 1 r)
  end.

Definition loginAttemptScript (now : Z) (key : string) (fields : list (string * Z)) (capacity ttl : Z) (r : R) :
    R * Z :=
  match script_check now key 0 fields r with
  | None => (r, 0)
  | Some missing =>
      if capacity <? HLEN now key r + missing then (r, -1)
      else (HPEXPIRE now key ttl (script_incr now key fields r), 1)
  end.

Definition throttle_key (prefix : string) (start : Z) : string :=
  prefix ++ ":{login-attempts}:" ++ pretty start.

Definition allow_redis (call : io) (server_now now : Z) (prefix endpoint ip email : string) (r : R) :
    R * (Z * Z) :=
  let retry := retry_after now in
  let '(r', result) :=
    loginAttemptScript server_now (throttle_key prefix (Unix (window_start now)))
      (login_fields endpoint ip email) loginCounterCapacity (Milliseconds retry + 1) r in
  match call with
  | IoFailedBefore => (r, (StatusServiceUnavailable, retry))
  | IoFailedAfter => (r', (StatusServiceUnavailable, retry))
  | IoOk =>
      if result <? 0 then (r', (StatusServiceUnavailable, retry))
      else if result =? 0 then (r', (StatusTooManyRequests, retry))
      else (r', (0, retry))
  end.

(** [loginThrottle.allow] *)
Definition allow (call : io) (server_now now : Z) (prefix endpoint ip email : string)
    (t : loginThrottle) (redis : option R) : loginThrottle * option R * (Z * Z) :=
  match redis with
  | Some r => let '(r, out) := allow_redis call server_now now prefix endpoint ip email r in (t, Some r, out)
  | None => let '(t, out) := allow_memory now endpoint ip email t in (t, None, out)
  end.
End redis.

(** ** The middleware *)

Definition strconvSeconds (d : Z) : Z :=
  let seconds := (d +w (Second - 1)) /g Second in
  if seconds <? 1 then 1 else seconds.

(** What the middleware answers: an error status with its [Retry-After], or the
    request passed on. *)
Inductive throttle_answer :=
| TooLarge
| Refused (status retry : Z)
| Passed.

(** The endpoint, the address and the account an attempt is counted under;
    [None] when the body cannot be read or is too long. *)
Definition attempt_of (path ip : string) (body : option (option string)) : option (string * string * string) :=
  let endpoint := if HasPrefix path "/reset/" then "reset" else "login" in
  match body with
  | None => Some (endpoint, ip, "")
  | Some None => None
  | Some (Some b) =>
      if 1048576 <? Z.of_nat (String.length b) then None
      else Some (endpoint, ip,
             if (endpoint =? "login")%string then ToLower (TrimSpace (envelope_email b)) else "")
  end.

Definition answer_of (out : Z * Z) : throttle_answer :=
  let '(status, retry) := out in
  if negb (status =? 0)
  then Refused status (if status =? StatusTooManyRequests then strconvSeconds retry else 1)
  else Passed.

Definition throttle_middleware {R} `{RedisHash R} (call : io) (server_now now : Z) (prefix path ip : string)
    (body : option (option string)) (t : loginThrottle) (redis : option R) :
    loginThrottle * option R * throttle_answer :=
  match attempt_of path ip body with
  | None => (t, redis, TooLarge)
  | Some (endpoint, ip, email) =>
      let '(t, redis, out) := allow call server_now now prefix endpoint ip email t redis in
      (t, redis, answer_of out)
  end.

(** ** Both loops are one policy *)

Section refinement.
Context {R : Type} `{RedisHashLaws R}.

Lemma script_check_spec now key missing fields (r : R) :
  script_check now key missing fields r = throttle_check (live_hash now (hview r key)) missing fields.
Proof.
  revert missing. induction fields as [| [f limit] fields IH]; intros missing; [done |].
  cbn [script_check throttle_check]. rewrite HGET_spec, HEXISTS_spec. destruct (limit <=? _); [done |].
  rewrite IH. f_equal. by destruct (bool_decide _).
Qed.

Lemma live_hash_incr now (m : gmap string Z) (e : entry (gmap string Z)) :
  live_hash now (Some (m, entry_expiry now e)) = m.
Proof.
  unfold live_hash. cbn [visible]. destruct (entry_expiry now e) as [x|] eqn:E; [| done].
  apply entry_expiry_future in E. destruct (Z.leb_spec x now); [lia | done].
Qed.

Lemma script_incr_spec now key fields (r : R) k :
  live_hash now (hview (script_incr now key fields r) k) =
  if decide (key = k) then throttle_count fields (live_hash now (hview r k)) else live_hash now (hview r k).
Proof.
  revert r. induction fields as [| [f n] fields IH]; intros r; cbn [script_incr throttle_count]; [by case_decide |].
  rewrite IH, HINCRBY_view. case_decide as E; [| done]. subst k. by rewrite live_hash_incr.
Qed.

Lemma script_incr_other now key fields (r : R) k :
  key <> k -> hview (script_incr now key fields r) k = hview r k.
Proof.
  intros Hk. revert r. induction fields as [| [f n] fields IH]; intros r; cbn [script_incr]; [done |].
  by rewrite IH, HINCRBY_view, decide_False.
Qed.
End refinement.

(** ** Windows *)

Lemma bucket_value now : Unix (window_start now) = 900 * (now / login_window) - unix_epoch.
Proof.
  unfold window_start, Truncate, Unix. replace (login_window <=? 0) with false by done.
  pose proof (Z.div_mod now login_window ltac:(done)) as E.
  replace (now - now mod login_window) with (900 * (now / login_window) * Second).
  - by rewrite Z.div_mul.
  - change login_window with (900 * Second) in *. lia.
Qed.

Lemma bucket_mono a b : a <= b -> Unix (window_start a) <= Unix (window_start b).
Proof.
  intros Hab. rewrite !bucket_value. pose proof (Z.div_le_mono a b login_window ltac:(done) Hab). lia.
Qed.

(** The expiry the script sets outlives the window. *)
Lemma expiry_outlives now now' :
  Unix (window_start now') = Unix (window_start now) ->
  now' / Millisecond < now / Millisecond + (Milliseconds (retry_after now) + 1).
Proof.
  rewrite !bucket_value. intros E. assert (now' / login_window = now / login_window) as Eq by lia. clear E.
  unfold retry_after, Sub, window_start, Truncate, Milliseconds.
  replace (login_window <=? 0) with false by done.
  pose proof (Z.div_mod now login_window ltac:(done)) as E. pose proof (Z.mod_pos_bound now login_window ltac:(done)) as B.
  pose proof (Z.div_mod now' login_window ltac:(done)) as E'. pose proof (Z.mod_pos_bound now' login_window ltac:(done)) as B'.
  rewrite Eq in E'. set (q := now / login_window) in *.
  rewrite clamp64_id by (unfold login_window, Minute, Second in *; int64_lia).
  rewrite Z.quot_div_nonneg by (unfold Millisecond; lia).
  pose proof (Z.div_mod now Millisecond ltac:(done)). pose proof (Z.mod_pos_bound now Millisecond ltac:(done)).
  pose proof (Z.div_mod now' Millisecond ltac:(done)). pose proof (Z.mod_pos_bound now' Millisecond ltac:(done)).
  set (left := now - now mod login_window + login_window - now).
  pose proof (Z.div_mod left Millisecond ltac:(done)). pose proof (Z.mod_pos_bound left Millisecond ltac:(done)).
  unfold left in *. change login_window with 900000000000 in *. unfold Millisecond in *. lia.
Qed.

(** ** The Redis backend refines the local one *)

Section simulation.
Context {R : Type} `{RedisHashLaws R}.
Variable prefix : string.

Lemma throttle_key_inj a b : throttle_key prefix a = throttle_key prefix b -> a = b.
Proof. unfold throttle_key. intros E. by apply (inj (String.app prefix)), (inj (String.app _)), (inj pretty) in E. Qed.

(** The hash of the current window holds the local counters, and no window to
    come has a hash; [tl] is the time of the last attempt. *)
Record related (tl : Z) (t : loginThrottle) (r : R) : Prop := {
  rl_now : forall now, tl <= now -> Unix (window_start now) = lt_bucket t ->
    live_hash (now / Millisecond) (hview r (throttle_key prefix (lt_bucket t))) = lt_counts t;
  rl_later : forall now, tl <= now -> Unix (window_start now) <> lt_bucket t ->
    hview r (throttle_key prefix (Unix (window_start now))) = None;
  rl_seen : (hview r (throttle_key prefix (lt_bucket t)) = None /\ lt_counts t = ∅) \/
    exists t0, t0 <= tl /\ Unix (window_start t0) = lt_bucket t;
}.

Lemma live_hash_None now : live_hash now None = ∅.
Proof. done. Qed.

(** The window the attempt falls in becomes the current one. *)
Lemma related_enter tl now t r :
  related tl t r -> tl <= now ->
  related now (if negb (lt_bucket t =? Unix (window_start now)) then mkLoginThrottle ∅ (Unix (window_start now)) else t) r.
Proof.
  intros Hr Hle. destruct (Z.eqb_spec (lt_bucket t) (Unix (window_start now))) as [E|E]; cbn [negb].
  - destruct Hr as [H1 H2 H3]. split.
    + intros n Hn. apply H1. lia.
    + intros n Hn. apply H2. lia.
    + right. exists now. split; [lia | done].
  - pose proof (rl_later _ _ _ Hr now Hle ltac:(congruence)) as Hnone. split; cbn [lt_bucket lt_counts].
    + intros n Hn En. by rewrite Hnone.
    + intros n Hn En. destruct (decide (Unix (window_start n) = lt_bucket t)) as [Eb|Eb].
      * destruct (rl_seen _ _ _ Hr) as [[Hk _] | (t0 & Ht0 & Et0)]; [by rewrite Eb |]. exfalso.
        pose proof (bucket_mono t0 now ltac:(lia)). pose proof (bucket_mono now n Hn). lia.
      * apply (rl_later _ _ _ Hr n); [lia | done].
    + left. done.
Qed.

Lemma related_count now endpoint ip email t r :
  related now t r -> lt_bucket t = Unix (window_start now) ->
  related now (mkLoginThrottle (throttle_count (login_fields endpoint ip email) (lt_counts t)) (lt_bucket t))
    (HPEXPIRE (now / Millisecond) (throttle_key prefix (lt_bucket t)) (Milliseconds (retry_after now) + 1)
       (script_incr (now / Millisecond) (throttle_key prefix (lt_bucket t)) (login_fields endpoint ip email) r)).
Proof.
  intros Hr Hb. set (key := throttle_key prefix (lt_bucket t)). set (fields := login_fields endpoint ip email).
  pose proof (rl_now _ _ _ Hr now ltac:(lia) ltac:(done)) as Hnow. fold key in Hnow.
  split; cbn [lt_bucket lt_counts]; fold key.
  - intros n Hn En. rewrite HPEXPIRE_view, decide_True by done. unfold expire_entry.
    pose proof (script_incr_spec (now / Millisecond) key fields r key) as Hi. rewrite decide_True, Hnow in Hi by done.
    assert (exists x, visible (now / Millisecond) (hview (script_incr (now / Millisecond) key fields r) key) =
      Some (throttle_count fields (lt_counts t), x)) as [x ->].
    { unfold live_hash in Hi. destruct (visible _ _) as [[m x]|]; [eexists; by rewrite Hi |]. exfalso.
      unfold fields, login_fields in Hi. revert Hi. cbn [throttle_count].
      set (c := <[_ := _]> (lt_counts t)). assert (c <> ∅) as Hc by apply insert_non_empty.
      destruct (email =? "")%string; cbn [throttle_count]; [by intros Hi; apply Hc |].
      intros Hi. symmetry in Hi. by apply insert_non_empty in Hi. }
    pose proof (expiry_outlives now n ltac:(congruence)) as Hx.
    pose proof (Z.div_le_mono now n Millisecond ltac:(done) Hn) as Hms.
    destruct (Z.leb_spec (Milliseconds (retry_after now) + 1) 0); [lia |].
    unfold live_hash. cbn [visible]. destruct (Z.leb_spec (now / Millisecond + (Milliseconds (retry_after now) + 1)) (n / Millisecond)); [lia | done].
  - intros n Hn En. assert (key <> throttle_key prefix (Unix (window_start n))) as Hk.
    { intros E%throttle_key_inj. congruence. }
    rewrite HPEXPIRE_view, decide_False, script_incr_other by done. by apply (rl_later _ _ _ Hr).
  - right. exists now. done.
Qed.

(** One attempt: the same answer, and the backends agree again. *)
Lemma allow_agree tl now endpoint ip email t r t' out :
  related tl t r -> tl <= now -> allow_memory now endpoint ip email t = (t', out) ->
  exists r', allow_redis IoOk (now / Millisecond) now prefix endpoint ip email r = (r', out) /\ related now t' r'.
Proof.
  intros Hr Hle. pose proof (related_enter tl now t r Hr Hle) as Hr1. unfold allow_memory, allow_redis.
  set (t1 := if negb _ then _ else t) in *.
  assert (lt_bucket t1 = Unix (window_start now)) as Hb.
  { unfold t1. destruct (Z.eqb_spec (lt_bucket t) (Unix (window_start now))); done. }
  pose proof (rl_now _ _ _ Hr1 now ltac:(lia) ltac:(done)) as Hc. rewrite Hb in Hc.
  unfold loginAttemptScript. rewrite script_check_spec, HLEN_spec, Hc.
  destruct (throttle_check _ _ _) as [missing|]; [| intros [= <- <-]; by exists r].
  destruct (loginCounterCapacity <? _); [intros [= <- <-]; by exists r |].
  intros [= <- <-]. eexists. split; [done |]. rewrite <- Hb. by apply related_count.
Qed.
End simulation.

(** ** Sequences of attempts *)

Record attempt := mkAttempt { at_time : Z; at_endpoint : string; at_ip : string; at_email : string }.

(** The answers of the local throttle to a sequence of attempts. *)
Fixpoint run_memory (t : loginThrottle) (atts : list attempt) : list (Z * Z) :=
  match atts with
  | [] => []
  | a :: rest =>
      let '(t, out) := allow_memory (at_time a) (at_endpoint a) (at_ip a) (at_email a) t in
      out :: run_memory t rest
  end.

(** The same through Redis, whose clock shows the time in milliseconds. *)
Fixpoint run_redis {R} `{RedisHash R} (prefix : string) (r : R) (atts : list attempt) : list (Z * Z) :=
  match atts with
  | [] => []
  | a :: rest =>
      let '(r, out) := allow_redis IoOk (at_time a / Millisecond) (at_time a) prefix
                         (at_endpoint a) (at_ip a) (at_email a) r in
      out :: run_redis prefix r rest
  end.

(** The times do not go back. *)
Fixpoint in_order (tl : Z) (atts : list attempt) : Prop :=
  match atts with [] => True | a :: rest => tl <= at_time a /\ in_order (at_time a) rest end.

(** The attempts that were let through. *)
Fixpoint passed (atts : list attempt) (outs : list (Z * Z)) : list attempt :=
  match atts, outs with
  | a :: atts, (status, _) :: outs => if status =? 0 then a :: passed atts outs else passed atts outs
  | _, _ => []
  end.

(** An attempt of the window [w] that counts under [field] with [limit]. *)
Definition counts_under (w : Z) (field : string) (limit : Z) (a : attempt) : bool :=
  (Unix (window_start (at_time a)) =? w) &&
  bool_decide ((field, limit) ∈ login_fields (at_endpoint a) (at_ip a) (at_email a)).

Lemma run_agree {R} `{RedisHashLaws R} prefix tl t (r : R) atts :
  related prefix tl t r -> in_order tl atts -> run_redis prefix r atts = run_memory t atts.
Proof.
  revert tl t r. induction atts as [| a atts IH]; intros tl t r Hr Ho; [done |]. destruct Ho as [Hle Ho].
  cbn [run_memory run_redis]. destruct (allow_memory _ _ _ _ t) as [t' out] eqn:Em.
  destruct (allow_agree prefix tl _ _ _ _ _ _ _ _ Hr Hle Em) as (r' & -> & Hr'). f_equal. by eapply IH.
Qed.

(** ** Counting *)

Lemma throttle_check_below counts missing fields m f n :
  throttle_check counts missing fields = Some m -> (f, n) ∈ fields -> default 0 (counts !! f) < n.
Proof.
  revert missing. induction fields as [| [f' n'] fields IH]; intros missing; cbn [throttle_check].
  { intros _ Hin. by apply not_elem_of_nil in Hin. }
  destruct (Z.leb_spec n' (default 0 (counts !! f'))); [done |]. intros E [[= -> ->] | Hin]%elem_of_cons; [lia |].
  by eapply IH.
Qed.

Lemma throttle_count_mono fields counts f : default 0 (counts !! f) <= default 0 (throttle_count fields counts !! f).
Proof.
  revert counts. induction fields as [| [f' n'] fields IH]; intros counts; cbn [throttle_count]; [lia |].
  etransitivity; [| apply IH]. destruct (decide (f' = f)) as [->|]; [rewrite lookup_insert_eq; cbn; lia |].
  rewrite lookup_insert_ne by done. lia.
Qed.

Lemma throttle_count_in fields counts f n :
  (f, n) ∈ fields -> default 0 (counts !! f) + 1 <= default 0 (throttle_count fields counts !! f).
Proof.
  revert counts. induction fields as [| [f' n'] fields IH]; intros counts; [intros Hin; by apply not_elem_of_nil in Hin |].
  cbn [throttle_count]. intros [[= -> ->] | Hin]%elem_of_cons.
  - etransitivity; [| apply throttle_count_mono]. rewrite lookup_insert_eq. cbn. lia.
  - etransitivity; [| by apply IH]. destruct (decide (f' = f)) as [->|]; [rewrite lookup_insert_eq; cbn; lia |].
    rewrite lookup_insert_ne by done. lia.
Qed.

(** The counters cover what was let through in the current window; the past is
    within the limits and the windows to come are empty. *)
Definition counted (tl : Z) (t : loginThrottle) (past : list attempt) : Prop :=
  (forall f n, countZ (counts_under (lt_bucket t) f n) past <= default 0 (lt_counts t !! f)) /\
  (forall w f n, 0 <= n -> countZ (counts_under w f n) past <= n) /\
  (forall now f n, tl <= now -> Unix (window_start now) <> lt_bucket t ->
     countZ (counts_under (Unix (window_start now)) f n) past = 0) /\
  (countZ (fun _ => true) past = 0 \/ exists t0, t0 <= tl /\ Unix (window_start t0) = lt_bucket t).

Lemma counted_none past w f n : countZ (fun _ => true) past = 0 -> countZ (counts_under w f n) past = 0.
Proof.
  intros H0. pose proof (countZ_mono (counts_under w f n) (fun _ => true) past ltac:(done)).
  pose proof (countZ_nonneg (counts_under w f n) past). lia.
Qed.

Lemma counted_enter tl now t past :
  counted tl t past -> tl <= now ->
  counted now (if negb (lt_bucket t =? Unix (window_start now)) then mkLoginThrottle ∅ (Unix (window_start now)) else t) past.
Proof.
  intros (H1 & H2 & H3 & H4) Hle. destruct (Z.eqb_spec (lt_bucket t) (Unix (window_start now))) as [E|E]; cbn [negb].
  - split_and!; [done | done | | right; by exists now]. intros n f k Hn. apply H3. lia.
  - split_and!; cbn [lt_bucket lt_counts]; [| done | | right; by exists now].
    + intros f n. rewrite H3 by (done || congruence). rewrite lookup_empty. done.
    + intros n f k Hn En. destruct (decide (Unix (window_start n) = lt_bucket t)) as [Eb|Eb]; [| apply H3; [lia | done]].
      destruct H4 as [H0 | (t0 & Ht0 & Et0)]; [by apply counted_none |]. exfalso.
      pose proof (bucket_mono t0 now ltac:(lia)). pose proof (bucket_mono now n Hn). lia.
Qed.

Lemma counted_allow tl a t past t' status retry :
  counted tl t past -> tl <= at_time a ->
  allow_memory (at_time a) (at_endpoint a) (at_ip a) (at_email a) t = (t', (status, retry)) ->
  counted (at_time a) t' (if status =? 0 then a :: past else past).
Proof.
  intros Hc Hle. pose proof (counted_enter tl (at_time a) t past Hc Hle) as Hc1. unfold allow_memory.
  set (t1 := if negb _ then _ else t) in *. set (fields := login_fields _ _ _).
  assert (lt_bucket t1 = Unix (window_start (at_time a))) as Hb.
  { unfold t1. destruct (Z.eqb_spec (lt_bucket t) (Unix (window_start (at_time a)))); done. }
  destruct (throttle_check _ _ _) as [missing|] eqn:Ec; [| by intros [= <- <- <-]].
  destruct (loginCounterCapacity <? _); [by intros [= <- <- <-] |]. intros Heq.
  assert (t' = mkLoginThrottle (throttle_count fields (lt_counts t1)) (lt_bucket t1) /\ status = 0) as [-> ->]
    by (by injection Heq). cbn [Z.eqb].
  destruct Hc1 as (H1 & H2 & H3 & H4).
  assert (forall w f n, countZ (counts_under w f n) (a :: past) =
    (if counts_under w f n a then 1 else 0) + countZ (counts_under w f n) past) as Hcons by done.
  assert (forall w f n, counts_under w f n a = true ->
    w = lt_bucket t1 /\ (f, n) ∈ fields /\ default 0 (lt_counts t1 !! f) < n) as Hhit.
  { intros w f n [Hw%Z.eqb_eq Hf%bool_decide_eq_true]%andb_true_iff. split_and!; [congruence | done |].
    by eapply throttle_check_below. }
  split_and!; cbn [lt_bucket lt_counts].
  - intros f n. rewrite Hcons. specialize (H1 f n). destruct (counts_under _ f n a) eqn:E.
    + destruct (Hhit _ _ _ E) as (_ & Hin & _). pose proof (throttle_count_in _ (lt_counts t1) f n Hin). lia.
    + pose proof (throttle_count_mono fields (lt_counts t1) f). lia.
  - intros w f n Hn. rewrite Hcons. destruct (counts_under w f n a) eqn:E; [| specialize (H2 w f n Hn); lia].
    destruct (Hhit _ _ _ E) as (-> & _ & Hlt). specialize (H1 f n). lia.
  - intros n f k Hn En. rewrite Hcons, H3 by done. destruct (counts_under _ f k a) eqn:E; [| done].
    destruct (Hhit _ _ _ E) as (? & _ & _). congruence.
  - right. by exists (at_time a).
Qed.

Lemma counted_run tl t past atts :
  counted tl t past -> in_order tl atts ->
  forall w f n, 0 <= n -> countZ (counts_under w f n) (passed atts (run_memory t atts)) + countZ (counts_under w f n) past <= n.
Proof.
  revert tl t past. induction atts as [| a atts IH]; intros tl t past Hc Ho w f n Hn.
  { destruct Hc as (_ & H2 & _). exact (H2 w f n Hn). }
  destruct Ho as [Hle Ho]. cbn [run_memory]. destruct (allow_memory _ _ _ _ t) as [t' [status retry]] eqn:Em.
  cbn [passed]. pose proof (counted_allow _ _ _ _ _ _ _ Hc Hle Em) as Hc'.
  destruct (status =? 0); pose proof (IH _ _ _ Hc' Ho w f n Hn) as Hi; [| done].
  assert (forall l, countZ (counts_under w f n) (a :: l) =
    (if counts_under w f n a then 1 else 0) + countZ (counts_under w f n) l) as Hcons by done.
  rewrite Hcons in *. lia.
Qed.

(** Password guessing is bounded: whatever the sequence of attempts, in
    one 15-minute window at most 20 of one address and at most 5 of one account
    per endpoint get through to the password check, since each counter of an
    attempt admits at most its limit; attempts are counted whether or not
    they succeed. *)
Theorem login_attempts_bounded (tl : Z) (atts : list attempt) (w : Z) (field : string) (limit : Z)
    (Ho : in_order tl atts) (Hl : 0 <= limit) :
  countZ (counts_under w field limit) (passed atts (run_memory newLoginThrottle atts)) <= limit.
Proof.
  pose proof (counted_run tl newLoginThrottle [] atts) as Hr.
  assert (counted tl newLoginThrottle []) as Hc.
  { split_and!; [| done | done | by left]. intros f n. cbn [newLoginThrottle lt_counts].
    by rewrite lookup_empty. }
  specialize (Hr Hc Ho w field limit Hl). change (countZ (counts_under w field limit) []) with 0 in Hr. lia.
Qed.

(** The shared throttle is the local one: over any sequence of attempts, a
    Redis whose clock follows the gateway's and that starts without keys gives
    exactly the answers of the in-memory counters, so the expiry never forgets
    an attempt before its window ends and never carries one into the next. *)
Theorem throttle_backends_agree {R} `{RedisHashLaws R} (prefix : string) (tl : Z) (r : R) (atts : list attempt)
    (Hempty : forall k, hview r k = None) (Ho : in_order tl atts) :
  run_redis prefix r atts = run_memory newLoginThrottle atts.
Proof.
  apply (run_agree prefix tl); [| done]. split; cbn [newLoginThrottle lt_bucket lt_counts].
  - intros now _ _. by rewrite Hempty.
  - intros now _ _. apply Hempty.
  - left. by rewrite Hempty.
Qed.
End throttle.

(** ** Evaluation *)

(** Six attempts on one account: the sixth is refused. *)
Definition guesses : list attempt :=
  map (fun i => mkAttempt (63072000000000000000 + i * Second) "login" "10.0.0.1" "ada@example.com") [0; 1; 2; 3; 4; 5].

Definition plain (s : string) : string := s.

Lemma guesses_refused :
  map fst (run_memory plain newLoginThrottle guesses) = [0; 0; 0; 0; 0; StatusTooManyRequests].
Proof. vm_compute. reflexivity. Qed.

Lemma guesses_in_order : in_order 0 guesses.
Proof. vm_compute. repeat split; discriminate. Qed.

Lemma login_attempts_bounded_witness :
  countZ (counts_under plain 938390400 (loginIdentity plain "account" ("login" ++ nul ++ "ada@example.com")) 5)
    (passed guesses (run_memory plain newLoginThrottle guesses)) <= 5.
Proof. apply (login_attempts_bounded plain 0 guesses); [exact guesses_in_order | lia]. Defined.

Lemma throttle_backends_agree_witness :
  run_redis plain "gatemux" MapRedis.empty_db guesses = run_memory plain newLoginThrottle guesses.
Proof.
  apply (throttle_backends_agree plain "gatemux" 0 MapRedis.empty_db guesses); [| exact guesses_in_order].
  intros k. apply lookup_empty.
Defined.
