(* ===== verification/Gateway.v ===== *)
(** * Routing a request with fallback ([internal/api/v1.go] and
    [internal/api/routing_concurrency.go])

    A routed call resolves a deployment, takes a local permit and a
    provider-wide lease, marks the accounting entry as started, calls the
    upstream and falls back to another deployment on a retryable failure. The
    registry, the limits, the breakers, the policies and the leases are those
    of their own files; what the outside world does in an attempt (clocks,
    ends of Redis calls, the upstream's answer, the request's context) is an
    argument. Spans, metrics and log lines are left out. The events record the
    calls that take and give back a permit or a lease, in order. *)

From S2P Require Import Prelude GoStrings Admission Redis Concurrency Providers Breaker Limits Router Registry.

(** ** Errors *)

Record concurrencyAdmissionError := mkConcurrencyAdmissionError {
  ca_scope : string;
  ca_retryAfter : Z;
  ca_unavailable : bool;
}.

Inductive route_error :=
| RouteResolve (e : resolve_error)
| RouteSaturated
| RouteConcurrency (e : concurrencyAdmissionError)
| RouteAccounting
| RouteGuardrail
| RouteUpstream (e : go_error).

Definition canFallbackConcurrency (err : route_error) : bool :=
  match err with RouteConcurrency e => negb (ca_unavailable e) | _ => false end.

(** [concurrencyErrorDetails]: status, code and [Retry-After] seconds. *)
Definition concurrencyErrorDetails (err : route_error) : option (Z * string * Z) :=
  match err with
  | RouteConcurrency e =>
      let '(status, code) :=
        if ca_unavailable e then (503, "concurrency_limit_unavailable") else (429, "concurrency_limit_exceeded") in
      let seconds := (ca_retryAfter e +w (Second - 1)) /g Second in
      Some (status, code, if seconds <? 1 then 1 else seconds)
  | _ => None
  end.

(** The status, type and [Retry-After] of [writeRoutingError] for a request
    without guardrails. *)
Definition routing_error_response (err : route_error) : Z * string * option Z :=
  let '(status, errType, retry) :=
    match err with
    | RouteResolve ErrUnknownAlias => (404, "model_not_found", None)
    | RouteResolve ErrNoHealthyDeployment => (503, "upstream_unavailable", None)
    | RouteSaturated => (503, "server_overloaded", Some 1)
    | _ => (502, "upstream_error", None)
    end in
  let '(status, errType) :=
    match err with
    | RouteUpstream e =>
        match as_upstream e with
        | Some u =>
            if ue_StatusCode u =? 429 then (429, "rate_limit_exceeded")
            else if ue_StatusCode u =? 408 then (504, "upstream_timeout")
            else if 500 <=? ue_StatusCode u then (502, "upstream_unavailable")
            else (status, errType)
        | None => (status, errType)
        end
    | _ => (status, errType)
    end in
  let '(status, errType) :=
    match err with
    | RouteUpstream e => if is_deadline e then (504, "upstream_timeout") else (status, errType)
    | _ => (status, errType)
    end in
  match concurrencyErrorDetails err with
  | Some (s, code, seconds) => (s, code, Some seconds)
  | None =>
      match err with
      | RouteAccounting => (503, "accounting_unavailable", retry)
      | _ => (status, errType, retry)
      end
  end.

(** ** State *)

Inductive event :=
| TookPermit (name : string)
| GavePermit (name : string)
| TookLease (member : string)
| GaveLease (member : string)
| Called (name : string).

Record gateway (B R : Type) := mkGateway {
  gw_registry : Registry B;
  gw_policies : concurrencyPolicies;
  gw_redis : R;
  gw_started : bool;       (** [accountingRun.started] *)
  gw_events : list event;
}.
Arguments mkGateway {B R}.
Arguments gw_registry {B R}.
Arguments gw_policies {B R}.
Arguments gw_redis {B R}.
Arguments gw_started {B R}.
Arguments gw_events {B R}.

(** What the outside does during one attempt. *)
Record surroundings := mkSurroundings {
  en_now : Z;
  en_server_now : Z;
  en_acquire : io;
  en_release : io;
  en_lease_id : string;            (** [concurrency.NewRequestID()] *)
  en_until_deadline : option Z;
  en_mark : bool;                  (** [MarkAccountingStarted] succeeds *)
  en_ctx : option go_error;        (** [ctx.Err()] after the call *)
}.

(** How the provider's method ends. *)
Inductive call_result (A : Type) := Returned (r : result go_error A) | Panicked.
Arguments Returned {A}.
Arguments Panicked {A}.

Record upstreamPermit := mkUpstreamPermit { up_local : DeploymentPermit; up_provider : option Lease }.

(** How a routed call ends. *)
Inductive outcome (A : Type) :=
| Succeeded (target : Resolved) (a : A)
| Failed (target : option Resolved) (err : route_error)
| Paniced
| OutOfFuel.
Arguments Succeeded {A}.
Arguments Failed {A}.
Arguments Paniced {A}.
Arguments OutOfFuel {A}.

Section gateway.
Context {B R : Type} `{BreakerStore B, RedisZSet R}.
Variable getenv : string -> string.
(** The configured limiter, whether there is a policy store, whether the
    request is journaled and protected, and its team. *)
Variable limiter : option Limiter.
Variable has_store : bool.
Variable journaled : bool.
Variable guarded : bool.
Variable partition : Z.
Implicit Types (s : gateway B R).

Definition set_registry (r : Registry B) s : gateway B R :=
  mkGateway r (gw_policies s) (gw_redis s) (gw_started s) (gw_events s).
Definition set_redis (r : R) s : gateway B R :=
  mkGateway (gw_registry s) (gw_policies s) r (gw_started s) (gw_events s).
Definition set_started s : gateway B R :=
  mkGateway (gw_registry s) (gw_policies s) (gw_redis s) true (gw_events s).
Definition note (e : event) s : gateway B R :=
  mkGateway (gw_registry s) (gw_policies s) (gw_redis s) (gw_started s) (gw_events s ++ [e]).

Definition set_limits (l : Limits) (r : Registry B) : Registry B :=
  mkRegistry (rg_aliases r) (rg_aliasMeta r) (rg_deployments r) (rg_identities r) (rg_providers r)
    (rg_pricing r) (rg_rr r) (rg_breakers r) l (rg_breakerStore r).

Definition set_breaking (p : breakers * option B) (r : Registry B) : Registry B :=
  mkRegistry (rg_aliases r) (rg_aliasMeta r) (rg_deployments r) (rg_identities r) (rg_providers r)
    (rg_pricing r) (rg_rr r) p.1 (rg_deploymentLimits r) p.2.

(** ** Permits and leases *)

Definition tryAcquireDeployment (target : Resolved) s : gateway B R * option DeploymentPermit :=
  let '(l, permit, _) := TryAcquireDeployment (rv_DeploymentName target) (rg_deploymentLimits (gw_registry s)) in
  let s := set_registry (set_limits l (gw_registry s)) s in
  match permit with
  | Some p => (note (TookPermit (dp_name p)) s, Some p)
  | None => (s, None)
  end.

Definition releaseDeploymentPermit (p : DeploymentPermit) s : gateway B R :=
  note (GavePermit (dp_name p))
    (set_registry (set_limits (release_permit p (rg_deploymentLimits (gw_registry s))) (gw_registry s)) s).

(** [acquireConcurrencyScopes] *)
Definition acquireConcurrencyScopes (e : surroundings) (kind : string) (scopes : result string (list Scope)) s :
    gateway B R * result concurrencyAdmissionError (option Lease) :=
  match scopes with
  | Ok [] => (s, Ok None)
  | Err _ => (s, Err (mkConcurrencyAdmissionError kind 0 true))
  | Ok scopes =>
      let ttl := match en_until_deadline e with
                 | Some d => if 2 * Minute <? d +w 30 * Second then d +w 30 * Second else 2 * Minute
                 | None => 2 * Minute
                 end in
      let '(r, res) := Acquire limiter (en_acquire e) (en_server_now e)
                         (mkRequest (en_lease_id e) partition ttl scopes) (gw_redis s) in
      let s := set_redis r s in
      match res with
      | Err _ => (s, Err (mkConcurrencyAdmissionError kind 0 true))
      | Ok (lease, result) =>
          if negb (rs_Allowed result)
          then (s, Err (mkConcurrencyAdmissionError (rs_Scope result) (rs_RetryAfter result) false))
          else match lease with
               | Some le => (note (TookLease (le_member le)) s, Ok (Some le))
               | None => (s, Ok None)
               end
      end
  end.

Definition acquireRoutingScope (e : surroundings) (kind subject : string) s :
    gateway B R * result concurrencyAdmissionError (option Lease) :=
  acquireConcurrencyScopes e kind (ConcurrencyScope has_store (en_now e) kind subject (gw_policies s)) s.

(** [releaseRoutingLease]: an error of the release is only logged. *)
Definition releaseRoutingLease (e : surroundings) (lease : option Lease) s : gateway B R :=
  match lease with
  | None => s
  | Some le =>
      let '(r, _, _) := Concurrency.Release true (en_release e) (en_server_now e) (Some le) (gw_redis s) in
      note (GaveLease (le_member le)) (set_redis r s)
  end.

Definition markAccountingStarted (e : surroundings) s : gateway B R * bool :=
  if negb journaled || gw_started s then (s, true)
  else if en_mark e then (set_started s, true) else (s, false).

Definition plain_text_providers : list string := ["openai"; "openai_compatible"; "azure_openai"; "ollama"; "vllm"].

(** [tryAcquireUpstream]: [Ok None] is a saturated deployment. *)
Definition tryAcquireUpstream (e : surroundings) (target : Resolved) s :
    gateway B R * result route_error (option upstreamPermit) :=
  if guarded && negb (bool_decide (rv_ProviderType target ∈ plain_text_providers)) then (s, Err RouteGuardrail)
  else
    let '(s, local) := tryAcquireDeployment target s in
    match local with
    | None => (s, Ok None)
    | Some local =>
        let '(s, lease) := acquireRoutingScope e "provider" (rv_ProviderType target) s in
        match lease with
        | Err err => (releaseDeploymentPermit local s, Err (RouteConcurrency err))
        | Ok lease =>
            let '(s, marked) := markAccountingStarted e s in
            if marked then (s, Ok (Some (mkUpstreamPermit local lease)))
            else (releaseDeploymentPermit local (releaseRoutingLease e lease s), Err RouteAccounting)
        end
    end.

(** [releaseUpstreamPermit] of a permit that is still held. *)
Definition releaseUpstreamPermit (e : surroundings) (p : upstreamPermit) s : gateway B R :=
  releaseDeploymentPermit (up_local p) (releaseRoutingLease e (up_provider p) s).

Definition record_success (e : surroundings) (name : string) s : gateway B R :=
  let r := gw_registry s in
  set_registry (set_breaking (RecordSuccess (en_now e) name (rg_breakers r) (rg_breakerStore r)) r) s.

Definition record_failure (e : surroundings) (name : string) (err : go_error) s : gateway B R :=
  let r := gw_registry s in
  set_registry (set_breaking (RecordFailure (en_now e) name (Some err) (rg_breakers r) (rg_breakerStore r)) r) s.

(** ** Fallback *)

(** The error when no deployment is left to try. *)
Definition exhausted (lastErr : option route_error) (saturated : bool) (err : resolve_error) : route_error :=
  match lastErr with
  | Some e => e
  | None => if saturated then RouteSaturated else RouteResolve err
  end.

Section loops.
Context {A : Type}.
Variable alias : string.
Variable rc : ResolveContext.
Variable env : nat -> surroundings.
(** What the provider answers in an attempt. *)
Variable call : nat -> Resolved -> call_result A.

(** The loop of [runChatWithFallback] and [runEmbeddingsWithFallback], from
    the attempt [n] on. *)
Fixpoint fallback_loop (capability : Capability) (fuel n : nat) (tried : gset string)
    (lastErr : option route_error) (saturated : bool) s : gateway B R * outcome A :=
  match fuel with
  | O => (s, OutOfFuel)
  | S fuel =>
      let e := env n in
      let '(r, res) := ResolveWithContext getenv (en_now e) alias tried capability rc (gw_registry s) in
      let s := set_registry r s in
      match res with
      | Err err => (s, Failed None (exhausted lastErr saturated err))
      | Ok target =>
          let tried := {[rv_DeploymentName target]} ∪ tried in
          let '(s, acquired) := tryAcquireUpstream e target s in
          match acquired with
          | Err err =>
              if canFallbackConcurrency err
              then fallback_loop capability fuel (S n) tried (Some err) saturated s
              else (s, Failed None err)
          | Ok None => fallback_loop capability fuel (S n) tried lastErr true s
          | Ok (Some permit) =>
              let s := note (Called (rv_DeploymentName target)) s in
              let s := releaseUpstreamPermit e permit s in
              match call n target with
              | Panicked => (s, Paniced)
              | Returned (Ok resp) => (record_success e (rv_DeploymentName target) s, Succeeded target resp)
              | Returned (Err err) =>
                  let s := record_failure e (rv_DeploymentName target) err s in
                  if negb (IsRetryable (Some err)) || bool_decide (is_Some (en_ctx e))
                  then (s, Failed (Some target) (RouteUpstream err))
                  else fallback_loop capability fuel (S n) tried (Some (RouteUpstream err)) saturated s
              end
          end
      end
  end.

Definition runChatWithFallback (fuel : nat) s : gateway B R * outcome A :=
  fallback_loop CapabilityChat fuel 0 ∅ None false s.

Definition runEmbeddingsWithFallback (fuel : nat) s : gateway B R * outcome A :=
  fallback_loop CapabilityEmbeddings fuel 0 ∅ None false s.

(** [openStreamWithFallback]: [call] opens the stream and reads its first
    event; [stopped] is [ctx.Err()] before an attempt. A stream that opened
    keeps its permit. *)
Variable stopped : nat -> option go_error.

Fixpoint stream_loop (fuel n : nat) (tried : gset string) (lastErr : option route_error) (saturated : bool) s :
    gateway B R * outcome (A * upstreamPermit) :=
  match fuel with
  | O => (s, OutOfFuel)
  | S fuel =>
      match stopped n with
      | Some err => (s, Failed None (RouteUpstream err))
      | None =>
          let e := env n in
          let '(r, res) := ResolveWithContext getenv (en_now e) alias tried CapabilityStreamChat rc (gw_registry s) in
          let s := set_registry r s in
          match res with
          | Err err => (s, Failed None (exhausted lastErr saturated err))
          | Ok target =>
              let tried := {[rv_DeploymentName target]} ∪ tried in
              let '(s, acquired) := tryAcquireUpstream e target s in
              match acquired with
              | Err err =>
                  if canFallbackConcurrency err then stream_loop fuel (S n) tried (Some err) saturated s
                  else (s, Failed None err)
              | Ok None => stream_loop fuel (S n) tried lastErr true s
              | Ok (Some permit) =>
                  let s := note (Called (rv_DeploymentName target)) s in
                  match call n target with
                  | Panicked => (releaseUpstreamPermit e permit s, Paniced)
                  | Returned (Ok body) => (s, Succeeded target (body, permit))
                  | Returned (Err err) =>
                      let s := record_failure e (rv_DeploymentName target) err (releaseUpstreamPermit e permit s) in
                      if negb (IsRetryable (Some err)) || bool_decide (is_Some (en_ctx e))
                      then (s, Failed (Some target) (RouteUpstream err))
                      else stream_loop fuel (S n) tried (Some (RouteUpstream err)) saturated s
                  end
              end
          end
      end
  end.

Definition openStreamWithFallback (fuel : nat) s : gateway B R * outcome (A * upstreamPermit) :=
  stream_loop fuel 0 ∅ None false s.
End loops.
End gateway.

(** ** Permits are bracketed *)

(** The permits and leases held after a sequence of events; [None] when one is
    given back that was not taken last, or a deployment is called without
    exactly its own permit. *)
Fixpoint replay (evs : list event) (ps ls : list string) : option (list string * list string) :=
  match evs with
  | [] => Some (ps, ls)
  | TookPermit p :: rest => replay rest (p :: ps) ls
  | GavePermit p :: rest =>
      match ps with p' :: ps => if (p' =? p)%string then replay rest ps ls else None | [] => None end
  | TookLease l :: rest => replay rest ps (l :: ls)
  | GaveLease l :: rest =>
      match ls with l' :: ls => if (l' =? l)%string then replay rest ps ls else None | [] => None end
  | Called p :: rest => if bool_decide (ps = [p]) then replay rest ps ls else None
  end.

Lemma replay_app a b ps ls :
  replay (a ++ b) ps ls = match replay a ps ls with Some (ps, ls) => replay b ps ls | None => None end.
Proof.
  revert ps ls. induction a as [| ev a IH]; intros ps ls; [done |].
  destruct ev; cbn [app replay]; try apply IH.
  - destruct ps as [| p ps]; [done |]. destruct (p =? name)%string; [apply IH | done].
  - destruct ls as [| l ls]; [done |]. destruct (l =? member)%string; [apply IH | done].
  - destruct (bool_decide _); [apply IH | done].
Qed.

(** Leases held from before are not touched. *)
Lemma replay_held evs held : forall ps ls ps' ls',
  replay evs ps ls = Some (ps', ls') -> replay evs ps (ls ++ held) = Some (ps', ls' ++ held).
Proof.
  induction evs as [| ev evs IH]; intros ps ls ps' ls'; [by intros [= <- <-] |].
  destruct ev; cbn [replay].
  - apply IH.
  - destruct ps as [| p ps]; [done |]. destruct (p =? name)%string; [apply IH | done].
  - apply (IH ps (member :: ls)).
  - destruct ls as [| l ls]; [done |]. cbn [app]. destruct (l =? member)%string; [apply IH | done].
  - destruct (bool_decide _); [apply IH | done].
Qed.

Definition calls (evs : list event) : list string :=
  omap (fun ev => match ev with Called p => Some p | _ => None end) evs.

Lemma calls_app a b : calls (a ++ b) = calls a ++ calls b.
Proof. apply omap_app. Qed.

(** ** Counters *)

(** The same counters under the same names. *)
Definition same_counters (l l' : Limits) : Prop :=
  lt_names l' = lt_names l /\ forall q, stats (lt_heap l') q = stats (lt_heap l) q.

#[export] Instance same_counters_equiv : Equivalence same_counters.
Proof.
  split.
  - by intros l.
  - intros l l' [E Hs]. split; [done |]. intros q. by rewrite Hs.
  - intros l1 l2 l3 [E1 H1] [E2 H2]. split; [congruence |]. intros q. by rewrite H2, H1.
Qed.

Lemma stats_insert heap p c q : stats (<[p := c]> heap) q = if decide (p = q) then c else stats heap q.
Proof.
  unfold stats. case_decide as E; [subst; by rewrite lookup_insert_eq | by rewrite lookup_insert_ne].
Qed.

#[export] Instance release_permit_proper p : Proper (same_counters ==> same_counters) (release_permit p).
Proof.
  intros l l' [E Hs]. unfold release_permit. destruct (dp_counter p) as [q|]; [| done].
  split; [done |]. intros q'. cbn [lt_heap]. rewrite !stats_insert, Hs. by case_decide.
Qed.

(** Taking a permit and giving it back restores every counter; a refusal
    changes none. *)
Lemma TryAcquireDeployment_counters name l l' p st :
  TryAcquireDeployment name l = (l', p, st) ->
  match p with
  | Some p => dp_name p = name /\ same_counters l (release_permit p l')
  | None => same_counters l l'
  end.
Proof.
  unfold TryAcquireDeployment. destruct (lt_names l) as [names|] eqn:En.
  2: { intros [= <- <- _]. split; [done |]. cbn. reflexivity. }
  destruct (names !! name) as [q|]; [| intros [= <- <- _]; reflexivity].
  unfold Counter.TryAcquire. destruct (_ && _); intros [= <- <- _].
  - split; [done |]. intros q'. cbn [lt_heap]. rewrite stats_insert. by case_decide; subst.
  - split; [done |]. split; [done |]. intros q'. cbn [release_permit dp_counter lt_heap lt_names].
    rewrite !stats_insert. case_decide; [subst q' | done]. rewrite ?decide_True by done.
    unfold Counter.Release. cbn. destruct (stats (lt_heap l) q). cbn. f_equal. lia.
Qed.

(** ** One attempt *)

Section facts.
Context {B R : Type} `{BreakerStore B, RedisZSet R}.
Variable getenv : string -> string.
Variable limiter : option Limiter.
Variables has_store journaled guarded : bool.
Variable partition : Z.
Implicit Types (s : gateway B R).

#[local] Abbreviation lims s := (rg_deploymentLimits (gw_registry s)).
#[local] Abbreviation try_upstream := (tryAcquireUpstream limiter has_store journaled guarded partition).

(** The aliases are the same, the counters agree, and these events happened. *)
Definition frame s s' (evs : list event) : Prop :=
  rg_aliases (gw_registry s') = rg_aliases (gw_registry s) /\ same_counters (lims s) (lims s') /\
  gw_events s' = gw_events s ++ evs.

Lemma frame_refl s : frame s s [].
Proof. split_and!; [done | reflexivity | by rewrite app_nil_r]. Qed.

Lemma frame_trans s1 s2 s3 a b : frame s1 s2 a -> frame s2 s3 b -> frame s1 s3 (a ++ b).
Proof.
  intros (A1 & C1 & E1) (A2 & C2 & E2). split_and!; [congruence | by etransitivity |].
  by rewrite E2, E1, app_assoc.
Qed.

(** The members a lease adds to what is held. *)
Definition lease_members (lease : option Lease) : list string :=
  match lease with Some le => [le_member le] | None => [] end.

Definition took (lease : option Lease) : list event :=
  match lease with Some le => [TookLease (le_member le)] | None => [] end.
Definition gave (lease : option Lease) : list event :=
  match lease with Some le => [GaveLease (le_member le)] | None => [] end.

Lemma acquireConcurrencyScopes_spec e kind scopes s s' res :
  acquireConcurrencyScopes limiter partition e kind scopes s = (s', res) ->
  gw_registry s' = gw_registry s /\
  gw_events s' = gw_events s ++ match res with Ok lease => took lease | Err _ => [] end.
Proof.
  unfold acquireConcurrencyScopes. destruct scopes as [[| sc scs]|]; try (intros [= <- <-]; by rewrite app_nil_r).
  destruct (Acquire _ _ _ _ _) as [r [[lease result]|]]; [| intros [= <- <-]; by rewrite app_nil_r].
  destruct (negb (rs_Allowed result)); [intros [= <- <-]; by rewrite app_nil_r |].
  destruct lease; intros [= <- <-]; [done | by rewrite app_nil_r].
Qed.

Lemma acquireRoutingScope_spec e kind subject s s' res :
  acquireRoutingScope limiter has_store partition e kind subject s = (s', res) ->
  gw_registry s' = gw_registry s /\
  gw_events s' = gw_events s ++ match res with Ok lease => took lease | Err _ => [] end.
Proof. apply acquireConcurrencyScopes_spec. Qed.

Lemma releaseRoutingLease_spec e lease s :
  gw_registry (releaseRoutingLease e lease s) = gw_registry s /\
  gw_events (releaseRoutingLease e lease s) = gw_events s ++ gave lease.
Proof.
  unfold releaseRoutingLease. destruct lease as [le|]; [| by rewrite app_nil_r].
  destruct (Concurrency.Release _ _ _ _ _) as [[r o] b]. done.
Qed.

Lemma markAccountingStarted_spec e s :
  gw_registry (markAccountingStarted journaled e s).1 = gw_registry s /\
  gw_events (markAccountingStarted journaled e s).1 = gw_events s.
Proof. unfold markAccountingStarted. by repeat case_match. Qed.

(** What [releaseUpstreamPermit] does. *)
Lemma releaseUpstreamPermit_spec e p s :
  rg_aliases (gw_registry (releaseUpstreamPermit e p s)) = rg_aliases (gw_registry s) /\
  lims (releaseUpstreamPermit e p s) = release_permit (up_local p) (lims s) /\
  gw_events (releaseUpstreamPermit e p s) = gw_events s ++ gave (up_provider p) ++ [GavePermit (dp_name (up_local p))].
Proof.
  destruct (releaseRoutingLease_spec e (up_provider p) s) as [Er Ee].
  unfold releaseUpstreamPermit, releaseDeploymentPermit. cbn. by rewrite Er, Ee, app_assoc.
Qed.

(** An attempt that gets no permit leaves nothing behind; one that does holds
    exactly its own permit and lease. *)
Lemma tryAcquireUpstream_spec e target s s' res :
  try_upstream e target s = (s', res) ->
  match res with
  | Ok (Some p) =>
      rg_aliases (gw_registry s') = rg_aliases (gw_registry s) /\
      same_counters (lims s) (release_permit (up_local p) (lims s')) /\
      dp_name (up_local p) = rv_DeploymentName target /\
      gw_events s' = gw_events s ++ [TookPermit (rv_DeploymentName target)] ++ took (up_provider p)
  | _ => exists evs, frame s s' evs /\ calls evs = [] /\ replay evs [] [] = Some ([], [])
  end.
Proof.
  unfold tryAcquireUpstream. destruct (guarded && _).
  { intros [= <- <-]. exists []. split_and!; [apply frame_refl | done | done]. }
  unfold tryAcquireDeployment. destruct (TryAcquireDeployment _ _) as [[l local] st] eqn:Ea.
  apply TryAcquireDeployment_counters in Ea. destruct local as [local|].
  2: { intros [= <- <-]. exists []. split_and!; [| done | done]. split_and!; [done | done | by rewrite app_nil_r]. }
  destruct Ea as [En Hback].
  destruct (acquireRoutingScope _ _ _ _ _ _ _) as [s1 lease] eqn:El.
  apply acquireRoutingScope_spec in El as [Er1 Ee1]. cbn [gw_registry gw_events note set_registry] in Er1, Ee1.
  destruct lease as [lease|err].
  2: { intros [= <- <-]. exists [TookPermit (dp_name local); GavePermit (dp_name local)].
       split_and!; [| done | cbn; by rewrite String.eqb_refl].
       unfold releaseDeploymentPermit. split_and!; cbn; rewrite ?Er1, ?Ee1; [done | done |].
       by rewrite app_nil_r, <- app_assoc. }
  destruct (markAccountingStarted_spec e s1) as [Er2 Ee2].
  destruct (markAccountingStarted journaled e s1) as [s2 marked]. cbn [fst] in Er2, Ee2.
  destruct marked; intros [= <- <-]; cbn [up_local up_provider].
  - rewrite Er2, Ee2, Er1, Ee1, En. split_and!; [done | done | done |]. by rewrite <- app_assoc.
  - destruct (releaseRoutingLease_spec e lease s2) as [Er3 Ee3].
    exists (TookPermit (dp_name local) :: took lease ++ gave lease ++ [GavePermit (dp_name local)]). split_and!.
    + unfold releaseDeploymentPermit. split_and!; cbn; rewrite ?Er3, ?Ee3, ?Er2, ?Ee2, ?Er1, ?Ee1; [done | done |].
      by rewrite <- !app_assoc.
    + by destruct lease.
    + destruct lease; cbn; by rewrite ?String.eqb_refl.
Qed.

(** The registry's lookups of the next target. *)
Lemma resolve_next now alias tried capability rc (r r' : Registry B) target :
  ResolveWithContext getenv now alias tried capability rc r = (r', Ok target) ->
  (rv_DeploymentName target ∉ tried) /\
  rv_DeploymentName target ∈ map DeploymentName (default [] (rg_aliases r !! alias)).
Proof.
  intros E. pose proof (resolve_spec getenv now alias tried capability rc r) as Hs. cbv zeta in Hs. rewrite E in Hs.
  destruct Hs as (targets & t & Ha & Ht & Hn & _ & Hu & _). rewrite Ha, Hn. split.
  - unfold usable in Hu. apply andb_true_iff in Hu as [Hu _]. by apply negb_true_iff, bool_decide_eq_false in Hu.
  - by apply list_elem_of_fmap_2.
Qed.

Lemma resolve_frame now alias tried capability rc s r' res :
  ResolveWithContext getenv now alias tried capability rc (gw_registry s) = (r', res) ->
  frame s (set_registry r' s) [].
Proof.
  intros E. pose proof (resolve_routing getenv now alias tried capability rc (gw_registry s)) as Hr. rewrite E in Hr.
  destruct Hr as (Ha & _ & _ & _ & _ & _ & Hl & _). cbn [fst] in Ha, Hl. split_and!; cbn; [done | by rewrite Hl | by rewrite app_nil_r].
Qed.

(** ** The loops *)

Section loop_facts.
Context {A : Type}.
Variable alias : string.
Variable rc : ResolveContext.
Variable env : nat -> surroundings.
Variable call : nat -> Resolved -> call_result A.
Variable stopped : nat -> option go_error.

#[local] Abbreviation loop := (fallback_loop getenv limiter has_store journaled guarded partition alias rc env call).
#[local] Abbreviation streams :=
  (stream_loop getenv limiter has_store journaled guarded partition alias rc env call stopped).

#[local] Abbreviation run_chat :=
  (runChatWithFallback getenv limiter has_store journaled guarded partition alias rc env call).
#[local] Abbreviation run_embeddings :=
  (runEmbeddingsWithFallback getenv limiter has_store journaled guarded partition alias rc env call).
#[local] Abbreviation open_stream :=
  (openStreamWithFallback getenv limiter has_store journaled guarded partition alias rc env call stopped).

(** The deployments of the alias. *)
Definition names_of s : list string := map DeploymentName (default [] (rg_aliases (gw_registry s) !! alias)).

(** What the events of a run may be: brackets closed, each deployment of the
    alias called at most once and none that was tried before. *)
Definition run_ok s (tried : gset string) (evs : list event) (ps ls : list string) : Prop :=
  replay evs [] [] = Some (ps, ls) /\ NoDup (calls evs) /\
  forall d, d ∈ calls evs -> d ∈ names_of s /\ d ∉ tried.

Lemma names_of_frame s s' evs : frame s s' evs -> names_of s' = names_of s.
Proof. intros (E & _). unfold names_of. by rewrite E. Qed.

(** Continuing after an attempt that left nothing behind. *)
Lemma run_ok_later s s' tried d before evs ps ls :
  frame s s' before -> replay before [] [] = Some ([], []) -> d ∈ names_of s -> d ∉ tried ->
  (calls before = [] \/ calls before = [d]) ->
  run_ok s' ({[d]} ∪ tried) evs ps ls -> run_ok s tried (before ++ evs) ps ls.
Proof.
  intros Hf Hb Hd Hnt Hc (Hr & Hnd & Hin). rewrite (names_of_frame _ _ _ Hf) in Hin. split_and!.
  - by rewrite replay_app, Hb.
  - rewrite calls_app. destruct Hc as [-> | ->]; [done |]. apply NoDup_cons. split; [| done].
    intros Hx. destruct (Hin d Hx) as [_ Hx']. set_solver.
  - intros x. rewrite calls_app, elem_of_app. intros [Hx | Hx].
    + destruct Hc as [Hc | Hc]; rewrite Hc in Hx; [by apply not_elem_of_nil in Hx |].
      apply list_elem_of_singleton in Hx as ->. done.
    + destruct (Hin x Hx). split; [done | set_solver].
Qed.

(** An attempt that called its deployment and gave everything back. *)
Lemma called_frame e target s s1 p k :
  try_upstream e target s = (s1, Ok (Some p)) ->
  (forall s0, rg_aliases (gw_registry (k s0)) = rg_aliases (gw_registry s0) /\ lims (k s0) = lims s0 /\
     gw_events (k s0) = gw_events s0) ->
  exists evs, frame s (k (releaseUpstreamPermit e p (note (Called (rv_DeploymentName target)) s1))) evs /\
    replay evs [] [] = Some ([], []) /\ calls evs = [rv_DeploymentName target].
Proof.
  intros Ht Hk. apply tryAcquireUpstream_spec in Ht as (Ha & Hc & Hn & He).
  set (s2 := note (Called (rv_DeploymentName target)) s1).
  destruct (releaseUpstreamPermit_spec e p s2) as (Ra & Rl & Re).
  destruct (Hk (releaseUpstreamPermit e p s2)) as (Ka & Kl & Ke).
  exists ([TookPermit (rv_DeploymentName target)] ++ took (up_provider p) ++ [Called (rv_DeploymentName target)] ++
    gave (up_provider p) ++ [GavePermit (rv_DeploymentName target)]). split_and!.
  - split_and!; rewrite ?Ka, ?Kl, ?Ke, ?Ra, ?Rl, ?Re; cbn; [done | done |]. by rewrite He, Hn, <- !app_assoc.
  - destruct (up_provider p); cbn; by rewrite ?bool_decide_true, ?String.eqb_refl.
  - by destruct (up_provider p).
Qed.

Lemma record_success_quiet e name s0 :
  rg_aliases (gw_registry (record_success e name s0)) = rg_aliases (gw_registry s0) /\
  lims (record_success e name s0) = lims s0 /\ gw_events (record_success e name s0) = gw_events s0.
Proof. done. Qed.

Lemma record_failure_quiet e name err s0 :
  rg_aliases (gw_registry (record_failure e name err s0)) = rg_aliases (gw_registry s0) /\
  lims (record_failure e name err s0) = lims s0 /\ gw_events (record_failure e name err s0) = gw_events s0.
Proof. done. Qed.

(** A run that stops after one attempt. *)
Lemma run_ok_one s tried d evs :
  replay evs [] [] = Some ([], []) -> d ∈ names_of s -> d ∉ tried ->
  (calls evs = [] \/ calls evs = [d]) -> run_ok s tried evs [] [].
Proof.
  intros Hr Hd Hnt Hc. split_and!; [done | destruct Hc as [-> | ->]; [constructor | apply NoDup_singleton] |].
  intros x Hx. destruct Hc as [Hc | Hc]; rewrite Hc in Hx; [by apply not_elem_of_nil in Hx |].
  by apply list_elem_of_singleton in Hx as ->.
Qed.

Lemma fallback_spec capability fuel : forall n tried lastErr saturated s s' out,
  loop capability fuel n tried lastErr saturated s = (s', out) ->
  exists evs, frame s s' evs /\ run_ok s tried evs [] [] /\
    forall target a, out = Succeeded target a -> exists m, call m target = Returned (Ok a).
Proof.
  induction fuel as [| fuel IH]; intros n tried lastErr saturated s s' out; cbn [fallback_loop].
  { intros [= <- <-]. exists []. split_and!; [apply frame_refl | | done]. split_and!; [done | constructor |].
    intros d Hd. by apply not_elem_of_nil in Hd. }
  destruct (ResolveWithContext _ _ _ _ _ _ _) as [r res] eqn:Er. pose proof (resolve_frame _ _ _ _ _ _ _ _ Er) as Hf0.
  destruct res as [target|err].
  2: { intros [= <- <-]. exists []. split_and!; [done | | done]. split_and!; [done | constructor |].
       intros d Hd. by apply not_elem_of_nil in Hd. }
  destruct (resolve_next _ _ _ _ _ _ _ _ Er) as [Hnt Hin]. fold (names_of s) in Hin.
  set (s0 := set_registry r s) in *. destruct (try_upstream (env n) target s0) as [s1 acq] eqn:Et.
  assert (forall evs s2, frame s0 s2 evs -> frame s s2 evs) as Hfr by (intros evs s2; apply (frame_trans _ _ _ [] evs Hf0)).
  assert (forall evs2 s2 (P : Prop), replay evs2 [] [] = Some ([], []) ->
    (calls evs2 = [] \/ calls evs2 = [rv_DeploymentName target]) -> frame s s2 evs2 ->
    (exists evs, frame s2 s' evs /\ run_ok s2 ({[rv_DeploymentName target]} ∪ tried) evs [] [] /\ P) ->
    exists evs, frame s s' evs /\ run_ok s tried evs [] [] /\ P) as Hlater.
  { intros evs2 s2 P Hb Hc Hf2 (evs & Hf & Hok & HP). exists (evs2 ++ evs).
    split_and!; [by eapply frame_trans | by eapply run_ok_later | done]. }
  destruct acq as [[p|]|err].
  - destruct (call n target) as [[resp|err]|] eqn:Ec.
    + intros [= <- <-]. destruct (called_frame _ _ _ _ _ _ Et (record_success_quiet (env n) (rv_DeploymentName target)))
        as (evs & Hf & Hb & Hc).
      exists evs. split_and!; [by apply Hfr | by eapply run_ok_one; eauto |]. intros t a [= <- <-]. eauto.
    + destruct (called_frame _ _ _ _ _ _ Et (record_failure_quiet (env n) (rv_DeploymentName target) err))
        as (evs & Hf & Hb & Hc).
      destruct (negb _ || _).
      * intros [= <- <-]. exists evs. split_and!; [by apply Hfr | by eapply run_ok_one; eauto | done].
      * intros E. apply IH in E. eapply Hlater; [exact Hb | by right | by apply Hfr | exact E].
    + intros [= <- <-]. destruct (called_frame _ _ _ _ _ (fun x => x) Et ltac:(done)) as (evs & Hf & Hb & Hc).
      exists evs. split_and!; [by apply Hfr | by eapply run_ok_one; eauto | done].
  - apply tryAcquireUpstream_spec in Et as (evs & Hf & Hc & Hb). intros E. apply IH in E.
    eapply Hlater; [exact Hb | by left | by apply Hfr | exact E].
  - apply tryAcquireUpstream_spec in Et as (evs & Hf & Hc & Hb). destruct (canFallbackConcurrency err).
    + intros E. apply IH in E. eapply Hlater; [exact Hb | by left | by apply Hfr | exact E].
    + intros [= <- <-]. exists evs. split_and!; [by apply Hfr | by eapply run_ok_one; eauto | done].
Qed.

(** A stream that opened holds exactly its own permit and lease. *)
Definition stream_post s (tried : gset string) s' (out : outcome (A * upstreamPermit)) (evs : list event) : Prop :=
  rg_aliases (gw_registry s') = rg_aliases (gw_registry s) /\ gw_events s' = gw_events s ++ evs /\
  match out with
  | Succeeded target (a, p) =>
      same_counters (lims s) (release_permit (up_local p) (lims s')) /\
      dp_name (up_local p) = rv_DeploymentName target /\
      run_ok s tried evs [rv_DeploymentName target] (lease_members (up_provider p))
  | _ => same_counters (lims s) (lims s') /\ run_ok s tried evs [] []
  end.

Lemma stream_post_closed s tried s' out evs :
  frame s s' evs -> run_ok s tried evs [] [] -> (forall t a, out <> Succeeded t a) -> stream_post s tried s' out evs.
Proof. intros (? & ? & ?) Hok Hn. split; [done |]. split; [done |]. destruct out; try done. by edestruct Hn. Qed.

Lemma stream_post_later s s2 tried s' d before evs out :
  frame s s2 before -> replay before [] [] = Some ([], []) -> d ∈ names_of s -> d ∉ tried ->
  (calls before = [] \/ calls before = [d]) ->
  stream_post s2 ({[d]} ∪ tried) s' out evs -> stream_post s tried s' out (before ++ evs).
Proof.
  intros Hf Hb Hd Hnt Hc (Ha & He & Hout). pose proof Hf as (Ha2 & Hc2 & He2).
  split; [congruence |]. split; [by rewrite He, He2, app_assoc |].
  destruct out as [target [a p] | | |].
  - destruct Hout as (Hs & Hn & Hok). split; [by etransitivity |]. split; [done | by eapply run_ok_later].
  - destruct Hout as (Hs & Hok). split; [by etransitivity | by eapply run_ok_later].
  - destruct Hout as (Hs & Hok). split; [by etransitivity | by eapply run_ok_later].
  - destruct Hout as (Hs & Hok). split; [by etransitivity | by eapply run_ok_later].
Qed.

Lemma stream_opened e s s1 tried target p a :
  try_upstream e target s = (s1, Ok (Some p)) -> rv_DeploymentName target ∈ names_of s ->
  rv_DeploymentName target ∉ tried ->
  exists evs, stream_post s tried (note (Called (rv_DeploymentName target)) s1) (Succeeded target (a, p)) evs.
Proof.
  intros Et Hin Hnt. apply tryAcquireUpstream_spec in Et as (Ha & Hc & Hn & He).
  exists ([TookPermit (rv_DeploymentName target)] ++ took (up_provider p) ++ [Called (rv_DeploymentName target)]).
  split; [done |]. split; [cbn; by rewrite He, <- !app_assoc |]. split; [done |]. split; [done |]. split_and!.
  - destruct (up_provider p); cbn; by rewrite bool_decide_true.
  - destruct (up_provider p); apply NoDup_singleton.
  - intros d Hd. assert (d = rv_DeploymentName target) as ->; [| done].
    destruct (up_provider p); by apply list_elem_of_singleton in Hd.
Qed.

(** A permit that was taken and not used yet. *)
Lemma stream_acquired e s s1 tried target p a :
  try_upstream e target s = (s1, Ok (Some p)) -> exists evs, stream_post s tried s1 (Succeeded target (a, p)) evs /\ calls evs = [].
Proof.
  intros Et. apply tryAcquireUpstream_spec in Et as (Ha & Hc & Hn & He).
  exists ([TookPermit (rv_DeploymentName target)] ++ took (up_provider p)). split; [| by destruct (up_provider p)].
  split; [done |]. split; [done |]. split; [done |]. split; [done |]. split_and!.
  - by destruct (up_provider p).
  - destruct (up_provider p); constructor.
  - intros d Hd. destruct (up_provider p); by apply not_elem_of_nil in Hd.
Qed.

(** A post from a state with the same aliases, counters and events. *)
Lemma stream_post_same s s0 tried s' out evs : frame s s0 [] -> stream_post s0 tried s' out evs -> stream_post s tried s' out evs.
Proof.
  intros Hf. pose proof (names_of_frame _ _ _ Hf) as Hn. destruct Hf as (F1 & F2 & F3). rewrite app_nil_r in F3.
  unfold stream_post, run_ok. rewrite F1, F3, Hn. intros (? & ? & Hout). split_and!; [done | done |].
  destruct out as [target [a p] | | |]; destruct Hout as (Hs & Hok); (split; [by etransitivity | exact Hok]).
Qed.

Lemma run_ok_nil s tried : run_ok s tried [] [] [].
Proof. split_and!; [done | constructor |]. intros d Hd. by apply not_elem_of_nil in Hd. Qed.

Lemma stream_spec fuel : forall n tried lastErr saturated s s' out,
  streams fuel n tried lastErr saturated s = (s', out) -> exists evs, stream_post s tried s' out evs.
Proof.
  induction fuel as [| fuel IH]; intros n tried lastErr saturated s s' out; cbn [stream_loop].
  { intros [= <- <-]. exists []. apply stream_post_closed; [apply frame_refl | apply run_ok_nil | done]. }
  destruct (stopped n).
  { intros [= <- <-]. exists []. apply stream_post_closed; [apply frame_refl | apply run_ok_nil | done]. }
  destruct (ResolveWithContext _ _ _ _ _ _ _) as [r res] eqn:Er. pose proof (resolve_frame _ _ _ _ _ _ _ _ Er) as Hf0.
  destruct res as [target|err].
  2: { intros [= <- <-]. exists []. apply stream_post_closed; [done | apply run_ok_nil | done]. }
  destruct (resolve_next _ _ _ _ _ _ _ _ Er) as [Hnt Hin]. fold (names_of s) in Hin.
  set (s0 := set_registry r s) in *. destruct (try_upstream (env n) target s0) as [s1 acq] eqn:Et.
  assert (forall evs s2, frame s0 s2 evs -> frame s s2 evs) as Hfr by (intros evs s2; apply (frame_trans _ _ _ [] evs Hf0)).
  destruct acq as [[p|]|err].
  - destruct (call n target) as [[body|err]|] eqn:Ec.
    + intros [= <- <-]. destruct (stream_opened _ _ _ tried _ _ body Et) as (evs & Hpost); [| done |].
      { by rewrite (names_of_frame _ _ _ Hf0). }
      exists evs. by eapply stream_post_same.
    + destruct (called_frame _ _ _ _ _ _ Et (record_failure_quiet (env n) (rv_DeploymentName target) err))
        as (evs & Hf & Hb & Hc).
      destruct (negb _ || _).
      * intros [= <- <-]. exists evs. apply stream_post_closed; [by apply Hfr | by eapply run_ok_one; eauto | done].
      * intros E. apply IH in E as (evs' & E). exists (evs ++ evs'). eapply stream_post_later; eauto.
    + intros [= <- <-]. destruct (called_frame _ _ _ _ _ (fun x => x) Et ltac:(done)) as (evs & Hf & Hb & Hc).
      exists evs. apply stream_post_closed; [by apply Hfr | by eapply run_ok_one; eauto | done].
  - apply tryAcquireUpstream_spec in Et as (evs & Hf & Hc & Hb). intros E. apply IH in E as (evs' & E).
    exists (evs ++ evs'). eapply stream_post_later; eauto.
  - apply tryAcquireUpstream_spec in Et as (evs & Hf & Hc & Hb). destruct (canFallbackConcurrency err).
    + intros E. apply IH in E as (evs' & E). exists (evs ++ evs'). eapply stream_post_later; eauto.
    + intros [= <- <-]. exists evs. apply stream_post_closed; [by apply Hfr | by eapply run_ok_one; eauto | done].
Qed.

(** What a stream is opened with is what a deployment answered. *)
Lemma stream_answer fuel : forall n tried lastErr saturated s target a p,
  (streams fuel n tried lastErr saturated s).2 = Succeeded target (a, p) -> exists m, call m target = Returned (Ok a).
Proof.
  induction fuel as [| fuel IH]; intros n tried lastErr saturated s target a p; cbn [stream_loop]; [done |].
  destruct (stopped n); [done |]. destruct (ResolveWithContext _ _ _ _ _ _ _) as [r [t|err]]; [| done].
  destruct (try_upstream _ _ _) as [s1 [[permit|]|err]]; [| by apply IH | destruct (canFallbackConcurrency err); [by apply IH | done]].
  destruct (call n t) as [[body|err]|] eqn:Ec; [| destruct (_ || _); [done | by apply IH] | done].
  intros [= <- <- <-]. by exists n.
Qed.

(** ** Calls are marked first *)

(** The mark stays, it comes from a mark that succeeded, and without it no
    deployment is called. *)
Definition marks (ok : Prop) s s' : Prop :=
  (gw_started s = true -> gw_started s' = true) /\ (gw_started s' = true -> gw_started s = true \/ ok) /\
  (calls (gw_events s') = calls (gw_events s) \/ gw_started s' = true).

#[local] Instance marks_preorder ok : PreOrder (marks ok).
Proof using Type.
  split; [by intros s; split_and!; auto |]. intros s1 s2 s3 (A1 & B1 & C1) (A2 & B2 & C2). split_and!.
  1: auto.
  1: intros Hs; destruct (B2 Hs) as [Hs2 | ?]; [exact (B1 Hs2) | by right].
  destruct C2 as [E2 | ?]; [| by right]. destruct C1 as [E1 | ?]; [left; congruence | right; auto].
Qed.

Lemma marks_quiet ok s s' :
  gw_started s' = gw_started s -> calls (gw_events s') = calls (gw_events s) -> marks ok s s'.
Proof. intros Es Ec. unfold marks. rewrite Es. split_and!; auto. Qed.

Lemma lease_calls lease : calls (took lease) = [] /\ calls (gave lease) = [].
Proof. by destruct lease. Qed.

Lemma acquireRoutingScope_started e kind subject s :
  gw_started (acquireRoutingScope limiter has_store partition e kind subject s).1 = gw_started s.
Proof. unfold acquireRoutingScope, acquireConcurrencyScopes. by repeat case_match. Qed.

Lemma releaseUpstreamPermit_marks ok e p s : marks ok s (releaseUpstreamPermit e p s).
Proof.
  apply marks_quiet.
  - unfold releaseUpstreamPermit, releaseDeploymentPermit, releaseRoutingLease. cbn. by repeat case_match.
  - destruct (releaseUpstreamPermit_spec e p s) as (_ & _ & ->). rewrite !calls_app.
    by rewrite (proj2 (lease_calls _)), app_nil_r.
Qed.

Lemma tryAcquireUpstream_marks e target s s' res :
  journaled = true -> try_upstream e target s = (s', res) ->
  marks (en_mark e = true) s s' /\ (forall p, res = Ok (Some p) -> gw_started s' = true).
Proof.
  intros Hj E. pose proof (tryAcquireUpstream_spec _ _ _ _ _ E) as Hspec.
  assert (calls (gw_events s') = calls (gw_events s)) as Hc.
  { destruct res as [[p|]|]; [destruct Hspec as (_ & _ & _ & ->) | destruct Hspec as (evs & (_ & _ & ->) & Hn & _)..];
      rewrite !calls_app; [rewrite (proj1 (lease_calls _)) | rewrite Hn..]; apply app_nil_r. }
  revert E. unfold tryAcquireUpstream. destruct (guarded && _).
  { intros [= <- <-]. split; [reflexivity | done]. }
  unfold tryAcquireDeployment. destruct (TryAcquireDeployment _ _) as [[l local] st].
  destruct local as [local|]; [| intros [= <- <-]; split; [by apply marks_quiet | done]].
  destruct (acquireRoutingScope _ _ _ _ _ _ _) as [s1 lease] eqn:El.
  assert (gw_started s1 = gw_started s) as Es1.
  { change s1 with (s1, lease).1. rewrite <- El. by rewrite acquireRoutingScope_started. }
  destruct lease as [lease|err]; [| intros [= <- <-]; split; [by apply marks_quiet; cbn | done]].
  unfold markAccountingStarted. rewrite Hj. cbn [negb orb].
  destruct (gw_started s1) eqn:Es2; [| destruct (en_mark e)]; intros [= <- <-]; (split; [| try done]).
  - apply marks_quiet; [congruence | done].
  - split_and!; auto.
  - apply marks_quiet; [| done]. unfold releaseDeploymentPermit, releaseRoutingLease. cbn. by repeat case_match; cbn; congruence.
Qed.

(** One attempt, from the state before its resolution on. *)
Lemma attempt_marks n target s s0 s1 acq :
  journaled = true -> marks (exists m, en_mark (env m) = true) s s0 -> try_upstream (env n) target s0 = (s1, acq) ->
  marks (exists m, en_mark (env m) = true) s s1 /\
  (forall p, acq = Ok (Some p) -> marks (exists m, en_mark (env m) = true) s (note (Called (rv_DeploymentName target)) s1)).
Proof.
  intros Hj M0 Et. destruct (tryAcquireUpstream_marks _ _ _ _ _ Hj Et) as [(A1 & B1 & C1) Hst].
  assert (marks (exists m, en_mark (env m) = true) s s1) as M1.
  { etransitivity; [exact M0 |]. split_and!; [done | | done]. intros Hs1. destruct (B1 Hs1); [by left | right; eauto]. }
  split; [done |]. intros p Ep. destruct M1 as (Ma & Mb & _). split_and!; [done | done |]. right. by eapply Hst.
Qed.

Lemma fallback_marks capability fuel : forall n tried lastErr saturated s s' out,
  journaled = true -> loop capability fuel n tried lastErr saturated s = (s', out) ->
  marks (exists m, en_mark (env m) = true) s s'.
Proof.
  induction fuel as [| fuel IH]; intros n tried lastErr saturated s s' out Hj; cbn [fallback_loop].
  { intros [= <- <-]. reflexivity. }
  destruct (ResolveWithContext _ _ _ _ _ _ _) as [r res]. set (s0 := set_registry r s).
  assert (marks (exists m, en_mark (env m) = true) s s0) as M0 by by apply marks_quiet.
  destruct res as [target|err]; [| by intros [= <- <-]].
  destruct (try_upstream (env n) target s0) as [s1 acq] eqn:Et.
  destruct (attempt_marks _ _ _ _ _ _ Hj M0 Et) as [M1 M2].
  destruct acq as [[p|]|err].
  - assert (marks (exists m, en_mark (env m) = true) s
              (releaseUpstreamPermit (env n) p (note (Called (rv_DeploymentName target)) s1))) as M3.
    { etransitivity; [by apply (M2 p) | apply releaseUpstreamPermit_marks]. }
    destruct (call n target) as [[resp|err]|]; [| destruct (negb _ || _) |].
    + intros [= <- _]. etransitivity; [exact M3 | by apply marks_quiet].
    + intros [= <- _]. etransitivity; [exact M3 | by apply marks_quiet].
    + intros E. apply IH in E; [| done]. etransitivity; [exact M3 |]. etransitivity; [| exact E]. by apply marks_quiet.
    + by intros [= <- _].
  - intros E. etransitivity; [exact M1 | by eapply IH].
  - destruct (canFallbackConcurrency err); [| by intros [= <- _]]. intros E. etransitivity; [exact M1 | by eapply IH].
Qed.

Lemma stream_marks fuel : forall n tried lastErr saturated s s' out,
  journaled = true -> streams fuel n tried lastErr saturated s = (s', out) ->
  marks (exists m, en_mark (env m) = true) s s'.
Proof.
  induction fuel as [| fuel IH]; intros n tried lastErr saturated s s' out Hj; cbn [stream_loop].
  { intros [= <- <-]. reflexivity. }
  destruct (stopped n); [intros [= <- <-]; reflexivity |].
  destruct (ResolveWithContext _ _ _ _ _ _ _) as [r res]. set (s0 := set_registry r s).
  assert (marks (exists m, en_mark (env m) = true) s s0) as M0 by by apply marks_quiet.
  destruct res as [target|err]; [| by intros [= <- <-]].
  destruct (try_upstream (env n) target s0) as [s1 acq] eqn:Et.
  destruct (attempt_marks _ _ _ _ _ _ Hj M0 Et) as [M1 M2].
  destruct acq as [[p|]|err].
  - specialize (M2 p eq_refl). destruct (call n target) as [[resp|err]|]; [| destruct (negb _ || _) |].
    + by intros [= <- _].
    + intros [= <- _]. etransitivity; [exact M2 |]. etransitivity; [apply releaseUpstreamPermit_marks | by apply marks_quiet].
    + intros E. apply IH in E; [| done]. etransitivity; [exact M2 |]. etransitivity; [apply releaseUpstreamPermit_marks |].
      etransitivity; [| exact E]. by apply marks_quiet.
    + intros [= <- _]. etransitivity; [exact M2 | apply releaseUpstreamPermit_marks].
  - intros E. etransitivity; [exact M1 | by eapply IH].
  - destruct (canFallbackConcurrency err); [| by intros [= <- _]]. intros E. etransitivity; [exact M1 | by eapply IH].
Qed.

(** ** Termination *)

(** The deployments not tried yet. *)
Definition untried s (tried : gset string) : gset string := list_to_set (names_of s) ∖ tried.

Lemma untried_shrinks s s' tried d :
  rg_aliases (gw_registry s') = rg_aliases (gw_registry s) -> d ∈ names_of s -> d ∉ tried ->
  (size (untried s' ({[d]} ∪ tried)) < size (untried s tried))%nat.
Proof.
  intros E Hd Hnt. unfold untried, names_of in *. rewrite E. apply subset_size. set_solver.
Qed.

Lemma try_upstream_aliases e target s s' res :
  try_upstream e target s = (s', res) -> rg_aliases (gw_registry s') = rg_aliases (gw_registry s).
Proof.
  intros Et. apply tryAcquireUpstream_spec in Et. destruct res as [[p|]|].
  - apply Et.
  - by destruct Et as (? & (? & _) & _).
  - by destruct Et as (? & (? & _) & _).
Qed.

Lemma release_aliases e p s :
  rg_aliases (gw_registry (releaseUpstreamPermit e p s)) = rg_aliases (gw_registry s).
Proof. apply releaseUpstreamPermit_spec. Qed.

Lemma fallback_fuel capability fuel : forall n tried lastErr saturated s,
  (size (untried s tried) < fuel)%nat -> (loop capability fuel n tried lastErr saturated s).2 <> OutOfFuel.
Proof.
  induction fuel as [| fuel IH]; intros n tried lastErr saturated s Hlt; [lia |]. cbn [fallback_loop].
  destruct (ResolveWithContext _ _ _ _ _ _ _) as [r res] eqn:Er. destruct (resolve_frame _ _ _ _ _ _ _ _ Er) as (Ha & _).
  destruct res as [target|err]; [| done]. destruct (resolve_next _ _ _ _ _ _ _ _ Er) as [Hnt Hin]. fold (names_of s) in Hin.
  destruct (try_upstream (env n) target _) as [s1 acq] eqn:Et. apply try_upstream_aliases in Et. rewrite Ha in Et.
  destruct acq as [[p|]|err].
  - destruct (call n target) as [[resp|err]|]; [done | | done]. destruct (negb _ || _); [done |]. apply IH.
    eapply Nat.lt_le_trans; [eapply (untried_shrinks s) | apply le_S_n, Hlt]; [| done..].
    rewrite (proj1 (record_failure_quiet _ _ _ _)), release_aliases. exact Et.
  - apply IH. eapply Nat.lt_le_trans; [by eapply (untried_shrinks s) | lia].
  - destruct (canFallbackConcurrency err); [| done]. apply IH.
    eapply Nat.lt_le_trans; [by eapply (untried_shrinks s) | lia].
Qed.

Lemma stream_fuel fuel : forall n tried lastErr saturated s,
  (size (untried s tried) < fuel)%nat -> (streams fuel n tried lastErr saturated s).2 <> OutOfFuel.
Proof.
  induction fuel as [| fuel IH]; intros n tried lastErr saturated s Hlt; [lia |]. cbn [stream_loop].
  destruct (stopped n); [done |].
  destruct (ResolveWithContext _ _ _ _ _ _ _) as [r res] eqn:Er. destruct (resolve_frame _ _ _ _ _ _ _ _ Er) as (Ha & _).
  destruct res as [target|err]; [| done]. destruct (resolve_next _ _ _ _ _ _ _ _ Er) as [Hnt Hin]. fold (names_of s) in Hin.
  destruct (try_upstream (env n) target _) as [s1 acq] eqn:Et. apply try_upstream_aliases in Et. rewrite Ha in Et.
  destruct acq as [[p|]|err].
  - destruct (call n target) as [[resp|err]|]; [done | | done]. destruct (negb _ || _); [done |]. apply IH.
    eapply Nat.lt_le_trans; [eapply (untried_shrinks s) | apply le_S_n, Hlt]; [| done..].
    rewrite (proj1 (record_failure_quiet _ _ _ _)), release_aliases. exact Et.
  - apply IH. eapply Nat.lt_le_trans; [by eapply (untried_shrinks s) | lia].
  - destruct (canFallbackConcurrency err); [| done]. apply IH.
    eapply Nat.lt_le_trans; [by eapply (untried_shrinks s) | lia].
Qed.

Lemma enough_fuel s fuel : (length (names_of s) < fuel)%nat -> (size (untried s ∅) < fuel)%nat.
Proof.
  intros Hl. unfold untried. eapply Nat.le_lt_trans; [| exact Hl]. rewrite difference_empty_L. clear Hl.
  induction (names_of s) as [| d l IH]; [done |]. cbn [list_to_set length].
  rewrite size_union_alt, size_singleton.
  pose proof (subseteq_size (list_to_set l ∖ {[d]} : gset string) (list_to_set l) ltac:(set_solver)). lia.
Qed.

(** A call that ended: it did not run out of attempts, the upstreams it called are
    distinct deployments of the alias, and a success is what one of them answered. *)
Definition ends_well {X} (answer : X -> A) (s s' : gateway B R) (out : outcome X) : Prop :=
  out <> OutOfFuel /\
  exists evs, gw_events s' = gw_events s ++ evs /\ NoDup (calls evs) /\ (forall d, d ∈ calls evs -> d ∈ names_of s) /\
    forall target x, out = Succeeded target x -> exists n, call n target = Returned (Ok (answer x)).

(** C26. A routed call ends, and asks each deployment at most once: with one
    attempt more than the alias has targets, a chat, embeddings or stream call
    returns; the upstreams it called are distinct deployments of the alias, and
    a success (for a stream, the body it is opened with) is an answer that a
    deployment gave. *)
Theorem fallback_terminates (s : gateway B R) (fuel : nat) (Hfuel : (length (names_of s) < fuel)%nat) :
  ends_well id s (run_chat fuel s).1 (run_chat fuel s).2 /\
  ends_well id s (run_embeddings fuel s).1 (run_embeddings fuel s).2 /\
  ends_well fst s (open_stream fuel s).1 (open_stream fuel s).2.
Proof.
  apply enough_fuel in Hfuel. split_and!; (split; [by first [apply fallback_fuel | apply stream_fuel] |]).
  - destruct (run_chat fuel s) as [s' out] eqn:E. apply fallback_spec in E as (evs & (_ & _ & He) & (_ & Hnd & Hin) & Hs).
    exists evs. split_and!; [done | done | | done]. intros d Hd. by apply Hin.
  - destruct (run_embeddings fuel s) as [s' out] eqn:E. apply fallback_spec in E as (evs & (_ & _ & He) & (_ & Hnd & Hin) & Hs).
    exists evs. split_and!; [done | done | | done]. intros d Hd. by apply Hin.
  - pose proof (stream_answer fuel 0 ∅ None false s) as Ha. unfold openStreamWithFallback. fold (streams fuel 0 ∅ None false s).
    destruct (streams fuel 0 ∅ None false s) as [s' out] eqn:E. apply stream_spec in E as (evs & _ & He & Hout).
    exists evs. assert (exists ps ls, run_ok s ∅ evs ps ls) as (ps & ls & _ & Hnd & Hin).
    { destruct out as [target [a p] | | |]; eexists _, _; by apply Hout. }
    split_and!; [done | done | intros d Hd; by apply Hin |]. intros target [a p] Hs. by apply (Ha target a p).
Qed.

(** C7. No permit is leaked: whatever happens in the attempts (refusals,
    Redis errors, a failed accounting mark, upstream errors, a panic of the
    provider), when a chat or embeddings call returns every deployment counter
    is as before and every permit and lease it took was given back, each
    upstream having been called under exactly its own permit. A stream that
    opened holds exactly one permit, and releasing it restores everything; one
    that did not open holds nothing. *)
Theorem permits_balanced (s : gateway B R) (fuel : nat) :
  (exists evs, gw_events (run_chat fuel s).1 = gw_events s ++ evs /\ replay evs [] [] = Some ([], []) /\
     same_counters (lims s) (lims (run_chat fuel s).1)) /\
  (exists evs, gw_events (run_embeddings fuel s).1 = gw_events s ++ evs /\ replay evs [] [] = Some ([], []) /\
     same_counters (lims s) (lims (run_embeddings fuel s).1)) /\
  (exists evs, gw_events (open_stream fuel s).1 = gw_events s ++ evs /\
     match (open_stream fuel s).2 with
     | Succeeded target (_, p) =>
         replay evs [] [] = Some ([rv_DeploymentName target], lease_members (up_provider p)) /\
         forall e, exists evs', gw_events (releaseUpstreamPermit e p (open_stream fuel s).1) = gw_events s ++ evs' /\
           replay evs' [] [] = Some ([], []) /\
           same_counters (lims s) (lims (releaseUpstreamPermit e p (open_stream fuel s).1))
     | _ => replay evs [] [] = Some ([], []) /\ same_counters (lims s) (lims (open_stream fuel s).1)
     end).
Proof.
  split_and!.
  - destruct (run_chat fuel s) as [s' out] eqn:E. apply fallback_spec in E as (evs & (_ & Hc & He) & (Hr & _) & _). eauto.
  - destruct (run_embeddings fuel s) as [s' out] eqn:E.
    apply fallback_spec in E as (evs & (_ & Hc & He) & (Hr & _) & _). eauto.
  - destruct (open_stream fuel s) as [s' out] eqn:E. apply stream_spec in E as (evs & _ & He & Hout). exists evs.
    split; [done |]. cbn [snd fst]. destruct out as [target [a p] | | |]; [| by destruct Hout as (? & ? & _)..].
    destruct Hout as (Hc & Hn & Hr & _). split; [done |]. intros e.
    destruct (releaseUpstreamPermit_spec e p s') as (_ & Rl & Re).
    exists (evs ++ gave (up_provider p) ++ [GavePermit (dp_name (up_local p))]). rewrite Re, Rl, He, <- app_assoc.
    split_and!; [done | | done]. rewrite replay_app, Hr, Hn.
    destruct (up_provider p); cbn; by rewrite ?String.eqb_refl.
Qed.
End loop_facts.
End facts.

#[export] Existing Instance marks_preorder.

(** ** A call depends on the answers only *)

Section extensionality.
Context {B R A : Type} `{BreakerStore B, RedisZSet R}.
Variable getenv : string -> string.
Variable limiter : option Limiter.
Variables has_store journaled guarded : bool.
Variable partition : Z.
Variable alias : string.
Variable rc : ResolveContext.
Variable env : nat -> surroundings.
Variables call call' : nat -> Resolved -> call_result A.
Variable stopped : nat -> option go_error.
Hypothesis Hcall : forall n t, call n t = call' n t.

Lemma fallback_ext capability fuel : forall n tried lastErr saturated (s : gateway B R),
  fallback_loop getenv limiter has_store journaled guarded partition alias rc env call capability fuel n tried lastErr saturated s =
  fallback_loop getenv limiter has_store journaled guarded partition alias rc env call' capability fuel n tried lastErr saturated s.
Proof.
  induction fuel as [| fuel IH]; intros n tried lastErr saturated s; cbn [fallback_loop]; [done |].
  destruct (ResolveWithContext _ _ _ _ _ _ _) as [r [target|err]]; [| done].
  destruct (tryAcquireUpstream _ _ _ _ _ _ _ _) as [s1 [[p|]|err]]; [| done | by destruct (canFallbackConcurrency err)].
  rewrite <- Hcall. destruct (call n target) as [[resp|err]|]; [done | | done]. by destruct (negb _ || _).
Qed.

Lemma stream_ext fuel : forall n tried lastErr saturated (s : gateway B R),
  stream_loop getenv limiter has_store journaled guarded partition alias rc env call stopped fuel n tried lastErr saturated s =
  stream_loop getenv limiter has_store journaled guarded partition alias rc env call' stopped fuel n tried lastErr saturated s.
Proof.
  induction fuel as [| fuel IH]; intros n tried lastErr saturated s; cbn [stream_loop]; [done |]. destruct (stopped n); [done |].
  destruct (ResolveWithContext _ _ _ _ _ _ _) as [r [target|err]]; [| done].
  destruct (tryAcquireUpstream _ _ _ _ _ _ _ _) as [s1 [[p|]|err]]; [| done | by destruct (canFallbackConcurrency err)].
  rewrite <- Hcall. destruct (call n target) as [[resp|err]|]; [done | | done]. by destruct (negb _ || _).
Qed.
End extensionality.

(** ** Evaluation *)

(** Of the two deployments of the alias the first fails with a 500; the second
    answers. No policies are configured, so no leases are taken. *)
Definition example_env_n (n : nat) : surroundings :=
  mkSurroundings (63072000000000000000 + Z.of_nat n) 0 IoOk IoOk "lease" None true None.

Definition example_call (n : nat) (target : Resolved) : call_result Z :=
  if (n =? 0)%nat then Returned (Err http_500) else Returned (Ok 7).

Definition example_gateway : gateway Empty_set MapRedis.db :=
  mkGateway example_registry (mkConcurrencyPolicies ∅ 63072000000000000000) MapRedis.empty_db false [].

Lemma example_fallback :
  let '(s, out) := runChatWithFallback example_env None true false false 1 "gpt" (mkResolveContext [] "")
    example_env_n example_call 4 example_gateway in
  calls (gw_events s) = ["east"; "west"] /\
  match out with Succeeded target a => rv_DeploymentName target = "west" /\ a = 7 | _ => False end.
Proof. vm_compute. split; [reflexivity | split; reflexivity]. Qed.

Lemma fallback_terminates_witness :
  ends_well "gpt" example_call id example_gateway
    (runChatWithFallback example_env None true false false 1 "gpt" (mkResolveContext [] "") example_env_n example_call 4 example_gateway).1
    (runChatWithFallback example_env None true false false 1 "gpt" (mkResolveContext [] "") example_env_n example_call 4 example_gateway).2.
Proof.
  refine (proj1 (fallback_terminates example_env None true false false 1 "gpt" (mkResolveContext [] "")
    example_env_n example_call (fun _ => None) example_gateway 4 _)).
  vm_compute. apply le_n.
Defined.
