(* ===== verification/Guardrails.v ===== *)
(** * Literal text policies ([internal/guardrails/guardrails.go])

    The streaming filter: it matches banned terms in the text it holds back
    plus the text that arrives, blocks, redacts or flags, and holds back only
    what a term crossing an event boundary needs. A text is the sequence of its
    code points (runes), since every index the filter computes falls on a rune
    boundary; [None] stands for bytes that are not UTF-8. Which runes a
    case-insensitive pattern takes for equal (Unicode simple folding) is a
    parameter. The JSON envelopes around the text are not modelled. *)

From S2P Require Import Prelude GoStrings.
From Stdlib Require Import Ascii.

Definition MaxPolicies : Z := 8.
Definition MaxPayload : Z := 2097152.

Definition rune := Z.

(** The bytes of a rune in UTF-8. *)
Definition rune_len (r : rune) : Z :=
  if r <? 128 then 1 else if r <? 2048 then 2 else if r <? 65536 then 3 else 4.

Definition byte_len (s : list rune) : Z := sumZ (map rune_len s).

(** The code points with the White_Space property. *)
Definition is_space (r : rune) : bool :=
  bool_decide (r ∈ [9; 10; 11; 12; 13; 32; 133; 160; 5760; 8192; 8193; 8194; 8195; 8196; 8197; 8198; 8199;
                    8200; 8201; 8202; 8232; 8233; 8239; 8287; 12288]).

Record Policy := mkPolicy {
  po_Name : string;
  po_Type : string;
  po_Mode : string;
  po_Phase : string;
  po_Terms : list (list rune);
}.

Inductive guard_error :=
| BadName | BadType | BadMode | BadPhase | BadTermCount | BadTerm
| ErrBlocked
| ErrUnsupported
| OutputTooLong
| LookbehindExceeded
| MissingFinish.

(** [^[a-zA-Z0-9][a-zA-Z0-9_.-]{0,63}$] *)
Definition alnum (c : ascii) : bool :=
  let n := nat_of_ascii c in
  ((48 <=? n) && (n <=? 57) || (65 <=? n) && (n <=? 90) || (97 <=? n) && (n <=? 122))%nat.

Definition name_char (c : ascii) : bool :=
  alnum c || (c =? "_")%char || (c =? ".")%char || (c =? "-")%char.

Definition policyName (s : string) : bool :=
  match String.list_ascii_of_string s with
  | [] => false
  | c :: rest => alnum c && forallb name_char rest && (length rest <=? 63)%nat
  end.

Definition Validate (p : Policy) : result guard_error unit :=
  _ ← fail_if (negb (policyName (po_Name p))) BadName;
  _ ← fail_if (negb (po_Type p =? "banned_terms")%string) BadType;
  _ ← fail_if (negb (po_Mode p =? "block")%string && negb (po_Mode p =? "redact")%string &&
               negb (po_Mode p =? "flag")%string) BadMode;
  _ ← fail_if (negb (po_Phase p =? "pre")%string && negb (po_Phase p =? "post")%string &&
               negb (po_Phase p =? "both")%string) BadPhase;
  _ ← fail_if ((Z.of_nat (length (po_Terms p)) =? 0) || (32 <? Z.of_nat (length (po_Terms p)))) BadTermCount;
  fail_if (existsb (fun term => forallb is_space term || (128 <? byte_len term)) (po_Terms p)) BadTerm.

(** ** The filter *)

Record rule := mkRule { ru_policy : Policy; ru_result : string }.

Record Filter := mkFilter {
  fi_rules : list rule;
  fi_phase : string;
  fi_hold : Z;
  fi_pending : list rune;
}.

Definition applies (phase : string) (p : Policy) : bool :=
  (po_Phase p =? phase)%string || (po_Phase p =? "both")%string.

(** The inner loop of [New]: the longest term, less one rune. *)
Fixpoint hold_of (hold : Z) (terms : list (list rune)) : Z :=
  match terms with [] => hold | t :: rest => hold_of (Z.max hold (Z.of_nat (length t) - 1)) rest end.

Fixpoint new_rules (phase : string) (hold : Z) (policies : list Policy) : list rule * Z :=
  match policies with
  | [] => ([], hold)
  | p :: rest =>
      if negb (applies phase p) then new_rules phase hold rest
      else
        let '(rules, hold) := new_rules phase (hold_of hold (po_Terms p)) rest in
        (mkRule p "not_evaluated" :: rules, hold)
  end.

Definition New (policies : list Policy) (phase : string) : Filter :=
  let '(rules, hold) := new_rules phase 0 policies in mkFilter rules phase hold [].

Definition Results (f : Filter) : list (string * string * string) :=
  map (fun r => (po_Name (ru_policy r), fi_phase f, ru_result r)) (fi_rules f).

Section filter.
(** [(?i)]: the two runes are equal under simple folding *)
Variable fold_eq : rune -> rune -> bool.

(** The term matches at the start of the text. *)
Fixpoint matches_at (term s : list rune) : bool :=
  match term, s with
  | [], _ => true
  | a :: term, b :: s => fold_eq a b && matches_at term s
  | _ :: _, [] => false
  end.

(** [re.FindStringIndex]: the leftmost match of a literal. *)
Fixpoint find_index (term s : list rune) : option nat :=
  if matches_at term s then Some 0%nat
  else match s with
  | [] => None
  | _ :: s => option_map S (find_index term s)
  end.

(** Setting [mask[j]] for [a <= j < b]. *)
Definition mark (a b : nat) (mask : list bool) : list bool :=
  imap (fun j m => m || ((a <=? j)%nat && (j <? b)%nat)) mask.

(** The loop over the matches of one pattern from [pos] on; [None] is
    [ErrBlocked]. The fuel is the length of the text: a match is never empty. *)
Fixpoint pattern_loop (fuel : nat) (mode : string) (term s : list rune) (pos : nat)
    (st : string * list bool) : string * option (list bool) :=
  match fuel with
  | O => (st.1, Some st.2)
  | S fuel =>
      if (length s <=? pos)%nat then (st.1, Some st.2)
      else match find_index term (drop pos s) with
      | None => (st.1, Some st.2)
      | Some i =>
          let a := (pos + i)%nat in
          let b := (pos + i + length term)%nat in
          if (mode =? "block")%string then (mode, None)
          else pattern_loop fuel mode term s b (mode, if (mode =? "redact")%string then mark a b st.2 else st.2)
      end
  end.

(** The patterns of one rule. *)
Fixpoint rule_loop (mode : string) (terms : list (list rune)) (s : list rune) (result : string)
    (mask : list bool) : string * option (list bool) :=
  match terms with
  | [] => (result, Some mask)
  | term :: rest =>
      match pattern_loop (length s) mode term s 0 (result, mask) with
      | (result, None) => (result, None)
      | (result, Some mask) => rule_loop mode rest s result mask
      end
  end.

(** The rules in order; the results of the rules are updated up to the one
    that blocks. *)
Fixpoint rules_loop (rules : list rule) (s : list rune) (mask : list bool) : list rule * option (list bool) :=
  match rules with
  | [] => ([], Some mask)
  | r :: rest =>
      let result := if (ru_result r =? "not_evaluated")%string then "allow" else ru_result r in
      match rule_loop (po_Mode (ru_policy r)) (po_Terms (ru_policy r)) s result mask with
      | (result, None) => (mkRule (ru_policy r) result :: rest, None)
      | (result, Some mask) =>
          let '(rest, out) := rules_loop rest s mask in (mkRule (ru_policy r) result :: rest, out)
      end
  end.

(** [for cut > 0 && cut < len(s) && mask[cut-1] && mask[cut] { cut-- }] *)
Fixpoint hold_redaction (mask : list bool) (cut : nat) : nat :=
  match cut with
  | O => O
  | S c =>
      if (cut <? length mask)%nat && default false (mask !! c) && default false (mask !! cut)
      then hold_redaction mask c else cut
  end.

Definition redacted : list rune := map (fun c => Z.of_nat (nat_of_ascii c)) (String.list_ascii_of_string "[REDACTED]").

(** The output loop over the text before the cut: a masked run is replaced
    once; [None] when the output is too long. *)
Fixpoint emit (inside : bool) (s : list rune) (mask : list bool) (out : list rune) : option (list rune) :=
  match s, mask with
  | r :: s, m :: mask =>
      let out := if m then (if inside then out else out ++ redacted) else out ++ [r] in
      if MaxPayload <? byte_len out then None else emit m s mask out
  | _, _ => Some out
  end.

Definition set_rules (rules : list rule) (f : Filter) : Filter :=
  mkFilter rules (fi_phase f) (fi_hold f) (fi_pending f).

Definition Push (text : option (list rune)) (final : bool) (f : Filter) :
    Filter * result guard_error (list rune) :=
  match text with
  | None => (f, Err ErrUnsupported)
  | Some text =>
      if MaxPayload <? byte_len text then (f, Err ErrUnsupported)
      else
        let s := fi_pending f ++ text in
        let cut := if final then length s else (length s - Z.to_nat (fi_hold f))%nat in
        match rules_loop (fi_rules f) s (replicate (length s) false) with
        | (rules, None) => (set_rules rules f, Err ErrBlocked)
        | (rules, Some mask) =>
            let cut := hold_redaction mask cut in
            match emit false (take cut s) (take cut mask) [] with
            | None => (set_rules rules f, Err OutputTooLong)
            | Some out =>
                let f := mkFilter rules (fi_phase f) (fi_hold f) (drop cut s) in
                if 1024 <? byte_len (fi_pending f) then (f, Err LookbehindExceeded) else (f, Ok out)
            end
        end
  end.

Definition Text (s : option (list rune)) (f : Filter) : Filter * result guard_error (list rune) := Push s true f.

Definition Complete (f : Filter) : result guard_error unit :=
  match fi_pending f with [] => Ok tt | _ => Err MissingFinish end.

(** ** Matching *)

(** The term occurs in the text. *)
Definition occurs (term s : list rune) : Prop := exists i, matches_at term (drop i s) = true.

Lemma matches_at_length term s : matches_at term s = true -> (length term <= length s)%nat.
Proof.
  revert s. induction term as [| a term IH]; intros [| b s]; cbn; try lia; try done.
  intros [_ Hm]%andb_true_iff. apply IH in Hm. lia.
Qed.

Lemma matches_at_app term s t : matches_at term s = true -> matches_at term (s ++ t) = true.
Proof.
  revert s. induction term as [| a term IH]; intros [| b s]; cbn; try done.
  intros [-> Hm]%andb_true_iff. by apply IH.
Qed.

Lemma matches_at_take term s t :
  matches_at term (s ++ t) = true -> (length term <= length s)%nat -> matches_at term s = true.
Proof.
  revert s. induction term as [| a term IH]; intros [| b s]; cbn; try done; try lia.
  intros [-> Hm]%andb_true_iff Hl. apply IH; [done | lia].
Qed.

(** The leftmost search finds a match when there is one. *)
Lemma find_index_None term s : find_index term s = None -> ~ occurs term s.
Proof.
  revert term. induction s as [| r s IH]; intros term Hf [i Hi].
  - cbn [find_index] in Hf. rewrite drop_nil in Hi. by rewrite Hi in Hf.
  - cbn [find_index] in Hf. destruct (matches_at term (r :: s)) eqn:E; [done |].
    destruct (find_index term s) eqn:Ef; [done |]. destruct i as [| i]; cbn [drop] in Hi; [congruence |].
    apply (IH term Ef). by exists i.
Qed.

(** A blocking rule that lets the text pass saw no occurrence. *)
Lemma pattern_loop_blocks term s st result mask :
  term <> [] -> pattern_loop (length s) "block" term s 0 st = (result, Some mask) -> ~ occurs term s.
Proof.
  intros Hne. destruct s as [| r s].
  { intros _ [i Hi]. rewrite drop_nil in Hi. by destruct term. }
  cbn [length pattern_loop Nat.leb drop]. destruct (find_index term (r :: s)) as [i|] eqn:E; [done |].
  intros _. by apply find_index_None.
Qed.

Lemma rule_loop_blocks terms s result mask result' mask' term :
  rule_loop "block" terms s result mask = (result', Some mask') -> term ∈ terms -> term <> [] -> ~ occurs term s.
Proof.
  revert result mask. induction terms as [| t terms IH]; intros result mask; cbn [rule_loop].
  { intros _ Hin. by apply not_elem_of_nil in Hin. }
  destruct (pattern_loop _ _ t s 0 _) as [r1 [m1|]] eqn:Ep; [| done]. intros E [-> | Hin]%elem_of_cons Hne.
  - by eapply pattern_loop_blocks.
  - by eapply IH.
Qed.

Lemma rules_loop_blocks rules s mask rules' mask' r term :
  rules_loop rules s mask = (rules', Some mask') -> r ∈ rules -> po_Mode (ru_policy r) = "block" ->
  term ∈ po_Terms (ru_policy r) -> term <> [] -> ~ occurs term s.
Proof.
  revert mask rules'. induction rules as [| r0 rules IH]; intros mask rules'; cbn [rules_loop].
  { intros _ Hin. by apply not_elem_of_nil in Hin. }
  destruct (rule_loop _ _ s _ mask) as [res [m1|]] eqn:Er; [| done].
  destruct (rules_loop rules s m1) as [rest out] eqn:El. intros [= <- ->] [-> | Hin]%elem_of_cons Hm Ht Hne.
  - rewrite Hm in Er. by eapply rule_loop_blocks.
  - by eapply IH.
Qed.

(** Evaluating rules changes no policy. *)
Lemma rules_loop_policies rules s mask rules' out :
  rules_loop rules s mask = (rules', out) -> map ru_policy rules' = map ru_policy rules.
Proof.
  revert mask rules' out. induction rules as [| r0 rules IH]; intros mask rules' out; cbn [rules_loop].
  { by intros [= <- _]. }
  destruct (rule_loop _ _ s _ mask) as [res [m1|]]; [| by intros [= <- _]].
  destruct (rules_loop rules s m1) as [rest o] eqn:El. intros [= <- _]. cbn. f_equal. by eapply IH.
Qed.

(** ** Masks *)

Lemma pattern_loop_unmasked fuel mode term s pos st result mask :
  mode <> "redact" -> pattern_loop fuel mode term s pos st = (result, Some mask) -> mask = st.2.
Proof.
  intros Hm. revert pos st. induction fuel as [| fuel IH]; intros pos st; cbn [pattern_loop]; [by intros [= _ <-] |].
  destruct (length s <=? pos)%nat; [by intros [= _ <-] |]. destruct (find_index _ _) as [i|]; [| by intros [= _ <-]].
  destruct (mode =? "block")%string; [done |]. intros E. apply IH in E.
  destruct (String.eqb_spec mode "redact"); [done | exact E].
Qed.

Lemma rule_loop_unmasked mode terms s result mask result' mask' :
  mode <> "redact" -> rule_loop mode terms s result mask = (result', Some mask') -> mask' = mask.
Proof.
  intros Hm. revert result mask. induction terms as [| t terms IH]; intros result mask; cbn [rule_loop];
    [by intros [= _ <-] |].
  destruct (pattern_loop _ _ t s 0 _) as [r1 [m1|]] eqn:Ep; [| done]. intros E%IH. subst.
  by apply pattern_loop_unmasked in Ep.
Qed.

Lemma rules_loop_unmasked rules s mask rules' mask' :
  (forall r, r ∈ rules -> po_Mode (ru_policy r) <> "redact") ->
  rules_loop rules s mask = (rules', Some mask') -> mask' = mask.
Proof.
  revert mask rules'. induction rules as [| r0 rules IH]; intros mask rules' Hm; cbn [rules_loop]; [by intros [= _ <-] |].
  destruct (rule_loop _ _ s _ mask) as [res [m1|]] eqn:Er; [| done].
  destruct (rules_loop rules s m1) as [rest out] eqn:El. intros [= <- ->].
  apply rule_loop_unmasked in Er; [| apply Hm; set_solver]. subst m1. eapply IH; [| exact El]. set_solver.
Qed.

Lemma hold_redaction_le mask cut : (hold_redaction mask cut <= cut)%nat.
Proof. induction cut as [| c IH]; cbn [hold_redaction]; [lia |]. case_match; lia. Qed.

Lemma hold_redaction_unmasked n cut : hold_redaction (replicate n false) cut = cut.
Proof.
  destruct cut as [| c]; [done |]. cbn [hold_redaction].
  assert (default false (replicate n false !! c) = false) as ->.
  { destruct (replicate n false !! c) eqn:E; [| done]. by apply lookup_replicate in E as [-> _]. }
  by rewrite andb_false_r.
Qed.

Lemma emit_unmasked b s mask out out' :
  Forall (fun m => m = false) mask -> length mask = length s -> emit b s mask out = Some out' -> out' = out ++ s.
Proof.
  intros Hf. revert b s out. induction Hf as [| m mask Hm Hf IH]; intros b s out Hl.
  { destruct s; [| done]. cbn. intros [= <-]. by rewrite app_nil_r. }
  destruct s as [| r s]; [done |]. subst m. cbn [emit]. destruct (MaxPayload <? _); [done |].
  intros E. apply IH in E; [| cbn in Hl; lia]. by rewrite E, <- app_assoc.
Qed.

(** ** One push *)

Lemma Push_inv text final f f' out :
  Push text final f = (f', Ok out) ->
  exists t mask cut, text = Some t /\
    rules_loop (fi_rules f) (fi_pending f ++ t) (replicate (length (fi_pending f ++ t)) false) = (fi_rules f', Some mask) /\
    cut = hold_redaction mask (if final then length (fi_pending f ++ t)
                               else (length (fi_pending f ++ t) - Z.to_nat (fi_hold f))%nat) /\
    emit false (take cut (fi_pending f ++ t)) (take cut mask) [] = Some out /\
    fi_pending f' = drop cut (fi_pending f ++ t) /\ fi_hold f' = fi_hold f.
Proof.
  unfold Push. destruct text as [t|]; [| done]. destruct (MaxPayload <? _); [done |].
  destruct (rules_loop _ _ _) as [rules [mask|]] eqn:Er; [| done]. set (cut := hold_redaction _ _).
  destruct (emit _ _ _ _) as [o|] eqn:Ee; [| done]. cbn [fi_pending]. destruct (1024 <? _); [done |].
  intros [= <- <-]. exists t, mask, cut. done.
Qed.

(** ** A whole stream *)

(** The events of a stream: every text but the last is pushed as not final. *)
Fixpoint push_all (texts : list (list rune)) (f : Filter) : option (Filter * list rune) :=
  match texts with
  | [] => Some (f, [])
  | [t] => match Push (Some t) true f with (f, Ok out) => Some (f, out) | (_, Err _) => None end
  | t :: rest =>
      match Push (Some t) false f with
      | (f, Ok out) =>
          match push_all rest f with Some (f, outs) => Some (f, out ++ outs) | None => None end
      | (_, Err _) => None
      end
  end.

(** What has been seen is clean of the term, and what is held back is a suffix
    of it long enough for a term that is still arriving. *)
Definition looking (term seen : list rune) (f : Filter) : Prop :=
  ~ occurs term seen /\ exists j, fi_pending f = drop j seen /\
  (j <= length seen - Z.to_nat (fi_hold f))%nat.

Definition blocks (term : list rune) (f : Filter) : Prop :=
  (exists r, r ∈ fi_rules f /\ po_Mode (ru_policy r) = "block" /\ term ∈ po_Terms (ru_policy r)) /\
  term <> [] /\ Z.of_nat (length term) - 1 <= fi_hold f.

Lemma blocks_rules term f f' :
  map ru_policy (fi_rules f') = map ru_policy (fi_rules f) -> fi_hold f' = fi_hold f -> blocks term f -> blocks term f'.
Proof.
  intros Hr Hh [(r & Hin & Hm & Ht) Hrest]. split; [| by rewrite Hh].
  assert (ru_policy r ∈ map ru_policy (fi_rules f')) as Hx by (rewrite Hr; by apply list_elem_of_fmap_2).
  apply list_elem_of_fmap in Hx as (r' & E & Hin'). exists r'. by rewrite <- E.
Qed.

(** An occurrence that the new text completes lies in what the filter sees. *)
Lemma occurs_new term seen t j :
  ~ occurs term seen -> term <> [] -> (j <= length seen - (length term - 1))%nat ->
  occurs term (seen ++ t) -> occurs term (drop j seen ++ t).
Proof.
  intros Hno Hne Hj [i Hi]. assert (0 < length term)%nat by (destruct term; cbn; [done | lia]).
  destruct (decide (i + length term <= length seen)%nat) as [Hle|Hgt].
  - exfalso. apply Hno. exists i. rewrite drop_app_le in Hi by lia. eapply matches_at_take; [exact Hi |].
    rewrite length_drop. lia.
  - assert (j <= i)%nat as Hji.
    { pose proof (matches_at_length _ _ Hi) as Hl. rewrite length_drop, length_app in Hl. lia. }
    exists (i - j)%nat. destruct (decide (j <= length seen)%nat) as [Hjs|Hjs].
    + rewrite <- (drop_app_le seen t j) by lia. rewrite drop_drop. by replace (j + (i - j))%nat with i by lia.
    + lia.
Qed.

Lemma Push_looking term seen t final f f' out :
  blocks term f -> looking term seen f -> Push (Some t) final f = (f', Ok out) ->
  blocks term f' /\ ~ occurs term (seen ++ t) /\ (final = false -> looking term (seen ++ t) f').
Proof.
  intros Hb [Hno (j & Hp & Hj)] E. apply Push_inv in E as (t' & mask & cut & [= <-] & Hr & Hcut & _ & Hp' & Hh).
  pose proof Hb as [(r & Hin & Hm & Ht) [Hne Hlen]].
  assert (~ occurs term (seen ++ t)) as Hno'.
  { intros Ho. apply (rules_loop_blocks _ _ _ _ _ r term Hr Hin Hm Ht Hne). rewrite Hp.
    apply occurs_new; [done | done | lia | done]. }
  split; [| split; [done |]].
  - eapply blocks_rules; [by eapply rules_loop_policies | done | done].
  - intros ->. split; [done |]. pose proof (hold_redaction_le mask (length (fi_pending f ++ t) - Z.to_nat (fi_hold f))) as Hle.
    rewrite <- Hcut, length_app, Hp, length_drop in Hle. exists (j + cut)%nat. rewrite Hp', Hh, length_app, Hp. split; [| lia].
    destruct (decide (j <= length seen)%nat) as [Hjs|Hjs]; [| lia].
    by rewrite <- (drop_app_le seen t j), drop_drop by lia.
Qed.

Lemma push_all_clean term texts : forall seen f f' outs,
  blocks term f -> looking term seen f -> push_all texts f = Some (f', outs) -> ~ occurs term (seen ++ mjoin texts).
Proof.
  induction texts as [| t texts IH]; intros seen f f' outs Hb Hl.
  { intros _. cbn. rewrite app_nil_r. apply Hl. }
  cbn [push_all]. destruct texts as [| t2 texts].
  - destruct (Push (Some t) true f) as [f1 [o|]] eqn:E; [| done]. intros _.
    destruct (Push_looking _ _ _ _ _ _ _ Hb Hl E) as (_ & Hno & _). cbn. by rewrite app_nil_r.
  - destruct (Push (Some t) false f) as [f1 [o|]] eqn:E; [| done].
    destruct (Push_looking _ _ _ _ _ _ _ Hb Hl E) as (Hb1 & _ & Hl1).
    destruct (push_all (t2 :: texts) f1) as [[f2 outs2]|] eqn:E2; [| done]. intros _.
    change (mjoin (t :: t2 :: texts)) with (t ++ mjoin (t2 :: texts)). rewrite (app_assoc seen t). by eapply (IH (seen ++ t)); [| apply Hl1 | exact E2].
Qed.

(** Without redaction the text passes unchanged. *)
Lemma Push_transparent t final f f' out :
  (forall r, r ∈ fi_rules f -> po_Mode (ru_policy r) <> "redact") -> Push (Some t) final f = (f', Ok out) ->
  out ++ fi_pending f' = fi_pending f ++ t /\ (final = true -> fi_pending f' = []) /\
  (forall r, r ∈ fi_rules f' -> po_Mode (ru_policy r) <> "redact").
Proof.
  intros Hm E. apply Push_inv in E as (t' & mask & cut & [= <-] & Hr & Hcut & He & Hp' & _).
  pose proof (rules_loop_unmasked _ _ _ _ _ Hm Hr) as ->. rewrite hold_redaction_unmasked in Hcut.
  apply emit_unmasked in He.
  - rewrite He, Hp'. split_and!; [apply take_drop | |].
    + intros ->. rewrite Hcut. apply drop_all.
    + intros r Hin. apply rules_loop_policies in Hr.
      assert (ru_policy r ∈ map ru_policy (fi_rules f)) as Hx by (rewrite <- Hr; by apply list_elem_of_fmap_2).
      apply list_elem_of_fmap in Hx as (r' & -> & Hin'). by apply Hm.
  - apply Forall_take, Forall_replicate. done.
  - rewrite !length_take, length_replicate. lia.
Qed.

Lemma push_all_transparent texts : forall f f' outs,
  (forall r, r ∈ fi_rules f -> po_Mode (ru_policy r) <> "redact") -> texts <> [] ->
  push_all texts f = Some (f', outs) -> outs = fi_pending f ++ mjoin texts /\ fi_pending f' = [].
Proof.
  induction texts as [| t texts IH]; intros f f' outs Hm Hne; [done |]. cbn [push_all]. destruct texts as [| t2 texts].
  - destruct (Push (Some t) true f) as [f1 [o|]] eqn:E; [| done]. intros [= <- <-].
    destruct (Push_transparent _ _ _ _ _ Hm E) as (Ho & Hf & _). rewrite (Hf eq_refl), app_nil_r in Ho.
    split; [| by apply Hf]. cbn. by rewrite app_nil_r.
  - destruct (Push (Some t) false f) as [f1 [o|]] eqn:E; [| done].
    destruct (Push_transparent _ _ _ _ _ Hm E) as (Ho & _ & Hm1).
    destruct (push_all (t2 :: texts) f1) as [[f2 outs2]|] eqn:E2; [| done]. intros [= <- <-].
    destruct (IH f1 f2 outs2 Hm1 ltac:(done) E2) as [-> Hf]. split; [| done].
    change (mjoin (t :: t2 :: texts)) with (t ++ mjoin (t2 :: texts)). by rewrite app_assoc, Ho, <- app_assoc.
Qed.
End filter.

(** ** The hold covers every term *)

Lemma hold_of_ge hold terms : hold <= hold_of hold terms /\
  forall t, t ∈ terms -> Z.of_nat (length t) - 1 <= hold_of hold terms.
Proof.
  revert hold. induction terms as [| t terms IH]; intros hold; cbn [hold_of].
  { split; [lia |]. intros t Ht. by apply not_elem_of_nil in Ht. }
  destruct (IH (Z.max hold (Z.of_nat (length t) - 1))) as [H1 H2]. split; [lia |].
  intros t' [-> | Ht]%elem_of_cons; [lia | by apply H2].
Qed.

Lemma new_rules_spec phase policies : forall hold,
  hold <= (new_rules phase hold policies).2 /\
  forall p, p ∈ policies -> applies phase p = true ->
    (exists r, r ∈ (new_rules phase hold policies).1 /\ ru_policy r = p) /\
    forall t, t ∈ po_Terms p -> Z.of_nat (length t) - 1 <= (new_rules phase hold policies).2.
Proof.
  induction policies as [| p policies IH]; intros hold; cbn [new_rules].
  { split; [done |]. intros p Hp. by apply not_elem_of_nil in Hp. }
  destruct (applies phase p) eqn:Ea; cbn [negb].
  2: { destruct (IH hold) as [H1 H2]. split; [done |]. intros q [-> | Hq]%elem_of_cons Hap; [congruence | by apply H2]. }
  destruct (hold_of_ge hold (po_Terms p)) as [G1 G2]. destruct (IH (hold_of hold (po_Terms p))) as [H1 H2].
  destruct (new_rules phase (hold_of hold (po_Terms p)) policies) as [rules h]. cbn [fst snd] in *.
  split; [lia |]. intros q [-> | Hq]%elem_of_cons Hap.
  - split; [exists (mkRule p "not_evaluated"); split; [left | done] |]. intros t Ht. specialize (G2 t Ht). lia.
  - destruct (H2 q Hq Hap) as [(r & Hr & Hrp) Ht]. split; [| done]. exists r. split; [by right | done].
Qed.

Lemma new_rules_policies phase policies : forall hold r,
  r ∈ (new_rules phase hold policies).1 -> ru_policy r ∈ policies.
Proof.
  induction policies as [| p policies IH]; intros hold r; cbn [new_rules]; [by intros Hr%not_elem_of_nil |].
  destruct (negb (applies phase p)); [intros Hr; right; by eapply IH |].
  specialize (IH (hold_of hold (po_Terms p)) r).
  destruct (new_rules phase (hold_of hold (po_Terms p)) policies) as [rules h]. cbn [fst] in *.
  intros [-> | Hr]%elem_of_cons; [left | right; by apply IH].
Qed.

Lemma Validate_terms p term : Validate p = Ok tt -> term ∈ po_Terms p -> term <> [].
Proof.
  unfold Validate. intros H Hin ->. bind_inv. apply not_true_iff_false in H. apply H.
  apply existsb_exists. exists []. split; [by apply list_elem_of_In | done].
Qed.

(** Every event passed: the text is clean and, without redaction, unchanged. *)
Lemma push_all_protects (fold_eq : rune -> rune -> bool) (policies : list Policy) (phase : string)
    (texts : list (list rune)) (f : Filter) (outs : list rune) :
  (forall p, p ∈ policies -> Validate p = Ok tt) -> texts <> [] ->
  push_all fold_eq texts (New policies phase) = Some (f, outs) ->
  (forall p term, p ∈ policies -> applies phase p = true -> po_Mode p = "block" -> term ∈ po_Terms p ->
     ~ occurs fold_eq term (mjoin texts)) /\
  ((forall p, p ∈ policies -> po_Mode p <> "redact") -> outs = mjoin texts /\ Complete f = Ok tt).
Proof.
  intros Hv Hne Hrun. unfold New in Hrun. destruct (new_rules phase 0 policies) as [rules hold] eqn:En.
  pose proof (new_rules_spec phase policies 0) as [_ Hspec]. pose proof (new_rules_policies phase policies 0) as Hpol.
  rewrite En in Hspec, Hpol. cbn [fst snd] in *. split.
  - intros p term Hp Ha Hm Ht. destruct (Hspec p Hp Ha) as [(r & Hr & <-) Hlen].
    apply (push_all_clean fold_eq term texts [] (mkFilter rules phase hold []) f outs); [| | exact Hrun].
    + split; [by exists r |]. split; [by eapply Validate_terms; [apply Hv |] | by apply Hlen].
    + split; [| exists 0%nat; cbn; split; [done | lia]]. intros [i Hi]. rewrite drop_nil in Hi.
      pose proof (Validate_terms _ _ (Hv _ Hp) Ht). by destruct term.
  - intros Hm. apply push_all_transparent in Hrun as [-> Hf]; [| | done].
    + unfold Complete. by rewrite Hf.
    + cbn [fi_rules]. intros r Hr. apply Hm. by apply Hpol.
Qed.

(** A protected stream lets no blocked term through, wherever the events
    cut it: if every event of a stream passes the filter, the whole text has
    no occurrence, up to case folding, of any term of a blocking policy of
    that phase. When no policy redacts, what is passed on is exactly the text,
    and nothing stays held back. *)
Theorem blocked_terms_never_pass (fold_eq : rune -> rune -> bool) (policies : list Policy) (phase : string)
    (texts : list (list rune)) (f : Filter) (outs : list rune)
    (Hv : forall p, p ∈ policies -> Validate p = Ok tt) (Hne : texts <> [])
    (Hrun : push_all fold_eq texts (New policies phase) = Some (f, outs)) :
  (forall p term, p ∈ policies -> applies phase p = true -> po_Mode p = "block" -> term ∈ po_Terms p ->
     ~ occurs fold_eq term (mjoin texts)) /\
  ((forall p, p ∈ policies -> po_Mode p <> "redact") -> outs = mjoin texts /\ Complete f = Ok tt).
Proof. by apply push_all_protects. Qed.

(** ** Evaluation *)

Definition runes (s : string) : list rune := map (fun c => Z.of_nat (nat_of_ascii c)) (String.list_ascii_of_string s).
Definition ascii_fold (a b : rune) : bool :=
  let low r := if (65 <=? r) && (r <=? 90) then r + 32 else r in low a =? low b.

Definition example_policy (mode : string) : Policy := mkPolicy "secrets" "banned_terms" mode "post" [runes "apollo"].

(** The term is cut by the events: it is blocked when its last letter arrives,
    and redacted as a whole. *)
Lemma example_blocked :
  push_all ascii_fold [runes "project APO"; runes "LLO is"] (New [example_policy "block"] "post") = None.
Proof. vm_compute. reflexivity. Qed.

Lemma example_redacted :
  option_map snd (push_all ascii_fold [runes "project APO"; runes "LLO is"] (New [example_policy "redact"] "post")) =
  Some (runes "project [REDACTED] is").
Proof. vm_compute. reflexivity. Qed.

Lemma blocked_terms_never_pass_witness :
  exists f, push_all ascii_fold [runes "project AP"; runes "OLL0"] (New [example_policy "block"] "post") =
      Some (f, runes "project APOLL0") /\
    ~ occurs ascii_fold (runes "apollo") (runes "project APOLL0").
Proof.
  eexists. split; [vm_compute; reflexivity |].
  refine (proj1 (blocked_terms_never_pass ascii_fold [example_policy "block"] "post"
    [runes "project AP"; runes "OLL0"] _ _ _ _ ltac:(vm_compute; reflexivity)) (example_policy "block") (runes "apollo") _ _ _ _).
  - intros p ->%list_elem_of_singleton. reflexivity.
  - discriminate.
  - left.
  - reflexivity.
  - reflexivity.
  - left.
Defined.
