(* ===== verification/Json.v ===== *)
(** * JSON values and their canonical text

    A decoded JSON value, as [encoding/json] gives it: strings are sequences of
    code points (the decoder replaces anything else), and the type of numbers is
    a parameter, the literal for [json.RawMessage] and a float for [any]. An
    object is the list of its members; decoded into a Go map, a later member
    replaces an earlier one. The text is what [json.Marshal] writes, with the
    members in the order of their keys. It determines the value. *)

From S2P Require Import Prelude.
From Stdlib Require Import Ascii.

Set Warnings "-register-all".

Abbreviation text := (list Z).
Definition txt (s : string) : text := map (fun c => Z.of_nat (nat_of_ascii c)) (String.list_ascii_of_string s).
#[global] Arguments txt : simpl never.

Inductive json (N : Type) : Type :=
| JNull
| JBool (b : bool)
| JNum (n : N)
| JStr (s : text)
| JArr (l : list (json N))
| JObj (m : list (text * json N)).
Arguments JNull {N}.
Arguments JBool {N} b.
Arguments JNum {N} n.
Arguments JStr {N} s.
Arguments JArr {N} l.
Arguments JObj {N} m.

(** A [json.RawMessage]: its value, with the literals of the numbers. *)
Abbreviation raw := (json string).

(** Decoding a raw value into [any], where a number is a [float64]; a number out of
    range is an error. *)
Fixpoint to_any {F : Type} (parse_float : string -> option F) (v : raw) : option (json F) :=
  match v with
  | JNull => Some JNull
  | JBool b => Some (JBool b)
  | JNum lit => option_map JNum (parse_float lit)
  | JStr s => Some (JStr s)
  | JArr l =>
      option_map JArr ((fix go (l : list raw) : option (list (json F)) :=
        match l with [] => Some [] | v :: l => v ← to_any parse_float v; l ← go l; Some (v :: l) end) l)
  | JObj m =>
      option_map JObj ((fix go (m : list (text * raw)) : option (list (text * json F)) :=
        match m with [] => Some [] | (k, v) :: m => v ← to_any parse_float v; m ← go m; Some ((k, v) :: m) end) m)
  end.

Section Induction.
Context {N : Type} (P : json N -> Prop)
  (Hnull : P JNull) (Hbool : forall b, P (JBool b)) (Hnum : forall n, P (JNum n)) (Hstr : forall s, P (JStr s))
  (Harr : forall l, Forall P l -> P (JArr l)) (Hobj : forall m, Forall (fun kv => P kv.2) m -> P (JObj m)).

Fixpoint json_nested_ind (v : json N) : P v :=
  match v with
  | JNull => Hnull
  | JBool b => Hbool b
  | JNum n => Hnum n
  | JStr s => Hstr s
  | JArr l => Harr l ((fix go (l : list (json N)) : Forall P l :=
                         match l with [] => Forall_nil_2 P | x :: l => Forall_cons_2 P x l (json_nested_ind x) (go l) end) l)
  | JObj m => Hobj m ((fix go (m : list (text * json N)) : Forall (fun kv => P kv.2) m :=
                         match m with
                         | [] => Forall_nil_2 _
                         | (k, x) :: m => Forall_cons_2 (fun kv => P kv.2) (k, x) m (json_nested_ind x) (go m)
                         end) m)
  end.

End Induction.

(** ** Members *)

(** The map an object decodes into: the last member of a name stays. *)
Definition to_map {N} (m : list (text * json N)) : gmap text (json N) :=
  foldl (fun acc kv => <[kv.1 := kv.2]> acc) ∅ m.

(** ** Order of keys *)

(** [sort.Strings]: the bytes of UTF-8 are in the order of the code points. *)
Fixpoint text_leb (a b : text) : bool :=
  match a, b with
  | [], _ => true
  | _ :: _, [] => false
  | x :: a, y :: b => if x <? y then true else if y <? x then false else text_leb a b
  end.

Definition key_le {A} (a b : text * A) : Prop := text_leb a.1 b.1 = true.
#[export] Instance key_le_dec {A} : RelDecision (@key_le A).
Proof. intros a b. unfold key_le. apply _. Defined.

Lemma text_leb_total a b : text_leb a b = true \/ text_leb b a = true.
Proof.
  revert b. induction a as [| x a IH]; intros [| y b]; cbn; auto.
  destruct (Z.ltb_spec x y), (Z.ltb_spec y x); auto.
Qed.

Lemma text_leb_trans a b c : text_leb a b = true -> text_leb b c = true -> text_leb a c = true.
Proof.
  revert b c. induction a as [| x a IH]; intros [| y b] [| z c]; cbn; try done.
  destruct (Z.ltb_spec x y), (Z.ltb_spec y z), (Z.ltb_spec x z); try done; try lia;
    destruct (Z.ltb_spec y x), (Z.ltb_spec z y), (Z.ltb_spec z x); try done; try lia. apply IH.
Qed.

Lemma text_leb_antisym a b : text_leb a b = true -> text_leb b a = true -> a = b.
Proof.
  revert b. induction a as [| x a IH]; intros [| y b]; cbn; try done.
  destruct (Z.ltb_spec x y), (Z.ltb_spec y x); try done; try lia.
  intros H1 H2. f_equal; [lia | auto].
Qed.

#[export] Instance key_le_total {A} : Total (@key_le A).
Proof. intros a b. apply text_leb_total. Qed.
#[export] Instance key_le_trans {A} : Transitive (@key_le A).
Proof. intros a b c. apply text_leb_trans. Qed.

(** The members of a Go map, as [json.Marshal] writes them. *)
Definition members {N} (m : gmap text (json N)) : list (text * json N) := merge_sort key_le (map_to_list m).

Lemma elem_of_members {N} (k : text) (v : json N) (m : gmap text (json N)) : (k, v) ∈ members m <-> m !! k = Some v.
Proof. unfold members. by rewrite merge_sort_Permutation, elem_of_map_to_list. Qed.

(** Reading back the members of a map. *)
Lemma to_map_reverse {N} (l : list (text * json N)) : to_map l = list_to_map (reverse l).
Proof.
  unfold to_map. induction l as [| [k v] l IH] using rev_ind; [done |]. by rewrite foldl_app, reverse_snoc, list_to_map_cons, IH.
Qed.

Lemma to_map_members {N} (m : gmap text (json N)) : to_map (members m) = m.
Proof.
  assert (reverse (members m) ≡ₚ map_to_list m) as Hp
    by (unfold members; by rewrite reverse_Permutation, merge_sort_Permutation).
  rewrite to_map_reverse, (list_to_map_proper _ (map_to_list m)); [apply list_to_map_to_list | | done].
  rewrite Hp. apply NoDup_fst_map_to_list.
Qed.

(** ** Text *)

Definition hexdigit (n : Z) : Z := if n <? 10 then 48 + n else 87 + n.

(** How [json.Marshal] writes one code point of a string. *)
Definition escape (r : Z) : text :=
  if r =? 34 then [92; 34] else if r =? 92 then [92; 92]
  else if r =? 8 then [92; 98] else if r =? 12 then [92; 102] else if r =? 10 then [92; 110]
  else if r =? 13 then [92; 114] else if r =? 9 then [92; 116]
  else if (r <? 32) || (r =? 60) || (r =? 62) || (r =? 38)
  then [92; 117; 48; 48; hexdigit (r / 16); hexdigit (r mod 16)]
  else if r =? 8232 then [92; 117; 50; 48; 50; 56] else if r =? 8233 then [92; 117; 50; 48; 50; 57]
  else [r].

Definition quote (s : text) : text := 34 :: concat (map escape s) ++ [34].

(** Elements separated by commas. *)
Fixpoint commas (l : list text) : text :=
  match l with [] => [] | [x] => x | x :: l => x ++ 44 :: commas l end.

Section Print.
Context {N : Type} (format : N -> text).

(** The text of a value, with the members in the order they are listed. *)
Fixpoint print (v : json N) : text :=
  match v with
  | JNull => txt "null"
  | JBool b => txt (if b then "true" else "false")
  | JNum n => format n
  | JStr s => quote s
  | JArr l => 91 :: commas (map print l) ++ [93]
  | JObj m => 123 :: commas (map (fun kv => quote kv.1 ++ 58 :: print kv.2) m) ++ [125]
  end.

End Print.

(** The value with the members of every object in the order of their keys. *)
Fixpoint canonical {N} (v : json N) : json N :=
  match v with
  | JArr l => JArr (map canonical l)
  | JObj m => JObj (merge_sort key_le (map (fun kv => (kv.1, canonical kv.2)) m))
  | _ => v
  end.

(** ** The text determines the value *)

Lemma hexdigit_inj a b : 0 <= a < 16 -> 0 <= b < 16 -> hexdigit a = hexdigit b -> a = b.
Proof. unfold hexdigit. intros ? ?. destruct (Z.ltb_spec a 10), (Z.ltb_spec b 10); lia. Qed.

(** Code points of a string. *)
Definition rune_ok (r : Z) : Prop := 0 <= r.

(** The first element of an escape, and what follows an escaped character. *)
Lemma escape_view r : rune_ok r ->
  (r = 34 /\ escape r = [92; 34]) \/ (r = 92 /\ escape r = [92; 92]) \/ (r = 8 /\ escape r = [92; 98]) \/
  (r = 12 /\ escape r = [92; 102]) \/ (r = 10 /\ escape r = [92; 110]) \/ (r = 13 /\ escape r = [92; 114]) \/
  (r = 9 /\ escape r = [92; 116]) \/
  (0 <= r / 16 < 16 /\ escape r = [92; 117; 48; 48; hexdigit (r / 16); hexdigit (r mod 16)]) \/
  (r = 8232 /\ escape r = [92; 117; 50; 48; 50; 56]) \/ (r = 8233 /\ escape r = [92; 117; 50; 48; 50; 57]) \/
  (r <> 34 /\ r <> 92 /\ escape r = [r]).
Proof.
  unfold rune_ok, escape. intros Hr.
  destruct (Z.eqb_spec r 34); [tauto |]. destruct (Z.eqb_spec r 92); [tauto |].
  destruct (Z.eqb_spec r 8); [tauto |]. destruct (Z.eqb_spec r 12); [tauto |]. destruct (Z.eqb_spec r 10); [tauto |].
  destruct (Z.eqb_spec r 13); [tauto |]. destruct (Z.eqb_spec r 9); [tauto |].
  destruct ((r <? 32) || (r =? 60) || (r =? 62) || (r =? 38)) eqn:E.
  { do 7 right. left. split; [| done]. assert (0 <= r < 256) by lia.
    pose proof (Z.div_mod r 16 ltac:(lia)). pose proof (Z.mod_pos_bound r 16 ltac:(lia)). lia. }
  destruct (Z.eqb_spec r 8232); [tauto |]. destruct (Z.eqb_spec r 8233); tauto.
Qed.

Lemma escape_prefix_free a b x y :
  rune_ok a -> rune_ok b -> escape a ++ x = escape b ++ y -> a = b /\ x = y.
Proof.
  intros Ha Hb. pose proof (Z.mod_pos_bound a 16 ltac:(lia)). pose proof (Z.mod_pos_bound b 16 ltac:(lia)).
  destruct (escape_view a Ha) as [[Ea ->]|[[Ea ->]|[[Ea ->]|[[Ea ->]|[[Ea ->]|[[Ea ->]|[[Ea ->]|[[Ra ->]|[[Ea ->]|[[Ea ->]|(? & ? & ->)]]]]]]]]]];
  destruct (escape_view b Hb) as [[Eb ->]|[[Eb ->]|[[Eb ->]|[[Eb ->]|[[Eb ->]|[[Eb ->]|[[Eb ->]|[[Rb ->]|[[Eb ->]|[[Eb ->]|(? & ? & ->)]]]]]]]]]];
  cbn [app]; intros Heq; try (exfalso; injection Heq; intros; lia); injection Heq; intros; subst; try done.
  split; [| done].
  assert (a / 16 = b / 16) by (apply hexdigit_inj; done). assert (a mod 16 = b mod 16) by (apply hexdigit_inj; done).
  rewrite (Z.div_mod a 16), (Z.div_mod b 16) by lia. congruence.
Qed.

Lemma escape_head r : rune_ok r -> exists c rest, escape r = c :: rest /\ c <> 34.
Proof.
  intros Hr.
  destruct (escape_view r Hr) as [[? ->]|[[? ->]|[[? ->]|[[? ->]|[[? ->]|[[? ->]|[[? ->]|[[? ->]|[[? ->]|[[? ->]|(? & ? & ->)]]]]]]]]]];
    eexists _, _; done.
Qed.

Lemma quote_prefix_free s t x y :
  Forall rune_ok s -> Forall rune_ok t -> quote s ++ x = quote t ++ y -> s = t /\ x = y.
Proof.
  intros Hs Ht. unfold quote. cbn [app]. intros [= Heq]. rewrite <- !app_assoc in Heq. cbn [app] in Heq.
  revert t Ht Heq. induction Hs as [| a s Ha Hs IH]; intros t Ht Heq; destruct Ht as [| b t Hb Ht]; cbn in Heq.
  - by injection Heq.
  - destruct (escape_head b Hb) as (c & rest & E & Hc). rewrite E in Heq. injection Heq. congruence.
  - destruct (escape_head a Ha) as (c & rest & E & Hc). rewrite E in Heq. injection Heq. congruence.
  - rewrite <- !app_assoc in Heq. apply escape_prefix_free in Heq as [-> Heq]; [| done | done].
    destruct (IH t Ht Heq) as [-> ->]. done.
Qed.

(** What can follow a value: a comma, a closing bracket or the end. *)
Definition tail_ok (x : text) : Prop := match x with [] => True | c :: _ => c = 44 \/ c = 93 \/ c = 125 end.

(** The characters of a number. *)
Definition num_char (c : Z) : Prop := (48 <= c <= 57) \/ c = 43 \/ c = 45 \/ c = 46 \/ c = 69 \/ c = 101.

Lemma num_prefix_free a b x y :
  Forall num_char a -> Forall num_char b -> tail_ok x -> tail_ok y -> a ++ x = b ++ y -> a = b /\ x = y.
Proof.
  unfold num_char. intros Ha. revert b. induction Ha as [| c a Hc Ha IH]; intros b Hb Hx Hy Heq; destruct Hb as [| d b Hd Hb].
  - done.
  - cbn in Heq. subst x. cbn in Hx. lia.
  - cbn in Heq. subst y. cbn in Hy. lia.
  - injection Heq as -> Heq. destruct (IH b Hb Hx Hy Heq) as [-> ->]. done.
Qed.

Lemma commas_cons x l : commas (x :: l) = x ++ concat (map (cons 44) l).
Proof.
  revert x. induction l as [| y l IH]; intros x; [cbn; by rewrite app_nil_r |].
  change (commas (x :: y :: l)) with (x ++ 44 :: commas (y :: l)). by rewrite IH.
Qed.

(** Elements that follow the first one, up to the closing bracket. *)
Section Items.
Context {A : Type} (p : A -> text) (ok : A -> Prop) (close : Z).
Hypothesis Hclose : close = 93 \/ close = 125.

Definition readable (a : A) : Prop :=
  forall b u v, ok b -> tail_ok u -> tail_ok v -> p a ++ u = p b ++ v -> a = b /\ u = v.

Definition more_items (l : list A) (x : text) : text := concat (map (fun a => 44 :: p a) l) ++ close :: x.

Lemma more_items_tail l x : tail_ok (more_items l x).
Proof. destruct l; cbn; lia. Qed.

Lemma more_items_inj l l' x y :
  Forall readable l -> Forall ok l' -> more_items l x = more_items l' y -> l = l' /\ x = y.
Proof.
  intros Hl. revert l'. induction Hl as [| a l Ha Hl IH]; intros l' Hl' Heq; destruct Hl' as [| b l' Hb Hl'].
  - by injection Heq.
  - unfold more_items in Heq. cbn in Heq. injection Heq. lia.
  - unfold more_items in Heq. cbn in Heq. injection Heq. lia.
  - unfold more_items in Heq. cbn in Heq. injection Heq as Heq. rewrite <- !app_assoc in Heq.
    apply Ha in Heq as [-> Heq]; [| done | apply more_items_tail | apply more_items_tail].
    destruct (IH l' Hl' Heq) as [-> ->]. done.
Qed.

(** A bracketed list. *)
Lemma items_inj l l' x y :
  (forall a, ok a -> exists c rest, p a = c :: rest /\ c <> close) ->
  Forall readable l -> Forall ok l -> Forall ok l' ->
  commas (map p l) ++ close :: x = commas (map p l') ++ close :: y -> l = l' /\ x = y.
Proof.
  intros Hhead Hl Hok Hok' Heq.
  assert (forall a r z, commas (map p (a :: r)) ++ close :: z = p a ++ more_items r z) as Hshape.
  { intros a r z. cbn [map]. rewrite commas_cons, map_map, <- app_assoc. done. }
  destruct l as [| a l], l' as [| b l'].
  - by injection Heq.
  - exfalso. apply Forall_cons in Hok' as [Hb _]. destruct (Hhead b Hb) as (c & rest & E & Hc).
    rewrite Hshape, E in Heq. cbn in Heq. injection Heq. congruence.
  - exfalso. apply Forall_cons in Hok as [Ha _]. destruct (Hhead a Ha) as (c & rest & E & Hc).
    rewrite Hshape, E in Heq. cbn in Heq. injection Heq. congruence.
  - rewrite !Hshape in Heq. apply Forall_cons in Hl as [Ha Hl]. apply Forall_cons in Hok' as [Hb Hok'].
    apply Ha in Heq as [-> Heq]; [| done | apply more_items_tail | apply more_items_tail].
    apply more_items_inj in Heq as [-> ->]; done.
Qed.

End Items.

(** The strings of a value are code points. *)
Fixpoint runes_ok {N} (v : json N) : bool :=
  match v with
  | JStr s => forallb (fun r => 0 <=? r) s
  | JArr l => forallb runes_ok l
  | JObj m => forallb (fun kv => forallb (fun r => 0 <=? r) kv.1 && runes_ok kv.2) m
  | _ => true
  end.

Lemma to_any_runes {F : Type} (parse_float : string -> option F) v w :
  to_any parse_float v = Some w -> runes_ok v = true -> runes_ok w = true.
Proof.
  revert w. induction v as [| b | n | s | l IH | m IH] using json_nested_ind; intros w; cbn [to_any].
  1, 2, 4: by intros [= <-].
  - destruct (parse_float n); [by intros [= <-] | done].
  - match goal with |- option_map _ (?f l) = _ -> _ => set (go := f) end. destruct (go l) as [l'|] eqn:E; [| done]. intros [= <-].
    revert l' E. induction IH as [| v l Hv _ IHl]; intros l' E; cbn in E; [by injection E as <- |].
    destruct (to_any parse_float v) as [v'|]; [| done]. cbn in E. fold go in E. destruct (go l) as [l0|]; [| done]. injection E as <-.
    cbn. intros [H1 H2]%andb_true_iff. rewrite (Hv v') by done. exact (IHl l0 eq_refl H2).
  - match goal with |- option_map _ (?f m) = _ -> _ => set (go := f) end. destruct (go m) as [m'|] eqn:E; [| done]. intros [= <-].
    revert m' E. induction IH as [| [k v] m Hv _ IHm]; intros m' E; cbn in E; [by injection E as <- |].
    destruct (to_any parse_float v) as [v'|] eqn:Ev; [| done]. cbn in E. fold go in E. destruct (go m) as [m0|]; [| done]. injection E as <-.
    cbn. intros [[Hk H1]%andb_true_iff H2]%andb_true_iff. rewrite Hk, (Hv v') by done. exact (IHm m0 eq_refl H2).
Qed.

Lemma runes_forall s : forallb (fun r => 0 <=? r) s = true -> Forall rune_ok s.
Proof. rewrite forallb_forall, Forall_forall. intros H r Hr%list_elem_of_In. apply Z.leb_le. by apply H. Qed.

Lemma forallb_Forall {A} (f : A -> bool) l : forallb f l = true -> Forall (fun x => f x = true) l.
Proof. rewrite forallb_forall, Forall_forall. intros H x Hx%list_elem_of_In. by apply H. Qed.

(** Numbers whose text can be read back. *)
Class NumberText {N : Type} (format : N -> text) : Prop := {
  format_inj a b : format a = format b -> a = b;
  format_chars a : Forall num_char (format a);
  format_nonempty a : format a <> [];
}.

Section Unambiguous.
Context {N : Type} (format : N -> text) `{!NumberText format}.

#[local] Abbreviation print := (print format).

(** The first character of a value says what it is. *)
Definition head_class (v : json N) (c : Z) : Prop :=
  match v with
  | JNull => c = 110
  | JBool b => c = if b then 116 else 102
  | JNum _ => num_char c
  | JStr _ => c = 34
  | JArr _ => c = 91
  | JObj _ => c = 123
  end.

Lemma print_head v : exists c rest, print v = c :: rest /\ head_class v c.
Proof.
  destruct v as [| [] | n | s | l | m]; cbn [Json.print head_class]; try by eexists _, _.
  pose proof (format_nonempty n). pose proof (format_chars n) as Hc. destruct (format n) as [| c rest]; [done |].
  apply Forall_cons in Hc as [Hc _]. eexists _, _. done.
Qed.

Lemma head_class_not v c : head_class v c -> c <> 93 /\ c <> 125 /\ c <> 44.
Proof. unfold num_char in *. destruct v as [| [] | n | s | l | m]; cbn; unfold num_char; lia. Qed.

(** Values with texts that start alike are of the same kind. *)
Lemma print_kind v w x y :
  print v ++ x = print w ++ y -> exists c, head_class v c /\ head_class w c.
Proof.
  intros Heq. destruct (print_head v) as (c & rest & E & Hc). destruct (print_head w) as (c' & rest' & E' & Hc').
  rewrite E, E' in Heq. injection Heq as -> _. by exists c'.
Qed.

Definition member_text (kv : text * json N) : text := quote kv.1 ++ 58 :: print kv.2.

Lemma print_prefix_free v w x y :
  runes_ok v = true -> runes_ok w = true -> tail_ok x -> tail_ok y -> print v ++ x = print w ++ y -> v = w /\ x = y.
Proof.
  intros Hv. revert w x y Hv. induction v as [| b | n | s | l IH | m IH] using json_nested_ind; intros w x y Hv Hw Hx Hy Heq.
  all: destruct (print_kind _ _ _ _ Heq) as (c & Hc & Hc').
  all: destruct w as [| b' | n' | s' | l' | m'].
  all: try (exfalso; cbn in Hc, Hc'; unfold num_char in *; repeat match goal with b : bool |- _ => destruct b end; lia).
  - cbn in Heq. by injection Heq.
  - destruct b, b'; cbn in *; try lia; by injection Heq.
  - cbn [Json.print] in Heq. apply num_prefix_free in Heq as [Hf ->]; [| apply format_chars | apply format_chars | done | done].
    by apply format_inj in Hf as ->.
  - cbn [runes_ok Json.print] in *. apply quote_prefix_free in Heq as [-> ->]; [done | by apply runes_forall..].
  - cbn [runes_ok Json.print] in *. injection Heq as Heq. rewrite <- !app_assoc in Heq. cbn [app] in Heq.
    apply forallb_Forall in Hv, Hw.
    apply (items_inj print (fun v => runes_ok v = true)) in Heq as [-> ->]; [done | auto | | | done | done].
    + intros a _. destruct (print_head a) as (d & r & E & Hd). exists d, r. apply head_class_not in Hd. naive_solver.
    + rewrite Forall_forall in *. intros a Ha b u v Hb Hu Hv' He. by apply (IH a Ha b u v (Hv a Ha)).
  - cbn [runes_ok Json.print] in *. injection Heq as Heq. rewrite <- !app_assoc in Heq. cbn [app] in Heq.
    apply forallb_Forall in Hv, Hw.
    apply (items_inj member_text (fun kv => forallb (fun r => 0 <=? r) kv.1 && runes_ok kv.2 = true)) in Heq
      as [-> ->]; [done | auto | | | done | done].
    + intros a _. by eexists _, _.
    + rewrite Forall_forall in *. intros [k a] Ha [k' b] u v Hb Hu Hv' He. unfold member_text in He.
      rewrite <- !app_assoc in He. cbn [app fst snd] in *.
      apply andb_true_iff in Hb as [Hk' Hb]. pose proof (Hv _ Ha) as [Hk Hva]%andb_true_iff. cbn in Hk, Hva.
      apply quote_prefix_free in He as [-> He]; [| by apply runes_forall..]. injection He as He.
      apply (IH _ Ha b u v Hva Hb Hu Hv') in He as [Hab ->]. cbn in Hab. by subst.
Qed.

Lemma print_inj v w : runes_ok v = true -> runes_ok w = true -> print v = print w -> v = w.
Proof.
  intros Hv Hw Heq. apply (print_prefix_free v w [] []); [done.. |]. by rewrite !app_nil_r.
Qed.

End Unambiguous.

(** ** The canonical order *)

Lemma forallb_perm {A} (f : A -> bool) l k : l ≡ₚ k -> forallb f l = forallb f k.
Proof.
  induction 1 as [| x l k _ IH | x y l | l k j _ IH1 _ IH2]; cbn; [done | by rewrite IH | | congruence].
  by rewrite !andb_assoc, (andb_comm (f x)).
Qed.

Lemma runes_ok_canonical {N} (v : json N) : runes_ok (canonical v) = runes_ok v.
Proof.
  induction v as [| b | n | s | l IH | m IH] using json_nested_ind; cbn; try done.
  - induction IH as [| a l Ha _ IHl]; cbn; congruence.
  - rewrite (forallb_perm _ _ _ (merge_sort_Permutation key_le _)).
    induction IH as [| [k a] m Ha _ IHl]; cbn in *; congruence.
Qed.

(** The text of the canonical value is the same for two values exactly when they
    differ only in the order of members. *)
Lemma canonical_text {N} (format : N -> text) `{!NumberText format} (v w : json N) :
  runes_ok v = true -> runes_ok w = true ->
  print format (canonical v) = print format (canonical w) <-> canonical v = canonical w.
Proof.
  intros Hv Hw. split; [| by intros ->]. apply (print_inj format); by rewrite runes_ok_canonical.
Qed.
