(* ===== verification/Wire.v ===== *)
(** * Requests and responses on the wire ([providers/provider.go],
    [providers/embedding_input.go], [providers/responses.go])

    The typed projection the gateway reads from a JSON body and the body it
    forwards. [json.Unmarshal] into a struct assigns the members in their order,
    matches their names without regard to case, leaves a field alone for [null]
    and reads a member twice into the same field. A marshalled value is a JSON
    value; its text is that of [Json]. What the gateway does not change is
    forwarded as it came. *)

From S2P Require Import Prelude Json Money.
From Stdlib Require Import Decimal DecimalString DecimalZ.

(** ** Decoding *)

(** The folding of field names: ASCII letters, the long s and the Kelvin sign. *)
Definition fold_rune (r : Z) : Z :=
  if (97 <=? r) && (r <=? 122) then r - 32 else if r =? 383 then 83 else if r =? 8490 then 75 else r.

Definition is_key (name : string) (k : text) : bool := bool_decide (map fold_rune k = map fold_rune (txt name)).

(** [strconv.ParseInt] and the literal of an integer. *)
Definition parse_int (lit : string) : option Z :=
  match NilZero.int_of_string lit with
  | Some d => let z := Z.of_int d in if int64_okb z then Some z else None
  | None => None
  end.

Definition int_lit (z : Z) : string := NilZero.string_of_int (Z.to_int z).

(** A value decoded into a field that holds [old]. *)
Definition into_string (v : raw) (old : text) : option text :=
  match v with JStr s => Some s | JNull => Some old | _ => None end.
Definition into_int (v : raw) (old : Z) : option Z :=
  match v with JNum lit => parse_int lit | JNull => Some old | _ => None end.
Definition into_bool (v : raw) (old : bool) : option bool :=
  match v with JBool b => Some b | JNull => Some old | _ => None end.

(** A pointer: [null] clears it, another value is decoded into what it points to. *)
Definition into_ptr {A} (dec : raw -> A -> option A) (zero : A) (v : raw) (old : option A) : option (option A) :=
  match v with JNull => Some None | _ => a ← dec v (default zero old); Some (Some a) end.

(** The members of an object, one after the other. *)
Definition into_struct {A} (set : text -> raw -> A -> option A) (v : raw) (old : A) : option A :=
  match v with
  | JObj l => foldl (fun acc kv => a ← acc; set kv.1 kv.2 a) (Some old) l
  | JNull => Some old
  | _ => None
  end.

(** The elements of an array, each decoded into the element that is already there
    when the member is given twice. *)
Fixpoint into_elements {A} (dec : raw -> A -> option A) (zero : A) (l : list raw) (old : list A) : option (list A) :=
  match l with
  | [] => Some []
  | v :: l =>
      a ← dec v (match old with a :: _ => a | [] => zero end);
      l ← into_elements dec zero l (match old with _ :: old => old | [] => [] end);
      Some (a :: l)
  end.

Definition into_slice {A} (dec : raw -> A -> option A) (zero : A) (v : raw) (old : option (list A)) :
    option (option (list A)) :=
  match v with
  | JArr l => l ← into_elements dec zero l (default [] old); Some (Some l)
  | JNull => Some None
  | _ => None
  end.

(** [map[string]json.RawMessage]: [None] is the nil map. *)
Definition into_raw (v : raw) : option (option (gmap text raw)) :=
  match v with JObj l => Some (Some (to_map l)) | JNull => Some None | _ => None end.

(** A lookup in a map that may be nil. *)
Definition field (m : option (gmap text raw)) (k : string) : option raw := m ≫= lookup (txt k).

(** ** Usage *)

Definition set_prompt_details (k : text) (v : raw) (d : PromptTokensDetails) : option PromptTokensDetails :=
  if is_key "cached_tokens" k then n ← into_int v (CachedTokens d); Some (mkPromptTokensDetails n (ptd_AudioTokens d))
  else if is_key "audio_tokens" k then n ← into_int v (ptd_AudioTokens d); Some (mkPromptTokensDetails (CachedTokens d) n)
  else Some d.

Definition set_completion_details (k : text) (v : raw) (d : CompletionTokensDetails) : option CompletionTokensDetails :=
  if is_key "reasoning_tokens" k
  then n ← into_int v (ReasoningTokens d); Some (mkCompletionTokensDetails n (ctd_AudioTokens d))
  else if is_key "audio_tokens" k
  then n ← into_int v (ctd_AudioTokens d); Some (mkCompletionTokensDetails (ReasoningTokens d) n)
  else Some d.

Definition set_cache_details (k : text) (v : raw) (d : CacheCreationDetails) : option CacheCreationDetails :=
  if is_key "ephemeral_5m_input_tokens" k
  then n ← into_int v (Ephemeral5mInputTokens d); Some (mkCacheCreationDetails n (Ephemeral1hInputTokens d))
  else if is_key "ephemeral_1h_input_tokens" k
  then n ← into_int v (Ephemeral1hInputTokens d); Some (mkCacheCreationDetails (Ephemeral5mInputTokens d) n)
  else Some d.

Definition prompt_details := into_ptr (into_struct set_prompt_details) (mkPromptTokensDetails 0 0).
Definition completion_details := into_ptr (into_struct set_completion_details) (mkCompletionTokensDetails 0 0).
Definition cache_details := into_ptr (into_struct set_cache_details) (mkCacheCreationDetails 0 0).

Definition set_usage (k : text) (v : raw) (u : Usage) : option Usage :=
  let '(mkUsage p c t pd cd cc cr ca) := u in
  if is_key "prompt_tokens" k then n ← into_int v p; Some (mkUsage n c t pd cd cc cr ca)
  else if is_key "completion_tokens" k then n ← into_int v c; Some (mkUsage p n t pd cd cc cr ca)
  else if is_key "total_tokens" k then n ← into_int v t; Some (mkUsage p c n pd cd cc cr ca)
  else if is_key "prompt_tokens_details" k then d ← prompt_details v pd; Some (mkUsage p c t d cd cc cr ca)
  else if is_key "completion_tokens_details" k then d ← completion_details v cd; Some (mkUsage p c t pd d cc cr ca)
  else if is_key "cache_creation_input_tokens" k then n ← into_int v cc; Some (mkUsage p c t pd cd n cr ca)
  else if is_key "cache_read_input_tokens" k then n ← into_int v cr; Some (mkUsage p c t pd cd cc n ca)
  else if is_key "cache_creation" k then d ← cache_details v ca; Some (mkUsage p c t pd cd cc cr d)
  else Some u.

Definition no_usage : Usage := mkUsage 0 0 0 None None 0 0 None.
Definition into_usage : raw -> Usage -> option Usage := into_struct set_usage.

(** Encoding, with the fields that are left out when they are empty. *)
Definition jint (n : Z) : raw := JNum (int_lit n).
Definition jstr (s : text) : raw := JStr s.
Definition omit_zero (k : string) (n : Z) : list (text * raw) := if n =? 0 then [] else [(txt k, jint n)].
Definition omit_nil {A} (k : string) (enc : A -> raw) (p : option A) : list (text * raw) :=
  match p with Some a => [(txt k, enc a)] | None => [] end.

Definition encode_usage (u : Usage) : raw :=
  JObj ([(txt "prompt_tokens", jint (PromptTokens u)); (txt "completion_tokens", jint (CompletionTokens u));
         (txt "total_tokens", jint (TotalTokens u))] ++
    omit_nil "prompt_tokens_details"
      (fun d => JObj (omit_zero "cached_tokens" (CachedTokens d) ++ omit_zero "audio_tokens" (ptd_AudioTokens d)))
      (u_PromptTokensDetails u) ++
    omit_nil "completion_tokens_details"
      (fun d => JObj (omit_zero "reasoning_tokens" (ReasoningTokens d) ++ omit_zero "audio_tokens" (ctd_AudioTokens d)))
      (u_CompletionTokensDetails u) ++
    omit_zero "cache_creation_input_tokens" (CacheCreationInputTokens u) ++
    omit_zero "cache_read_input_tokens" (CacheReadInputTokens u) ++
    omit_nil "cache_creation"
      (fun d => JObj (omit_zero "ephemeral_5m_input_tokens" (Ephemeral5mInputTokens d) ++
                      omit_zero "ephemeral_1h_input_tokens" (Ephemeral1hInputTokens d)))
      (CacheCreation u)).

(** [reportedCounters]: every counter is there, under its exact name, as a
    non-negative integer. *)
Definition reportedCounters (v : option raw) (names : list string) : bool :=
  match v ≫= into_raw with
  | Some fields =>
      forallb (fun name => match field fields name with
                           | Some (JNum lit) => match parse_int lit with Some n => negb (n <? 0) | None => false end
                           | _ => false
                           end) names
  | None => false
  end.

Definition ReportedUsage (v : option raw) (completion : bool) : bool :=
  reportedCounters v (["prompt_tokens"] ++ if completion then ["completion_tokens"] else []).

(** ** Messages *)

Record ChatMessage := mkChatMessage {
  cm_Role : text;
  cm_Content : text;
  cm_raw : option (gmap text raw);
  cm_originalRole : text;
  cm_originalContent : text;
}.

(** The text of one part of a content array: the first of its two fields that is
    there and decodes as a string. *)
Definition part_text (part : option (gmap text raw)) : option text :=
  let text k := field part k ≫= fun v => into_string v [] in
  match text "text" with Some s => Some s | None => text "content" end.

Fixpoint join_parts (parts : list (option (gmap text raw))) (out : text) : text :=
  match parts with
  | [] => out
  | part :: parts =>
      join_parts parts
        (match part_text part with
         | Some value => out ++ (if bool_decide (out = []) then [] else [10]) ++ value
         | None => out
         end)
  end.

Definition textContent (v : option raw) : option text :=
  match v with
  | None | Some JNull => Some []
  | Some (JStr s) => Some s
  | Some (JArr l) => parts ← mapM into_raw l; Some (join_parts parts [])
  | Some _ => None
  end.

Definition ChatMessage_UnmarshalJSON (v : raw) : option ChatMessage :=
  m ← into_raw v;
  role ← (match field m "role" with Some r => into_string r [] | None => Some [] end);
  content ← textContent (field m "content");
  Some (mkChatMessage role content m role content).

(** [json.Marshal] of a map, and [putJSON]. *)
Definition marshal_map (m : gmap text raw) : raw := JObj (members m).
Definition putJSON (k : string) (v : raw) (m : gmap text raw) : gmap text raw := <[txt k := v]> m.

Definition ChatMessage_MarshalJSON (m : ChatMessage) : raw :=
  match cm_raw m with
  | None => JObj [(txt "role", jstr (cm_Role m)); (txt "content", jstr (cm_Content m))]
  | Some fields =>
      let fields := if bool_decide (cm_Role m = cm_originalRole m) then fields
                    else putJSON "role" (jstr (cm_Role m)) fields in
      let fields := if bool_decide (cm_Content m = cm_originalContent m) then fields
                    else putJSON "content" (jstr (cm_Content m)) fields in
      marshal_map fields
  end.

(** ** Chat requests *)

Section Requests.
(** [float64]: its literal, and what the decoder makes of a literal. *)
Context {F : Type} (parse_float : string -> option F) (float_lit : F -> string).

Record ChatRequest := mkChatRequest {
  rq_Model : text;
  rq_Messages : option (list ChatMessage);
  rq_Stream : bool;
  rq_StreamOptions : option bool;
  rq_Temperature : option F;
  rq_MaxTokens : option Z;
  rq_MaxCompletionTokens : option Z;
  rq_User : text;
  rq_raw : option (gmap text raw);
}.

(** [StreamOptions] is its one field, [IncludeUsage]. *)
Definition set_stream_options (k : text) (v : raw) (o : bool) : option bool :=
  if is_key "include_usage" k then into_bool v o else Some o.

Definition no_message : ChatMessage := mkChatMessage [] [] None [] [].

(** A pointer to a [float64]. *)
Definition set_temperature (v : raw) : option (option F) :=
  match v with JNull => Some None | JNum lit => f ← parse_float lit; Some (Some f) | _ => None end.

Definition set_request (k : text) (v : raw) (r : ChatRequest) : option ChatRequest :=
  let '(mkChatRequest model msgs stream options temp max maxc user raw) := r in
  if is_key "model" k then s ← into_string v model; Some (mkChatRequest s msgs stream options temp max maxc user raw)
  else if is_key "messages" k
  then l ← into_slice (fun v _ => ChatMessage_UnmarshalJSON v) no_message v msgs;
       Some (mkChatRequest model l stream options temp max maxc user raw)
  else if is_key "stream" k then b ← into_bool v stream; Some (mkChatRequest model msgs b options temp max maxc user raw)
  else if is_key "stream_options" k
  then o ← into_ptr (into_struct set_stream_options) false v options;
       Some (mkChatRequest model msgs stream o temp max maxc user raw)
  else if is_key "temperature" k
  then t ← set_temperature v; Some (mkChatRequest model msgs stream options t max maxc user raw)
  else if is_key "max_tokens" k
  then n ← into_ptr into_int 0 v max; Some (mkChatRequest model msgs stream options temp n maxc user raw)
  else if is_key "max_completion_tokens" k
  then n ← into_ptr into_int 0 v maxc; Some (mkChatRequest model msgs stream options temp max n user raw)
  else if is_key "user" k then s ← into_string v user; Some (mkChatRequest model msgs stream options temp max maxc s raw)
  else Some r.

Definition set_rq_raw (raw : option (gmap text raw)) (r : ChatRequest) : ChatRequest :=
  mkChatRequest (rq_Model r) (rq_Messages r) (rq_Stream r) (rq_StreamOptions r) (rq_Temperature r) (rq_MaxTokens r)
    (rq_MaxCompletionTokens r) (rq_User r) raw.

Definition ChatRequest_UnmarshalJSON (v : raw) : option ChatRequest :=
  wire ← into_struct set_request v (mkChatRequest [] None false None None None None [] None);
  raw ← into_raw v;
  Some (set_rq_raw raw wire).

Definition messages_json (msgs : option (list ChatMessage)) : raw :=
  match msgs with Some l => JArr (map ChatMessage_MarshalJSON l) | None => JNull end.

(** The options that are there, with [include_usage] as the gateway sets it. *)
Definition merge_options (existing : option raw) (include : bool) : raw :=
  let options := match existing with Some (JObj l) => to_map l | _ => ∅ end in
  marshal_map (putJSON "include_usage" (JBool include) options).

Definition put_opt {A} (k : string) (enc : A -> raw) (p : option A) (m : gmap text raw) : gmap text raw :=
  match p with Some a => putJSON k (enc a) m | None => m end.

Definition ChatRequest_MarshalJSON (r : ChatRequest) : raw :=
  match rq_raw r with
  | None =>
      JObj ([(txt "model", jstr (rq_Model r)); (txt "messages", messages_json (rq_Messages r))] ++
        (if rq_Stream r then [(txt "stream", JBool true)] else []) ++
        omit_nil "stream_options" (fun b : bool => JObj (if b then [(txt "include_usage", JBool true)] else []))
          (rq_StreamOptions r) ++
        omit_nil "temperature" (fun f => JNum (float_lit f)) (rq_Temperature r) ++
        omit_nil "max_tokens" jint (rq_MaxTokens r) ++
        omit_nil "max_completion_tokens" jint (rq_MaxCompletionTokens r) ++
        (if bool_decide (rq_User r = []) then [] else [(txt "user", jstr (rq_User r))]))
  | Some m =>
      let m := putJSON "model" (jstr (rq_Model r)) m in
      let m := match rq_Messages r with Some _ => putJSON "messages" (messages_json (rq_Messages r)) m | None => m end in
      let m := if rq_Stream r || bool_decide (is_Some (m !! txt "stream")) then putJSON "stream" (JBool (rq_Stream r)) m else m in
      let m := put_opt "stream_options" (merge_options (m !! txt "stream_options")) (rq_StreamOptions r) m in
      let m := put_opt "temperature" (fun f => JNum (float_lit f)) (rq_Temperature r) m in
      let m := put_opt "max_tokens" jint (rq_MaxTokens r) m in
      let m := put_opt "max_completion_tokens" jint (rq_MaxCompletionTokens r) m in
      let m := if bool_decide (rq_User r = []) then m else putJSON "user" (jstr (rq_User r)) m in
      marshal_map m
  end.

End Requests.

(** ** Chat responses *)

Record ChatChoice := mkChatChoice { cc_Index : Z; cc_Message : ChatMessage; cc_FinishReason : text }.

Definition set_choice (k : text) (v : raw) (c : ChatChoice) : option ChatChoice :=
  let '(mkChatChoice index message finish) := c in
  if is_key "index" k then n ← into_int v index; Some (mkChatChoice n message finish)
  else if is_key "message" k then m ← ChatMessage_UnmarshalJSON v; Some (mkChatChoice index m finish)
  else if is_key "finish_reason" k then s ← into_string v finish; Some (mkChatChoice index message s)
  else Some c.

Record ChatResponse := mkChatResponse {
  rs_ID : text;
  rs_Model : text;
  rs_Choices : option (list ChatChoice);
  rs_Usage : Usage;
  rs_raw : option (gmap text raw);
}.

Definition set_response (k : text) (v : raw) (r : ChatResponse) : option ChatResponse :=
  let '(mkChatResponse id model choices usage raw) := r in
  if is_key "id" k then s ← into_string v id; Some (mkChatResponse s model choices usage raw)
  else if is_key "model" k then s ← into_string v model; Some (mkChatResponse id s choices usage raw)
  else if is_key "choices" k
  then l ← into_slice (into_struct set_choice) (mkChatChoice 0 no_message []) v choices;
       Some (mkChatResponse id model l usage raw)
  else if is_key "usage" k then u ← into_usage v usage; Some (mkChatResponse id model choices u raw)
  else Some r.

Definition ChatResponse_UnmarshalJSON (v : raw) : option ChatResponse :=
  wire ← into_struct set_response v (mkChatResponse [] [] None no_usage None);
  raw ← into_raw v;
  Some (mkChatResponse (rs_ID wire) (rs_Model wire) (rs_Choices wire) (rs_Usage wire) raw).

Definition choice_json (c : ChatChoice) : raw :=
  JObj [(txt "index", jint (cc_Index c)); (txt "message", ChatMessage_MarshalJSON (cc_Message c));
        (txt "finish_reason", jstr (cc_FinishReason c))].

Definition ChatResponse_MarshalJSON (r : ChatResponse) : raw :=
  match rs_raw r with
  | None =>
      JObj [(txt "id", jstr (rs_ID r)); (txt "model", jstr (rs_Model r));
            (txt "choices", match rs_Choices r with Some l => JArr (map choice_json l) | None => JNull end);
            (txt "usage", encode_usage (rs_Usage r))]
  | Some m => marshal_map (putJSON "model" (jstr (rs_Model r)) m)
  end.

Definition ChatResponse_UsageReported (r : ChatResponse) : bool :=
  match rs_raw r with
  | Some m => ReportedUsage (m !! txt "usage") true
  | None =>
      let p := PromptTokens (rs_Usage r) in
      let c := CompletionTokens (rs_Usage r) in
      (0 <=? p) && (0 <=? c) && ((0 <? p) || (0 <? c))
  end.

(** ** Embeddings *)

Record EmbeddingInput := mkEmbeddingInput { in_Texts : list text; in_Tokens : list (list Z); in_single : bool }.

Definition IsTokenized (i : EmbeddingInput) : bool := negb (bool_decide (in_Tokens i = [])).

Definition jtokens (l : list Z) : raw := JArr (map jint l).

(** [json.Marshal] of a nil slice of texts is [null]. *)
Definition EmbeddingInput_MarshalJSON (i : EmbeddingInput) : raw :=
  if IsTokenized i
  then match in_single i, in_Tokens i with
       | true, tokens :: _ => jtokens tokens
       | _, l => JArr (map jtokens l)
       end
  else match in_single i, in_Texts i with
       | true, [text] => jstr text
       | _, [] => JNull
       | _, l => JArr (map jstr l)
       end.

Definition parse_text (v : raw) : option text := match v with JStr (r :: s) => Some (r :: s) | _ => None end.

Definition parse_token (v : raw) : option Z :=
  match v with JNum lit => n ← parse_int lit; if n <? 0 then None else Some n | _ => None end.

Definition parseTokens (l : list raw) : option (list Z) :=
  match l with [] => None | _ => mapM parse_token l end.

Definition EmbeddingInput_UnmarshalJSON (v : raw) : option EmbeddingInput :=
  match v with
  | JStr _ => s ← parse_text v; Some (mkEmbeddingInput [s] [] true)
  | JArr [] => None
  | JArr (JStr s :: items) => texts ← mapM parse_text (JStr s :: items); Some (mkEmbeddingInput texts [] false)
  | JArr (JArr l :: items) =>
      rows ← mapM (fun item => match item with JArr row => parseTokens row | _ => None end) (JArr l :: items);
      Some (mkEmbeddingInput [] rows false)
  | JArr items => tokens ← parseTokens items; Some (mkEmbeddingInput [] [tokens] true)
  | _ => None
  end.

Record EmbeddingRequest := mkEmbeddingRequest {
  eq_Model : text;
  eq_Input : EmbeddingInput;
  eq_User : text;
  eq_raw : option (gmap text raw);
}.

Definition set_embedding_request (k : text) (v : raw) (r : EmbeddingRequest) : option EmbeddingRequest :=
  let '(mkEmbeddingRequest model input user raw) := r in
  if is_key "model" k then s ← into_string v model; Some (mkEmbeddingRequest s input user raw)
  else if is_key "input" k then i ← EmbeddingInput_UnmarshalJSON v; Some (mkEmbeddingRequest model i user raw)
  else if is_key "user" k then s ← into_string v user; Some (mkEmbeddingRequest model input s raw)
  else Some r.

Definition EmbeddingRequest_UnmarshalJSON (v : raw) : option EmbeddingRequest :=
  wire ← into_struct set_embedding_request v (mkEmbeddingRequest [] (mkEmbeddingInput [] [] false) [] None);
  raw ← into_raw v;
  Some (mkEmbeddingRequest (eq_Model wire) (eq_Input wire) (eq_User wire) raw).

Definition EmbeddingRequest_MarshalJSON (r : EmbeddingRequest) : raw :=
  match eq_raw r with
  | None =>
      JObj ([(txt "model", jstr (eq_Model r)); (txt "input", EmbeddingInput_MarshalJSON (eq_Input r))] ++
        (if bool_decide (eq_User r = []) then [] else [(txt "user", jstr (eq_User r))]))
  | Some m => marshal_map (putJSON "model" (jstr (eq_Model r)) m)
  end.

(** ** Usage of native responses ([responses.go]) *)

Record InputDetails := mkInputDetails { id_CachedTokens : Z; id_CacheWriteTokens : Z }.

Record ResponseUsage := mkResponseUsage {
  ru_decoded : bool;
  ru_reported : bool;
  ru_InputTokens : Z;
  ru_OutputTokens : Z;
  ru_TotalTokens : Z;
  ru_InputDetails : option InputDetails;
  ru_OutputDetails : option CompletionTokensDetails;
}.

Definition set_input_details (k : text) (v : raw) (d : InputDetails) : option InputDetails :=
  if is_key "cached_tokens" k then n ← into_int v (id_CachedTokens d); Some (mkInputDetails n (id_CacheWriteTokens d))
  else if is_key "cache_write_tokens" k
  then n ← into_int v (id_CacheWriteTokens d); Some (mkInputDetails (id_CachedTokens d) n)
  else Some d.

Definition set_response_usage (k : text) (v : raw) (u : ResponseUsage) : option ResponseUsage :=
  let '(mkResponseUsage d r i o t id od) := u in
  if is_key "input_tokens" k then n ← into_int v i; Some (mkResponseUsage d r n o t id od)
  else if is_key "output_tokens" k then n ← into_int v o; Some (mkResponseUsage d r i n t id od)
  else if is_key "total_tokens" k then n ← into_int v t; Some (mkResponseUsage d r i o n id od)
  else if is_key "input_tokens_details" k
  then x ← into_ptr (into_struct set_input_details) (mkInputDetails 0 0) v id; Some (mkResponseUsage d r i o t x od)
  else if is_key "output_tokens_details" k
  then x ← completion_details v od; Some (mkResponseUsage d r i o t id x)
  else Some u.

Definition ResponseUsage_UnmarshalJSON (v : raw) : option ResponseUsage :=
  u ← into_struct set_response_usage v (mkResponseUsage false false 0 0 0 None None);
  Some (mkResponseUsage true (reportedCounters (Some v) ["input_tokens"; "output_tokens"])
    (ru_InputTokens u) (ru_OutputTokens u) (ru_TotalTokens u) (ru_InputDetails u) (ru_OutputDetails u)).

Definition ResponseUsage_UsageReported (u : option ResponseUsage) : bool :=
  match u with
  | None => false
  | Some u =>
      if ru_decoded u then ru_reported u
      else (0 <=? ru_InputTokens u) && (0 <=? ru_OutputTokens u) && ((0 <? ru_InputTokens u) || (0 <? ru_OutputTokens u))
  end.

Definition ResponseUsage_Canonical (u : ResponseUsage) : Usage :=
  match ru_InputDetails u with
  | Some d =>
      mkUsage (ru_InputTokens u) (ru_OutputTokens u) (ru_TotalTokens u) (Some (mkPromptTokensDetails (id_CachedTokens d) 0))
        (ru_OutputDetails u) (id_CacheWriteTokens d) 0 None
  | None => mkUsage (ru_InputTokens u) (ru_OutputTokens u) (ru_TotalTokens u) None (ru_OutputDetails u) 0 0 None
  end.

(** ** Counts are machine integers *)

Lemma parse_int_ok lit z : parse_int lit = Some z -> int64_ok z.
Proof.
  unfold parse_int. destruct (NilZero.int_of_string lit); [| done]. destruct (int64_okb _) eqn:E; [| done].
  intros [= <-]. by apply int64_okb_spec.
Qed.

Lemma into_int_ok v old n : int64_ok old -> into_int v old = Some n -> int64_ok n.
Proof. destruct v; try done; cbn; [by intros ? [= <-] | intros _; apply parse_int_ok]. Qed.

(** What every field assignment keeps, the decoder keeps. *)
Lemma into_struct_keeps {A} (P : A -> Prop) set v old new :
  (forall k v a a', P a -> set k v a = Some a' -> P a') -> P old -> into_struct set v old = Some new -> P new.
Proof.
  intros Hset. destruct v as [| | | | | l]; try done; cbn; [by intros ? [= <-] |]. revert old.
  induction l as [| [k v] l IH]; intros old Hold; cbn; [by intros [= <-] |].
  destruct (set k v old) as [a|] eqn:E; [apply IH; by eapply Hset |].
  intros Hn. exfalso. clear -Hn. induction l as [| kv l IHl]; [done | by apply IHl].
Qed.

Lemma into_ptr_keeps {A} (P : A -> Prop) dec zero v old new :
  (forall v a a', P a -> dec v a = Some a' -> P a') -> P zero -> (forall a, old = Some a -> P a) ->
  into_ptr dec zero v old = Some new -> forall a, new = Some a -> P a.
Proof.
  intros Hdec Hz Hold. unfold into_ptr. assert (P (default zero old)) as Hd by (destruct old; cbn; eauto).
  destruct v; try (destruct (dec _ _) as [a|] eqn:E; cbn; [intros [= <-] ? [= <-]; by eapply Hdec | done]). by intros [= <-].
Qed.

(** The assignment that [E] makes, and that its new value fits. *)
Ltac fits E :=
  repeat match type of E with (if ?b then _ else _) = _ => destruct b end;
  repeat match type of E with (?m ≫= _) = _ => let n := fresh in let En := fresh in destruct m as [n|] eqn:En; cbn in E; [| discriminate E] end;
  injection E as <-.

Ltac int_fits := eapply into_int_ok; [| eassumption]; assumption.

Definition prompt_int64 (d : PromptTokensDetails) : Prop := int64_ok (CachedTokens d).
Definition completion_int64 (d : CompletionTokensDetails) : Prop := int64_ok (ReasoningTokens d).
Definition creation_int64 (d : CacheCreationDetails) : Prop :=
  int64_ok (Ephemeral5mInputTokens d) /\ int64_ok (Ephemeral1hInputTokens d).

Lemma zero_int64_ok : int64_ok 0.
Proof. by vm_compute. Qed.

Lemma prompt_details_int64 v old new :
  (forall d, old = Some d -> prompt_int64 d) -> prompt_details v old = Some new -> forall d, new = Some d -> prompt_int64 d.
Proof.
  apply into_ptr_keeps; [| apply zero_int64_ok]. intros v' a a'. apply into_struct_keeps.
  intros k v0 b b' Hb E. unfold set_prompt_details in E. fits E; try done. int_fits.
Qed.

Lemma completion_details_int64 v old new :
  (forall d, old = Some d -> completion_int64 d) -> completion_details v old = Some new -> forall d, new = Some d -> completion_int64 d.
Proof.
  apply into_ptr_keeps; [| apply zero_int64_ok]. intros v' a a'. apply into_struct_keeps.
  intros k v0 b b' Hb E. unfold set_completion_details in E. fits E; try done. int_fits.
Qed.

Lemma cache_details_int64 v old new :
  (forall d, old = Some d -> creation_int64 d) -> cache_details v old = Some new -> forall d, new = Some d -> creation_int64 d.
Proof.
  apply into_ptr_keeps; [| split; apply zero_int64_ok]. intros v' a a'. apply into_struct_keeps.
  intros k v0 b b' [H5 H1] E. unfold set_cache_details in E. fits E; try done; split; cbn; first [done | int_fits].
Qed.

Lemma usage_int64_details u :
  usage_int64 u <->
  int64_ok (PromptTokens u) /\ int64_ok (CompletionTokens u) /\ int64_ok (CacheCreationInputTokens u) /\ int64_ok (CacheReadInputTokens u) /\
  (forall d, u_PromptTokensDetails u = Some d -> prompt_int64 d) /\ (forall d, u_CompletionTokensDetails u = Some d -> completion_int64 d) /\
  (forall d, CacheCreation u = Some d -> creation_int64 d).
Proof.
  unfold usage_int64. split.
  - intros (? & ? & ? & ? & Hp & Hc & Ha). split_and!; try done; intros d E; rewrite E in *; done.
  - intros (? & ? & ? & ? & Hp & Hc & Ha). split_and!; try done; case_match; auto.
    + by apply (Hp p).
    + by apply (Hc c).
    + by apply (Ha c).
Qed.

Lemma into_usage_int64 v old u : usage_int64 old -> into_usage v old = Some u -> usage_int64 u.
Proof.
  apply into_struct_keeps. intros k v0 [p c t pd cd cc cr ca] u' Hu E. apply usage_int64_details in Hu as (? & ? & ? & ? & ? & ? & ?).
  apply usage_int64_details. unfold set_usage in E. fits E; cbn in *; split_and!; try done;
    first [int_fits | eapply prompt_details_int64; [| eassumption]; assumption | eapply completion_details_int64; [| eassumption]; assumption | eapply cache_details_int64; [| eassumption]; assumption].
Qed.

Lemma no_usage_fits : usage_int64 no_usage.
Proof. by vm_compute. Qed.

Lemma ChatResponse_usage_int64 v r : ChatResponse_UnmarshalJSON v = Some r -> usage_int64 (rs_Usage r).
Proof.
  unfold ChatResponse_UnmarshalJSON. destruct (into_struct _ _ _) as [w|] eqn:E; cbn; [| done]. destruct (into_raw v); cbn; [| done].
  intros [= <-]. revert E. apply (into_struct_keeps (fun r => usage_int64 (rs_Usage r))); [| apply no_usage_fits].
  intros k v0 [id model choices usage raw] r' Hu E. unfold set_response in E. fits E; cbn in *; try done. eapply into_usage_int64; [| eassumption]; assumption.
Qed.

Definition limits_int64 {F} (r : ChatRequest (F := F)) : Prop :=
  (forall n, rq_MaxTokens r = Some n -> int64_ok n) /\ (forall n, rq_MaxCompletionTokens r = Some n -> int64_ok n).

Lemma ChatRequest_limits_int64 {F} (parse_float : string -> option F) v r :
  ChatRequest_UnmarshalJSON parse_float v = Some r -> limits_int64 r.
Proof.
  unfold ChatRequest_UnmarshalJSON. destruct (into_struct _ _ _) as [w|] eqn:E; cbn; [| done]. destruct (into_raw v); cbn; [| done].
  intros [= <-]. assert (limits_int64 w) as Hw; [| done]. revert E. apply into_struct_keeps; [| done].
  intros k v0 [model msgs stream options temp max maxc user raw] r' [Hm Hc] E. unfold set_request in E.
  fits E; split; cbn in *; try done; (eapply into_ptr_keeps; [apply into_int_ok | apply zero_int64_ok | |]; [| eassumption]; assumption).
Qed.

(** ** Round trips *)

(** The names of fields are closed: which one a member sets is computed. *)
Ltac keys :=
  repeat match goal with
  | |- context [is_key ?a (txt ?b)] =>
      let v := eval vm_compute in (is_key a (txt b)) in change (is_key a (txt b)) with v
  end.

Lemma parse_int_lit z : int64_ok z -> parse_int (int_lit z) = Some z.
Proof.
  intros Hz. unfold parse_int, int_lit. rewrite NilZero.isi.
  - rewrite DecimalZ.of_to. by rewrite (proj2 (int64_okb_spec z)).
  - destruct z; cbn; [done | | done]. intros [=]. by destruct (DecimalPos.Unsigned.to_uint_nonnil p).
  - destruct z; cbn; [done | done |]. intros [=]. by destruct (DecimalPos.Unsigned.to_uint_nonnil p).
Qed.

Lemma into_int_jint n old : int64_ok n -> into_int (jint n) old = Some n.
Proof. apply parse_int_lit. Qed.

Section Fields.
Context {A : Type} (set : text -> raw -> A -> option A).

#[local] Abbreviation assign := (foldl (fun acc kv => a ← acc; set kv.1 kv.2 a)).

Lemma assign_cons k v a a' rest : set k v a = Some a' -> assign (Some a) ((k, v) :: rest) = assign (Some a') rest.
Proof. intros Hset. cbn. by rewrite Hset. Qed.

(** A field that is left out when it is zero. *)
Lemma assign_omit_zero k n a a' rest :
  set (txt k) (jint n) a = Some a' -> (n = 0 -> a' = a) -> assign (Some a) (omit_zero k n ++ rest) = assign (Some a') rest.
Proof.
  intros Hset Hz. unfold omit_zero. destruct (Z.eqb_spec n 0) as [He | He]; cbn; [by rewrite Hz | by rewrite Hset].
Qed.

Lemma assign_omit_nil {B} k (enc : B -> raw) p a a' rest :
  (forall b, p = Some b -> set (txt k) (enc b) a = Some a') -> (p = None -> a' = a) ->
  assign (Some a) (omit_nil k enc p ++ rest) = assign (Some a') rest.
Proof. intros Hset Hz. destruct p as [b|]; cbn; [by rewrite (Hset b) | by rewrite Hz]. Qed.
End Fields.

Definition usage_ints (u : Usage) : Prop :=
  Forall int64_ok ([PromptTokens u; CompletionTokens u; TotalTokens u; CacheCreationInputTokens u; CacheReadInputTokens u] ++
    match u_PromptTokensDetails u with Some d => [CachedTokens d; ptd_AudioTokens d] | None => [] end ++
    match u_CompletionTokensDetails u with Some d => [ReasoningTokens d; ctd_AudioTokens d] | None => [] end ++
    match CacheCreation u with Some d => [Ephemeral5mInputTokens d; Ephemeral1hInputTokens d] | None => [] end).

(** Two optional counters in an object. *)
Lemma details_roundtrip {A} (set : text -> raw -> A -> option A) (zero : A) (mk : Z -> Z -> A) k1 k2 a b :
  (set (txt k1) (jint a) zero = Some (mk a 0)) -> (set (txt k2) (jint b) (mk a 0) = Some (mk a b)) -> zero = mk 0 0 ->
  into_ptr (into_struct set) zero (JObj (omit_zero k1 a ++ omit_zero k2 b)) None = Some (Some (mk a b)).
Proof.
  intros H1 H2 ->. cbn. rewrite (assign_omit_zero set k1 a _ (mk a 0)); [| done | by intros ->].
  rewrite <- (app_nil_r (omit_zero k2 b)), (assign_omit_zero set k2 b _ (mk a b)); [done | done | by intros ->].
Qed.

(** One counter or one nested object of a usage. *)
#[local] Ltac counter := unfold set_usage; keys; cbv beta iota; rewrite into_int_jint by done; reflexivity.
#[local] Ltac details :=
  intros d ->; unfold set_usage, prompt_details, completion_details, cache_details; keys; cbv beta iota;
  match goal with H : Forall _ _ |- _ => apply Forall_cons in H as [? [? _]%Forall_cons] end; destruct d;
  match goal with |- context [into_ptr (into_struct ?set) (?mk 0 0) _ _] => rewrite (details_roundtrip set _ mk);
    [done | unfold set; keys; cbv iota; by rewrite into_int_jint.. | done] end.

(** A usage that the gateway encodes is read back as it was. *)
Lemma usage_roundtrip u : usage_ints u -> into_usage (encode_usage u) no_usage = Some u.
Proof.
  destruct u as [p c t pd cd cc cr ca]. unfold usage_ints. intros Hu. rewrite !Forall_app, !Forall_cons in Hu.
  cbn -[int64_ok] in Hu. destruct Hu as ((Hp & Hc & Ht & Hcc & Hcr & _) & Hpd & Hcd & Hca).
  unfold into_usage, into_struct, encode_usage, no_usage. cbn [PromptTokens CompletionTokens TotalTokens u_PromptTokensDetails
    u_CompletionTokensDetails CacheCreationInputTokens CacheReadInputTokens CacheCreation].
  rewrite <- !app_comm_cons. cbn [Datatypes.app].
  rewrite (assign_cons set_usage _ _ _ (mkUsage p 0 0 None None 0 0 None)) by counter.
  rewrite (assign_cons set_usage _ _ _ (mkUsage p c 0 None None 0 0 None)) by counter.
  rewrite (assign_cons set_usage _ _ _ (mkUsage p c t None None 0 0 None)) by counter.
  rewrite (assign_omit_nil set_usage _ _ pd _ (mkUsage p c t pd None 0 0 None)); [| details | by intros ->].
  rewrite (assign_omit_nil set_usage _ _ cd _ (mkUsage p c t pd cd 0 0 None)); [| details | by intros ->].
  rewrite (assign_omit_zero set_usage _ cc _ (mkUsage p c t pd cd cc 0 None)); [| counter | by intros ->].
  rewrite (assign_omit_zero set_usage _ cr _ (mkUsage p c t pd cd cc cr None)); [| counter | by intros ->].
  rewrite <- (app_nil_r (omit_nil _ _ ca)).
  by rewrite (assign_omit_nil set_usage _ _ ca _ (mkUsage p c t pd cd cc cr ca)); [| details | intros ->].
Qed.

(** *** Embedding inputs *)

(** An input is texts or rows of token identifiers, and never empty. *)
Definition token_ok (n : Z) : Prop := 0 <= n <= MaxInt64.

Definition input_ok (i : EmbeddingInput) : Prop :=
  (in_single i = true -> length (in_Texts i) + length (in_Tokens i) = 1)%nat /\
  ((in_Tokens i = [] /\ in_Texts i <> [] /\ Forall (fun s => s <> []) (in_Texts i)) \/
   (in_Texts i = [] /\ in_Tokens i <> [] /\ Forall (fun row => row <> [] /\ Forall token_ok row) (in_Tokens i))).

Lemma parse_text_Some v s : parse_text v = Some s <-> v = jstr s /\ s <> [].
Proof. split; [destruct v as [| | | [|]| |]; cbn; intros [= <-]; done | intros [-> ?]; by destruct s]. Qed.

Lemma parse_token_ok v n : parse_token v = Some n -> token_ok n.
Proof.
  destruct v as [| | lit | | |]; cbn; try done. destruct (parse_int lit) as [z|] eqn:E; cbn; [| done].
  destruct (Z.ltb_spec z 0); [done |]. intros [= <-]. unfold parse_int in E. repeat case_match; try done.
  injection E as <-. unfold token_ok, int64_okb in *. lia.
Qed.

Lemma parse_token_jint n : token_ok n -> parse_token (jint n) = Some n.
Proof.
  intros Hn. cbn. rewrite parse_int_lit by (unfold token_ok, int64_ok, MinInt64 in *; lia). cbn.
  by destruct (Z.ltb_spec n 0); [unfold token_ok in Hn; lia |].
Qed.

Lemma parseTokens_ok l row : parseTokens l = Some row -> row <> [] /\ Forall token_ok row.
Proof.
  unfold parseTokens. destruct l as [| v l]; [done |]. intros H. split.
  - apply length_mapM in H. by destruct row.
  - apply mapM_Some in H. clear -H. induction H; constructor; eauto using parse_token_ok.
Qed.

Lemma parseTokens_jint row : row <> [] -> Forall token_ok row -> parseTokens (map jint row) = Some row.
Proof.
  intros Hne Hr. unfold parseTokens. destruct row as [| n row]; [done |].
  change (mapM parse_token (map jint (n :: row)) = Some (n :: row)).
  apply mapM_Some. clear Hne. induction Hr; constructor; [by apply parse_token_jint | done].
Qed.

#[local] Abbreviation parse_row := (fun item => match item with JArr row => parseTokens row | _ => None end).

Lemma parse_rows_ok items rows :
  mapM parse_row items = Some rows -> Forall (fun row => row <> [] /\ Forall token_ok row) rows.
Proof.
  intros H%mapM_Some. induction H as [| item row items rows Hi _ IH]; constructor; [| done].
  destruct item; try done. by eapply parseTokens_ok.
Qed.

Lemma EmbeddingInput_Unmarshal_ok v i : EmbeddingInput_UnmarshalJSON v = Some i -> input_ok i.
Proof.
  unfold EmbeddingInput_UnmarshalJSON, input_ok. destruct v as [| | | s | items |]; try done.
  { destruct (parse_text (JStr s)) as [t|] eqn:E; cbn; [| done]. intros [= <-]. cbn. apply parse_text_Some in E as [_ ?].
    split; [done | left]. repeat constructor; done. }
  destruct items as [| item items]; [done |].
  assert (forall i, (tokens ← parseTokens (item :: items); Some (mkEmbeddingInput [] [tokens] true)) = Some i ->
    (in_single i = true -> length (in_Texts i) + length (in_Tokens i) = 1)%nat /\
    ((in_Tokens i = [] /\ in_Texts i <> [] /\ Forall (fun s => s <> []) (in_Texts i)) \/
     (in_Texts i = [] /\ in_Tokens i <> [] /\ Forall (fun row => row <> [] /\ Forall token_ok row) (in_Tokens i)))) as Htok.
  { intros j. destruct (parseTokens _) as [row|] eqn:E; cbn; [| done]. intros [= <-]. cbn.
    apply parseTokens_ok in E. split; [done | right]. repeat constructor; done || apply E. }
  destruct item as [| | | s | l |]; try exact (Htok i).
  - destruct (mapM parse_text (JStr s :: items)) as [texts|] eqn:E; cbn [mbind option_bind]; [| done]. intros [= <-]. cbn.
    split; [done | left]. split_and!; [done | by apply length_mapM in E; destruct texts |].
    apply mapM_Some in E. clear -E. induction E; constructor; [by eapply parse_text_Some | done].
  - destruct (mapM parse_row (JArr l :: items)) as [rows|] eqn:E; cbn [mbind option_bind]; [| done]. intros [= <-]. cbn.
    split; [done | right]. split_and!; [done | by apply length_mapM in E; destruct rows | by eapply parse_rows_ok].
Qed.

Lemma EmbeddingInput_Marshal_ok i : input_ok i -> EmbeddingInput_UnmarshalJSON (EmbeddingInput_MarshalJSON i) = Some i.
Proof.
  destruct i as [texts rows single]. unfold input_ok, EmbeddingInput_MarshalJSON, IsTokenized. cbn.
  intros [Hs [(-> & Hne & Ht) | (-> & Hne & Hr)]]; cbn.
  - assert (forall l, Forall (fun s => s <> []) l -> mapM parse_text (map jstr l) = Some l) as Hall.
    { intros l Hl. apply mapM_Some. induction Hl; constructor; [by apply parse_text_Some | done]. }
    destruct single.
    + destruct texts as [| s [| s' texts]]; [done | | cbn in Hs; specialize (Hs eq_refl); lia].
      apply Forall_cons in Ht as [Ht _]. destruct s; done.
    + destruct texts as [| s texts]; [done |].
      transitivity (l ← mapM parse_text (map jstr (s :: texts)); Some (mkEmbeddingInput l [] false)); [reflexivity |].
      by rewrite (Hall (s :: texts)).
  - rewrite bool_decide_false by done. cbn. destruct rows as [| row rows]; [done |].
    apply Forall_cons in Hr as [[Hrow Htok] Hrows]. destruct single.
    + destruct rows; [| cbn in Hs; specialize (Hs eq_refl); lia]. unfold jtokens.
      transitivity (l ← parseTokens (map jint row); Some (mkEmbeddingInput [] [l] true)); [by destruct row |].
      by rewrite parseTokens_jint.
    + transitivity (l ← mapM parse_row (map jtokens (row :: rows)); Some (mkEmbeddingInput [] l false)); [reflexivity |].
      assert (mapM parse_row (map jtokens (row :: rows)) = Some (row :: rows)) as ->; [| done].
      apply mapM_Some. constructor; [by apply parseTokens_jint |]. clear -Hrows.
      induction Hrows as [| r rs [Hr1 Hr2] _ IH]; constructor; [by apply parseTokens_jint | done].
Qed.

(** Embedding inputs round trip. What the decoder accepts is a non-empty
    list of non-empty texts or of non-empty rows of token identifiers in range,
    never both, and forwarding it to a provider and decoding it again gives the
    same input. *)
Theorem embedding_input_roundtrip (v : raw) (i : EmbeddingInput) (H : EmbeddingInput_UnmarshalJSON v = Some i) :
  input_ok i /\ EmbeddingInput_UnmarshalJSON (EmbeddingInput_MarshalJSON i) = Some i.
Proof. split; [by eapply EmbeddingInput_Unmarshal_ok | by eapply EmbeddingInput_Marshal_ok, EmbeddingInput_Unmarshal_ok]. Qed.

Lemma embedding_input_roundtrip_witness :
  let i := mkEmbeddingInput [] [[1; 2]; [3]] false in
  input_ok i /\ EmbeddingInput_UnmarshalJSON (EmbeddingInput_MarshalJSON i) = Some i.
Proof.
  refine (embedding_input_roundtrip (JArr [JArr [JNum "1"; JNum "2"]; JArr [JNum "3"]]) _ _). vm_compute. reflexivity.
Defined.

(** *** Forwarded chat requests *)

(** A message that was decoded and not changed is forwarded with the same
    fields; [null] becomes an empty message. *)
Definition same_message (v out : raw) : Prop :=
  match v with
  | JObj l => exists l', out = JObj l' /\ to_map l' = to_map l
  | JNull => out = JObj [(txt "role", JStr []); (txt "content", JStr [])]
  | _ => False
  end.

Lemma ChatMessage_roundtrip v m : ChatMessage_UnmarshalJSON v = Some m -> same_message v (ChatMessage_MarshalJSON m).
Proof.
  unfold ChatMessage_UnmarshalJSON, ChatMessage_MarshalJSON. destruct v as [| | | | | l]; try done.
  - intros [= <-]. done.
  - cbn [into_raw mbind option_bind]. destruct (match _ with Some r => _ | None => _ end) as [role|]; [| done].
    cbn [mbind option_bind]. destruct (textContent _) as [content|]; [| done]. intros [= <-]. cbn.
    rewrite !bool_decide_true by done. eexists. split; [done |]. apply to_map_members.
Qed.

Section Forward.
Context {F : Type} (parse_float : string -> option F) (float_lit : F -> string).

#[local] Abbreviation Unmarshal := (ChatRequest_UnmarshalJSON parse_float).
#[local] Abbreviation Marshal := (ChatRequest_MarshalJSON float_lit).

(** The handler's change for an attempt: [upstream.Model = target.UpstreamModel]. *)
Definition set_model (model : text) (r : @ChatRequest F) : ChatRequest :=
  mkChatRequest model (rq_Messages r) (rq_Stream r) (rq_StreamOptions r) (rq_Temperature r) (rq_MaxTokens r)
    (rq_MaxCompletionTokens r) (rq_User r) (rq_raw r).

Definition rewritten : list text :=
  [txt "model"; txt "messages"; txt "stream"; txt "stream_options"; txt "temperature"; txt "max_tokens";
   txt "max_completion_tokens"; txt "user"].

(** A member that is not the messages leaves them alone. *)
Lemma set_request_messages k v (r r' : @ChatRequest F) :
  set_request parse_float k v r = Some r' -> is_key "messages" k = false -> rq_Messages r' = rq_Messages r.
Proof.
  unfold set_request. destruct r as [model msgs stream options temp max maxc user raw]. intros H Hk. rewrite Hk in H.
  repeat match type of H with
  | (if ?c then _ else _) = _ => destruct c
  | (?x ≫= _) = _ => destruct x; cbn [mbind option_bind] in H; [| discriminate]
  | Some _ = Some _ => injection H as <-; reflexivity
  end.
Qed.

Lemma into_messages l old msgs :
  into_slice (fun v _ => ChatMessage_UnmarshalJSON v) no_message (JArr l) old = Some msgs ->
  exists ms, msgs = Some ms /\ mapM ChatMessage_UnmarshalJSON l = Some ms.
Proof.
  cbn. generalize (default [] old). intros old'. destruct (into_elements _ _ l old') as [ms|] eqn:E; cbn; [| done].
  intros [= <-]. exists ms. split; [done |]. revert old' ms E. induction l as [| v l IH]; intros old' ms; cbn; [by intros [= <-] |].
  destruct (ChatMessage_UnmarshalJSON v) as [m|]; cbn; [| done].
  destruct (into_elements _ _ l _) as [ms'|] eqn:E; cbn; [| done]. intros [= <-]. by rewrite (IH _ _ E).
Qed.

(** The messages of a decoded request are those of the member of that name. *)
Definition messages_of (l : list (text * raw)) (msgs : option (list ChatMessage)) : Prop :=
  match to_map l !! txt "messages" with
  | Some (JArr vs) => exists ms, msgs = Some ms /\ mapM ChatMessage_UnmarshalJSON vs = Some ms
  | _ => msgs = None
  end.

Lemma decoded_messages l (r0 r : @ChatRequest F) :
  (forall k v, (k, v) ∈ l -> is_key "messages" k = true -> k = txt "messages") -> rq_Messages r0 = None ->
  foldl (fun acc kv => a ← acc; set_request parse_float kv.1 kv.2 a) (Some r0) l = Some r ->
  messages_of l (rq_Messages r).
Proof.
  intros Hspell Hr0. revert r. induction l as [| [k v] l IH] using rev_ind; intros r.
  { intros [= <-]. done. }
  rewrite foldl_app. destruct (foldl _ (Some r0) l) as [r1|] eqn:E; cbn; [| done]. intros Hset.
  unfold messages_of. rewrite to_map_reverse, reverse_snoc. cbn [list_to_map]. rewrite list_to_map_cons, <- to_map_reverse.
  destruct (decide (k = txt "messages")) as [-> | Hk].
  - rewrite lookup_insert_eq. revert Hset. unfold set_request. destruct r1 as [model msgs stream options temp max maxc user raw].
    keys. cbv beta iota. destruct v as [| | | | vs |]; try done.
    + intros [= <-]. done.
    + destruct (into_slice _ _ _ _) as [ms|] eqn:Es; [| done]. intros [= <-]. by eapply into_messages.
  - rewrite lookup_insert_ne by done. rewrite (set_request_messages _ _ _ _ Hset).
    + apply IH; [| done]. intros k' v' Hin. apply (Hspell k' v'), elem_of_app. by left.
    + destruct (is_key "messages" k) eqn:Ek; [| done]. exfalso. apply Hk, (Hspell k v); [| done].
      apply elem_of_app. right. by apply list_elem_of_singleton.
Qed.

Lemma put_opt_ne {A} k (enc : A -> raw) p m k' : k' <> txt k -> put_opt k enc p m !! k' = m !! k'.
Proof. intros Hk. destruct p; cbn; [| done]. unfold putJSON. by rewrite lookup_insert_ne. Qed.

Lemma putJSON_ne k v m k' : k' <> txt k -> putJSON k v m !! k' = m !! k'.
Proof. intros Hk. unfold putJSON. by rewrite lookup_insert_ne. Qed.

End Forward.

#[local] Ltac other_key := first [done | intros Heq; vm_compute in Heq; discriminate].
#[local] Ltac past_fields :=
  repeat first [rewrite put_opt_ne by other_key | case_match | rewrite putJSON_ne by other_key].

(** C32. A decoded chat request that is encoded again, as for the providers that
    speak the OpenAI format, is the client's request. Whatever the body, the
    encoding names the model it was given and carries every member but the eight
    the gateway writes itself, known to it or not, unchanged; and when no member's
    name differs from [messages] in case only, each message goes out with exactly
    the fields it came with. The adapters of other formats build their own bodies
    and are not the subject. *)
Theorem forwarded_request_is_the_clients {F} (parse_float : string -> option F) (float_lit : F -> string)
    (l : list (text * raw)) (r : ChatRequest) (model : text)
    (H : ChatRequest_UnmarshalJSON parse_float (JObj l) = Some r) :
  exists out, ChatRequest_MarshalJSON float_lit (set_model model r) = JObj out /\
    to_map out !! txt "model" = Some (JStr model) /\
    (forall k, k ∉ rewritten -> to_map out !! k = to_map l !! k) /\
    ((forall k v, (k, v) ∈ l -> is_key "messages" k = true -> k = txt "messages") ->
     match to_map l !! txt "messages" with
     | Some (JArr msgs) => exists outs, to_map out !! txt "messages" = Some (JArr outs) /\ Forall2 same_message msgs outs
     | v => to_map out !! txt "messages" = v
     end).
Proof.
  unfold ChatRequest_UnmarshalJSON in H. cbn [into_struct into_raw mbind option_bind] in H.
  destruct (foldl _ _ l) as [wire|] eqn:E; cbn in H; [| done]. injection H as <-.
  unfold ChatRequest_MarshalJSON, set_model, set_rq_raw. cbn [rq_raw].
  eexists. split; [reflexivity |]. rewrite to_map_members. cbn [rq_Model rq_Messages rq_Stream rq_StreamOptions rq_Temperature
    rq_MaxTokens rq_MaxCompletionTokens rq_User]. split_and!.
  - past_fields; unfold putJSON; by rewrite lookup_insert_eq.
  - intros k Hk. unfold rewritten in Hk. rewrite !not_elem_of_cons in Hk. destruct Hk as (?&?&?&?&?&?&?&?&_). past_fields; done.
  - intros Hspell. pose proof (fun H0 => decoded_messages parse_float l _ _ Hspell H0 E) as Hm. specialize (Hm eq_refl).
    unfold messages_of in Hm.
    destruct (to_map l !! txt "messages") as [v|] eqn:Ev; [destruct v as [| | | | vs |] |];
      try (rewrite Hm; past_fields; by rewrite ?putJSON_ne by other_key).
    destruct Hm as (ms & Hms & Hvs). rewrite Hms. exists (map ChatMessage_MarshalJSON ms). split.
    + past_fields; unfold putJSON; by rewrite lookup_insert_eq.
    + apply mapM_Some in Hvs. clear -Hvs. induction Hvs; constructor; [by apply ChatMessage_roundtrip | done].
Qed.

Lemma forwarded_request_is_the_clients_witness :
  let l := [(txt "model", JStr (txt "fast")); (txt "messages", JArr [JObj [(txt "role", JStr (txt "user")); (txt "name", JStr (txt "me"))]]);
            (txt "tools", JArr [])] in
  exists r, ChatRequest_UnmarshalJSON (fun _ => @None unit) (JObj l) = Some r /\
  exists out, ChatRequest_MarshalJSON (fun _ => "0") (set_model (txt "gpt-4o") r) = JObj out /\
    to_map out !! txt "tools" = Some (JArr []).
Proof.
  intros l. eexists. split; [vm_compute; reflexivity |].
  edestruct (forwarded_request_is_the_clients (fun _ => @None unit) (fun _ => "0") l) as (out & Hout & _ & Hk & _).
  - vm_compute. reflexivity.
  - exists out. split; [exact Hout |]. rewrite Hk; [reflexivity |]. apply (bool_decide_unpack _). vm_compute. exact I.
Defined.
