(* ===== verification/Cache.v ===== *)
(** * The prompt cache ([cache/cache.go])

    The key of a request, from its canonical body, and the entries in Redis. The
    reading of a number as a float64, the text of a float64 and the digest are
    parameters: the digest is a string without colons. A hit is a response that
    was stored for the same team, the same alias and the same request, unless
    two texts have one digest; and the same request is one whose numbers are
    equal as floats, so that two large seeds can share a key. *)

From S2P Require Import Prelude GoStrings Json Wire Guardrails Redis.
From Stdlib Require Import Ascii.

(** The type [F] is [float64]. *)
Section Canonical.
Context {F : Type} (parse_float : string -> option F) (format : F -> text).

(** The fields that do not affect what a request asks for. *)
Definition stripped : list text := [txt "stream"; txt "user"; txt "request_id"; txt "metadata"; txt "stream_options"].

(** The maps of the decoded value: of members with one name the last stays. *)
Fixpoint decode_any (v : json F) : json F :=
  match v with
  | JArr l => JArr (map decode_any l)
  | JObj m => JObj (members (to_map (map (fun kv => (kv.1, decode_any kv.2)) m)))
  | _ => v
  end.

(** [wsRun.ReplaceAllString(s, " ")]: runs of blanks and tabs. *)
Fixpoint collapse (inside : bool) (s : text) : text :=
  match s with
  | [] => []
  | r :: s =>
      if (r =? 32) || (r =? 9) then if inside then collapse true s else 32 :: collapse true s
      else r :: collapse false s
  end.

Fixpoint trim_front (s : text) : text :=
  match s with r :: s' => if is_space r then trim_front s' else s | [] => [] end.

Definition TrimSpace (s : text) : text := rev (trim_front (rev (trim_front s))).

Definition normalizeWhitespace (s : text) : text := collapse false (TrimSpace s).

(** The content of one message. *)
Definition normalize_message (m : json F) : json F :=
  match m with
  | JObj mm =>
      match to_map mm !! txt "content" with
      | Some (JStr s) => JObj (members (<[txt "content" := JStr (normalizeWhitespace s)]> (to_map mm)))
      | _ => m
      end
  | _ => m
  end.

(** The steps of [canonicalize] on the map the body decodes into. *)
Definition strip_fields (raw : gmap text (json F)) : gmap text (json F) :=
  foldl (fun raw k => delete k raw) raw stripped.

Definition normalize_messages (raw : gmap text (json F)) : gmap text (json F) :=
  match raw !! txt "messages" with
  | Some (JArr msgs) => <[txt "messages" := JArr (map normalize_message msgs)]> raw
  | _ => raw
  end.

Definition normalize_input (raw : gmap text (json F)) : gmap text (json F) :=
  match raw !! txt "input" with
  | Some (JStr input) => <[txt "input" := JStr (normalizeWhitespace input)]> raw
  | _ => raw
  end.

(** A body that is no object is an error; [null] decodes to the nil map. *)
Definition normalized_body (body : json F) : option (json F) :=
  match decode_any body with
  | JNull => Some (JObj [])
  | JObj m => Some (JObj (members (normalize_input (normalize_messages (strip_fields (to_map m))))))
  | _ => None
  end.

(** [marshalSorted]: the keys of every object sorted. *)
Fixpoint marshalSorted (v : json F) : text :=
  match v with
  | JArr l => 91 :: commas (map marshalSorted l) ++ [93]
  | JObj m =>
      123 :: commas (map (fun kv => quote kv.1 ++ 58 :: kv.2)
                       (merge_sort key_le (map (fun kv => (kv.1, marshalSorted kv.2)) m))) ++ [125]
  | _ => print format v
  end.

Definition canonicalize (body : option raw) : option text :=
  body ← body; any ← to_any parse_float body; v ← normalized_body any; Some (marshalSorted v).

(** ** The cache *)

Record Cache := mkCache { ca_keyPrefix : string }.

(** [cache.New]; without an address there is no cache. *)
Definition New (addr keyPrefix : string) : option Cache :=
  if (addr =? "")%string then None else Some (mkCache (if (keyPrefix =? "")%string then "aiport" else keyPrefix)).

Context (digest : text -> string).

Definition cache_key (prefix : string) (teamID : Z) (alias hash : string) : string :=
  prefix +:+ (":" +:+ ("cache" +:+ (":" +:+ (pretty teamID +:+ (":" +:+ (alias +:+ (":" +:+ hash))))))).

Definition Key (c : Cache) (teamID : Z) (alias : string) (requestBody : option raw) : option string :=
  canonical ← canonicalize requestBody;
  let prefix := if (ca_keyPrefix c =? "")%string then "aiport" else ca_keyPrefix c in
  Some (cache_key prefix teamID alias (digest canonical)).

(** The values of the cache's keys in Redis with the instants they expire at;
    [None] is a value that does not decode. *)
#[local] Abbreviation entries E := (gmap string (option E * Z)).

Inductive get_error := ErrMiss | GetFailed | DecodeFailed.

Definition Get {E} (c : option Cache) (call : io) (now : Z) (key : string) (db : entries E) : result get_error E :=
  match c with
  | None => Err ErrMiss
  | Some _ =>
      match call with
      | IoOk =>
          match db !! key with
          | Some (v, expires) =>
              if now <? expires then match v with Some e => Ok e | None => Err DecodeFailed end else Err ErrMiss
          | None => Err ErrMiss
          end
      | _ => Err GetFailed
      end
  end.

(** [Set]: the new entries and whether it succeeded. *)
Definition Set_ {E} (c : option Cache) (call : io) (now : Z) (key : string) (e : E) (ttl : Z) (db : entries E) :
    entries E * bool :=
  if match c with None => true | Some _ => false end || (ttl <=? 0) then (db, true)
  else match call with
       | IoOk => (<[key := (Some e, now + ttl)]> db, true)
       | IoFailedBefore => (db, false)
       | IoFailedAfter => (<[key := (Some e, now + ttl)]> db, false)
       end.

Definition Delete {E} (c : option Cache) (call : io) (key : string) (db : entries E) : entries E * bool :=
  match c with
  | None => (db, true)
  | Some _ =>
      match call with
      | IoOk => (delete key db, true)
      | IoFailedBefore => (db, false)
      | IoFailedAfter => (delete key db, false)
      end
  end.

End Canonical.

(** ** Sorting by keys *)

Section SortMap.
Context {A B : Type} (f : A -> B).

Definition on_snd (kv : text * A) : text * B := (kv.1, f kv.2).

Lemma list_merge_map l k :
  list_merge key_le (map on_snd l) (map on_snd k) = map on_snd (list_merge key_le l k).
Proof.
  revert k. induction l as [| x l IHl]; intros k; [by destruct k |].
  induction k as [| y k IHk]; [done |]. cbn [map list_merge] in *.
  destruct (decide (key_le (on_snd x) (on_snd y))) as [H1 | H1], (decide (key_le x y)) as [H2 | H2].
  - cbn [map]. f_equal. apply (IHl (y :: k)).
  - by destruct H2.
  - by destruct H1.
  - cbn [map]. f_equal. apply IHk.
Qed.

Lemma merge_to_stack_map st l :
  merge_list_to_stack key_le (map (option_map (map on_snd)) st) (map on_snd l) =
  map (option_map (map on_snd)) (merge_list_to_stack key_le st l).
Proof.
  revert l. induction st as [| [k|] st IH]; intros l; [done | | done]. cbn. by rewrite list_merge_map, IH.
Qed.

Lemma merge_sort_aux_map st l :
  merge_sort_aux key_le (map (option_map (map on_snd)) st) (map on_snd l) = map on_snd (merge_sort_aux key_le st l).
Proof.
  revert st. induction l as [| x l IH]; intros st.
  - cbn. induction st as [| [k|] st IHst]; [done | | done]. cbn. by rewrite IHst, list_merge_map.
  - cbn [map merge_sort_aux]. rewrite <- IH. f_equal. apply (merge_to_stack_map st [x]).
Qed.

Lemma merge_sort_map l : merge_sort key_le (map on_snd l) = map on_snd (merge_sort key_le l).
Proof. apply (merge_sort_aux_map [] l). Qed.

End SortMap.

Section Keys.
Context {F : Type} (parse_float : string -> option F) (format : F -> text) `{!NumberText format} (digest : text -> string).

Lemma marshalSorted_print (v : json F) : marshalSorted format v = print format (canonical v).
Proof.
  induction v as [| b | n | s | l IH | m IH] using json_nested_ind; try done.
  - cbn [marshalSorted canonical print]. do 2 f_equal. f_equal. rewrite map_map.
    apply map_ext_in. intros x Hx. rewrite Forall_forall in IH. by apply IH, list_elem_of_In.
  - cbn [marshalSorted canonical print]. do 2 f_equal.
    assert (map (fun kv => (kv.1, marshalSorted format kv.2)) m =
            map (on_snd (print format)) (map (fun kv => (kv.1, canonical kv.2)) m)) as ->.
    { rewrite map_map. apply map_ext_in. intros x Hx. rewrite Forall_forall in IH. unfold on_snd. cbn.
      f_equal. by apply IH, list_elem_of_In. }
    rewrite merge_sort_map, map_map. done.
Qed.

(** Code points only. *)
Definition members_ok (m : gmap text (json F)) : Prop :=
  forall k v, m !! k = Some v -> Forall rune_ok k /\ runes_ok v = true.

Lemma runes_forallb s : forallb (fun r => 0 <=? r) s = true <-> Forall rune_ok s.
Proof.
  split; [apply runes_forall |]. intros H. apply forallb_forall. intros r Hr%list_elem_of_In.
  rewrite Forall_forall in H. apply Z.leb_le. by apply H.
Qed.

Lemma obj_ok_elem m : runes_ok (JObj m : json F) = true <-> forall k v, (k, v) ∈ m -> Forall rune_ok k /\ runes_ok v = true.
Proof.
  cbn. rewrite forallb_forall. split.
  - intros H k v Hkv%list_elem_of_In. specialize (H _ Hkv). apply andb_true_iff in H as [H1 H2].
    by rewrite runes_forallb in H1.
  - intros H [k v] Hkv%list_elem_of_In. apply H in Hkv as [H1 H2]. cbn. rewrite H2. by rewrite (proj2 (runes_forallb k) H1).
Qed.

Lemma members_ok_obj m : members_ok m -> runes_ok (JObj (members m)) = true.
Proof.
  intros H. apply obj_ok_elem. intros k v. unfold members. rewrite merge_sort_Permutation, elem_of_map_to_list. apply H.
Qed.

Lemma to_map_ok m : runes_ok (JObj m : json F) = true -> members_ok (to_map m).
Proof.
  intros H. unfold to_map. assert (members_ok ∅) as H0 by (intros k v E; by rewrite lookup_empty in E).
  revert H H0. generalize (∅ : gmap text (json F)). induction m as [| [k v] m IH]; intros acc H H0; [done |].
  cbn. cbn in H. apply andb_true_iff in H as [[Hk Hv]%andb_true_iff Hm]. apply IH; [done |].
  intros k' v' [[<- <-] | [_ E]]%lookup_insert_Some; [| by apply H0]. by rewrite runes_forallb in Hk.
Qed.

Lemma insert_ok k v m : Forall rune_ok k -> runes_ok v = true -> members_ok m -> members_ok (<[k := v]> m).
Proof. intros Hk Hv Hm k' v' [[<- <-] | [_ E]]%lookup_insert_Some; [done | by apply Hm]. Qed.

Lemma collapse_ok b s : Forall rune_ok s -> Forall rune_ok (collapse b s).
Proof.
  intros H. revert b. induction H as [| r s Hr _ IH]; intros b; cbn; [constructor |].
  repeat case_match; try constructor; try apply IH; done.
Qed.

Lemma trim_front_ok s : Forall rune_ok s -> Forall rune_ok (trim_front s).
Proof. induction 1 as [| r s Hr Hs IH]; cbn; [constructor |]. case_match; [done | by constructor]. Qed.

Lemma normalizeWhitespace_ok s : Forall rune_ok s -> Forall rune_ok (normalizeWhitespace s).
Proof.
  intros H. apply collapse_ok. unfold TrimSpace. apply Forall_rev, trim_front_ok, Forall_rev, trim_front_ok, H.
Qed.

Lemma txt_ok s : Forall rune_ok (txt s).
Proof. unfold txt. apply Forall_map, Forall_true. intros c. unfold rune_ok. cbn. lia. Qed.

Lemma decode_any_ok v : runes_ok v = true -> runes_ok (decode_any v : json F) = true.
Proof.
  induction v as [| b | n | s | l IH | m IH] using json_nested_ind; try done.
  - cbn. rewrite !forallb_forall. intros H x (y & <- & Hy)%in_map_iff. rewrite Forall_forall in IH.
    apply IH; [by apply list_elem_of_In | by apply H].
  - intros H. apply members_ok_obj, to_map_ok. cbn in *. rewrite forallb_forall in *.
    intros x (y & <- & Hy)%in_map_iff. specialize (H y Hy). apply andb_true_iff in H as [H1 H2].
    rewrite Forall_forall in IH. cbn. rewrite H1. apply IH; [by apply list_elem_of_In | done].
Qed.

Lemma normalize_message_ok m : runes_ok m = true -> runes_ok (normalize_message m : json F) = true.
Proof.
  destruct m as [| | | | | mm]; try done. intros H. cbn [normalize_message]. pose proof (to_map_ok mm H) as Hm.
  destruct (to_map mm !! txt "content") as [v|] eqn:E; [| done]. destruct v; try done.
  apply members_ok_obj, insert_ok; [apply txt_ok | | done].
  destruct (Hm _ _ E) as [_ Hs]. cbn in *. rewrite runes_forallb in *. by apply normalizeWhitespace_ok.
Qed.

Lemma strip_fields_ok m : members_ok m -> members_ok (strip_fields m).
Proof.
  unfold strip_fields. revert m. induction stripped as [| k ks IH]; intros m Hm; cbn; [done |].
  apply IH. intros k' v' [_ E]%lookup_delete_Some. by apply Hm.
Qed.

Lemma normalize_messages_ok m : members_ok m -> members_ok (normalize_messages m).
Proof.
  intros Hm. unfold normalize_messages. destruct (m !! txt "messages") as [w|] eqn:E; [| done].
  destruct w; try done. apply insert_ok; [apply txt_ok | | done]. destruct (Hm _ _ E) as [_ Hw].
  cbn in *. rewrite forallb_forall in *. intros x (y & <- & Hy)%in_map_iff. apply normalize_message_ok. by apply Hw.
Qed.

Lemma normalize_input_ok m : members_ok m -> members_ok (normalize_input m).
Proof.
  intros Hm. unfold normalize_input. destruct (m !! txt "input") as [w|] eqn:E; [| done].
  destruct w; try done. apply insert_ok; [apply txt_ok | | done]. destruct (Hm _ _ E) as [_ Hw].
  cbn in *. rewrite runes_forallb in *. by apply normalizeWhitespace_ok.
Qed.

Lemma normalized_body_ok body v : runes_ok body = true -> normalized_body body = Some v -> runes_ok (v : json F) = true.
Proof.
  intros Hb%decode_any_ok. unfold normalized_body. destruct (decode_any body) as [| | | | | m]; try done; [by intros [= <-] |].
  intros [= <-]. apply members_ok_obj, normalize_input_ok, normalize_messages_ok, strip_fields_ok, to_map_ok, Hb.
Qed.

(** Two bodies that ask for the same thing: equal up to the order of members, the
    stripped fields, the blanks of the prompts and the spelling of numbers with
    one float. *)
Definition same_request (a b : raw) : Prop :=
  canonical <$> (to_any parse_float a ≫= normalized_body) = canonical <$> (to_any parse_float b ≫= normalized_body).

(** Two bodies that ask for different things and have one digest. *)
Definition collide (a b : raw) : Prop :=
  exists s t, canonicalize parse_float format (Some a) = Some s /\ canonicalize parse_float format (Some b) = Some t /\ s <> t /\ digest s = digest t.

Hypothesis digest_hex : forall a, no_colon (digest a) = true.

Lemma key_fields p t a h t' a' h' :
  no_colon h = true -> no_colon h' = true -> cache_key p t a h = cache_key p t' a' h' -> t = t' /\ a = a' /\ h = h'.
Proof.
  intros Hh Hh' E. unfold cache_key in E. apply (inj (String.append p)) in E.
  apply (inj (String.append ":")), (inj (String.append "cache")), (inj (String.append ":")) in E.
  apply first_field_inj in E as [Et E]; [| apply no_byte_pretty_Z..].
  apply last_field_inj in E as [-> ->]; [| done | done]. by apply (inj pretty) in Et as ->.
Qed.

Lemma key_identifies c t a b t' a' b' k :
  runes_ok b = true -> runes_ok b' = true ->
  Key parse_float format digest c t a (Some b) = Some k -> Key parse_float format digest c t' a' (Some b') = Some k ->
  t = t' /\ a = a' /\ (same_request b b' \/ collide b b').
Proof.
  unfold Key, collide, canonicalize, same_request. cbn. intros Hb Hb'.
  destruct (to_any parse_float b) as [x|] eqn:Ex; [| done]. destruct (to_any parse_float b') as [x'|] eqn:Ex'; [| done].
  apply (to_any_runes parse_float b x Ex) in Hb. apply (to_any_runes parse_float b' x' Ex') in Hb'. cbn.
  destruct (normalized_body x) as [v|] eqn:Ev; [| done]. destruct (normalized_body x') as [v'|] eqn:Ev'; [| done].
  pose proof (normalized_body_ok _ _ Hb Ev) as Hv. pose proof (normalized_body_ok _ _ Hb' Ev') as Hv'.
  cbn. intros [= <-] [= Hk]. apply key_fields in Hk as (-> & -> & Hd); [| apply digest_hex..]. split_and!; [done | done |].
  destruct (decide (marshalSorted format v = marshalSorted format v')) as [E | E].
  - left. rewrite !marshalSorted_print in E. apply (canonical_text format) in E as ->; done.
  - right. by exists (marshalSorted format v), (marshalSorted format v').
Qed.

(** The same request has the same key. *)
Lemma same_request_same_key c t a b b' :
  same_request b b' -> Key parse_float format digest c t a (Some b) = Key parse_float format digest c t a (Some b').
Proof.
  unfold same_request, Key, canonicalize. cbn. intros E.
  destruct (to_any parse_float b) as [x|], (to_any parse_float b') as [x'|]; cbn in *;
    repeat match goal with |- context [normalized_body ?y] => destruct (normalized_body y) end; cbn in *; try done.
  injection E as E. by rewrite !marshalSorted_print, E.
Qed.

End Keys.

(** ** Histories *)

(** What happens to the cache: responses are stored under the key of their
    request, at some instant, and keys are deleted. *)
Inductive cache_op (E : Type) :=
| OSet (call : io) (now teamID : Z) (alias : string) (body : raw) (e : E) (ttl : Z)
| ODelete (call : io) (key : string).
Arguments OSet {E} call now teamID alias body e ttl.
Arguments ODelete {E} call key.

Section History.
#[local] Abbreviation entries E := (gmap string (option E * Z)).
Context {F E : Type} (parse_float : string -> option F) (format : F -> text) (digest : text -> string) (c : Cache).

Definition cache_step (op : cache_op E) (db : entries E) : entries E :=
  match op with
  | OSet call now teamID alias body e ttl =>
      match Key parse_float format digest c teamID alias (Some body) with
      | Some key => (Set_ (Some c) call now key e ttl db).1
      | None => db
      end
  | ODelete call key => (Delete (Some c) call key db).1
  end.

Definition cache_run (ops : list (cache_op E)) : entries E := foldl (fun db op => cache_step op db) ∅ ops.

(** Where an entry comes from. *)
Definition stored_by (op : cache_op E) (key : string) (e : option E) (expires : Z) : Prop :=
  match op with
  | OSet _ now teamID alias body e' ttl =>
      Key parse_float format digest c teamID alias (Some body) = Some key /\ e = Some e' /\ 0 < ttl /\ expires = now + ttl
  | ODelete _ _ => False
  end.

Lemma cache_run_origin ops key e expires :
  cache_run ops !! key = Some (e, expires) -> exists op, op ∈ ops /\ stored_by op key e expires.
Proof.
  unfold cache_run. induction ops as [| op ops IH] using rev_ind; [cbn; by rewrite lookup_empty |].
  rewrite foldl_app. cbn [foldl]. set (db := foldl _ ∅ ops) in *.
  assert (db !! key = Some (e, expires) -> exists op', op' ∈ ops ++ [op] /\ stored_by op' key e expires) as Hold.
  { intros (op' & Hin & Hs)%IH. exists op'. split; [by apply elem_of_app; left | done]. }
  destruct op as [call now t a b e' ttl | call k]; cbn [cache_step].
  - destruct (Key parse_float format digest c t a (Some b)) as [k|] eqn:Ek; [| done]. unfold Set_. cbn [orb].
    destruct (Z.leb_spec ttl 0); [done |].
    destruct call; cbn [fst]; [| done |];
      (intros [[<- [= <- <-]] | [_ Hdb]]%lookup_insert_Some; [| by apply Hold]);
      (eexists; split; [apply elem_of_app; right; by apply list_elem_of_singleton | done]).
  - destruct call; cbn; [| done |]; intros [_ Hdb]%lookup_delete_Some; by apply Hold.
Qed.

End History.

(** C29. A cache hit is a response to the same request: after any history of
    stores and deletions, a lookup for a team, an alias and a body returns only an
    entry that was stored, with a positive lifetime that has not passed, for that
    team, that alias and a body that asks for the same (equal up to the order of
    members, the stripped fields, the blanks of the prompts and the spelling of
    numbers with one float64), or for a body whose canonical text is another one
    with the same digest. So, short of a collision, no other team's and no other
    prompt's response is served. The digest has no colons (it is hexadecimal),
    bodies are texts of code points, and floats have texts that tell them apart. *)
Theorem cache_hits_are_own {F E : Type} (parse_float : string -> option F) (format : F -> text) (Hformat : NumberText format)
    (digest : text -> string) (Hhex : forall a, no_colon (digest a) = true)
    (c : Cache) (ops : list (cache_op E))
    (Hbodies : forall call now t a b e ttl, OSet call now t a b e ttl ∈ ops -> runes_ok b = true)
    (now teamID : Z) (alias : string) (body : raw) (key : string) (e : E) (Hbody : runes_ok body = true)
    (Hkey : Key parse_float format digest c teamID alias (Some body) = Some key)
    (Hhit : Get (Some c) IoOk now key (cache_run parse_float format digest c ops) = Ok e) :
  exists call now' body' ttl, OSet call now' teamID alias body' e ttl ∈ ops /\ 0 < ttl /\ now < now' + ttl /\
    (same_request parse_float body' body \/ collide parse_float format digest body' body).
Proof.
  unfold Get in Hhit. destruct (cache_run parse_float format digest c ops !! key) as [[v expires]|] eqn:E0; [| done].
  destruct (Z.ltb_spec now expires); [| done]. destruct v as [e0|]; [| done]. injection Hhit as ->.
  apply cache_run_origin in E0 as (op & Hin & Hs). destruct op as [call now' t a b e' ttl | ? ?]; [| done].
  destruct Hs as (Hk & [= <-] & Hpos & ->).
  destruct (key_identifies parse_float format digest Hhex c _ _ _ _ _ _ _ (Hbodies _ _ _ _ _ _ _ Hin) Hbody Hk Hkey) as (-> & -> & Hsame).
  by exists call, now', b, ttl.
Qed.

(** ** Evaluation *)

(** Integers rounded to doubles, and a digest that spells out its argument. *)
Definition example_float (lit : string) : option Z := double <$> parse_int lit.
Definition example_format (n : Z) : text := txt (pretty n).

Lemma digits_text (x : N) s : Forall num_char (txt s) -> Forall num_char (txt (pretty_N_go x s)).
Proof.
  revert s. induction (N.lt_wf_0 x) as [x _ IH]; intros s Hs. destruct (decide (x = 0)%N) as [-> |]; [by rewrite pretty_N_go_0 |].
  rewrite pretty_N_go_step by lia. apply IH; [apply N.div_lt; lia |].
  change (Forall num_char (Z.of_nat (nat_of_ascii (pretty_N_char (x mod 10))) :: txt s)). constructor; [| done].
  left. unfold pretty_N_char. repeat case_match; cbv; split; discriminate.
Qed.

Lemma digits_nonempty (x : N) s : s <> "" -> pretty_N_go x s <> "".
Proof.
  revert s. induction (N.lt_wf_0 x) as [x _ IH]; intros s Hs. destruct (decide (x = 0)%N) as [-> |]; [by rewrite pretty_N_go_0 |].
  rewrite pretty_N_go_step by lia. apply IH; [apply N.div_lt; lia | done].
Qed.

Lemma txt_injective a b : txt a = txt b -> a = b.
Proof.
  revert b. induction a as [| c a IH]; intros [| d b] E; try done. injection E as Ec E. f_equal; [| by apply IH].
  rewrite <- (ascii_nat_embedding c), <- (ascii_nat_embedding d). f_equal. lia.
Qed.

Lemma example_format_ok : NumberText example_format.
Proof.
  split.
  - intros a b E%txt_injective. by apply (inj pretty) in E.
  - intros [| p | p]; unfold example_format, pretty, pretty_Z, pretty, pretty_positive, pretty, pretty_N; [| destruct decide; [done |].. ].
    + apply Forall_singleton. left. cbv. split; discriminate.
    + apply digits_text. constructor.
    + constructor; [right; right; by left | apply digits_text; constructor].
  - intros a E. change [] with (txt "") in E. apply txt_injective in E. revert E.
    destruct a as [| p | p]; unfold pretty, pretty_Z, pretty, pretty_positive, pretty, pretty_N; [done | destruct decide; [done |].. | done].
    rewrite pretty_N_go_step by lia. by apply digits_nonempty.
Qed.

Definition example_digest (t : text) : string := pretty (Z.pos (encode t)).

Lemma example_digest_inj a b : example_digest a = example_digest b -> a = b.
Proof. unfold example_digest. intros [= E]%(inj pretty). by apply (inj encode) in E. Qed.

Definition example_request (content : string) (rest : list (text * raw)) : raw :=
  JObj (rest ++ [(txt "model", JStr (txt "gpt")); (txt "messages", JArr [JObj [(txt "content", JStr (txt content))]])]).

Definition example_ops : list (cache_op Z) :=
  [OSet IoOk 0 1 "gpt" (example_request "hello   world" [(txt "stream", JBool true)]) 7 100;
   OSet IoOk 5 2 "gpt" (example_request "hello world" []) 8 100].

(** Seeds above 2^53 are rounded before they are hashed: two that differ share a
    key, and a request with the one is answered with the response to the other. *)
Lemma large_seeds_share_a_key :
  let request seed := example_request "hello" [(txt "seed", JNum seed)] in
  let db := cache_run example_float example_format example_digest (mkCache "gatemux")
    [OSet IoOk 0 1 "gpt" (request "9007199254740992") 7 100] in
  match Key example_float example_format example_digest (mkCache "gatemux") 1 "gpt" (Some (request "9007199254740993")) with
  | Some key => Get (Some (mkCache "gatemux")) IoOk 50 key db = Ok 7
  | None => False
  end.
Proof. vm_compute. reflexivity. Qed.

(** The same prompt of the same team, with other blanks and without streaming. *)
Lemma cache_hits_are_own_witness :
  exists call now' body' ttl, OSet call now' 1 "gpt" body' 7 ttl ∈ example_ops /\ 0 < ttl /\ 50 < now' + ttl /\
    same_request example_float body' (example_request " hello world" []).
Proof.
  refine (match cache_hits_are_own example_float example_format example_format_ok example_digest
    (fun a => no_byte_pretty_Z _) (mkCache "gatemux") example_ops _ 50 1 "gpt" (example_request " hello world" []) _ 7
    _ eq_refl _ with
  | ex_intro _ call (ex_intro _ now' (ex_intro _ body' (ex_intro _ ttl (conj H1 (conj H2 (conj H3 H4)))))) =>
      ex_intro _ call (ex_intro _ now' (ex_intro _ body' (ex_intro _ ttl (conj H1 (conj H2 (conj H3 _))))))
  end).
  4: { destruct H4 as [Hs | (s & t & _ & _ & Hne & Hd)]; [exact Hs | exfalso; exact (Hne (example_digest_inj s t Hd))]. }
  - intros call now t a b e ttl Hin.
    repeat (apply elem_of_cons in Hin as [[= -> -> -> -> -> -> ->] | Hin]; [vm_compute; reflexivity |]).
    by apply not_elem_of_nil in Hin.
  - vm_compute. reflexivity.
  - vm_compute. reflexivity.
Defined.
