(* ===== verification/GuardEnvelope.v ===== *)
(** * Protected chat envelopes ([guardrails/guardrails.go])

    [Request] and [Response] rewrite the JSON of a protected chat: they accept
    plain text only, put every message through the filter of [Guardrails] and
    encode the result. A [json.RawMessage] is its value, with the literal of a
    number; a body that is not valid JSON or UTF-8 is [None]. What passes has
    been inspected, except for what a field with a blank in its name carries. *)

From S2P Require Import Prelude Json Guardrails.

Section Envelope.
(** [len(raw)], and the folding of the filter. *)
Context (size : raw -> Z) (fold_eq : rune -> rune -> bool).

(** [strings.Contains] on code points. *)
Fixpoint starts_with (p s : text) : bool :=
  match p, s with
  | [], _ => true
  | a :: p, b :: s => (a =? b) && starts_with p s
  | _ :: _, [] => false
  end.

Fixpoint contains (s sub : text) : bool :=
  starts_with sub s || match s with [] => false | _ :: s => contains s sub end.

(** The test of [object] on one key. *)
Definition allowed_key (allowed key : text) : bool := contains (32 :: allowed ++ [32]) (32 :: key ++ [32]).

Definition object (v : option raw) (allowed : string) : result guard_error (gmap text raw) :=
  match v with
  | None => Err ErrUnsupported
  | Some v =>
      if MaxPayload <? size v then Err ErrUnsupported
      else match v with
           | JObj m =>
               if forallb (fun kv => allowed_key (txt allowed) kv.1) (map_to_list (to_map m))
               then Ok (to_map m) else Err ErrUnsupported
           | _ => Err ErrUnsupported
           end
  end.

Definition request_fields : string :=
  "model messages stream stream_options temperature max_tokens max_completion_tokens top_p stop n presence_penalty frequency_penalty seed user".
Definition response_fields : string := "id object created model choices usage system_fingerprint service_tier".

Definition roles : list text := [txt "system"; txt "developer"; txt "user"; txt "assistant"].

(** [json.Unmarshal] into a string: [null] leaves the empty string. *)
Definition unmarshal_string (v : option raw) : option text :=
  match v with Some (JStr s) => Some s | Some JNull => Some [] | _ => None end.

(** The body of the loop of [Request]. *)
Definition request_message (msg : raw) (f : Filter) : Filter * result guard_error raw :=
  match object (Some msg) "role content" with
  | Err e => (f, Err e)
  | Ok m =>
      match unmarshal_string (m !! txt "role"), m !! txt "content" with
      | Some role, Some (JStr content) =>
          if negb (bool_decide (role ∈ roles)) then (f, Err ErrUnsupported)
          else
            match Text fold_eq (Some content) f with
            | (f, Err e) => (f, Err e)
            | (f, Ok content) => (f, Ok (JObj (members (<[txt "content" := JStr content]> m))))
            end
      | _, _ => (f, Err ErrUnsupported)
      end
  end.

Fixpoint request_messages (msgs : list raw) (f : Filter) : Filter * result guard_error (list raw) :=
  match msgs with
  | [] => (f, Ok [])
  | msg :: msgs =>
      match request_message msg f with
      | (f, Err e) => (f, Err e)
      | (f, Ok out) =>
          match request_messages msgs f with
          | (f, Err e) => (f, Err e)
          | (f, Ok outs) => (f, Ok (out :: outs))
          end
      end
  end.

Definition Request (body : option raw) (f : Filter) : Filter * result guard_error raw :=
  match object body request_fields with
  | Err e => (f, Err e)
  | Ok m =>
      if match m !! txt "n" with Some (JNum n) => negb (n =? "1")%string | Some _ => true | None => false end
      then (f, Err ErrUnsupported)
      else
        match m !! txt "messages" with
        | Some (JArr (msg :: msgs)) =>
            match request_messages (msg :: msgs) f with
            | (f, Err e) => (f, Err e)
            | (f, Ok outs) => (f, Ok (JObj (members (<[txt "messages" := JArr outs]> m))))
            end
        | _ => (f, Err ErrUnsupported)
        end
  end.

(** A field that is absent or [null]. *)
Definition null_field (m : gmap text raw) (k : string) : bool :=
  match m !! txt k with None | Some JNull => true | Some _ => false end.

(** The text of a choice: an absent or [null] content is empty. *)
Definition choice_content (msg : gmap text raw) : option text :=
  match msg !! txt "content" with
  | None | Some JNull => Some []
  | Some (JStr s) => Some s
  | Some _ => None
  end.

Definition finish_reasons : list text := [txt "stop"; txt "length"; txt "content_filter"].

(** Whether the choice is final; [None] for a reason that is not supported. *)
Definition choice_final (streaming : bool) (choice : gmap text raw) : option bool :=
  match choice !! txt "finish_reason" with
  | None | Some JNull => Some (negb streaming)
  | Some (JStr reason) => if bool_decide (reason ∈ finish_reasons) then Some true else None
  | Some _ => None
  end.

(** The checks of one choice, up to the text it carries. *)
Definition choice_parts (streaming : bool) (c : raw) :
    result guard_error (gmap text raw * gmap text raw * text * bool) :=
  choice ← object (Some c) "index message delta finish_reason logprobs";
  _ ← fail_if (match choice !! txt "index" with
               | Some (JNum n) => negb (n =? "0")%string | Some _ => true | None => false end) ErrUnsupported;
  _ ← fail_if (negb (null_field choice "logprobs")) ErrUnsupported;
  _ ← fail_if (bool_decide (is_Some (choice !! txt (if streaming then "message" else "delta")))) ErrUnsupported;
  msg ← object (choice !! txt (if streaming then "delta" else "message")) "role content refusal";
  _ ← fail_if (negb (null_field msg "refusal")) ErrUnsupported;
  match choice_content msg, choice_final streaming choice with
  | Some content, Some final => Ok (choice, msg, content, final)
  | _, _ => Err ErrUnsupported
  end.

Definition response_choice (streaming : bool) (c : raw) (f : Filter) : Filter * result guard_error raw :=
  match choice_parts streaming c with
  | Err e => (f, Err e)
  | Ok (choice, msg, content, final) =>
      match Push fold_eq (Some content) final f with
      | (f, Err e) => (f, Err e)
      | (f, Ok content) =>
          let msg := JObj (members (<[txt "content" := JStr content]> msg)) in
          (f, Ok (JObj (members (<[txt (if streaming then "delta" else "message") := msg]> choice))))
      end
  end.

(** [Response]: at most one choice; an absent list is not an array. *)
Definition Response (body : option raw) (f : Filter) (streaming : bool) : Filter * result guard_error raw :=
  match object body response_fields with
  | Err e => (f, Err e)
  | Ok m =>
      match m !! txt "choices" with
      | Some JNull => (f, Ok (JObj (members (<[txt "choices" := JNull]> m))))
      | Some (JArr []) => (f, Ok (JObj (members (<[txt "choices" := JArr []]> m))))
      | Some (JArr [c]) =>
          match response_choice streaming c f with
          | (f, Err e) => (f, Err e)
          | (f, Ok c) => (f, Ok (JObj (members (<[txt "choices" := JArr [c]]> m))))
          end
      | _ => (f, Err ErrUnsupported)
      end
  end.

(** ** Streams *)

(** The events of a protected stream, one after the other. *)
Fixpoint respond_all (events : list raw) (f : Filter) : option (Filter * list raw) :=
  match events with
  | [] => Some (f, [])
  | e :: events =>
      match Response (Some e) f true with
      | (f, Ok out) => match respond_all events f with Some (f, outs) => Some (f, out :: outs) | None => None end
      | (_, Err _) => None
      end
  end.

(** The one choice of an event, if it has one. *)
Definition event_choice (e : raw) : option (gmap text raw) :=
  match e with
  | JObj m => match to_map m !! txt "choices" with Some (JArr [JObj c]) => Some (to_map c) | _ => None end
  | _ => None
  end.

(** The text a client reads in an event, and whether the event ends the text. *)
Definition delta_content (e : raw) : text :=
  match event_choice e with
  | Some choice =>
      match choice !! txt "delta" with
      | Some (JObj d) => match to_map d !! txt "content" with Some (JStr s) => s | _ => [] end
      | _ => []
      end
  | None => []
  end.

Definition event_final (e : raw) : bool :=
  match event_choice e with
  | Some choice => match choice !! txt "finish_reason" with Some (JStr _) => true | _ => false end
  | None => false
  end.

Definition client_text (events : list raw) : text := mjoin (map delta_content events).

(** ** What passes was inspected *)

Lemma object_Ok v allowed m :
  object v allowed = Ok m -> exists l, v = Some (JObj l) /\ m = to_map l.
Proof.
  unfold object. destruct v as [v|]; [| done]. destruct (MaxPayload <? size v); [done |].
  destruct v as [| | | | | l]; try done. case_match; [| done]. intros [= <-]. eauto.
Qed.

(** The filter between two messages: nothing is held back, and every blocking
    policy of the phase is looked for. *)
Definition guarding (policies : list Policy) (phase : string) (f : Filter) : Prop :=
  fi_pending f = [] /\
  (forall p term, p ∈ policies -> applies phase p = true -> po_Mode p = "block" -> term ∈ po_Terms p -> blocks term f) /\
  ((forall p, p ∈ policies -> po_Mode p <> "redact") -> forall r, r ∈ fi_rules f -> po_Mode (ru_policy r) <> "redact").

Lemma New_guarding policies phase :
  (forall p, p ∈ policies -> Validate p = Ok tt) -> guarding policies phase (New policies phase).
Proof.
  intros Hv. unfold New. destruct (new_rules phase 0 policies) as [rules hold] eqn:En.
  pose proof (new_rules_spec phase policies 0) as [_ Hspec]. pose proof (new_rules_policies phase policies 0) as Hpol.
  rewrite En in Hspec, Hpol. cbn [fst snd] in *. split_and!; [done | |].
  - intros p term Hp Ha Hm Ht. destruct (Hspec p Hp Ha) as [(r & Hr & <-) Hlen].
    split; [by exists r |]. split; [by eapply Validate_terms; [apply Hv |] | by apply Hlen].
  - intros Hm r Hr. apply Hm. by apply Hpol.
Qed.

Lemma looking_start term f : term <> [] -> fi_pending f = [] -> looking fold_eq term [] f.
Proof.
  intros Hne Hp. split; [| exists 0%nat; rewrite Hp; split; [done | cbn; lia]].
  intros [i Hi]. rewrite drop_nil in Hi. by destruct term.
Qed.

Lemma mark_length a b mask : length (mark a b mask) = length mask.
Proof. unfold mark. apply length_imap. Qed.

Lemma pattern_loop_length fuel mode term s pos st result mask :
  pattern_loop fold_eq fuel mode term s pos st = (result, Some mask) -> length mask = length st.2.
Proof.
  revert pos st. induction fuel as [| fuel IH]; intros pos st; cbn [pattern_loop]; [by intros [= _ <-] |].
  destruct (length s <=? pos)%nat; [by intros [= _ <-] |]. destruct (find_index _ _) as [i|]; [| by intros [= _ <-]].
  destruct (mode =? "block")%string; [done |]. intros ->%IH. cbn. destruct (mode =? "redact")%string; [apply mark_length | done].
Qed.

Lemma rules_loop_length rules s mask rules' mask' :
  rules_loop fold_eq rules s mask = (rules', Some mask') -> length mask' = length mask.
Proof.
  revert mask rules'. induction rules as [| r rules IH]; intros mask rules'; cbn [rules_loop]; [by intros [= _ <-] |].
  destruct (rule_loop _ _ _ _ _ _) as [res [m1|]] eqn:Er; [| done].
  destruct (rules_loop fold_eq rules s m1) as [rest out] eqn:El. intros [= <- ->]. rewrite (IH m1 rest El). clear El.
  revert Er. generalize (if (ru_result r =? "not_evaluated")%string then "allow" else ru_result r). revert mask.
  induction (po_Terms (ru_policy r)) as [| t terms IHt]; intros mask res0; cbn [rule_loop]; [by intros [= _ <-] |].
  destruct (pattern_loop _ _ _ _ _ _ _) as [r1 [m2|]] eqn:Ep; [| done]. intros ->%IHt. by apply pattern_loop_length in Ep.
Qed.

(** A final push holds nothing back. *)
Lemma Push_final t f f' out : Push fold_eq (Some t) true f = (f', Ok out) -> fi_pending f' = [].
Proof.
  intros E. apply Push_inv in E as (t' & mask & cut & [= <-] & Hr & Hcut & _ & -> & _).
  apply rules_loop_length in Hr. rewrite length_replicate in Hr. rewrite <- Hr in Hcut.
  assert (cut = length mask) as ->.
  { rewrite Hcut. destruct (length mask) as [| c] eqn:El; [done |]. cbn [hold_redaction]. rewrite El.
    destruct (Nat.ltb_spec (S c) (S c)); [lia | done]. }
  rewrite Hr. apply drop_all.
Qed.

Lemma Push_guarding policies phase t f f' out :
  guarding policies phase f -> Push fold_eq (Some t) true f = (f', Ok out) ->
  guarding policies phase f' /\
  (forall p term, p ∈ policies -> applies phase p = true -> po_Mode p = "block" -> term ∈ po_Terms p ->
     ~ occurs fold_eq term t) /\
  ((forall p, p ∈ policies -> po_Mode p <> "redact") -> out = t).
Proof.
  intros (Hp & Hb & Hm) E. pose proof (Push_final _ _ _ _ E) as Hp'.
  assert (forall p term, p ∈ policies -> applies phase p = true -> po_Mode p = "block" -> term ∈ po_Terms p ->
    blocks term f' /\ ~ occurs fold_eq term t) as Hboth.
  { intros p term Hin Ha Hmode Ht. specialize (Hb p term Hin Ha Hmode Ht). pose proof Hb as [_ [Hne _]].
    destruct (Push_looking _ _ _ _ _ _ _ _ Hb (looking_start term f Hne Hp) E) as (? & ? & _). done. }
  split; [split; [done | split] | split].
  - intros p term Hin Ha Hmode Ht. by apply (Hboth p term).
  - intros Hn. apply (Push_transparent fold_eq t true f f' out (Hm Hn) E).
  - intros p term Hin Ha Hmode Ht. by apply (Hboth p term).
  - intros Hn. destruct (Push_transparent fold_eq t true f f' out (Hm Hn) E) as (Ho & _ & _).
    by rewrite Hp, Hp', app_nil_r in Ho.
Qed.

(** One message of a protected request. *)
Definition inspected (policies : list Policy) (phase : string) (msg out : raw) : Prop :=
  exists mm content content', msg = JObj mm /\ to_map mm !! txt "content" = Some (JStr content) /\
    out = JObj (members (<[txt "content" := JStr content']> (to_map mm))) /\
    (forall p term, p ∈ policies -> applies phase p = true -> po_Mode p = "block" -> term ∈ po_Terms p ->
       ~ occurs fold_eq term content) /\
    ((forall p, p ∈ policies -> po_Mode p <> "redact") -> content' = content).

Lemma request_message_inspected policies phase msg f f' out :
  guarding policies phase f -> request_message msg f = (f', Ok out) ->
  guarding policies phase f' /\ inspected policies phase msg out.
Proof.
  intros Hg. unfold request_message. destruct (object (Some msg) "role content") as [m|] eqn:Eo; [| done].
  apply object_Ok in Eo as (mm & [= ->] & ->).
  destruct (unmarshal_string _) as [role|]; [| done].
  destruct (to_map mm !! txt "content") as [v|] eqn:Ec; [| done]. destruct v as [| | | content | |]; try done.
  destruct (negb _); [done |]. unfold Text. destruct (Push _ _ _ _) as [f1 [content'|]] eqn:E; [| done].
  intros [= <- <-]. destruct (Push_guarding _ _ _ _ _ _ Hg E) as (Hg' & Hno & Hsame). split; [done |].
  by exists mm, content, content'.
Qed.

Lemma request_messages_inspected policies phase msgs f f' outs :
  guarding policies phase f -> request_messages msgs f = (f', Ok outs) -> Forall2 (inspected policies phase) msgs outs.
Proof.
  revert f outs. induction msgs as [| msg msgs IH]; intros f outs Hg; cbn [request_messages]; [by intros [= _ <-] |].
  destruct (request_message msg f) as [f1 [out|]] eqn:E; [| done].
  destruct (request_messages msgs f1) as [f2 [outs1|]] eqn:E1; [| done]. intros [= <- <-].
  apply (request_message_inspected policies phase) in E as [Hg1 Hi]; [| done]. constructor; [done | by eapply IH].
Qed.

End Envelope.

(** A protected request is inspected as a whole: if it is accepted, every
    message is a text without any term of a blocking policy of the phase, and
    what is sent upstream is the request with the content of each message put
    through the filter and nothing else changed; without redaction it is the
    request itself. *)
Theorem protected_request_is_inspected (size : raw -> Z) (fold_eq : rune -> rune -> bool) (policies : list Policy)
    (body out : raw) (f : Filter) (Hv : forall p, p ∈ policies -> Validate p = Ok tt)
    (Hreq : Request size fold_eq (Some body) (New policies "pre") = (f, Ok out)) :
  exists m msgs outs, body = JObj m /\ to_map m !! txt "messages" = Some (JArr msgs) /\ msgs <> [] /\
    out = JObj (members (<[txt "messages" := JArr outs]> (to_map m))) /\
    Forall2 (inspected fold_eq policies "pre") msgs outs.
Proof.
  unfold Request in Hreq. destruct (object size (Some body) request_fields) as [m|] eqn:Eo; [| done].
  apply object_Ok in Eo as (l & [= ->] & ->).
  destruct (match to_map l !! txt "n" with Some (JNum n) => _ | Some _ => true | None => false end); [done |].
  destruct (to_map l !! txt "messages") as [v|] eqn:Em; [| done]. destruct v as [| | | | msgs |]; try done.
  destruct msgs as [| msg msgs]; [done |].
  destruct (request_messages size fold_eq (msg :: msgs) (New policies "pre")) as [f1 [outs|]] eqn:E; [| done].
  injection Hreq as <- <-. exists l, (msg :: msgs), outs. split_and!; [done | done | done | done |].
  eapply request_messages_inspected; [by apply New_guarding | exact E].
Qed.

(** ** Protected streams *)

Section Streams.
Context (size : raw -> Z) (fold_eq : rune -> rune -> bool).

#[local] Abbreviation respond e f := (Response size fold_eq (Some e) f true).

(** What one event of a stream does to the filter and to what the client reads. *)
Lemma Response_stream e f f' out :
  respond e f = (f', Ok out) ->
  (event_choice e = None /\ f' = f /\ delta_content out = [] /\ delta_content e = []) \/
  event_choice e <> None /\
  exists content, Push fold_eq (Some (delta_content e)) (event_final e) f = (f', Ok content) /\ delta_content out = content.
Proof.
  unfold Response. destruct (object size (Some e) response_fields) as [m|] eqn:Eo; [| done].
  apply object_Ok in Eo as (l & [= ->] & ->). unfold delta_content, event_final. cbn [event_choice].
  destruct (to_map l !! txt "choices") as [v|] eqn:Ec; [| done].
  destruct v as [| | | | [| c [| c' cs]] |]; try done.
  { intros [= <- <-]. left. cbn. by rewrite to_map_members, lookup_insert_eq. }
  { intros [= <- <-]. left. cbn. by rewrite to_map_members, lookup_insert_eq. }
  destruct (response_choice size fold_eq true c f) as [f1 [c1|]] eqn:E; [| done]. intros [= <- <-]. right.
  revert E. unfold response_choice. destruct (choice_parts size true c) as [[[[choice msg] content] final]|] eqn:Ep; [| done].
  unfold choice_parts in Ep. apply bind_Ok_inv in Ep as (ch & Hch & Ep). apply object_Ok in Hch as (lc & [= ->] & ->).
  bind_inv. apply object_Ok in Hr2 as (ld & Hdelta & ->).
  destruct (choice_content (to_map ld)) as [content0|] eqn:Econt; [| done].
  destruct (choice_final true (to_map lc)) as [final0|] eqn:Efin; [| done]. injection Ep as <- <- <- <-.
  cbn in Hdelta. rewrite Hdelta.
  assert ((match to_map ld !! txt "content" with Some (JStr s) => s | _ => [] end) = content0) as ->.
  { unfold choice_content in Econt. repeat case_match; congruence. }
  assert ((match to_map lc !! txt "finish_reason" with Some (JStr _) => true | _ => false end) = final0) as ->.
  { unfold choice_final in Efin. cbn in Efin. repeat case_match; congruence. }
  destruct (Push fold_eq (Some content0) final0 f) as [f2 [content1|]] eqn:Epush; [| done]. intros [= <- <-].
  split; [done |]. exists content1. split; [done |]. cbn [event_choice]. by repeat (rewrite to_map_members, lookup_insert_eq; cbn).
Qed.

Lemma respond_all_app es es' f f2 outs :
  respond_all size fold_eq (es ++ es') f = Some (f2, outs) ->
  exists f1 outs1 outs2, respond_all size fold_eq es f = Some (f1, outs1) /\
    respond_all size fold_eq es' f1 = Some (f2, outs2) /\ outs = outs1 ++ outs2.
Proof.
  revert f outs. induction es as [| e es IH]; intros f outs; cbn [respond_all app]; [by eexists _, _, _ |].
  destruct (respond e f) as [f1 [out|]]; [| done].
  destruct (respond_all size fold_eq (es ++ es') f1) as [[f3 outs3]|] eqn:E; [| done]. intros [= <- <-].
  apply IH in E as (f4 & o1 & o2 & -> & H2 & ->). by eexists f4, (out :: o1), o2.
Qed.

Lemma client_text_cons e es : client_text (e :: es) = delta_content e ++ client_text es.
Proof. done. Qed.

(** The events before the one that finishes the text. *)
Lemma respond_all_looking term es seen f f' outs :
  Forall (fun e => event_final e = false) es -> blocks term f -> looking fold_eq term seen f ->
  respond_all size fold_eq es f = Some (f', outs) ->
  blocks term f' /\ looking fold_eq term (seen ++ client_text es) f'.
Proof.
  intros Hes. revert seen f outs. induction Hes as [| e es He _ IH]; intros seen f outs Hb Hl; cbn [respond_all].
  { intros [= <- _]. cbn. by rewrite app_nil_r. }
  destruct (respond e f) as [f1 [out|]] eqn:E; [| done].
  destruct (respond_all size fold_eq es f1) as [[f2 outs2]|] eqn:E2; [| done]. intros [= <- _].
  rewrite client_text_cons, app_assoc.
  destruct (Response_stream _ _ _ _ E) as [(_ & -> & _ & ->) | (_ & content & Hpush & _)].
  - rewrite app_nil_r. by eapply IH.
  - rewrite He in Hpush. destruct (Push_looking _ _ _ _ _ _ _ _ Hb Hl Hpush) as (Hb1 & _ & Hl1). by eapply IH; [| apply Hl1 |].
Qed.

Lemma respond_all_transparent es f f' outs :
  (forall r, r ∈ fi_rules f -> po_Mode (ru_policy r) <> "redact") ->
  respond_all size fold_eq es f = Some (f', outs) ->
  client_text outs ++ fi_pending f' = fi_pending f ++ client_text es /\
  (forall r, r ∈ fi_rules f' -> po_Mode (ru_policy r) <> "redact").
Proof.
  revert f outs. induction es as [| e es IH]; intros f outs Hm; cbn [respond_all].
  { intros [= <- <-]. cbn. by rewrite app_nil_r. }
  destruct (respond e f) as [f1 [out|]] eqn:E; [| done].
  destruct (respond_all size fold_eq es f1) as [[f2 outs2]|] eqn:E2; [| done]. intros [= <- <-].
  rewrite !client_text_cons.
  destruct (Response_stream _ _ _ _ E) as [(_ & -> & -> & ->) | (_ & content & Hpush & ->)].
  - by apply (IH f).
  - destruct (Push_transparent _ _ _ _ _ _ Hm Hpush) as (Ho & _ & Hm1). destruct (IH _ _ Hm1 E2) as [Heq Hm2].
    split; [| done]. by rewrite <- app_assoc, Heq, app_assoc, Ho, <- app_assoc.
Qed.

Lemma respond_all_choiceless es f f' outs :
  Forall (fun e => event_choice e = None) es -> respond_all size fold_eq es f = Some (f', outs) ->
  f' = f /\ client_text outs = [] /\ client_text es = [].
Proof.
  intros Hes. revert f outs. induction Hes as [| e es He _ IH]; intros f outs; cbn [respond_all]; [by intros [= <- <-] |].
  destruct (respond e f) as [f1 [out|]] eqn:E; [| done].
  destruct (respond_all size fold_eq es f1) as [[f2 outs2]|] eqn:E2; [| done]. intros [= <- <-].
  rewrite !client_text_cons.
  destruct (Response_stream _ _ _ _ E) as [(_ & -> & -> & ->) | (Hc & _)]; [by apply (IH f) | done].
Qed.

End Streams.

(** C23. A protected stream that finishes once lets no blocked term through: if
    every event is accepted, exactly one event carries a finish reason and only
    events without a choice come after it, the text of the whole stream has no
    occurrence of a term of a blocking policy, however the events cut it, and
    without redaction the client reads exactly that text. Where a stream goes on
    with text after a finish reason a term can escape
    ([text_after_finish_escapes]). *)
Theorem protected_stream_is_clean (size : raw -> Z) (fold_eq : rune -> rune -> bool) (policies : list Policy)
    (before after : list raw) (last : raw) (outs : list raw) (f : Filter)
    (Hv : forall p, p ∈ policies -> Validate p = Ok tt)
    (Hbefore : Forall (fun e => event_final e = false) before) (Hlast : event_final last = true)
    (Hafter : Forall (fun e => event_choice e = None) after)
    (Hrun : respond_all size fold_eq (before ++ last :: after) (New policies "post") = Some (f, outs)) :
  (forall p term, p ∈ policies -> applies "post" p = true -> po_Mode p = "block" -> term ∈ po_Terms p ->
     ~ occurs fold_eq term (client_text (before ++ last :: after))) /\
  ((forall p, p ∈ policies -> po_Mode p <> "redact") -> client_text outs = client_text (before ++ last :: after)).
Proof.
  destruct (New_guarding policies "post" Hv) as (Hp & Hb & Hm).
  pose proof Hrun as Hall. apply respond_all_app in Hrun as (f1 & o1 & o2 & E1 & E2 & ->). cbn [respond_all] in E2.
  destruct (Response size fold_eq (Some last) f1 true) as [f2 [out|]] eqn:El; [| done].
  destruct (respond_all size fold_eq after f2) as [[f3 o3]|] eqn:E3; [| done]. injection E2 as <- <-.
  apply respond_all_choiceless in E3 as (-> & _ & Ha); [| done].
  destruct (Response_stream _ _ _ _ _ _ El) as [(Hc & _) | (_ & content & Hpush & _)].
  { unfold event_final in Hlast. by rewrite Hc in Hlast. }
  rewrite Hlast in Hpush. split.
  - intros p term Hin Hap Hmode Ht. specialize (Hb p term Hin Hap Hmode Ht). pose proof Hb as [_ [Hne _]].
    destruct (respond_all_looking _ _ _ _ _ _ _ _ Hbefore Hb (looking_start fold_eq _ _ Hne Hp) E1) as [Hb1 Hl1].
    destruct (Push_looking _ _ _ _ _ _ _ _ Hb1 Hl1 Hpush) as (_ & Hno & _).
    unfold client_text in *. rewrite map_app, join_app. cbn. change (mjoin (map delta_content after)) with (client_text after).
    unfold client_text. rewrite Ha, app_nil_r. done.
  - intros Hn. destruct (respond_all_transparent _ _ _ _ _ _ (Hm Hn) Hall) as [Heq _].
    rewrite (Push_final fold_eq _ _ _ _ Hpush), app_nil_r, Hp in Heq. done.
Qed.

(** ** Evaluation *)

Definition no_size (v : raw) : Z := 0.
Definition str_field (k s : string) : text * raw := (txt k, JStr (txt s)).

Definition chat (fields : list (text * raw)) : raw :=
  JObj [str_field "model" "gpt"; (txt "messages", JArr [JObj (str_field "role" "user" :: fields)])].

Definition delta_event (content : string) (finish : raw) : raw :=
  JObj [(txt "choices", JArr [JObj [(txt "delta", JObj [str_field "content" content]); (txt "finish_reason", finish)]])].

Definition blocking (phase : string) : Policy := mkPolicy "secrets" "banned_terms" "block" phase [runes "apollo"].

Lemma protected_request_is_inspected_witness :
  exists m msgs outs, chat [str_field "content" "hello"] = JObj m /\ to_map m !! txt "messages" = Some (JArr msgs) /\
    msgs <> [] /\ chat [str_field "content" "hello"] = JObj m /\
    Forall2 (inspected ascii_fold [blocking "pre"] "pre") msgs outs.
Proof.
  edestruct (protected_request_is_inspected no_size ascii_fold [blocking "pre"] (chat [str_field "content" "hello"]))
    as (m & msgs & outs & H1 & H2 & H3 & _ & H5).
  - intros p ->%list_elem_of_singleton. reflexivity.
  - vm_compute. reflexivity.
  - exists m, msgs, outs. done.
Defined.

Lemma protected_stream_is_clean_witness :
  let stream := [delta_event "project apo" JNull; delta_event "l0" (JStr (txt "stop"))] in
  ~ occurs ascii_fold (runes "apollo") (client_text stream).
Proof.
  edestruct (protected_stream_is_clean no_size ascii_fold [blocking "post"] [delta_event "project apo" JNull] []
    (delta_event "l0" (JStr (txt "stop")))) as [Hclean _].
  - intros p ->%list_elem_of_singleton. reflexivity.
  - repeat constructor.
  - reflexivity.
  - constructor.
  - vm_compute. reflexivity.
  - apply (Hclean (blocking "post")); [by apply list_elem_of_singleton | reflexivity | reflexivity | by apply list_elem_of_singleton].
Defined.

(** ** What the protected profile lets through *)

(** The allowed fields are one string of words, looked up with a blank on both
    sides, so two adjacent words joined by a blank count as a field of their own:
    a message may carry a field the policy never reads. *)
Lemma joined_field_is_not_inspected :
  let message fields := JObj [(txt "messages", JArr [JObj fields]); str_field "model" "gpt"] in
  let smuggled := message [str_field "content" "hello"; str_field "role" "user"; str_field "role content" "project apollo"] in
  let plain := message [str_field "content" "project apollo"; str_field "role" "user"] in
  (Request no_size ascii_fold (Some plain) (New [blocking "pre"] "pre")).2 = Err ErrBlocked /\
  (Request no_size ascii_fold (Some smuggled) (New [blocking "pre"] "pre")).2 = Ok smuggled.
Proof. vm_compute. done. Qed.

(** An event with a finish reason makes the filter give up the text it holds back,
    but it does not end the stream: a term cut by such an event passes. *)
Lemma text_after_finish_escapes :
  let stop := JStr (txt "stop") in
  let stream := [delta_event "project apo" stop; delta_event "llo" stop] in
  (exists f outs, respond_all no_size ascii_fold stream (New [blocking "post"] "post") = Some (f, outs) /\
     client_text outs = txt "project apollo") /\
  respond_all no_size ascii_fold [delta_event "project apo" JNull; delta_event "llo" stop] (New [blocking "post"] "post") = None.
Proof. vm_compute. split; [by eexists _, _ | done]. Qed.
