(* ===== verification/GuardRuntime.v ===== *)
(** * Guardrails around a request ([api/guardrail_runtime.go])

    The policies of a request, the audit of their decisions and the errors a
    client sees. A decision is audited in one transaction before its consequence
    is visible: the request is forwarded, and a stream is completed, only after
    the rows of the phase are committed. Whether the store answers and commits is
    an argument of every operation. Latencies and metrics are not modelled. *)

From S2P Require Import Prelude Json Guardrails GuardEnvelope.

(** ** Errors *)

Inductive cause :=
| CGuardrail (status : Z) (code : string)
| CGuard (e : guard_error)
| COther (msg : string).

Record guardrailError := mkGuardrailError { ge_status : Z; ge_code : string }.

Definition guardrailFailure (err : cause) : guardrailError :=
  match err with
  | CGuardrail status code => mkGuardrailError status code
  | CGuard ErrBlocked => mkGuardrailError 403 "guardrail_blocked"
  | CGuard ErrUnsupported => mkGuardrailError 400 "guardrail_unsupported"
  | _ => mkGuardrailError 503 "guardrail_unavailable"
  end.

(** ** Audit *)

(** A row of [guardrail_decisions]. *)
Record decision := mkDecision {
  gd_request_id : string;
  gd_team_id : Z;
  gd_alias : string;
  gd_name : string;
  gd_phase : string;
  gd_decision : string;
}.

#[export] Instance decision_eq_dec : EqDecision decision.
Proof. solve_decision. Defined.

Record guardrailRun := mkGuardrailRun {
  g_teamID : Z;
  g_alias : string;
  g_requestID : string;
  g_pre : Filter;
  g_post : Filter;
  g_postAudited : bool;
}.

Definition set_post (f : Filter) (g : guardrailRun) : guardrailRun :=
  mkGuardrailRun (g_teamID g) (g_alias g) (g_requestID g) (g_pre g) f (g_postAudited g).
Definition set_pre (f : Filter) (g : guardrailRun) : guardrailRun :=
  mkGuardrailRun (g_teamID g) (g_alias g) (g_requestID g) f (g_post g) (g_postAudited g).
Definition set_audited (g : guardrailRun) : guardrailRun :=
  mkGuardrailRun (g_teamID g) (g_alias g) (g_requestID g) (g_pre g) (g_post g) true.

(** The classification of a cause: never its text. *)
Definition cause_decision (c : cause) : string :=
  match c with CGuard ErrBlocked => "block" | CGuard ErrUnsupported => "unsupported" | _ => "error" end.

Definition audit_results (f : option Filter) (c : option cause) : list (string * string * string) :=
  match f with Some f => Results f | None => [] end ++
  match c with Some c => [("policy", "validation", cause_decision c)] | None => [] end.

Definition audit_rows (g : guardrailRun) (results : list (string * string * string)) : list decision :=
  map (fun '(name, phase, result) => mkDecision (g_requestID g) (g_teamID g) (g_alias g) name phase result) results.

(** [audit]: [commits] says whether the transaction commits. *)
Definition audit (g : guardrailRun) (f : option Filter) (c : option cause) (commits : bool) (table : list decision) :
    list decision * option cause :=
  match audit_results f c with
  | [] => (table, None)
  | results => if commits then (table ++ audit_rows g results, None) else (table, Some (COther "guardrail audit"))
  end.

Definition finish (err : option cause) (commits : bool) (g : guardrailRun) (table : list decision) :
    guardrailRun * list decision * option guardrailError :=
  let verdict := match err with Some e => Some (guardrailFailure e) | None => None end in
  if g_postAudited g then (g, table, verdict)
  else
    let g := set_audited g in
    match audit g (Some (g_post g)) err commits table with
    | (table, Some e) => (g, table, Some (guardrailFailure e))
    | (table, None) => (g, table, verdict)
    end.

(** ** The policies of a request *)

Inductive load_result :=
| LoadNone
| LoadGuarded (g : guardrailRun)
| LoadDenied (e : guardrailError).

(** [loadGuardrails] for a team, with what the store answers. *)
Definition loadGuardrails (teamID : Z) (alias requestID path method : string)
    (policies : result string (list Policy)) (commits : bool) (table : list decision) : list decision * load_result :=
  let run policies := mkGuardrailRun teamID alias requestID (New policies "pre") (New policies "post") false in
  let deny c :=
    let '(table, _) := audit (run []) None (Some c) commits table in (table, LoadDenied (guardrailFailure c)) in
  match policies with
  | Err msg => deny (COther msg)
  | Ok [] => (table, LoadNone)
  | Ok policies =>
      if negb (path =? "/v1/chat/completions")%string || negb (method =? "POST")%string
      then deny (CGuard ErrUnsupported)
      else (table, LoadGuarded (run policies))
  end.

Section Runtime.
Context (size : raw -> Z) (fold_eq : rune -> rune -> bool).

(** [guardrailPre]: the body to forward, or the denial. *)
Definition guardrailPre (g : option guardrailRun) (body : option raw) (commits : bool) (table : list decision) :
    option guardrailRun * list decision * result guardrailError (option raw) :=
  match g with
  | None => (None, table, Ok body)
  | Some g =>
      let '(f, out) := Request size fold_eq body (g_pre g) in
      let err := match out with Err e => Some (CGuard e) | Ok _ => None end in
      let g := set_pre f g in
      let '(table, audited) := audit g (Some f) err commits table in
      match audited, out with
      | Some e, _ => (Some g, table, Err (guardrailFailure e))
      | None, Ok out => (Some g, table, Ok (Some out))
      | None, Err e => (Some g, table, Err (guardrailFailure (CGuard e)))
      end
  end.

(** [response]: an accepted part of a stream is not audited yet, a whole response
    is. *)
Definition response (body : option raw) (streaming commits : bool) (g : guardrailRun) (table : list decision) :
    guardrailRun * list decision * result guardrailError raw :=
  let '(f, out) := Response size fold_eq body (g_post g) streaming in
  let g := set_post f g in
  match out with
  | Err e =>
      let '(g, table, e') := finish (Some (CGuard e)) commits g table in
      (g, table, Err (default (guardrailFailure (CGuard e)) e'))
  | Ok out =>
      if streaming then (g, table, Ok out)
      else match finish None commits g table with
           | (g, table, Some e) => (g, table, Err e)
           | (g, table, None) => (g, table, Ok out)
           end
  end.

End Runtime.

(** ** What the audit guarantees *)

Lemma audit_None g f c commits table table' :
  audit g f c commits table = (table', None) -> table' = table ++ audit_rows g (audit_results f c).
Proof.
  unfold audit. destruct (audit_results f c) as [| r rs]; [by intros [= <-]; rewrite app_nil_r |].
  destruct commits; [by intros [= <-] | done].
Qed.

Lemma audit_rows_ids g g' results :
  g_requestID g = g_requestID g' -> g_teamID g = g_teamID g' -> g_alias g = g_alias g' ->
  audit_rows g results = audit_rows g' results.
Proof. unfold audit_rows. by intros -> -> ->. Qed.

(** Success is reported only after an audit. *)
Lemma finish_success g commits table g' table' :
  finish None commits g table = (g', table', None) -> g_postAudited g = false ->
  table' = table ++ audit_rows g (Results (g_post g)) /\ g' = set_audited g.
Proof.
  unfold finish. intros H Ha. rewrite Ha in H. cbn [set_audited g_post] in H.
  destruct (audit _ _ None commits table) as [t [e|]] eqn:E; [done |]. injection H as <- <-.
  apply audit_None in E as ->. unfold audit_results. by rewrite app_nil_r.
Qed.

(** An audit of the second phase happens at most once. *)
Lemma finish_once err commits g table :
  g_postAudited g = true -> (finish err commits g table).1 = (g, table).
Proof. unfold finish. by intros ->. Qed.

(** Nothing passes a guardrail before its decisions are durable. A guarded
    request is forwarded only as the policies rewrote it, and only when the rows of
    all its decisions are committed; a whole response reaches the client only as
    the policies rewrote it and with its rows committed; and a second audit of the
    response never happens. *)
Theorem guarded_effects_are_audited (size : raw -> Z) (fold_eq : rune -> rune -> bool) (g : guardrailRun)
    (body : option raw) (commits : bool) (table : list decision) :
  (forall g' table' out, guardrailPre size fold_eq (Some g) body commits table = (g', table', Ok out) ->
     exists f o, Request size fold_eq body (g_pre g) = (f, Ok o) /\ out = Some o /\
       table' = table ++ audit_rows g (Results f)) /\
  (g_postAudited g = false -> forall g' table' out,
     response size fold_eq body false commits g table = (g', table', Ok out) ->
     exists f, Response size fold_eq body (g_post g) false = (f, Ok out) /\
       table' = table ++ audit_rows g (Results f) /\
       forall err commits', (finish err commits' g' table').1 = (g', table')).
Proof.
  split.
  - intros g' table' out. unfold guardrailPre. destruct (Request size fold_eq body (g_pre g)) as [f [o|e]].
    + destruct (audit _ _ None commits table) as [t [e|]] eqn:E; [done |]. intros [= <- <- <-].
      exists f, o. split_and!; [done | done |]. apply audit_None in E as ->. unfold audit_results. rewrite app_nil_r. by destruct g.
    + by destruct (audit _ _ _ commits table) as [t [e'|]].
  - intros Ha g' table' out. unfold response. destruct (Response size fold_eq body (g_post g) false) as [f [o|e]].
    + destruct (finish None commits (set_post f g) table) as [[g1 t1] [e|]] eqn:E; [done |]. intros [= <- <- <-].
      apply finish_success in E as [-> ->]; [| by destruct g]. exists f. split_and!; [done | by destruct g |].
      intros err commits'. by apply finish_once.
    + by destruct (finish _ commits _ table) as [[g1 t1] e1].
Qed.
