(* ===== verification/Sse.v ===== *)
(** * Server-sent events ([api/sse.go])

    The reader that cuts an upstream body into events and the encoder that
    writes them to the client. Bytes are lists of [ascii]. The buffered scanner
    of the standard library is modelled with its buffer, the limit on it and a
    schedule that says how many bytes each [Read] returns, so that the theorems
    range over every way the network splits the body. The reader's events do
    not depend on that split, and an event that was encoded is read back as it
    was. *)

From S2P Require Import Prelude.
From Stdlib Require Import Ascii.

(** [list ascii] is the byte string of Go. *)
Abbreviation bytes := (list ascii).
Definition str (s : string) : bytes := String.list_ascii_of_string s.

Definition LF : ascii := "010"%char.
Definition CR : ascii := "013"%char.
(** The byte order mark, U+FEFF in UTF-8. *)
Definition BOM : bytes := [ascii_of_N 239; ascii_of_N 187; ascii_of_N 191].

Definition maxStreamEventBytes : N := 1024 * 1024.

(** The length of a byte string. *)
Definition len (s : bytes) : N := N.of_nat (length s).

(** ** Strings *)

(** [strings.TrimPrefix] on bytes. *)
Fixpoint trim_prefix (p s : bytes) : option bytes :=
  match p, s with
  | [], _ => Some s
  | a :: p, b :: s => if bool_decide (a = b) then trim_prefix p s else None
  | _ :: _, [] => None
  end.

Definition TrimPrefix (s p : bytes) : bytes := default s (trim_prefix p s).

(** [strings.Cut] at one byte; without it the second part is empty. *)
Fixpoint Cut (s : bytes) (sep : ascii) : bytes * bytes :=
  match s with
  | [] => ([], [])
  | c :: s' => if bool_decide (c = sep) then ([], s') else let '(a, b) := Cut s' sep in (c :: a, b)
  end.

(** [strings.SplitSeq] at one byte: the lines, at least one. *)
Fixpoint Split (s : bytes) (sep : ascii) : list bytes :=
  match s with
  | [] => [[]]
  | c :: s' =>
      if bool_decide (c = sep) then [] :: Split s' sep
      else match Split s' sep with l :: ls => (c :: l) :: ls | [] => [[c]] end
  end.

(** ** The split function *)

(** The first line ending: the bytes before it, whether it is a carriage
    return, and the bytes after it. *)
Fixpoint line_end (data : bytes) : option (bytes * bool * bytes) :=
  match data with
  | [] => None
  | c :: data' =>
      if bool_decide (c = LF) then Some ([], false, data')
      else if bool_decide (c = CR) then Some ([], true, data')
      else '(l, cr, rest) ← line_end data'; Some (c :: l, cr, rest)
  end.

(** [splitSSELines]: the new [skipLF], the bytes to advance and the token.  *)
Definition splitSSELines (skipLF : bool) (data : bytes) (atEOF : bool) : bool * nat * option bytes :=
  let '(skip, prefix, data) :=
    match data with
    | c :: data' => if skipLF then if bool_decide (c = LF) then (false, 1%nat, data') else (false, 0%nat, data)
                    else (skipLF, 0%nat, data)
    | [] => (skipLF, 0%nat, data)
    end in
  match line_end data with
  | Some (line, cr, _) => (cr || skip, (prefix + length line + 1)%nat, Some line)
  | None =>
      if atEOF && negb (bool_decide (data = [])) then (skip, (prefix + length data)%nat, Some data)
      else (skip, prefix, None)
  end.

(** ** The scanner

    [sc_pending] is [buf[start:end]], [sc_input] what the body still holds and
    [sc_sizes] how many bytes the next calls of [Read] return (as many as fit
    when the list is used up; a read of no bytes is repeated by the scanner). *)

Inductive source_end := SourceEOF | SourceFailed (err : string).

Inductive scan_error := ScanTooLong | ScanEnded.

Record scanner := mkScanner {
  sc_pending : bytes;
  sc_skipLF : bool;
  sc_input : bytes;
  sc_sizes : list nat;
  sc_err : option scan_error;
}.

(** One call of the split function on the buffer. *)
Definition attempt (pending : bytes) (skipLF atEOF : bool) : bool * bytes * option bytes :=
  let '(skip, advance, token) := splitSSELines skipLF pending atEOF in (skip, drop advance pending, token).

(** The end of [Scan] once [Read] has returned an error. *)
Definition scan_end (pending : bytes) (skip : bool) (sizes : list nat) : scanner * option bytes :=
  let '(skip, pending, token) := attempt pending skip true in
  match token with
  | Some t => (mkScanner pending skip [] sizes (Some ScanEnded), Some t)
  | None => (mkScanner [] skip [] sizes (Some ScanEnded), None)
  end.

(** The loop of [Scan]: split the buffer, and read more when there is no token. *)
Fixpoint scan_loop (max : N) (fuel : nat) (pending : bytes) (skip : bool) (input : bytes) (sizes : list nat) :
    scanner * option bytes :=
  let '(skip, pending, token) := attempt pending skip false in
  match token with
  | Some t => (mkScanner pending skip input sizes None, Some t)
  | None =>
      if (max <=? len pending)%N then (mkScanner pending skip input sizes (Some ScanTooLong), None)
      else
        match input, fuel with
        | [], _ => scan_end pending skip sizes
        | _, O => (mkScanner pending skip input sizes (Some ScanTooLong), None)
        | _, S fuel =>
            let room := (max - len pending)%N in
            let n := N.to_nat (N.max 1 (N.min (N.of_nat (default (length input) (head sizes))) room)) in
            scan_loop max fuel (pending ++ take n input) skip (drop n input) (tail sizes)
        end
  end.

Definition Scan (max : N) (s : scanner) : scanner * option bytes :=
  match sc_err s with
  | None => scan_loop max (length (sc_input s)) (sc_pending s) (sc_skipLF s) (sc_input s) (sc_sizes s)
  | Some _ => let '(s', t) := scan_end (sc_pending s) (sc_skipLF s) (sc_sizes s) in
              (mkScanner (sc_pending s') (sc_skipLF s') (sc_input s) (sc_sizes s') (sc_err s), t)
  end.

(** ** The event reader *)

Record sseEvent := mkSseEvent { ev_fields : bytes; ev_data : bytes; ev_hasData : bool }.

Inductive sse_error :=
| errStreamEventTooLarge
| EOF
| ReadFailed (err : string).

Record sseReader := mkSseReader { rd_scanner : scanner; rd_first : bool }.

Definition newSSEReader (input : bytes) (sizes : list nat) : sseReader :=
  mkSseReader (mkScanner [] false input sizes None) true.

(** What one line adds to the event being read. *)
Definition add_line (line : bytes) (e : sseEvent) : sseEvent :=
  let '(field, value) := Cut line ":" in
  if bool_decide (field = str "data")
  then mkSseEvent (ev_fields e) (ev_data e ++ (if ev_hasData e then [LF] else []) ++ TrimPrefix value [" "%char]) true
  else mkSseEvent (ev_fields e ++ line ++ [LF]) (ev_data e) (ev_hasData e).

(** [r.scanner.Err()] after [Scan] returned false. *)
Definition scan_failure (ending : source_end) (s : scanner) : sse_error :=
  match sc_err s with
  | Some ScanTooLong => errStreamEventTooLarge
  | _ => match ending with SourceEOF => EOF | SourceFailed err => ReadFailed err end
  end.

Section Reader.
Context (max : N) (ending : source_end).

(** The loop of [next]. A token takes at least one byte of the body, so the
    number of bytes left is fuel enough. *)
Fixpoint next_loop (fuel : nat) (size : N) (e : sseEvent) (r : sseReader) : sseReader * result sse_error sseEvent :=
  match fuel with
  | O => (r, Err EOF)
  | S fuel =>
      let '(s, token) := Scan max (rd_scanner r) in
      match token with
      | None => (mkSseReader s (rd_first r), Err (scan_failure ending s))
      | Some text =>
          let line := if rd_first r then TrimPrefix text BOM else text in
          let size := (size + (len line + 1))%N in
          let r := mkSseReader s false in
          if (max <? size)%N then (r, Err errStreamEventTooLarge)
          else if bool_decide (line = []) then (r, Ok e)
          else next_loop fuel size (add_line line e) r
      end
  end.

Definition remaining (r : sseReader) : nat := length (sc_pending (rd_scanner r)) + length (sc_input (rd_scanner r)).

Definition next (r : sseReader) : sseReader * result sse_error sseEvent :=
  next_loop (S (remaining r)) 0 (mkSseEvent [] [] false) r.

(** Reading until the first error. *)
Fixpoint events (fuel : nat) (r : sseReader) : list sseEvent * sse_error :=
  match fuel with
  | O => ([], EOF)
  | S fuel =>
      match next r with
      | (r, Ok e) => let '(es, err) := events fuel r in (e :: es, err)
      | (_, Err err) => ([], err)
      end
  end.

Definition read_all (r : sseReader) : list sseEvent * sse_error := events (S (remaining r)) r.

End Reader.

(** ** The encoder *)

Definition data_line (line : bytes) : bytes := str "data: " ++ line ++ [LF].

Definition encode (e : sseEvent) (data : bytes) : bytes :=
  ev_fields e ++ (if ev_hasData e then concat (map data_line (Split data LF)) else []) ++ [LF].

(** ** The scanner against its input *)

Definition drop_lf (skip : bool) (bs : bytes) : bytes :=
  match bs with c :: bs' => if skip && bool_decide (c = LF) then bs' else bs | [] => [] end.

(** What the scanner does on the bytes that are left, however they arrive. *)
Inductive ref_line := RLine (line rest : bytes) | RTooLong | RDone.

Definition ref_scan (max : N) (inp : bytes) : ref_line :=
  match line_end inp with
  | Some (line, cr, rest) => if (len line <? max)%N then RLine line (drop_lf cr rest) else RTooLong
  | None =>
      if bool_decide (inp = []) then RDone
      else if (len inp <? max)%N then RLine inp [] else RTooLong
  end.

Definition view (s : scanner) : bytes := drop_lf (sc_skipLF s) (sc_pending s ++ sc_input s).

(** The scanner between two calls. *)
Definition scanner_ok (max : N) (s : scanner) : Prop :=
  match sc_err s with
  | None => (len (sc_pending s) <= max)%N
  | Some ScanEnded => sc_pending s = [] /\ sc_input s = []
  | Some ScanTooLong => False
  end.

Lemma line_end_app a b l cr r : line_end a = Some (l, cr, r) -> line_end (a ++ b) = Some (l, cr, r ++ b).
Proof.
  revert l cr r. induction a as [| c a IH]; intros l cr r; cbn [line_end app]; [done |].
  repeat case_bool_decide; [by intros [= <- <- <-].. |].
  destruct (line_end a) as [[[l0 cr0] r0]|]; [| done]. cbn. intros [= <- <- <-].
  by rewrite (IH l0 cr0 r0).
Qed.

Lemma line_end_None_app a b l cr r :
  line_end a = None -> line_end (a ++ b) = Some (l, cr, r) -> (length a <= length l)%nat.
Proof.
  revert l. induction a as [| c a IH]; intros l; cbn [line_end app length]; [lia |].
  repeat case_bool_decide; [done.. |].
  destruct (line_end a) as [[[? ?] ?]|]; [done |]. intros _.
  destruct (line_end (a ++ b)) as [[[l1 cr1] r1]|]; [| done]. cbn. intros [= <- <- <-].
  specialize (IH l1 eq_refl eq_refl). cbn [length]. lia.
Qed.

Lemma line_end_shape bs l cr r :
  line_end bs = Some (l, cr, r) -> bs = l ++ (if cr then CR else LF) :: r.
Proof.
  revert l. induction bs as [| c bs IH]; intros l; cbn [line_end]; [done |].
  repeat case_bool_decide; [by intros [= <- <- <-]; subst.. |].
  destruct (line_end bs) as [[[l1 cr1] r1]|]; [| done]. cbn. intros [= <- <- <-].
  by rewrite (IH l1 eq_refl) at 1.
Qed.

Lemma drop_lf_false bs : drop_lf false bs = bs.
Proof. by destruct bs. Qed.

Lemma drop_lf_app skip a b : a <> [] -> drop_lf skip (a ++ b) = drop_lf skip a ++ b.
Proof. destruct a as [| c a]; [done |]. intros _. cbn. by destruct (skip && _). Qed.

Lemma length_drop_lf skip bs : (length (drop_lf skip bs) <= length bs)%nat.
Proof. destruct bs as [| c bs]; cbn; [lia |]. destruct (skip && _); cbn; lia. Qed.

(** One call of the split function. *)
Lemma attempt_spec pending skip eof :
  attempt pending skip eof =
  match line_end (drop_lf skip pending) with
  | Some (l, cr, rest) => (cr, rest, Some l)
  | None =>
      if eof && negb (bool_decide (drop_lf skip pending = [])) then (false, [], Some (drop_lf skip pending))
      else (skip && bool_decide (pending = []), drop_lf skip pending, None)
  end.
Proof.
  unfold attempt, splitSSELines. destruct pending as [| c p].
  { cbn. rewrite andb_false_r. cbn. by rewrite andb_true_r. }
  assert (forall (b : bool) d n, drop n (c :: p) = d ->
    (let '(sk, adv, tok) :=
       match line_end d with
       | Some (line, cr, _) => (cr || false, (n + length line + 1)%nat, Some line)
       | None => if b && negb (bool_decide (d = [])) then (false, (n + length d)%nat, Some d) else (false, n, None)
       end in (sk, drop adv (c :: p), tok)) =
    match line_end d with
    | Some (l, cr, rest) => (cr, rest, Some l)
    | None => if b && negb (bool_decide (d = [])) then (false, [], Some d) else (false, d, None)
    end) as Hgen.
  { intros b d n Hd. destruct (line_end d) as [[[l cr] rest]|] eqn:E.
    - apply line_end_shape in E. rewrite orb_false_r. f_equal. f_equal.
      rewrite <- Nat.add_assoc, <- drop_drop, Hd, E, <- drop_drop, drop_app_length. done.
    - destruct (b && _); [| by rewrite Hd]. by rewrite <- drop_drop, Hd, drop_all. }
  rewrite (bool_decide_false (c :: p = [])) by done. rewrite andb_false_r. cbn [drop_lf].
  destruct skip; cbn [andb]; [case_bool_decide |]; [apply (Hgen eof p 1%nat) | apply (Hgen eof _ 0%nat) ..]; done.
Qed.

#[local] Ltac len_lia := unfold len in *; rewrite ?length_app in *; cbn [length] in *; lia.

Section Scanner.
Context (max : N).
Hypothesis Hmax : (0 < max)%N.

Lemma scan_end_spec pending skip sizes :
  line_end (drop_lf skip pending) = None -> (len pending < max)%N ->
  match ref_scan max (drop_lf skip pending) with
  | RLine l rest => exists s', scan_end pending skip sizes = (s', Some l) /\ scanner_ok max s' /\ view s' = rest
  | RTooLong => False
  | RDone => exists s', scan_end pending skip sizes = (s', None) /\ sc_err s' = Some ScanEnded
  end.
Proof.
  intros E Hl. unfold ref_scan, scan_end. rewrite attempt_spec, E.
  pose proof (length_drop_lf skip pending). destruct (drop_lf skip pending) as [| c d] eqn:Ed.
  - eexists. by split.
  - rewrite bool_decide_false by done. cbn [length andb negb] in *.
    destruct (N.ltb_spec (len (c :: d)) max); [| len_lia]. eexists. by split_and!.
Qed.

(** A full buffer without a line ending is the start of a line that is too long. *)
Lemma ref_scan_full a b : line_end a = None -> (max <= len a)%N -> ref_scan max (a ++ b) = RTooLong.
Proof.
  intros E Ha. unfold ref_scan. destruct (line_end (a ++ b)) as [[[l cr] r]|] eqn:Eb.
  - pose proof (line_end_None_app _ _ _ _ _ E Eb). by destruct (N.ltb_spec (len l) max); [len_lia |].
  - rewrite bool_decide_false by (intros [-> _]%app_nil; cbn in Ha; len_lia).
    by destruct (N.ltb_spec (len (a ++ b)) max); [len_lia |].
Qed.

(** Skipping the line feed early does not change what is left. *)
Lemma drop_lf_again skip a b :
  drop_lf (skip && bool_decide (a = [])) (drop_lf skip a ++ b) = drop_lf skip (a ++ b).
Proof.
  destruct a as [| c a]; [by rewrite bool_decide_true, andb_true_r by done |].
  rewrite bool_decide_false by done. by rewrite andb_false_r, drop_lf_false, <- drop_lf_app by done.
Qed.

Lemma scan_loop_spec fuel pending skip input sizes :
  (length input <= fuel)%nat -> (len pending <= max)%N ->
  match ref_scan max (drop_lf skip (pending ++ input)) with
  | RLine l rest => exists s', scan_loop max fuel pending skip input sizes = (s', Some l) /\
      scanner_ok max s' /\ view s' = rest
  | RTooLong => exists s', scan_loop max fuel pending skip input sizes = (s', None) /\ sc_err s' = Some ScanTooLong
  | RDone => exists s', scan_loop max fuel pending skip input sizes = (s', None) /\ sc_err s' = Some ScanEnded
  end.
Proof.
  revert pending skip input sizes. induction fuel as [| fuel IH]; intros pending skip input sizes Hf Hp.
  all: cbn [scan_loop]; rewrite attempt_spec.
  all: pose proof (length_drop_lf skip pending) as Hdl.
  all: destruct (line_end (drop_lf skip pending)) as [[[l cr] rest]|] eqn:E.
  1, 3: assert (pending <> []) as Hne by (by intros ->);
    rewrite (drop_lf_app _ _ _ Hne); unfold ref_scan; rewrite (line_end_app _ input _ _ _ E);
    pose proof (line_end_shape _ _ _ _ E) as Es;
    rewrite Es, length_app in Hdl; cbn [length] in Hdl;
    destruct (N.ltb_spec (len l) max); [| len_lia]; eexists; split_and!; [done | cbn; len_lia | done].
  all: cbn [andb]; rewrite <- drop_lf_again.
  all: pose proof (drop_lf_again skip pending []) as Hag; rewrite !app_nil_r in Hag.
  all: set (p1 := drop_lf skip pending) in *; set (s1 := skip && _) in *.
  all: assert (s1 = false \/ p1 = []) as Hs1 by
    (unfold s1, p1; destruct pending; [by right | left; apply andb_false_r]).
  all: destruct (N.leb_spec max (len p1)) as [Hfull | Hroom].
  1, 3: (destruct Hs1 as [-> | Hnil]; [| rewrite Hnil in Hfull; cbn in Hfull; len_lia]);
    rewrite drop_lf_false, ref_scan_full by done; eexists; by split.
  - destruct input; [| cbn in Hf; len_lia]. rewrite app_nil_r.
    pose proof (scan_end_spec p1 s1 sizes ltac:(by rewrite Hag) Hroom) as Hend.
    by destruct (ref_scan max (drop_lf s1 p1)).
  - destruct input as [| c input].
    { rewrite app_nil_r. pose proof (scan_end_spec p1 s1 sizes ltac:(by rewrite Hag) Hroom) as Hend.
      by destruct (ref_scan max (drop_lf s1 p1)). }
    set (n := N.to_nat _). assert (1 <= N.of_nat n <= max - len p1)%N as Hn by len_lia.
    replace (p1 ++ c :: input) with ((p1 ++ take n (c :: input)) ++ drop n (c :: input))
      by (by rewrite <- app_assoc, take_drop).
    apply IH.
    + rewrite length_drop. len_lia.
    + unfold len in *; rewrite length_app, length_take. len_lia.
Qed.

Lemma Scan_spec s : scanner_ok max s ->
  match ref_scan max (view s) with
  | RLine l rest => exists s', Scan max s = (s', Some l) /\ scanner_ok max s' /\ view s' = rest
  | RTooLong => exists s', Scan max s = (s', None) /\ sc_err s' = Some ScanTooLong
  | RDone => exists s', Scan max s = (s', None) /\ sc_err s' = Some ScanEnded
  end.
Proof.
  destruct s as [p sk inp sz err]. unfold scanner_ok, view, Scan. cbn. destruct err as [[|]|]; [done | |].
  - intros [-> ->]. cbn. eexists. by split.
  - intros Hp. by apply scan_loop_spec.
Qed.

End Scanner.

Lemma ref_scan_shorter max inp l rest : ref_scan max inp = RLine l rest -> (length rest < length inp)%nat.
Proof.
  unfold ref_scan. destruct (line_end inp) as [[[l0 cr] r]|] eqn:E.
  - apply line_end_shape in E as ->. case_match; [| done]. intros [= <- <-].
    pose proof (length_drop_lf cr r). rewrite length_app. cbn. len_lia.
  - case_bool_decide; [done |]. case_match; [| done]. intros [= <- <-]. destruct inp; [done | cbn; len_lia].
Qed.

(** ** The reader against its input *)

Section Reference.
Context (max : N) (ending : source_end).

(** [next] on the bytes that are left: the result, and what is left after it. *)
Fixpoint ref_loop (fuel : nat) (size : N) (e : sseEvent) (first : bool) (inp : bytes) : result sse_error (sseEvent * bytes) :=
  match fuel with
  | O => Err EOF
  | S fuel =>
      match ref_scan max inp with
      | RDone => Err (match ending with SourceEOF => EOF | SourceFailed err => ReadFailed err end)
      | RTooLong => Err errStreamEventTooLarge
      | RLine text rest =>
          let line := if first then TrimPrefix text BOM else text in
          let size := (size + (len line + 1))%N in
          if (max <? size)%N then Err errStreamEventTooLarge
          else if bool_decide (line = []) then Ok (e, rest)
          else ref_loop fuel size (add_line line e) false rest
      end
  end.

Definition ref_next (first : bool) (inp : bytes) : result sse_error (sseEvent * bytes) :=
  ref_loop (S (length inp)) 0 (mkSseEvent [] [] false) first inp.

Fixpoint ref_events (fuel : nat) (first : bool) (inp : bytes) : list sseEvent * sse_error :=
  match fuel with
  | O => ([], EOF)
  | S fuel =>
      match ref_next first inp with
      | Ok (e, rest) => let '(es, err) := ref_events fuel false rest in (e :: es, err)
      | Err err => ([], err)
      end
  end.

Definition ref_all (inp : bytes) : list sseEvent * sse_error := ref_events (S (length inp)) true inp.

Lemma ref_loop_fuel f1 f2 size e first inp :
  (length inp < f1)%nat -> (length inp < f2)%nat ->
  ref_loop f1 size e first inp = ref_loop f2 size e first inp.
Proof.
  revert f2 size e first inp. induction f1 as [| f1 IH]; intros [| f2] size e first inp H1 H2; [lia.. |].
  cbn [ref_loop]. destruct (ref_scan max inp) as [text rest | |] eqn:E; [| done..].
  apply ref_scan_shorter in E. case_match; [done |]. case_bool_decide; [done |]. apply IH; lia.
Qed.

Lemma ref_loop_shorter fuel size e first inp e' rest :
  ref_loop fuel size e first inp = Ok (e', rest) -> (length rest < length inp)%nat.
Proof.
  revert size e first inp. induction fuel as [| fuel IH]; intros size e first inp; [done |].
  cbn [ref_loop]. destruct (ref_scan max inp) as [text r | |] eqn:E; [| done..].
  apply ref_scan_shorter in E. case_match; [done |]. case_bool_decide.
  - by intros [= <- <-].
  - intros H1%IH. lia.
Qed.

Lemma ref_events_fuel f1 f2 first inp :
  (length inp < f1)%nat -> (length inp < f2)%nat -> ref_events f1 first inp = ref_events f2 first inp.
Proof.
  revert f2 first inp. induction f1 as [| f1 IH]; intros [| f2] first inp H1 H2; [lia.. |].
  cbn [ref_events]. destruct (ref_next first inp) as [[e rest]|] eqn:E; [| done].
  apply ref_loop_shorter in E. by rewrite (IH f2) by lia.
Qed.

Definition reader_view (r : sseReader) : bytes := view (rd_scanner r).
Definition reader_ok (r : sseReader) : Prop := scanner_ok max (rd_scanner r).

Hypothesis Hmax : (0 < max)%N.

Lemma next_loop_ref fuel size e r :
  reader_ok r -> (length (reader_view r) < fuel)%nat ->
  match ref_loop fuel size e (rd_first r) (reader_view r) with
  | Ok (e', rest) => exists r', next_loop max ending fuel size e r = (r', Ok e') /\ reader_ok r' /\
      reader_view r' = rest /\ rd_first r' = false
  | Err err => (next_loop max ending fuel size e r).2 = Err err
  end.
Proof.
  revert size e r. induction fuel as [| fuel IH]; intros size e [s first] Hok Hf; [lia |].
  cbn [ref_loop next_loop rd_scanner rd_first]. unfold reader_view, reader_ok in *. cbn [rd_scanner] in *.
  pose proof (Scan_spec max Hmax s Hok) as Hs.
  destruct (ref_scan max (view s)) as [text rest | |] eqn:E.
  - destruct Hs as (s' & -> & Hok' & Hv). apply ref_scan_shorter in E. destruct (max <? _)%N; [done |].
    case_bool_decide; [by eexists; split_and! |].
    specialize (IH (size + (len (if first then TrimPrefix text BOM else text) + 1))%N
                  (add_line (if first then TrimPrefix text BOM else text) e)
                  (mkSseReader s' false) Hok'). cbn in IH. rewrite Hv in IH.
    apply IH. lia.
  - destruct Hs as (s' & -> & He). unfold scan_failure. by rewrite He.
  - destruct Hs as (s' & -> & He). unfold scan_failure. by rewrite He.
Qed.

Lemma view_remaining r : (length (reader_view r) <= remaining r)%nat.
Proof.
  unfold reader_view, view, remaining. etrans; [apply length_drop_lf |]. by rewrite length_app.
Qed.

Lemma next_ref r : reader_ok r ->
  match ref_next (rd_first r) (reader_view r) with
  | Ok (e', rest) => exists r', next max ending r = (r', Ok e') /\ reader_ok r' /\
      reader_view r' = rest /\ rd_first r' = false
  | Err err => (next max ending r).2 = Err err
  end.
Proof.
  intros Hok. pose proof (view_remaining r). unfold ref_next, next.
  rewrite (ref_loop_fuel _ (S (remaining r))) by lia. apply next_loop_ref; [done | lia].
Qed.

Lemma events_ref fuel r : reader_ok r -> (length (reader_view r) < fuel)%nat ->
  events max ending fuel r = ref_events fuel (rd_first r) (reader_view r).
Proof.
  revert r. induction fuel as [| fuel IH]; intros r Hok Hf; [lia |]. cbn [events ref_events].
  pose proof (next_ref r Hok) as Hn. destruct (ref_next (rd_first r) (reader_view r)) as [[e rest]|err] eqn:E.
  - destruct Hn as (r' & -> & Hok' & Hv & Hfirst). apply ref_loop_shorter in E.
    rewrite IH, Hv, Hfirst; [done | done | rewrite Hv; lia].
  - by destruct (next max ending r) as [? [?|?]]; cbn in Hn; simplify_eq.
Qed.

Lemma read_all_ref input sizes : read_all max ending (newSSEReader input sizes) = ref_all input.
Proof.
  pose proof (view_remaining (newSSEReader input sizes)) as Hr.
  assert (reader_view (newSSEReader input sizes) = input) as Hv by apply drop_lf_false.
  rewrite Hv in Hr. unfold read_all, ref_all. rewrite events_ref, Hv; [| unfold reader_ok, scanner_ok, len; cbn; lia | rewrite Hv; lia].
  apply ref_events_fuel; lia.
Qed.

End Reference.

Lemma max_pos : (0 < maxStreamEventBytes)%N.
Proof. unfold maxStreamEventBytes. lia. Qed.

(** C30. The events read from an upstream body do not depend on how the network
    splits it: for one body and one way it ends, any two schedules of reads give
    the same events in the same order and the same error at the end, also when an
    event passes the limit, when a line ending is split between two reads or when
    the body stops in the middle of a line. *)
Theorem events_independent_of_chunking (input : bytes) (ending : source_end) (sizes sizes' : list nat) :
  read_all maxStreamEventBytes ending (newSSEReader input sizes) =
  read_all maxStreamEventBytes ending (newSSEReader input sizes').
Proof. by rewrite !read_all_ref by apply max_pos. Qed.

(** ** Events that were read *)

Definition plain (l : bytes) : Prop := (LF ∉ l) /\ (CR ∉ l).
Definition line_text (l : bytes) : bytes := l ++ [LF].

Definition field_line (l : bytes) : Prop := l <> [] /\ plain l /\ (Cut l ":").1 <> str "data".

(** The events [next] returns. *)
Definition event_ok (e : sseEvent) : Prop :=
  (exists fl, ev_fields e = concat (map line_text fl) /\ Forall field_line fl) /\
  (CR ∉ ev_data e) /\ (ev_hasData e = false -> ev_data e = []).

Lemma line_end_plain bs l cr r : line_end bs = Some (l, cr, r) -> plain l.
Proof.
  unfold plain. revert l. induction bs as [| c bs IH]; intros l; cbn [line_end]; [done |].
  repeat case_bool_decide; [intros [= <- <- <-]; split; apply not_elem_of_nil.. |].
  destruct (line_end bs) as [[[l1 cr1] r1]|]; [| done]. cbn. intros [= <- <- <-].
  destruct (IH l1 eq_refl). split; apply not_elem_of_cons; split; congruence.
Qed.

Lemma line_end_None_plain bs : line_end bs = None -> plain bs.
Proof.
  unfold plain. induction bs as [| c bs IH]; cbn [line_end]; [split; apply not_elem_of_nil |].
  repeat case_bool_decide; [done.. |]. destruct (line_end bs) as [[[? ?] ?]|]; [done |].
  destruct (IH eq_refl). intros _. split; apply not_elem_of_cons; split; congruence.
Qed.

Lemma line_end_plain_app l rest : plain l -> line_end (l ++ LF :: rest) = Some (l, false, rest).
Proof.
  unfold plain. induction l as [| c l IH]; cbn [line_end app]; [by rewrite bool_decide_true |].
  rewrite !not_elem_of_cons. intros [[? ?] [? ?]]. rewrite !bool_decide_false by congruence.
  by rewrite IH.
Qed.

Lemma ref_scan_plain max inp l rest : ref_scan max inp = RLine l rest -> plain l.
Proof.
  unfold ref_scan. destruct (line_end inp) as [[[l0 cr] r]|] eqn:E.
  - apply line_end_plain in E. case_match; [| done]. by intros [= <- <-].
  - apply line_end_None_plain in E. case_bool_decide; [done |]. case_match; [| done]. by intros [= <- <-].
Qed.

Lemma trim_prefix_suffix p s r : trim_prefix p s = Some r -> s = p ++ r.
Proof.
  revert s. induction p as [| a p IH]; intros [| b s]; cbn; [naive_solver.. |].
  case_bool_decide as Hab; [| done]. intros ->%IH. by rewrite Hab.
Qed.

Lemma trim_prefix_app p s r : trim_prefix p s = Some r -> forall t, trim_prefix p (s ++ t) = Some (r ++ t).
Proof.
  revert s. induction p as [| a p IH]; intros [| b s]; cbn; [naive_solver.. |].
  case_bool_decide; [| done]. eauto.
Qed.

Lemma TrimPrefix_incl c s p : c ∈ TrimPrefix s p -> c ∈ s.
Proof.
  unfold TrimPrefix. destruct (trim_prefix p s) as [r|] eqn:E; cbn; [| done].
  apply trim_prefix_suffix in E as ->. rewrite elem_of_app. auto.
Qed.

Lemma Cut_incl c s sep : c ∈ (Cut s sep).2 -> c ∈ s.
Proof.
  induction s as [| b s IH]; cbn; [done |]. case_bool_decide; cbn.
  - rewrite elem_of_cons. auto.
  - destruct (Cut s sep) as [a d]. cbn in *. rewrite elem_of_cons. auto.
Qed.

Lemma add_line_ok l e : l <> [] -> plain l -> event_ok e -> event_ok (add_line l e).
Proof.
  intros Hne [HL HC] ((fl & Hf & Hfl) & Hcr & Hno). unfold add_line.
  pose proof (Cut_incl CR l ":") as Hv. destruct (Cut l ":") as [f v] eqn:Ecut. cbn in Hv. case_bool_decide as Hd.
  - split_and!; cbn [ev_fields ev_data ev_hasData]; [by exists fl | | done]. rewrite !elem_of_app. intros [? | [Hin | Hin]]; [done | |].
    + destruct (ev_hasData e); [by apply list_elem_of_singleton in Hin | by apply not_elem_of_nil in Hin].
    + apply TrimPrefix_incl in Hin. auto.
  - split_and!; cbn; [| done | done]. exists (fl ++ [l]). rewrite map_app, concat_app, <- Hf. cbn.
    rewrite app_nil_r. split; [done |]. apply Forall_app. split; [done |]. apply Forall_singleton.
    unfold field_line, plain. by rewrite Ecut.
Qed.

Lemma ref_loop_ok max ending fuel size e first inp e' rest :
  event_ok e -> ref_loop max ending fuel size e first inp = Ok (e', rest) -> event_ok e'.
Proof.
  revert size e first inp. induction fuel as [| fuel IH]; intros size e first inp He; [done |].
  cbn [ref_loop]. destruct (ref_scan max inp) as [text r | |] eqn:E; [| done..].
  apply ref_scan_plain in E. set (line := if first then _ else _).
  assert (plain line) as Hp.
  { unfold line. destruct first; [| done]. destruct E. split; intros Hin%TrimPrefix_incl; done. }
  destruct (max <? _)%N; [done |]. case_bool_decide; [by intros [= <- <-] |].
  apply IH. by apply add_line_ok.
Qed.

Lemma ref_events_ok max ending fuel first inp : Forall event_ok (ref_events max ending fuel first inp).1.
Proof.
  revert first inp. induction fuel as [| fuel IH]; intros first inp; [constructor |]. cbn [ref_events].
  destruct (ref_next max ending first inp) as [[e rest]|] eqn:E; [| constructor].
  apply ref_loop_ok in E; [| by split_and!; [exists [] | apply not_elem_of_nil |]].
  specialize (IH false rest). destruct (ref_events max ending fuel false rest). by constructor.
Qed.

(** ** Reading back what was encoded *)

(** The lines of an encoded event, before the empty one that ends it. *)
Definition event_lines (fl : list bytes) (e : sseEvent) : list bytes :=
  fl ++ (if ev_hasData e then map (app (str "data: ")) (Split (ev_data e) LF) else []).

Definition join_lines (ls : list bytes) : bytes :=
  match ls with [] => [] | l :: ls => l ++ concat (map (cons LF) ls) end.

Lemma Split_cons s sep : exists l ls, Split s sep = l :: ls.
Proof.
  destruct s as [| c s]; cbn [Split]; [by eexists _, _ |].
  case_bool_decide; [by eexists _, _ |]. destruct (Split s sep); by eexists _, _.
Qed.

Lemma join_Split s : join_lines (Split s LF) = s.
Proof.
  induction s as [| c s IH]; [done |]. cbn [Split].
  destruct (Split_cons s LF) as (l & ls & E). rewrite E in *. case_bool_decide as Hc.
  - rewrite Hc, <- IH. done.
  - cbn in *. by rewrite IH.
Qed.

Lemma Split_plain s : CR ∉ s -> Forall plain (Split s LF).
Proof.
  induction s as [| c s IH]; cbn [Split].
  { intros _. apply Forall_singleton. split; apply not_elem_of_nil. }
  rewrite not_elem_of_cons. intros [Hc Hs]. specialize (IH Hs). case_bool_decide.
  - constructor; [split; apply not_elem_of_nil | done].
  - destruct IH as [| l ls [? ?] Hls].
    + apply Forall_singleton. split; apply not_elem_of_cons; split; congruence || apply not_elem_of_nil.
    + constructor; [| done]. split; apply not_elem_of_cons; split; congruence.
Qed.

Lemma add_field_line l e : field_line l -> add_line l e = mkSseEvent (ev_fields e ++ line_text l) (ev_data e) (ev_hasData e).
Proof.
  intros (_ & _ & Hd). unfold add_line. destruct (Cut l ":") as [f v]. cbn in Hd. by rewrite bool_decide_false.
Qed.

Lemma add_data_line l F d b :
  add_line (str "data: " ++ l) (mkSseEvent F d b) = mkSseEvent F (d ++ (if b then [LF] else []) ++ l) true.
Proof. unfold add_line. cbn -[LF]. done. Qed.

Lemma fold_fields fl F d b : Forall field_line fl ->
  foldl (fun e l => add_line l e) (mkSseEvent F d b) fl = mkSseEvent (F ++ concat (map line_text fl)) d b.
Proof.
  intros Hfl. revert F. induction Hfl as [| l fl Hl _ IH]; intros F; cbn; [by rewrite app_nil_r |].
  rewrite add_field_line by done. cbn. by rewrite IH, <- app_assoc.
Qed.

Lemma fold_data ls F d :
  foldl (fun e l => add_line l e) (mkSseEvent F d true) (map (app (str "data: ")) ls) =
  mkSseEvent F (d ++ concat (map (cons LF) ls)) true.
Proof.
  revert d. induction ls as [| l ls IH]; intros d; [cbn; by rewrite app_nil_r |].
  cbn [map foldl]. rewrite add_data_line, IH. f_equal. by rewrite <- app_assoc.
Qed.

Lemma fold_event fl e :
  ev_fields e = concat (map line_text fl) -> Forall field_line fl -> (ev_hasData e = false -> ev_data e = []) ->
  foldl (fun e l => add_line l e) (mkSseEvent [] [] false) (event_lines fl e) = e.
Proof.
  intros Hf Hfl Hno. unfold event_lines. rewrite foldl_app, fold_fields by done. cbn [app]. rewrite <- Hf.
  destruct e as [F d [|]]; cbn [ev_hasData ev_data ev_fields] in *; [| by rewrite Hno].
  pose proof (join_Split d) as Hj. destruct (Split_cons d LF) as (l & ls & E). rewrite E in *. cbn [map foldl].
  rewrite add_data_line, fold_data. cbn [app]. by rewrite <- Hj.
Qed.

Lemma encode_lines fl e :
  ev_fields e = concat (map line_text fl) ->
  encode e (ev_data e) = concat (map line_text (event_lines fl e)) ++ [LF].
Proof.
  intros Hf. unfold encode, event_lines. rewrite map_app, concat_app, <- app_assoc, Hf. f_equal. f_equal.
  destruct (ev_hasData e); [| done]. by rewrite map_map.
Qed.

Lemma event_lines_plain fl e :
  Forall field_line fl -> CR ∉ ev_data e -> Forall (fun l => l <> [] /\ plain l) (event_lines fl e).
Proof.
  intros Hfl Hcr. apply Forall_app. split.
  - eapply Forall_impl; [exact Hfl |]. intros l (? & ? & _). done.
  - destruct (ev_hasData e); [| constructor]. apply Forall_map. eapply Forall_impl; [by apply Split_plain |].
    intros l [? ?]. cbn. split; [done |]. split; rewrite !not_elem_of_cons; by split_and!.
Qed.

Section ReadBack.
Context (max : N) (ending : source_end).

(** Reading whole lines. *)
Lemma ref_loop_lines ls fuel size e first rest :
  Forall (fun l => l <> [] /\ plain l) ls ->
  (size + len (concat (map line_text ls)) <= max)%N ->
  (first = true -> trim_prefix BOM (concat (map line_text ls) ++ rest) = None) ->
  ref_loop max ending (length ls + fuel) size e first (concat (map line_text ls) ++ rest) =
  ref_loop max ending fuel (size + len (concat (map line_text ls))) (foldl (fun e l => add_line l e) e ls)
    (first && bool_decide (ls = [])) rest.
Proof.
  intros Hls. revert size e first. induction Hls as [| l ls [Hne Hp] _ IH]; intros size e first Hsz Hbom.
  { cbn. by rewrite andb_true_r, N.add_0_r. }
  cbn [length Nat.add ref_loop map concat foldl] in *. unfold line_text at 1 3. unfold line_text at 1 in Hsz. unfold line_text at 1 in Hbom.
  rewrite <- !app_assoc in *. cbn [app] in *.
  unfold ref_scan. rewrite line_end_plain_app by done.
  destruct (N.ltb_spec (len l) max); [| len_lia]. rewrite drop_lf_false.
  assert ((if first then TrimPrefix l BOM else l) = l) as ->.
  { destruct first; [| done]. unfold TrimPrefix. destruct (trim_prefix BOM l) as [r|] eqn:E; [| done].
    specialize (Hbom eq_refl). by rewrite (trim_prefix_app _ _ _ E) in Hbom. }
  destruct (N.ltb_spec max (size + (len l + 1))); [len_lia |].
  rewrite bool_decide_false by done. rewrite IH; [| len_lia | done].
  rewrite (bool_decide_false (l :: ls = [])) by done. rewrite andb_false_r. f_equal. len_lia.
Qed.

Lemma ref_next_encode e first rest :
  event_ok e -> (len (encode e (ev_data e)) <= max)%N ->
  (first = true -> trim_prefix BOM (encode e (ev_data e) ++ rest) = None) ->
  ref_next max ending first (encode e (ev_data e) ++ rest) = Ok (e, rest).
Proof.
  intros ((fl & Hf & Hfl) & Hcr & Hno) Hsz Hbom. pose proof (event_lines_plain fl e Hfl Hcr) as Hls.
  rewrite (encode_lines fl e Hf) in *.
  rewrite <- app_assoc in *. unfold ref_next.
  rewrite (ref_loop_fuel max ending _ (length (event_lines fl e) + S (length (concat (map line_text (event_lines fl e))) + S (length rest)))).
  - rewrite ref_loop_lines by (done || len_lia). rewrite fold_event by done. cbn [ref_loop app].
    unfold ref_scan. cbn [line_end]. rewrite bool_decide_true by done. cbn [length].
    destruct (N.ltb_spec (len []) max); [| len_lia]. rewrite drop_lf_false.
    assert ((if first && bool_decide (event_lines fl e = []) then TrimPrefix [] BOM else []) = []) as -> by (by case_match).
    cbn [length]. destruct (N.ltb_spec max (0 + len (concat (map line_text (event_lines fl e))) + (len [] + 1))); [len_lia |].
    by rewrite bool_decide_true.
  - len_lia.
  - rewrite length_app. cbn [length app]. len_lia.
Qed.

End ReadBack.

(** The text of a list of events. *)
Definition encode_all (es : list sseEvent) : bytes := concat (map (fun e => encode e (ev_data e)) es).

Lemma ref_events_encode max es fuel first :
  Forall event_ok es -> Forall (fun e => (len (encode e (ev_data e)) <= max)%N) es ->
  (first = true -> trim_prefix BOM (encode_all es) = None) -> (length (encode_all es) < fuel)%nat ->
  ref_events max SourceEOF fuel first (encode_all es) = (es, EOF).
Proof.
  intros Hok. revert fuel first.
  induction Hok as [| e es He Hes IH]; intros [| fuel] first Hsz Hbom Hf; [len_lia | done | len_lia |].
  apply Forall_cons in Hsz as [Hse Hsz]. unfold encode_all in *. cbn [map concat ref_events] in *.
  rewrite length_app in Hf.
  assert (0 < length (encode e (ev_data e)))%nat by (unfold encode; rewrite !length_app; cbn; len_lia).
  rewrite (ref_next_encode max SourceEOF e first _ He Hse Hbom), IH; [done | done | done | len_lia].
Qed.

(** What the proxy writes is what it read: the events read from any
    upstream body, split in any way, written one after the other, are read back as
    the same events and then the end of the stream. The text that is written has
    no byte order mark and its events stay below the limit. *)
Theorem encoding_preserves_events (input : bytes) (ending : source_end) (sizes sizes' : list nat)
    (es : list sseEvent) (err : sse_error)
    (Hread : read_all maxStreamEventBytes ending (newSSEReader input sizes) = (es, err))
    (Hsize : Forall (fun e => (len (encode e (ev_data e)) <= maxStreamEventBytes)%N) es)
    (Hbom : trim_prefix BOM (encode_all es) = None) :
  read_all maxStreamEventBytes SourceEOF (newSSEReader (encode_all es) sizes') = (es, EOF).
Proof.
  rewrite read_all_ref in * by apply max_pos. unfold ref_all in *.
  pose proof (ref_events_ok maxStreamEventBytes ending (S (length input)) true input) as Hok.
  rewrite Hread in Hok. apply ref_events_encode; [done | done | done | len_lia].
Qed.

Definition example_body : bytes :=
  str "event: delta" ++ [CR; LF] ++ str "data:{}" ++ [LF] ++ str "data: x" ++ [CR; CR] ++ str "data: [DONE]" ++ [LF; LF].

Lemma encoding_preserves_events_witness :
  read_all maxStreamEventBytes SourceEOF
    (newSSEReader (encode_all (read_all maxStreamEventBytes SourceEOF (newSSEReader example_body [7; 7]%nat)).1) [3%nat]) =
  ([mkSseEvent (str "event: delta" ++ [LF]) (str "{}" ++ LF :: str "x") true; mkSseEvent [] (str "[DONE]") true], EOF).
Proof.
  refine (encoding_preserves_events example_body SourceEOF [7; 7]%nat [3%nat] _ EOF _ _ _).
  - vm_compute. reflexivity.
  - repeat (apply Forall_cons; split); [vm_compute; discriminate.. | constructor].
  - vm_compute. reflexivity.
Defined.
