(* ===== verification/StreamLife.v ===== *)
(** * The lifetime of an upstream stream ([api/stream_lifetime.go])

    One upstream attempt has one timer: a deadline for the first event, then an
    idle deadline that every event with data moves, and that is suspended while
    the client is being written to. The operations hold the stream's mutex, so
    each is one step; the instants a step reads from the clock are arguments.
    The deadlines implement a stopwatch that runs only while the gateway waits
    for the upstream. *)

From S2P Require Import Prelude Sse Streaming.

(** ** The stream *)

Inductive stream_error :=
| errStreamFirstEventTimeout
| errStreamIdleTimeout
| Canceled
| ParentDone (cause : string)
| ErrUnexpectedEOF
| StreamRead (e : sse_error).

(** [cs_ctx] is [context.Cause(s.ctx)] and [cs_timer] the instant the timer
    fires, when it is armed. *)
Record chatStream := mkChatStream {
  cs_ctx : option stream_error;
  cs_config : StreamingConfig;
  cs_first : option sseEvent;
  cs_allowEOF : bool;
  cs_progress : option (sseEvent -> bool);
  cs_timer : option Z;
  cs_deadline : Z;
  cs_cause : stream_error;
  cs_closed : bool;
  cs_paused : bool;
  cs_remaining : Z;
}.

Definition newChatStream (parent : option stream_error) (cfg : StreamingConfig) (allowEOF : bool) (now armed : Z) :
    chatStream :=
  let cfg := WithDefaults cfg in
  mkChatStream parent cfg None allowEOF None (Some (armed + FirstEventTimeout cfg)) (now + FirstEventTimeout cfg)
    errStreamFirstEventTimeout false false 0.

Definition set_ctx (c : option stream_error) (s : chatStream) : chatStream :=
  mkChatStream c (cs_config s) (cs_first s) (cs_allowEOF s) (cs_progress s) (cs_timer s) (cs_deadline s) (cs_cause s) (cs_closed s)
    (cs_paused s) (cs_remaining s).
Definition set_timer (t : option Z) (s : chatStream) : chatStream :=
  mkChatStream (cs_ctx s) (cs_config s) (cs_first s) (cs_allowEOF s) (cs_progress s) t (cs_deadline s) (cs_cause s) (cs_closed s)
    (cs_paused s) (cs_remaining s).
Definition set_deadline (d : Z) (c : stream_error) (s : chatStream) : chatStream :=
  mkChatStream (cs_ctx s) (cs_config s) (cs_first s) (cs_allowEOF s) (cs_progress s) (cs_timer s) d c (cs_closed s)
    (cs_paused s) (cs_remaining s).
Definition set_paused (p : bool) (r : Z) (s : chatStream) : chatStream :=
  mkChatStream (cs_ctx s) (cs_config s) (cs_first s) (cs_allowEOF s) (cs_progress s) (cs_timer s) (cs_deadline s) (cs_cause s)
    (cs_closed s) p r.
Definition set_closed (s : chatStream) : chatStream :=
  mkChatStream (cs_ctx s) (cs_config s) (cs_first s) (cs_allowEOF s) (cs_progress s) (cs_timer s) (cs_deadline s) (cs_cause s) true
    (cs_paused s) (cs_remaining s).
Definition set_first (e : option sseEvent) (s : chatStream) : chatStream :=
  mkChatStream (cs_ctx s) (cs_config s) e (cs_allowEOF s) (cs_progress s) (cs_timer s) (cs_deadline s) (cs_cause s) (cs_closed s)
    (cs_paused s) (cs_remaining s).

(** What [forwardProxy] sets for the protocol of the answer. *)
Definition set_protocol (allowEOF : bool) (progress : option (sseEvent -> bool)) (s : chatStream) : chatStream :=
  mkChatStream (cs_ctx s) (cs_config s) (cs_first s) allowEOF progress (cs_timer s) (cs_deadline s) (cs_cause s) (cs_closed s)
    (cs_paused s) (cs_remaining s).

(** [s.cancel(cause)]: the first cause stays. *)
Definition cancel (c : stream_error) (s : chatStream) : chatStream :=
  match cs_ctx s with None => set_ctx (Some c) s | Some _ => s end.

(** The timer's callback, at [now]; a reset counts from [armed]. *)
Definition expire (now armed : Z) (s : chatStream) : chatStream :=
  let s := set_timer None s in
  if cs_closed s || cs_paused s || bool_decide (is_Some (cs_ctx s)) then s
  else
    let remaining := Sub (cs_deadline s) now in
    if 0 <? remaining then set_timer (Some (armed + remaining)) s else cancel (cs_cause s) s.

Definition pauseIdle (now : Z) (s : chatStream) : chatStream * option stream_error :=
  if cs_paused s then (s, cs_ctx s)
  else
    let remaining := Sub (cs_deadline s) now in
    let s := set_paused true remaining s in
    let s := if remaining <=? 0 then cancel (cs_cause s) s else s in
    let s := set_timer None s in
    (s, cs_ctx s).

Definition resumeIdle (now armed : Z) (s : chatStream) : chatStream :=
  let s := set_paused false (cs_remaining s) s in
  if negb (cs_closed s) && bool_decide (cs_ctx s = None)
  then set_timer (Some (armed + cs_remaining s)) (set_deadline (now + cs_remaining s) (cs_cause s) s)
  else s.

Definition Close (s : chatStream) : chatStream := cancel Canceled (set_timer None (set_closed s)).

Definition meaningful (s : chatStream) (e : sseEvent) : bool :=
  match cs_progress s with Some progress => progress e | None => ev_hasData e && negb (bool_decide (ev_data e = [])) end.

(** The progress of a stream: a new idle window. *)
Definition progressed (now armed : Z) (s : chatStream) : chatStream :=
  set_timer (Some (armed + IdleTimeout (cs_config s)))
    (set_deadline (now + IdleTimeout (cs_config s)) errStreamIdleTimeout s).

(** [readEvent] after [s.reader.next()] has returned: [t0] is the instant of the
    deadline check, [t1] and [t2] those of the new window. *)
Definition readEvent (t0 t1 t2 : Z) (read : result sse_error sseEvent) (s : chatStream) :
    chatStream * result stream_error sseEvent :=
  match cs_ctx s with
  | Some c => (s, Err c)
  | None =>
      if negb (t0 <? cs_deadline s) then (cancel (cs_cause s) s, Err (cs_cause s))
      else
        match read with
        | Err EOF => (s, Err (if cs_allowEOF s then StreamRead EOF else ErrUnexpectedEOF))
        | Err e => (s, Err (StreamRead e))
        | Ok e => (if meaningful s e then progressed t1 t2 s else s, Ok e)
        end
  end.

(** [readBytes] after [s.body.Read] has returned [n] bytes. *)
Definition readBytes (t0 t1 t2 n : Z) (err : option stream_error) (s : chatStream) :
    chatStream * (Z * option stream_error) :=
  match cs_ctx s with
  | Some c => (s, (0, Some c))
  | None =>
      if negb (t0 <? cs_deadline s) then (cancel (cs_cause s) s, (0, Some (cs_cause s)))
      else (if 0 <? n then progressed t1 t2 s else s, (n, err))
  end.

(** What one read of the body brings and when. *)
Record arrival := mkArrival { ar_t0 : Z; ar_t1 : Z; ar_t2 : Z; ar_read : result sse_error sseEvent }.

(** The loop of [prefetch] over the reads; [None] while the next one is awaited. *)
Fixpoint prefetch (reads : list arrival) (s : chatStream) : chatStream * option (result stream_error unit) :=
  match reads with
  | [] => (s, None)
  | a :: reads =>
      match readEvent (ar_t0 a) (ar_t1 a) (ar_t2 a) (ar_read a) s with
      | (s, Err e) => (s, Some (Err e))
      | (s, Ok e) => if meaningful s e then (set_first (Some e) s, Some (Ok tt)) else prefetch reads s
      end
  end.

(** [chatStream.next]: the event that was prefetched, or a read of the body. *)
Definition next_event (a : arrival) (s : chatStream) : chatStream * result stream_error sseEvent :=
  match cs_first s with
  | Some e =>
      let s := set_first None s in
      (s, match cs_ctx s with Some c => Err c | None => Ok e end)
  | None => readEvent (ar_t0 a) (ar_t1 a) (ar_t2 a) (ar_read a) s
  end.

(** ** The stopwatch

    What the settings promise: a budget of waiting time, which runs until it is
    paused for a write to the client, stands still while it is paused, and starts
    again with every event that carries data and is read while it runs. *)

Record stopwatch := mkStopwatch { sw_left : Z; sw_since : option Z }.

Definition left_at (now : Z) (w : stopwatch) : Z :=
  match sw_since w with Some t => sw_left w - (now - t) | None => sw_left w end.

Definition sw_stop (now : Z) (w : stopwatch) : stopwatch := mkStopwatch (left_at now w) None.
Definition sw_start (now : Z) (w : stopwatch) : stopwatch := mkStopwatch (sw_left w) (Some now).
Definition sw_new (budget now : Z) : stopwatch := mkStopwatch budget (Some now).

(** A run of one stream: what happens, with its instants. *)
Inductive action :=
| AExpire (now armed : Z)
| APause (now : Z)
| AResume (now armed : Z)
| ARead (a : arrival)
| ABytes (t0 t1 t2 n : Z) (err : option stream_error)
| AClose
| AParent (cause : string)
| AProtocol (allowEOF : bool) (progress : option (sseEvent -> bool)).

Definition act (a : action) (s : chatStream) : chatStream :=
  match a with
  | AExpire now armed => expire now armed s
  | APause now => (pauseIdle now s).1
  | AResume now armed => resumeIdle now armed s
  | ARead a => (readEvent (ar_t0 a) (ar_t1 a) (ar_t2 a) (ar_read a) s).1
  | ABytes t0 t1 t2 n err => (readBytes t0 t1 t2 n err s).1
  | AClose => Close s
  | AParent cause => cancel (ParentDone cause) s
  | AProtocol allowEOF progress => set_protocol allowEOF progress s
  end.

(** The stopwatch of the same run; it is only looked at while the stream lives. *)
Definition act_watch (a : action) (s : chatStream) (w : stopwatch) : stopwatch :=
  match a with
  | APause now => if cs_paused s then w else sw_stop now w
  | AResume now _ => sw_start now w
  | ARead a => match ar_read a with
               | Ok e => if negb (cs_paused s) && meaningful s e then sw_new (IdleTimeout (cs_config s)) (ar_t1 a) else w
               | Err _ => w
               end
  | ABytes _ t1 _ n _ => if negb (cs_paused s) && (0 <? n) then sw_new (IdleTimeout (cs_config s)) t1 else w
  | _ => w
  end.

(** The order of a stream's user: it resumes only what it has paused, and the
    clock does not go back. It may read while the stream is paused, as the reader
    of a stream with keepalives does after an event that is not written. *)
Definition allowed (c c' : Z) (a : action) (s : chatStream) : Prop :=
  match a with
  | AExpire now armed => c <= now <= armed /\ armed <= c'
  | APause now => c <= now <= c'
  | AResume now armed => cs_paused s = true /\ c <= now <= armed /\ armed <= c'
  | ARead a => c <= ar_t0 a <= ar_t1 a /\ ar_t1 a <= ar_t2 a <= c'
  | ABytes t0 t1 t2 _ _ => c <= t0 <= t1 /\ t1 <= t2 <= c'
  | AClose | AParent _ | AProtocol _ _ => c <= c'
  end.

(** The streams a user can get to, with their stopwatches, at instant [c]. *)
Inductive stream_run (cfg : StreamingConfig) (allowEOF : bool) : Z -> chatStream -> stopwatch -> Prop :=
| run_new now armed c :
    now <= armed <= c ->
    stream_run cfg allowEOF c (newChatStream None cfg allowEOF now armed)
      (sw_new (FirstEventTimeout (WithDefaults cfg)) now)
| run_act a c c' s w :
    stream_run cfg allowEOF c s w -> allowed c c' a s -> stream_run cfg allowEOF c' (act a s) (act_watch a s w).

(** The deadlines of a live stream are those of its stopwatch, and the timer is
    armed for them. *)
Definition tracks (c : Z) (s : chatStream) (w : stopwatch) : Prop :=
  cs_ctx s = None ->
  cs_closed s = false /\ sw_left w <= 24 * Hour /\
  if cs_paused s then sw_since w = None /\ cs_remaining s = sw_left w /\ 0 < sw_left w
  else exists t f, sw_since w = Some t /\ t <= c /\ cs_deadline s = t + sw_left w /\
       cs_timer s = Some f /\ cs_deadline s <= f.

Definition stream_inv (cfg : StreamingConfig) (c : Z) (s : chatStream) (w : stopwatch) : Prop :=
  cs_config s = WithDefaults cfg /\ tracks c s w.

Lemma WithDefaults_bounds cfg :
  ValidateStreaming cfg = true ->
  0 < FirstEventTimeout (WithDefaults cfg) <= 24 * Hour /\ 0 < IdleTimeout (WithDefaults cfg) <= 24 * Hour.
Proof.
  unfold ValidateStreaming, WithDefaults, or_default, Hour, Minute, Second. cbn. intros H.
  destruct (Z.leb_spec (FirstEventTimeout cfg) 0), (Z.leb_spec (IdleTimeout cfg) 0); cbn; lia.
Qed.

(** The remaining time the code computes is the stopwatch's. *)
Lemma remaining_left now d t l :
  l <= 24 * Hour -> t <= now -> d = t + l ->
  (0 < Sub d now <-> 0 < l - (now - t)) /\ (0 < Sub d now -> Sub d now = l - (now - t)).
Proof.
  intros Hl Ht ->. unfold Sub, clamp64, MinInt64, MaxInt64, Hour, Minute, Second in *. lia.
Qed.

#[local] Ltac dead := unfold cancel; cbn; intros Hctx; try (destruct (cs_ctx _); discriminate); try discriminate.

Lemma expire_tracks c c' now armed s w :
  tracks c s w -> c <= now <= armed -> armed <= c' -> tracks c' (expire now armed s) w.
Proof.
  intros Hs Hn Ha. unfold expire. cbn [set_timer cs_closed cs_paused cs_ctx cs_deadline cs_cause].
  destruct (cs_closed s) eqn:Ecl; cbn [orb].
  { intros Hctx. destruct (Hs Hctx) as [? _]. congruence. }
  destruct (cs_paused s) eqn:Ep; cbn [orb].
  { intros Hctx. specialize (Hs Hctx). cbn. rewrite Ecl, Ep in *. done. }
  case_bool_decide as Hd. { intros Hctx. cbn in Hctx. rewrite Hctx in Hd. by destruct Hd. }
  assert (cs_ctx s = None) as Hlive by (destruct (cs_ctx s); [exfalso; eauto | done]).
  destruct (Hs Hlive) as (_ & Hl & Hrest). rewrite Ep in Hrest. destruct Hrest as (t & f & Hsince & Htc & Hdl & _ & _).
  destruct (remaining_left now (cs_deadline s) t (sw_left w) Hl ltac:(lia) Hdl) as [Hpos Heq].
  destruct (Z.ltb_spec 0 (Sub (cs_deadline s) now)) as [Hr | Hr].
  - intros _. cbn. rewrite Ecl, Ep. split_and!; [done | done |]. exists t, (armed + Sub (cs_deadline s) now).
    rewrite Heq by done. split_and!; [done | lia | done | done | lia].
  - unfold cancel. cbn. rewrite Hlive. dead.
Qed.

Lemma pause_tracks c c' now s w :
  tracks c s w -> c <= now <= c' -> tracks c' (pauseIdle now s).1 (if cs_paused s then w else sw_stop now w).
Proof.
  intros Hs Hn. unfold pauseIdle. destruct (cs_paused s) eqn:Ep.
  { cbn. intros Hctx. specialize (Hs Hctx). rewrite Ep in *. done. }
  cbn. destruct (Z.leb_spec (Sub (cs_deadline s) now) 0) as [Hr | Hr].
  { unfold cancel. cbn. destruct (cs_ctx s) eqn:E; cbn; intros Hctx; cbn in Hctx; congruence. }
  cbn. intros Hctx. cbn in *. destruct (Hs Hctx) as (Hcl & Hl & Hrest). rewrite Ep in Hrest.
  destruct Hrest as (t & f & Hsince & Htc & Hdl & _ & _).
  destruct (remaining_left now (cs_deadline s) t (sw_left w) Hl ltac:(lia) Hdl) as [Hpos Heq].
  unfold left_at. rewrite Hsince. cbn. rewrite Heq by lia. split_and!; [done | lia | done | done | lia].
Qed.

Lemma resume_tracks c c' now armed s w :
  tracks c s w -> cs_paused s = true -> c <= now <= armed -> armed <= c' ->
  tracks c' (resumeIdle now armed s) (sw_start now w).
Proof.
  intros Hs Hp Hn Ha. unfold resumeIdle. cbn.
  destruct (cs_ctx s) eqn:E.
  { rewrite bool_decide_false by done. rewrite andb_false_r. cbn. intros Hctx. cbn in Hctx. congruence. }
  destruct (Hs E) as (Hcl & Hl & Hrest). rewrite Hp in Hrest. destruct Hrest as (_ & Hrem & Hpos).
  rewrite Hcl. rewrite bool_decide_true by done. cbn. intros _. cbn. split_and!; [done | done |].
  exists now, (armed + cs_remaining s). rewrite Hrem. split_and!; [done | lia | lia | done | lia].
Qed.

(** What is read while the stream is paused starts no window. *)
Lemma progressed_tracks c c' t1 t2 s w :
  tracks c s w -> cs_ctx s = None -> IdleTimeout (cs_config s) <= 24 * Hour -> t1 <= t2 -> t2 <= c' ->
  tracks c' (progressed t1 t2 s) (if cs_paused s then w else sw_new (IdleTimeout (cs_config s)) t1).
Proof.
  intros Hs Hc Hi H1 H2 _. destruct (Hs Hc) as (Hcl & Hl & Hrest). cbn. rewrite Hcl.
  destruct (cs_paused s) eqn:Hp; [done |]. split_and!; [done | done |].
  exists t1, (t2 + IdleTimeout (cs_config s)). split_and!; [done | lia | done | done | lia].
Qed.

Lemma tracks_later c c' s w : tracks c s w -> c <= c' -> tracks c' s w.
Proof.
  intros Hs Hc Hctx. destruct (Hs Hctx) as (? & ? & Hrest). split_and!; [done | done |].
  destruct (cs_paused s); [done |]. destruct Hrest as (t & f & ? & ? & ? & ? & ?). exists t, f. split_and!; lia || done.
Qed.

Lemma tracks_dead c s w : cs_ctx s <> None -> tracks c s w.
Proof. by intros Hd Hc. Qed.

Lemma cancel_dead c s : cs_ctx (cancel c s) <> None.
Proof. unfold cancel. destruct (cs_ctx s) eqn:E; cbn; congruence. Qed.

Lemma act_inv cfg c c' a s w :
  ValidateStreaming cfg = true -> stream_inv cfg c s w -> allowed c c' a s ->
  stream_inv cfg c' (act a s) (act_watch a s w).
Proof.
  intros Hv [Hcfg Hs] Ha. destruct (WithDefaults_bounds cfg Hv) as [_ Hidle]. rewrite <- Hcfg in Hidle. split.
  { rewrite <- Hcfg. destruct a; cbn; unfold expire, pauseIdle, resumeIdle, readEvent, readBytes, Close, cancel;
      repeat case_match; done. }
  destruct a as [now armed | now | now armed | r | t0 t1 t2 n err | | cause | eof pr]; cbn [act act_watch allowed] in *.
  - eapply expire_tracks; [exact Hs | lia | lia].
  - eapply pause_tracks; [exact Hs | lia].
  - eapply resume_tracks; [exact Hs | apply Ha | lia | lia].
  - destruct Ha as (Ht0 & Ht2). unfold readEvent. destruct (cs_ctx s) eqn:Hctx; [apply tracks_dead; cbn; congruence |].
    destruct (negb (_ <? _)); [apply tracks_dead, cancel_dead |].
    destruct (ar_read r) as [e | e]; [| destruct e; (apply (tracks_later c); [done | lia])].
    cbn [fst]. destruct (meaningful s e); [| rewrite andb_false_r; apply (tracks_later c); [done | lia]].
    rewrite andb_true_r. replace (if negb (cs_paused s) then _ else w) with
      (if cs_paused s then w else sw_new (IdleTimeout (cs_config s)) (ar_t1 r)) by (by destruct (cs_paused s)).
    apply (progressed_tracks c); done || lia.
  - destruct Ha as (Ht0 & Ht2). unfold readBytes. destruct (cs_ctx s) eqn:Hctx; [apply tracks_dead; cbn; congruence |].
    destruct (negb (_ <? _)); [apply tracks_dead, cancel_dead |]. cbn [fst].
    destruct (0 <? n); [| rewrite andb_false_r; apply (tracks_later c); [done | lia]].
    rewrite andb_true_r. replace (if negb (cs_paused s) then _ else w) with
      (if cs_paused s then w else sw_new (IdleTimeout (cs_config s)) t1) by (by destruct (cs_paused s)).
    apply (progressed_tracks c); done || lia.
  - apply tracks_dead, cancel_dead.
  - apply tracks_dead, cancel_dead.
  - apply (tracks_later c); [exact Hs | lia].
Qed.

Lemma run_inv cfg allowEOF c s w :
  ValidateStreaming cfg = true -> stream_run cfg allowEOF c s w -> stream_inv cfg c s w.
Proof.
  intros Hv Hrun. induction Hrun as [now armed c Hc | a c c' s w _ IH Ha]; [| by eapply act_inv].
  destruct (WithDefaults_bounds cfg Hv) as [Hfirst _]. split; [done |]. intros _. cbn -[WithDefaults Hour].
  split_and!; [done | lia |]. eexists _, _. split_and!; [done | lia | done | done | lia].
Qed.


