(* ===== verification/StreamProxy.v ===== *)
(** * The streaming proxy ([api/stream.go], [api/stream_writer.go],
    [api/stream_keepalive.go])

    One goroutine reads the upstream's events, rewrites the model of every chunk,
    collects the usage, and writes the events to the client; with keepalives a
    second goroutine reads, on demand, one event at a time. The model runs the
    loop of [Run] turn by turn: what the upstream sends, when, and how the writes
    end are the turn's data. The lifetime of the stream is that of [StreamLife],
    its guardrail that of [GuardRuntime]. The JSON text of an event's data is
    decoded and encoded by two functions the section is given. *)

From S2P Require Import Prelude Streaming Json Money Wire Guardrails GuardEnvelope GuardRuntime Sse StreamLife.
From Stdlib Require Import Ascii.

Definition maxCapturedStreamText : Z := 262144.

(** How a call of [streamWriter.write] ends: a refused deadline or a failed write
    may leave a part of the text on the connection. *)
Inductive write_outcome := WOk | WFail (written : nat) (err : string).

Definition write (event : bytes) (o : write_outcome) (out : bytes) : bytes * option string :=
  match o with
  | WOk => (out ++ event, None)
  | WFail n err => (out ++ take n event, Some err)
  end.

(** The deadline of a write: the earlier of the write timeout and the end of the
    request; [None] when the request has ended. *)
Definition arm (ctx_err : option string) (total : option Z) (timeout now : Z) : result string Z :=
  match ctx_err with
  | Some err => Err err
  | None =>
      let deadline := now + timeout in
      Ok (match total with Some t => if Before t deadline then t else deadline | None => deadline end)
  end.

Inductive run_error :=
| RStream (e : stream_error)
| RGuard (e : guardrailError)
| RReported
| RWrite (err : string).

Section Proxy.
Context (decode : bytes -> option raw) (render : raw -> bytes) (utf8 : bytes -> bool).
Context (size : raw -> Z) (fold_eq : rune -> rune -> bool).

(** What the proxy knows of the response. *)
Record observed := mkObserved {
  ob_requestID : text;
  ob_upstreamModel : text;
  ob_usage : option Usage;
  ob_chunks : Z;
  ob_text : text;
  ob_truncated : bool;
  ob_finish : text;
}.

(** The field [error] of an event, as [json.Unmarshal] into a struct reads it. *)
Definition set_reported (k : text) (v : raw) (r : option raw) : option (option raw) :=
  if is_key "error" k then Some (Some v) else Some r.

Definition has_error (data : bytes) : bool :=
  match decode data with
  | Some v => match into_struct set_reported v None with
              | Some (Some JNull) | Some None | None => false
              | Some (Some _) => true
              end
  | None => false
  end.

(** ** Chunks *)

(** [_ = json.Unmarshal(v, &s)] into a string. *)
Definition try_string (v : option raw) (old : text) : text :=
  match v with Some (JStr s) => s | _ => old end.

Record parsed_choice := mkParsedChoice { pc_Index : Z; pc_Content : text; pc_FinishReason : option text }.

Definition set_delta (k : text) (v : raw) (content : text) : option text :=
  if is_key "content" k then into_string v content else Some content.

Definition set_parsed (k : text) (v : raw) (c : parsed_choice) : option parsed_choice :=
  if is_key "index" k then n ← into_int v (pc_Index c); Some (mkParsedChoice n (pc_Content c) (pc_FinishReason c))
  else if is_key "delta" k
  then s ← into_struct set_delta v (pc_Content c); Some (mkParsedChoice (pc_Index c) s (pc_FinishReason c))
  else if is_key "finish_reason" k
  then f ← into_ptr into_string [] v (pc_FinishReason c); Some (mkParsedChoice (pc_Index c) (pc_Content c) f)
  else Some c.

Definition collect_choice (o : observed) (c : parsed_choice) : observed :=
  let '(mkObserved id model usage chunks text truncated finish) := o in
  if negb (pc_Index c =? 0) then o
  else
    let finish := default finish (pc_FinishReason c) in
    if truncated || bool_decide (pc_Content c = []) then mkObserved id model usage chunks text truncated finish
    else if maxCapturedStreamText <? byte_len text + byte_len (pc_Content c)
    then mkObserved id model usage chunks text true finish
    else mkObserved id model usage chunks (text ++ pc_Content c) truncated finish.

Definition collectChunk (choices : option raw) (o : observed) : observed :=
  match choices with
  | None => o
  | Some v =>
      match into_slice (into_struct set_parsed) (mkParsedChoice 0 [] None) v None with
      | Some parsed => foldl collect_choice o (default [] parsed)
      | None => o
      end
  end.

(** A usage counts only when the counters are really there. *)
Definition read_usage (v : option raw) (old : option Usage) : option Usage :=
  match v with
  | None | Some JNull => old
  | Some u => match into_usage u no_usage with
              | Some u2 => if ReportedUsage (Some u) true then Some u2 else old
              | None => old
              end
  end.

Definition processChunk (alias : text) (collect : bool) (data : bytes) (o : observed) : observed * bytes :=
  match decode data with
  | Some (JObj l) =>
      let m := to_map l in
      let model := if bool_decide (ob_upstreamModel o = []) then try_string (m !! txt "model") (ob_upstreamModel o)
                   else ob_upstreamModel o in
      let id := if bool_decide (ob_requestID o = []) then try_string (m !! txt "id") (ob_requestID o)
                else ob_requestID o in
      let o := mkObserved id model (ob_usage o) (ob_chunks o) (ob_text o) (ob_truncated o) (ob_finish o) in
      let o := if collect then collectChunk (m !! txt "choices") o else o in
      let usage := read_usage (m !! txt "usage") (ob_usage o) in
      let m := if bool_decide (alias = []) then m else putJSON "model" (JStr alias) m in
      (mkObserved (ob_requestID o) (ob_upstreamModel o) usage (ob_chunks o + 1) (ob_text o) (ob_truncated o) (ob_finish o),
       render (marshal_map m))
  | _ => (o, data)
  end.

(** ** The loop *)

Definition done_text : bytes := str "[DONE]".
Definition keepalive : bytes := str ": gatemux keepalive" ++ [LF; LF].
Definition frame (data : bytes) : bytes := str "data: " ++ data ++ [LF; LF].

Record streamProxy := mkStreamProxy {
  px_src : chatStream;
  px_guard : option guardrailRun;
  px_audit : list decision;
  px_observed : observed;
  px_out : bytes;
}.

(** What happens in one turn: the read, the keepalives that were due while it was
    awaited, the instants of the pauses, the write and the audit. *)
Record turn := mkTurn {
  tn_arrival : arrival;
  tn_keepalives : list write_outcome;
  tn_pulled : Z;
  tn_commits : bool;
  tn_pause : Z;
  tn_write : write_outcome;
  tn_resume : Z;
  tn_armed : Z;
}.

Fixpoint write_keepalives (os : list write_outcome) (out : bytes) : bytes * option string :=
  match os with
  | [] => (out, None)
  | o :: os => match write keepalive o out with
               | (out, Some err) => (out, Some err)
               | (out, None) => write_keepalives os out
               end
  end.

(** [eventPuller.next]. With keepalives the reader pauses the idle timer before it
    hands the event over; a failed keepalive ends the wait. *)
Definition pull (t : turn) (src : chatStream) (out : bytes) : chatStream * bytes * result run_error sseEvent :=
  if KeepaliveInterval (cs_config src) <=? 0
  then let '(src, e) := next_event (tn_arrival t) src in
       (src, out, match e with Ok e => Ok e | Err e => Err (RStream e) end)
  else
    match cs_ctx src with
    | Some c => (src, out, Err (RStream c))
    | None =>
        match write_keepalives (tn_keepalives t) out with
        | (out, Some err) => (src, out, Err (RWrite err))
        | (out, None) =>
            let '(src, e) := next_event (tn_arrival t) src in
            let '(src, paused) := pauseIdle (tn_pulled t) src in
            (src, out, match e, paused with
                       | Err e, _ => Err (RStream e)
                       | Ok _, Some c => Err (RStream c)
                       | Ok e, None => Ok e
                       end)
        end
    end.

(** What the guardrail makes of an event: the data to write, or no write. *)
Inductive verdict := Skip | Emit (data : bytes) | Refuse (e : run_error).

Definition refused (e : option guardrailError) (otherwise : verdict) : verdict :=
  match e with Some e => Refuse (RGuard e) | None => otherwise end.

Definition guard_event (commits : bool) (event : sseEvent) (failed : bool) (data : bytes) (g : guardrailRun)
    (table : list decision) : guardrailRun * list decision * verdict :=
  if negb (ev_hasData event) then (g, table, Skip)
  else if failed
  then let '(g, table, e) := finish (Some (COther "upstream reported a stream error")) commits g table in
       (g, table, refused e (Emit data))
  else if bool_decide (data = done_text)
  then
    let err := match Complete (g_post g) with Err e => Some (CGuard e) | Ok _ => None end in
    let '(g, table, e) := finish err commits g table in (g, table, refused e (Emit data))
  else
    match response size fold_eq (if utf8 data then decode data else None) true commits g table with
    | (g, table, Err e) => (g, table, Refuse (RGuard e))
    | (g, table, Ok out) => (g, table, Emit (render out))
    end.

Inductive flow := Continue | Return (err : option run_error).

Definition deliver (t : turn) (event : sseEvent) (failed : bool) (data : bytes) (p : streamProxy) : streamProxy * flow :=
  let '(mkStreamProxy src guard table obs out) := p in
  match pauseIdle (tn_pause t) src with
  | (src, Some c) => (mkStreamProxy src guard table obs out, Return (Some (RStream c)))
  | (src, None) =>
      let encoded := match guard with Some _ => frame data | None => encode event data end in
      match write encoded (tn_write t) out with
      | (out, Some err) => (mkStreamProxy src guard table obs out, Return (Some (RWrite err)))
      | (out, None) =>
          let src := resumeIdle (tn_resume t) (tn_armed t) src in
          (mkStreamProxy src guard table obs out,
           if failed then Return (Some RReported)
           else if ev_hasData event && bool_decide (ev_data event = done_text) then Return None else Continue)
      end
  end.

(** One turn of the loop of [Run]. *)
Definition run_turn (alias : text) (collect : bool) (t : turn) (p : streamProxy) : streamProxy * flow :=
  let '(mkStreamProxy src guard table obs out) := p in
  match pull t src out with
  | (src, out, Err e) => (mkStreamProxy src guard table obs out, Return (Some e))
  | (src, out, Ok event) =>
      let failed := has_error (ev_data event) in
      let '(obs, data) :=
        if ev_hasData event && negb (bool_decide (ev_data event = done_text)) && negb failed
        then processChunk alias collect (ev_data event) obs else (obs, ev_data event) in
      match guard with
      | None => deliver t event failed data (mkStreamProxy src guard table obs out)
      | Some g =>
          match guard_event (tn_commits t) event failed data g table with
          | (g, table, Skip) => (mkStreamProxy src (Some g) table obs out, Continue)
          | (g, table, Refuse e) => (mkStreamProxy src (Some g) table obs out, Return (Some e))
          | (g, table, Emit data) => deliver t event failed data (mkStreamProxy src (Some g) table obs out)
          end
      end
  end.

(** [Run] over the turns that happen; [None] while it waits for the next one. *)
Fixpoint Run (alias : text) (collect : bool) (ts : list turn) (p : streamProxy) : streamProxy * option (option run_error) :=
  match ts with
  | [] => (p, None)
  | t :: ts =>
      match run_turn alias collect t p with
      | (p, Return e) => (p, Some e)
      | (p, Continue) => Run alias collect ts p
      end
  end.

(** ** The usage of a stream *)

(** A usage that was read fits machine integers. *)
Definition usage_ok (o : observed) : Prop := forall u, ob_usage o = Some u -> usage_int64 u.

Lemma read_usage_ok v old u :
  (forall u, old = Some u -> usage_int64 u) -> read_usage v old = Some u -> usage_int64 u.
Proof.
  intros Hold. unfold read_usage. destruct v as [v|]; [| by apply Hold].
  destruct v; try by apply Hold.
  all: destruct (into_usage _ no_usage) as [u2|] eqn:E; [| by apply Hold].
  all: destruct (ReportedUsage _ _); [| by apply Hold].
  all: intros [= <-]; eapply into_usage_int64; [apply no_usage_fits | exact E].
Qed.

Lemma collect_choice_usage o c : ob_usage (collect_choice o c) = ob_usage o.
Proof. destruct o. unfold collect_choice. by repeat case_match. Qed.

Lemma collectChunk_usage choices o : ob_usage (collectChunk choices o) = ob_usage o.
Proof.
  unfold collectChunk. destruct choices as [v|]; [| done]. destruct (into_slice _ _ _ _) as [parsed|]; [| done].
  revert o. induction (default [] parsed) as [| c l IH]; intros o; [done |]. cbn. by rewrite IH, collect_choice_usage.
Qed.

Lemma processChunk_usage alias collect data o : usage_ok o -> usage_ok (processChunk alias collect data o).1.
Proof.
  intros Ho. unfold processChunk. destruct (decode data) as [[| | | | | l]|]; try done. intros u. cbn [fst ob_usage].
  apply read_usage_ok. intros u'. destruct collect; [rewrite collectChunk_usage |]; apply Ho.
Qed.

Lemma deliver_observed t event failed data p : px_observed (deliver t event failed data p).1 = px_observed p.
Proof. destruct p. unfold deliver. by repeat case_match. Qed.

Lemma run_turn_usage alias collect t p : usage_ok (px_observed p) -> usage_ok (px_observed (run_turn alias collect t p).1).
Proof.
  destruct p as [src guard table obs out]. cbn [px_observed]. intros Ho. unfold run_turn.
  destruct (pull t src out) as [[src' out'] [event|e]]; [| done].
  assert (usage_ok (if ev_hasData event && negb (bool_decide (ev_data event = done_text)) && negb (has_error (ev_data event))
    then processChunk alias collect (ev_data event) obs else (obs, ev_data event)).1) as Hp.
  { destruct (_ && _ && _); [by apply processChunk_usage | done]. }
  destruct (if _ && _ && _ then _ else _) as [obs' data]. cbn [fst] in Hp.
  destruct guard as [g|]; [| by rewrite deliver_observed].
  destruct (guard_event _ _ _ _ _ _) as [[g' table'] []]; [done | by rewrite deliver_observed | done].
Qed.

Lemma Run_usage alias collect ts p : usage_ok (px_observed p) -> usage_ok (px_observed (Run alias collect ts p).1).
Proof.
  revert p. induction ts as [| t ts IH]; intros p Hp; cbn [Run]; [done |].
  pose proof (run_turn_usage alias collect t p Hp) as Ht. destruct (run_turn _ _ _ _) as [p' []]; [by apply IH | done].
Qed.

(** ** Guarded streams *)

(** What a guarded client reads: keepalives, and one frame for every event as the
    policies rewrote it. *)
Inductive guarded_output : list raw -> bytes -> Prop :=
| go_start : guarded_output [] []
| go_keepalive outs bs : guarded_output outs bs -> guarded_output outs (bs ++ keepalive)
| go_chunk outs bs o : guarded_output outs bs -> guarded_output (outs ++ [o]) (bs ++ frame (render o)).

Lemma write_cases event o out out' e :
  write event o out = (out', e) -> match e with None => out' = out ++ event | Some _ => out' `prefix_of` out ++ event end.
Proof.
  destruct o as [| n err]; cbn; intros [= <- <-]; [done |].
  exists (drop n event). by rewrite <- app_assoc, take_drop.
Qed.

(** The pull writes nothing but keepalives: what they keep of the output, it keeps. *)
Section kept.
Variable P : bytes -> Prop.
Hypothesis HP : forall bs, P bs -> P (bs ++ keepalive).

Lemma write_keepalives_output os out out' e :
  P out -> write_keepalives os out = (out', e) -> exists bs, P bs /\ match e with None => out' = bs | Some _ => out' `prefix_of` bs end.
Proof using HP.
  revert out. induction os as [| o os IH]; intros out Ho; cbn [write_keepalives]; [intros [= <- <-]; eauto |].
  destruct (write keepalive o out) as [out1 [err|]] eqn:E; apply write_cases in E.
  - intros [= <- <-]. exists (out ++ keepalive). split; [by apply HP | done].
  - subst out1. apply IH. by apply HP.
Qed.

Lemma pull_output t src out src' out' r :
  P out -> pull t src out = (src', out', r) ->
  exists bs, P bs /\ out' `prefix_of` bs /\ match r with Err (RWrite _) => True | _ => out' = bs end.
Proof using HP.
  intros Ho. unfold pull. destruct (_ <=? 0).
  { destruct (next_event _ src) as [s1 [e|e]]; intros [= <- <- <-]; by exists out. }
  destruct (cs_ctx src) as [c|]; [intros [= <- <- <-]; by exists out |].
  destruct (write_keepalives _ out) as [out1 [err|]] eqn:E.
  { intros [= <- <- <-]. eapply write_keepalives_output in E as (bs & Hbs & Hp); eauto. }
  eapply write_keepalives_output in E as (bs & Hbs & ->); [| done].
  destruct (next_event _ src) as [s1 e1]. destruct (pauseIdle _ s1) as [s2 e2]. intros [= <- <- <-].
  exists bs. split_and!; [done | done |]. by destruct e1, e2.
Qed.
End kept.

#[local] Abbreviation respond := (respond_all size fold_eq).

Lemma respond_snoc events f f1 outs v f2 o :
  respond events f = Some (f1, outs) -> Response size fold_eq (Some v) f1 true = (f2, Ok o) ->
  respond (events ++ [v]) f = Some (f2, outs ++ [o]).
Proof.
  revert f outs. induction events as [| e events IH]; intros f outs; cbn [respond_all app].
  { intros [= <- <-] ->. done. }
  destruct (Response size fold_eq (Some e) f true) as [f3 [o3|]]; [| done].
  destruct (respond events f3) as [[f4 outs4]|] eqn:E; [| done]. intros [= <- <-] Hr. by rewrite (IH _ _ E Hr).
Qed.

(** The state of a guarded stream between two turns. *)
Definition guarded (g0 : guardrailRun) (table : list decision) (p : streamProxy) (events outs : list raw) : Prop :=
  exists g, px_guard p = Some g /\ respond events (g_post g0) = Some (g_post g, outs) /\ guarded_output outs (px_out p) /\
    px_audit p = table /\ g_postAudited g = false /\ forall results, audit_rows g results = audit_rows g0 results.

(** How a guarded stream ends. *)
Definition guarded_end (g0 : guardrailRun) (table : list decision) (p : streamProxy) (err : option run_error)
    (events outs : list raw) : Prop :=
  exists f bs, respond events (g_post g0) = Some (f, outs) /\ guarded_output outs bs /\
    match err with
    | None => px_out p = bs ++ frame done_text /\ Complete f = Ok tt /\ px_audit p = table ++ audit_rows g0 (Results f)
    | Some _ => px_out p `prefix_of` bs ++ frame done_text
    end.

(** What a guarded event may do. *)
Lemma guard_event_cases g0 table commits event failed data g events outs g' table' v :
  guard_event commits event failed data g table = (g', table', v) ->
  respond events (g_post g0) = Some (g_post g, outs) -> g_postAudited g = false ->
  (forall results, audit_rows g results = audit_rows g0 results) ->
  match v with
  | Skip => g' = g /\ table' = table
  | Refuse _ => True
  | Emit d =>
      failed = false /\ (forall results, audit_rows g' results = audit_rows g0 results) /\
      ((d = done_text /\ data = done_text /\ Complete (g_post g) = Ok tt /\ table' = table ++ audit_rows g0 (Results (g_post g))) \/
       (exists e o, d = render o /\ data <> done_text /\ table' = table /\ g_postAudited g' = false /\
          respond (events ++ [e]) (g_post g0) = Some (g_post g', outs ++ [o])))
  end.
Proof.
  unfold guard_event. intros H Hr Ha Hrows. destruct (negb (ev_hasData event)); [by injection H as <- <- <- |].
  destruct failed.
  { revert H. unfold finish. destruct (g_postAudited g); [by intros [= <- <- <-] |].
    by destruct (audit _ _ _ commits table) as [t [e|]]; intros [= <- <- <-]. }
  destruct (bool_decide_reflect (data = done_text)) as [-> | Hd].
  - destruct (Complete (g_post g)) as [u|e] eqn:Ec.
    + destruct (finish None commits g table) as [[g1 t1] [e|]] eqn:Ef; injection H as <- <- <-; [done |].
      apply finish_success in Ef as [-> ->]; [| done]. destruct u. split_and!; [done | by destruct g |]. left.
      by rewrite Hrows.
    + revert H. unfold finish. rewrite Ha. by destruct (audit _ _ _ commits table) as [t [e'|]]; intros [= <- <- <-].
  - unfold response in H. destruct (if utf8 data then decode data else None) as [e|]; cycle 1.
    { cbn in H. by destruct (finish _ commits _ table) as [[g1 t1] e1]; injection H as <- <- <-. }
    destruct (Response size fold_eq (Some e) (g_post g) true) as [f1 [o|err]] eqn:Er; cycle 1.
    { by destruct (finish _ commits _ table) as [[g1 t1] e1]; injection H as <- <- <-. }
    injection H as <- <- <-. split_and!; [done | by destruct g |]. right. exists e, o.
    split_and!; [done | done | done | by destruct g |]. destruct g; cbn in *. by eapply respond_snoc.
Qed.

Lemma processChunk_data alias collect data o o' data' :
  (forall l, render (JObj l) <> done_text) -> data <> done_text ->
  processChunk alias collect data o = (o', data') -> data' <> done_text.
Proof.
  intros Hrender Hd. unfold processChunk. destruct (decode data) as [[| | | | |l]|]; intros [= <- <-]; try done. apply Hrender.
Qed.

Lemma deliver_guarded g0 table t event data g src obs out tbl events outs p' fl :
  deliver t event false data (mkStreamProxy src (Some g) tbl obs out) = (p', fl) ->
  guarded_output outs out -> respond events (g_post g0) = Some (g_post g, outs) ->
  (forall results, audit_rows g results = audit_rows g0 results) ->
  ev_hasData event && bool_decide (ev_data event = done_text) = true -> data = done_text ->
  Complete (g_post g) = Ok tt -> tbl = table ++ audit_rows g0 (Results (g_post g)) ->
  exists err, fl = Return err /\ guarded_end g0 table p' err events outs.
Proof.
  intros H Ho Hr Hrows Hdone -> Hc ->. unfold deliver in H.
  destruct (pauseIdle _ src) as [s1 [c|]]; [injection H as <- <-; eexists; split; [done |];
    exists (g_post g), out; split_and!; [done | done | by apply prefix_app_r] |].
  destruct (write (frame done_text) (tn_write t) out) as [out1 [err|]] eqn:E; apply write_cases in E.
  - injection H as <- <-. eexists. split; [done |]. by exists (g_post g), out.
  - subst out1. rewrite Hdone in H. injection H as <- <-. eexists. split; [done |]. by exists (g_post g), out.
Qed.

Lemma run_turn_guarded alias collect g0 table t p p' fl events outs :
  (forall l, render (JObj l) <> done_text) -> guarded g0 table p events outs ->
  run_turn alias collect t p = (p', fl) ->
  exists events' outs',
    match fl with Continue => guarded g0 table p' events' outs' | Return err => guarded_end g0 table p' err events' outs' end.
Proof.
  intros Hrender (g & Hg & Hr & Ho & Ht & Ha & Hrows) H. destruct p as [src guard tbl obs out].
  cbn [px_guard px_audit px_out] in *. subst guard tbl. unfold run_turn in H.
  destruct (pull t src out) as [[src1 out1] [event|e]] eqn:Ep; cycle 1.
  { injection H as <- <-. exists events, outs. apply (pull_output _ (go_keepalive outs)) in Ep as (bs & Hbs & Hp & _); [| done].
    exists (g_post g), bs. split_and!; [done | done |]. cbn. by apply prefix_app_r. }
  apply (pull_output _ (go_keepalive outs)) in Ep as (bs & Hbs & _ & ->); [| done].
  destruct (if ev_hasData event && negb (bool_decide (ev_data event = done_text)) && negb (has_error (ev_data event))
    then processChunk alias collect (ev_data event) obs else (obs, ev_data event)) as [obs1 data] eqn:Edata.
  assert (ev_hasData event = true -> has_error (ev_data event) = false ->
          (data = done_text <-> ev_data event = done_text)) as Hdata.
  { intros Hd Hf. rewrite Hd, Hf in Edata. cbn in Edata. rewrite andb_true_r in Edata. revert Edata.
    case_bool_decide as Hc; cbn; [by intros [= <- <-] |]. intros Epc. split; [| done].
    intros ->. by eapply processChunk_data in Epc. }
  destruct (guard_event (tn_commits t) event (has_error (ev_data event)) data g table) as [[g1 t1] v] eqn:Eg.
  pose proof (guard_event_cases g0 _ _ _ _ _ _ _ _ _ _ _ Eg Hr Ha Hrows) as Hv. destruct v as [| d | e].
  - injection H as <- <-. destruct Hv as [-> ->]. exists events, outs, g. done.
  - destruct Hv as (Hfailed & Hrows1 & Hcases). rewrite Hfailed in H.
    assert (ev_hasData event = true) as Hhas.
    { unfold guard_event in Eg. by destruct (ev_hasData event). }
    specialize (Hdata Hhas Hfailed). destruct Hcases as [(-> & -> & Hc & ->) | (e & o & -> & Hnd & -> & Ha1 & Hr1)].
    + assert (g_post g1 = g_post g) as Hpost.
      { unfold guard_event in Eg. rewrite Hhas, Hfailed in Eg. cbn in Eg. rewrite bool_decide_true in Eg by done.
        unfold finish in Eg. rewrite Ha in Eg. by destruct (audit _ _ _ _ _) as [? [?|]]; injection Eg as <- _ _. }
      destruct (deliver_guarded g0 table _ _ _ _ _ _ _ _ events outs _ _ H) as (err & -> & He); try done.
      * by rewrite Hpost.
      * rewrite Hhas. cbn. by apply bool_decide_true, Hdata.
      * by rewrite Hpost.
      * by rewrite Hpost.
      * eauto.
    + assert (ev_hasData event && bool_decide (ev_data event = done_text) = false) as Hnot.
      { rewrite Hhas. apply bool_decide_false. by rewrite <- Hdata. }
      exists (events ++ [e]), (outs ++ [o]). assert (guarded_output (outs ++ [o]) (bs ++ frame (render o))) as Hout by by constructor.
      unfold deliver in H. destruct (pauseIdle _ src1) as [s2 [c|]].
      { injection H as <- <-. eexists _, _. split_and!; [exact Hr1 | exact Hout |]. cbn. rewrite <- app_assoc. by apply prefix_app_r. }
      destruct (write (frame (render o)) (tn_write t) bs) as [out2 [err|]] eqn:Ew; apply write_cases in Ew.
      * injection H as <- <-. eexists _, _. split_and!; [exact Hr1 | exact Hout |]. cbn. by apply prefix_app_r.
      * subst out2. rewrite Hnot in H. injection H as <- <-. by exists g1.
  - injection H as <- <-. exists events, outs, (g_post g), bs. split_and!; [done | done |]. cbn. by apply prefix_app_r.
Qed.

Lemma Run_guarded alias collect g0 table ts p p' r events outs :
  (forall l, render (JObj l) <> done_text) -> guarded g0 table p events outs -> Run alias collect ts p = (p', r) ->
  exists events' outs',
    match r with None => guarded g0 table p' events' outs' | Some err => guarded_end g0 table p' err events' outs' end.
Proof.
  intros Hrender. revert p events outs. induction ts as [| t ts IH]; intros p events outs Hg; cbn [Run].
  { intros [= <- <-]. by eexists _, _. }
  destruct (run_turn alias collect t p) as [p1 fl] eqn:E.
  destruct (run_turn_guarded _ _ _ _ _ _ _ _ _ _ Hrender Hg E) as (ev1 & out1 & H1).
  destruct fl; [by eapply IH | intros [= <- <-]; by eexists _, _].
Qed.

End Proxy.

(** ** The end of a streamed request ([V1Handler.streamChat], from [sp.Run] on) *)

Inductive recorded := RecordSuccess | RecordFailure | RecordNothing.

Record stream_outcome := mkStreamOutcome {
  so_status : Z;
  so_type : string;
  so_recorded : recorded;
  so_frame : bool;
}.

(** [s.guard.finish(runErr)], which the handler calls on every guarded stream. *)
Definition run_cause (runErr : option run_error) : option cause :=
  match runErr with
  | None => None
  | Some (RGuard e) => Some (CGuardrail (ge_status e) (ge_code e))
  | Some _ => Some (COther "stream")
  end.

Definition finish_run (guard : option guardrailRun) (commits : bool) (table : list decision) (runErr : option run_error) :
    option run_error :=
  match guard with
  | None => runErr
  | Some g => option_map RGuard (finish (run_cause runErr) commits g table).2
  end.

(** [errors.Is(runErr, context.DeadlineExceeded)]. *)
Definition deadline_exceeded (e : run_error) : bool :=
  match e with
  | RStream errStreamFirstEventTimeout | RStream errStreamIdleTimeout => true
  | RStream (ParentDone cause) => (cause =? "context deadline exceeded")%string
  | _ => false
  end.

(** [ended] is the error of the request's context: whether it is its deadline. *)
Definition streamOutcome (ended : option bool) (runErr : option run_error) : stream_outcome :=
  match runErr with
  | None => mkStreamOutcome 200 "" RecordSuccess false
  | Some e =>
      let '(status, errType) := if deadline_exceeded e then (504, "upstream_timeout") else (502, "upstream_error") in
      match ended, e with
      | Some deadline, _ => mkStreamOutcome (if deadline : bool then 504 else 499) errType RecordNothing false
      | None, RWrite _ => mkStreamOutcome 499 errType RecordNothing false
      | None, RGuard g => mkStreamOutcome (ge_status g) (ge_code g) RecordNothing true
      | None, RReported => mkStreamOutcome status errType RecordFailure false
      | None, RStream _ => mkStreamOutcome status errType RecordFailure true
      end
  end.

(** With a guardrail, the handler passes every error of the stream through
    [finish], which turns it into an error of the guardrail: a deployment that
    stalls or breaks a guarded stream is never reported to the circuit breaker,
    and the request is recorded as a guardrail that was not available. *)
Lemma guarded_stream_failure_is_not_recorded g commits table e :
  (e = RReported \/ exists err, e = RStream err) ->
  so_recorded (streamOutcome None (finish_run None commits table (Some e))) = RecordFailure /\
  (streamOutcome None (finish_run (Some g) commits table (Some e))) =
    mkStreamOutcome 503 "guardrail_unavailable" RecordNothing true.
Proof.
  intros He. split.
  { destruct He as [-> | [err ->]]; [done |]. cbn [finish_run]. unfold streamOutcome. by destruct (deadline_exceeded (RStream err)). }
  assert (exists e', (finish (Some (COther "stream")) commits g table).2 = Some e' /\ e' = mkGuardrailError 503 "guardrail_unavailable")
    as (e' & Hf & ->).
  { unfold finish. destruct (g_postAudited g); [by eexists |].
    unfold audit. destruct (audit_results _ _); [by eexists |]. destruct commits; by eexists. }
  unfold finish_run. by destruct He as [-> | [err ->]]; cbn [run_cause]; rewrite Hf.
Qed.

(** C24. A guarded client reads only what the guardrail passed. Whatever the
    upstream sends, with or without keepalives and however reads, writes and
    audits fail: the bytes written are a prefix of keepalives and of frames that
    carry the guardrail's own output for the events of the stream, in their order,
    then [DONE]; no comment, event name, id or error text of the upstream is among
    them. The stream ends in success only when [DONE] was written, nothing is held
    back and the decisions are committed. *)
Theorem guarded_client_reads_guarded (decode : bytes -> option raw) (render : raw -> bytes) (utf8 : bytes -> bool)
    (size : raw -> Z) (fold_eq : rune -> rune -> bool) (alias : text) (collect : bool) (ts : list turn)
    (g : guardrailRun) (src : chatStream) (table : list decision) (obs : observed) (p : streamProxy) (r : option (option run_error))
    (Hrender : forall l, render (JObj l) <> done_text) (Hnew : g_postAudited g = false)
    (Hrun : Run decode render utf8 size fold_eq alias collect ts (mkStreamProxy src (Some g) table obs []) = (p, r)) :
  exists events outs f bs,
    respond_all size fold_eq events (g_post g) = Some (f, outs) /\ guarded_output render outs bs /\
    px_out p `prefix_of` bs ++ frame done_text /\
    (r = Some None -> px_out p = bs ++ frame done_text /\ Complete f = Ok tt /\ px_audit p = table ++ audit_rows g (Results f)).
Proof.
  assert (guarded render size fold_eq g table (mkStreamProxy src (Some g) table obs []) [] []) as H0.
  { exists g. repeat (split; [done || constructor |]). done. }
  destruct (Run_guarded _ _ _ _ _ _ _ _ _ _ _ _ _ _ _ Hrender H0 Hrun) as (events & outs & H). exists events, outs.
  destruct r as [err|].
  - destruct H as (f & bs & H1 & H2 & H3). exists f, bs. split_and!; [done | done | |].
    + destruct err; [done | destruct H3 as [-> _]; done].
    + by intros [= ->].
  - destruct H as (g' & _ & H1 & H2 & _). exists (g_post g'), (px_out p). split_and!; [done | done | by apply prefix_app_r | done].
Qed.

(** ** Evaluation *)

Definition example_chunk : raw := delta_event "hello" (JStr (txt "stop")).
Definition example_decode (data : bytes) : option raw := if bool_decide (data = str "[DONE]") then None else Some example_chunk.
Definition example_render (v : raw) : bytes := str "{}".
Definition example_observed : observed := mkObserved [] [] None 0 [] false [].
Definition example_turn (now : Z) (event : sseEvent) : turn :=
  mkTurn (mkArrival now now now (Ok event)) [] now true now WOk now now.
Definition example_guard : guardrailRun :=
  mkGuardrailRun 1 "fast" "req" (Guardrails.New [blocking "post"] "pre") (Guardrails.New [blocking "post"] "post") false.
Definition data_event (s : string) : sseEvent := mkSseEvent [] (str s) true.

Definition streaming (keepalive : Z) : chatStream := newChatStream None (mkStreamingConfig 0 0 0 keepalive) false 0 0.

(** A guarded stream of one chunk; the client does not read the comment. *)
Definition example_run : streamProxy * option (option run_error) :=
  Run example_decode example_render (fun _ => true) no_size ascii_fold [] false
    [example_turn 1 (mkSseEvent (str ": note") [] false); example_turn 2 (data_event "chunk"); example_turn 3 (data_event "[DONE]")]
    (mkStreamProxy (streaming 0) (Some example_guard) [] example_observed []).

Lemma guarded_client_reads_guarded_witness :
  exists events outs f bs, respond_all no_size ascii_fold events (g_post example_guard) = Some (f, outs) /\
    px_out example_run.1 = bs ++ frame done_text /\ Complete f = Ok tt /\ px_audit example_run.1 = audit_rows example_guard (Results f).
Proof.
  edestruct (guarded_client_reads_guarded example_decode example_render (fun _ => true) no_size ascii_fold [] false
    [example_turn 1 (mkSseEvent (str ": note") [] false); example_turn 2 (data_event "chunk"); example_turn 3 (data_event "[DONE]")]
    example_guard (streaming 0) [] example_observed example_run.1 (Some None)) as (events & outs & f & bs & H1 & _ & _ & H2).
  - intros l. vm_compute. discriminate.
  - reflexivity.
  - vm_compute. reflexivity.
  - destruct (H2 eq_refl) as (H3 & H4 & H5). exists events, outs, f, bs.
    split_and!; [exact H1 | exact H3 | exact H4 | exact H5].
Defined.

(** With keepalives the reader pauses the idle timer before it hands an event
    over, and only the write resumes it. A guarded stream skips an event without
    data before the write: after a comment of the upstream the timer stays paused
    while the next event is awaited, so a stalled upstream is not cut off. Without
    keepalives the same stream ends at its deadline. *)
Lemma comment_suspends_idle_timeout :
  let after keepalive := px_src (run_turn example_decode example_render (fun _ => true) no_size ascii_fold [] false
    (example_turn Second (mkSseEvent (str ": note") [] false))
    (mkStreamProxy (streaming keepalive) (Some example_guard) [] example_observed [])).1 in
  (forall now armed, cs_ctx (expire now armed (after Second)) = None) /\ cs_timer (after Second) = None /\
  cs_ctx (expire Hour Hour (after 0)) = Some errStreamFirstEventTimeout.
Proof. split_and!; [intros now armed; vm_compute | vm_compute..]; reflexivity. Qed.
