(* ===== verification/ClientIp.v ===== *)
(** * Client addresses ([auth/clientip.go], [auth/ip.go])

    Addresses, networks and the address a request is attributed to. [net.IP] is a
    number of 128 bits, an IPv4 address being the one with the prefix
    [::ffff:0:0/96], as [net.ParseIP] returns it; the parsers follow [net] and
    [net/netip]. A network holds exactly the addresses of its range. *)

From S2P Require Import Prelude GoStrings.
From Stdlib Require Import Ascii.

#[local] Open Scope Z_scope.

(** ** Parsing addresses *)

Abbreviation chars := (list ascii).
Definition chars_of (s : string) : chars := String.list_ascii_of_string s.

Definition digit (c : ascii) : option Z :=
  let n := Z.of_nat (nat_of_ascii c) in if (48 <=? n) && (n <=? 57) then Some (n - 48) else None.

Definition hex_digit (c : ascii) : option Z :=
  let n := Z.of_nat (nat_of_ascii c) in
  if (48 <=? n) && (n <=? 57) then Some (n - 48)
  else if (97 <=? n) && (n <=? 102) then Some (n - 87)
  else if (65 <=? n) && (n <=? 70) then Some (n - 55) else None.

(** The fields of a dotted address: at most three digits, no leading zero, at
    most 255; [count] fields are still to come after the one being read. *)
Fixpoint parse_v4 (s : chars) (len value acc : Z) (count : nat) : option Z :=
  match s with
  | [] => match count with O => if len =? 0 then None else Some (acc * 256 + value) | S _ => None end
  | c :: s =>
      if bool_decide (c = "."%char)
      then match count with
           | O => None
           | S count => if len =? 0 then None else parse_v4 s 0 0 (acc * 256 + value) count
           end
      else match digit c with
           | Some d =>
               if (len =? 1) && (value =? 0) then None
               else let value := value * 10 + d in
                    if 255 <? value then None else parse_v4 s (len + 1) value acc count
           | None => None
           end
  end.

Definition parseIPv4 (s : chars) : option Z := parse_v4 s 0 0 0 3.

(** The leading hexadecimal digits of a group of an IPv6 address: their value,
    their number and the rest; at most four. *)
Fixpoint hex_group (s : chars) (len acc : Z) : option (Z * Z * chars) :=
  match s with
  | [] => Some (acc, len, [])
  | c :: s' =>
      match hex_digit c with
      | Some d => if 3 <? len then None else hex_group s' (len + 1) (acc * 16 + d)
      | None => Some (acc, len, s)
      end
  end.

(** The groups of an IPv6 address, the last first, with the place of [::]. The
    loop reads at most eight groups. *)
Fixpoint parse_v6 (fuel : nat) (s : chars) (groups : list Z) (ellipsis : option nat) :
    option (list Z * option nat) :=
  match fuel with
  | O => match s with [] => Some (groups, ellipsis) | _ => None end
  | S fuel =>
      match hex_group s 0 0 with
      | None => None
      | Some (acc, len, rest) =>
          if len =? 0 then None
          else match rest with
          | "."%char :: _ =>
              if bool_decide (ellipsis = None) && negb (length groups =? 6)%nat then None
              else if (6 <? length groups)%nat then None
              else match parseIPv4 s with
                   | Some v => Some (v mod 65536 :: v / 65536 :: groups, ellipsis)
                   | None => None
                   end
          | [] => Some (acc :: groups, ellipsis)
          | c :: rest =>
              if negb (bool_decide (c = ":"%char)) then None
              else match rest with
              | [] => None
              | c :: rest' =>
                  if bool_decide (c = ":"%char)
                  then match ellipsis with
                       | Some _ => None
                       | None =>
                           match rest' with
                           | [] => Some (acc :: groups, Some (S (length groups)))
                           | _ => parse_v6 fuel rest' (acc :: groups) (Some (S (length groups)))
                           end
                       end
                  else parse_v6 fuel rest (acc :: groups) ellipsis
              end
          end
      end
  end.

Definition from_groups (groups : list Z) : Z := foldl (fun acc g => acc * 65536 + g) 0 groups.

(** The address of the groups, with [::] filled up. *)
Definition expand (groups : list Z) (ellipsis : option nat) : option Z :=
  let groups := reverse groups in
  let n := (8 - length groups)%nat in
  match ellipsis with
  | None => if (n =? 0)%nat then Some (from_groups groups) else None
  | Some at_ => if (n =? 0)%nat then None else Some (from_groups (take at_ groups ++ replicate n 0 ++ drop at_ groups))
  end.

Definition parseIPv6 (s : chars) : option Z :=
  match s with
  | ":"%char :: ":"%char :: [] => Some 0
  | ":"%char :: ":"%char :: rest =>
      match parse_v6 8 rest [] (Some O) with Some (g, e) => expand g e | None => None end
  | _ => match parse_v6 8 s [] None with Some (g, e) => expand g e | None => None end
  end.

(** The first of [.], [:] and [%] decides the family. *)
Inductive family := V4 | V6.
#[export] Instance family_eq_dec : EqDecision family.
Proof. solve_decision. Defined.

Fixpoint family_of (s : chars) : option family :=
  match s with
  | [] => None
  | c :: s =>
      if bool_decide (c = "."%char) then Some V4 else if bool_decide (c = ":"%char) then Some V6
      else if bool_decide (c = "%"%char) then None else family_of s
  end.

Definition v4_prefix : Z := 281470681743360.  (** [::ffff:0:0] *)

(** [netip.ParseAddr]: the family and the number of the address; a zone is
    refused by both callers. *)
Definition ParseAddr (s : string) : option (family * Z) :=
  let s := chars_of s in
  if bool_decide ("%"%char ∈ s) then None
  else match family_of s with
       | Some V4 => a ← parseIPv4 s; Some (V4, v4_prefix + a)
       | Some V6 => a ← parseIPv6 s; Some (V6, a)
       | None => None
       end.

Definition ParseIP (s : string) : option Z := option_map snd (ParseAddr s).

(** [ip.To4() != nil] *)
Definition is_v4 (ip : Z) : bool := ip / 2 ^ 32 =? v4_prefix / 2 ^ 32.

(** ** Networks *)

(** A network: the masked address, the length of the address it was written with
    and the length of the prefix. *)
Record IPNet := mkIPNet { net_ip : Z; net_bits : Z; net_prefix : Z }.

(** The mask of [net.CIDRMask]. *)
Definition CIDRMask (ones bits : Z) : Z := 2 ^ bits - 2 ^ (bits - ones).

(** [dtoi] on the whole string. *)
Fixpoint dtoi (s : chars) (n : Z) : option Z :=
  match s with
  | [] => Some n
  | c :: s => d ← digit c; let n := n * 10 + d in if 16777215 <=? n then None else dtoi s n
  end.

Definition split_slash (s : string) : option (string * string) :=
  match before_byte "/"%char s with
  | Some a => Some (a, String.substring (String.length a + 1) (String.length s) s)
  | None => None
  end.

Definition ParseCIDR (s : string) : option IPNet :=
  '(a, mask) ← split_slash s;
  '(fam, ip) ← ParseAddr a;
  n ← (match chars_of mask with [] => None | m => dtoi m 0 end);
  let bits := match fam with V4 => 32 | V6 => 128 end in
  if bits <? n then None
  else Some (mkIPNet (match fam with
                      | V4 => v4_prefix + Z.land (ip - v4_prefix) (CIDRMask n 32)
                      | V6 => Z.land ip (CIDRMask n 128)
                      end) bits n).

(** [IPNet.Contains]: both addresses in their short form, the network's mask cut
    to it, and equal lengths. *)
Definition Contains (n : IPNet) (ip : Z) : bool :=
  match is_v4 (net_ip n), is_v4 ip with
  | true, true =>
      let ones := if net_bits n =? 32 then net_prefix n else Z.max 0 (net_prefix n - 96) in
      let m := CIDRMask ones 32 in
      Z.land (net_ip n - v4_prefix) m =? Z.land (ip - v4_prefix) m
  | false, false => let m := CIDRMask (net_prefix n) 128 in Z.land (net_ip n) m =? Z.land ip m
  | _, _ => false
  end.

(** ** The address of a request *)

Record request_addr := mkRequestAddr {
  ra_RemoteAddr : string;
  ra_forwarded_for : string;
  ra_real_ip : string;
}.

(** The index of the first, and of the last, occurrence of a byte. *)
Fixpoint index_byte (c : ascii) (s : chars) : option nat :=
  match s with
  | [] => None
  | a :: s => if bool_decide (a = c) then Some O else option_map S (index_byte c s)
  end.

Definition last_index_byte (c : ascii) (s : chars) : option nat :=
  match index_byte c (reverse s) with Some i => Some (length s - 1 - i)%nat | None => None end.

(** The host of [net.SplitHostPort]. *)
Definition SplitHostPort (hostport : chars) : option chars :=
  i ← last_index_byte ":"%char hostport;
  match hostport with
  | "["%char :: _ =>
      end_ ← index_byte "]"%char hostport;
      if negb (S end_ =? i)%nat then None
      else if bool_decide ("["%char ∈ drop 1 hostport) || bool_decide ("]"%char ∈ drop (S end_) hostport) then None
      else Some (drop 1 (take end_ hostport))
  | _ =>
      let host := take i hostport in
      if bool_decide (":"%char ∈ host) || bool_decide ("["%char ∈ hostport) || bool_decide ("]"%char ∈ hostport) then None
      else Some host
  end.

Definition remoteHost (r : request_addr) : string :=
  match SplitHostPort (chars_of (ra_RemoteAddr r)) with
  | Some host => String.string_of_list_ascii host
  | None => ra_RemoteAddr r
  end.

Definition TrustedProxies (cidrs : list string) : list IPNet :=
  omap (fun c => let c := TrimSpace c in if (c =? "")%string then None else ParseCIDR c) cidrs.

Definition ipIn (addr : string) (nets : list IPNet) : bool :=
  match nets with
  | [] => false
  | _ => match ParseIP addr with Some ip => existsb (fun n => Contains n ip) nets | None => false end
  end.

Definition ClientIPFrom (r : request_addr) (trusted : list IPNet) : string :=
  let peer := remoteHost r in
  if negb (ipIn peer trusted) then peer
  else if negb (ra_forwarded_for r =? "")%string
  then match before_byte ","%char (ra_forwarded_for r) with
       | Some first => TrimSpace first
       | None => TrimSpace (ra_forwarded_for r)
       end
  else if negb (ra_real_ip r =? "")%string then TrimSpace (ra_real_ip r)
  else peer.

Definition ipAllowed (ip : string) (cidrs : list string) : bool :=
  match ParseIP ip with
  | None => false
  | Some parsed =>
      existsb (fun c => if negb (contains_byte "/"%char c)
                        then bool_decide (ParseIP c = Some parsed)
                        else match ParseCIDR c with Some n => Contains n parsed | None => false end) cidrs
  end.

(** ** Ranges *)

Lemma land_CIDRMask x ones bits :
  0 <= ones <= bits -> 0 <= x < 2 ^ bits -> Z.land x (CIDRMask ones bits) = x / 2 ^ (bits - ones) * 2 ^ (bits - ones).
Proof.
  intros Ho Hx. rewrite <- Z.shiftr_div_pow2, <- Z.shiftl_mul_pow2, <- Z.ldiff_ones_r by lia.
  apply Z.bits_inj'. intros i Hi. rewrite Z.land_spec, Z.ldiff_spec.
  assert (CIDRMask ones bits = Z.shiftl (Z.ones ones) (bits - ones)) as ->.
  { unfold CIDRMask. rewrite Z.shiftl_mul_pow2, Z.ones_equiv by lia.
    assert (2 ^ bits = 2 ^ ones * 2 ^ (bits - ones)) as -> by (rewrite <- Z.pow_add_r by lia; f_equal; lia). lia. }
  rewrite Z.shiftl_spec by lia. destruct (Z.ltb_spec i (bits - ones)).
  - rewrite (Z.testbit_neg_r _ (i - (bits - ones))), Z.ones_spec_low by lia. by rewrite !andb_false_r.
  - rewrite (Z.ones_spec_high (bits - ones)) by lia. cbn. rewrite andb_true_r.
    destruct (Z.ltb_spec i bits).
    + rewrite Z.ones_spec_low by lia. apply andb_true_r.
    + rewrite Z.ones_spec_high by lia. rewrite andb_false_r.
      rewrite <- (Z.mod_small x (2 ^ bits)) by done. by rewrite Z.mod_pow2_bits_high by lia.
Qed.

(** Two addresses under a mask are equal exactly when one is in the range of the
    other's network. *)
Lemma masked_eq x y ones bits :
  0 <= ones <= bits -> 0 <= x < 2 ^ bits -> 0 <= y < 2 ^ bits -> x mod 2 ^ (bits - ones) = 0 ->
  (Z.land x (CIDRMask ones bits) =? Z.land y (CIDRMask ones bits)) = true <-> x <= y < x + 2 ^ (bits - ones).
Proof.
  intros Ho Hx Hy Hm. rewrite !land_CIDRMask by done. set (k := 2 ^ (bits - ones)) in *.
  assert (0 < k) by (apply Z.pow_pos_nonneg; lia). rewrite Z.eqb_eq.
  pose proof (Z.div_mod x k). pose proof (Z.div_mod y k). pose proof (Z.mod_pos_bound y k). split; [nia |].
  intros Hr. assert (y / k = x / k) as -> by (symmetry; apply Z.div_unique with (y - x); [lia |]; lia). done.
Qed.

(** *** The parsers stay in range *)

Lemma digit_range c d : digit c = Some d -> 0 <= d <= 9.
Proof. unfold digit. case_match eqn:E; [| done]. intros [= <-]. lia. Qed.

Lemma hex_digit_range c d : hex_digit c = Some d -> 0 <= d <= 15.
Proof. unfold hex_digit. repeat case_match; try done; intros [= <-]; lia. Qed.

Lemma parse_v4_range s len value acc count a :
  0 <= value <= 255 -> 0 <= acc < 256 ^ (3 - Z.of_nat count) -> (count <= 3)%nat ->
  parse_v4 s len value acc count = Some a -> 0 <= a < 2 ^ 32.
Proof.
  revert len value acc count. induction s as [| c s IH]; intros len value acc count Hv Ha Hc; cbn [parse_v4].
  { destruct count; [| done]. destruct (len =? 0); [done |]. intros [= <-].
    change (256 ^ (3 - Z.of_nat 0)) with 16777216 in Ha. change (2 ^ 32) with 4294967296. lia. }
  case_bool_decide.
  - destruct count as [| count]; [done |]. destruct (len =? 0); [done |]. apply IH; [lia | | lia].
    replace (3 - Z.of_nat count) with (Z.succ (3 - Z.of_nat (S count))) by lia. rewrite Z.pow_succ_r by lia. lia.
  - destruct (digit c) as [d|] eqn:Ed; [| done]. apply digit_range in Ed. destruct (_ && _); [done |].
    destruct (Z.ltb_spec 255 (value * 10 + d)); [done |]. apply IH; lia.
Qed.

Definition group_ok (g : Z) : Prop := 0 <= g < 65536.

Lemma hex_group_range s len acc v n rest :
  0 <= len <= 4 -> 0 <= acc < 16 ^ len -> hex_group s len acc = Some (v, n, rest) -> group_ok v.
Proof.
  revert len acc. induction s as [| c s IH]; intros len acc Hl Ha; cbn [hex_group].
  { intros [= <- <- <-]. unfold group_ok. pose proof (Z.pow_le_mono_r 16 len 4). change (16 ^ 4) with 65536 in *. lia. }
  destruct (hex_digit c) as [d|] eqn:Ed.
  - apply hex_digit_range in Ed. destruct (Z.ltb_spec 3 len); [done |]. apply IH; [lia |].
    rewrite Z.add_1_r, Z.pow_succ_r by lia. lia.
  - intros [= <- <- <-]. unfold group_ok. pose proof (Z.pow_le_mono_r 16 len 4). change (16 ^ 4) with 65536 in *. lia.
Qed.

(** At most eight groups, and the place of [::] among them. *)
Definition groups_ok (groups : list Z) (ellipsis : option nat) : Prop :=
  Forall group_ok groups /\ (length groups <= 8)%nat /\
  match ellipsis with Some at_ => (at_ <= length groups)%nat | None => True end.

Lemma parse_v6_range fuel s groups ellipsis g e :
  groups_ok groups ellipsis -> (length groups + fuel = 8)%nat ->
  parse_v6 fuel s groups ellipsis = Some (g, e) -> groups_ok g e.
Proof.
  revert s groups ellipsis. induction fuel as [| fuel IH]; intros s groups ellipsis Hg Hf; cbn [parse_v6].
  { destruct s; [| done]. by intros [= <- <-]. }
  destruct Hg as (Hall & Hlen & Hat). destruct (hex_group s 0 0) as [[[v n] rest]|] eqn:E; [| done].
  apply hex_group_range in E; [| lia | cbn; lia]. destruct (n =? 0); [done |].
  assert (groups_ok (v :: groups) ellipsis) as Hok.
  { split_and!; [by constructor | cbn; lia |]. destruct ellipsis; cbn; [lia | done]. }
  destruct rest as [| c rest]; [by intros [= <- <-] |]. destruct (decide (c = "."%char)) as [-> | Hc].
  - destruct (_ && _); [done |]. destruct (Nat.ltb_spec 6 (length groups)); [done |].
    destruct (parseIPv4 s) as [a|] eqn:E4; [| done]. apply parse_v4_range in E4; [| lia | cbn; lia | lia].
    change (2 ^ 32) with 4294967296 in E4. intros [= <- <-]. split_and!.
    + constructor; [unfold group_ok; apply Z.mod_pos_bound; lia |]. constructor; [| done].
      split; [apply Z.div_pos; lia | apply Z.div_lt_upper_bound; lia].
    + cbn. lia.
    + destruct ellipsis; cbn; [lia | done].
  - assert (forall A (x y : A), match c with "."%char => x | _ => y end = y) as Hdot.
    { intros A x y. destruct c as [[] [] [] [] [] [] [] []]; done. }
    intros H. assert ((if negb (bool_decide (c = ":"%char)) then None
      else match rest with
           | [] => None
           | c :: rest' =>
               if bool_decide (c = ":"%char)
               then match ellipsis with
                    | Some _ => None
                    | None => match rest' with
                              | [] => Some (v :: groups, Some (S (length groups)))
                              | _ => parse_v6 fuel rest' (v :: groups) (Some (S (length groups)))
                              end
                    end
               else parse_v6 fuel rest (v :: groups) ellipsis
           end) = Some (g, e)) as H'.
    { rewrite <- H. by destruct c as [[] [] [] [] [] [] [] []]. }
    clear H. revert H'. destruct (negb _); [done |]. destruct rest as [| c' rest]; [done |].
    case_bool_decide.
    + destruct ellipsis; [done |]. assert (groups_ok (v :: groups) (Some (S (length groups)))) as Hok'.
      { destruct Hok as (? & ? & _). split_and!; [done | done | cbn; lia]. }
      destruct rest as [| c2 rest]; [by intros [= <- <-] |]. apply IH; [done | cbn; lia].
    + apply IH; [done | cbn; lia].
Qed.

Lemma from_groups_range l acc n :
  Forall group_ok l -> 0 <= acc < 65536 ^ n -> 0 <= n ->
  0 <= foldl (fun acc g => acc * 65536 + g) acc l < 65536 ^ (n + Z.of_nat (length l)).
Proof.
  intros Hl. revert acc n. induction Hl as [| g l Hg _ IH]; intros acc n Ha Hn; cbn [foldl length].
  { by rewrite Z.add_0_r. }
  specialize (IH (acc * 65536 + g) (n + 1)). unfold group_ok in Hg.
  replace (n + Z.of_nat (S (length l))) with (n + 1 + Z.of_nat (length l)) by lia. apply IH; [| lia].
  rewrite Z.add_1_r, Z.pow_succ_r by lia. lia.
Qed.

Lemma expand_range g e a : groups_ok g e -> expand g e = Some a -> 0 <= a < 2 ^ 128.
Proof.
  intros (Hall & Hlen & Hat) H.
  assert (forall l, Forall group_ok l -> length l = 8%nat -> 0 <= from_groups l < 2 ^ 128) as Hfrom.
  { intros l Hl H8. pose proof (from_groups_range l 0 0 Hl ltac:(cbn; lia) ltac:(lia)) as Hr. rewrite H8 in Hr. exact Hr. }
  unfold expand in H. rewrite length_reverse in H. destruct e as [at_|].
  - destruct (Nat.eqb_spec (8 - length g) 0); [done |]. injection H as <-. apply Hfrom.
    + rewrite !Forall_app. split_and!; [by apply Forall_take, Forall_reverse | | by apply Forall_drop, Forall_reverse].
      apply Forall_replicate. unfold group_ok. lia.
    + rewrite !length_app, length_take, length_drop, length_replicate, length_reverse. lia.
  - destruct (Nat.eqb_spec (8 - length g) 0); [| done]. injection H as <-. apply Hfrom; [by apply Forall_reverse |].
    rewrite length_reverse. lia.
Qed.

Lemma parseIPv6_range s a : parseIPv6 s = Some a -> 0 <= a < 2 ^ 128.
Proof.
  assert (forall s e a, groups_ok [] e -> match parse_v6 8 s [] e with Some (g, e) => expand g e | None => None end = Some a ->
    0 <= a < 2 ^ 128) as Hgo.
  { intros s0 e0 a0 Hok. destruct (parse_v6 8 s0 [] e0) as [[g e]|] eqn:E; [| done]. apply parse_v6_range in E; [| done | done].
    by apply expand_range. }
  assert (groups_ok [] None /\ groups_ok [] (Some 0%nat)) as [Hn Hs] by (repeat split; try constructor; cbn; lia).
  unfold parseIPv6. intros H.
  destruct s as [| c1 s]; [by apply Hgo in H |]. destruct (decide (c1 = ":"%char)) as [-> | H1].
  - destruct s as [| c2 s]; [by apply Hgo in H |]. destruct (decide (c2 = ":"%char)) as [-> | H2].
    + destruct s; [injection H as <-; lia | by apply Hgo in H].
    + apply (Hgo (":"%char :: c2 :: s) None); [done |]. rewrite <- H. by destruct c2 as [[] [] [] [] [] [] [] []].
  - apply (Hgo (c1 :: s) None); [done |]. rewrite <- H. by destruct c1 as [[] [] [] [] [] [] [] []].
Qed.

Lemma v4_form a : 0 <= a < 2 ^ 32 -> is_v4 (v4_prefix + a) = true /\ 0 <= v4_prefix + a < 2 ^ 128.
Proof.
  intros Ha. unfold is_v4. change (v4_prefix / 2 ^ 32) with 65535. change v4_prefix with (65535 * 2 ^ 32).
  rewrite Z.div_add_l, Z.div_small by lia. split; [done |].
  change (2 ^ 128) with (2 ^ 96 * 2 ^ 32). change (2 ^ 96) with 79228162514264337593543950336. lia.
Qed.

Lemma is_v4_form ip : is_v4 ip = true -> 0 <= ip - v4_prefix < 2 ^ 32.
Proof.
  unfold is_v4. rewrite Z.eqb_eq. change (v4_prefix / 2 ^ 32) with 65535. change v4_prefix with (65535 * 2 ^ 32). intros H.
  pose proof (Z.div_mod ip (2 ^ 32)). pose proof (Z.mod_pos_bound ip (2 ^ 32)). lia.
Qed.

Lemma ParseAddr_range s f a :
  ParseAddr s = Some (f, a) ->
  match f with V4 => is_v4 a = true /\ 0 <= a < 2 ^ 128 | V6 => 0 <= a < 2 ^ 128 end.
Proof.
  unfold ParseAddr. case_bool_decide; [done |]. destruct (family_of _) as [[]|]; [| |done].
  - destruct (parseIPv4 _) as [x|] eqn:E; cbn; [| done]. intros [= <- <-].
    apply v4_form. eapply parse_v4_range; [| | | exact E]; cbn; lia.
  - destruct (parseIPv6 _) as [x|] eqn:E; cbn; [| done]. intros [= <- <-]. by eapply parseIPv6_range.
Qed.

Lemma ParseIP_range s a : ParseIP s = Some a -> 0 <= a < 2 ^ 128.
Proof.
  unfold ParseIP. destruct (ParseAddr s) as [[f x]|] eqn:E; cbn; [| done]. intros [= <-].
  apply ParseAddr_range in E. destruct f; [apply E | done].
Qed.

(** The network of a CIDR text: its address is the first of its range. *)
Definition net_ok (n : IPNet) : Prop :=
  0 <= net_prefix n <= net_bits n /\ 0 <= net_ip n < 2 ^ 128 /\ net_ip n mod 2 ^ (net_bits n - net_prefix n) = 0 /\
  (net_bits n = 128 \/ net_bits n = 32 /\ is_v4 (net_ip n) = true).

Lemma masked_range x ones bits :
  0 <= ones <= bits -> 0 <= x < 2 ^ bits ->
  0 <= Z.land x (CIDRMask ones bits) <= x /\ Z.land x (CIDRMask ones bits) mod 2 ^ (bits - ones) = 0.
Proof.
  intros Ho Hx. rewrite land_CIDRMask by done. assert (0 < 2 ^ (bits - ones)) by (apply Z.pow_pos_nonneg; lia).
  pose proof (Z.div_mod x (2 ^ (bits - ones))). pose proof (Z.mod_pos_bound x (2 ^ (bits - ones))).
  pose proof (Z.div_pos x (2 ^ (bits - ones))). split; [nia |]. by apply Z.mod_mul; lia.
Qed.

Lemma dtoi_nonneg s n m : 0 <= n -> dtoi s n = Some m -> 0 <= m.
Proof.
  revert n. induction s as [| c s IH]; intros n Hn; cbn [dtoi]; [intros [= <-]; done |].
  destruct (digit c) as [d|] eqn:E; cbn; [| done]. apply digit_range in E.
  destruct (16777215 <=? n * 10 + d); [done |]. apply IH. lia.
Qed.

Lemma ParseCIDR_ok s n : ParseCIDR s = Some n -> net_ok n.
Proof.
  unfold ParseCIDR. destruct (split_slash s) as [[a mask]|]; cbn; [| done].
  destruct (ParseAddr a) as [[f ip]|] eqn:Ea; cbn; [| done]. apply ParseAddr_range in Ea.
  destruct (match chars_of mask with [] => None | _ => _ end) as [p|] eqn:Ep; cbn; [| done].
  assert (0 <= p) as Hp by (destruct (chars_of mask) as [| c l]; [done |]; by apply (dtoi_nonneg (c :: l) 0)).
  destruct f; cbn [net_bits].
  - destruct (Z.ltb_spec 32 p); [done |]. intros [= <-]. destruct Ea as [Hv Hr]. apply is_v4_form in Hv.
    destruct (masked_range (ip - v4_prefix) p 32) as [Hm Hz]; [lia | done |]. unfold net_ok. cbn [net_ip net_bits net_prefix].
    destruct (v4_form (Z.land (ip - v4_prefix) (CIDRMask p 32))) as [Hf1 Hf2]; [lia |]. split_and!; [lia.. | | by right].
    rewrite Z.add_mod, Hz by (apply Z.pow_nonzero; lia). rewrite Z.add_0_r, Z.mod_mod by (apply Z.pow_nonzero; lia).
    change v4_prefix with (65535 * 2 ^ 32). replace (2 ^ 32) with (2 ^ p * 2 ^ (32 - p)) by (rewrite <- Z.pow_add_r by lia; f_equal; lia).
    rewrite Z.mul_assoc. apply Z.mod_mul, Z.pow_nonzero; lia.
  - destruct (Z.ltb_spec 128 p); [done |]. intros [= <-]. destruct (masked_range ip p 128) as [Hm Hz]; [lia | done |].
    unfold net_ok. cbn [net_ip net_bits net_prefix]. split_and!; [lia.. | done | by left].
Qed.

(** A network written as IPv6 whose address is an IPv4 address has at least the
    96 bits of the prefix. *)
Lemma mapped_prefix n : net_ok n -> is_v4 (net_ip n) = true -> net_bits n = 128 -> 96 <= net_prefix n.
Proof.
  intros (Hp & _ & Hm & _) Hv Hb. rewrite Hb in *. destruct (Z.ltb_spec (net_prefix n) 96); [| lia]. exfalso.
  apply is_v4_form in Hv. revert Hv. change v4_prefix with (65535 * 2 ^ 32).
  apply Z.mod_divide in Hm as [q Hq]; [| apply Z.pow_nonzero; lia].
  replace (2 ^ (128 - net_prefix n)) with (2 ^ (95 - net_prefix n) * 2 ^ 33) in Hq by (rewrite <- Z.pow_add_r by lia; f_equal; lia).
  rewrite Hq, Z.mul_assoc. generalize (q * 2 ^ (95 - net_prefix n)). intros z. lia.
Qed.

Lemma Contains_range n ip :
  net_ok n -> 0 <= ip < 2 ^ 128 ->
  Contains n ip = true <->
  is_v4 ip = is_v4 (net_ip n) /\ net_ip n <= ip < net_ip n + 2 ^ (net_bits n - net_prefix n).
Proof.
  intros Hok Hip. pose proof Hok as (Hp & Hr & Hm & Hb). unfold Contains.
  destruct (is_v4 (net_ip n)) eqn:Ev, (is_v4 ip) eqn:Ei; try (split; [done | intros [[=] _]]).
  - pose proof (is_v4_form _ Ev) as Hn. pose proof (is_v4_form _ Ei) as Hi.
    set (ones := if net_bits n =? 32 then net_prefix n else Z.max 0 (net_prefix n - 96)).
    assert (0 <= ones <= 32 /\ 32 - ones = net_bits n - net_prefix n) as [Hones Heq].
    { subst ones. destruct Hb as [Hb | [Hb _]]; rewrite Hb in *; cbn; [| lia].
      pose proof (mapped_prefix n Hok Ev Hb). lia. }
    assert ((net_ip n - v4_prefix) mod 2 ^ (32 - ones) = 0) as Hmod.
    { rewrite Heq, Zminus_mod, Hm, <- Heq. change v4_prefix with (65535 * 2 ^ 32).
      replace (2 ^ 32) with (2 ^ ones * 2 ^ (32 - ones)) by (rewrite <- Z.pow_add_r by lia; f_equal; lia).
      rewrite Z.mul_assoc, Z.mod_mul by (apply Z.pow_nonzero; lia). apply Z.mod_0_l, Z.pow_nonzero; lia. }
    rewrite (masked_eq _ _ ones 32 Hones Hn Hi Hmod), Heq. split; [intros; split; [done | lia] | intros [_ ?]; lia].
  - destruct Hb as [Hb | [_ Hb]]; [| done]. rewrite Hb in *. rewrite masked_eq by done. split; [by intros | by intros [_ ?]].
Qed.

(** An allowlist admits exactly its ranges. A request from [ip] passes the
    allowlist of a key exactly when [ip] is an address and some entry is either
    that address or a network that parses and whose range, from its first address
    on, holds it in the same family; an entry that does not parse admits nobody. *)
Theorem allowlist_admits_its_ranges (ip : string) (cidrs : list string) :
  ipAllowed ip cidrs = true <->
  exists a c, ParseIP ip = Some a /\ c ∈ cidrs /\
    if contains_byte "/"%char c
    then exists n, ParseCIDR c = Some n /\ is_v4 a = is_v4 (net_ip n) /\
           net_ip n <= a < net_ip n + 2 ^ (net_bits n - net_prefix n)
    else ParseIP c = Some a.
Proof.
  unfold ipAllowed. destruct (ParseIP ip) as [a|] eqn:Ea; [| split; [done | by intros (? & ? & ? & _)]].
  pose proof (ParseIP_range _ _ Ea) as Hr. rewrite existsb_exists. split.
  - intros (c & Hin & Hc). exists a, c. split_and!; [done | by apply list_elem_of_In |].
    destruct (contains_byte "/"%char c); cbn in Hc; [| by apply bool_decide_eq_true in Hc].
    destruct (ParseCIDR c) as [n|] eqn:En; [| done]. exists n. split; [done |].
    by apply Contains_range in Hc; [| by eapply ParseCIDR_ok |].
  - intros (a' & c & [= <-] & Hin & Hc). exists c. split; [by apply list_elem_of_In |].
    destruct (contains_byte "/"%char c); cbn; [| by apply bool_decide_eq_true].
    destruct Hc as (n & Hn & Hc). rewrite Hn. apply Contains_range; [by eapply ParseCIDR_ok | done | done].
Qed.

(** Behind a trusted proxy that appends the peer to the header, as proxies do, the
    first entry is whatever the client sent: it chooses the address its requests
    are attributed to and that allowlists see. *)
Lemma forwarded_for_is_chosen_by_the_client :
  let trusted := TrustedProxies ["10.0.0.0/8"] in
  let request := mkRequestAddr "10.0.0.7:40000" "192.0.2.1, 203.0.113.9" "" in
  ClientIPFrom request trusted = "192.0.2.1" /\ ipAllowed (ClientIPFrom request trusted) ["192.0.2.0/24"] = true /\
  ipAllowed "203.0.113.9" ["192.0.2.0/24"] = false.
Proof. vm_compute. done. Qed.

(** Addresses as [net] reads them. *)
Lemma parse_examples :
  ParseIP "::ffff:192.0.2.1" = ParseIP "192.0.2.1" /\ ParseIP "2001:db8::1" = Some 42540766411282592856903984951653826561 /\
  ParseIP "01.2.3.4" = None /\ ParseIP "1.2.3" = None /\ ParseIP "1:2:3:4:5:6:7:8::" = None /\ ParseIP "fe80::1%eth0" = None /\
  ipAllowed "192.0.2.77" ["2001:db8::/32"; "192.0.2.64/26"] = true /\ ipAllowed "192.0.2.77" ["::/0"; "192.0.2.0/x"] = false /\
  SplitHostPort (chars_of "[::1]:80") = Some (chars_of "::1") /\ SplitHostPort (chars_of "::1:80") = None.
Proof. vm_compute. done. Qed.
