(* ===== verification/Identity.v ===== *)
(** * Keys, users, sessions, invites and resets in the store

    The rows of [store/keys.go], [store/key_budget.go], [store/users.go],
    [store/sessions.go], [store/invites.go], [store/password_resets.go] and
    [store/service_accounts.go] and the statements on them. A table is a map from
    its serial key; [NOW()] is an argument. A statement that the database refuses
    (a unique constraint, a missing row) is an error; a database that does not
    answer changes nothing. Hashes stand for themselves: what is hashed is in
    [Auth]. *)

From S2P Require Import Prelude GoStrings Models.

Inductive store_error :=
| NotFound
| Conflict
| Rejected (msg : string).

(** ** Rows *)

(** [virtual_keys]: the columns that a join fills are empty in the row. *)
Record key_row := mkKeyRow { kr_hash : string; kr_key : VirtualKey }.

(** [users]: the team's slug is filled by a join. *)
Record user_row := mkUserRow { ur_user : User; ur_password : option string }.

Record session_row := mkSessionRow { se_user : Z; se_expires : Z; se_last_seen : option Z }.

Record Invite := mkInvite {
  iv_hash : string;
  iv_prefix : string;
  iv_Email : string;
  iv_TeamID : option Z;
  iv_Role : string;
  iv_ExpiresAt : Z;
  iv_AcceptedAt : option Z;
  iv_AcceptedBy : option Z;
}.

Record reset_row := mkResetRow { rw_user : Z; rw_hash : string; rw_expires : Z; rw_used : option Z }.

Record tables := mkTables {
  tb_teams : gmap Z Team;
  tb_users : gmap Z user_row;
  tb_accounts : gmap Z ServiceAccount;
  tb_keys : gmap Z key_row;
  tb_sessions : gmap string session_row;
  tb_invites : gmap Z Invite;
  tb_resets : gmap Z reset_row;
  tb_customers : gmap Z Customer;
  tb_seq : Z;
}.

Definition set_users (u : gmap Z user_row) (s : tables) : tables :=
  mkTables (tb_teams s) u (tb_accounts s) (tb_keys s) (tb_sessions s) (tb_invites s) (tb_resets s) (tb_customers s) (tb_seq s).
Definition set_keys (k : gmap Z key_row) (s : tables) : tables :=
  mkTables (tb_teams s) (tb_users s) (tb_accounts s) k (tb_sessions s) (tb_invites s) (tb_resets s) (tb_customers s) (tb_seq s).
Definition set_sessions (x : gmap string session_row) (s : tables) : tables :=
  mkTables (tb_teams s) (tb_users s) (tb_accounts s) (tb_keys s) x (tb_invites s) (tb_resets s) (tb_customers s) (tb_seq s).
Definition set_invites (x : gmap Z Invite) (s : tables) : tables :=
  mkTables (tb_teams s) (tb_users s) (tb_accounts s) (tb_keys s) (tb_sessions s) x (tb_resets s) (tb_customers s) (tb_seq s).
Definition set_resets (x : gmap Z reset_row) (s : tables) : tables :=
  mkTables (tb_teams s) (tb_users s) (tb_accounts s) (tb_keys s) (tb_sessions s) (tb_invites s) x (tb_customers s) (tb_seq s).
Definition set_accounts (x : gmap Z ServiceAccount) (s : tables) : tables :=
  mkTables (tb_teams s) (tb_users s) x (tb_keys s) (tb_sessions s) (tb_invites s) (tb_resets s) (tb_customers s) (tb_seq s).
Definition set_teams (x : gmap Z Team) (s : tables) : tables :=
  mkTables x (tb_users s) (tb_accounts s) (tb_keys s) (tb_sessions s) (tb_invites s) (tb_resets s) (tb_customers s) (tb_seq s).
Definition set_customers (x : gmap Z Customer) (s : tables) : tables :=
  mkTables (tb_teams s) (tb_users s) (tb_accounts s) (tb_keys s) (tb_sessions s) (tb_invites s) (tb_resets s) x (tb_seq s).
(** The next value of a sequence. *)
Definition next_id (s : tables) : tables :=
  mkTables (tb_teams s) (tb_users s) (tb_accounts s) (tb_keys s) (tb_sessions s) (tb_invites s) (tb_resets s) (tb_customers s) (tb_seq s + 1).

(** The row that a query on a column finds. *)
Definition find_row {A} (p : A -> bool) (m : gmap Z A) : option (Z * A) := head (filter (fun kv => p kv.2 = true) (map_to_list m)).

Lemma find_row_Some {A} (p : A -> bool) (m : gmap Z A) k a : find_row p m = Some (k, a) -> m !! k = Some a /\ p a = true.
Proof.
  unfold find_row. intros H%head_Some_elem_of. apply list_elem_of_filter in H as [Hp Hin]. by apply elem_of_map_to_list in Hin.
Qed.

Lemma find_row_None {A} (p : A -> bool) (m : gmap Z A) k a : find_row p m = None -> m !! k = Some a -> p a = false.
Proof.
  unfold find_row. intros H Hk. destruct (p a) eqn:Hp; [| done]. exfalso. apply head_None in H.
  assert ((k, a) ∈ filter (fun kv => p kv.2 = true) (map_to_list m)) as Hin.
  { apply list_elem_of_filter. split; [done |]. by apply elem_of_map_to_list. }
  rewrite H in Hin. by apply elem_of_nil in Hin.
Qed.

(** A row that satisfies a unique condition is found. *)
Lemma find_row_unique {A} (p : A -> bool) (m : gmap Z A) k a :
  m !! k = Some a -> p a = true -> (forall k' a', m !! k' = Some a' -> p a' = true -> k' = k) -> find_row p m = Some (k, a).
Proof.
  intros Hk Hp Hu. destruct (find_row p m) as [[k' a']|] eqn:E.
  - apply find_row_Some in E as [Hk' Hp']. rewrite (Hu k' a') in * by done. congruence.
  - by rewrite (find_row_None p m k a E Hk) in Hp.
Qed.

(** ** Virtual keys ([store/keys.go]) *)

Definition MaxKeyBudgetCents : Z := 9007199254740991.

Definition ValidateKeyBudget (limit : option Z) : bool :=
  match limit with Some l => negb ((l <? 0) || (MaxKeyBudgetCents <? l)) | None => true end.

Record CreateVirtualKeyParams := mkCreateKey {
  ck_TeamID : Z;
  ck_UserID : option Z;
  ck_ServiceAccountID : option Z;
  ck_KeyHash : string;
  ck_Prefix : string;
  ck_Name : string;
  ck_Metadata : string;
  ck_AllowedModels : list string;
  ck_ScopedRPM : option Z;
  ck_ScopedTPM : option Z;
  ck_MaxParallelRequests : option Z;
  ck_ScopedUsdLimitCents : option Z;
  ck_ExpiresAt : option Z;
}.

(** An insert into [virtual_keys]: a hash is there at most once. *)
Definition insert_key (hash : string) (mk : Z -> VirtualKey) (s : tables) : tables * result store_error VirtualKey :=
  match find_row (fun r => (kr_hash r =? hash)%string) (tb_keys s) with
  | Some _ => (s, Err Conflict)
  | None =>
      let id := tb_seq s in
      (next_id (set_keys (<[id := mkKeyRow hash (mk id)]> (tb_keys s)) s), Ok (mk id))
  end.

Definition CreateVirtualKey (now : Z) (p : CreateVirtualKeyParams) (s : tables) : tables * result store_error VirtualKey :=
  if negb (ValidateKeyBudget (ck_ScopedUsdLimitCents p)) then (s, Err (Rejected "usd_limit_cents"))
  else insert_key (ck_KeyHash p)
    (fun id => mkVirtualKey id (ck_TeamID p) (ck_UserID p) (ck_ServiceAccountID p) (ck_Prefix p) (ck_Name p) (ck_Metadata p)
       (normalizeAllowedModels (ck_AllowedModels p)) [] (ck_ScopedRPM p) (ck_ScopedTPM p) (ck_MaxParallelRequests p)
       (ck_ScopedUsdLimitCents p) (ck_ExpiresAt p) None None now None None "" "" "" None) s.

(** A change of one row that is not revoked. *)
Definition update_live (id : Z) (f : VirtualKey -> VirtualKey) (s : tables) : tables * result store_error VirtualKey :=
  match tb_keys s !! id with
  | Some r =>
      match vk_RevokedAt (kr_key r) with
      | None => (set_keys (<[id := mkKeyRow (kr_hash r) (f (kr_key r))]> (tb_keys s)) s, Ok (f (kr_key r)))
      | Some _ => (s, Err NotFound)
      end
  | None => (s, Err NotFound)
  end.

Record UpdateVirtualKeyParams := mkUpdateKey {
  uk_Name : string;
  uk_Metadata : string;
  uk_AllowedModels : list string;
  uk_ScopedRPM : option Z;
  uk_ScopedTPM : option Z;
  uk_MaxParallelRequests : option Z;
  uk_ScopedUsdLimitCents : option Z;
  uk_ExpiresAt : option Z;
}.

(** The columns an update may set. *)
Definition with_policy (p : UpdateVirtualKeyParams) (k : VirtualKey) : VirtualKey :=
  mkVirtualKey (vk_ID k) (vk_TeamID k) (vk_UserID k) (vk_ServiceAccountID k) (vk_KeyPrefix k) (uk_Name p) (uk_Metadata p)
    (normalizeAllowedModels (uk_AllowedModels p)) (vk_AllowedCIDRs k) (uk_ScopedRPM p) (uk_ScopedTPM p) (uk_MaxParallelRequests p)
    (uk_ScopedUsdLimitCents p) (uk_ExpiresAt p) (vk_RotatedFromKeyID k) (vk_LastUsedAt k) (vk_CreatedAt k) (vk_RevokedAt k)
    (vk_DisabledAt k) (vk_OwnerUserEmail k) (vk_OwnerUserName k) (vk_ServiceAccountName k) (vk_OwnerMaxParallelRequests k).

(** A key with other ranges, budget, expiry and marks. *)
Definition with_state (cidrs : list string) (budget expires revoked disabled : option Z) (k : VirtualKey) : VirtualKey :=
  mkVirtualKey (vk_ID k) (vk_TeamID k) (vk_UserID k) (vk_ServiceAccountID k) (vk_KeyPrefix k) (vk_Name k) (vk_Metadata k)
    (vk_AllowedModels k) cidrs (vk_ScopedRPM k) (vk_ScopedTPM k) (vk_MaxParallelRequests k)
    budget expires (vk_RotatedFromKeyID k) (vk_LastUsedAt k) (vk_CreatedAt k) revoked
    disabled (vk_OwnerUserEmail k) (vk_OwnerUserName k) (vk_ServiceAccountName k) (vk_OwnerMaxParallelRequests k).

Definition UpdateVirtualKey (id : Z) (p : UpdateVirtualKeyParams) (s : tables) : tables * result store_error VirtualKey :=
  if negb (ValidateKeyBudget (uk_ScopedUsdLimitCents p)) then (s, Err (Rejected "usd_limit_cents"))
  else update_live id (with_policy p) s.

Definition SetKeyAllowedCIDRs (id : Z) (cidrs : list string) (s : tables) : tables * result store_error VirtualKey :=
  update_live id (fun k => with_state cidrs (vk_ScopedUsdLimitCents k) (vk_ExpiresAt k) (vk_RevokedAt k) (vk_DisabledAt k) k) s.

Definition SetKeyPaused (now id : Z) (paused : bool) (s : tables) : tables * result store_error VirtualKey :=
  update_live id (fun k =>
    with_state (vk_AllowedCIDRs k) (vk_ScopedUsdLimitCents k) (vk_ExpiresAt k) (vk_RevokedAt k)
      (if paused then Some (default now (vk_DisabledAt k)) else None) k) s.

Definition RevokeKey (now id : Z) (s : tables) : tables * result store_error VirtualKey :=
  update_live id (fun k =>
    with_state (vk_AllowedCIDRs k) (vk_ScopedUsdLimitCents k) (vk_ExpiresAt k) (Some now) (vk_DisabledAt k) k) s.

Definition SetVirtualKeyBudget (id teamID : Z) (limit : option Z) (s : tables) : tables * result store_error VirtualKey :=
  if negb (ValidateKeyBudget limit) then (s, Err (Rejected "usd_limit_cents"))
  else match tb_keys s !! id with
       | Some r =>
           if vk_TeamID (kr_key r) =? teamID
           then update_live id (fun k =>
                  with_state (vk_AllowedCIDRs k) limit (vk_ExpiresAt k) (vk_RevokedAt k) (vk_DisabledAt k) k) s
           else (s, Err NotFound)
       | None => (s, Err NotFound)
       end.

(** What the rotation leaves of the old key. *)
Definition retire (now : Z) (grace : option Z) (k : VirtualKey) : VirtualKey :=
  match grace with
  | Some g =>
      if 0 <? g
      then with_state (vk_AllowedCIDRs k) (vk_ScopedUsdLimitCents k)
             (Some (match vk_ExpiresAt k with Some e => Z.min e (now + g) | None => now + g end)) (vk_RevokedAt k) (vk_DisabledAt k) k
      else with_state (vk_AllowedCIDRs k) (vk_ScopedUsdLimitCents k) (vk_ExpiresAt k) (Some now) (vk_DisabledAt k) k
  | None => with_state (vk_AllowedCIDRs k) (vk_ScopedUsdLimitCents k) (vk_ExpiresAt k) (Some now) (vk_DisabledAt k) k
  end.

(** [RotateVirtualKey], one transaction: the instant of the expiry check is
    [checked], that of the statements [now]. *)
Definition RotateVirtualKey (checked now id teamID : Z) (hash prefix : string) (grace : option Z) (s : tables) :
    tables * result store_error VirtualKey :=
  match tb_keys s !! id with
  | Some r =>
      let k := kr_key r in
      if negb (vk_TeamID k =? teamID) then (s, Err NotFound)
      else if bool_decide (is_Some (vk_RevokedAt k)) then (s, Err NotFound)
      else if bool_decide (is_Some (vk_DisabledAt k)) then (s, Err (Rejected "key is paused; resume it before rotating"))
      else if match vk_ExpiresAt k with Some e => Before e checked | None => false end
      then (s, Err (Rejected "cannot rotate expired key"))
      else
        match insert_key hash (fun new =>
                mkVirtualKey new teamID (vk_UserID k) (vk_ServiceAccountID k) prefix (vk_Name k) (vk_Metadata k) (vk_AllowedModels k)
                  (vk_AllowedCIDRs k) (vk_ScopedRPM k) (vk_ScopedTPM k) (vk_MaxParallelRequests k) (vk_ScopedUsdLimitCents k)
                  (vk_ExpiresAt k) (Some id) None now None None "" "" "" None) s with
        | (_, Err e) => (s, Err e)
        | (s', Ok new) => ((update_live id (retire now grace) s').1, Ok new)
        end
  | None => (s, Err NotFound)
  end.

(** The joins of [LookupKey]. *)
Definition with_owner (k : VirtualKey) (owner : option User) (account : option ServiceAccount) : VirtualKey :=
  mkVirtualKey (vk_ID k) (vk_TeamID k) (vk_UserID k) (vk_ServiceAccountID k) (vk_KeyPrefix k) (vk_Name k) (vk_Metadata k)
    (vk_AllowedModels k) (vk_AllowedCIDRs k) (vk_ScopedRPM k) (vk_ScopedTPM k) (vk_MaxParallelRequests k)
    (vk_ScopedUsdLimitCents k) (vk_ExpiresAt k) (vk_RotatedFromKeyID k) (vk_LastUsedAt k) (vk_CreatedAt k) (vk_RevokedAt k)
    (vk_DisabledAt k)
    (match owner with Some u => us_Email u | None => "" end) (match owner with Some u => us_Name u | None => "" end)
    (match account with Some a => sa_Name a | None => "" end)
    (match vk_UserID k with
     | Some _ => match owner with Some u => us_MaxParallelRequests u | None => None end
     | None => match account with Some a => sa_MaxParallelRequests a | None => None end
     end).

(** The owner as [LookupKey] fills it: neither its slug nor whether it is disabled. *)
Definition key_owner (u : User) : User :=
  mkUser (us_ID u) (us_Email u) (us_Name u) (us_TeamID u) "" (us_Role u) (us_Role u =? RoleAdmin)%string (us_UsdLimitCents u)
    (us_Period u) (us_MaxParallelRequests u) "" false None (us_CreatedAt u) (us_LastLoginAt u) (us_ArchivedAt u).

(** The team of the join; whether payloads are captured is read elsewhere. *)
Definition key_team (t : Team) : Team :=
  mkTeam (tm_ID t) (tm_Slug t) (tm_Name t) (tm_UsdLimitCents t) (tm_Period t) (tm_AllowedModels t) (tm_RPM t) (tm_TPM t)
    (tm_MaxParallelRequests t) false (tm_CustomerRegistration t) (tm_CreatedAt t) (tm_ArchivedAt t).

Definition LookupKey (hash : string) (s : tables) : option (VirtualKey * Team * option User) :=
  '(_, r) ← find_row (fun r => (kr_hash r =? hash)%string) (tb_keys s);
  team ← tb_teams s !! vk_TeamID (kr_key r);
  let owner := u ← vk_UserID (kr_key r) ≫= fun id => tb_users s !! id; Some (key_owner (ur_user u)) in
  let account := vk_ServiceAccountID (kr_key r) ≫= fun id => tb_accounts s !! id in
  Some (with_owner (kr_key r) owner account, key_team team, owner).

(** Without the ranges and the owner's concurrency, which the query leaves out. *)
Definition GetVirtualKeyByID (id : Z) (s : tables) : option (VirtualKey * Team) :=
  r ← tb_keys s !! id;
  team ← tb_teams s !! vk_TeamID (kr_key r);
  let k := kr_key r in
  let owner := u ← vk_UserID k ≫= fun id => tb_users s !! id; Some (ur_user u) in
  let account := vk_ServiceAccountID k ≫= fun id => tb_accounts s !! id in
  let k := with_owner k owner account in
  Some (mkVirtualKey (vk_ID k) (vk_TeamID k) (vk_UserID k) (vk_ServiceAccountID k) (vk_KeyPrefix k) (vk_Name k) (vk_Metadata k)
          (vk_AllowedModels k) [] (vk_ScopedRPM k) (vk_ScopedTPM k) (vk_MaxParallelRequests k) (vk_ScopedUsdLimitCents k)
          (vk_ExpiresAt k) (vk_RotatedFromKeyID k) (vk_LastUsedAt k) (vk_CreatedAt k) (vk_RevokedAt k) (vk_DisabledAt k)
          (vk_OwnerUserEmail k) (vk_OwnerUserName k) (vk_ServiceAccountName k) None, team).

(** ** Users ([store/users.go]) *)

(** [finalize], and the slug of the joined team. *)
Definition finalize (slug : string) (u : User) : User :=
  mkUser (us_ID u) (us_Email u) (us_Name u) (us_TeamID u) slug (us_Role u) (us_Role u =? RoleAdmin)%string (us_UsdLimitCents u)
    (us_Period u) (us_MaxParallelRequests u) (us_OIDCSub u) (us_RoleManagedByOIDC u) (us_DisabledAt u) (us_CreatedAt u)
    (us_LastLoginAt u) (us_ArchivedAt u).

Definition team_slug (s : tables) (id : option Z) : string :=
  match id ≫= fun id => tb_teams s !! id with Some t => tm_Slug t | None => "" end.

Definition load_user (s : tables) (u : User) : User := finalize (team_slug s (us_TeamID u)) u.

Definition valid_role (role : string) : bool := (role =? RoleAdmin)%string || (role =? RoleManager)%string || (role =? RoleMember)%string.

(** An insert into [users]: an email is there at most once, a subject too. *)
Definition insert_user (mk : Z -> User) (password : option string) (s : tables) : tables * result store_error User :=
  let id := tb_seq s in
  let u := mk id in
  if bool_decide (is_Some (find_row (fun r => (us_Email (ur_user r) =? us_Email u)%string) (tb_users s)))
     || negb (us_OIDCSub u =? "")%string
        && bool_decide (is_Some (find_row (fun r => (us_OIDCSub (ur_user r) =? us_OIDCSub u)%string) (tb_users s)))
  then (s, Err Conflict)
  else
    let s := next_id (set_users (<[id := mkUserRow u password]> (tb_users s)) s) in
    (s, Ok (load_user s u)).

Definition new_user (id : Z) (email name sub : string) (managed : bool) (team : option Z) (role : string) (now : Z) : User :=
  mkUser id email name team "" role (role =? RoleAdmin)%string None "month" None sub managed None now None None.

Definition CreateUser (now : Z) (email name : string) (password : option string) (teamID : option Z) (role : string) (s : tables) :
    tables * result store_error User :=
  let role := if (role =? "")%string then RoleMember else role in
  if negb (valid_role role) then (s, Err (Rejected "invalid role"))
  else insert_user (fun id => new_user id email name "" false teamID role now) password s.

(** Active users by address: the comparison folds ASCII case. *)
Definition by_email (email : string) (r : user_row) : bool :=
  (ToLower (us_Email (ur_user r)) =? ToLower email)%string && bool_decide (us_ArchivedAt (ur_user r) = None).

Definition GetUserByEmail (email : string) (s : tables) : option (User * option string) :=
  '(_, r) ← find_row (by_email email) (tb_users s); Some (load_user s (ur_user r), ur_password r).

Definition LookupUserByEmail (email : string) (s : tables) : option User :=
  '(_, r) ← find_row (by_email email) (tb_users s); Some (load_user s (ur_user r)).

Definition LookupUserByOIDCSub (sub : string) (s : tables) : option User :=
  '(_, r) ← find_row (fun r => (us_OIDCSub (ur_user r) =? sub)%string && negb (sub =? "")%string
                                && bool_decide (us_ArchivedAt (ur_user r) = None)) (tb_users s);
  Some (load_user s (ur_user r)).

(** The user of an administrator's request; whether it is disabled is not read. *)
Definition GetUserByID (id : Z) (s : tables) : option User :=
  r ← tb_users s !! id;
  if bool_decide (us_ArchivedAt (ur_user r) = None) then Some (load_user s (ur_user r)) else None.

Definition update_user (id : Z) (f : user_row -> user_row) (s : tables) : tables :=
  match tb_users s !! id with Some r => set_users (<[id := f r]> (tb_users s)) s | None => s end.

Definition map_user (f : User -> User) (r : user_row) : user_row := mkUserRow (f (ur_user r)) (ur_password r).

(** A user with other role, team, subject and marks. *)
Definition with_account (team : option Z) (role sub : string) (managed : bool) (disabled login : option Z) (u : User) : User :=
  mkUser (us_ID u) (us_Email u) (us_Name u) team (us_TeamSlug u) role (role =? RoleAdmin)%string (us_UsdLimitCents u)
    (us_Period u) (us_MaxParallelRequests u) sub managed disabled (us_CreatedAt u) login (us_ArchivedAt u).

Definition UpdateLastLogin (now id : Z) : tables -> tables :=
  update_user id (map_user (fun u =>
    with_account (us_TeamID u) (us_Role u) (us_OIDCSub u) (us_RoleManagedByOIDC u) (us_DisabledAt u) (Some now) u)).

(** The team of a slug that is not archived. *)
Definition active_team (slug : string) (s : tables) : option Z :=
  '(id, _) ← find_row (fun t => (tm_Slug t =? slug)%string && bool_decide (tm_ArchivedAt t = None)) (tb_teams s); Some id.

Definition GetTeamBySlug (slug : string) (s : tables) : option Team :=
  '(_, t) ← find_row (fun t => (tm_Slug t =? slug)%string) (tb_teams s); Some t.

Definition CreateOIDCUser (now : Z) (sub email name role teamSlug : string) (s : tables) : tables * result store_error User :=
  let role := if (role =? "")%string then RoleMember else role in
  let team := if (teamSlug =? "")%string then None else active_team teamSlug s in
  insert_user (fun id => new_user id email name sub true team role now) None s.

(** [UPDATE users SET oidc_sub], which a subject bound to another user refuses. *)
Definition BindOIDCSub (id : Z) (sub : string) (s : tables) : tables * result store_error unit :=
  match find_row (fun r => (us_OIDCSub (ur_user r) =? sub)%string) (tb_users s) with
  | Some (id', _) => if id' =? id then (s, Ok tt) else (s, Err Conflict)
  | None =>
      (update_user id (map_user (fun u =>
         with_account (us_TeamID u) (us_Role u) sub (us_RoleManagedByOIDC u) (us_DisabledAt u) (us_LastLoginAt u) u)) s, Ok tt)
  end.

Definition ApplyOIDCMapping (id : Z) (newRole newTeamSlug : string) (s : tables) : tables * result store_error unit :=
  match tb_users s !! id with
  | None => (s, Err (Rejected "read mapping flag"))
  | Some r =>
      if negb (us_RoleManagedByOIDC (ur_user r)) then (s, Ok tt)
      else
        let team := if (newTeamSlug =? "")%string then us_TeamID (ur_user r) else active_team newTeamSlug s in
        (update_user id (map_user (fun u =>
           with_account team newRole (us_OIDCSub u) (us_RoleManagedByOIDC u) (us_DisabledAt u) (us_LastLoginAt u) u)) s, Ok tt)
  end.

Definition MarkRoleManuallyEdited (id : Z) : tables -> tables :=
  update_user id (map_user (fun u =>
    with_account (us_TeamID u) (us_Role u) (us_OIDCSub u) false (us_DisabledAt u) (us_LastLoginAt u) u)).

(** A second disable keeps the first instant. *)
Definition SetUserDisabled (now id : Z) (disabled : bool) : tables -> tables :=
  update_user id (map_user (fun u =>
    with_account (us_TeamID u) (us_Role u) (us_OIDCSub u) (us_RoleManagedByOIDC u)
      (if disabled then Some (default now (us_DisabledAt u)) else None) (us_LastLoginAt u) u)).

Definition UpdatePasswordHash (id : Z) (hash : string) (s : tables) : tables * result store_error unit :=
  match tb_users s !! id with
  | Some r =>
      if bool_decide (us_ArchivedAt (ur_user r) = None)
      then (set_users (<[id := mkUserRow (ur_user r) (Some hash)]> (tb_users s)) s, Ok tt) else (s, Err NotFound)
  | None => (s, Err NotFound)
  end.

Definition GetUserPasswordHash (id : Z) (s : tables) : option (option string) :=
  r ← tb_users s !! id; if bool_decide (us_ArchivedAt (ur_user r) = None) then Some (ur_password r) else None.

(** ** Sessions ([store/sessions.go]) *)

Definition CreateSession (hash : string) (user expires : Z) (s : tables) : tables * result store_error unit :=
  match tb_sessions s !! hash with
  | Some _ => (s, Err Conflict)
  | None => (set_sessions (<[hash := mkSessionRow user expires None]> (tb_sessions s)) s, Ok tt)
  end.

Definition LookupSession (now : Z) (hash : string) (s : tables) : option User :=
  x ← tb_sessions s !! hash;
  r ← tb_users s !! se_user x;
  if (now <? se_expires x) && bool_decide (us_ArchivedAt (ur_user r) = None) then Some (load_user s (ur_user r)) else None.

Definition TouchSession (now : Z) (hash : string) (s : tables) : tables :=
  set_sessions (alter (fun x => mkSessionRow (se_user x) (se_expires x) (Some now)) hash (tb_sessions s)) s.

Definition DeleteSession (hash : string) (s : tables) : tables := set_sessions (delete hash (tb_sessions s)) s.

Definition DeleteSessionsForUser (user : Z) (s : tables) : tables :=
  set_sessions (filter (fun x => se_user x.2 <> user) (tb_sessions s)) s.

Definition DeleteOtherSessionsForUser (user : Z) (keep : string) (s : tables) : tables :=
  set_sessions (filter (fun x => ~ (se_user x.2 = user /\ x.1 <> keep)) (tb_sessions s)) s.

(** A session is named by a prefix of its hash. *)
Definition DeleteUserSessionByPrefix (user : Z) (prefix : string) (s : tables) : tables * result store_error unit :=
  if (prefix =? "")%string then (s, Err NotFound)
  else
    let doomed (x : string * session_row) := se_user x.2 = user /\ HasPrefix x.1 prefix = true in
    if bool_decide (map_to_list (filter doomed (tb_sessions s)) = []) then (s, Err NotFound)
    else (set_sessions (filter (fun x => ~ doomed x) (tb_sessions s)) s, Ok tt).

(** ** Invites and password resets *)

Definition CreateInvite (hash prefix email role : string) (team : option Z) (expires : Z) (s : tables) :
    tables * result store_error Invite :=
  match find_row (fun i => (iv_hash i =? hash)%string) (tb_invites s) with
  | Some _ => (s, Err Conflict)
  | None =>
      let i := mkInvite hash prefix email team role expires None None in
      (next_id (set_invites (<[tb_seq s := i]> (tb_invites s)) s), Ok i)
  end.

Definition GetInviteByTokenHash (hash : string) (s : tables) : option Invite :=
  '(_, i) ← find_row (fun i => (iv_hash i =? hash)%string) (tb_invites s); Some i.

Definition MarkInviteAccepted (now : Z) (hash : string) (user : Z) (s : tables) : tables * result store_error unit :=
  match find_row (fun i => (iv_hash i =? hash)%string) (tb_invites s) with
  | Some (id, i) =>
      if bool_decide (iv_AcceptedAt i = None) && (now <? iv_ExpiresAt i)
      then (set_invites (<[id := mkInvite (iv_hash i) (iv_prefix i) (iv_Email i) (iv_TeamID i) (iv_Role i) (iv_ExpiresAt i)
              (Some now) (Some user)]> (tb_invites s)) s, Ok tt)
      else (s, Err NotFound)
  | None => (s, Err NotFound)
  end.

Definition CreatePasswordReset (user : Z) (hash : string) (expires : Z) (s : tables) : tables * result store_error unit :=
  match find_row (fun r => (rw_hash r =? hash)%string) (tb_resets s) with
  | Some _ => (s, Err Conflict)
  | None => (next_id (set_resets (<[tb_seq s := mkResetRow user hash expires None]> (tb_resets s)) s), Ok tt)
  end.

Definition LookupPasswordReset (now : Z) (hash : string) (s : tables) : option (Z * reset_row * User) :=
  '(id, r) ← find_row (fun r => (rw_hash r =? hash)%string) (tb_resets s);
  u ← tb_users s !! rw_user r;
  if (now <? rw_expires r) && bool_decide (rw_used r = None) && bool_decide (us_ArchivedAt (ur_user u) = None)
  then Some (id, r, ur_user u) else None.

Definition MarkPasswordResetUsed (now id : Z) (s : tables) : tables * result store_error unit :=
  match tb_resets s !! id with
  | Some r =>
      match rw_used r with
      | None => (set_resets (<[id := mkResetRow (rw_user r) (rw_hash r) (rw_expires r) (Some now)]> (tb_resets s)) s, Ok tt)
      | Some _ => (s, Err NotFound)
      end
  | None => (s, Err NotFound)
  end.

(** ** The life of a key *)

(** What can happen to the tables: the statements on keys, and anything that does
    not write keys. *)
Inductive key_op :=
| KCreate (now : Z) (p : CreateVirtualKeyParams)
| KUpdate (id : Z) (p : UpdateVirtualKeyParams)
| KCidrs (id : Z) (cidrs : list string)
| KPause (now id : Z) (paused : bool)
| KRevoke (now id : Z)
| KBudget (id team : Z) (limit : option Z)
| KRotate (checked now id team : Z) (hash prefix : string) (grace : option Z).

Definition key_run (op : key_op) (s : tables) : tables :=
  match op with
  | KCreate now p => (CreateVirtualKey now p s).1
  | KUpdate id p => (UpdateVirtualKey id p s).1
  | KCidrs id cidrs => (SetKeyAllowedCIDRs id cidrs s).1
  | KPause now id paused => (SetKeyPaused now id paused s).1
  | KRevoke now id => (RevokeKey now id s).1
  | KBudget id team limit => (SetVirtualKeyBudget id team limit s).1
  | KRotate checked now id team hash prefix grace => (RotateVirtualKey checked now id team hash prefix grace s).1
  end.

Inductive key_steps : tables -> tables -> Prop :=
| steps_refl s : key_steps s s
| steps_op s s' op : key_steps s s' -> key_steps s (key_run op s')
| steps_other s s' s'' :
    key_steps s s' -> tb_keys s'' = tb_keys s' -> tb_seq s' <= tb_seq s'' -> key_steps s s''.

(** The constraints of the table: serial numbers and unique hashes. *)
Definition keys_ok (s : tables) : Prop :=
  (forall id r, tb_keys s !! id = Some r -> id < tb_seq s) /\
  (forall id id' r r', tb_keys s !! id = Some r -> tb_keys s !! id' = Some r' -> kr_hash r = kr_hash r' -> id = id').

(** One statement changes at most the rows it names, and no revoked row. *)
Definition key_change (s s' : tables) : Prop :=
  (forall id r, tb_keys s !! id = Some r ->
     exists r', tb_keys s' !! id = Some r' /\ kr_hash r' = kr_hash r /\ vk_TeamID (kr_key r') = vk_TeamID (kr_key r) /\
       (vk_RevokedAt (kr_key r) <> None -> r' = r)) /\ keys_ok s'.

Lemma update_live_change id f s :
  keys_ok s -> (forall k, vk_TeamID (f k) = vk_TeamID k) -> key_change s (update_live id f s).1.
Proof.
  intros Hok Hf. unfold update_live. destruct (tb_keys s !! id) as [r|] eqn:E; cbn; cycle 1.
  { split; [| done]. intros i r' Hi. by exists r'. }
  destruct (vk_RevokedAt (kr_key r)) as [t|] eqn:Er; cbn.
  { split; [| done]. intros i r' Hi. by exists r'. }
  destruct Hok as [Hlt Hu]. split; [| split]; cbn.
  - intros i r' Hi. destruct (decide (i = id)) as [-> | Hne].
    + rewrite lookup_insert_eq. eexists. split; [done |]. replace r' with r by congruence.
      split_and!; [done | apply Hf | congruence].
    + rewrite lookup_insert_ne by done. by exists r'.
  - intros i r' [[-> _] | [_ Hi]]%lookup_insert_Some; [by eapply Hlt | by eapply Hlt].
  - intros i i' r1 r2 [[<- <-] | [Hne1 H1]]%lookup_insert_Some [[<- <-] | [Hne2 H2]]%lookup_insert_Some Hh; cbn in *; eauto.
Qed.

Lemma insert_key_change hash mk s : keys_ok s -> key_change s (insert_key hash mk s).1.
Proof.
  intros [Hlt Hu]. unfold insert_key. destruct (find_row _ _) as [[k a]|] eqn:E; cbn.
  { split; [| done]. intros i r Hi. by exists r. }
  assert (forall i r, tb_keys s !! i = Some r -> kr_hash r <> hash) as Hnew.
  { intros i r Hi. pose proof (find_row_None _ _ i r E Hi) as Hf. cbn in Hf. by apply String.eqb_neq in Hf. }
  assert (tb_keys s !! tb_seq s = None) as Hfree.
  { destruct (tb_keys s !! tb_seq s) as [r|] eqn:Es; [| done]. apply Hlt in Es. lia. }
  split; [| split]; cbn.
  - intros i r Hi. rewrite lookup_insert_ne by congruence. by exists r.
  - intros i r [[<- _] | [_ Hi]]%lookup_insert_Some; [lia |]. apply Hlt in Hi. lia.
  - intros i i' r1 r2 [[<- <-] | [Hne1 H1]]%lookup_insert_Some [[<- <-] | [Hne2 H2]]%lookup_insert_Some Hh; cbn in *; eauto.
    + by destruct (Hnew i' r2 H2).
    + by destruct (Hnew i r1 H1).
Qed.

Lemma key_change_refl s : keys_ok s -> key_change s s.
Proof. intros Hok. split; [| done]. intros i r Hi. by exists r. Qed.

Lemma key_change_trans s1 s2 s3 : key_change s1 s2 -> key_change s2 s3 -> key_change s1 s3.
Proof.
  intros [H1 _] [H2 Hok]. split; [| done]. intros i r Hi. destruct (H1 i r Hi) as (r1 & Hi1 & Hh1 & Ht1 & Hr1).
  destruct (H2 i r1 Hi1) as (r2 & Hi2 & Hh2 & Ht2 & Hr2). exists r2. split_and!; [done | congruence | congruence |].
  intros Hr. specialize (Hr1 Hr). subst r1. by apply Hr2.
Qed.

Lemma retire_team now grace k : vk_TeamID (retire now grace k) = vk_TeamID k.
Proof. unfold retire. destruct grace as [g|]; [| done]. by destruct (0 <? g). Qed.

Lemma key_run_change op s : keys_ok s -> key_change s (key_run op s).
Proof.
  intros Hok. destruct op as [now p | id p | id cidrs | now id paused | now id | id team limit | checked now id team hash prefix grace]; cbn.
  - unfold CreateVirtualKey. destruct (negb _); [by apply key_change_refl | by apply insert_key_change].
  - unfold UpdateVirtualKey. destruct (negb _); [by apply key_change_refl | by apply update_live_change].
  - by apply update_live_change.
  - by apply update_live_change.
  - by apply update_live_change.
  - unfold SetVirtualKeyBudget. destruct (negb _); [by apply key_change_refl |].
    destruct (tb_keys s !! id) as [r|]; [| by apply key_change_refl].
    destruct (_ =? team); [by apply update_live_change | by apply key_change_refl].
  - unfold RotateVirtualKey. destruct (tb_keys s !! id) as [r|]; [| by apply key_change_refl].
    repeat (case_match; [by apply key_change_refl |]).
    match goal with |- context [insert_key hash ?mk s] =>
      pose proof (insert_key_change hash mk s Hok) as Hi; destruct (insert_key hash mk s) as [s1 [new|e]] end; cbn in *;
      [| by apply key_change_refl].
    eapply key_change_trans; [exact Hi |]. apply update_live_change; [apply Hi | apply retire_team].
Qed.

Lemma key_steps_change s s' : keys_ok s -> key_steps s s' -> key_change s s'.
Proof.
  intros Hok Hs. induction Hs as [s | s s' op _ IH | s s' s'' _ IH Hk Hseq]; [by apply key_change_refl | |].
  - specialize (IH Hok). eapply key_change_trans; [exact IH |]. apply key_run_change, IH.
  - destruct (IH Hok) as [H1 [Hlt Hu]]. split; [rewrite Hk; exact H1 |]. split; rewrite Hk; [| done].
    intros i r Hi. apply Hlt in Hi. lia.
Qed.

(** ** Rotation *)

(** The policy of a key: all that limits what it may do. *)
Definition policy_of (k : VirtualKey) :=
  (vk_TeamID k, vk_UserID k, vk_ServiceAccountID k, vk_AllowedModels k, vk_AllowedCIDRs k,
   (vk_ScopedRPM k, vk_ScopedTPM k, vk_MaxParallelRequests k, vk_ScopedUsdLimitCents k, vk_ExpiresAt k)).

(** The key would be accepted at an instant, as far as the key itself goes. *)
Definition usable (t : Z) (k : VirtualKey) : bool :=
  bool_decide (vk_RevokedAt k = None) && bool_decide (vk_DisabledAt k = None) &&
  match vk_ExpiresAt k with Some e => negb (Before e t) | None => true end.

(** A rotation replaces a key by an equal one. It succeeds only for a usable
    key of the team; the replacement has the same team, owner, models, address
    ranges, rates, budget and expiry, so it never outlives the old one; the old
    key stops working at once, or at the end of the grace period and never later
    than it would have; no other key changes. *)
Theorem rotation_preserves_policy (s s' : tables) (checked now id team : Z) (hash prefix : string) (grace : option Z)
    (new : VirtualKey) (Hok : keys_ok s)
    (H : RotateVirtualKey checked now id team hash prefix grace s = (s', Ok new)) :
  exists r r', tb_keys s !! id = Some r /\ vk_TeamID (kr_key r) = team /\ usable checked (kr_key r) = true /\
    tb_keys s !! vk_ID new = None /\ tb_keys s' !! vk_ID new = Some (mkKeyRow hash new) /\
    policy_of new = policy_of (kr_key r) /\ usable now new = usable now (kr_key r) /\
    tb_keys s' !! id = Some r' /\
    (forall t, now <= t -> usable t (kr_key r') = true ->
       usable t (kr_key r) = true /\ exists g, grace = Some g /\ 0 < g /\ t <= now + g) /\
    (forall i, i <> id -> i <> vk_ID new -> tb_keys s' !! i = tb_keys s !! i).
Proof.
  destruct Hok as [Hlt _]. unfold RotateVirtualKey in H. destruct (tb_keys s !! id) as [r|] eqn:Er; [| done].
  destruct (Z.eqb_spec (vk_TeamID (kr_key r)) team) as [Hteam |]; [cbn in H | done].
  destruct (vk_RevokedAt (kr_key r)) as [t|] eqn:Erev; [rewrite bool_decide_true in H by eauto; done |].
  destruct (vk_DisabledAt (kr_key r)) as [t|] eqn:Edis; [rewrite (bool_decide_true (is_Some (Some t))) in H by eauto; done |].
  rewrite !(bool_decide_false (is_Some None)) in H by (by intros []).
  destruct (match vk_ExpiresAt (kr_key r) with Some e => Before e checked | None => false end) eqn:Eexp; [done |].
  unfold insert_key in H. destruct (find_row _ _); [done |]. injection H as <- <-. cbn [vk_ID].
  assert (tb_keys s !! tb_seq s = None) as Hfree.
  { destruct (tb_keys s !! tb_seq s) as [x|] eqn:Es; [| done]. apply Hlt in Es. lia. }
  assert (id <> tb_seq s) as Hne by congruence.
  unfold update_live. cbn [tb_keys next_id set_keys]. rewrite lookup_insert_ne, Er, Erev by done. cbn [fst tb_keys set_keys next_id].
  eexists r, _. split_and!; [done | done | | done | | | | by rewrite lookup_insert_eq | |].
  - unfold usable. rewrite Erev, Edis. cbn. by destruct (vk_ExpiresAt (kr_key r)); [rewrite Eexp |].
  - rewrite lookup_insert_ne, lookup_insert_eq by done. done.
  - unfold policy_of. cbn. by rewrite Hteam.
  - unfold usable. by rewrite Erev, Edis.
  - intros t Ht. cbn [kr_key]. unfold usable, retire. destruct grace as [g|]; [destruct (Z.ltb_spec 0 g) |]; cbn;
      rewrite ?Erev, ?Edis; cbn; try done.
    intros Hu. unfold Before in *. destruct (vk_ExpiresAt (kr_key r)) as [e|]; (split; [lia | exists g; split_and!; [done | done | lia]]).
  - intros i Hi Hi'. by rewrite lookup_insert_ne, lookup_insert_ne by congruence.
Qed.

Definition example_key : VirtualKey :=
  mkVirtualKey 1 7 (Some 3) None "gw-a" "ci" "{}" ["gpt"] ["10.0.0.0/8"] (Some 60) None None (Some 500) (Some (100 * Hour)) None None 0
    None None "" "" "" None.

Definition example_tables : tables :=
  mkTables {[7 := mkTeam 7 "core" "Core" None "month" ["*"] None None None false "optional" 0 None]} ∅ ∅
    {[1 := mkKeyRow "old" example_key]} ∅ ∅ ∅ ∅ 8.

Lemma example_tables_ok : keys_ok example_tables.
Proof.
  split; cbn.
  - intros id r [<- <-]%lookup_singleton_Some. lia.
  - intros id id' r r' [<- <-]%lookup_singleton_Some [<- <-]%lookup_singleton_Some. done.
Qed.

Lemma rotation_preserves_policy_witness :
  exists s' new r', RotateVirtualKey 0 0 1 7 "new" "gw-b" (Some Hour) example_tables = (s', Ok new) /\
    policy_of new = policy_of example_key /\ tb_keys s' !! 1 = Some r' /\ usable (2 * Hour) (kr_key r') = false.
Proof.
  destruct (RotateVirtualKey 0 0 1 7 "new" "gw-b" (Some Hour) example_tables) as [s' [new|e]] eqn:E; [| vm_compute in E; discriminate].
  destruct (rotation_preserves_policy example_tables s' 0 0 1 7 "new" "gw-b" (Some Hour) new example_tables_ok E)
    as (r & r' & H1 & _ & _ & _ & _ & H2 & _ & H3 & H4 & _).
  injection H1 as <-. exists s', new, r'. split_and!; [reflexivity | exact H2 | exact H3 |].
  destruct (usable (2 * Hour) (kr_key r')) eqn:Eu; [| reflexivity]. destruct (H4 (2 * Hour) ltac:(vm_compute; discriminate) Eu) as (_ & g & [= <-] & _ & Hg).
  vm_compute in Hg. by destruct Hg.
Defined.
