(* ===== verification/Auth.v ===== *)
(** * Authentication ([internal/auth], [api/auth.go], [api/invite.go],
    [api/password_reset.go], [api/me.go], [api/oidc.go] and the account and key
    handlers of [api/admin.go])

    Who a request comes from and what it may do: the bearer and session
    middlewares, roles, tokens signed by an issuer, sign-in, invites, password
    resets and the handlers that administer keys and users, over the tables of
    [Identity]. The hash of a token, the password hash and the verification of
    a signature are functions the sections are given. A response is a status and
    a code, or the value the handler goes on with. Cookies' attributes and audit
    events are not modelled. *)

From S2P Require Import Prelude GoStrings Models Identity ClientIp.
From Stdlib Require Import Ascii.

Abbreviation answer A := (result (Z * string) A).

(** ** Principals ([auth/middleware.go]) *)

Record Principal := mkPrincipal { pr_IsMasterKey : bool; pr_User : option User }.

Definition IsAdmin (p : option Principal) : bool :=
  match p with
  | None => false
  | Some p => pr_IsMasterKey p || match pr_User p with Some u => (us_Role u =? RoleAdmin)%string | None => false end
  end.

Definition Role (p : option Principal) : string :=
  match p with
  | None => ""
  | Some p => if pr_IsMasterKey p then RoleAdmin else match pr_User p with Some u => us_Role u | None => "" end
  end.

Definition IsManager (p : option Principal) : bool :=
  match p with
  | Some p => match pr_User p with Some u => (us_Role u =? RoleManager)%string | None => false end
  | None => false
  end.

Definition TeamSlug (p : option Principal) : string :=
  match p with Some p => match pr_User p with Some u => us_TeamSlug u | None => "" end | None => "" end.

Definition IsManagerOf (p : option Principal) (slug : string) : bool :=
  if (slug =? "")%string then false else IsManager p && (TeamSlug p =? slug)%string.

Definition CanAccessTeam (p : option Principal) (slug : string) : bool := IsAdmin p || IsManagerOf p slug.

(** [RequireAdmin], [RequireManagerOrAdmin] and [RequireTeamAccess]. *)
Definition RequireAdmin (p : option Principal) : answer unit := fail_if (negb (IsAdmin p)) (403, "admin only").
Definition RequireManagerOrAdmin (p : option Principal) : answer unit :=
  fail_if (negb (IsAdmin p) && negb (IsManager p)) (403, "manager or admin only").
Definition RequireTeamAccess (p : option Principal) (slug : string) : answer unit :=
  _ ← fail_if (slug =? "")%string (400, "missing team identifier");
  fail_if (negb (CanAccessTeam p slug)) (403, "no access to team").

Definition ExtractBearer (header : string) : string :=
  if HasPrefix header "Bearer " then TrimPrefix header "Bearer " else "".

(** ** Issued tokens ([auth/jwt.go]) *)

(** A claim, as far as the code looks at it: a string, the strings of an array, or
    anything else. *)
Inductive claim := ClString (s : string) | ClStrings (l : list string) | ClOther.

Record JWTTeamConfig := mkJWTTeamConfig {
  jt_TeamID : Z;
  jt_TeamSlug : string;
  jt_JWKSURL : string;
  jt_TeamClaim : string;
  jt_Audience : string;
}.

Record JWTPrincipal := mkJWTPrincipal { jp_Team : Team; jp_Subject : string; jp_Email : string }.

Definition jwt_shape (token : string) : list string :=
  let fix go (s acc : string) : list string :=
    match s with
    | EmptyString => [acc]
    | String c s => if Ascii.eqb c "."%char then acc :: go s "" else go s (acc +:+ String c "")
    end in go token "".

Definition looksLikeJWT (token : string) : bool :=
  let parts := jwt_shape token in
  (length parts =? 3)%nat && forallb (fun p => negb (p =? "")%string) parts.

Definition claim_string (claims : gmap string claim) (k : string) : string :=
  match claims !! k with Some (ClString s) => s | _ => "" end.

Definition audMatches (claims : gmap string claim) (want : string) : bool :=
  match claims !! "aud" with
  | Some (ClString s) => (s =? want)%string
  | Some (ClStrings l) => existsb (fun s => (s =? want)%string) l
  | _ => false
  end.

Section Jwt.
(** The verification of a token with the keys of an issuer: [None] for an issuer
    whose keys are not loaded, then the claims of a valid token. *)
Context (keys : string -> option (string -> option (gmap string claim))).

Inductive jwt_error := ErrInvalidJWT | LoadTeam.

Fixpoint verify_loop (teams : list JWTTeamConfig) (token : string) (s : tables) : result jwt_error (option JWTPrincipal) :=
  match teams with
  | [] => Err ErrInvalidJWT
  | t :: teams =>
      match keys (jt_JWKSURL t) with
      | None => verify_loop teams token s
      | Some verify =>
          match verify token with
          | None => verify_loop teams token s
          | Some claims =>
              if negb (jt_Audience t =? "")%string && negb (audMatches claims (jt_Audience t)) then verify_loop teams token s
              else
                let slug := claim_string claims (jt_TeamClaim t) in
                if (slug =? "")%string || negb (slug =? jt_TeamSlug t)%string then verify_loop teams token s
                else match GetTeamBySlug slug s with
                     | None => Err LoadTeam
                     | Some team => Ok (Some (mkJWTPrincipal team (claim_string claims "sub") (claim_string claims "email")))
                     end
          end
      end
  end.

Definition Verify (teams : list JWTTeamConfig) (token : string) (s : tables) : result jwt_error (option JWTPrincipal) :=
  if negb (looksLikeJWT token) then Ok None
  else match teams with [] => Ok None | _ => verify_loop teams token s end.

End Jwt.

Definition truncSubject (s : string) : string := if (12 <? String.length s)%nat then String.substring 0 12 s else s.

(** ** The data plane: [Bearer] *)

Section Middlewares.
(** [HashKey], and the issuers' keys. *)
Context (HashKey : string -> string) (keys : string -> option (string -> option (gmap string claim))).

Record caller := mkCaller { ca_team : Team; ca_key : VirtualKey; ca_owner : option User }.

(** The key a token stands for. *)
Definition synthetic_key (p : JWTPrincipal) : VirtualKey :=
  mkVirtualKey 0 (tm_ID (jp_Team p)) None None ("jwt-" +:+ truncSubject (jp_Subject p)) ("jwt:" +:+ jp_Subject p) "" [] [] None None
    None None None None None 0 None None "" "" "" None.

Definition bearer_key (now : Z) (ip rawKey : string) (s : tables) : answer caller :=
  match LookupKey (HashKey rawKey) s with
  | None => Err (401, "invalid api key")
  | Some (vk, team, owner) =>
      _ ← fail_if (bool_decide (is_Some (vk_RevokedAt vk))) (401, "key revoked");
      _ ← fail_if (bool_decide (is_Some (vk_DisabledAt vk))) (401, "key paused");
      _ ← fail_if (match vk_ExpiresAt vk with Some e => Before e now | None => false end) (401, "key expired");
      _ ← fail_if (bool_decide (is_Some (tm_ArchivedAt team))) (401, "team archived");
      _ ← fail_if (negb (bool_decide (vk_AllowedCIDRs vk = [])) && negb (ipAllowed ip (vk_AllowedCIDRs vk)))
            (403, "ip not in allowlist");
      Ok (mkCaller team vk owner)
  end.

(** [Bearer]; [verifier] is the verifier's team list, when there is a verifier. *)
Definition Bearer (verifier : option (list JWTTeamConfig)) (now : Z) (ip header : string) (s : tables) : answer caller :=
  let rawKey := ExtractBearer header in
  if (rawKey =? "")%string then Err (401, "missing bearer token")
  else
    match verifier with
    | Some teams =>
        if looksLikeJWT rawKey
        then match Verify keys teams rawKey s with
             | Err _ => Err (401, "jwt verification failed")
             | Ok (Some p) => Ok (mkCaller (jp_Team p) (synthetic_key p) None)
             | Ok None => bearer_key now ip rawKey s
             end
        else bearer_key now ip rawKey s
    | None => bearer_key now ip rawKey s
    end.

(** ** The control plane: [Session] *)

Record credentials := mkCredentials { cd_cookie : string; cd_legacy : string; cd_header : string }.

Definition ExtractSessionToken (c : credentials) : string :=
  if negb (cd_cookie c =? "")%string then cd_cookie c
  else if negb (cd_legacy c =? "")%string then cd_legacy c
  else ExtractBearer (cd_header c).

(** [Session]: the principal and the hash of its session. *)
Definition Session (masterKey : string) (now : Z) (c : credentials) (s : tables) :
    tables * answer (Principal * option string) :=
  let token := ExtractSessionToken c in
  if (token =? "")%string then (s, Err (401, "missing bearer token"))
  else if negb (masterKey =? "")%string && (token =? masterKey)%string then (s, Ok (mkPrincipal true None, None))
  else
    let hash := HashKey token in
    match LookupSession now hash s with
    | None => (s, Err (401, "invalid or expired session"))
    | Some user =>
        match us_DisabledAt user with
        | Some _ => (DeleteSession hash s, Err (403, "account disabled"))
        | None => (TouchSession now hash s, Ok (mkPrincipal false (Some user), Some hash))
        end
    end.

(** ** Sign-in ([api/auth.go]) *)

(** [bcrypt.CompareHashAndPassword] and [bcrypt.GenerateFromPassword], which are
    not in the repository; a password can be too long for the latter. *)
Context (compare : string -> string -> bool) (bcrypt : string -> option string).

Definition minPasswordLen : nat := 8.

Definition HashPassword (password : string) : option string :=
  if (String.length password <? minPasswordLen)%nat then None else bcrypt password.

Definition CheckPassword (hash : option string) (password : string) : bool :=
  match hash with Some h => negb (h =? "")%string && compare h password | None => false end.

Definition sessionDuration : Z := 7 * 24 * Hour.

(** The session a sign-in opens for a fresh token. *)
Definition open_session (now : Z) (token : string) (user : User) (s : tables) : tables * answer User :=
  match CreateSession (HashKey token) (us_ID user) (now + sessionDuration) s with
  | (s, Err _) => (s, Err (500, "internal_error"))
  | (s, Ok _) => (UpdateLastLogin now (us_ID user) s, Ok user)
  end.

Definition Login (now : Z) (email password token : string) (s : tables) : tables * answer User :=
  if (email =? "")%string || (password =? "")%string then (s, Err (400, "invalid_request"))
  else
    match GetUserByEmail email s with
    | None => (s, Err (401, "authentication_error"))
    | Some (user, hash) =>
        if negb (CheckPassword hash password) then (s, Err (401, "authentication_error"))
        else match us_DisabledAt user with
             | Some _ => (s, Err (403, "account_disabled"))
             | None => open_session now token user s
             end
    end.

Definition Logout (c : credentials) (s : tables) : tables :=
  let token := ExtractSessionToken c in
  let s := if (token =? "")%string then s else DeleteSession (HashKey token) s in
  if negb (cd_legacy c =? "")%string && negb (cd_legacy c =? token)%string then DeleteSession (HashKey (cd_legacy c)) s else s.

(** ** Invites ([api/invite.go]) *)

Definition normalizeInviteRole (role : string) : string :=
  if (role =? "admin")%string then "admin" else if (role =? "manager")%string then "manager" else "member".

Record accept_request := mkAccept { ac_token : string; ac_email : string; ac_name : string; ac_password : string; ac_session : string }.

(** [AcceptInvite] up to the statement that creates the user. *)
Definition accept_check (now : Z) (r : accept_request) (s : tables) : answer (Invite * string) :=
  _ ← fail_if (ac_token r =? "")%string (400, "invalid_request");
  _ ← fail_if ((ac_email r =? "")%string || (ac_password r =? "")%string) (400, "invalid_request");
  match GetInviteByTokenHash (HashKey (ac_token r)) s with
  | None => Err (404, "not_found")
  | Some inv =>
      _ ← fail_if (bool_decide (is_Some (iv_AcceptedAt inv))) (410, "invite_used");
      _ ← fail_if (After now (iv_ExpiresAt inv)) (410, "invite_expired");
      _ ← fail_if (negb (iv_Email inv =? "")%string && negb (ToLower (iv_Email inv) =? ToLower (ac_email r))%string)
            (400, "invalid_request");
      match HashPassword (ac_password r) with None => Err (400, "invalid_request") | Some hash => Ok (inv, hash) end
  end.

Definition accept_create (now : Z) (r : accept_request) (inv : Invite) (hash : string) (s : tables) : tables * answer User :=
  match CreateUser now (ToLower (TrimSpace (ac_email r))) (TrimSpace (ac_name r)) (Some hash) (iv_TeamID inv)
          (normalizeInviteRole (iv_Role inv)) s with
  | (s, Err _) => (s, Err (400, "invalid_request"))
  | (s, Ok user) => (s, Ok user)
  end.

Definition accept_finish (now : Z) (r : accept_request) (user : User) (s : tables) : tables * answer User :=
  match MarkInviteAccepted now (HashKey (ac_token r)) (us_ID user) s with
  | (s, Err _) => (s, Err (500, "internal_error"))
  | (s, Ok _) => open_session now (ac_session r) user s
  end.

Definition AcceptInvite (now : Z) (r : accept_request) (s : tables) : tables * answer User :=
  match accept_check now r s with
  | Err e => (s, Err e)
  | Ok (inv, hash) =>
      match accept_create now r inv hash s with
      | (s, Err e) => (s, Err e)
      | (s, Ok user) => accept_finish now r user s
      end
  end.

(** [CreateInvite] of [api/admin.go]. *)
Definition invite_role (role : string) : option string :=
  if (role =? "")%string then Some "member"
  else if (role =? "admin")%string || (role =? "manager")%string || (role =? "member")%string then Some role
  else if (role =? "user")%string then Some "member" else None.

Definition invite_hours (hours : Z) : Z :=
  let hours := if hours <=? 0 then 168 else hours in if 720 <? hours then 720 else hours.

Definition admin_CreateInvite (now : Z) (p : option Principal) (email slug role : string) (hours : Z) (token prefix : string)
    (s : tables) : tables * answer Invite :=
  match invite_role role with
  | None => (s, Err (400, "invalid_request"))
  | Some role =>
      let ownTeam := TeamSlug p in
      let checked :=
        if IsAdmin p then Ok slug
        else
          _ ← fail_if (negb (role =? "member")%string) (403, "forbidden");
          _ ← fail_if (ownTeam =? "")%string (403, "forbidden");
          let slug := if (slug =? "")%string then ownTeam else slug in
          _ ← fail_if (negb (slug =? ownTeam)%string) (403, "forbidden"); Ok slug in
      match checked with
      | Err e => (s, Err e)
      | Ok slug =>
          let team := if (slug =? "")%string then Ok None
                      else match GetTeamBySlug slug s with Some t => Ok (Some (tm_ID t)) | None => Err (400, "invalid_request") end in
          match team with
          | Err e => (s, Err e)
          | Ok team =>
              match CreateInvite (HashKey token) prefix email role team (now + invite_hours hours * Hour) s with
              | (s, Ok inv) => (s, Ok inv)
              | (s, Err _) => (s, Err (500, "internal_error"))
              end
          end
      end
  end.

(** ** Passwords ([api/password_reset.go], [api/me.go]) *)

Definition passwordResetTTL : Z := 24 * Hour.

Definition IssuePasswordReset (now id : Z) (token : string) (s : tables) : tables * answer unit :=
  match GetUserByID id s with
  | None => (s, Err (404, "not_found"))
  | Some user =>
      match CreatePasswordReset (us_ID user) (HashKey token) (now + passwordResetTTL) s with
      | (s, Ok _) => (s, Ok tt)
      | (s, Err _) => (s, Err (500, "internal_error"))
      end
  end.

(** [Consume]: the end of the sessions is best effort, [deleted] says whether the
    statement ran. *)
Definition Consume (now : Z) (token password : string) (deleted : bool) (s : tables) : tables * answer unit :=
  if (token =? "")%string then (s, Err (400, "invalid_request"))
  else if (String.length password <? 8)%nat then (s, Err (400, "invalid_request"))
  else
    match LookupPasswordReset now (HashKey token) s with
    | None => (s, Err (404, "not_found"))
    | Some (id, r, _) =>
        match HashPassword password with
        | None => (s, Err (500, "internal_error"))
        | Some hash =>
            match UpdatePasswordHash (rw_user r) hash s with
            | (s, Err _) => (s, Err (500, "internal_error"))
            | (s, Ok _) =>
                let s := (MarkPasswordResetUsed now id s).1 in
                (if deleted then DeleteSessionsForUser (rw_user r) s else s, Ok tt)
            end
        end
    end.

Definition ChangePassword (user : Z) (current new : string) (s : tables) : tables * answer unit :=
  if (current =? "")%string || (new =? "")%string then (s, Err (400, "invalid_request"))
  else if (String.length new <? 8)%nat then (s, Err (400, "invalid_request"))
  else
    match GetUserPasswordHash user s with
    | None => (s, Err (500, "internal_error"))
    | Some hash =>
        if negb (CheckPassword hash current) then (s, Err (401, "authentication_error"))
        else match HashPassword new with
             | None => (s, Err (500, "internal_error"))
             | Some hash =>
                 match UpdatePasswordHash user hash s with
                 | (s, Ok _) => (s, Ok tt)
                 | (s, Err _) => (s, Err (500, "internal_error"))
                 end
             end
    end.

(** [SetUserDisabled] of [api/admin.go]: a disable ends the sessions too. *)
Definition admin_SetUserDisabled (now id : Z) (disabled deleted : bool) (s : tables) : tables :=
  let s := SetUserDisabled now id disabled s in
  if disabled && deleted then DeleteSessionsForUser id s else s.

End Middlewares.

(** ** Keys *)

(** A verified token acts for the team it names: the team is one of the configured
    ones, its issuer's keys verify the token, the audience matches and the claim
    names the team. *)
Lemma Verify_sound keys teams token s p :
  Verify keys teams token s = Ok (Some p) ->
  exists t verify claims, t ∈ teams /\ keys (jt_JWKSURL t) = Some verify /\ verify token = Some claims /\
    (jt_Audience t = "" \/ audMatches claims (jt_Audience t) = true) /\ claim_string claims (jt_TeamClaim t) = jt_TeamSlug t /\
    GetTeamBySlug (jt_TeamSlug t) s = Some (jp_Team p) /\ jp_Subject p = claim_string claims "sub".
Proof.
  unfold Verify. destruct (negb _); [done |]. destruct teams as [| t0 ts0]; [done |].
  generalize (t0 :: ts0). intros teams. induction teams as [| t teams IH]; cbn [verify_loop]; [done |].
  assert (verify_loop keys teams token s = Ok (Some p) -> exists t' verify claims, t' ∈ t :: teams /\
    keys (jt_JWKSURL t') = Some verify /\ verify token = Some claims /\
    (jt_Audience t' = "" \/ audMatches claims (jt_Audience t') = true) /\ claim_string claims (jt_TeamClaim t') = jt_TeamSlug t' /\
    GetTeamBySlug (jt_TeamSlug t') s = Some (jp_Team p) /\ jp_Subject p = claim_string claims "sub") as Hnext.
  { intros H. destruct (IH H) as (t' & v & c & Hin & Hrest). exists t', v, c. split; [by right | done]. }
  destruct (keys (jt_JWKSURL t)) as [verify|] eqn:Ek; [| exact Hnext].
  destruct (verify token) as [claims|] eqn:Ev; [| exact Hnext].
  destruct (negb (jt_Audience t =? "")%string && negb (audMatches claims (jt_Audience t))) eqn:Ea; [exact Hnext |].
  destruct ((claim_string claims (jt_TeamClaim t) =? "")%string || negb (claim_string claims (jt_TeamClaim t) =? jt_TeamSlug t)%string) eqn:Es;
    [exact Hnext |].
  apply orb_false_iff in Es as [_ Es%negb_false_iff%String.eqb_eq]. rewrite Es.
  destruct (GetTeamBySlug (jt_TeamSlug t) s) as [team|] eqn:Et; [| done]. intros [= <-].
  exists t, verify, claims. split_and!; [by left | done | done | | done | done | done].
  apply andb_false_iff in Ea as [Ea%negb_false_iff%String.eqb_eq | Ea%negb_false_iff]; auto.
Qed.

Section Keys.
Context (HashKey : string -> string) (keys : string -> option (string -> option (gmap string claim))).

(** The row of a hash, which is unique. *)
Lemma lookup_hash s id r :
  keys_ok s -> tb_keys s !! id = Some r ->
  find_row (fun x => (kr_hash x =? kr_hash r)%string) (tb_keys s) = Some (id, r).
Proof.
  intros [_ Hu] Hr. apply find_row_unique; [done | apply String.eqb_refl |].
  intros k' a' Hk' He%String.eqb_eq. by eapply Hu.
Qed.

Lemma with_owner_state k o a :
  vk_RevokedAt (with_owner k o a) = vk_RevokedAt k /\ vk_DisabledAt (with_owner k o a) = vk_DisabledAt k /\
  vk_ExpiresAt (with_owner k o a) = vk_ExpiresAt k /\ vk_AllowedCIDRs (with_owner k o a) = vk_AllowedCIDRs k /\
  vk_ID (with_owner k o a) = vk_ID k /\ vk_TeamID (with_owner k o a) = vk_TeamID k.
Proof. done. Qed.

(** The conditions of a key that is accepted. *)
Definition admissible (now : Z) (ip : string) (k : VirtualKey) (t : Team) : Prop :=
  usable now k = true /\ tm_ArchivedAt t = None /\ (vk_AllowedCIDRs k = [] \/ ipAllowed ip (vk_AllowedCIDRs k) = true).

Lemma bearer_key_Ok now ip raw s c :
  bearer_key HashKey now ip raw s = Ok c ->
  exists id r t, tb_keys s !! id = Some r /\ kr_hash r = HashKey raw /\ tb_teams s !! vk_TeamID (kr_key r) = Some t /\
    admissible now ip (kr_key r) t /\ ca_team c = key_team t /\ vk_ID (ca_key c) = vk_ID (kr_key r) /\
    policy_of (ca_key c) = policy_of (kr_key r).
Proof.
  unfold bearer_key, LookupKey. intros H.
  destruct (find_row _ _) as [[id r]|] eqn:E; [| done]. apply find_row_Some in E as [Hr Hh%String.eqb_eq].
  cbn [mbind option_bind] in H. destruct (tb_teams s !! vk_TeamID (kr_key r)) as [t|] eqn:Et; [| done]. cbn [mbind option_bind] in H.
  match type of H with context [with_owner ?k ?o ?a] => set (vk := with_owner k o a) in *; destruct (with_owner_state k o a) as (W1 & W2 & W3 & W4 & _ & _) end.
  fold vk in W1, W2, W3, W4. rewrite W1, W2, W3, W4 in H. exists id, r, t.
  destruct (vk_RevokedAt (kr_key r)) eqn:E1; [rewrite (bool_decide_true (is_Some (Some _))) in H by eauto; done |].
  destruct (vk_DisabledAt (kr_key r)) eqn:E2; [rewrite (bool_decide_true (is_Some (Some _))) in H by eauto; done |].
  rewrite !(bool_decide_false (is_Some None)) in H by (by intros []). cbn in H.
  destruct (match vk_ExpiresAt (kr_key r) with Some e => Before e now | None => false end) eqn:E3; [done |]. cbn in H.
  destruct (tm_ArchivedAt t) eqn:E4; cbn [key_team tm_ArchivedAt] in H;
    [rewrite (bool_decide_true (is_Some (Some _))) in H by eauto; done |].
  rewrite (bool_decide_false (is_Some None)) in H by (by intros []). cbn in H.
  destruct (negb _ && negb _) eqn:E5; [done |]. injection H as <-. split_and!; [done | done | done | | done | done | done].
  split_and!; [| done |].
  - unfold usable. rewrite E1, E2. cbn. destruct (vk_ExpiresAt (kr_key r)); [by rewrite E3 | done].
  - case_bool_decide; [by left | right]. cbn in E5. by destruct (ipAllowed ip _).
Qed.

(** And the other way round: what is admissible is accepted. *)
Lemma bearer_key_admits now ip raw s id r t :
  keys_ok s -> tb_keys s !! id = Some r -> kr_hash r = HashKey raw -> tb_teams s !! vk_TeamID (kr_key r) = Some t ->
  admissible now ip (kr_key r) t ->
  exists c, bearer_key HashKey now ip raw s = Ok c /\ ca_team c = key_team t /\ vk_ID (ca_key c) = vk_ID (kr_key r) /\
    policy_of (ca_key c) = policy_of (kr_key r).
Proof.
  intros Hok Hr Hh Ht (Hu & Ha & Hip). unfold bearer_key, LookupKey. rewrite <- Hh, (lookup_hash s id r Hok Hr). cbn [mbind option_bind].
  rewrite Ht. cbn [mbind option_bind].
  match goal with |- context [with_owner ?k ?o ?a] => set (vk := with_owner k o a) in *; destruct (with_owner_state k o a) as (W1 & W2 & W3 & W4 & _ & _) end.
  fold vk in W1, W2, W3, W4. exists (mkCaller (key_team t) vk (u ← vk_UserID (kr_key r) ≫= fun i => tb_users s !! i; Some (key_owner (ur_user u)))).
  split; [| done]. apply andb_true_iff in Hu as [[H1%bool_decide_eq_true H2%bool_decide_eq_true]%andb_true_iff H3].
  rewrite W1, W2, W3, W4, H1, H2, !(bool_decide_false (is_Some None)) by (by intros []). cbn [fail_if mbind result_bind].
  replace (match vk_ExpiresAt (kr_key r) with Some e => Before e now | None => false end) with false
    by (destruct (vk_ExpiresAt (kr_key r)); [by apply negb_true_iff in H3 | done]).
  cbn [fail_if mbind result_bind key_team tm_ArchivedAt]. rewrite Ha, (bool_decide_false (is_Some None)) by (by intros []).
  cbn [fail_if mbind result_bind].
  replace (negb (bool_decide (vk_AllowedCIDRs (kr_key r) = [])) && negb (ipAllowed ip (vk_AllowedCIDRs (kr_key r)))) with false
    by (destruct Hip as [-> | ->]; [done | by rewrite andb_false_r]).
  done.
Qed.

(** C15. A revoked key is refused for good. Once a key is revoked, in a table with
    unique hashes as the schema demands, whatever the
    administrators and other replicas do to keys afterwards, updates, pauses,
    rotations and new keys included, a request with that key is answered 401,
    whatever its shape and whether or not tokens of issuers are accepted. The
    one request with the same text that passes is not the key's: the text is
    also a token that the keys of a configured issuer verify, and then it acts
    for that token and not for any stored key. *)
Theorem revoked_key_never_admitted (s s' : tables) (id : Z) (r : key_row) (raw ip : string)
    (verifier : option (list JWTTeamConfig)) (now : Z)
    (Hok : keys_ok s) (Hr : tb_keys s !! id = Some r) (Hrevoked : vk_RevokedAt (kr_key r) <> None) (Hsteps : key_steps s s')
    (Hraw : HashKey raw = kr_hash r) :
  match Bearer HashKey keys verifier now ip ("Bearer " +:+ raw) s' with
  | Err (status, _) => status = 401
  | Ok c => exists teams t verify claims, verifier = Some teams /\ looksLikeJWT raw = true /\ t ∈ teams /\
      keys (jt_JWKSURL t) = Some verify /\ verify raw = Some claims /\ vk_ID (ca_key c) = 0
  end.
Proof.
  assert (ExtractBearer ("Bearer " +:+ raw) = raw) as Hx.
  { unfold ExtractBearer. by destruct raw. }
  unfold Bearer. rewrite Hx. destruct (raw =? "")%string; [done |].
  assert (exists msg, bearer_key HashKey now ip raw s' = Err (401, msg)) as [msg ->].
  { destruct (key_steps_change s s' Hok Hsteps) as [Hc Hok']. destruct (Hc id r Hr) as (r' & Hr' & _ & _ & Hfix).
    rewrite (Hfix Hrevoked) in Hr'. unfold bearer_key, LookupKey. rewrite Hraw, (lookup_hash s' id r Hok' Hr').
    cbn [mbind option_bind]. destruct (tb_teams s' !! _) as [t|]; cbn [mbind option_bind]; [| eauto].
    destruct (vk_RevokedAt (kr_key r)) as [x|] eqn:E; [| done].
    match goal with |- context [with_owner ?k ?o ?a] => destruct (with_owner_state k o a) as (-> & _) end.
    rewrite E, (bool_decide_true (is_Some (Some x))) by eauto. cbn. eauto. }
  destruct verifier as [teams|]; [| done]. destruct (looksLikeJWT raw) eqn:Hshape; [| done].
  destruct (Verify keys teams raw s') as [[p|]|] eqn:Hv; [| done | done].
  apply Verify_sound in Hv as (t & verify & claims & Ht & Hk & Hc & _). exists teams, t, verify, claims. by split_and!.
Qed.

End Keys.

(** No issuer's keys are loaded. *)
Definition no_keys (url : string) : option (string -> option (gmap string claim)) := None.

(** A key with the shape of a token, once it is revoked. *)
Lemma revoked_key_never_admitted_witness :
  let s := key_run (KRevoke 5 1) (mkTables (tb_teams example_tables) ∅ ∅ {[1 := mkKeyRow "gw-a.b.c-00" example_key]} ∅ ∅ ∅ ∅ 8) in
  looksLikeJWT "gw-a.b.c-00" = true /\
  match Bearer (fun raw => raw) no_keys (Some []) 9 "10.1.2.3" ("Bearer " +:+ "gw-a.b.c-00") (key_run (KPause 8 1 false) s) with
  | Err (status, _) => status = 401
  | Ok c => exists teams t verify claims, Some [] = Some teams /\ looksLikeJWT "gw-a.b.c-00" = true /\ t ∈ teams /\
      no_keys (jt_JWKSURL t) = Some verify /\ verify "gw-a.b.c-00" = Some claims /\ vk_ID (ca_key c) = 0
  end.
Proof.
  intros s. split; [reflexivity |]. destruct (tb_keys s !! 1) as [r|] eqn:Er; [| vm_compute in Er; discriminate].
  refine (revoked_key_never_admitted (fun raw => raw) no_keys s (key_run (KPause 8 1 false) s) 1 r "gw-a.b.c-00" "10.1.2.3" (Some []) 9 _ Er _ _ _).
  - apply key_run_change. split; cbn.
    + intros id k [<- <-]%lookup_singleton_Some. lia.
    + by intros id id' k k' [<- <-]%lookup_singleton_Some [<- <-]%lookup_singleton_Some.
  - vm_compute in Er. injection Er as <-. discriminate.
  - apply steps_op, steps_refl.
  - vm_compute in Er. injection Er as <-. reflexivity.
Defined.

(** A token with the shape of a signed one is refused when no team accepts it, also
    when it is a virtual key: a team whose name has two dots cannot use its keys
    once any team has an issuer. *)
Lemma dotted_key_is_refused :
  let raw := "gw-a.b.c-00" in
  let s := mkTables (tb_teams example_tables) ∅ ∅ {[1 := mkKeyRow raw example_key]} ∅ ∅ ∅ ∅ 8 in
  let issuer := mkJWTTeamConfig 9 "other" "https://issuer" "team_slug" "" in
  (exists c, Bearer (fun raw => raw) (fun _ => None) (Some []) 9 "10.1.2.3" ("Bearer " +:+ raw) s = Ok c) /\
  Bearer (fun raw => raw) (fun _ => None) (Some [issuer]) 9 "10.1.2.3" ("Bearer " +:+ raw) s = Err (401, "jwt verification failed").
Proof. vm_compute. eauto. Qed.

