(* ===== verification/Accounts.v ===== *)
(** * Accounts ([api/oidc.go], [api/admin.go], [api/me.go])

    Sign-in through an identity provider, the role and team it maps, the
    administrator's changes of accounts, and what the account handlers of [Auth]
    guarantee together: a password reset ends what was open, a disabled account
    stays out however it tries to come back, an invite opens one account when its
    acceptances do not overlap. *)

From S2P Require Import Prelude GoStrings Models Identity ClientIp Auth.
From Stdlib Require Import Ascii.

(** ** Sign-in with an identity provider *)

Record OIDCConfig := mkOIDCConfig {
  oc_RoleClaim : string;
  oc_RoleMap : option (gmap string string);
  oc_DefaultRole : string;
  oc_TeamFromEmailDomain : gmap string string;
  oc_DefaultTeam : string;
}.

Fixpoint first_mapped (groups : list string) (m : gmap string string) : option string :=
  match groups with
  | [] => None
  | g :: groups => match m !! g with Some r => Some r | None => first_mapped groups m end
  end.

Definition mapRole (groups : list string) (cfg : OIDCConfig) : string :=
  let mapped := if (oc_RoleClaim cfg =? "")%string then None else m ← oc_RoleMap cfg; first_mapped groups m in
  match mapped with
  | Some r => r
  | None => if negb (oc_DefaultRole cfg =? "")%string then oc_DefaultRole cfg else RoleMember
  end.

(** The part after the last [@]. *)
Fixpoint after_last_at (s : string) : option string :=
  match s with
  | EmptyString => None
  | String c s' => match after_last_at s' with Some d => Some d | None => if Ascii.eqb c "@"%char then Some s' else None end
  end.

Definition mapTeam (email : string) (cfg : OIDCConfig) : string :=
  match after_last_at email with
  | None | Some EmptyString => oc_DefaultTeam cfg
  | Some domain => default (oc_DefaultTeam cfg) (oc_TeamFromEmailDomain cfg !! ToLower domain)
  end.

(** What a verified identity token says. *)
Record oidcClaims := mkOidcClaims {
  ocl_Subject : string;
  ocl_Email : string;
  ocl_Name : string;
  ocl_PreferredUsername : string;
  ocl_Groups : list string;
}.

Fixpoint firstNonEmpty (values : list string) : string :=
  match values with [] => "" | v :: values => if (v =? "")%string then firstNonEmpty values else v end.

Section Oidc.
Context (HashKey : string -> string).

(** The upsert of [Callback]: by subject, then by address, then a new user. An
    update of the mapping that fails is logged only. *)
Definition oidc_user (now : Z) (cfg : OIDCConfig) (c : oidcClaims) (s : tables) : tables * answer User :=
  let role := mapRole (ocl_Groups c) cfg in
  let team := mapTeam (ocl_Email c) cfg in
  match LookupUserByOIDCSub (ocl_Subject c) s with
  | Some user => ((ApplyOIDCMapping (us_ID user) role team s).1, Ok user)
  | None =>
      match LookupUserByEmail (ocl_Email c) s with
      | Some existing =>
          match BindOIDCSub (us_ID existing) (ocl_Subject c) s with
          | (s, Ok _) => (s, Ok existing)
          | (s, Err _) => (s, Err (401, "bind sub"))
          end
      | None =>
          match CreateOIDCUser now (ocl_Subject c) (ocl_Email c)
                  (firstNonEmpty [ocl_Name c; ocl_PreferredUsername c; ocl_Email c]) role team s with
          | (s, Ok user) => (s, Ok user)
          | (s, Err _) => (s, Err (401, "create user"))
          end
      end
  end.

(** [Callback] from the verified claims on; [state] and [nonce] are what the
    browser sent back against its cookies. *)
Definition Callback (now : Z) (cfg : OIDCConfig) (state nonce : string * string) (c : oidcClaims) (session : string) (s : tables) :
    tables * answer User :=
  if (state.2 =? "")%string then (s, Err (401, "missing oidc state"))
  else if negb (state.1 =? state.2)%string then (s, Err (401, "oidc state mismatch"))
  else if (nonce.2 =? "")%string then (s, Err (401, "missing oidc nonce"))
  else if negb (nonce.1 =? nonce.2)%string then (s, Err (401, "id_token nonce mismatch"))
  else if (ocl_Email c =? "")%string then (s, Err (401, "email claim is required"))
  else
    match oidc_user now cfg c s with
    | (s, Err e) => (s, Err e)
    | (s, Ok user) =>
        match us_DisabledAt user with
        | Some _ => (s, Err (401, "account disabled"))
        | None => open_session HashKey now session user s
        end
    end.

(** [SetUserRole] of [api/admin.go]. *)
Definition set_role (id : Z) (role : string) : tables -> tables :=
  update_user id (map_user (fun u =>
    with_account (us_TeamID u) role (us_OIDCSub u) (us_RoleManagedByOIDC u) (us_DisabledAt u) (us_LastLoginAt u) u)).
Definition set_team (id team : Z) : tables -> tables :=
  update_user id (map_user (fun u =>
    with_account (Some team) (us_Role u) (us_OIDCSub u) (us_RoleManagedByOIDC u) (us_DisabledAt u) (us_LastLoginAt u) u)).

Definition SetUserRole (id : Z) (role team : option string) (s : tables) : tables * answer unit :=
  match role, team with
  | None, None => (s, Err (400, "invalid_request"))
  | _, _ =>
      if match role with Some r => negb (valid_role r) | None => false end then (s, Err (400, "invalid_request"))
      else
        let s := match role with Some r => set_role id r s | None => s end in
        match team with
        | None => (MarkRoleManuallyEdited id s, Ok tt)
        | Some slug =>
            match active_team slug s with
            | None => (s, Err (404, "not_found"))
            | Some teamID => (MarkRoleManuallyEdited id (set_team id teamID s), Ok tt)
            end
        end
  end.

End Oidc.

(** ** Password resets *)

Definition resets_ok (s : tables) : Prop :=
  forall i j r r', tb_resets s !! i = Some r -> tb_resets s !! j = Some r' -> rw_hash r = rw_hash r' -> i = j.

(** A password reset takes the account over. When a reset is consumed, the
    token was open, the password is the new one, the token opens nothing any more,
    every session of the user is gone, and nothing else changes: no other user,
    session or key. *)
Theorem reset_takes_over (HashKey : string -> string) (bcrypt : string -> option string) (s s' : tables) (now : Z)
    (token password : string) (Hok : resets_ok s) (H : Consume HashKey bcrypt now token password true s = (s', Ok tt)) :
  exists id r u row h, LookupPasswordReset now (HashKey token) s = Some (id, r, u) /\ bcrypt password = Some h /\
    tb_users s !! rw_user r = Some row /\ tb_users s' = <[rw_user r := mkUserRow (ur_user row) (Some h)]> (tb_users s) /\
    (forall t, LookupPasswordReset t (HashKey token) s' = None) /\
    (forall hash x, tb_sessions s' !! hash = Some x <-> tb_sessions s !! hash = Some x /\ se_user x <> rw_user r) /\
    tb_keys s' = tb_keys s /\ tb_invites s' = tb_invites s /\ tb_teams s' = tb_teams s.
Proof.
  unfold Consume in H. destruct (token =? "")%string; [done |]. destruct (String.length password <? 8)%nat; [done |].
  destruct (LookupPasswordReset now (HashKey token) s) as [[[id r] u]|] eqn:El; [| done].
  destruct (HashPassword bcrypt password) as [h|] eqn:Eh; [| done].
  assert (bcrypt password = Some h) as Hb by (unfold HashPassword in Eh; by destruct (String.length password <? minPasswordLen)%nat).
  pose proof El as El0. unfold LookupPasswordReset in El. destruct (find_row _ (tb_resets s)) as [[i r0]|] eqn:Ef; cbn in El; [| done].
  destruct (tb_users s !! rw_user r0) as [row|] eqn:Eu; cbn in El; [| done].
  destruct ((now <? rw_expires r0) && bool_decide (rw_used r0 = None) && bool_decide (us_ArchivedAt (ur_user row) = None)) eqn:Ec; [| done].
  injection El as -> -> <-. apply andb_true_iff in Ec as [[_ Hused%bool_decide_eq_true]%andb_true_iff Harch].
  unfold UpdatePasswordHash in H. rewrite Eu, Harch in H. pose proof (find_row_Some _ _ _ _ Ef) as [Hrow Hhash].
  unfold MarkPasswordResetUsed in H. cbn [set_users tb_resets] in H. rewrite Hrow, Hused in H. injection H as <-.
  exists id, r, (ur_user row), row, h. split_and!; try done.
  - intros t. unfold LookupPasswordReset. cbn [tb_resets DeleteSessionsForUser set_sessions set_resets set_users tb_users].
    match goal with |- context [find_row ?p ?m] => destruct (find_row p m) as [[j rj]|] eqn:Ej end; cbn; [| done].
    apply find_row_Some in Ej as [Hj Hh%String.eqb_eq].
    match goal with |- context [?m !! rw_user rj] => destruct (m !! rw_user rj) as [uj|] end; cbn; [| done].
    assert (rw_used rj <> None) as Hn.
    { destruct (decide (j = id)) as [-> | Hne].
      - rewrite lookup_insert_eq in Hj. by injection Hj as <-.
      - rewrite lookup_insert_ne in Hj by done. apply String.eqb_eq in Hhash. destruct Hne. eapply Hok; [done | done | congruence]. }
    rewrite (bool_decide_false (rw_used rj = None)) by done. by rewrite andb_false_r.
  - intros hash x. cbn. rewrite map_lookup_filter_Some. done.
Qed.

Definition example_user : User := new_user 3 "ada@example.com" "Ada" "" false (Some 7) RoleMember 0.

(** A user with two sessions beside another one's, an open reset and an open
    invite. *)
Definition example_accounts : tables :=
  mkTables (tb_teams example_tables) {[3 := mkUserRow example_user (Some "h:oldpassword"); 4 := mkUserRow (new_user 4 "bob@example.com" "Bob" "b-sub" true None RoleMember 0) None]} ∅ (tb_keys example_tables)
    {["s1" := mkSessionRow 3 100 None; "s2" := mkSessionRow 3 100 None; "s3" := mkSessionRow 4 100 None]}
    {[5 := mkInvite "inv" "inv" "" (Some 7) "manager" 50 None None]} {[6 := mkResetRow 3 "tok" 50 None]} ∅ 8.

Lemma reset_takes_over_witness :
  resets_ok example_accounts /\
  exists s', Consume (fun t => t) (fun p => Some ("h:" +:+ p)) 9 "tok" "newpassword" true example_accounts = (s', Ok tt) /\
    tb_sessions s' !! "s3" = Some (mkSessionRow 4 100 None) /\ (forall x, tb_sessions s' !! "s1" <> Some x).
Proof.
  assert (resets_ok example_accounts) as Hok by (intros i j r r'; cbn; intros [<- <-]%lookup_singleton_Some [<- <-]%lookup_singleton_Some; reflexivity).
  split; [exact Hok |].
  destruct (Consume (fun t => t) (fun p => Some ("h:" +:+ p)) 9 "tok" "newpassword" true example_accounts) as [s' [[]|e]] eqn:E;
    [| vm_compute in E; discriminate].
  exists s'. split; [reflexivity |].
  destruct (reset_takes_over (fun t => t) (fun p => Some ("h:" +:+ p)) example_accounts s' 9 "tok" "newpassword" Hok E)
    as (id & r & u & row & h & Hl & _ & _ & _ & _ & Hs & _).
  assert (rw_user r = 3) as Hu by (vm_compute in Hl; injection Hl as _ <- _; reflexivity).
  split; [apply Hs; split; [reflexivity | rewrite Hu; discriminate] |].
  intros x [Hx Hn]%Hs. destruct Hn. rewrite Hu. vm_compute in Hx. injection Hx as <-. reflexivity.
Defined.

(** ** Histories of the account endpoints *)

(** A request to an account endpoint, with its instant, the token the handler
    draws, and whether its best effort statement ran. *)
Inductive account_op :=
| ASession (now : Z) (c : credentials)
| ALogin (now : Z) (email password token : string)
| ALogout (c : credentials)
| AAccept (now : Z) (r : accept_request)
| ACallback (now : Z) (state nonce : string * string) (c : oidcClaims) (session : string)
| AInvite (now : Z) (p : option Principal) (email slug role : string) (hours : Z) (token prefix : string)
| AIssue (now id : Z) (token : string)
| AConsume (now : Z) (token password : string) (deleted : bool)
| APassword (user : Z) (current new : string)
| ADisabled (now id : Z) (disabled deleted : bool)
| ARole (id : Z) (role team : option string).

Section Histories.
Context (HashKey : string -> string) (compare : string -> string -> bool) (bcrypt : string -> option string).
Context (masterKey : string) (cfg : OIDCConfig).

(** The user a request signs in or is authenticated as. *)
Definition signed {A} (f : A -> option User) (r : tables * answer A) : tables * option User :=
  (r.1, match r.2 with Ok a => f a | Err _ => None end).

Definition account_run (op : account_op) (s : tables) : tables * option User :=
  match op with
  | ASession now c => signed (fun pr => pr_User pr.1) (Session HashKey masterKey now c s)
  | ALogin now email password token => signed Some (Login HashKey compare now email password token s)
  | ALogout c => (Logout HashKey c s, None)
  | AAccept now r => signed Some (AcceptInvite HashKey bcrypt now r s)
  | ACallback now state nonce c session => signed Some (Callback HashKey now cfg state nonce c session s)
  | AInvite now p email slug role hours token prefix =>
      signed (fun _ => None) (admin_CreateInvite HashKey now p email slug role hours token prefix s)
  | AIssue now id token => signed (fun _ => None) (IssuePasswordReset HashKey now id token s)
  | AConsume now token password deleted => signed (fun _ => None) (Consume HashKey bcrypt now token password deleted s)
  | APassword user current new => signed (fun _ => None) (ChangePassword compare bcrypt user current new s)
  | ADisabled now id disabled deleted => (admin_SetUserDisabled now id disabled deleted s, None)
  | ARole id role team => signed (fun _ => None) (SetUserRole id role team s)
  end.

Fixpoint account_history (ops : list account_op) (s : tables) : tables * list User :=
  match ops with
  | [] => (s, [])
  | op :: ops =>
      let '(s, u) := account_run op s in
      let '(s, us) := account_history ops s in (s, match u with Some u => u :: us | None => us end)
  end.

(** The serial numbers of users and invites, and the unique hash of an invite. *)
Definition accounts_ok (s : tables) : Prop :=
  (forall id r, tb_users s !! id = Some r -> us_ID (ur_user r) = id /\ id < tb_seq s) /\
  (forall i x, tb_invites s !! i = Some x -> i < tb_seq s) /\
  (forall i j x y, tb_invites s !! i = Some x -> tb_invites s !! j = Some y -> iv_hash x = iv_hash y -> i = j).

Definition disabled_user (id : Z) (s : tables) : Prop :=
  exists r, tb_users s !! id = Some r /\ us_DisabledAt (ur_user r) <> None.

Definition used_invite (hash : string) (s : tables) : Prop :=
  exists i x, tb_invites s !! i = Some x /\ iv_hash x = hash /\ iv_AcceptedAt x <> None.

(** A change that leaves the users of [k] disabled and used invites used. *)
Definition account_change (k : Z -> Prop) (s s' : tables) : Prop :=
  accounts_ok s' /\ (forall id, k id -> disabled_user id s -> disabled_user id s') /\
  (forall hash, used_invite hash s -> used_invite hash s').

Lemma change_refl k s : accounts_ok s -> account_change k s s.
Proof. intros Hok. unfold account_change. by split_and!. Qed.

Lemma change_trans k s1 s2 s3 : account_change k s1 s2 -> account_change k s2 s3 -> account_change k s1 s3.
Proof. intros (_ & H1 & H2) (Hok & H3 & H4). unfold account_change. split_and!; [done | eauto | eauto]. Qed.

(** What writes neither users nor invites. *)
Lemma change_other k s s' :
  accounts_ok s -> tb_users s' = tb_users s -> tb_invites s' = tb_invites s -> tb_seq s <= tb_seq s' -> account_change k s s'.
Proof.
  intros (H1 & H2 & H3) Hu Hi Hs. unfold account_change, accounts_ok, disabled_user, used_invite. rewrite Hu, Hi. split_and!; try done.
  - intros id r Hr. destruct (H1 id r Hr). lia.
  - intros i x Hx. specialize (H2 i x Hx). lia.
Qed.

Lemma change_sessions k s m : accounts_ok s -> account_change k s (set_sessions m s).
Proof. intros Hok. by apply change_other. Qed.

Lemma change_update (k : Z -> Prop) s i f :
  accounts_ok s -> (forall r, us_ID (ur_user (f r)) = us_ID (ur_user r)) ->
  (forall r, k i -> us_DisabledAt (ur_user r) <> None -> us_DisabledAt (ur_user (f r)) <> None) ->
  account_change k s (update_user i f s).
Proof.
  intros Hok Hid Hf. unfold update_user. destruct (tb_users s !! i) as [r|] eqn:E; [| by apply change_refl].
  destruct Hok as (H1 & H2 & H3). unfold account_change, accounts_ok. split_and!; [| done | done | | done].
  - intros id x. cbn. intros [[<- <-] | [_ Hx]]%lookup_insert_Some; [rewrite Hid |]; by apply H1.
  - intros id Hk (x & Hx & Hd). unfold disabled_user. cbn. destruct (decide (id = i)) as [-> | Hne].
    + rewrite lookup_insert_eq. eexists. split; [done |]. apply Hf; [done | congruence].
    + rewrite lookup_insert_ne by done. eauto.
Qed.

Lemma change_insert k s mk pw :
  accounts_ok s -> (forall id, us_ID (mk id) = id) -> account_change k s (insert_user mk pw s).1.
Proof.
  intros Hok Hid. unfold insert_user. destruct (_ || _); [by apply change_refl |].
  destruct Hok as (H1 & H2 & H3). unfold account_change, accounts_ok. split_and!; [| | done | | done].
  - intros id x. cbn. intros [[<- <-] | [_ Hx]]%lookup_insert_Some; [cbn; rewrite Hid; lia |]. destruct (H1 id x Hx). lia.
  - intros i x Hx. cbn in *. specialize (H2 i x Hx). lia.
  - intros id _ (x & Hx & Hd). unfold disabled_user. cbn. destruct (H1 id x Hx). rewrite lookup_insert_ne by lia. eauto.
Qed.

Lemma change_invite k s hash prefix email role team expires :
  accounts_ok s -> account_change k s (CreateInvite hash prefix email role team expires s).1.
Proof.
  intros Hok. unfold CreateInvite. destruct (find_row _ _) as [p|] eqn:E; [by apply change_refl |].
  destruct Hok as (H1 & H2 & H3). unfold account_change, accounts_ok. split_and!; [| | | done |]; cbn.
  - intros id x Hx. destruct (H1 id x Hx). lia.
  - intros i x [[<- <-] | [_ Hx]]%lookup_insert_Some; [lia |]. specialize (H2 i x Hx). lia.
  - assert (forall i x, tb_invites s !! i = Some x -> iv_hash x <> hash) as Hnew.
    { intros i x Hx. by apply String.eqb_neq, (find_row_None _ _ i x E). }
    intros i j x y [[<- <-] | [_ Hx]]%lookup_insert_Some [[<- <-] | [_ Hy]]%lookup_insert_Some He; cbn in He; eauto.
    + by destruct (Hnew j y Hy).
    + by destruct (Hnew i x Hx).
  - intros h (i & x & Hx & Hh). exists i, x. cbn. specialize (H2 i x Hx). rewrite lookup_insert_ne by lia. done.
Qed.

Lemma change_accepted k s now hash user : accounts_ok s -> account_change k s (MarkInviteAccepted now hash user s).1.
Proof.
  intros Hok. unfold MarkInviteAccepted. destruct (find_row _ _) as [[i x]|] eqn:E; [| by apply change_refl].
  destruct (_ && _); [| by apply change_refl]. apply find_row_Some in E as [Hx _].
  destruct Hok as (H1 & H2 & H3). unfold account_change, accounts_ok. split_and!; [done | | | done |]; cbn.
  - intros j y [[<- _] | [_ Hy]]%lookup_insert_Some; [by eapply H2 | by eapply H2].
  - intros j l y z [[<- <-] | [_ Hy]]%lookup_insert_Some [[<- <-] | [_ Hz]]%lookup_insert_Some He; cbn in He; eauto.
  - intros h (j & y & Hy & Hh & Hd). unfold used_invite. cbn. destruct (decide (j = i)) as [-> | Hne].
    + exists i. rewrite lookup_insert_eq. eexists. split; [done |]. replace x with y by congruence. done.
    + exists j, y. by rewrite lookup_insert_ne by done.
Qed.

Lemma change_open k s now token user : accounts_ok s -> account_change k s (open_session HashKey now token user s).1.
Proof.
  intros Hok. unfold open_session, CreateSession. destruct (tb_sessions s !! _); [by apply change_refl |]. cbn.
  eapply change_trans; [by apply change_sessions |]. apply change_update; [| done | done]. by apply (change_sessions k s).
Qed.

Lemma change_accept k s now r : accounts_ok s -> account_change k s (AcceptInvite HashKey bcrypt now r s).1.
Proof.
  intros Hok. unfold AcceptInvite. destruct (accept_check _ _ _ _ _) as [[inv h]|e]; [| by apply change_refl].
  unfold accept_create, CreateUser. destruct (negb (valid_role _)); [by apply change_refl |].
  match goal with |- context [insert_user ?mk ?pw s] =>
    pose proof (change_insert k s mk pw Hok ltac:(done)) as Hc; destruct (insert_user mk pw s) as [s1 [u|e]] end; [| exact Hc].
  eapply change_trans; [exact Hc |]. unfold accept_finish.
  pose proof (change_accepted k s1 now (HashKey (ac_token r)) (us_ID u) (proj1 Hc)) as Hm.
  destruct (MarkInviteAccepted _ _ _ _) as [s2 [[]|e]]; [| exact Hm].
  eapply change_trans; [exact Hm |]. apply change_open, Hm.
Qed.

Lemma change_oidc k s now c : accounts_ok s -> account_change k s (oidc_user now cfg c s).1.
Proof.
  intros Hok. unfold oidc_user. destruct (LookupUserByOIDCSub _ _) as [u|].
  { cbn. unfold ApplyOIDCMapping. destruct (tb_users s !! _); [| by apply change_refl].
    destruct (negb _); [by apply change_refl |]. by apply change_update. }
  destruct (LookupUserByEmail _ _) as [u|].
  - unfold BindOIDCSub. destruct (find_row _ _) as [[i x]|]; [destruct (_ =? _); by apply change_refl |]. by apply change_update.
  - unfold CreateOIDCUser. match goal with |- context [insert_user ?mk ?pw s] =>
      pose proof (change_insert k s mk pw Hok ltac:(done)) as Hc; destruct (insert_user mk pw s) as [s1 [u|e]] end; exact Hc.
Qed.

Lemma change_callback k s now state nonce c session :
  accounts_ok s -> account_change k s (Callback HashKey now cfg state nonce c session s).1.
Proof.
  intros Hok. unfold Callback. repeat (case_match; [by apply change_refl |]).
  pose proof (change_oidc k s now c Hok) as Hc. destruct (oidc_user now cfg c s) as [s1 [u|e]]; [| exact Hc].
  destruct (us_DisabledAt u); [exact Hc |]. eapply change_trans; [exact Hc |]. apply change_open, Hc.
Qed.

Lemma change_password k s id hash : accounts_ok s -> account_change k s (UpdatePasswordHash id hash s).1.
Proof.
  intros Hok. pose proof (change_update k s id (fun r => mkUserRow (ur_user r) (Some hash)) Hok ltac:(done) ltac:(done)) as Hc.
  unfold UpdatePasswordHash. unfold update_user in Hc. destruct (tb_users s !! id); [| by apply change_refl].
  destruct (bool_decide _); [exact Hc | by apply change_refl].
Qed.

(** What a role change does to the account row. *)
Lemma change_role k s id role team : accounts_ok s -> account_change k s (SetUserRole id role team s).1.
Proof.
  intros Hok. assert (forall s', account_change k s s' -> account_change k s (MarkRoleManuallyEdited id s')) as Hm.
  { intros s' Hc. eapply change_trans; [exact Hc |]. apply change_update; [apply Hc | done | done]. }
  assert (account_change k s (match role with Some r => set_role id r s | None => s end)) as Hr.
  { destruct role; [by apply change_update | by apply change_refl]. }
  assert (forall t, account_change k s (match role with Some r => set_role id r s | None => s end) ->
            account_change k s (MarkRoleManuallyEdited id (set_team id t (match role with Some r => set_role id r s | None => s end)))) as Ht.
  { intros t Hc. apply Hm. eapply change_trans; [exact Hc |]. by apply change_update; [apply Hc | |]. }
  unfold SetUserRole. destruct role as [r|]; [destruct (negb _) |]; destruct team as [t|]; try (by apply change_refl);
    try (by apply Hm); (destruct (active_team _ _); [by apply Ht | exact Hr]).
Qed.

Definition reenables (op : account_op) (id : Z) : Prop :=
  match op with ADisabled _ i false _ => i = id | _ => False end.

Lemma account_run_change op s : accounts_ok s -> account_change (fun id => ~ reenables op id) s (account_run op s).1.
Proof.
  intros Hok. destruct op; cbn [account_run signed fst].
  - unfold Session. repeat (case_match; try by apply change_refl); by apply change_other.
  - unfold Login. case_match; [by apply change_refl |]. destruct (GetUserByEmail _ _) as [[u h]|]; [| by apply change_refl].
    case_match; [by apply change_refl |]. destruct (us_DisabledAt u); [by apply change_refl | by apply change_open].
  - unfold Logout. by repeat case_match; apply change_other.
  - by apply change_accept.
  - by apply change_callback.
  - unfold admin_CreateInvite. destruct (invite_role role); [| by apply change_refl]. cbv zeta.
    match goal with |- context [match (if IsAdmin p then ?a else ?b) with _ => _ end] =>
      destruct (if IsAdmin p then a else b) as [sl|]; [| by apply change_refl] end.
    match goal with |- context [match (if (sl =? "")%string then ?a else ?b) with _ => _ end] =>
      destruct (if (sl =? "")%string then a else b) as [t|]; [| by apply change_refl] end.
    match goal with |- context [CreateInvite ?h ?p ?e ?r ?t ?x s] =>
      pose proof (change_invite (fun _ => True) s h p e r t x Hok) as Hc; destruct (CreateInvite h p e r t x s) as [s1 [v|e1]] end.
    all: destruct Hc as (H1 & H2 & H3); split_and!; [done | by eauto | done].
  - unfold IssuePasswordReset, CreatePasswordReset. destruct (GetUserByID _ _); [| by apply change_refl].
    destruct (find_row _ _); [by apply change_refl |]. apply change_other; cbn; [done | done | done | lia].
  - unfold Consume. repeat (case_match; [by apply change_refl |]). destruct (LookupPasswordReset _ _ _) as [[[i r] u]|]; [| by apply change_refl].
    destruct (HashPassword _ _); [| by apply change_refl].
    match goal with |- account_change ?k s _ => pose proof (change_password k s (rw_user r) s0 Hok) as Hc end.
    destruct (UpdatePasswordHash _ _ _) as [s1 [[]|e]]; [| exact Hc]. eapply change_trans; [exact Hc |]. cbn.
    unfold MarkPasswordResetUsed. destruct (tb_resets s1 !! i) as [x|]; [destruct (rw_used x) |]; destruct deleted; cbn;
      by apply change_other; [apply Hc | | |].
  - unfold ChangePassword. repeat (case_match; [by apply change_refl |]). destruct (GetUserPasswordHash _ _); [| by apply change_refl].
    case_match; [by apply change_refl |]. destruct (HashPassword _ _); [| by apply change_refl].
    match goal with |- account_change ?k s _ => pose proof (change_password k s user s0 Hok) as Hc end.
    by destruct (UpdatePasswordHash _ _ _) as [s1 [[]|e]].
  - unfold admin_SetUserDisabled.
    assert (account_change (fun j => ~ reenables (ADisabled now id disabled deleted) j) s (SetUserDisabled now id disabled s)) as Hc.
    { apply change_update; [done | done |]. intros r Hk Hd. cbn. destruct disabled; [done | by destruct Hk]. }
    destruct (disabled && deleted); [| exact Hc]. eapply change_trans; [exact Hc |]. by apply change_other; [apply Hc | | |].
  - by apply change_role.
Qed.

Lemma enabled_row s id r :
  accounts_ok s -> tb_users s !! id = Some r -> us_DisabledAt (ur_user r) = None -> ~ disabled_user (us_ID (ur_user r)) s.
Proof. intros (H1 & _) Hr Hd (x & Hx & Hn). destruct (H1 id r Hr) as [Hid _]. rewrite Hid in Hx. congruence. Qed.

Lemma fresh_user s mk pw s' u :
  accounts_ok s -> (forall id, us_ID (mk id) = id) -> insert_user mk pw s = (s', Ok u) -> ~ disabled_user (us_ID u) s.
Proof.
  intros (H1 & _) Hid. unfold insert_user. destruct (_ || _); [done |]. intros [= _ <-] (x & Hx & _). cbn in Hx.
  destruct (H1 _ _ Hx) as [_ Hlt]. rewrite Hid in Hlt. lia.
Qed.

Lemma open_session_user now token user s s' u : open_session HashKey now token user s = (s', Ok u) -> u = user.
Proof. unfold open_session. destruct (CreateSession _ _ _ _) as [s1 [[]|e]]; [| done]. by intros [= _ <-]. Qed.

Lemma oidc_user_enabled s s' now c u :
  accounts_ok s -> oidc_user now cfg c s = (s', Ok u) -> us_DisabledAt u = None -> ~ disabled_user (us_ID u) s.
Proof.
  intros Hok. unfold oidc_user, LookupUserByOIDCSub, LookupUserByEmail. destruct (find_row _ _) as [[i r]|] eqn:E; cbn.
  { intros [= _ <-] Hd. apply find_row_Some in E as [Hr _]. exact (enabled_row s i r Hok Hr Hd). }
  destruct (find_row (by_email _) _) as [[i r]|] eqn:E2; cbn.
  - destruct (BindOIDCSub _ _ _) as [s1 [[]|e]]; [| done]. intros [= _ <-] Hd. apply find_row_Some in E2 as [Hr _]. exact (enabled_row s i r Hok Hr Hd).
  - unfold CreateOIDCUser. match goal with |- context [insert_user ?mk ?pw s] =>
      destruct (insert_user mk pw s) as [s1 [v|e]] eqn:Ei end; [| done]. intros [= _ <-] _. by refine (fresh_user s _ _ _ _ Hok _ Ei).
Qed.

(** Nobody is signed in as a disabled user. *)
Lemma account_run_enabled op s u :
  accounts_ok s -> (account_run op s).2 = Some u -> ~ disabled_user (us_ID u) s.
Proof.
  intros Hok. destruct op; cbn [account_run]; unfold signed; cbn [snd]; try done;
    try (match goal with |- context [match ?x with Ok _ => None | Err _ => None end] => by destruct x end).
  - unfold Session. destruct (_ =? "")%string; [done |]. destruct (_ && _); [done |].
    unfold LookupSession. destruct (tb_sessions s !! _) as [x|]; cbn; [| done].
    destruct (tb_users s !! se_user x) as [r|] eqn:Er; cbn; [| done]. destruct (_ && _); [| done].
    destruct (us_DisabledAt (load_user s (ur_user r))) eqn:Ed; [done |]. intros [= <-]. exact (enabled_row s _ r Hok Er Ed).
  - unfold Login. destruct (_ || _); [done |]. unfold GetUserByEmail. destruct (find_row _ _) as [[i r]|] eqn:E; cbn; [| done].
    destruct (negb _); [done |]. destruct (us_DisabledAt (ur_user r)) eqn:Ed; [done |]. apply find_row_Some in E as [Hr _].
    destruct (open_session _ _ _ _ _) as [s1 [v|e]] eqn:Eo; [| done]. apply open_session_user in Eo as ->. intros [= <-].
    exact (enabled_row s i r Hok Hr Ed).
  - unfold AcceptInvite. destruct (accept_check _ _ _ _ _) as [[inv h]|e]; [| done]. unfold accept_create, CreateUser.
    destruct (negb (valid_role _)); [done |]. match goal with |- context [insert_user ?mk ?pw s] =>
      destruct (insert_user mk pw s) as [s1 [v|e]] eqn:Ei end; [| done]. unfold accept_finish.
    destruct (MarkInviteAccepted _ _ _ _) as [s2 [[]|e]]; [| done].
    destruct (open_session _ _ _ _ _) as [s3 [w|e]] eqn:Eo; [| done]. apply open_session_user in Eo as ->. intros [= <-].
    by refine (fresh_user s _ _ _ _ Hok _ Ei).
  - unfold Callback. do 5 (match goal with |- context [if ?b then _ else _] => destruct b; [done |] end).
    destruct (oidc_user now cfg c s) as [s1 [v|e]] eqn:Ei; [| done].
    destruct (us_DisabledAt v) eqn:Ed; [done |]. destruct (open_session _ _ _ _ _) as [s3 [w|e]] eqn:Eo; [| done].
    apply open_session_user in Eo as ->. intros [= <-]. by refine (oidc_user_enabled s _ _ _ _ Hok Ei Ed).
Qed.

Lemma account_history_change ops s id :
  accounts_ok s -> Forall (fun op => ~ reenables op id) ops -> disabled_user id s ->
  accounts_ok (account_history ops s).1 /\ disabled_user id (account_history ops s).1 /\
  Forall (fun u => us_ID u <> id) (account_history ops s).2.
Proof.
  revert s. induction ops as [| op ops IH]; intros s Hok Hops Hd; cbn [account_history]; [done |].
  inversion_clear Hops as [| ? ? Hop Hops']. pose proof (account_run_change op s Hok) as (Hok' & Hk & _).
  pose proof (account_run_enabled op s) as He. destruct (account_run op s) as [s1 u]. cbn in *.
  destruct (IH s1 Hok' Hops' (Hk id Hop Hd)) as (H1 & H2 & H3). destruct (account_history ops s1) as [s2 us]. cbn in *.
  split_and!; [done | done |]. destruct u as [u|]; [| done]. constructor; [| done]. intros <-. by destruct (He u Hok eq_refl).
Qed.

Lemma account_history_used ops s hash :
  accounts_ok s -> used_invite hash s -> accounts_ok (account_history ops s).1 /\ used_invite hash (account_history ops s).1.
Proof.
  revert s. induction ops as [| op ops IH]; intros s Hok Hd; cbn [account_history]; [done |].
  pose proof (account_run_change op s Hok) as (Hok' & _ & Hu). destruct (account_run op s) as [s1 u]. cbn in *.
  specialize (IH s1 Hok' (Hu hash Hd)). by destruct (account_history ops s1).
Qed.

(** A disabled account stays out. From the administrator's disable on, no
    request of any later sequence is authenticated as that user, or signs the user
    in: not with a session that survived, a password, a reset that was open, an
    invite, or the identity provider, until an administrator enables the account
    again. *)
Theorem disabled_account_stays_out (s : tables) (now id : Z) (deleted : bool) (ops : list account_op)
    (Hok : accounts_ok s) (Huser : is_Some (tb_users s !! id)) (Hops : Forall (fun op => ~ reenables op id) ops) :
  Forall (fun u => us_ID u <> id) (account_history (ADisabled now id true deleted :: ops) s).2.
Proof.
  cbn [account_history account_run]. pose proof (account_run_change (ADisabled now id true deleted) s Hok) as (Hok' & _ & _).
  cbn [account_run fst] in Hok'. set (s1 := admin_SetUserDisabled now id true deleted s) in *.
  assert (disabled_user id s1) as Hd.
  { destruct Huser as [r Hr]. unfold s1, admin_SetUserDisabled, SetUserDisabled, update_user, disabled_user. rewrite Hr.
    exists (map_user (fun u => with_account (us_TeamID u) (us_Role u) (us_OIDCSub u) (us_RoleManagedByOIDC u)
      (Some (default now (us_DisabledAt u))) (us_LastLoginAt u) u) r).
    destruct deleted; cbn; by rewrite lookup_insert_eq. }
  pose proof (account_history_change ops s1 id Hok' Hops Hd) as (_ & _ & H). by destruct (account_history ops s1).
Qed.

Lemma find_invite s i x :
  accounts_ok s -> tb_invites s !! i = Some x -> find_row (fun y => (iv_hash y =? iv_hash x)%string) (tb_invites s) = Some (i, x).
Proof.
  intros (_ & _ & Hu) Hx. apply find_row_unique; [done | apply String.eqb_refl |]. intros j y Hy He%String.eqb_eq. by eapply Hu.
Qed.

Lemma AcceptInvite_used s now r :
  accounts_ok s -> used_invite (HashKey (ac_token r)) s -> exists e, AcceptInvite HashKey bcrypt now r s = (s, Err e).
Proof.
  intros Hok (i & x & Hx & Hh & Hd). unfold AcceptInvite, accept_check, GetInviteByTokenHash. rewrite <- Hh, (find_invite s i x Hok Hx).
  destruct (ac_token r =? "")%string; cbn; [eauto |]. destruct (_ || _); cbn; [eauto |].
  destruct (iv_AcceptedAt x) as [t|]; [| done]. rewrite (bool_decide_true (is_Some (Some t))) by eauto. cbn. eauto.
Qed.

Lemma insert_user_Ok mk pw s s' u :
  insert_user mk pw s = (s', Ok u) ->
  u = load_user s' (mk (tb_seq s)) /\ tb_invites s' = tb_invites s.
Proof. unfold insert_user. destruct (_ || _); [done |]. by intros [= <- <-]. Qed.

Lemma accept_check_Ok now r s inv h :
  accept_check HashKey bcrypt now r s = Ok (inv, h) ->
  GetInviteByTokenHash (HashKey (ac_token r)) s = Some inv /\ iv_AcceptedAt inv = None /\
  (iv_Email inv = "" \/ ToLower (iv_Email inv) = ToLower (ac_email r)).
Proof.
  unfold accept_check. destruct (ac_token r =? "")%string; [done |]. cbn. destruct (_ || _); [done |]. cbn.
  destruct (GetInviteByTokenHash _ _) as [v|]; [| done]. destruct (iv_AcceptedAt v) as [t|] eqn:Ea.
  { rewrite (bool_decide_true (is_Some (Some t))) by eauto. done. }
  rewrite (bool_decide_false (is_Some None)) by (by intros []). cbn. destruct (After _ _); [done |]. cbn.
  destruct (negb (iv_Email v =? "")%string && _) eqn:Ee; [done |]. cbn. destruct (HashPassword _ _); [| done]. intros [= <- <-].
  split_and!; [done | done |]. apply andb_false_iff in Ee as [He%negb_false_iff%String.eqb_eq | He%negb_false_iff%String.eqb_eq]; auto.
Qed.

Lemma AcceptInvite_Ok s s1 now r u :
  accounts_ok s -> AcceptInvite HashKey bcrypt now r s = (s1, Ok u) ->
  (exists inv, GetInviteByTokenHash (HashKey (ac_token r)) s = Some inv /\ iv_AcceptedAt inv = None /\ now < iv_ExpiresAt inv /\
     us_Role u = normalizeInviteRole (iv_Role inv) /\ us_TeamID u = iv_TeamID inv /\ tb_users s !! us_ID u = None /\
     (iv_Email inv = "" \/ ToLower (iv_Email inv) = ToLower (ac_email r))) /\
  used_invite (HashKey (ac_token r)) s1.
Proof.
  intros Hok. unfold AcceptInvite. destruct (accept_check _ _ _ _ _) as [[inv h]|e] eqn:Ec; [| done].
  destruct (accept_check_Ok _ _ _ _ _ Ec) as (Hget & Hacc & Hemail). unfold accept_create, CreateUser.
  destruct (negb (valid_role _)); [done |]. match goal with |- context [insert_user ?mk ?pw s] =>
    destruct (insert_user mk pw s) as [sa [v|e]] eqn:Ei end; [| done]. apply insert_user_Ok in Ei as [-> Hi].
  unfold accept_finish, MarkInviteAccepted. rewrite Hi. pose proof Hget as Hget0. unfold GetInviteByTokenHash in Hget.
  destruct (find_row _ (tb_invites s)) as [[i x]|] eqn:Ef; cbn in Hget; [| done]. injection Hget as ->. rewrite Hacc.
  apply find_row_Some in Ef as [Hx Hh%String.eqb_eq]. destruct (Z.ltb_spec now (iv_ExpiresAt inv)); cbn; [| done].
  unfold open_session, CreateSession. destruct (tb_sessions _ !! _); [done |]. intros [= <- <-]. split.
  - exists inv. split_and!; try done; [| cbn].
    + unfold normalizeInviteRole. by destruct (iv_Role inv =? "admin")%string, (iv_Role inv =? "manager")%string.
    + destruct (tb_users s !! tb_seq s) as [y|] eqn:Ey; [| done]. destruct Hok as (H1 & _). destruct (H1 _ _ Ey). lia.
  - exists i, (mkInvite (iv_hash inv) (iv_prefix inv) (iv_Email inv) (iv_TeamID inv) (iv_Role inv) (iv_ExpiresAt inv)
      (Some now) (Some (tb_seq s))). split_and!; [| done | done]. unfold UpdateLastLogin, update_user.
    destruct (tb_users _ !! _); cbn; by rewrite lookup_insert_eq.
Qed.

(** An invite opens one account, of the role and team it was made for. After
    an acceptance that succeeded, every later acceptance of the same token is
    refused and changes nothing, whatever else happened in between. *)
Theorem invite_opens_one_account (s s1 : tables) (now now' : Z) (r r' : accept_request) (u : User) (ops : list account_op)
    (Hok : accounts_ok s) (H : AcceptInvite HashKey bcrypt now r s = (s1, Ok u)) (Htoken : HashKey (ac_token r') = HashKey (ac_token r)) :
  (exists inv, GetInviteByTokenHash (HashKey (ac_token r)) s = Some inv /\ iv_AcceptedAt inv = None /\ now < iv_ExpiresAt inv /\
     us_Role u = normalizeInviteRole (iv_Role inv) /\ us_TeamID u = iv_TeamID inv /\ tb_users s !! us_ID u = None /\
     (iv_Email inv = "" \/ ToLower (iv_Email inv) = ToLower (ac_email r))) /\
  let s2 := (account_history ops s1).1 in exists e, AcceptInvite HashKey bcrypt now' r' s2 = (s2, Err e).
Proof.
  pose proof (change_accept (fun _ => True) s now r Hok) as Hc. rewrite H in Hc. destruct Hc as (Hok1 & _).
  destruct (AcceptInvite_Ok s s1 now r u Hok H) as [Hinv Hused]. split; [exact Hinv |]. cbn zeta.
  rewrite <- Htoken in Hused. destruct (account_history_used ops s1 _ Hok1 Hused) as (Hok2 & Hu2).
  by apply AcceptInvite_used.
Qed.

End Histories.

Lemma example_accounts_ok : accounts_ok example_accounts.
Proof.
  unfold accounts_ok. cbn. split_and!.
  - intros id r [[<- <-] | [_ [<- <-]%lookup_singleton_Some]]%lookup_insert_Some; cbn; lia.
  - intros i x [<- _]%lookup_singleton_Some. lia.
  - intros i j x y [<- _]%lookup_singleton_Some [<- _]%lookup_singleton_Some. done.
Qed.

Definition example_oidc : OIDCConfig := mkOIDCConfig "groups" None "member" ∅ "core".

(** The disabled user tries a session, the password, a reset and its new password,
    and the identity provider; another user signs in. *)
Definition comeback : list account_op :=
  [ASession 10 (mkCredentials "s1" "" ""); ALogin 11 "ada@example.com" "oldpassword" "t1"; AConsume 12 "tok" "newpassword" false;
   ALogin 13 "ada@example.com" "newpassword" "t2"; ACallback 14 ("a", "a") ("n", "n") (mkOidcClaims "a-sub" "ada@example.com" "Ada" "" []) "t3";
   ASession 15 (mkCredentials "s3" "" "")].

Definition example_history (ops : list account_op) (s : tables) : tables * list User :=
  account_history (fun t => t) (fun h p => (h =? "h:" +:+ p)%string) (fun p => Some ("h:" +:+ p)) "" example_oidc ops s.

Lemma disabled_account_stays_out_witness :
  map us_ID (example_history comeback example_accounts).2 = [3; 3; 3; 3; 4] /\
  map us_ID (example_history (ADisabled 9 3 true false :: comeback) example_accounts).2 = [4] /\
  Forall (fun u => us_ID u <> 3) (example_history (ADisabled 9 3 true false :: comeback) example_accounts).2.
Proof.
  split; [vm_compute; reflexivity |]. split; [vm_compute; reflexivity |].
  refine (disabled_account_stays_out (fun t => t) (fun h p => (h =? "h:" +:+ p)%string) (fun p => Some ("h:" +:+ p)) "" example_oidc
    example_accounts 9 3 false comeback example_accounts_ok _ _); [vm_compute; eauto |]. repeat constructor; cbn; tauto.
Defined.

Lemma invite_opens_one_account_witness :
  exists s1 u, AcceptInvite (fun t => t) (fun p => Some p) 9 (mkAccept "inv" "eve@example.com" "Eve" "password1" "t1") example_accounts = (s1, Ok u) /\
    us_Role u = "manager" /\
    exists e, AcceptInvite (fun t => t) (fun p => Some p) 10 (mkAccept "inv" "mal@example.com" "Mal" "password2" "t2") s1 = (s1, Err e).
Proof.
  destruct (AcceptInvite (fun t => t) (fun p => Some p) 9 (mkAccept "inv" "eve@example.com" "Eve" "password1" "t1") example_accounts)
    as [s1 [u|e]] eqn:E; [| vm_compute in E; discriminate].
  destruct (invite_opens_one_account (fun t => t) (fun _ _ => true) (fun p => Some p) "" example_oidc example_accounts s1 9 10 _
    (mkAccept "inv" "mal@example.com" "Mal" "password2" "t2") u [] example_accounts_ok E eq_refl) as [(inv & Hi & _ & _ & Hr & _) He].
  exists s1, u. split_and!; [reflexivity | | exact He]. rewrite Hr. vm_compute in Hi. injection Hi as <-. reflexivity.
Defined.

(** The user is created before the invite is marked: two acceptances that both
    passed the checks create an account each, of the invite's role, and the second
    one can sign in with its password although its acceptance is answered 500. *)
Lemma invite_race_creates_two_accounts :
  let id := fun t : string => t in
  let pw := fun p : string => Some p in
  let a := mkAccept "inv" "eve@example.com" "Eve" "password1" "t1" in
  let b := mkAccept "inv" "mal@example.com" "Mal" "password2" "t2" in
  exists inv ha hb s1 ua s2 ub s3,
    accept_check id pw 9 a example_accounts = Ok (inv, ha) /\ accept_check id pw 9 b example_accounts = Ok (inv, hb) /\
    accept_create 9 a inv ha example_accounts = (s1, Ok ua) /\ accept_create 9 b inv hb s1 = (s2, Ok ub) /\
    (accept_finish id 9 a ua s2).2 = Ok ua /\ accept_finish id 9 b ub (accept_finish id 9 a ua s2).1 = (s3, Err (500, "internal_error")) /\
    (Login id (fun h p => (h =? p)%string) 20 "mal@example.com" "password2" "t3" s3).2 = Ok ub /\ us_Role ub = "manager".
Proof.
  intros id pw a b. do 8 eexists. split_and!; [reflexivity | reflexivity | reflexivity | reflexivity | reflexivity | reflexivity | reflexivity | reflexivity].
Qed.
