(* ===== verification/Customers.v ===== *)
(** * Customers ([store/customers.go], [store/customer_concurrency.go],
    [api/customer_admission.go])

    The end users that a team registers, their limits, the registration modes of
    a team and the decision whether a request may name a customer, over the
    tables of [Identity]. The statements that read and write customers are
    functions of the tables; the registration of a new customer is one
    transaction under the lock of its team's row, so two of them never
    interleave. *)

From S2P Require Import Prelude GoStrings Models Identity Json Wire.
From Stdlib Require Import Ascii.

(** ** Validation *)

(** [unicode.IsControl] on UTF-8: the C0 and DEL bytes, and U+0080 to U+009F, which
    are a byte 0xC2 and one more; 0xC2 never continues a code point. *)
Fixpoint has_control (s : string) : bool :=
  match s with
  | EmptyString => false
  | String c s' =>
      let n := nat_of_ascii c in
      (n <? 32)%nat || (n =? 127)%nat
      || (n =? 194)%nat && match s' with String d _ => (128 <=? nat_of_ascii d)%nat && (nat_of_ascii d <=? 159)%nat | EmptyString => false end
      || has_control s'
  end.

Definition ValidateCustomerID (value : string) : bool :=
  negb ((value =? "")%string || (256 <? String.length value)%nat || negb (TrimSpace value =? value)%string)
  && negb (has_control value || contains_byte "/"%char value || contains_byte "\"%char value).

Definition valid_rate (rate : option Z) : bool :=
  match rate with Some r => negb ((r <? 0) || (1000000000 <? r)) | None => true end.

Definition ValidateCustomerLimits (limit : option Z) (period : string) (rpm tpm : option Z) : bool :=
  match limit with Some l => negb ((l <? 0) || (1000000000000 <? l)) | None => true end
  && negb (negb (period =? "")%string && negb (period =? "day")%string && negb (period =? "month")%string)
  && valid_rate rpm && valid_rate tpm.

(** ** The table *)

Definition is_customer (teamID : Z) (externalID : string) (c : Customer) : bool :=
  (cu_TeamID c =? teamID) && (cu_ExternalID c =? externalID)%string.

Definition GetCustomerByExternalID (teamID : Z) (externalID : string) (s : tables) : option Customer :=
  '(_, c) ← find_row (is_customer teamID externalID) (tb_customers s); Some c.

Definition valid_mode (mode : string) : bool :=
  (mode =? "optional")%string || (mode =? "required")%string || (mode =? "auto_create")%string.

Definition with_registration (mode : string) (t : Team) : Team :=
  mkTeam (tm_ID t) (tm_Slug t) (tm_Name t) (tm_UsdLimitCents t) (tm_Period t) (tm_AllowedModels t) (tm_RPM t) (tm_TPM t)
    (tm_MaxParallelRequests t) (tm_CapturePayloads t) mode (tm_CreatedAt t) (tm_ArchivedAt t).

Definition SetCustomerRegistration (teamID : Z) (mode : string) (s : tables) : tables * result store_error unit :=
  if negb (valid_mode mode) then (s, Err (Rejected "customer_registration"))
  else match tb_teams s !! teamID with
       | Some t =>
           if bool_decide (tm_ArchivedAt t = None)
           then (set_teams (<[teamID := with_registration mode t]> (tb_teams s)) s, Ok tt) else (s, Err NotFound)
       | None => (s, Err NotFound)
       end.

Definition insert_customer (c : Z -> Customer) (s : tables) : tables * Customer :=
  (next_id (set_customers (<[tb_seq s := c (tb_seq s)]> (tb_customers s)) s), c (tb_seq s)).

Definition MaxAutoCreatedCustomers : Z := 10000.

Definition team_customers (teamID : Z) (s : tables) : gmap Z Customer :=
  filter (fun kv : Z * Customer => cu_TeamID kv.2 = teamID) (tb_customers s).

Inductive customer_error := CNotFound | CCapacity | CInvalid | CFailed.

(** The transaction of [GetOrCreateCustomer]. *)
Definition register_customer (now teamID : Z) (externalID : string) (s : tables) : tables * result customer_error Customer :=
  match tb_teams s !! teamID with
  | Some t =>
      if negb (bool_decide (tm_ArchivedAt t = None)) then (s, Err CFailed)
      else
        match find_row (is_customer teamID externalID) (tb_customers s) with
        | Some (_, c) => (s, Ok c)
        | None =>
            if MaxAutoCreatedCustomers <=? Z.of_nat (size (team_customers teamID s)) then (s, Err CCapacity)
            else let '(s, c) := insert_customer (fun id =>
                   mkCustomer id teamID externalID "" "{}" None "month" None None None None now) s in (s, Ok c)
        end
  | None => (s, Err CFailed)
  end.

Definition GetOrCreateCustomer (now teamID : Z) (externalID : string) (s : tables) : tables * result customer_error Customer :=
  if negb (ValidateCustomerID externalID) then (s, Err CInvalid)
  else match GetCustomerByExternalID teamID externalID s with
       | Some c => (s, Ok c)
       | None => register_customer now teamID externalID s
       end.

Record CustomerParams := mkCustomerParams {
  cp_Name : string;
  cp_Metadata : string;
  cp_UsdLimitCents : option Z;
  cp_Period : string;
  cp_RPM : option Z;
  cp_TPM : option Z;
  cp_MaxParallelRequests : option Z;
}.

Definition or_month (period : string) : string := if (period =? "")%string then "month" else period.

Definition CreateCustomer (now teamID : Z) (externalID : string) (p : CustomerParams) (s : tables) : tables * result store_error Customer :=
  if negb (ValidateCustomerID externalID) then (s, Err (Rejected "customer ID"))
  else if negb (ValidateCustomerLimits (cp_UsdLimitCents p) (cp_Period p) (cp_RPM p) (cp_TPM p)) then (s, Err (Rejected "limits"))
  else match find_row (is_customer teamID externalID) (tb_customers s) with
       | Some _ => (s, Err Conflict)
       | None =>
           let '(s, c) := insert_customer (fun id =>
             mkCustomer id teamID externalID (cp_Name p) (cp_Metadata p) (cp_UsdLimitCents p) (or_month (cp_Period p)) (cp_RPM p) (cp_TPM p)
               (cp_MaxParallelRequests p) None now) s in (s, Ok c)
       end.

(** A change of the row of a customer that is not archived. *)
Definition update_customer (teamID : Z) (externalID : string) (f : Customer -> Customer) (s : tables) : tables * result store_error Customer :=
  match find_row (is_customer teamID externalID) (tb_customers s) with
  | Some (id, c) =>
      if bool_decide (cu_ArchivedAt c = None)
      then (set_customers (<[id := f c]> (tb_customers s)) s, Ok (f c)) else (s, Err NotFound)
  | None => (s, Err NotFound)
  end.

Definition UpdateCustomer (teamID : Z) (externalID : string) (p : CustomerParams) (s : tables) : tables * result store_error Customer :=
  if negb (ValidateCustomerLimits (cp_UsdLimitCents p) (cp_Period p) (cp_RPM p) (cp_TPM p)) then (s, Err (Rejected "limits"))
  else update_customer teamID externalID (fun c =>
         mkCustomer (cu_ID c) (cu_TeamID c) (cu_ExternalID c) (cp_Name p) (cu_Metadata c) (cp_UsdLimitCents p) (or_month (cp_Period p))
           (cp_RPM p) (cp_TPM p) (cu_MaxParallelRequests c) (cu_ArchivedAt c) (cu_CreatedAt c)) s.

Definition SetCustomerConcurrency (teamID : Z) (externalID : string) (limit : option Z) (s : tables) :
    tables * result store_error Customer :=
  update_customer teamID externalID (fun c =>
    mkCustomer (cu_ID c) (cu_TeamID c) (cu_ExternalID c) (cu_Name c) (cu_Metadata c) (cu_UsdLimitCents c) (cu_Period c)
      (cu_RPM c) (cu_TPM c) limit (cu_ArchivedAt c) (cu_CreatedAt c)) s.

(** ** Which customer a request is admitted under ([api/customer_admission.go]) *)

(** [extractCustomerID]: the gateway's header, the legacy one, the body's user. *)
Definition extractCustomerID (gateway legacy bodyUser : string) : string :=
  if negb (gateway =? "")%string then gateway else if negb (legacy =? "")%string then legacy else bodyUser.

(** The customer of the request's context: a row, or an identity that no row
    stands behind. *)
Definition identity (teamID : Z) (externalID : string) : Customer :=
  mkCustomer 0 teamID externalID "" "" None "" None None None None 0.

(** What the request ends with: the tables, the customer in its context, which
    denials are attributed to as well, and the answer. [store] says whether there
    is a store and whether it answers. *)
Inductive store_state := StoreMissing | StoreFails | StoreAnswers.

Definition resolveRequestCustomer (now : Z) (st : store_state) (context : option Customer) (team : option Team) (id : string)
    (s : tables) : tables * option Customer * result (Z * string) unit :=
  match context, team with
  | Some _, _ | None, None => (s, context, Ok tt)
  | None, Some team =>
      let mode := if (tm_CustomerRegistration team =? "")%string then "optional" else tm_CustomerRegistration team in
      if (id =? "")%string
      then (s, None, if negb (mode =? "optional")%string then Err (403, "customer_required") else Ok tt)
      else if negb (ValidateCustomerID id) then (s, None, Err (400, "invalid_customer"))
      else
        let anonymous := Some (identity (tm_ID team) id) in
        match st with
        | StoreMissing | StoreFails => (s, anonymous, Err (503, "customer_policy_unavailable"))
        | StoreAnswers =>
            let '(s, found) :=
              match GetCustomerByExternalID (tm_ID team) id s with
              | Some c => (s, Ok c)
              | None => if (mode =? "auto_create")%string then GetOrCreateCustomer now (tm_ID team) id s else (s, Err CNotFound)
              end in
            match found with
            | Err CNotFound => (s, anonymous, if (mode =? "optional")%string then Ok tt else Err (403, "customer_not_registered"))
            | Err CCapacity => (s, anonymous, Err (403, "customer_registration_capacity"))
            | Err _ => (s, anonymous, Err (503, "customer_policy_unavailable"))
            | Ok c =>
                (s, Some c,
                 if negb (bool_decide (cu_ArchivedAt c = None)) then Err (403, "customer_archived")
                 else if negb (ValidateCustomerLimits (cu_UsdLimitCents c) (cu_Period c) (cu_RPM c) (cu_TPM c))
                 then Err (503, "customer_policy_unavailable") else Ok tt)
            end
        end
  end.

Definition hasKeyBudget (key : option VirtualKey) : bool :=
  match key ≫= vk_ScopedUsdLimitCents with Some l => 0 <? l | None => false end.

(** [admitUnpricedCustomer]: an endpoint without token prices refuses keys and
    customers with a cost or token policy; the rates are checked with no tokens. *)
Definition admitUnpricedCustomer (key : option VirtualKey) (customer : option Customer) (enforceRateLimit : Z -> result (Z * string) unit) :
    result (Z * string) unit :=
  if hasKeyBudget key then Err (400, "key_accounting_unsupported")
  else if match customer with
          | Some c => bool_decide (is_Some (cu_UsdLimitCents c)) || match cu_TPM c with Some t => 0 <? t | None => false end
          | None => false
          end then Err (400, "customer_accounting_unsupported")
  else enforceRateLimit 0.

(** The decoding of [admitCustomerPricing]. A member that is absent or null says
    nothing; a value of the wrong type is skipped where the code drops the error. *)
Definition present (body : option (gmap text raw)) (k : string) : option raw :=
  match field body k with Some JNull | None => None | Some v => Some v end.

Definition content_of (message : raw) : option raw :=
  match message with
  | JObj m => foldl (fun acc kv => if is_key "content" kv.1 then Some kv.2 else acc) None m
  | _ => None
  end.

Definition part_type (part : raw) : text :=
  match part with
  | JObj m => foldl (fun acc kv => if is_key "type" kv.1 then match kv.2 with JStr t => t | _ => acc end else acc) [] m
  | _ => []
  end.

Definition has_audio (message : raw) : bool :=
  match content_of message with
  | Some (JArr parts) => existsb (fun p => bool_decide (part_type p = txt "input_audio")) parts
  | _ => false
  end.

Definition unsupported_pricing (body : option (gmap text raw)) : bool :=
  existsb (fun k => bool_decide (is_Some (present body k))) ["audio"; "web_search_options"; "prediction"; "moderation"]
  || match present body "service_tier" with
     | Some (JStr t) => negb (bool_decide (t = txt "default"))
     | Some _ => true
     | None => false
     end
  || match present body "modalities" with
     | Some (JArr l) => existsb (fun v => match v with JStr t => negb (bool_decide (t = txt "text")) | _ => true end) l
     | Some _ => true
     | None => false
     end
  || match field body "messages" with Some (JArr l) => existsb has_audio l | _ => false end.

(** A body that is not an object ends without an answer; the endpoints have parsed
    it before. *)
Definition admitCustomerPricing (key : option VirtualKey) (customer : option Customer) (v : raw) : result (Z * string) unit :=
  if negb (hasKeyBudget key) && negb (bool_decide (is_Some (customer ≫= cu_UsdLimitCents))) then Ok tt
  else match into_raw v with
       | None => Err (200, "")
       | Some body =>
           if unsupported_pricing body
           then Err (400, if hasKeyBudget key then "key_accounting_unsupported" else "customer_accounting_unsupported")
           else Ok tt
       end.

(** ** Registration *)

Definition customers_ok (s : tables) : Prop :=
  (forall id c, tb_customers s !! id = Some c -> id < tb_seq s) /\
  (forall id id' c c', tb_customers s !! id = Some c -> tb_customers s !! id' = Some c' ->
     cu_TeamID c = cu_TeamID c' -> cu_ExternalID c = cu_ExternalID c' -> id = id').

Lemma is_customer_spec team ext c : is_customer team ext c = true <-> cu_TeamID c = team /\ cu_ExternalID c = ext.
Proof. unfold is_customer. rewrite andb_true_iff, Z.eqb_eq, String.eqb_eq. done. Qed.

Lemma find_customer s id c :
  customers_ok s -> tb_customers s !! id = Some c -> find_row (is_customer (cu_TeamID c) (cu_ExternalID c)) (tb_customers s) = Some (id, c).
Proof.
  intros [_ Hu] Hc. apply find_row_unique; [done | by apply is_customer_spec |].
  intros k' a' Hk' [Ht He]%is_customer_spec. by eapply Hu.
Qed.

Lemma insert_customer_ok mk s :
  customers_ok s -> (forall id c, tb_customers s !! id = Some c -> is_customer (cu_TeamID (mk (tb_seq s))) (cu_ExternalID (mk (tb_seq s))) c = false) ->
  customers_ok (insert_customer mk s).1.
Proof.
  intros [Hlt Hu] Hnew. split; cbn.
  - intros id c [[<- _] | [_ Hc]]%lookup_insert_Some; [lia |]. apply Hlt in Hc. lia.
  - intros i j c d [[<- <-] | [_ Hc]]%lookup_insert_Some [[<- <-] | [_ Hd]]%lookup_insert_Some Ht He; eauto.
    + pose proof (Hnew j d Hd) as Hf. by rewrite (proj2 (is_customer_spec _ _ _)) in Hf.
    + pose proof (Hnew i c Hc) as Hf. by rewrite (proj2 (is_customer_spec _ _ _)) in Hf.
Qed.

(** One registration: rows stay, a new one is the team's, and within the cap. *)
Lemma register_customer_step now team ext s :
  customers_ok s ->
  let s' := (register_customer now team ext s).1 in
  customers_ok s' /\ tb_customers s ⊆ tb_customers s' /\ tb_teams s' = tb_teams s /\
  (forall t, Z.of_nat (size (team_customers t s')) <= Z.max (Z.of_nat (size (team_customers t s))) MaxAutoCreatedCustomers) /\
  (forall c, (register_customer now team ext s).2 = Ok c ->
     cu_TeamID c = team /\ cu_ExternalID c = ext /\ exists id, tb_customers s' !! id = Some c).
Proof.
  intros Hok. unfold register_customer. destruct (tb_teams s !! team) as [t|]; cbn zeta; cycle 1.
  { split_and!; [done | done | done | intros; cbn; lia | done]. }
  destruct (negb _); [split_and!; [done | done | done | intros; cbn; lia | done] |].
  destruct (find_row _ _) as [[id c]|] eqn:E.
  { split_and!; [done | done | done | intros; cbn; lia |]. intros c' [= <-]. apply find_row_Some in E as [Hc [Ht He]%is_customer_spec]. cbn. eauto. }
  destruct (Z.leb_spec MaxAutoCreatedCustomers (Z.of_nat (size (team_customers team s)))) as [Hle | Hlt].
  { split_and!; [done | done | done | intros; cbn; lia | done]. }
  assert (tb_customers s !! tb_seq s = None) as Hfree.
  { destruct (tb_customers s !! tb_seq s) eqn:Es; [| done]. apply Hok in Es. lia. }
  match goal with |- context [insert_customer ?mk s] =>
    pose proof (insert_customer_ok mk s Hok ltac:(intros i d Hd; by apply (find_row_None _ _ i d E))) as Hok' end.
  cbn [insert_customer fst snd] in *. split_and!; [done | | done | |].
  - by apply insert_subseteq.
  - intros t'. unfold team_customers. cbn. rewrite map_filter_insert. cbn. case_decide as Hd.
    + subst t'. rewrite map_size_insert_None by (rewrite map_lookup_filter_None; by left). unfold team_customers in Hlt. lia.
    + rewrite delete_id by done. lia.
  - intros c [= <-]. split_and!; [done | done |]. exists (tb_seq s). cbn. by rewrite lookup_insert_eq.
Qed.

(** Registrations of any requests, in the order in which they hold the lock. *)
Definition registrations (l : list (Z * Z * string)) (s : tables) : tables :=
  foldl (fun s '(now, team, ext) => (register_customer now team ext s).1) s l.

(** Automatic registration is bounded and stable. However many requests
    register customers concurrently, no team grows past 10000 rows by it, a team
    and identifier name one row, and a row that is there is never changed. *)
Theorem auto_registration_is_bounded (l : list (Z * Z * string)) (s : tables) (Hok : customers_ok s) :
  let s' := registrations l s in
  customers_ok s' /\ tb_customers s ⊆ tb_customers s' /\
  (forall t, Z.of_nat (size (team_customers t s')) <= Z.max (Z.of_nat (size (team_customers t s))) MaxAutoCreatedCustomers) /\
  (forall now t ext c, (register_customer now t ext s').2 = Ok c ->
     forall l' now', register_customer now' t ext (registrations l' (register_customer now t ext s').1) =
       (registrations l' (register_customer now t ext s').1, Ok c)).
Proof.
  assert (forall l s, customers_ok s -> let s' := registrations l s in
    customers_ok s' /\ tb_customers s ⊆ tb_customers s' /\ tb_teams s' = tb_teams s /\
    (forall t, Z.of_nat (size (team_customers t s')) <= Z.max (Z.of_nat (size (team_customers t s))) MaxAutoCreatedCustomers)) as Hall.
  { clear. induction l as [| [[now team] ext] l IH]; intros s Hok; cbn zeta.
    { split_and!; [done | done | done | intros; cbn; lia]. }
    change (registrations ((now, team, ext) :: l) s) with (registrations l (register_customer now team ext s).1).
    destruct (register_customer_step now team ext s Hok) as (H1 & H2 & H3 & H4 & _).
    destruct (IH _ H1) as (H5 & H6 & H7 & H8). split_and!; [done | by etrans | by etrans; [exact H7 |] |].
    intros t. specialize (H4 t). specialize (H8 t). cbn zeta in *. lia. }
  destruct (Hall l s Hok) as (H1 & H2 & _ & H4). cbn zeta. split_and!; [done | done | done |].
  intros now t ext c Hc l' now'. set (s1 := registrations l s) in *.
  destruct (register_customer_step now t ext s1 H1) as (H5 & _ & H6 & _ & H7). destruct (H7 c Hc) as (Ht & He & id & Hid).
  destruct (Hall l' _ H5) as (H8 & H9 & H10 & _). set (s2 := registrations l' _) in *.
  assert (tb_customers s2 !! id = Some c) as Hid' by (by eapply lookup_weaken).
  unfold register_customer at 1. rewrite H10, H6. unfold register_customer in Hc. destruct (tb_teams s1 !! t) as [tm|]; [| done].
  destruct (negb (bool_decide (tm_ArchivedAt tm = None))); [done |]. subst t ext. by rewrite (find_customer s2 id c H8 Hid').
Qed.

(** A request is admitted under the customer it names. When the resolution
    lets a request pass, then unless the team's registration is optional the
    request's customer is a row of the team with the named identifier, not
    archived, with limits that can be enforced; with optional registration the
    request has that row, or no customer when it names none, or an identity
    without limits only when the team has no such row. *)
Theorem admitted_customer_is_the_named_one (now : Z) (st : store_state) (team : Team) (id : string) (s s' : tables)
    (ctx : option Customer) (Hok : customers_ok s) (H : resolveRequestCustomer now st None (Some team) id s = (s', ctx, Ok tt)) :
  let optional := tm_CustomerRegistration team = "" \/ tm_CustomerRegistration team = "optional" in
  let named c := cu_TeamID c = tm_ID team /\ cu_ExternalID c = id in
  (exists c k, ctx = Some c /\ tb_customers s' !! k = Some c /\ named c /\ cu_ArchivedAt c = None /\
     ValidateCustomerLimits (cu_UsdLimitCents c) (cu_Period c) (cu_RPM c) (cu_TPM c) = true /\
     (forall k' c', tb_customers s' !! k' = Some c' -> named c' -> c' = c)) \/
  (optional /\ s' = s /\ id = "" /\ ctx = None) \/
  (optional /\ s' = s /\ id <> "" /\ ctx = Some (identity (tm_ID team) id) /\ forall k c, tb_customers s !! k = Some c -> ~ named c).
Proof.
  cbn zeta. unfold resolveRequestCustomer in H.
  set (mode := if (tm_CustomerRegistration team =? "")%string then "optional" else tm_CustomerRegistration team) in H. cbn zeta in H.
  assert ((mode =? "optional")%string = true -> tm_CustomerRegistration team = "" \/ tm_CustomerRegistration team = "optional") as Hmode.
  { unfold mode. destruct (String.eqb_spec (tm_CustomerRegistration team) ""); [by left |]. intros ?%String.eqb_eq. by right. }
  destruct (String.eqb_spec id "") as [-> | Hid].
  { right. left. destruct (mode =? "optional")%string; [| done]. injection H as <- <-. auto. }
  destruct (negb (ValidateCustomerID id)); [done |]. destruct st; [done | done |].
  assert (forall s1 c k, customers_ok s1 -> tb_customers s1 !! k = Some c -> cu_TeamID c = tm_ID team -> cu_ExternalID c = id ->
    (s1, Some c, if negb (bool_decide (cu_ArchivedAt c = None)) then Err (403, "customer_archived")
       else if negb (ValidateCustomerLimits (cu_UsdLimitCents c) (cu_Period c) (cu_RPM c) (cu_TPM c))
       then Err (503, "customer_policy_unavailable") else Ok tt) = (s', ctx, Ok tt) ->
    exists c k, ctx = Some c /\ tb_customers s' !! k = Some c /\ (cu_TeamID c = tm_ID team /\ cu_ExternalID c = id) /\ cu_ArchivedAt c = None /\
      ValidateCustomerLimits (cu_UsdLimitCents c) (cu_Period c) (cu_RPM c) (cu_TPM c) = true /\
      (forall k' c', tb_customers s' !! k' = Some c' -> cu_TeamID c' = tm_ID team /\ cu_ExternalID c' = id -> c' = c)) as Hrow.
  { intros s1 c k Hok1 Hk Ht He. case_bool_decide as Ha; cbn; [| done].
    destruct (ValidateCustomerLimits _ _ _ _) eqn:Ev; cbn; [| done]. intros [= <- <-]. exists c, k. split_and!; try done.
    intros k' c' Hk' [Ht' He']. destruct Hok1 as [_ Hu]. rewrite (Hu k k' c c') in Hk by congruence. congruence. }
  unfold GetOrCreateCustomer, GetCustomerByExternalID in H.
  destruct (find_row _ _) as [[k c]|] eqn:E; cbn in H.
  { left. apply find_row_Some in E as [Hc [Ht He]%is_customer_spec]. by apply (Hrow s c k). }
  destruct (mode =? "auto_create")%string eqn:Eauto.
  - destruct (negb (ValidateCustomerID id)); [done |].
    pose proof (register_customer_step now (tm_ID team) id s Hok) as (Hok' & _ & _ & _ & Hc). cbn zeta in *.
    destruct (register_customer now (tm_ID team) id s) as [s1 [c|e]] eqn:Er; [| destruct e; try done].
    + destruct (Hc c eq_refl) as (Ht & He & k & Hk). left. by apply (Hrow s1 c k).
    + apply String.eqb_eq in Eauto. rewrite Eauto in H. done.
  - right. right. destruct (mode =? "optional")%string; [| done]. injection H as <- <-. split_and!; [auto | done | done | done |].
    intros k c Hk Hn%is_customer_spec. by rewrite (find_row_None _ _ k c E Hk) in Hn.
Qed.

Definition auto_team : Team := mkTeam 7 "core" "Core" None "month" ["*"] None None None false "auto_create" 0 None.
Definition customer_tables : tables := set_teams {[7 := auto_team]} example_tables.

Lemma customer_tables_ok : customers_ok customer_tables.
Proof. by split; cbn. Qed.

Lemma auto_registration_is_bounded_witness :
  let s' := registrations [(1, 7, "acme"); (2, 7, "zeta"); (3, 7, "acme")] customer_tables in
  size (tb_customers s') = 2%nat /\ customers_ok s' /\ Z.of_nat (size (team_customers 7 s')) <= 10000.
Proof.
  intros s'. split; [vm_compute; reflexivity |].
  destruct (auto_registration_is_bounded [(1, 7, "acme"); (2, 7, "zeta"); (3, 7, "acme")] customer_tables customer_tables_ok) as (H1 & _ & H2 & _).
  split; [exact H1 |]. exact (H2 7).
Defined.

Lemma admitted_customer_is_the_named_one_witness :
  exists s' c, resolveRequestCustomer 5 StoreAnswers None (Some auto_team) "acme" customer_tables = (s', Some c, Ok tt) /\
    cu_ExternalID c = "acme" /\ cu_ArchivedAt c = None /\ exists k, tb_customers s' !! k = Some c.
Proof.
  destruct (resolveRequestCustomer 5 StoreAnswers None (Some auto_team) "acme" customer_tables) as [[s' ctx] [[]|e]] eqn:E;
    [| vm_compute in E; discriminate].
  destruct (admitted_customer_is_the_named_one 5 StoreAnswers auto_team "acme" customer_tables s' ctx customer_tables_ok E)
    as [(c & k & -> & Hk & [_ He] & Ha & _) | [([H|H] & _) | ([H|H] & _)]]; [| discriminate H ..].
  exists s', c. eauto.
Defined.

(** The check reads the member [messages] by its exact name, the request's decoder
    in any case: a customer with a spend ceiling is refused audio under [messages]
    but not under [Messages], and the request that goes upstream carries it. *)
Lemma capital_messages_escape_the_pricing_check :
  let part : raw := JObj [(txt "type", JStr (txt "input_audio"))] in
  let message : raw := JObj [(txt "role", JStr (txt "user")); (txt "content", JArr [part])] in
  let body k : raw := JObj [(txt "model", JStr (txt "gpt")); (txt k, JArr [message])] in
  let c := mkCustomer 1 7 "acme" "" "" (Some 500) "month" None None None None 0 in
  admitCustomerPricing None (Some c) (body "messages") = Err (400, "customer_accounting_unsupported") /\
  admitCustomerPricing None (Some c) (body "Messages") = Ok tt /\
  exists r out, ChatRequest_UnmarshalJSON (fun _ => Some tt) (body "Messages") = Some r /\
    ChatRequest_MarshalJSON (fun _ => "0") r = JObj out /\ unsupported_pricing (Some (to_map out)) = true.
Proof.
  cbn zeta. split; [vm_compute; reflexivity |]. split; [vm_compute; reflexivity |].
  do 2 eexists. split; [vm_compute; reflexivity |]. split; [vm_compute; reflexivity |]. vm_compute. reflexivity.
Qed.
