(* ===== verification/ControlPlane.v ===== *)
(** * The control plane ([api/admin.go], [api/service_accounts.go],
    [api/customers.go], [api/key_budget.go], [api/me.go], and the routes of
    [server/server.go])

    What the administration endpoints do to the tables, and which of them a
    principal reaches. A request is an operation with its decoded body, the
    instant at which it runs and the random token it draws; [serve] dispatches it
    behind the middleware of its route group. An answer is a status and a code.
    Audit events, response bodies and the refresh of replicated policies are not
    modelled; integers fit the columns they are stored in. *)

From S2P Require Import Prelude GoStrings Models Identity ClientIp Auth Accounts Customers.

Definition positiveLimit (value : option Z) : answer (option Z) :=
  match value with
  | None => Ok None
  | Some v => if v =? 0 then Ok None else if v <? 0 then Err (400, "invalid_request") else Ok (Some v)
  end.

Definition normalizedBudgetLimit (limit : option Z) : answer (option Z) :=
  match limit with
  | None => Ok None
  | Some l => if l <? 0 then Err (400, "invalid_request") else if l =? 0 then Ok None else Ok (Some l)
  end.

Definition normalizeBudgetPeriod (period : string) : string :=
  if (period =? "day")%string || (period =? "month")%string then period else "month".

(** Errors of the store as the handlers answer them. *)
Definition answer_store {A} (not_found conflict rejected : Z * string) (r : result store_error A) : answer A :=
  match r with
  | Ok a => Ok a
  | Err NotFound => Err not_found
  | Err Conflict => Err conflict
  | Err (Rejected _) => Err rejected
  end.
Definition internal : Z * string := (500, "internal_error").
Definition missing : Z * string := (404, "not_found").
Definition bad : Z * string := (400, "invalid_request").

Definition through {A B} (f : A -> B) (r : tables * answer A) : tables * answer B :=
  (r.1, match r.2 with Ok a => Ok (f a) | Err e => Err e end).
Definition done_with {A} : tables * answer A -> tables * answer unit := through (fun _ => tt).
Definition refuse {A} (s : tables) (e : Z * string) : tables * answer A := (s, Err e).

(** ** Teams ([store/teams.go]) *)

Definition update_team (slug : string) (f : Team -> Team) (s : tables) : tables * result store_error Team :=
  match find_row (fun t => (tm_Slug t =? slug)%string && bool_decide (tm_ArchivedAt t = None)) (tb_teams s) with
  | Some (id, t) => (set_teams (<[id := f t]> (tb_teams s)) s, Ok (f t))
  | None => (s, Err NotFound)
  end.

Definition with_limits (limit : option Z) (period : string) (models : list string) (rpm tpm parallel : option Z) (capture : bool) (t : Team) : Team :=
  mkTeam (tm_ID t) (tm_Slug t) (tm_Name t) limit period models rpm tpm parallel capture (tm_CustomerRegistration t) (tm_CreatedAt t)
    (tm_ArchivedAt t).

Definition store_UpdateTeamBudget (slug : string) (limit : option Z) (period : string) : tables -> tables * result store_error Team :=
  update_team slug (fun t => with_limits limit (normalizeBudgetPeriod period) (tm_AllowedModels t) (tm_RPM t) (tm_TPM t)
    (tm_MaxParallelRequests t) (tm_CapturePayloads t) t).
Definition store_UpdateTeamConcurrency (slug : string) (parallel : option Z) : tables -> tables * result store_error Team :=
  update_team slug (fun t => with_limits (tm_UsdLimitCents t) (tm_Period t) (tm_AllowedModels t) (tm_RPM t) (tm_TPM t)
    parallel (tm_CapturePayloads t) t).
Definition store_UpdateTeamRates (slug : string) (rpm tpm : option Z) : tables -> tables * result store_error Team :=
  update_team slug (fun t => with_limits (tm_UsdLimitCents t) (tm_Period t) (tm_AllowedModels t) rpm tpm
    (tm_MaxParallelRequests t) (tm_CapturePayloads t) t).
Definition store_UpdateTeamAllowedModels (slug : string) (models : list string) : tables -> tables * result store_error Team :=
  update_team slug (fun t => with_limits (tm_UsdLimitCents t) (tm_Period t) (normalizeAllowedModels models) (tm_RPM t) (tm_TPM t)
    (tm_MaxParallelRequests t) (tm_CapturePayloads t) t).

Definition store_CreateTeam (now : Z) (slug name : string) (limit : option Z) (period : string) (rpm tpm parallel : option Z) (s : tables) :
    tables * result store_error Team :=
  match GetTeamBySlug slug s with
  | Some _ => (s, Err Conflict)
  | None =>
      let t := mkTeam (tb_seq s) slug name limit (or_month period) ["*"] rpm tpm parallel false "optional" now None in
      (next_id (set_teams (<[tb_seq s := t]> (tb_teams s)) s), Ok t)
  end.

(** The handlers of [api/admin.go]. *)
Definition CreateTeam (now : Z) (slug name : string) (usd : option Z) (period : string) (rpm tpm parallel : option Z) (s : tables) :
    tables * answer unit :=
  if (slug =? "")%string then refuse s bad
  else
    let name := if (name =? "")%string then slug else name in
    match positiveLimit parallel with
    | Err e => refuse s e
    | Ok parallel =>
        let cents := u ← usd; Some (wrap64 (u * 100)) in
        let '(s, r) := store_CreateTeam now slug name cents period rpm tpm parallel s in
        done_with (s, answer_store internal internal internal r)
    end.

Definition UpdateTeamBudget (slug : string) (limit : option Z) (period : string) (s : tables) : tables * answer unit :=
  match normalizedBudgetLimit limit with
  | Err e => refuse s e
  | Ok limit => let '(s, r) := store_UpdateTeamBudget slug limit period s in done_with (s, answer_store missing internal internal r)
  end.

Definition UpdateTeamConcurrency (slug : string) (parallel : option Z) (s : tables) : tables * answer unit :=
  match positiveLimit parallel with
  | Err e => refuse s e
  | Ok parallel => let '(s, r) := store_UpdateTeamConcurrency slug parallel s in done_with (s, answer_store missing internal internal r)
  end.

Definition UpdateTeamRates (slug : string) (rpm tpm : option Z) (s : tables) : tables * answer unit :=
  match positiveLimit rpm, positiveLimit tpm with
  | Err e, _ | Ok _, Err e => refuse s e
  | Ok rpm, Ok tpm => let '(s, r) := store_UpdateTeamRates slug rpm tpm s in done_with (s, answer_store missing internal internal r)
  end.

Definition UpdateTeamAllowedModels (slug : string) (models : list string) (s : tables) : tables * answer unit :=
  if bool_decide (models = []) then refuse s bad
  else if (200 <? length models)%nat then refuse s bad
  else let '(s, r) := store_UpdateTeamAllowedModels slug models s in done_with (s, answer_store missing internal internal r).

(** Archived teams too. *)
Definition SetTeamCapturePayloads (slug : string) (capture : bool) (s : tables) : tables * result store_error unit :=
  match find_row (fun t => (tm_Slug t =? slug)%string) (tb_teams s) with
  | Some (id, t) =>
      (set_teams (<[id := with_limits (tm_UsdLimitCents t) (tm_Period t) (tm_AllowedModels t) (tm_RPM t) (tm_TPM t)
         (tm_MaxParallelRequests t) capture t]> (tb_teams s)) s, Ok tt)
  | None => (s, Err NotFound)
  end.

Definition UpdateTeamCapturePayloads (slug : string) (capture : bool) (s : tables) : tables * answer unit :=
  let '(s, r) := SetTeamCapturePayloads slug capture s in done_with (s, answer_store missing internal internal r).

(** ** Users *)

Definition with_user_limits (limit : option Z) (period : string) (parallel : option Z) (u : User) : User :=
  mkUser (us_ID u) (us_Email u) (us_Name u) (us_TeamID u) (us_TeamSlug u) (us_Role u) (us_IsAdmin u) limit period parallel
    (us_OIDCSub u) (us_RoleManagedByOIDC u) (us_DisabledAt u) (us_CreatedAt u) (us_LastLoginAt u) (us_ArchivedAt u).

Definition update_active_user (id : Z) (f : User -> User) (s : tables) : tables * result store_error User :=
  match tb_users s !! id with
  | Some r =>
      if bool_decide (us_ArchivedAt (ur_user r) = None)
      then (update_user id (map_user f) s, Ok (load_user s (f (ur_user r)))) else (s, Err NotFound)
  | None => (s, Err NotFound)
  end.

Definition store_UpdateUserBudget (id : Z) (limit : option Z) (period : string) : tables -> tables * result store_error User :=
  update_active_user id (fun u => with_user_limits limit (normalizeBudgetPeriod period) (us_MaxParallelRequests u) u).
Definition store_UpdateUserConcurrency (id : Z) (parallel : option Z) : tables -> tables * result store_error User :=
  update_active_user id (fun u => with_user_limits (us_UsdLimitCents u) (us_Period u) parallel u).

Definition UpdateUserBudget (id : Z) (limit : option Z) (period : string) (s : tables) : tables * answer unit :=
  match normalizedBudgetLimit limit with
  | Err e => refuse s e
  | Ok limit => let '(s, r) := store_UpdateUserBudget id limit period s in done_with (s, answer_store missing internal internal r)
  end.

Definition UpdateUserConcurrency (id : Z) (parallel : option Z) (s : tables) : tables * answer unit :=
  match positiveLimit parallel with
  | Err e => refuse s e
  | Ok parallel => let '(s, r) := store_UpdateUserConcurrency id parallel s in done_with (s, answer_store missing internal internal r)
  end.

(** ** Keys *)

(** The common part of the bodies that create or edit a key. *)
Record KeyRequest := mkKeyRequest {
  kq_Name : string;
  kq_Metadata : string;
  kq_AllowedModels : list string;
  kq_RPM : option Z;
  kq_TPM : option Z;
  kq_MaxParallelRequests : option Z;
  kq_UsdLimitCents : option Z;
  kq_ExpiresAt : option Z;
}.

Definition negative (v : option Z) : bool := match v with Some v => v <? 0 | None => false end.

(** Its checks, in their order, and the concurrency limit it ends with. *)
Definition check_key_request (now : Z) (q : KeyRequest) : answer (option Z) :=
  _ ← fail_if (negb (ValidateKeyBudget (kq_UsdLimitCents q))) bad;
  _ ← fail_if (negative (kq_RPM q)) bad;
  _ ← fail_if (negative (kq_TPM q)) bad;
  parallel ← positiveLimit (kq_MaxParallelRequests q);
  _ ← fail_if (match kq_ExpiresAt q with Some e => Before e now | None => false end) bad;
  Ok parallel.

Section Keys.
Context (HashKey : string -> string).

(** [auth.GenerateKey] draws [secret], the 32 hexadecimal digits. *)
Definition raw_key (slug secret : string) : string := "gw-" +:+ slug +:+ "-" +:+ secret.
Definition key_prefix (raw : string) : string := String.substring 0 (Nat.min 12 (String.length raw)) raw.

Definition key_params (team : Team) (user account : option Z) (secret : string) (q : KeyRequest) (parallel : option Z) : CreateVirtualKeyParams :=
  let raw := raw_key (tm_Slug team) secret in
  mkCreateKey (tm_ID team) user account (HashKey raw) (key_prefix raw) (TrimSpace (kq_Name q)) (kq_Metadata q) (kq_AllowedModels q)
    (kq_RPM q) (kq_TPM q) parallel (kq_UsdLimitCents q) (kq_ExpiresAt q).

(** The answer of a creation is the key itself, shown once. *)
Definition CreateKey (now : Z) (slug : string) (user : option Z) (q : KeyRequest) (secret : string) (s : tables) : tables * answer string :=
  match GetTeamBySlug slug s with
  | None => refuse s missing
  | Some team =>
      match check_key_request now q with
      | Err e => refuse s e
      | Ok parallel =>
          let owner :=
            match user with
            | None => Ok tt
            | Some id =>
                match GetUserByID id s with
                | None => Err bad
                | Some u => fail_if (negb (bool_decide (us_TeamID u = Some (tm_ID team)))) bad
                end
            end in
          match owner with
          | Err e => refuse s e
          | Ok _ =>
              let '(s, r) := CreateVirtualKey now (key_params team user None secret q parallel) s in
              through (fun _ => raw_key (tm_Slug team) secret) (s, answer_store internal internal internal r)
          end
      end
  end.

(** The key and team of a request on a key, for a principal with access to it. *)
Definition key_access (p : option Principal) (id : Z) (s : tables) : answer (VirtualKey * Team) :=
  match GetVirtualKeyByID id s with
  | None => Err missing
  | Some (k, team) => _ ← fail_if (negb (CanAccessTeam p (tm_Slug team))) (403, "forbidden"); Ok (k, team)
  end.

Definition UpdateKey (now : Z) (p : option Principal) (id : Z) (q : KeyRequest) (s : tables) : tables * answer unit :=
  match key_access p id s with
  | Err e => refuse s e
  | Ok (current, _) =>
      if bool_decide (is_Some (vk_RevokedAt current)) then refuse s bad
      else
        match check_key_request now q with
        | Err e => refuse s e
        | Ok parallel =>
            let '(s, r) := UpdateVirtualKey id (mkUpdateKey (TrimSpace (kq_Name q)) (kq_Metadata q) (kq_AllowedModels q) (kq_RPM q) (kq_TPM q)
              parallel (kq_UsdLimitCents q) (kq_ExpiresAt q)) s in
            done_with (s, answer_store missing internal internal r)
        end
  end.

(** [grace] is in seconds; the three instants are those of the handler's check, of
    the transaction's check and of its statements. *)
Definition RotateKey (now checked stamp : Z) (p : option Principal) (id grace : Z) (secret : string) (s : tables) : tables * answer string :=
  match key_access p id s with
  | Err e => refuse s e
  | Ok (current, team) =>
      if bool_decide (is_Some (vk_RevokedAt current)) then refuse s bad
      else if bool_decide (is_Some (vk_DisabledAt current)) then refuse s bad
      else if match vk_ExpiresAt current with Some e => Before e now | None => false end then refuse s bad
      else if (grace <? 0) || (7 * 24 * 3600 <? grace) then refuse s bad
      else
        let raw := raw_key (tm_Slug team) secret in
        let '(s, r) := RotateVirtualKey checked stamp id (tm_ID team) (HashKey raw) (key_prefix raw) (Some (grace * Second)) s in
        through (fun _ => raw) (s, answer_store missing bad bad r)
  end.

Definition setKeyPaused (now : Z) (p : option Principal) (id : Z) (paused : bool) (s : tables) : tables * answer unit :=
  match key_access p id s with
  | Err e => refuse s e
  | Ok _ => let '(s, r) := SetKeyPaused now id paused s in done_with (s, answer_store missing internal internal r)
  end.

Definition admin_RevokeKey (now : Z) (p : option Principal) (id : Z) (s : tables) : tables * answer unit :=
  match key_access p id s with
  | Err e => refuse s e
  | Ok _ => let '(s, r) := RevokeKey now id s in done_with (s, answer_store missing internal internal r)
  end.

(** [SetKeyBudget] of [api/key_budget.go]; the key's number is positive. *)
Definition SetKeyBudget (p : option Principal) (id : Z) (limit : option Z) (s : tables) : tables * answer unit :=
  if id <=? 0 then refuse s bad
  else
    match key_access p id s with
    | Err e => refuse s e
    | Ok (key, team) =>
        if negb (ValidateKeyBudget limit) then refuse s bad
        else let '(s, r) := SetVirtualKeyBudget (vk_ID key) (tm_ID team) limit s in
             done_with (s, answer_store missing (503, "budget_unavailable") (503, "budget_unavailable") r)
    end.

(** ** Service accounts *)

(** An account as the queries return it, with its team's slug. *)
Definition load_account (s : tables) (a : ServiceAccount) : ServiceAccount :=
  mkServiceAccount (sa_ID a) (sa_TeamID a) (team_slug s (Some (sa_TeamID a))) (sa_Name a) (sa_Description a) (sa_UsdLimitCents a) (sa_Period a)
    (sa_RPM a) (sa_TPM a) (sa_MaxParallelRequests a) (sa_CreatedBy a) (sa_CreatedAt a) (sa_ArchivedAt a).

Definition GetServiceAccountByID (id : Z) (s : tables) : option ServiceAccount :=
  a ← tb_accounts s !! id;
  _ ← tb_teams s !! sa_TeamID a;
  if bool_decide (sa_ArchivedAt a = None) then Some (load_account s a) else None.

Record AccountRequest := mkAccountRequest {
  aq_Name : string;
  aq_Description : option string;
  aq_UsdLimitCents : option Z;
  aq_UsdLimitClear : bool;
  aq_Period : string;
  aq_RPM : option Z;
  aq_RPMClear : bool;
  aq_TPM : option Z;
  aq_TPMClear : bool;
  aq_MaxParallelRequests : option Z;
}.

Definition named_account (team : Z) (name : string) (a : ServiceAccount) : bool := (sa_TeamID a =? team) && (sa_Name a =? name)%string.

Definition store_CreateServiceAccount (now team : Z) (name : string) (q : AccountRequest) (parallel createdBy : option Z) (s : tables) :
    tables * result store_error ServiceAccount :=
  match find_row (named_account team name) (tb_accounts s) with
  | Some _ => (s, Err Conflict)
  | None =>
      let a := mkServiceAccount (tb_seq s) team "" name (default "" (aq_Description q)) (aq_UsdLimitCents q) (or_month (aq_Period q)) (aq_RPM q)
                 (aq_TPM q) parallel createdBy now None in
      (next_id (set_accounts (<[tb_seq s := a]> (tb_accounts s)) s), Ok (load_account s a))
  end.

Definition update_account (id : Z) (f : ServiceAccount -> ServiceAccount) (s : tables) : tables * result store_error ServiceAccount :=
  match tb_accounts s !! id with
  | Some a =>
      if bool_decide (sa_ArchivedAt a = None)
      then (set_accounts (<[id := f a]> (tb_accounts s)) s, Ok (load_account s (f a))) else (s, Err NotFound)
  | None => (s, Err NotFound)
  end.

Definition with_account_limits (name description : string) (limit : option Z) (period : string) (rpm tpm parallel archived : option Z)
    (a : ServiceAccount) : ServiceAccount :=
  mkServiceAccount (sa_ID a) (sa_TeamID a) (sa_TeamSlug a) name description limit period rpm tpm parallel (sa_CreatedBy a) (sa_CreatedAt a) archived.

Definition store_UpdateServiceAccountConcurrency (id : Z) (parallel : option Z) : tables -> tables * result store_error ServiceAccount :=
  update_account id (fun a => with_account_limits (sa_Name a) (sa_Description a) (sa_UsdLimitCents a) (sa_Period a) (sa_RPM a) (sa_TPM a)
    parallel (sa_ArchivedAt a) a).

(** [pickIntPointer]: cleared, set, or left. *)
Definition pick (set : option Z) (clear : bool) (old : option Z) : option Z :=
  if clear then None else match set with Some v => Some v | None => old end.

Definition store_UpdateServiceAccount (id : Z) (name : string) (q : AccountRequest) (s : tables) : tables * result store_error ServiceAccount :=
  match tb_accounts s !! id with
  | None => (s, Err NotFound)
  | Some a =>
      match find_row (fun b => named_account (sa_TeamID a) name b && negb (sa_ID b =? id)) (tb_accounts s) with
      | Some _ => (s, Err (if bool_decide (sa_ArchivedAt a = None) then Conflict else NotFound))
      | None =>
          update_account id (fun a => with_account_limits name (default (sa_Description a) (aq_Description q))
            (pick (aq_UsdLimitCents q) (aq_UsdLimitClear q) (sa_UsdLimitCents a)) (or_month (aq_Period q))
            (pick (aq_RPM q) (aq_RPMClear q) (sa_RPM a)) (pick (aq_TPM q) (aq_TPMClear q) (sa_TPM a)) (sa_MaxParallelRequests a)
            (sa_ArchivedAt a) a) s
      end
  end.

Definition store_ArchiveServiceAccount (now id : Z) : tables -> tables * result store_error ServiceAccount :=
  update_account id (fun a => with_account_limits (sa_Name a) (sa_Description a) (sa_UsdLimitCents a) (sa_Period a) (sa_RPM a) (sa_TPM a)
    (sa_MaxParallelRequests a) (Some now) a).

Definition CreateServiceAccount (now : Z) (p : option Principal) (slug : string) (q : AccountRequest) (s : tables) : tables * answer unit :=
  match GetTeamBySlug slug s with
  | None => refuse s missing
  | Some team =>
      let name := TrimSpace (aq_Name q) in
      if (name =? "")%string then refuse s bad
      else
        match positiveLimit (aq_MaxParallelRequests q) with
        | Err e => refuse s e
        | Ok parallel =>
            let '(s, r) := store_CreateServiceAccount now (tm_ID team) name q parallel (u ← p ≫= pr_User; Some (us_ID u)) s in
            done_with (s, answer_store internal (409, "conflict") internal r)
        end
  end.

Definition UpdateServiceAccountConcurrency (id : Z) (parallel : option Z) (s : tables) : tables * answer unit :=
  match positiveLimit parallel with
  | Err e => refuse s e
  | Ok parallel => let '(s, r) := store_UpdateServiceAccountConcurrency id parallel s in done_with (s, answer_store missing internal internal r)
  end.

Definition UpdateServiceAccount (id : Z) (q : AccountRequest) (s : tables) : tables * answer unit :=
  let name := TrimSpace (aq_Name q) in
  if (name =? "")%string then refuse s bad
  else let '(s, r) := store_UpdateServiceAccount id name q s in done_with (s, answer_store missing (409, "conflict") internal r).

Definition ArchiveServiceAccount (now id : Z) (s : tables) : tables * answer unit :=
  let '(s, r) := store_ArchiveServiceAccount now id s in done_with (s, answer_store missing internal internal r).

Definition CreateServiceAccountKey (now id : Z) (q : KeyRequest) (secret : string) (s : tables) : tables * answer string :=
  match GetServiceAccountByID id s with
  | None => refuse s missing
  | Some a =>
      match tb_teams s !! sa_TeamID a with
      | None => refuse s internal
      | Some team =>
          match check_key_request now q with
          | Err e => refuse s e
          | Ok parallel =>
              let '(s, r) := CreateVirtualKey now (key_params team None (Some (sa_ID a)) secret q parallel) s in
              through (fun _ => raw_key (tm_Slug team) secret) (s, answer_store internal internal internal r)
          end
      end
  end.

(** ** Customers ([api/customers.go]) *)

(** A member of an edit: absent, null or a number. *)
Inductive edit := Keep | Set_ (v : option Z).
Definition edited (e : edit) (old : option Z) : option Z := match e with Keep => old | Set_ v => v end.

Record CustomerEdit := mkCustomerEdit {
  ce_Name : option string;
  ce_UsdLimitCents : edit;
  ce_Period : option string;
  ce_RPM : edit;
  ce_TPM : edit;
}.

Definition admin_CreateCustomer (now : Z) (slug externalID : string) (q : CustomerParams) (s : tables) : tables * answer unit :=
  match GetTeamBySlug slug s with
  | None => refuse s missing
  | Some team =>
      if negb (ValidateCustomerID externalID) then refuse s bad
      else if negb (ValidateCustomerLimits (cp_UsdLimitCents q) (cp_Period q) (cp_RPM q) (cp_TPM q)) then refuse s bad
      else
        match positiveLimit (cp_MaxParallelRequests q) with
        | Err e => refuse s e
        | Ok parallel =>
            let '(s, r) := CreateCustomer now (tm_ID team) externalID
              (mkCustomerParams (cp_Name q) (cp_Metadata q) (cp_UsdLimitCents q) (cp_Period q) (cp_RPM q) (cp_TPM q) parallel) s in
            done_with (s, answer_store internal (409, "customer_exists") internal r)
        end
  end.

Definition admin_SetCustomerConcurrency (slug externalID : string) (limit : option Z) (s : tables) : tables * answer unit :=
  match GetTeamBySlug slug s with
  | None => refuse s missing
  | Some team =>
      match positiveLimit limit with
      | Err e => refuse s e
      | Ok limit => let '(s, r) := SetCustomerConcurrency (tm_ID team) externalID limit s in done_with (s, answer_store missing internal internal r)
      end
  end.

Definition admin_UpdateCustomer (slug externalID : string) (q : CustomerEdit) (s : tables) : tables * answer unit :=
  match GetTeamBySlug slug s with
  | None => refuse s missing
  | Some team =>
      match GetCustomerByExternalID (tm_ID team) externalID s with
      | None => refuse s missing
      | Some c =>
          let p := mkCustomerParams (default (cu_Name c) (ce_Name q)) "" (edited (ce_UsdLimitCents q) (cu_UsdLimitCents c))
                     (default (cu_Period c) (ce_Period q)) (edited (ce_RPM q) (cu_RPM c)) (edited (ce_TPM q) (cu_TPM c)) None in
          if negb (ValidateCustomerLimits (cp_UsdLimitCents p) (cp_Period p) (cp_RPM p) (cp_TPM p)) then refuse s bad
          else let '(s, r) := UpdateCustomer (tm_ID team) externalID p s in done_with (s, answer_store missing internal internal r)
      end
  end.

Definition admin_SetCustomerRegistration (slug mode : string) (s : tables) : tables * answer unit :=
  match GetTeamBySlug slug s with
  | None => refuse s missing
  | Some team =>
      if negb (valid_mode mode) then refuse s bad
      else let '(s, r) := SetCustomerRegistration (tm_ID team) mode s in
           done_with (s, answer_store internal internal internal (match r with Err _ => Err (Rejected "") | Ok u => Ok u end))
  end.

(** ** Routes *)

(** The requests of [/admin] that change the tables, by route group: for
    administrators, for those with access to the team of the path, and for
    managers and administrators. *)
Inductive admin_request :=
| ForAdmin (r : admins_request)
| ForTeam (slug : string) (r : team_request)
| ForManager (r : manager_request)
with admins_request :=
| RUserBudget (id : Z) (limit : option Z) (period : string)
| RUserConcurrency (id : Z) (parallel : option Z)
| RPasswordReset (now id : Z) (token : string)
| RUserDisabled (now id : Z) (disabled deleted : bool)
| RUserRole (id : Z) (role team : option string)
| RCreateTeam (now : Z) (slug name : string) (usd : option Z) (period : string) (rpm tpm parallel : option Z)
| RCapture (slug : string) (capture : bool)
| RTeamModels (slug : string) (models : list string)
| RUpdateAccount (id : Z) (q : AccountRequest)
| RAccountConcurrency (id : Z) (parallel : option Z)
| RArchiveAccount (now id : Z)
| RAccountKey (now id : Z) (q : KeyRequest) (secret : string)
with team_request :=
| RTeamBudget (limit : option Z) (period : string)
| RTeamConcurrency (parallel : option Z)
| RTeamRates (rpm tpm : option Z)
| RCreateKey (now : Z) (user : option Z) (q : KeyRequest) (secret : string)
| RCustomerPolicy (mode : string)
| RCreateCustomer (now : Z) (externalID : string) (q : CustomerParams)
| RUpdateCustomer (externalID : string) (q : CustomerEdit)
| RCustomerConcurrency (externalID : string) (limit : option Z)
| RCreateAccount (now : Z) (q : AccountRequest)
with manager_request :=
| RInvite (now : Z) (email slug role : string) (hours : Z) (token prefix : string)
| RUpdateKey (now id : Z) (q : KeyRequest)
| RKeyBudget (id : Z) (limit : option Z)
| RRotateKey (now checked stamp id grace : Z) (secret : string)
| RRevokeKey (now id : Z)
| RPauseKey (now id : Z) (paused : bool).

Definition serve_admin (r : admins_request) (s : tables) : tables * answer unit :=
  match r with
  | RUserBudget id limit period => UpdateUserBudget id limit period s
  | RUserConcurrency id parallel => UpdateUserConcurrency id parallel s
  | RPasswordReset now id token => IssuePasswordReset HashKey now id token s
  | RUserDisabled now id disabled deleted => (admin_SetUserDisabled now id disabled deleted s, Ok tt)
  | RUserRole id role team => SetUserRole id role team s
  | RCreateTeam now slug name usd period rpm tpm parallel => CreateTeam now slug name usd period rpm tpm parallel s
  | RCapture slug capture => UpdateTeamCapturePayloads slug capture s
  | RTeamModels slug models => UpdateTeamAllowedModels slug models s
  | RUpdateAccount id q => UpdateServiceAccount id q s
  | RAccountConcurrency id parallel => UpdateServiceAccountConcurrency id parallel s
  | RArchiveAccount now id => ArchiveServiceAccount now id s
  | RAccountKey now id q secret => done_with (CreateServiceAccountKey now id q secret s)
  end.

Definition serve_team (p : option Principal) (slug : string) (r : team_request) (s : tables) : tables * answer unit :=
  match r with
  | RTeamBudget limit period => UpdateTeamBudget slug limit period s
  | RTeamConcurrency parallel => UpdateTeamConcurrency slug parallel s
  | RTeamRates rpm tpm => UpdateTeamRates slug rpm tpm s
  | RCreateKey now user q secret => done_with (CreateKey now slug user q secret s)
  | RCustomerPolicy mode => admin_SetCustomerRegistration slug mode s
  | RCreateCustomer now externalID q => admin_CreateCustomer now slug externalID q s
  | RUpdateCustomer externalID q => admin_UpdateCustomer slug externalID q s
  | RCustomerConcurrency externalID limit => admin_SetCustomerConcurrency slug externalID limit s
  | RCreateAccount now q => CreateServiceAccount now p slug q s
  end.

Definition serve_manager (p : option Principal) (r : manager_request) (s : tables) : tables * answer unit :=
  match r with
  | RInvite now email slug role hours token prefix => done_with (admin_CreateInvite HashKey now p email slug role hours token prefix s)
  | RUpdateKey now id q => UpdateKey now p id q s
  | RKeyBudget id limit => SetKeyBudget p id limit s
  | RRotateKey now checked stamp id grace secret => done_with (RotateKey now checked stamp p id grace secret s)
  | RRevokeKey now id => admin_RevokeKey now p id s
  | RPauseKey now id paused => setKeyPaused now p id paused s
  end.

Definition serve (p : option Principal) (r : admin_request) (s : tables) : tables * answer unit :=
  match r with
  | ForAdmin r => match RequireAdmin p with Err e => refuse s e | Ok _ => serve_admin r s end
  | ForTeam slug r => match RequireTeamAccess p slug with Err e => refuse s e | Ok _ => serve_team p slug r s end
  | ForManager r => match RequireManagerOrAdmin p with Err e => refuse s e | Ok _ => serve_manager p r s end
  end.

(** ** What a manager can change *)

(** The serial numbers of the rows. *)
Definition rows_ok (s : tables) : Prop :=
  (forall id t, tb_teams s !! id = Some t -> tm_ID t = id) /\
  tb_keys s !! tb_seq s = None /\ tb_accounts s !! tb_seq s = None /\ tb_invites s !! tb_seq s = None /\ tb_customers s !! tb_seq s = None.

Definition owned (slug : string) (s : tables) (team : Z) : Prop := exists t, tb_teams s !! team = Some t /\ tm_Slug t = slug.

(** Rows that are new or changed are as [ok] says of the old row and the new one;
    none is deleted. *)
Definition rows_confined {A} (ok : option A -> A -> Prop) (m m' : gmap Z A) : Prop :=
  forall id, m' !! id = m !! id \/ exists a', m' !! id = Some a' /\ ok (m !! id) a'.

Lemma rows_refl {A} (ok : option A -> A -> Prop) m : rows_confined ok m m.
Proof. intros id. by left. Qed.

Lemma rows_insert {A} (ok : option A -> A -> Prop) m m' id a :
  rows_confined ok m m' -> ok (m !! id) a -> rows_confined ok m (<[id := a]> m').
Proof.
  intros Hm Ha i. destruct (decide (i = id)) as [-> | Hne].
  - right. exists a. by rewrite lookup_insert_eq.
  - rewrite lookup_insert_ne by done. apply Hm.
Qed.

(** Everything a change leaves alone outside the team [slug]. *)
Definition confined (slug : string) (s s' : tables) : Prop :=
  (tb_users s' = tb_users s /\ tb_sessions s' = tb_sessions s /\ tb_resets s' = tb_resets s) /\
  rows_confined (fun old t' => tm_Slug t' = slug /\ exists t, old = Some t /\ tm_Slug t = slug /\ tm_ID t' = tm_ID t)
    (tb_teams s) (tb_teams s') /\
  rows_confined (fun old r' => owned slug s (vk_TeamID (kr_key r')) /\
      forall r, old = Some r -> vk_TeamID (kr_key r) = vk_TeamID (kr_key r') /\ kr_hash r = kr_hash r')
    (tb_keys s) (tb_keys s') /\
  rows_confined (fun old a' => owned slug s (sa_TeamID a') /\ old = None) (tb_accounts s) (tb_accounts s') /\
  rows_confined (fun old c' => owned slug s (cu_TeamID c') /\
      forall c, old = Some c -> cu_TeamID c = cu_TeamID c' /\ cu_ExternalID c = cu_ExternalID c')
    (tb_customers s) (tb_customers s') /\
  rows_confined (fun old v => old = None /\ iv_Role v = "member" /\ exists t, iv_TeamID v = Some t /\ owned slug s t)
    (tb_invites s) (tb_invites s').

Lemma confined_refl slug s : confined slug s s.
Proof. unfold confined. split_and!; auto using rows_refl. Qed.

Ltac confine := unfold confined; cbn; split_and!; auto using rows_refl; repeat first [apply rows_refl | apply rows_insert].

Lemma GetTeamBySlug_owned slug s t : rows_ok s -> GetTeamBySlug slug s = Some t -> owned slug s (tm_ID t) /\ tm_Slug t = slug.
Proof.
  intros [Hid _]. unfold GetTeamBySlug. destruct (find_row _ _) as [[k t']|] eqn:E; cbn; [| done]. intros [= ->].
  apply find_row_Some in E as [Ht Hs%String.eqb_eq]. rewrite (Hid k t Ht). split; [by exists t | done].
Qed.

Lemma update_team_confined slug f s :
  (forall t, tm_Slug (f t) = tm_Slug t /\ tm_ID (f t) = tm_ID t) -> confined slug s (update_team slug f s).1.
Proof.
  intros Hf. unfold update_team. destruct (find_row _ _) as [[k t]|] eqn:E; [| apply confined_refl].
  apply find_row_Some in E as [Ht [Hs%String.eqb_eq _]%andb_true_iff]. destruct (Hf t) as [H1 H2].
  confine. split; [congruence |]. exists t. by split_and!.
Qed.

Lemma update_live_confined slug id f s r :
  tb_keys s !! id = Some r -> owned slug s (vk_TeamID (kr_key r)) -> (forall k, vk_TeamID (f k) = vk_TeamID k) ->
  confined slug s (update_live id f s).1.
Proof.
  intros Hr Ho Hf. unfold update_live. rewrite Hr. destruct (vk_RevokedAt _); [apply confined_refl |].
  confine. cbn. rewrite Hf. split; [done |]. intros r' Hr'. replace r' with r by congruence. done.
Qed.

Lemma CreateVirtualKey_confined slug now p s :
  rows_ok s -> owned slug s (ck_TeamID p) -> confined slug s (CreateVirtualKey now p s).1.
Proof.
  intros (_ & Hfree & _) Ho. unfold CreateVirtualKey. destruct (negb _); [apply confined_refl |].
  unfold insert_key. destruct (find_row _ _); [apply confined_refl |]. confine. split; [done |]. intros r Hr. congruence.
Qed.

Lemma update_customer_confined slug t ext f s :
  owned slug s t -> (forall c, cu_TeamID (f c) = cu_TeamID c /\ cu_ExternalID (f c) = cu_ExternalID c) ->
  confined slug s (update_customer t ext f s).1.
Proof.
  intros Ho Hf. unfold update_customer. destruct (find_row _ _) as [[k c]|] eqn:E; [| apply confined_refl].
  apply find_row_Some in E as [Hc [Ht _]%is_customer_spec]. destruct (bool_decide _); [| apply confined_refl].
  destruct (Hf c) as [H1 H2]. confine. rewrite H1, H2, Ht. split; [done |]. intros c' Hc'. replace c' with c by congruence. by split.
Qed.

Lemma with_access p slug : IsAdmin p = false -> CanAccessTeam p slug = true -> IsManager p = true /\ TeamSlug p = slug.
Proof.
  intros Ha. unfold CanAccessTeam, IsManagerOf. rewrite Ha. cbn. destruct (slug =? "")%string; [done |].
  intros [Hm Hs%String.eqb_eq]%andb_true_iff. done.
Qed.

Lemma key_access_owned p id s k t :
  IsAdmin p = false -> rows_ok s -> key_access p id s = Ok (k, t) ->
  exists r, tb_keys s !! id = Some r /\ owned (TeamSlug p) s (vk_TeamID (kr_key r)) /\ tm_ID t = vk_TeamID (kr_key r).
Proof.
  intros Ha (Hid & _). unfold key_access, GetVirtualKeyByID. destruct (tb_keys s !! id) as [r|] eqn:Er; cbn; [| done].
  destruct (tb_teams s !! vk_TeamID (kr_key r)) as [t'|] eqn:Et; cbn; [| done].
  destruct (CanAccessTeam p (tm_Slug t')) eqn:Ec; cbn; [| done]. intros [= _ <-]. apply with_access in Ec as [_ Hs]; [| done].
  exists r. split_and!; [done | by exists t' | by apply Hid].
Qed.

(** The statement a handler ends with, by its lemma. *)
Ltac by_statement :=
  match goal with
  | |- context [update_team ?a ?f ?s] => pose proof (update_team_confined a f s ltac:(done)) as H; destruct (update_team a f s); exact H
  | Ho : owned ?slug ?s _ |- context [update_customer ?a ?b ?f ?s] =>
      pose proof (update_customer_confined slug a b f s Ho ltac:(done)) as H; destruct (update_customer a b f s); exact H
  | Hok : rows_ok ?s, Ho : owned ?slug ?s _ |- context [CreateVirtualKey ?a ?b ?s] =>
      pose proof (CreateVirtualKey_confined slug a b s Hok Ho) as H; destruct (CreateVirtualKey a b s); exact H
  | Hr : tb_keys ?s !! ?id = Some ?r, Ho : owned ?slug ?s _ |- context [update_live ?id ?f ?s] =>
      pose proof (update_live_confined slug id f s r Hr Ho ltac:(done)) as H; destruct (update_live id f s); exact H
  end.

(** The guards of a handler, each of which leaves the tables as they are. *)
Ltac guards :=
  cbv beta zeta;
  repeat match goal with
  | |- confined _ _ _ => apply confined_refl
  | |- context [match normalizedBudgetLimit ?l with _ => _ end] => destruct (normalizedBudgetLimit l)
  | |- context [match positiveLimit ?l with _ => _ end] => destruct (positiveLimit l)
  | |- context [match check_key_request ?a ?b with _ => _ end] => destruct (check_key_request a b)
  | |- context [match GetCustomerByExternalID ?a ?b ?s with _ => _ end] => destruct (GetCustomerByExternalID a b s)
  | |- context [if negb ?b then _ else _] => destruct (negb b)
  end.

Lemma serve_team_confined p slug r s : rows_ok s -> confined slug s (serve_team p slug r s).1.
Proof.
  intros Hok.
  assert (forall (A : Type) (f : Team -> tables * answer A),
    (forall t, owned slug s (tm_ID t) -> confined slug s (f t).1) ->
    confined slug s (match GetTeamBySlug slug s with Some t => f t | None => refuse s missing end).1) as Hteam.
  { intros A f Hf. destruct (GetTeamBySlug slug s) as [t|] eqn:Et; [| apply confined_refl]. by apply Hf, GetTeamBySlug_owned. }
  destruct r; cbn [serve_team].
  - unfold UpdateTeamBudget, store_UpdateTeamBudget. guards. by_statement.
  - unfold UpdateTeamConcurrency, store_UpdateTeamConcurrency. guards. by_statement.
  - unfold UpdateTeamRates, store_UpdateTeamRates. guards. by_statement.
  - cbn [done_with through fst]. unfold CreateKey. apply Hteam. intros t Ho. guards. cbn zeta.
    match goal with |- context [match ?o with Ok _ => _ | Err _ => _ end] => destruct o; [| apply confined_refl] end. by_statement.
  - unfold admin_SetCustomerRegistration, SetCustomerRegistration. apply Hteam. intros t (t' & Ht' & Hs). guards.
    rewrite Ht'. destruct (bool_decide _); [| apply confined_refl]. confine. split; [done |]. by exists t'.
  - unfold admin_CreateCustomer, CreateCustomer. apply Hteam. intros t Ho. guards. destruct (find_row _ _); [apply confined_refl |].
    destruct Hok as (_ & _ & _ & _ & Hfree). confine. split; [done |]. intros c Hc. congruence.
  - unfold admin_UpdateCustomer, UpdateCustomer. apply Hteam. intros t Ho. guards; cbn zeta; guards. by_statement.
  - unfold admin_SetCustomerConcurrency, SetCustomerConcurrency. apply Hteam. intros t Ho. guards. by_statement.
  - unfold CreateServiceAccount, store_CreateServiceAccount. apply Hteam. intros t Ho. cbn zeta.
    destruct (TrimSpace _ =? "")%string; [apply confined_refl |]. guards. destruct (find_row _ _); [apply confined_refl |].
    destruct Hok as (_ & _ & Hfree & _). by confine.
Qed.

Lemma RotateVirtualKey_confined slug checked now id team hash prefix grace s r :
  rows_ok s -> tb_keys s !! id = Some r -> owned slug s (vk_TeamID (kr_key r)) ->
  confined slug s (RotateVirtualKey checked now id team hash prefix grace s).1.
Proof.
  intros (_ & Hfree & _) Hr Ho. unfold RotateVirtualKey. rewrite Hr.
  destruct (Z.eqb_spec (vk_TeamID (kr_key r)) team) as [<- |]; cbn [negb]; [| apply confined_refl].
  do 3 (case_match; [apply confined_refl |]). unfold insert_key. destruct (find_row _ _); [apply confined_refl |].
  assert (id <> tb_seq s) as Hne by congruence. unfold update_live. cbn [tb_keys next_id set_keys]. rewrite lookup_insert_ne, Hr by done.
  destruct (vk_RevokedAt (kr_key r)).
  - confine. split; [done |]. intros r' Hr'. congruence.
  - confine; cbn; rewrite ?retire_team; (split; [done |]); intros r' Hr'; [congruence |]. by replace r' with r by congruence.
Qed.

Lemma invite_confined now p email slug role hours token prefix s :
  IsAdmin p = false -> rows_ok s -> confined (TeamSlug p) s (admin_CreateInvite HashKey now p email slug role hours token prefix s).1.
Proof.
  intros Ha Hok. unfold admin_CreateInvite. rewrite Ha. destruct (invite_role role) as [role'|]; [| apply confined_refl]. cbv zeta.
  destruct (role' =? "member")%string eqn:Er; cbn; [| apply confined_refl]. apply String.eqb_eq in Er as ->.
  destruct (TeamSlug p =? "")%string eqn:Et; cbn; [apply confined_refl |].
  destruct ((if (slug =? "")%string then TeamSlug p else slug) =? TeamSlug p)%string eqn:Es; cbn; [| apply confined_refl].
  apply String.eqb_eq in Es. rewrite Es, Et. destruct (GetTeamBySlug (TeamSlug p) s) as [t|] eqn:Eg; [| apply confined_refl].
  destruct (GetTeamBySlug_owned _ s t Hok Eg) as [Ho _]. unfold CreateInvite. destruct (find_row _ _); [apply confined_refl |].
  destruct Hok as (_ & _ & _ & Hfree & _). confine. split_and!; [done | done | by exists (tm_ID t)].
Qed.

Lemma serve_manager_confined p r s : IsAdmin p = false -> rows_ok s -> confined (TeamSlug p) s (serve_manager p r s).1.
Proof.
  intros Ha Hok.
  assert (forall id (A : Type) (f : VirtualKey -> Team -> tables * answer A),
    (forall k t r, tb_keys s !! id = Some r -> owned (TeamSlug p) s (vk_TeamID (kr_key r)) -> tm_ID t = vk_TeamID (kr_key r) ->
       confined (TeamSlug p) s (f k t).1) ->
    confined (TeamSlug p) s (match key_access p id s with Err e => refuse s e | Ok (k, t) => f k t end).1) as Hkey.
  { intros id A f Hf. destruct (key_access p id s) as [[k t]|e] eqn:Ek; [| apply confined_refl].
    destruct (key_access_owned p id s k t Ha Hok Ek) as (r0 & Hr & Ho & Ht). by apply (Hf k t r0). }
  destruct r; cbn [serve_manager].
  - cbn [done_with through fst]. by apply invite_confined.
  - unfold UpdateKey, UpdateVirtualKey. apply Hkey. intros k t r Hr Ho _. cbv beta.
    match goal with |- context [if ?b then refuse _ _ else _] => destruct b; [apply confined_refl |] end. guards. by_statement.
  - unfold SetKeyBudget, SetVirtualKeyBudget. destruct (id <=? 0); [apply confined_refl |]. apply Hkey. intros k t r Hr Ho Ht. guards.
    destruct (tb_keys s !! vk_ID k) as [r'|] eqn:Er'; guards. destruct (Z.eqb_spec (vk_TeamID (kr_key r')) (tm_ID t)) as [He |]; guards.
    rewrite <- Ht, <- He in Ho. by_statement.
  - cbn [done_with through fst]. unfold RotateKey. apply Hkey. intros k t r Hr Ho Ht. cbv beta zeta.
    do 4 (match goal with |- context [if ?b then refuse _ _ else _] => destruct b; [apply confined_refl |] end).
    match goal with |- context [RotateVirtualKey ?a ?b ?c ?d ?e ?f ?g s] =>
      pose proof (RotateVirtualKey_confined (TeamSlug p) a b c d e f g s r Hok Hr Ho) as Hc; destruct (RotateVirtualKey a b c d e f g s) end.
    exact Hc.
  - unfold admin_RevokeKey, RevokeKey. destruct (key_access p id s) as [[k t]|] eqn:Ek; [| apply confined_refl].
    destruct (key_access_owned p id s k t Ha Hok Ek) as (r & Hr & Ho & _). by_statement.
  - unfold setKeyPaused, SetKeyPaused. destruct (key_access p id s) as [[k t]|] eqn:Ek; [| apply confined_refl].
    destruct (key_access_owned p id s k t Ha Hok Ek) as (r & Hr & Ho & _). by_statement.
Qed.

(** C14. A principal that is no administrator changes nothing outside its team. A
    member changes nothing at all through the administration endpoints and is
    refused. A manager's request, whatever it is, leaves users, sessions and
    resets as they are; the teams, keys, service accounts and customers it
    changes or adds belong to the manager's team before and after, keep their
    identity, and none disappears; the invites it adds are for members of that
    team. *)
Theorem managers_stay_in_their_team (p : option Principal) (r : admin_request) (s s' : tables) (a : answer unit)
    (Hrole : IsAdmin p = false) (Hok : rows_ok s) (H : serve p r s = (s', a)) :
  confined (TeamSlug p) s s' /\ (IsManager p = false -> s' = s /\ exists e, a = Err e).
Proof.
  unfold serve in H. destruct r as [r | slug r | r].
  - unfold RequireAdmin in H. rewrite Hrole in H. injection H as <- <-. split; [apply confined_refl | eauto].
  - unfold RequireTeamAccess in H. destruct (slug =? "")%string; [injection H as <- <-; split; [apply confined_refl | eauto] |].
    cbn in H. destruct (CanAccessTeam p slug) eqn:Ec; cbn in H; [| injection H as <- <-; split; [apply confined_refl | eauto]].
    destruct (with_access p slug Hrole Ec) as [Hm <-]. pose proof (serve_team_confined p (TeamSlug p) r s Hok) as Hc. rewrite H in Hc.
    split; [done | congruence].
  - unfold RequireManagerOrAdmin in H. rewrite Hrole in H. destruct (IsManager p) eqn:Hm; cbn in H; cycle 1.
    { injection H as <- <-. split; [apply confined_refl | eauto]. }
    pose proof (serve_manager_confined p r s Hrole Hok) as Hc. rewrite H in Hc. done.
Qed.

Lemma check_key_request_Ok now q parallel :
  check_key_request now q = Ok parallel -> match kq_ExpiresAt q with Some e => now <= e | None => True end /\ positiveLimit (kq_MaxParallelRequests q) = Ok parallel.
Proof.
  unfold check_key_request. destruct (negb _), (negative (kq_RPM q)), (negative (kq_TPM q)); try done.
  destruct (positiveLimit _) as [l|]; [| done]. unfold Before. destruct (kq_ExpiresAt q) as [e|]; cbn.
  - destruct (Z.ltb_spec e now); [done |]. cbn. by intros [= <-].
  - by intros [= <-].
Qed.

(** A created key is accepted with the policy that was asked for. The key that
    [CreateKey] answers authenticates requests until it expires, for the team it
    was made for and with the owner, models, rates, budget and expiry of the
    request; the owner, when there is one, is an active user of the team. *)
Theorem created_key_is_accepted (keys : string -> option (string -> option (gmap string claim))) (now t : Z) (slug : string) (user : option Z)
    (q : KeyRequest) (secret raw ip : string) (s s' : tables) (team : Team)
    (Hkeys : keys_ok s) (Hteam : GetTeamBySlug slug s = Some team) (Hrows : rows_ok s) (Hactive : tm_ArchivedAt team = None)
    (H : CreateKey now slug user q secret s = (s', Ok raw)) (Hlive : match kq_ExpiresAt q with Some e => t <= e | None => True end) :
  exists c parallel, Bearer HashKey keys None t ip ("Bearer " +:+ raw) s' = Ok c /\ ca_team c = key_team team /\
    tb_keys s !! vk_ID (ca_key c) = None /\ positiveLimit (kq_MaxParallelRequests q) = Ok parallel /\
    policy_of (ca_key c) = (tm_ID team, user, None, normalizeAllowedModels (kq_AllowedModels q), [],
      (kq_RPM q, kq_TPM q, parallel, kq_UsdLimitCents q, kq_ExpiresAt q)) /\
    (forall id, user = Some id -> exists u, GetUserByID id s = Some u /\ us_TeamID u = Some (tm_ID team)).
Proof.
  unfold CreateKey in H. rewrite Hteam in H. destruct (check_key_request now q) as [parallel|e] eqn:Eq; [| done].
  apply check_key_request_Ok in Eq as [_ Hpar]. cbv zeta in H.
  match type of H with context [match ?o with Ok _ => _ | Err _ => _ end] => destruct o as [[]|] eqn:Eo; [| done] end.
  destruct (CreateVirtualKey _ _ s) as [s1 [k|e]] eqn:Ec; [| by destruct e]. injection H as <- <-.
  pose proof (key_run_change (KCreate now (key_params team user None secret q parallel)) s Hkeys) as [_ Hok1].
  cbn [key_run] in Hok1. rewrite Ec in Hok1. cbn [fst] in Hok1.
  unfold CreateVirtualKey in Ec. destruct (negb _); [done |]. unfold insert_key in Ec. destruct (find_row _ _); [done |]. injection Ec as <- <-.
  cbn [key_params ck_KeyHash ck_TeamID ck_UserID ck_ServiceAccountID ck_Prefix ck_Name ck_Metadata ck_AllowedModels ck_ScopedRPM ck_ScopedTPM
    ck_MaxParallelRequests ck_ScopedUsdLimitCents ck_ExpiresAt] in *.
  set (raw := raw_key (tm_Slug team) secret) in *. set (k := mkVirtualKey _ _ _ _ _ _ _ _ _ _ _ _ _ _ _ _ _ _ _ _ _ _ _) in *.
  set (s1 := next_id _) in *.
  destruct (GetTeamBySlug_owned slug s team Hrows Hteam) as [(t' & Ht' & _) _].
  assert (t' = team) as ->.
  { unfold GetTeamBySlug in Hteam. destruct (find_row _ _) as [[kk tt']|] eqn:Ef; [| done]. injection Hteam as ->.
    apply find_row_Some in Ef as [Hkk _]. destruct Hrows as [Hid _]. rewrite (Hid kk team Hkk) in Ht'. congruence. }
  destruct (bearer_key_admits HashKey t ip raw s1 (tb_seq s) (mkKeyRow (HashKey raw) k) team Hok1) as (c & Hc & H1 & H2 & H3);
    [cbn; by rewrite lookup_insert_eq | done | done | | ].
  { split_and!; [| done | by left]. unfold usable. cbn. unfold Before. destruct (kq_ExpiresAt q); [| done]. apply negb_true_iff. lia. }
  exists c, parallel. split_and!; [done | done | | done | done |].
  - rewrite H2. cbn. apply Hrows.
  - intros id ->. destruct (GetUserByID id s) as [u|]; [| done]. exists u. split; [done |].
    apply fail_if_Ok_inv, negb_false_iff, bool_decide_eq_true in Eo. done.
Qed.

End Keys.

Definition manager : option Principal :=
  Some (mkPrincipal false (Some (mkUser 3 "ada@example.com" "Ada" (Some 7) "core" RoleManager false None "month" None "" false None 0 None None))).

(** Two teams, each with a key. *)
Definition two_teams : tables :=
  set_keys (<[2 := mkKeyRow "other" (mkVirtualKey 2 9 None None "gw-b" "x" "{}" [] [] None None None None None None None 0 None None "" "" "" None)]>
    (tb_keys example_tables))
    (set_teams (<[9 := mkTeam 9 "lab" "Lab" None "month" ["*"] None None None false "optional" 0 None]> (tb_teams example_tables)) (next_id (next_id example_tables))).

Lemma created_key_is_accepted_witness :
  let q := mkKeyRequest " ci " "{}" ["gpt"] (Some 60) None None (Some 500) (Some 100) in
  exists s' c, CreateKey (fun t => t) 5 "core" None q "00ff" example_tables = (s', Ok "gw-core-00ff") /\
    Bearer (fun t => t) (fun _ => None) None 50 "10.0.0.1" "Bearer gw-core-00ff" s' = Ok c /\ vk_AllowedModels (ca_key c) = ["gpt"].
Proof.
  intros q. destruct (CreateKey (fun t => t) 5 "core" None q "00ff" example_tables) as [s' [raw|e]] eqn:E; [| vm_compute in E; discriminate].
  assert (raw = "gw-core-00ff") as -> by (vm_compute in E; injection E as _ <-; reflexivity).
  assert (rows_ok example_tables) as Hok.
  { unfold rows_ok. cbn. split_and!; [| reflexivity ..]. intros id t [<- <-]%lookup_singleton_Some. reflexivity. }
  destruct (GetTeamBySlug "core" example_tables) as [team|] eqn:Et; [| vm_compute in Et; discriminate].
  assert (tm_ArchivedAt team = None) as Ha by (vm_compute in Et; injection Et as <-; reflexivity).
  destruct (created_key_is_accepted (fun t => t) (fun _ => None) 5 50 "core" None q "00ff" "gw-core-00ff" "10.0.0.1" example_tables s' team
    example_tables_ok Et Hok Ha E) as (c & l & Hc & _ & _ & _ & Hp & _); [cbn; lia |].
  exists s', c. split; [reflexivity |]. split; [exact Hc |]. unfold policy_of in Hp. injection Hp as _ _ _ Hm _ _ _ _ _ _. rewrite Hm. reflexivity.
Defined.

Lemma managers_stay_in_their_team_witness :
  rows_ok two_teams /\
  (exists s', serve (fun t => t) manager (ForManager (RRevokeKey 5 1)) two_teams = (s', Ok tt) /\ confined "core" two_teams s' /\
     tb_keys s' !! 1 <> tb_keys two_teams !! 1) /\
  serve (fun t => t) manager (ForManager (RRevokeKey 5 2)) two_teams = (two_teams, Err (403, "forbidden")).
Proof.
  assert (rows_ok two_teams) as Hok.
  { unfold rows_ok. cbn. split_and!; [| reflexivity ..]. intros id t [[<- <-] | [_ [<- <-]%lookup_singleton_Some]]%lookup_insert_Some; reflexivity. }
  split; [exact Hok |]. split; [| vm_compute; reflexivity].
  destruct (serve (fun t => t) manager (ForManager (RRevokeKey 5 1)) two_teams) as [s' a] eqn:E.
  exists s'. split; [vm_compute in E; vm_compute; congruence |].
  split; [exact (proj1 (managers_stay_in_their_team (fun t => t) manager _ two_teams s' a eq_refl Hok E)) |].
  vm_compute in E. injection E as <- <-. vm_compute. discriminate.
Defined.

(** The dollars of a new team's budget are multiplied without a check: a limit of
    some 184 quadrillion dollars is stored as 84 cents, and a negative one as it is. *)
Lemma team_budget_wraps :
  let limit usd := tb_teams (CreateTeam 0 "lab" "" (Some usd) "" None None None example_tables).1 !! 8 ≫= tm_UsdLimitCents in
  limit 50 = Some 5000 /\ limit 184467440737095517 = Some 84 /\ limit (-1) = Some (-100).
Proof. vm_compute. done. Qed.
