(* ===== verification/Handlers.v ===== *)
(** * A request through the gateway ([api/v1.go], [api/routing_concurrency.go],
    [api/accounting.go])

    The embeddings endpoint from its parsed body to its answer: the model
    allowlist, the guardrail policies, the customer, the durable accounting
    entry, the request-wide lease, the rate limit, the budget, the routed call
    with fallback and the record of what it cost, in the order of the code, with
    its deferred cleanup. Each stage is the definition of its own file. What the
    outside does, the ends of database and Redis calls and the clocks, is an
    argument, and other requests and the recovery worker may change the database
    between the stages ([others]). Response bodies, payload capture, callbacks,
    telemetry, log lines and the columns of a usage row that only describe it are
    left out, and an error's text in the row is represented by its type; the
    handler is the one the server wires, with a usage logger, a budget service
    and a router. *)

From S2P Require Import Prelude GoStrings Models Identity Customers Guardrails GuardRuntime RateLimit.
From S2P Require Import Admission Redis Concurrency Providers Breaker Limits Router Registry Gateway.
From S2P Require Import Money Ledger Budget Accounting Logger.

(** ** Requests and their surroundings *)

Record handler_request := mkHandlerRequest {
  hr_id : string;               (** the request's number, never empty *)
  hr_team : Team;
  hr_key : option VirtualKey;
  hr_owner : option User;
  hr_alias : string;
  hr_customer : string;         (** [extractCustomerID] *)
  hr_tokens : Z;                (** the estimate of the prompt *)
  hr_context : ResolveContext;
  hr_nonBillable : bool;        (** [accountingNonBillableKey] *)
}.

(** How one [Logger.Record] ends. *)
Record write := mkWrite { wr_ok : bool; wr_end : commit; wr_now : Z }.

Record conditions := mkConditions {
  co_now : Z;
  co_db_now : Z;
  co_policies : result string (list Guardrails.Policy);
  co_audit : bool;
  co_store : store_state;
  co_begin : bool * commit;
  co_remaining : Z;
  co_lease : surroundings;
  co_rate : option (RateLimit.Check -> result RateLimit.check_error RateLimit.Result);   (** the limiter, if there is one *)
  co_account : option ServiceAccount;                      (** the lookup of the key's service account *)
  co_admit : Budget.call -> bool;
  co_admit_end : commit;
  co_prices : list Pricing;
  co_mark : bool * commit * Z;
  co_attempts : nat -> surroundings;
  co_pricing : bool;
  co_denial : write;
  co_record : write;
  co_finish : write;
}.

(** [accountingRun]; whether it started is in the gateway's state. *)
Record accountingRun := mkAccountingRun {
  ru_entry : UsageEntry;
  ru_pending : option UsageEntry;
  ru_complete : bool;
}.

Record world (B R : Type) := mkWorld {
  hw_gateway : gateway B R;
  hw_db : database;
  hw_logger : Logger;
  hw_tables : Identity.tables;
  hw_decisions : list GuardRuntime.decision;
  hw_run : option accountingRun;
  hw_customer : option Customer;
  hw_guard : option guardrailRun;
}.
Arguments mkWorld {B R}.
Arguments hw_gateway {B R}.
Arguments hw_db {B R}.
Arguments hw_logger {B R}.
Arguments hw_tables {B R}.
Arguments hw_decisions {B R}.
Arguments hw_run {B R}.
Arguments hw_customer {B R}.
Arguments hw_guard {B R}.

(** An answer: status and type. *)
Abbreviation reply := (Z * string)%type.

Definition set_accounting_id (id : string) (e : UsageEntry) : UsageEntry :=
  mkUsageEntry id (ue_Accounting e) (ue_TokenDetails e) (ue_TeamID e) (ue_UserID e)
    (ue_KeyID e) (ue_CustomerID e) (ue_ServiceAccountID e) (ue_Alias e) (ue_RequestID e)
    (ue_PromptTokens e) (ue_CompletionTokens e) (ue_TotalTokens e) (ue_CostCents e) (ue_CostMicrocents e)
    (ue_LatencyMs e) (ue_StatusCode e) (ue_Error e) (ue_Cached e) (ue_Ts e).

Definition set_status (status : Z) (error : string) (e : UsageEntry) : UsageEntry :=
  mkUsageEntry (ue_AccountingID e) (ue_Accounting e) (ue_TokenDetails e) (ue_TeamID e) (ue_UserID e)
    (ue_KeyID e) (ue_CustomerID e) (ue_ServiceAccountID e) (ue_Alias e) (ue_RequestID e)
    (ue_PromptTokens e) (ue_CompletionTokens e) (ue_TotalTokens e) (ue_CostCents e) (ue_CostMicrocents e)
    (ue_LatencyMs e) status error (ue_Cached e) (ue_Ts e).

Section Handlers.
Context {B R : Type} `{BreakerStore B, RedisZSet R}.
Variable getenv : string -> string.
Variable json_size : UsageEntry -> Z.
Variable alive : string -> option Z -> Z -> bool.
Variable limiter : option Limiter.
Variable has_store : bool.
(** What other requests and the recovery do to the database meanwhile. *)
Variable others : nat -> database -> database.
Implicit Types (w : world B R).

Definition set_gateway (g : gateway B R) w : world B R :=
  mkWorld g (hw_db w) (hw_logger w) (hw_tables w) (hw_decisions w) (hw_run w) (hw_customer w) (hw_guard w).
Definition set_db (d : database) w : world B R :=
  mkWorld (hw_gateway w) d (hw_logger w) (hw_tables w) (hw_decisions w) (hw_run w) (hw_customer w) (hw_guard w).
Definition set_run (run : option accountingRun) w : world B R :=
  mkWorld (hw_gateway w) (hw_db w) (hw_logger w) (hw_tables w) (hw_decisions w) run (hw_customer w) (hw_guard w).
Definition meanwhile (i : nat) w : world B R := set_db (others i (hw_db w)) w.

(** ** Accounting of a request *)

(** The identities every entry carries, and [attributeCustomer]. *)
Definition request_entry (q : handler_request) (customer : option Customer) (accounting : string) (user : option Z) (tokens : Z * Z * Z)
    (micro status : Z) (error : string) (cached : bool) (ts : Z) : UsageEntry :=
  mkUsageEntry "" accounting "" (tm_ID (hr_team q)) user
    (k ← hr_key q; if 0 <? vk_ID k then Some (vk_ID k) else None)
    (c ← customer; if 0 <? cu_ID c then Some (cu_ID c) else None)
    (hr_key q ≫= vk_ServiceAccountID) (hr_alias q) (hr_id q) tokens.1.1 tokens.1.2 tokens.2 0 (Some micro) 0 status error cached ts.

Definition persistUsage (wr : write) (e : UsageEntry) w : world B R * result accounting_error UsageReceipt :=
  let e := match hw_run w with Some run => set_accounting_id (ue_RequestID (ru_entry run)) e | None => e end in
  let '(l, d, res) := Logger_Record alive (wr_ok wr) (wr_end wr) (wr_now wr) e (hw_logger w) (hw_db w) in
  let run := match hw_run w with
             | Some run => Some (if is_ok res then mkAccountingRun (ru_entry run) None true
                                 else mkAccountingRun (ru_entry run) (Some e) (ru_complete run))
             | None => None
             end in
  (mkWorld (hw_gateway w) d l (hw_tables w) (hw_decisions w) run (hw_customer w) (hw_guard w), res).

(** An exact zero, whose accounting state is left to the finalization. *)
Definition recordDenial (wr : write) (q : handler_request) (now status : Z) (code : string) w : world B R :=
  (persistUsage wr (request_entry q (hw_customer w) "" (hr_key q ≫= vk_UserID) (0, 0, 0) 0 status code false now) w).1.

(** [beginAccounting]; the deferred part is [finishAccounting]. *)
Definition beginAccounting (c : conditions) (q : handler_request) w : world B R * result reply unit :=
  if negb (Ready (hw_logger w)) then (w, Err (503, "accounting_unavailable"))
  else
    let e := request_entry q (hw_customer w) (if hr_nonBillable q then "not_billable" else "") (hr_key q ≫= vk_UserID) (0, 0, 0) 0 0 "" false (co_now c) in
    match BeginAccounting json_size (co_begin c).1 (co_begin c).2 (co_now c) (co_db_now c) e (co_remaining c) (hw_db w) with
    | (d, Err ErrAccountingConflict) => (set_db d w, Err (409, "request_id_reused"))
    | (d, Err _) => (set_db d w, Err (503, "accounting_unavailable"))
    | (d, Ok _) => (set_run (Some (mkAccountingRun e None false)) (set_db d w), Ok tt)
    end.

Definition finishAccounting (wr : write) w : world B R :=
  match hw_run w with
  | Some run =>
      if ru_complete run then w
      else
        let e := ru_entry run in
        let e := if (ue_Accounting e =? "")%string then set_accounting e "unknown" else e in
        let e := set_status 503 "request_interrupted_or_unrecorded" e in
        (persistUsage wr (default e (ru_pending run)) w).1
  | None => w
  end.

(** [recordUsage]: how a request is priced, and its row. *)
Definition usage_cost (c : conditions) (resolved : option Resolved) (cached unknown : bool) (u : Usage) : string * Z :=
  if cached then ("not_billable", 0)
  else match resolved with
  | Some t =>
      if unknown then ("unknown", 0)
      else match ComputeUsageCost (co_pricing c) (rv_ProviderType t) (rv_UpstreamModel t) u (co_prices c) with
           | Ok cost => ("priced", cost)
           | Err (PricingUnavailableError _ _) => ("unpriced", 0)
           | Err _ => ("unknown", 0)
           end
  | None => ("unknown", 0)
  end.

Definition recordUsage (c : conditions) (q : handler_request) (resolved : option Resolved) (cached unknown : bool) (u : Usage) (status : Z)
    (error : string) w : world B R :=
  let '(accounting, cost) := usage_cost c resolved cached unknown u in
  (persistUsage (co_record c)
     (request_entry q (hw_customer w) accounting (option_map us_ID (hr_owner q))
        (PromptTokens u, CompletionTokens u, TotalTokens u) cost status error cached 0) w).1.

(** ** Admission *)

(** A stage lets the request pass, or answers, with the row of the denial if it
    writes one. *)
Inductive gate := Pass | Refuse (r : reply) (denial : option (Z * string)).

Definition enforceRateLimit (c : conditions) (q : handler_request) (tokens : Z) (customer : option Customer) : gate :=
  match option_map (fun check => check (RateLimit.mkCheck (Some (hr_team q)) (hr_key q) customer tokens)) (co_rate c) with
  | None =>
      match customer with
      | Some cu => if ptr_pos (cu_RPM cu) || ptr_pos (cu_TPM cu) then Refuse (503, "rate_limit_unavailable") None else Pass
      | None => Pass
      end
  | Some (Err _) => Refuse (503, "rate_limit_unavailable") None
  | Some (Ok r) =>
      if RateLimit.rs_Allowed r then Pass
      else Refuse (429, "rate_limit_exceeded") (Some (429, "rate_limited:" +:+ RateLimit.rs_Scope r +:+ "_" +:+ RateLimit.rs_Metric r))
  end.

Definition admission_request (c : conditions) (q : handler_request) (account : option ServiceAccount) (customer : option Customer)
    (prompt completion : Z) (targets : list Resolved) : AdmissionRequest :=
  mkAdmissionRequest (hr_id q) (Some (hr_team q)) (hr_owner q) account (hr_key q) customer (hr_alias q) prompt completion
    (map (fun t => mkTarget (rv_ProviderType t) (rv_UpstreamModel t)) targets).

Definition enforceBudget (c : conditions) (q : handler_request) (prompt completion : Z) (capability : Capability) w : world B R * gate :=
  if (hr_alias q =? "")%string || (hr_id q =? "")%string
  then (w, if bool_decide (is_Some (hw_customer w ≫= cu_UsdLimitCents)) then Refuse (503, "budget_unavailable") None else Pass)
  else
    match TargetsFor (hr_alias q) capability (gw_registry (hw_gateway w)) with
    | Err _ => (w, Pass)
    | Ok targets =>
        let account := match hr_key q ≫= vk_ServiceAccountID with
                       | Some _ => match co_account c with Some a => Ok (Some a) | None => Err tt end
                       | None => Ok None
                       end in
        match account with
        | Err _ => (w, Refuse (503, "budget_unavailable") None)
        | Ok account =>
            let '(t, res) := Admit (co_admit c) (co_admit_end c) (co_now c) (co_db_now c) (co_prices c)
                               (admission_request c q account (hw_customer w) prompt completion targets) (db_tables (hw_db w)) in
            let w := set_db (mkDatabase t (db_journal (hw_db w))) w in
            match res with
            | Ok _ => (w, Pass)
            | Err (Exceeded e) => (w, Refuse (403, "insufficient_quota") (Some (403, "budget_exceeded:" +:+ ee_Scope e)))
            | Err _ => (w, Refuse (503, "budget_unavailable") None)
            end
        end
    end.

Definition load_denial (load : load_result) : option guardrailError :=
  match load with LoadDenied e => Some e | _ => None end.

(** [admitRequestConcurrency]: policies, customer, accounting and the lease of the
    model and the customer. *)
Definition admitRequestConcurrency (path : string) (c : conditions) (q : handler_request) w : world B R * result reply (option Lease) :=
  let '(table, load) := loadGuardrails (tm_ID (hr_team q)) (hr_alias q) (hr_id q) path "POST" (co_policies c) (co_audit c) (hw_decisions w) in
  let guard := match load with LoadGuarded g => Some g | _ => None end in
  let w := mkWorld (hw_gateway w) (hw_db w) (hw_logger w) (hw_tables w) table (hw_run w) (hw_customer w) guard in
  match load_denial load with
  | Some e => (recordDenial (co_denial c) q (co_now c) (ge_status e) (ge_code e) w, Err (ge_status e, ge_code e))
  | None =>
      let '(s, customer, res) := resolveRequestCustomer (co_now c) (co_store c) None (Some (hr_team q)) (hr_customer q) (hw_tables w) in
      let w := mkWorld (hw_gateway w) (hw_db w) (hw_logger w) s (hw_decisions w) (hw_run w) customer (hw_guard w) in
      match res with
      | Err e => (recordDenial (co_denial c) q (co_now c) e.1 e.2 w, Err e)
      | Ok _ =>
          match beginAccounting c q w with
          | (w, Err e) => (w, Err e)
          | (w, Ok _) =>
              let w := meanwhile 0 w in
              let scopes := if (hr_alias q =? "")%string then Ok []
                            else ConcurrencyScope has_store (en_now (co_lease c)) "model" (hr_alias q) (gw_policies (hw_gateway w)) in
              let scopes := match scopes, customer with
                            | Ok l, Some cu =>
                                Ok (if (0 <? cu_ID cu) && ptr_pos (cu_MaxParallelRequests cu)
                                    then l ++ [mkScope "customer" (cu_ID cu) (deref (cu_MaxParallelRequests cu))] else l)
                            | _, _ => scopes
                            end in
              match acquireConcurrencyScopes limiter (tm_ID (hr_team q)) (co_lease c) "combined" scopes (hw_gateway w) with
              | (g, Ok lease) => (set_gateway g w, Ok lease)
              | (g, Err e) =>
                  let w := set_gateway g w in
                  let '(status, code) := if ca_unavailable e then (503, "concurrency_limit_unavailable") else (429, "concurrency_limit_exceeded") in
                  let w := recordDenial (co_denial c) q (co_now c) status code w in
                  (finishAccounting (co_finish c) w, Err (status, code))
              end
          end
      end
  end.

(** The deferred function it returns. *)
Definition releaseModel (c : conditions) (lease : option Lease) w : world B R :=
  finishAccounting (co_finish c) (set_gateway (releaseRoutingLease (co_lease c) lease (hw_gateway w)) w).

(** ** The routed call *)

Definition no_usage_yet : Usage := mkUsage 0 0 0 None None 0 0 None.

(** A routed call of the request. The first attempt that gets a permit marks the
    entry as started; it is marked at most once, and a failure to mark ends the
    call. *)
Definition with_mark {O} (c : conditions) (q : handler_request) (run : (nat -> surroundings) -> gateway B R -> gateway B R * outcome O) w :
    world B R * outcome O :=
  let '(d, marked) := MarkAccountingStarted (co_mark c).1.1 (co_mark c).1.2 (co_mark c).2 (hr_id q) (hw_db w) in
  let env n :=
    let e := co_attempts c n in
    mkSurroundings (en_now e) (en_server_now e) (en_acquire e) (en_release e) (en_lease_id e) (en_until_deadline e) (is_ok marked) (en_ctx e) in
  let g := hw_gateway w in
  let '(g, out) := run env (mkGateway (gw_registry g) (gw_policies g) (gw_redis g) false (gw_events g)) in
  let attempted := gw_started g || match out with Failed _ RouteAccounting => true | _ => false end in
  (set_gateway g (if attempted then set_db d w else w), out).

Definition route {A} (call : nat -> Resolved -> call_result A) (c : conditions) (q : handler_request) (capability : Capability) (fuel : nat) w :
    world B R * outcome A :=
  with_mark c q (fun env => fallback_loop getenv limiter has_store true (bool_decide (is_Some (hw_guard w))) (tm_ID (hr_team q)) (hr_alias q)
    (hr_context q) env call capability fuel 0 ∅ None false) w.

(** A stream that opened comes with the permit it holds. *)
Definition route_stream {A} (call : nat -> Resolved -> call_result A) (stopped : nat -> option go_error) (c : conditions) (q : handler_request)
    (fuel : nat) w : world B R * outcome (A * upstreamPermit) :=
  with_mark c q (fun env => openStreamWithFallback getenv limiter has_store true (bool_decide (is_Some (hw_guard w))) (tm_ID (hr_team q))
    (hr_alias q) (hr_context q) env call stopped fuel) w.

(** ** The endpoint *)

Section Endpoint.
(** What the providers answer: the usage and whether it was reported. *)
Variable call : nat -> Resolved -> call_result (Usage * bool).

(** How the handler ends: an answer, or a panic for the recoverer. *)
Inductive ending := Answered (r : reply) | Crashed.

(** A request starts without a customer, an accounting run and policies. *)
Definition fresh w : world B R :=
  mkWorld (hw_gateway w) (hw_db w) (hw_logger w) (hw_tables w) (hw_decisions w) None None None.

Definition Embeddings (c : conditions) (q : handler_request) (input_len : Z) (fuel : nat) w : world B R * ending :=
  let w := fresh w in
  if (hr_alias q =? "")%string then (w, Answered (400, "invalid_request"))
  else if input_len =? 0 then (w, Answered (400, "invalid_request"))
  else if negb (modelAllowed (Some (hr_team q)) (hr_key q) (hr_alias q))
  then (recordDenial (co_denial c) q (co_now c) 403 "model_not_allowed" w, Answered (403, "model_not_allowed"))
  else
    match admitRequestConcurrency "/v1/embeddings" c q w with
    | (w, Err e) => (w, Answered e)
    | (w, Ok lease) =>
        let finish r w := (releaseModel c lease w, r) in
        let refuse r denial w :=
          finish (Answered r) (match denial with Some (status, code) => recordDenial (co_denial c) q (co_now c) status code w | None => w end) in
        match enforceRateLimit c q (hr_tokens q) (hw_customer w) with
        | Refuse r denial => refuse r denial w
        | Pass =>
            match enforceBudget c q (hr_tokens q) 0 CapabilityEmbeddings w with
            | (w, Refuse r denial) => refuse r denial w
            | (w, Pass) =>
                let '(w, out) := route call c q CapabilityEmbeddings fuel (meanwhile 1 w) in
                let w := meanwhile 2 w in
                match out with
                | Succeeded target (u, reported) => finish (Answered (200, "")) (recordUsage c q (Some target) false (negb reported) u 200 "" w)
                | Failed _ err =>
                    let '(status, errType, _) := routing_error_response err in
                    finish (Answered (status, errType)) (recordUsage c q None false true no_usage_yet status errType w)
                | Paniced | OutOfFuel => finish Crashed w
                end
            end
        end
    end.

End Endpoint.
End Handlers.

(** ** What a request does to the database *)

Section facts.
Context {B R : Type} `{BreakerStore B, RedisZSet R}.
Variable getenv : string -> string.
Variable json_size : UsageEntry -> Z.
Variable alive : string -> option Z -> Z -> bool.
Variable limiter : option Limiter.
Variable has_store : bool.
Variable others : nat -> database -> database.
Variable q : handler_request.
Implicit Types (w : world B R).

#[local] Abbreviation history := (rtc (Accounting.event json_size alive)).
#[local] Abbreviation persist := (persistUsage alive).

(** The request's accounting run, as the database and the logger know it: its row
    is there, complete once the run is; a completion that is still pending was
    counted as a failure; at most [n] completions failed. *)
Record tracked w0 (n : nat) w : Prop := {
  tr_db : history (hw_db w0) (hw_db w);
  tr_logger : exists k, (k <= n)%nat /\ hw_logger w = Nat.iter k add_failure (hw_logger w0) /\
    forall run, hw_run w = Some run -> is_Some (ru_pending run) -> (0 < k)%nat;
  tr_run : forall run, hw_run w = Some run ->
    ue_RequestID (ru_entry run) = hr_id q /\ entry_int64 (ru_entry run) /\
    (forall e, ru_pending run = Some e -> entry_int64 e) /\
    exists j, db_journal (hw_db w) !! hr_id q = Some j /\ ue_TeamID (jr_entry j) = tm_ID (hr_team q) /\
      (ru_complete run = true -> jr_state j = Complete);
}.

Section from.
Variable w0 : world B R.
Hypothesis Hcons : consistent (hw_db w0).
Hypothesis Hid : hr_id q <> "".

Lemma tracked_consistent n w : tracked w0 n w -> consistent (hw_db w).
Proof. intros [Hd _ _]. by apply (events_preserved json_size alive _ _ Hd). Qed.

(** The database moves on. *)
Lemma tracked_db n w d : tracked w0 n w -> history (hw_db w) d -> tracked w0 n (set_db d w).
Proof.
  intros Ht Hd. pose proof (tracked_consistent _ _ Ht) as Hc. destruct Ht as [Hdb Hl Hr].
  destruct (events_preserved json_size alive _ _ Hd Hc) as [_ (_ & Hcomp & Hcont)].
  split; [by etransitivity | exact Hl |]. intros run Hrun. destruct (Hr run Hrun) as (E & Hi & Hp & j & Hj & Htm & Hdone).
  split_and!; [done | done | done |]. destruct (Hcont _ _ Hj) as (j' & Hj' & _ & Ee & _).
  exists j'. split_and!; [done | by rewrite Ee |]. intros Hcm. specialize (Hcomp _ _ Hj (Hdone Hcm)). cbn in Hj'. replace j' with j by congruence. auto.
Qed.

Lemma tracked_gateway n w g : tracked w0 n w -> tracked w0 n (set_gateway g w).
Proof. by intros [? ? ?]. Qed.

Lemma tracked_le n m w : (n <= m)%nat -> tracked w0 n w -> tracked w0 m w.
Proof. intros Hle [Hd (k & Hk & Hl) Hr]. split; [done | | done]. exists k. split; [lia | done]. Qed.

(** A completion that is acknowledged completes the row. *)
Lemma FinalizeUsage_completes ok end_ now e d d' rc j :
  consistent d -> entry_int64 e -> ue_AccountingID e <> "" -> db_journal d !! ue_AccountingID e = Some j ->
  FinalizeUsage alive ok end_ now e d = (d', Ok rc) ->
  exists j', db_journal d' !! ue_AccountingID e = Some j' /\ jr_state j' = Complete.
Proof.
  intros Hc Hi Hne Hj. unfold FinalizeUsage. destruct (negb ok); [done |].
  apply String.eqb_neq in Hne. rewrite Hne, Hj.
  destruct (finalizeJournal _ _ _ _ _ _) as [[d1 r1]|] eqn:Hf; [| done].
  destruct end_; cbn; intros [= <- <-]. eapply completed_after in Hf as (j' & ? & ? & ? & _); eauto.
Qed.

Lemma entry_int64_id id e : entry_int64 (set_accounting_id id e) <-> entry_int64 e.
Proof. done. Qed.

Lemma entry_int64_ts e now : entry_int64 (if IsZero (ue_Ts e) then set_ts e now else e) <-> entry_int64 e.
Proof. by destruct (IsZero _). Qed.

Lemma persistUsage_history wr e w : entry_int64 e -> history (hw_db w) (hw_db (persist wr e w).1).
Proof.
  intros Hi. unfold persistUsage, Logger_Record. set (e' := match hw_run w with Some _ => _ | None => e end).
  assert (entry_int64 e') as Hi' by (unfold e'; by destruct (hw_run w)).
  destruct (FinalizeUsage _ _ _ _ _ _) as [d' res] eqn:Ef. apply rtc_once. eapply ev_finalize; [| exact Ef]. by apply entry_int64_ts.
Qed.

Lemma persistUsage_tracked n w wr e :
  tracked w0 n w -> entry_int64 e ->
  tracked w0 (S n) (persist wr e w).1 /\
  (forall run, hw_run (persist wr e w).1 = Some run -> ru_complete run = true \/ is_Some (ru_pending run)) /\
  (hw_run (persist wr e w).1 = None <-> hw_run w = None).
Proof.
  intros Ht Hi. pose proof (tracked_consistent _ _ Ht) as Hc. pose proof (persistUsage_history wr e w Hi) as Hev.
  revert Hev. unfold persistUsage.
  set (e' := match hw_run w with Some run => set_accounting_id _ e | None => e end).
  assert (entry_int64 e') as Hi' by (unfold e'; by destruct (hw_run w)).
  unfold Logger_Record. set (e2 := if IsZero (ue_Ts e') then _ else _).
  assert (entry_int64 e2) as Hi2 by by apply entry_int64_ts.
  assert (ue_AccountingID e2 = ue_AccountingID e') as Eid by (unfold e2; by destruct (IsZero _)).
  destruct (FinalizeUsage alive (wr_ok wr) (wr_end wr) (wr_now wr) e2 (hw_db w)) as [d' res] eqn:Ef.
  cbn [fst hw_db]. intros Hev.
  pose proof (tracked_db _ _ _ Ht Hev) as [Hdb _ Hrun']. destruct Ht as [_ (k & Hk & El & Hpk) Hrun]. cbn [fst hw_run].
  split_and!; [split; cbn [hw_db hw_logger hw_run] | | by destruct (hw_run w)].
  - done.
  - destruct (negb (is_ok res) && negb (ue_AccountingID e2 =? "")%string) eqn:Efail.
    + exists (S k). split_and!; [lia | by rewrite El | intros; lia].
    + exists k. split_and!; [lia | done |]. intros run E Hpend. destruct (hw_run w) as [run0|] eqn:E0; [| done].
      injection E as <-. destruct (is_ok res) eqn:Eo; [by destruct Hpend |].
      destruct (Hrun run0 eq_refl) as (Eq & _). rewrite Eid in Efail. unfold e' in Efail. cbn in Efail. rewrite Eq in Efail.
      apply String.eqb_neq in Hid. by rewrite Hid in Efail.
  - intros run E. destruct (hw_run w) as [run0|] eqn:E0; [| done]. injection E as <-.
    destruct (Hrun' run0 E0) as (Eq & Hi0 & Hp0 & j & Hj & Htm & Hdone).
    destruct (Hrun run0 eq_refl) as (_ & _ & _ & j0 & Hj0 & _). cbn in Hj.
    destruct res as [rc|err]; cbn [is_ok ru_entry ru_pending ru_complete].
    + split_and!; [done | done | done |]. exists j. split_and!; [done | done |]. intros _.
      assert (ue_AccountingID e2 = hr_id q) as E2 by (rewrite Eid; unfold e'; cbn; done).
      eapply FinalizeUsage_completes in Ef as (j' & Hj' & Hs); [| done | done | by rewrite E2 | by rewrite E2]. rewrite E2 in Hj'. congruence.
    + split_and!; [done | done | by intros ? [= <-] |]. eauto.
  - destruct (hw_run w) as [run0|]; [| done]. intros run [= <-]. destruct (is_ok res); [by left | right; eauto].
Qed.

(** The run ended with its completion acknowledged, or counted as a failure. *)
Definition settled w : Prop := forall run, hw_run w = Some run -> ru_complete run = true \/ is_Some (ru_pending run).

Lemma settled_none w : hw_run w = None -> settled w.
Proof. intros E run. by rewrite E. Qed.

Lemma request_entry_int64 customer acc user tokens micro status error cached ts :
  micro <= MaxInt64 -> entry_int64 (request_entry q customer acc user tokens micro status error cached ts).
Proof. done. Qed.

Lemma zero_int64 : 0 <= MaxInt64.
Proof. by vm_compute. Qed.

Lemma recordDenial_tracked n w wr now status code :
  tracked w0 n w -> tracked w0 (S n) (recordDenial alive wr q now status code w) /\
  (hw_run (recordDenial alive wr q now status code w) = None <-> hw_run w = None).
Proof.
  intros Ht. unfold recordDenial. destruct (persistUsage_tracked n w wr _ Ht (request_entry_int64 (hw_customer w) "" (hr_key q ≫= vk_UserID) (0, 0, 0) 0 status code false now zero_int64)) as (? & _ & ?). done.
Qed.

Lemma beginAccounting_tracked n c w w' res :
  tracked w0 n w -> hw_run w = None -> beginAccounting json_size c q w = (w', res) ->
  tracked w0 n w' /\ (is_ok res = false -> hw_run w' = None) /\
  (is_ok res = true -> Ready (hw_logger w) = true /\ exists run, hw_run w' = Some run /\ ru_pending run = None).
Proof.
  intros Ht Hnone. unfold beginAccounting. destruct (Ready (hw_logger w)) eqn:Hready; cbn [negb]; [| by intros [= <- <-]].
  set (e := request_entry _ _ _ _ _ _ _ _ _ _).
  destruct (BeginAccounting _ _ _ _ _ _ _ _) as [d r] eqn:Eb.
  assert (history (hw_db w) d) as Hev.
  { apply rtc_once. eapply ev_begin; [| exact Eb]. split_and!; try done. cbn. destruct (hr_nonBillable q); [by right | by left]. }
  pose proof (tracked_db _ _ _ Ht Hev) as Ht'. destruct r as [[]|err].
  2: { assert (hw_run (set_db d w) = None) by done. destruct err; intros [= <- <-]; (split_and!; [done | done | done]). }
  intros [= <- <-]. split_and!; [| done | cbn; eauto]. destruct Ht' as [Hdb (k & ? & ? & _) _].
  split; [done | exists k; split_and!; [done | done |] |]; cbn [set_run hw_run hw_db].
  - intros run [= <-] [? [=]].
  - intros run [= <-]. cbn [ru_entry ru_pending ru_complete]. split_and!; [done | apply zero_int64 | done |].
    revert Eb. unfold BeginAccounting. destruct (_ || _ || _ || _); [done |]. destruct (24576 <? _); [done |].
    destruct (negb _); [done |]. destruct (_ || _); [done |].
    destruct (co_begin c).2; cbn; intros [= <-]. eexists. split; [apply lookup_insert_eq | done].
Qed.

Lemma finish_entry_int64 n w run status error :
  tracked w0 n w -> hw_run w = Some run ->
  entry_int64 (default (set_status status error (if (ue_Accounting (ru_entry run) =? "")%string then set_accounting (ru_entry run) "unknown" else ru_entry run)) (ru_pending run)).
Proof.
  intros Ht Er. destruct (tr_run _ _ _ Ht run Er) as (_ & Hi & Hp & _). destruct (ru_pending run) eqn:Epend; [by apply Hp |]. cbn.
  by destruct (ue_Accounting (ru_entry run) =? "")%string.
Qed.

Lemma finishAccounting_history n w wr : tracked w0 n w -> history (hw_db w) (hw_db (finishAccounting alive wr w)).
Proof.
  intros Ht. unfold finishAccounting. destruct (hw_run w) as [run|] eqn:Er; [| done]. destruct (ru_complete run); [done |].
  by eapply persistUsage_history, finish_entry_int64.
Qed.

Lemma finishAccounting_tracked n w wr :
  tracked w0 n w -> tracked w0 (S n) (finishAccounting alive wr w) /\ settled (finishAccounting alive wr w).
Proof.
  intros Ht. unfold finishAccounting, settled. destruct (hw_run w) as [run|] eqn:Er.
  2: { split; [apply (tracked_le n); [lia | done] | by rewrite Er]. }
  destruct (ru_complete run) eqn:Ec.
  { split; [apply (tracked_le n); [lia | done] |]. rewrite Er. intros ? [= <-]. by left. }
  destruct (persistUsage_tracked _ _ wr _ Ht (finish_entry_int64 _ _ _ 503 "request_interrupted_or_unrecorded" Ht Er)) as (? & ? & _). done.
Qed.

(** The stages of the admission. *)
Lemma enforceBudget_tracked n c w prompt completion capability w' g :
  tracked w0 n w -> is_Some (hw_run w) -> int64_ok prompt -> int64_ok completion ->
  enforceBudget c q prompt completion capability w = (w', g) ->
  tracked w0 n w' /\ hw_run w' = hw_run w /\ hw_gateway w' = hw_gateway w /\ history (hw_db w) (hw_db w').
Proof.
  intros Ht [run Hrun] Hp Hc. unfold enforceBudget. destruct (_ || _); [by intros [= <- _] |].
  destruct (TargetsFor _ _ _) as [targets|]; [| by intros [= <- _]].
  destruct (match hr_key q ≫= vk_ServiceAccountID with Some _ => _ | None => _ end) as [account|]; [| by intros [= <- _]].
  set (req := admission_request _ _ _ _ _ _ _).
  destruct (Admit _ _ _ _ _ _ _) as [t res] eqn:Ea.
  assert (history (hw_db w) (mkDatabase t (db_journal (hw_db w)))) as Hev.
  { apply rtc_once. eapply ev_admit; [| | exact Ea]; [by split |].
    intros team j [= <-] Hj. destruct (tr_run _ _ _ Ht run Hrun) as (_ & _ & _ & j' & Hj' & Htm & _).
    cbn in Hj. replace j with j' by congruence. done. }
  pose proof (tracked_db _ _ _ Ht Hev) as Ht'. destruct res as [|[]]; intros [= <- _]; done.
Qed.

Lemma with_mark_history {O} c run w w' (out : outcome O) :
  with_mark c q run w = (w', out) ->
  history (hw_db w) (hw_db w') /\ exists g, w' = set_gateway g (set_db (hw_db w') w).
Proof.
  unfold with_mark. destruct (MarkAccountingStarted _ _ _ _ _) as [d marked] eqn:Em.
  destruct (run _ _) as [g o]. intros [= <- _].
  destruct (_ || _); split; [by apply rtc_once; eapply ev_start | by exists g | done | by exists g; destruct w].
Qed.

Lemma with_mark_tracked {O} n c run w w' (out : outcome O) :
  tracked w0 n w -> with_mark c q run w = (w', out) -> tracked w0 n w'.
Proof.
  intros Ht E. destruct (with_mark_history _ _ _ _ _ E) as (Hev & g & Ew). rewrite Ew. by apply tracked_gateway, tracked_db.
Qed.

Hypothesis Hothers : forall i d, history d (others i d).

Lemma meanwhile_tracked n i w : tracked w0 n w -> tracked w0 n (meanwhile others i w).
Proof. intros Ht. apply tracked_db; [done | apply Hothers]. Qed.

Lemma admit_tracked path c w w' res :
  tracked w0 0 w -> hw_run w = None ->
  admitRequestConcurrency json_size alive limiter has_store others path c q w = (w', res) ->
  match res with
  | Ok _ => tracked w0 0 w' /\ is_Some (hw_run w') /\ Ready (hw_logger w) = true
  | Err _ => tracked w0 2 w' /\ settled w' /\ (is_Some (hw_run w') -> Ready (hw_logger w) = true)
  end.
Proof.
  intros Ht Hn. unfold admitRequestConcurrency. destruct (loadGuardrails _ _ _ _ _ _ _ _) as [table load].
  set (w1 := mkWorld _ _ _ _ table _ _ _). assert (tracked w0 0 w1) as Ht1 by (destruct Ht; by split).
  assert (forall w2 wr now status code, tracked w0 0 w2 -> hw_run w2 = None ->
    let w3 := recordDenial alive wr q now status code w2 in
    tracked w0 2 w3 /\ settled w3 /\ (is_Some (hw_run w3) -> Ready (hw_logger w) = true)) as Hdeny.
  { intros w2 wr now status code H2 Hn2 w3. destruct (recordDenial_tracked 0 w2 wr now status code H2) as [H3 Hn3].
    apply Hn3 in Hn2. split_and!; [by apply (tracked_le 1); [lia |] | by apply settled_none |]. unfold w3. rewrite Hn2. by intros []. }
  destruct (load_denial load) as [e|]; [intros [= <- <-]; by apply Hdeny |].
  destruct (resolveRequestCustomer _ _ _ _ _ _) as [[s customer] r]; set (w2 := mkWorld _ _ _ s _ _ customer _).
  assert (tracked w0 0 w2) as Ht2 by (destruct Ht; by split).
  destruct r as [u|e]; [| intros [= <- <-]; by apply Hdeny].
  destruct (beginAccounting json_size c q w2) as [w3 rb] eqn:Eb;
    destruct (beginAccounting_tracked _ _ _ _ _ Ht2 Hn Eb) as (Ht3 & Hno & Hyes).
  destruct rb as [u'|e]; [| intros [= <- <-]; specialize (Hno eq_refl); split_and!;
    [by apply (tracked_le 0); [lia |] | by apply settled_none | rewrite Hno; by intros []]].
  destruct (Hyes eq_refl) as (Hready & run & Hrun & _); apply (meanwhile_tracked _ 0) in Ht3.
  destruct (acquireConcurrencyScopes _ _ _ _ _ _) as [g' [lease|e]];
    [intros [= <- <-]; split_and!; [by apply tracked_gateway | by exists run | done] |].
  destruct (if ca_unavailable e then _ else _) as [status code]; intros [= <- <-].
  destruct (recordDenial_tracked 0 (set_gateway g' (meanwhile others 0 w3)) (co_denial c) (co_now c) status code) as [Ht4 _];
    [by apply tracked_gateway |].
  destruct (finishAccounting_tracked _ _ (co_finish c) Ht4) as [Ht5 Hs]; split_and!; done.
Qed.

Lemma usage_cost_int64 c resolved cached unknown u : (cached = false -> usage_int64 u) -> (usage_cost c resolved cached unknown u).2 <= MaxInt64.
Proof.
  intros Hu. unfold usage_cost. destruct cached; [apply zero_int64 | specialize (Hu eq_refl)]. destruct resolved as [t|]; [| apply zero_int64]. destruct unknown; [apply zero_int64 |].
  destruct (ComputeUsageCost _ _ _ _ _) as [cost|err] eqn:E; [| destruct err; apply zero_int64].
  revert E. unfold ComputeUsageCost. destruct (_ || _); [intros [= <-]; apply zero_int64 |]. destruct (negb _); [done |].
  destruct (GetCurrentPricing _ _ _) as [p|]; [| done]. destruct (CostUsage (Some p) u) as [v|] eqn:Ec; [| done].
  intros [= <-]. by apply CostUsage_iff in Ec as (? & _ & _ & _ & _ & ?).
Qed.

Lemma recordUsage_tracked n c resolved cached unknown u status error w :
  tracked w0 n w -> (cached = false -> usage_int64 u) -> tracked w0 (S n) (recordUsage alive c q resolved cached unknown u status error w).
Proof.
  intros Ht Hu. unfold recordUsage. pose proof (usage_cost_int64 c resolved cached unknown u Hu) as Hc.
  destruct (usage_cost _ _ _ _ _) as [accounting cost]. by eapply persistUsage_tracked.
Qed.

Lemma no_usage_int64 : usage_int64 no_usage_yet.
Proof. by vm_compute. Qed.

Variable call : nat -> Resolved -> call_result (Usage * bool).
Hypothesis Hcall : forall n t u reported, call n t = Returned (Ok (u, reported)) -> usage_int64 u.
Hypothesis Htokens : int64_ok (hr_tokens q).

#[local] Abbreviation embeddings := (Embeddings getenv json_size alive limiter has_store others call).

Lemma route_tracked {A} (answers : nat -> Resolved -> call_result A) n c capability fuel w w' out :
  tracked w0 n w -> route getenv limiter has_store answers c q capability fuel w = (w', out) ->
  tracked w0 n w' /\ (forall t a, out = Succeeded t a -> exists m, answers m t = Returned (Ok a)).
Proof.
  intros Ht E. split; [by eapply with_mark_tracked |].
  revert E. unfold route, with_mark. destruct (MarkAccountingStarted _ _ _ _ _) as [d marked].
  destruct (fallback_loop _ _ _ _ _ _ _ _ _ _ _ _ _ _ _ _ _) as [g' o] eqn:Ef. intros [= _ <-].
  by apply fallback_spec in Ef as (_ & _ & _ & Hs).
Qed.

Lemma with_mark_ext {O} c run run' w : (forall env g, run env g = run' env g) -> with_mark (O := O) c q run w = with_mark c q run' w.
Proof. intros E. unfold with_mark. destruct (MarkAccountingStarted _ _ _ _ _) as [d marked]. by rewrite E. Qed.

(** *** Permits, leases and the mark *)

Lemma persistUsage_gateway wr e w : hw_gateway (persist wr e w).1 = hw_gateway w.
Proof. unfold persistUsage. by destruct (Logger_Record _ _ _ _ _ _ _) as [[l d] res]. Qed.

Lemma recordDenial_gateway wr now status code w : hw_gateway (recordDenial alive wr q now status code w) = hw_gateway w.
Proof. apply persistUsage_gateway. Qed.

Lemma recordUsage_gateway c resolved cached unknown u status error w :
  hw_gateway (recordUsage alive c q resolved cached unknown u status error w) = hw_gateway w.
Proof. unfold recordUsage. destruct (usage_cost _ _ _ _ _). apply persistUsage_gateway. Qed.

Lemma finishAccounting_gateway wr w : hw_gateway (finishAccounting alive wr w) = hw_gateway w.
Proof.
  unfold finishAccounting. destruct (hw_run w) as [run|]; [| done]. destruct (ru_complete run); [done |]. apply persistUsage_gateway.
Qed.

Lemma beginAccounting_gateway c w : hw_gateway (beginAccounting json_size c q w).1 = hw_gateway w.
Proof.
  unfold beginAccounting. destruct (negb _); [done |]. destruct (BeginAccounting _ _ _ _ _ _ _ _) as [d [u|[]]]; done.
Qed.

Lemma quiet_frame (s s' : gateway B R) evs :
  gw_registry s' = gw_registry s -> gw_events s' = gw_events s ++ evs -> frame s s' evs.
Proof. intros Er Ee. unfold frame. by rewrite Er. Qed.

Lemma admit_frame path c w w' res :
  admitRequestConcurrency json_size alive limiter has_store others path c q w = (w', res) ->
  frame (hw_gateway w) (hw_gateway w') match res with Ok lease => took lease | Err _ => [] end.
Proof.
  unfold admitRequestConcurrency. destruct (loadGuardrails _ _ _ _ _ _ _ _) as [table load].
  destruct (load_denial load) as [e|]; [intros [= <- <-]; rewrite recordDenial_gateway; apply frame_refl |].
  destruct (resolveRequestCustomer _ _ _ _ _ _) as [[s customer] r].
  destruct r as [u|e]; [| intros [= <- <-]; rewrite recordDenial_gateway; apply frame_refl].
  set (w2 := mkWorld _ _ _ s _ _ customer _). pose proof (beginAccounting_gateway c w2) as Eg.
  destruct (beginAccounting json_size c q w2) as [w3 rb]. cbn [fst] in Eg.
  destruct rb as [u'|e]; [| intros [= <- <-]; rewrite Eg; apply frame_refl].
  destruct (acquireConcurrencyScopes _ _ _ _ _ _) as [g' rl] eqn:Ea.
  apply acquireConcurrencyScopes_spec in Ea as [Er Ee]. cbn [meanwhile set_db hw_gateway] in Er, Ee. rewrite Eg in Er, Ee.
  destruct rl as [lease|e]; [intros [= <- <-]; by apply quiet_frame |].
  destruct (if ca_unavailable e then _ else _) as [status code]. intros [= <- <-].
  rewrite finishAccounting_gateway, recordDenial_gateway. by apply quiet_frame.
Qed.

(** The request's entry is marked as started. *)
Definition started (d : database) : Prop := exists j, db_journal d !! hr_id q = Some j /\ jr_started j = true.

Lemma started_history d d' : consistent d -> history d d' -> started d -> started d'.
Proof.
  intros Hc Hd (j & Hj & Hs). destruct (events_preserved json_size alive _ _ Hd Hc) as [_ (_ & _ & Hcont)].
  destruct (Hcont _ _ Hj) as (j' & Hj' & _ & _ & Hs'). exists j'. auto.
Qed.

Lemma mark_started ok end_ now d d' : MarkAccountingStarted ok end_ now (hr_id q) d = (d', Ok tt) -> started d'.
Proof.
  unfold MarkAccountingStarted. destruct (negb ok); [done |]. destruct (db_journal d !! hr_id q) as [j|]; [| done].
  destruct (_ && _); [| done]. destruct end_; cbn; intros [= <-]. eexists. split; [apply lookup_insert_eq | done].
Qed.

(** A marked call starts from its gateway and, if its run marks first, calls a
    provider only for a marked entry. *)
Lemma with_mark_frame {O} c run w w' (out : outcome O) :
  (forall env g g' o, gw_started g = false -> run env g = (g', o) -> marks (exists m, en_mark (env m) = true) g g') ->
  with_mark c q run w = (w', out) ->
  exists env g, gw_registry g = gw_registry (hw_gateway w) /\ gw_events g = gw_events (hw_gateway w) /\
    run env g = (hw_gateway w', out) /\
    forall evs, gw_events (hw_gateway w') = gw_events g ++ evs -> calls evs = [] \/ started (hw_db w').
Proof.
  intros Hmarks. unfold with_mark. destruct (MarkAccountingStarted _ _ _ _ _) as [d marked] eqn:Em.
  set (env := fun n => _). set (g0 := mkGateway _ _ _ _ _). destruct (run env g0) as [g o] eqn:Er. intros [= <- <-].
  exists env, g0. split_and!; [done | done | done |]. cbn [set_gateway hw_gateway]. intros evs Fe.
  destruct (Hmarks env g0 g o eq_refl Er) as (_ & Hmark & Hcalls). rewrite Fe, calls_app in Hcalls.
  destruct Hcalls as [Hn | Hst]; [left | right].
  - apply (app_inv_head (calls (gw_events g0))). by rewrite app_nil_r.
  - rewrite Hst. cbn. destruct (Hmark Hst) as [[=] | [m Hm]]. cbn in Hm. destruct marked as [[]|]; [| done]. by eapply mark_started.
Qed.

(** A routed call gives everything back. *)
Lemma route_frame {A} (answers : nat -> Resolved -> call_result A) c capability fuel w w' out :
  route getenv limiter has_store answers c q capability fuel w = (w', out) ->
  exists evs, frame (hw_gateway w) (hw_gateway w') evs /\ replay evs [] [] = Some ([], []) /\
    (calls evs = [] \/ started (hw_db w')).
Proof.
  intros E. apply with_mark_frame in E as (env & g & Er & Ee & Erun & Hc).
  - apply fallback_spec in Erun as (evs & (Fa & Fc & Fe) & (Hr & _) & _). exists evs.
    split_and!; [| done | by apply Hc]. unfold frame. by rewrite <- Er, <- Ee.
  - intros env g g' o _ Ef. by eapply fallback_marks.
Qed.

Lemma recordUsage_history c resolved cached unknown u status error w :
  (cached = false -> usage_int64 u) -> history (hw_db w) (hw_db (recordUsage alive c q resolved cached unknown u status error w)).
Proof.
  intros Hu. unfold recordUsage. pose proof (usage_cost_int64 c resolved cached unknown u Hu) as Hc.
  destruct (usage_cost _ _ _ _ _) as [accounting cost]. by apply persistUsage_history.
Qed.

(** *** The whole request *)

(** What holds when the endpoint has answered. *)
Definition accounted_for w : Prop :=
  tracked w0 3 w /\ settled w /\ (is_Some (hw_run w) -> Ready (hw_logger w0) = true) /\
  exists evs, frame (hw_gateway w0) (hw_gateway w) evs /\ replay evs [] [] = Some ([], []) /\ (calls evs = [] \/ started (hw_db w)).

Lemma accounted_quiet n w :
  tracked w0 n w -> (n <= 3)%nat -> hw_run w = None -> hw_gateway w = hw_gateway w0 -> accounted_for w.
Proof.
  intros Ht Hn Hrun Eg. split_and!; [by apply (tracked_le n) | by apply settled_none | rewrite Hrun; by intros [] |].
  exists []. rewrite Eg. split_and!; [apply frame_refl | done | by left].
Qed.

(** The deferred release of a request that was admitted under [lease]. *)
Lemma releaseModel_accounted n c lease w evs :
  tracked w0 n w -> (n <= 2)%nat -> Ready (hw_logger w0) = true ->
  frame (hw_gateway w0) (hw_gateway w) (took lease ++ evs) -> replay evs [] [] = Some ([], []) ->
  (calls evs = [] \/ started (hw_db w)) -> accounted_for (releaseModel alive c lease w).
Proof.
  intros Ht Hn Hready Hf Hr Hc. unfold releaseModel. set (w1 := set_gateway _ w).
  assert (tracked w0 n w1) as Ht1 by by apply tracked_gateway.
  destruct (finishAccounting_tracked n w1 (co_finish c) Ht1) as [Ht2 Hs].
  split_and!; [by apply (tracked_le (S n)); [lia |] | done | done |].
  exists ((took lease ++ evs) ++ gave lease). destruct (releaseRoutingLease_spec (co_lease c) lease (hw_gateway w)) as [Er Ee].
  rewrite finishAccounting_gateway. split_and!.
  - eapply frame_trans; [exact Hf | by apply quiet_frame].
  - rewrite <- app_assoc, replay_app. destruct lease as [le|]; cbn.
    + pose proof (replay_held _ [le_member le] _ _ _ _ Hr) as Hh. cbn in Hh. rewrite replay_app, Hh. cbn. by rewrite String.eqb_refl.
    + by rewrite app_nil_r.
  - rewrite !calls_app, (proj1 (lease_calls lease)), (proj2 (lease_calls lease)), app_nil_r. destruct Hc as [-> | Hst]; [by left | right].
    eapply started_history; [by eapply (tracked_consistent n) | by eapply finishAccounting_history | exact Hst].
Qed.

(** The endpoint. *)
Lemma Embeddings_accounted c input_len fuel w' out :
  embeddings c q input_len fuel w0 = (w', out) -> accounted_for w'.
Proof.
  unfold Embeddings. assert (tracked w0 0 (fresh w0)) as Ht by (split; [by cbn | by exists 0%nat | done]).
  destruct (hr_alias q =? "")%string; [intros [= <- _]; by apply (accounted_quiet 0); [| lia | |] |].
  destruct (input_len =? 0); [intros [= <- _]; by apply (accounted_quiet 0); [| lia | |] |].
  destruct (negb _).
  { intros [= <- _]. destruct (recordDenial_tracked 0 (fresh w0) (co_denial c) (co_now c) 403 "model_not_allowed" Ht) as [Ht1 Hn].
    apply (accounted_quiet 1); [done | lia | by apply Hn | by rewrite recordDenial_gateway]. }
  destruct (admitRequestConcurrency _ _ _ _ _ _ _ _ _) as [w1 [lease|e]] eqn:Ea;
    pose proof (admit_frame _ _ _ _ _ Ea) as Hf; apply admit_tracked in Ea; try done.
  2: { intros [= <- _]. destruct Ea as (? & ? & ?). split_and!; [by apply (tracked_le 2); [lia |] | done | done |]. exists []. split_and!; [done | done | by left]. }
  destruct Ea as (Ht1 & Hrun & Hready). change (frame (hw_gateway w0) (hw_gateway w1) (took lease)) in Hf.
  rewrite <- (app_nil_r (took lease)) in Hf.
  assert (forall r denial w2 w3 o, tracked w0 0 w2 -> hw_gateway w2 = hw_gateway w1 ->
    (releaseModel alive c lease match denial with Some (status, code) => recordDenial alive (co_denial c) q (co_now c) status code w2
                                | None => w2 end, Answered r) = (w3, o) -> accounted_for w3) as Hrefuse.
  { intros r denial w2 w3 o Ht2 Eg [= <- _]. destruct denial as [[status code]|].
    - eapply (releaseModel_accounted 1 _ _ _ []); [by apply recordDenial_tracked | lia | done | by rewrite recordDenial_gateway, Eg | done | by left].
    - eapply (releaseModel_accounted 0 _ _ _ []); [done | lia | done | by rewrite Eg | done | by left]. }
  destruct (enforceRateLimit _ _ _ _) as [| r denial]; [| by apply Hrefuse].
  destruct (enforceBudget _ _ _ _ _ _) as [w2 gt] eqn:Eb.
  destruct (enforceBudget_tracked 0 c w1 _ _ _ _ _ Ht1 Hrun Htokens (proj1 no_usage_int64) Eb) as (Ht2 & _ & Eg2 & _).
  destruct gt as [| r denial]; [| by apply Hrefuse].
  destruct (route _ _ _ _ _ _ _ _ _) as [w3 o] eqn:Er. destruct (route_frame _ _ _ _ _ _ _ Er) as (evs & Hf3 & Hr3 & Hc3).
  destruct (route_tracked _ 0 _ _ _ _ _ _ (meanwhile_tracked _ 1 _ Ht2) Er) as [Ht3 Hu].
  assert (calls evs = [] \/ started (hw_db (meanwhile others 2 w3))) as Hc4.
  { destruct Hc3 as [? | Hst]; [by left | right]. eapply started_history; [by eapply tracked_consistent | apply Hothers | exact Hst]. }
  assert (frame (hw_gateway w0) (hw_gateway (meanwhile others 2 w3)) (took lease ++ evs)) as Hf4.
  { rewrite app_nil_r in Hf. eapply frame_trans; [exact Hf |]. change (hw_gateway (meanwhile others 1 w2)) with (hw_gateway w2) in Hf3.
    by rewrite Eg2 in Hf3. }
  apply (meanwhile_tracked _ 2) in Ht3.
  assert (forall resolved cached unknown u status error, usage_int64 u ->
    accounted_for (releaseModel alive c lease (recordUsage alive c q resolved cached unknown u status error (meanwhile others 2 w3)))) as Hrec.
  { intros resolved cached unknown u status error Hu'. eapply (releaseModel_accounted 1 _ _ _ evs);
      [by apply recordUsage_tracked | lia | done | by rewrite recordUsage_gateway | done |].
    destruct Hc4 as [? | Hst]; [by left | right]. eapply started_history; [by eapply tracked_consistent | by apply recordUsage_history | exact Hst]. }
  destruct o as [t [u reported] | t err | |].
  - intros [= <- _]. destruct (Hu t (u, reported) eq_refl) as [m Hm]. by eapply Hrec, Hcall.
  - destruct (routing_error_response err) as [[status errType] retry]. intros [= <- _]. apply Hrec, no_usage_int64.
  - intros [= <- _]. by eapply (releaseModel_accounted 0 _ _ _ evs); [| lia | | | |].
  - intros [= <- _]. by eapply (releaseModel_accounted 0 _ _ _ evs); [| lia | | | |].
Qed.
End from.

(** A run that ended is recorded, or its replica is unready. *)
Lemma accounted_recorded w w' run :
  0 <= lg_failures (hw_logger w) < 2 ^ 64 -> accounted_for w w' -> hw_run w' = Some run ->
  finished (hw_db w') (hr_id q) \/ Ready (hw_logger w') = false.
Proof.
  intros Hl (Ht & Hs & Hready & _) Hrun.
  destruct Ht as [_ (k & Hk & El & Hpend) Htr]. destruct (Htr run Hrun) as (_ & _ & _ & j & Hj & _ & Hdone).
  destruct (Hs run Hrun) as [Hc | Hp]; [left; exists j; auto | right]. specialize (Hpend run Hrun Hp). rewrite El.
  specialize (Hready ltac:(by exists run)). apply Z.eqb_eq in Hready. apply Z.eqb_neq. clear -Hk Hpend Hready Hl.
  destruct k as [| [| [| [|]]]]; [lia | | | | lia]; cbn [Nat.iter nat_rect add_failure lg_failures lg_healthy];
    rewrite ?Z.add_mod_idemp_l by lia; Z.to_euclidean_division_equations; lia.
Qed.

(** ** The properties *)

Section endpoint.
Variable call : nat -> Resolved -> call_result (Usage * bool).
(** Whatever others do to the database is a history of it; the request has a
    number; counts are 64-bit integers. *)
Hypothesis Hothers : forall i d, history d (others i d).
Hypothesis Hid : hr_id q <> "".
Hypothesis Hcall : forall n t u reported, call n t = Returned (Ok (u, reported)) -> usage_int64 u.
Hypothesis Htokens : int64_ok (hr_tokens q).

#[local] Abbreviation embeddings := (Embeddings getenv json_size alive limiter has_store others call).

(** An embeddings request is a history of the accounting: every database
    call of the handler, on every path and interleaved with other requests, is a
    step of the accounting's database, so from a reachable database it leads to
    a reachable one. *)
Theorem embeddings_is_a_history (c : conditions) (input_len : Z) (fuel : nat) (w : world B R)
    (Hd : reachable json_size alive (hw_db w)) :
  history (hw_db w) (hw_db (embeddings c q input_len fuel w).1) /\
  reachable json_size alive (hw_db (embeddings c q input_len fuel w).1).
Proof.
  destruct (embeddings c q input_len fuel w) as [w' out] eqn:E. apply Embeddings_accounted in E as ([Hh _ _] & _);
    [| by eapply reachable_consistent | done..]. split; [done | unfold reachable in *; by etransitivity].
Qed.

(** No admitted request is lost: once an embeddings request has its durable
    entry, then however it ends (a refusal, an upstream error, a panic, a failed
    or unacknowledged write), the entry is complete in the database, or the
    replica is unready and admits nothing until the recovery has seen to it. *)
Theorem embeddings_recorded (c : conditions) (input_len : Z) (fuel : nat) (w w' : world B R) (out : ending)
    (run : accountingRun) (Hd : reachable json_size alive (hw_db w)) (Hl : 0 <= lg_failures (hw_logger w) < 2 ^ 64)
    (E : embeddings c q input_len fuel w = (w', out)) (Hrun : hw_run w' = Some run) :
  finished (hw_db w') (hr_id q) \/ Ready (hw_logger w') = false.
Proof.
  apply Embeddings_accounted in E as Ha; [| by eapply reachable_consistent | done..]. by eapply accounted_recorded.
Qed.

(** A provider is called only for a durably started entry, and nothing is
    kept: whatever happens during an embeddings request, every permit and lease
    it took, the request-wide one included, was given back in order and the
    deployment counters are as before; if any provider was called, the request's
    entry in the database is marked as started. *)
Theorem embeddings_returns_everything (c : conditions) (input_len : Z) (fuel : nat) (w w' : world B R) (out : ending)
    (Hd : reachable json_size alive (hw_db w)) (E : embeddings c q input_len fuel w = (w', out)) :
  exists evs, gw_events (hw_gateway w') = gw_events (hw_gateway w) ++ evs /\ replay evs [] [] = Some ([], []) /\
    same_counters (rg_deploymentLimits (gw_registry (hw_gateway w))) (rg_deploymentLimits (gw_registry (hw_gateway w'))) /\
    (calls evs = [] \/ exists j, db_journal (hw_db w') !! hr_id q = Some j /\ jr_started j = true).
Proof.
  apply Embeddings_accounted in E as (_ & _ & _ & evs & (_ & Hc & He) & Hr & Hst); [| by eapply reachable_consistent | done..].
  by exists evs.
Qed.
End endpoint.
End facts.

(** ** Evaluation *)

Definition example_write : write := mkWrite true Committed example_now.

Definition example_conditions : conditions :=
  mkConditions 63072000000000000000 example_now (Ok []) true StoreAnswers (true, Committed) Minute
    (example_env_n 0) None None (fun _ => true) Committed
    [] (true, Committed, example_now) example_env_n true example_write example_write example_write.

Definition example_request : handler_request :=
  mkHandlerRequest "r9" auto_team None None "gpt" "acme" 10 (mkResolveContext [] "") false.

Definition example_world : world Empty_set MapRedis.db :=
  mkWorld example_gateway empty_database NewLogger customer_tables [] None None None.

Definition example_answer (n : nat) (t : Resolved) : call_result (Usage * bool) :=
  if (n =? 0)%nat then Returned (Err http_500) else Returned (Ok (plain_usage 10 0, true)).

Definition example_run (w : world Empty_set MapRedis.db) : world Empty_set MapRedis.db * ending :=
  Embeddings example_env small kept None true (fun _ d => d) example_answer example_conditions example_request 1 4 w.

(** The first deployment fails, the second answers; the entry is complete. *)
Lemma example_embeddings :
  let '(w, out) := example_run example_world in
  out = Answered (200, "") /\ calls (gw_events (hw_gateway w)) = ["east"; "west"] /\
  option_map jr_state (db_journal (hw_db w) !! "r9") = Some Complete.
Proof. vm_compute. split_and!; reflexivity. Qed.

(** A completion that cannot be written makes the replica unready. *)
Lemma example_unrecorded :
  let lost := mkWrite true NotCommitted example_now in
  let c := mkConditions 63072000000000000000 example_now (Ok []) true StoreAnswers (true, Committed) Minute
    (example_env_n 0) None None (fun _ => true) Committed
    [] (true, Committed, example_now) example_env_n true lost lost lost in
  let '(w, out) := Embeddings example_env small kept None true (fun _ d => d) example_answer c example_request 1 4 example_world in
  out = Answered (200, "") /\ option_map jr_state (db_journal (hw_db w) !! "r9") = Some Pending /\ Ready (hw_logger w) = false.
Proof. vm_compute. split_and!; reflexivity. Qed.

Lemma example_answer_int64 n t u reported : example_answer n t = Returned (Ok (u, reported)) -> usage_int64 u.
Proof. unfold example_answer. destruct (n =? 0)%nat; [done |]. intros [= <- _]. by vm_compute. Qed.

Lemma embeddings_is_a_history_witness : reachable small kept (hw_db (example_run example_world).1).
Proof.
  apply (embeddings_is_a_history (B := Empty_set) example_env small kept None true (fun _ d => d) example_request example_answer);
    [intros; constructor | discriminate | exact example_answer_int64 | by vm_compute | constructor].
Defined.

Lemma embeddings_recorded_witness :
  finished (hw_db (example_run example_world).1) "r9" \/ Ready (hw_logger (example_run example_world).1) = false.
Proof.
  refine (embeddings_recorded (B := Empty_set) example_env small kept None true (fun _ d => d) example_request example_answer _ _ _ _
    example_conditions 1 4 example_world _ _ _ _ _ _ _);
    [intros; constructor | discriminate | exact example_answer_int64 | by vm_compute | constructor | by vm_compute | |];
    vm_compute; reflexivity.
Defined.

Lemma embeddings_returns_everything_witness :
  exists evs, gw_events (hw_gateway (example_run example_world).1) = gw_events (hw_gateway example_world) ++ evs /\
    replay evs [] [] = Some ([], []).
Proof.
  destruct (embeddings_returns_everything (B := Empty_set) example_env small kept None true (fun _ d => d) example_request example_answer
    ltac:(intros; constructor) ltac:(discriminate) example_answer_int64 ltac:(by vm_compute)
    example_conditions 1 4 example_world _ (example_run example_world).2 ltac:(constructor) ltac:(apply surjective_pairing))
    as (evs & He & Hr & _).
  exists evs. split; [exact He | exact Hr].
Defined.
