(* ===== verification/Chat.v ===== *)
(** * The chat endpoint ([api/v1.go], [ChatCompletions] and [streamChat])

    The chat endpoint from its body to its answer, composed of the stages of
    [Handlers] and of the request's decoder, the guardrails, the pricing check of
    customers, the cache, the routed call and the streaming proxy, each the
    definition of its own file. The stages run in the order of the code, under
    the deferred release of the request's lease and its accounting. What the
    outside does is an argument: the providers' answers and streams, the ends of
    database and Redis calls, the writes to the client, and what other requests do
    to the database meanwhile. Response bodies and headers are left out except for
    the body the cache keeps; the events of a stream are those of [StreamProxy]. *)

From S2P Require Import Prelude Streaming GoStrings Json Wire Money Models Identity Customers Guardrails GuardEnvelope GuardRuntime.
From S2P Require Import Redis Cache RateLimit Admission Concurrency Providers Breaker Limits Router Registry Gateway.
From S2P Require Import Ledger Budget Accounting Logger Sse StreamLife StreamProxy Handlers.
From Stdlib Require Import Ascii.

(** ** The request as admission sees it *)

(** The bytes of a code point. *)
Definition utf8_rune (r : Z) : list Z :=
  if r <? 128 then [r]
  else if r <? 2048 then [192 + Z.shiftr r 6; 128 + Z.land r 63]
  else if r <? 65536 then [224 + Z.shiftr r 12; 128 + Z.land (Z.shiftr r 6) 63; 128 + Z.land r 63]
  else [240 + Z.shiftr r 18; 128 + Z.land (Z.shiftr r 12) 63; 128 + Z.land (Z.shiftr r 6) 63; 128 + Z.land r 63].

Definition utf8_string (t : text) : string :=
  String.string_of_list_ascii (map (fun b => ascii_of_nat (Z.to_nat b)) (t ≫= utf8_rune)).

(** [r.raw] and the choices it asks for. *)
Definition raw_choices (raw : option (gmap text raw)) : raw_n :=
  match field raw "n" with
  | None | Some JNull => NAbsent
  | Some v => match into_int v 1 with Some n => NInt n | None => NInvalid end
  end.

Section View.
Context {F : Type}.

(** What estimates and bounds read of a request. *)
Definition view (r : Wire.ChatRequest (F := F)) : Providers.ChatRequest :=
  Providers.mkChatRequest (utf8_string (rq_Model r))
    (map (fun m => Providers.mkChatMessage (utf8_string (cm_Role m)) (utf8_string (cm_Content m))) (default [] (rq_Messages r)))
    (rq_Stream r) (rq_StreamOptions r) (rq_MaxTokens r) (rq_MaxCompletionTokens r) (utf8_string (rq_User r)) (raw_choices (rq_raw r)).

Definition set_completion_limit (limit : option Z) (r : Wire.ChatRequest (F := F)) : Wire.ChatRequest :=
  Wire.mkChatRequest (rq_Model r) (rq_Messages r) (rq_Stream r) (rq_StreamOptions r) (rq_Temperature r) (rq_MaxTokens r) limit (rq_User r) (rq_raw r).

(** The tokens a request is admitted with, and the request with the limit that is
    set where a policy needs one. *)
Definition chat_estimate (key : option VirtualKey) (customer : option Customer) (body_len : Z) (r : Wire.ChatRequest (F := F)) :
    result reply (Wire.ChatRequest (F := F) * Z * Z) :=
  let '(prompt, completion) := EstimateChatUsage (Some (view r)) in
  if hasKeyBudget key ||
     match customer with Some cu => bool_decide (is_Some (cu_UsdLimitCents cu)) || ptr_pos (cu_TPM cu) | None => false end
  then
    match BoundCustomerCompletion (view r) with
    | (_, Err _) => Err (400, "invalid_request")
    | (v, Ok completion) => Ok (set_completion_limit (cr_MaxCompletionTokens v) r, Z.max prompt ((body_len +w 3) /g 4), completion)
    end
  else Ok (r, prompt, completion).
End View.

(** ** The cache *)

(** [cache.Entry] *)
Record cache_entry := mkCacheEntry {
  ce_StatusCode : Z;
  ce_Body : raw;
  ce_PromptTokens : Z;
  ce_CompletionTokens : Z;
  ce_UpstreamModel : text;
  ce_OriginRequestID : string;
  ce_OriginDeployment : string;
  ce_CachedAt : Z;
}.

Abbreviation cache_entries := (gmap string (option cache_entry * Z)).

Definition cacheable (resp : ChatResponse) : bool :=
  match rs_Choices resp with
  | None | Some [] => false
  | Some choices =>
      forallb (fun ch => negb (bool_decide (cc_FinishReason ch ∈ [txt "tool_calls"; txt "function_call"]))) choices
  end.

(** The usage of an entry that is replayed. *)
Definition replayed_usage (e : cache_entry) : Usage :=
  mkUsage (ce_PromptTokens e) (ce_CompletionTokens e) (ce_PromptTokens e +w ce_CompletionTokens e) None None 0 0 None.

(** ** Surroundings *)

Record chat_conditions := mkChatConditions {
  cc_customer : string * string;        (** the headers of [extractCustomerID] *)
  cc_bypass : bool;                     (** the header that asks for no cache *)
  cc_pre : bool;                        (** the audit before the call commits *)
  cc_post : bool;                       (** the audit after it commits *)
  cc_get : io * Z;
  cc_set : io * Z;
  cc_stopped : nat -> option go_error;
  cc_turns : list turn;
  cc_ended : option bool;               (** the request's context, when the stream has ended *)
  cc_release : surroundings;
  cc_total : Z;                         (** the instant the entry is made *)
}.

Section Chat.
Context {B R F : Type} `{BreakerStore B, RedisZSet R}.
Variable getenv : string -> string.
Variable json_size : UsageEntry -> Z.
Variable alive : string -> option Z -> Z -> bool.
Variable limiter : option Limiter.
Variable has_store : bool.
Variable others : nat -> database -> database.
(** Numbers, texts and digests. *)
Variable parse_float : string -> option F.
Variable format : F -> text.
Variable digest : text -> string.
Variable body_len : raw -> Z.
Variable size : raw -> Z.
Variable fold_eq : rune -> rune -> bool.
Variable decode : bytes -> option raw.
Variable render : raw -> bytes.
Variable valid_utf8 : bytes -> bool.
(** The cache, and the providers: what they answer to the request they get. *)
Variable cache : option Cache.
Variable send : nat -> Resolved -> Wire.ChatRequest (F := F) -> call_result ChatResponse.
Variable open : nat -> Resolved -> Wire.ChatRequest (F := F) -> call_result chatStream.
Variable read_error : sse_error -> go_error.

Implicit Types (w : world B R).

Definition set_guard (g : option guardrailRun) (table : list GuardRuntime.decision) w : world B R :=
  mkWorld (hw_gateway w) (hw_db w) (hw_logger w) (hw_tables w) table (hw_run w) (hw_customer w) g.

Definition cacheParams (teamID : Z) (alias : string) (body : raw) w : bool * Z * string :=
  match cache, rg_aliasMeta (gw_registry (hw_gateway w)) !! alias with
  | Some ca, Some meta =>
      if negb (am_CacheEnabled meta) || (am_CacheTTLSeconds meta <=? 0) then (false, 0, "")
      else match Key parse_float format digest ca teamID alias (Some body) with
           | Some key => (true, am_CacheTTLSeconds meta *w Second, key)
           | None => (false, 0, "")
           end
  | _, _ => (false, 0, "")
  end.

(** ** Errors of the routed call *)

(** [writeRoutingError]. With policies the error is put through [finish], as is the
    refusal of a provider the policies do not cover. *)
Definition writeRoutingError (c : conditions) (commits : bool) (q : handler_request) (err : route_error) w : world B R * ending :=
  let '(w, status, errType) :=
    match hw_guard w with
    | None => let '(status, errType, _) := routing_error_response err in (w, status, errType)
    | Some g =>
        let '(g, table, cause) :=
          match err with
          | RouteGuardrail =>
              let '(g, table, e) := finish (Some (CGuard ErrUnsupported)) commits g (hw_decisions w) in
              (g, table, match e with Some e => CGuardrail (ge_status e) (ge_code e) | None => COther "" end)
          | _ => (g, hw_decisions w, COther "")
          end in
        let '(g, table, _) := finish (Some cause) commits g table in
        let failure := guardrailFailure cause in
        (set_guard (Some g) table w, ge_status failure, ge_code failure)
    end in
  (recordUsage alive c q None false true no_usage_yet status errType w, Answered (status, errType)).

(** ** The answer of a call *)

Definition set_response_model (model : text) (resp : ChatResponse) : ChatResponse :=
  mkChatResponse (rs_ID resp) model (rs_Choices resp) (rs_Usage resp) (rs_raw resp).

(** The response the client gets, after [guardedResponse]; [Ok None] is a guarded
    body that does not decode. *)
Definition chat_guarded (commits : bool) (resp : ChatResponse) w : world B R * result guardrailError (option ChatResponse) :=
  match hw_guard w with
  | None => (w, Ok (Some resp))
  | Some g =>
      let '(g, table, out) := response size fold_eq (Some (ChatResponse_MarshalJSON resp)) false commits g (hw_decisions w) in
      (set_guard (Some g) table w, match out with Ok body => Ok (ChatResponse_UnmarshalJSON body) | Err e => Err e end)
  end.

Definition chat_answer (c : conditions) (cc : chat_conditions) (q : handler_request) (alias : text) (cacheOn : bool) (ttl : Z) (key : string)
    (r : Wire.ChatRequest (F := F)) (fuel : nat) w (entries : cache_entries) : world B R * cache_entries * ending :=
  let call n t := send n t (set_model (txt (rv_UpstreamModel t)) r) in
  let '(w, out) := route getenv limiter has_store call c q CapabilityChat fuel (meanwhile others 1 w) in
  let w := meanwhile others 2 w in
  match out with
  | Succeeded target resp =>
      let unknown := negb (ChatResponse_UsageReported resp) in
      let upstreamModel := rs_Model resp in
      match chat_guarded (cc_post cc) (set_response_model alias resp) w with
      | (w, Err e) =>
          (recordUsage alive c q (Some target) false unknown (rs_Usage resp) (ge_status e) (ge_code e) w, entries,
           Answered (ge_status e, ge_code e))
      | (w, Ok None) => (w, entries, Answered (503, "guardrail_unavailable"))
      | (w, Ok (Some resp)) =>
          let w := recordUsage alive c q (Some target) false unknown (rs_Usage resp) 200 "" w in
          let entries :=
            if cacheOn && negb (cc_bypass cc) && cacheable resp
            then (Set_ cache (cc_set cc).1 (cc_set cc).2 key
                    (mkCacheEntry 200 (ChatResponse_MarshalJSON resp) (PromptTokens (rs_Usage resp)) (CompletionTokens (rs_Usage resp))
                       upstreamModel (hr_id q) (rv_DeploymentName target) (cc_total cc)) ttl entries).1
            else entries in
          (w, entries, Answered (200, ""))
      end
  | Failed _ err => let '(w, e) := writeRoutingError c (cc_post cc) q err w in (w, entries, e)
  | Paniced | OutOfFuel => (w, entries, Crashed)
  end.

(** ** Streams *)

Definition stream_go_error (e : stream_error) : go_error :=
  match e with
  | errStreamFirstEventTimeout => EWrap "upstream first stream event timeout" EDeadlineExceeded
  | errStreamIdleTimeout => EWrap "upstream stream idle timeout" EDeadlineExceeded
  | Canceled => ECanceled
  | ParentDone cause => if (cause =? "context deadline exceeded")%string then EDeadlineExceeded else ECanceled
  | ErrUnexpectedEOF => EOther "unexpected EOF"
  | StreamRead e => read_error e
  end.

Definition run_go_error (e : run_error) : go_error :=
  match e with
  | RStream e => stream_go_error e
  | RReported => EOther "upstream reported a stream error"
  | RGuard e => EOther (ge_code e)
  | RWrite err => EOther err
  end.

(** [stream_options] as the gateway asks for it. *)
Definition stream_request (model : text) (r : Wire.ChatRequest (F := F)) : Wire.ChatRequest :=
  Wire.mkChatRequest model (rq_Messages r) true (Some true) (rq_Temperature r) (rq_MaxTokens r) (rq_MaxCompletionTokens r) (rq_User r) (rq_raw r).

Definition record_outcome (cc : chat_conditions) (name : string) (so : stream_outcome) (err : option run_error) (g : gateway B R) : gateway B R :=
  match so_recorded so, err with
  | StreamProxy.RecordSuccess, _ => record_success (cc_release cc) name g
  | StreamProxy.RecordFailure, Some e => record_failure (cc_release cc) name (run_go_error e) g
  | _, _ => g
  end.

(** The proxy and what follows it. [None] for the ending is a stream that is still
    waiting for its next event. *)
Definition stream_end (c : conditions) (cc : chat_conditions) (q : handler_request) (alias : text) (target : Resolved)
    (src : chatStream) (permit : upstreamPermit) w : world B R * option ending :=
  let guard := hw_guard w in
  let proxy := mkStreamProxy src guard (hw_decisions w) (mkObserved [] [] None 0 [] false []) [] in
  let collect := bool_decide (guard = None) in
  let '(p, done) := Run decode render valid_utf8 size fold_eq alias collect (cc_turns cc) proxy in
  match done with
  | None => (set_guard (px_guard p) (px_audit p) w, None)
  | Some runErr =>
      let err := finish_run (px_guard p) (cc_post cc) (px_audit p) runErr in
      let '(guard, table) :=
        match px_guard p with
        | None => (None, px_audit p)
        | Some g => let '(g, table, _) := finish (run_cause runErr) (cc_post cc) g (px_audit p) in (Some g, table)
        end in
      let w := set_guard guard table w in
      let w := set_gateway (releaseUpstreamPermit (cc_release cc) permit (hw_gateway w)) w in
      let so := streamOutcome (cc_ended cc) err in
      let w := set_gateway (record_outcome cc (rv_DeploymentName target) so err (hw_gateway w)) w in
      let w := meanwhile others 2 w in
      let usage := ob_usage (px_observed p) in
      (recordUsage alive c q (Some target) false (bool_decide (usage = None)) (default no_usage_yet usage) (so_status so) (so_type so) w,
       Some (Answered (so_status so, so_type so)))
  end.

Definition streamChat (c : conditions) (cc : chat_conditions) (q : handler_request) (alias : text) (r : Wire.ChatRequest (F := F)) (fuel : nat) w :
    world B R * option ending :=
  let call n t := open n t (stream_request (txt (rv_UpstreamModel t)) r) in
  match route_stream getenv limiter has_store call (cc_stopped cc) c q fuel (meanwhile others 1 w) with
  | (w, Succeeded target (src, permit)) => stream_end c cc q alias target src permit w
  | (w, Failed _ err) => let '(w, e) := writeRoutingError c (cc_post cc) q err (meanwhile others 2 w) in (w, Some e)
  | (w, Paniced) | (w, OutOfFuel) => (meanwhile others 2 w, Some Crashed)
  end.

(** ** The endpoint *)

(** A denial is recorded and answered. *)
Definition deny (c : conditions) (q : handler_request) (r : reply) w : world B R * option ending :=
  (recordDenial alive (co_denial c) q (co_now c) r.1 r.2 w, Some (Answered r)).

Definition gate_answer (c : conditions) (q : handler_request) (r : reply) (denial : option (Z * string)) w : world B R * option ending :=
  (match denial with Some (status, code) => recordDenial alive (co_denial c) q (co_now c) status code w | None => w end, Some (Answered r)).

(** From the rate limit on: the cache, the budget and the call. *)
Definition chat_admitted (c : conditions) (cc : chat_conditions) (q : handler_request) (alias : text) (body : raw) (r : Wire.ChatRequest (F := F))
    (prompt completion : Z) (fuel : nat) w (entries : cache_entries) : world B R * cache_entries * option ending :=
  match enforceRateLimit c q (prompt +w completion) (hw_customer w) with
  | Refuse r denial => let '(w, e) := gate_answer c q r denial w in (w, entries, e)
  | Pass =>
      let '(cacheOn, ttl, key) := cacheParams (tm_ID (hr_team q)) (hr_alias q) body w in
      let cacheOn := cacheOn && bool_decide (hw_guard w = None) in
      let hit := if cacheOn && negb (cc_bypass cc) && negb (rq_Stream r)
                 then match Get cache (cc_get cc).1 (cc_get cc).2 key entries with Ok e => Some e | Err _ => None end else None in
      match hit with
      | Some e =>
          (recordUsage alive c q None true false (replayed_usage e) 200 "" w, entries, Some (Answered (ce_StatusCode e, "")))
      | None =>
          match enforceBudget c q prompt completion CapabilityChat w with
          | (w, Refuse r denial) => let '(w, e) := gate_answer c q r denial w in (w, entries, e)
          | (w, Pass) =>
              if rq_Stream r then let '(w, e) := streamChat c cc q alias r fuel w in (w, entries, e)
              else let '(w, entries, e) := chat_answer c cc q alias cacheOn ttl key r fuel w entries in (w, entries, Some e)
          end
      end
  end.

(** The guardrails and the pricing check. *)
Definition chat_inspected (c : conditions) (cc : chat_conditions) (q : handler_request) (alias : text) (body : raw) (r : Wire.ChatRequest (F := F))
    (fuel : nat) w (entries : cache_entries) : world B R * cache_entries * option ending :=
  let '(guard, table, pre) := guardrailPre size fold_eq (hw_guard w) (Some body) (cc_pre cc) (hw_decisions w) in
  let w := set_guard guard table w in
  match pre with
  | Err e => let '(w, e) := deny c q (ge_status e, ge_code e) w in (w, entries, e)
  | Ok rewritten =>
      let body := default JNull rewritten in
      match (if bool_decide (is_Some guard) then ChatRequest_UnmarshalJSON parse_float body else Some r) with
      | None => (w, entries, Some (Answered (503, "guardrail_unavailable")))
      | Some r =>
          match admitCustomerPricing (hr_key q) (hw_customer w) body with
          | Err e =>
              let '(w, e) := if e.1 =? 400 then deny c q e w else (w, Some (Answered e)) in (w, entries, e)
          | Ok _ =>
              match chat_estimate (hr_key q) (hw_customer w) (body_len body) r with
              | Err e => (w, entries, Some (Answered e))
              | Ok (r, prompt, completion) => chat_admitted c cc q alias body r prompt completion fuel w entries
              end
          end
      end
  end.

(** What the parsed body makes of the request. *)
Definition chat_request (cc : chat_conditions) (q : handler_request) (r : Wire.ChatRequest (F := F)) : handler_request :=
  mkHandlerRequest (hr_id q) (hr_team q) (hr_key q) (hr_owner q) (utf8_string (rq_Model r))
    (extractCustomerID (cc_customer cc).1 (cc_customer cc).2 (utf8_string (rq_User r))) (hr_tokens q) (hr_context q) (hr_nonBillable q).

Definition ChatCompletions (c : conditions) (cc : chat_conditions) (q : handler_request) (body : option raw) (fuel : nat) w
    (entries : cache_entries) : world B R * cache_entries * option ending :=
  let w := fresh w in
  match body ≫= ChatRequest_UnmarshalJSON parse_float with
  | None => (w, entries, Some (Answered (400, "invalid_request")))
  | Some r =>
      let body := default JNull body in
      let q := chat_request cc q r in
      if bool_decide (rq_Model r = []) || bool_decide (default [] (rq_Messages r) = [])
      then (w, entries, Some (Answered (400, "invalid_request")))
      else if negb (modelAllowed (Some (hr_team q)) (hr_key q) (hr_alias q))
      then let '(w, e) := deny c q (403, "model_not_allowed") w in (w, entries, e)
      else
        match admitRequestConcurrency json_size alive limiter has_store others "/v1/chat/completions" c q w with
        | (w, Err e) => (w, entries, Some (Answered e))
        | (w, Ok lease) =>
            match chat_inspected c cc q (rq_Model r) body r fuel w entries with
            | (w, entries, Some e) => (releaseModel alive c lease w, entries, Some e)
            | (w, entries, None) => (w, entries, None)
            end
        end
  end.

End Chat.

(** ** Estimates are machine integers *)

Lemma sum_estimates_ok texts total : int64_ok total -> int64_ok (sum_estimates total texts).
Proof. revert total. induction texts as [| t texts IH]; intros total Ht; cbn; [done | apply IH, wrap64_ok]. Qed.

Lemma quarter_ok z : int64_ok z -> int64_ok (z /g 4).
Proof. unfold int64_ok, MinInt64, MaxInt64. intros H. Z.to_euclidean_division_equations. lia. Qed.

Lemma chat_estimate_ok {F} key customer len (r r' : Wire.ChatRequest (F := F)) prompt completion :
  limits_int64 r -> chat_estimate key customer len r = Ok (r', prompt, completion) -> int64_ok prompt /\ int64_ok completion.
Proof.
  intros [Hm Hc]. unfold chat_estimate. destruct (EstimateChatUsage (Some (view r))) as [p n] eqn:E.
  assert (int64_ok p /\ int64_ok n) as [Hp Hn].
  { revert E. cbn [EstimateChatUsage]. intros [= <- <-]. split.
    - destruct (_ && _); [apply wrap64_ok | apply sum_estimates_ok, zero_int64_ok].
    - unfold OutputTokenLimit. cbn [view cr_MaxCompletionTokens cr_MaxTokens].
      destruct (rq_MaxCompletionTokens r) as [k|] eqn:Ek; [destruct (ptr_pos _); [by apply Hc | apply zero_int64_ok] |].
      destruct (rq_MaxTokens r) as [k|] eqn:Ek'; [destruct (ptr_pos _); [by apply Hm | apply zero_int64_ok] | apply zero_int64_ok]. }
  destruct (_ || _); [| by intros [= <- <- <-]].
  destruct (BoundCustomerCompletion (view r)) as [v [k|e]] eqn:Eb; [| done]. intros [= _ <- <-].
  assert (int64_ok ((len +w 3) /g 4)) as Hl by apply quarter_ok, wrap64_ok. split.
  - unfold int64_ok in *. lia.
  - revert Eb. unfold BoundCustomerCompletion. repeat case_match; try done; intros [= _ <-]; apply wrap64_ok.
Qed.

(** ** Facts *)

Section facts.
Context {B R F : Type} `{BreakerStore B, RedisZSet R}.
Variable getenv : string -> string.
Variable json_size : UsageEntry -> Z.
Variable alive : string -> option Z -> Z -> bool.
Variable limiter : option Limiter.
Variable has_store : bool.
Variable others : nat -> database -> database.
Variable parse_float : string -> option F.
Variable format : F -> text.
Variable digest : text -> string.
Variable body_len : raw -> Z.
Variable size : raw -> Z.
Variable fold_eq : rune -> rune -> bool.
Variable decode : bytes -> option raw.
Variable render : raw -> bytes.
Variable valid_utf8 : bytes -> bool.
Variable cache : option Cache.
Variable send : nat -> Resolved -> Wire.ChatRequest (F := F) -> call_result ChatResponse.
Variable open : nat -> Resolved -> Wire.ChatRequest (F := F) -> call_result chatStream.
Variable read_error : sse_error -> go_error.
Implicit Types (w : world B R).

#[local] Abbreviation history := (rtc (Accounting.event json_size alive)).
#[local] Abbreviation answer_ := (chat_answer getenv alive limiter has_store others size fold_eq cache send).
#[local] Abbreviation stream_end_ := (stream_end alive others size fold_eq decode render valid_utf8 read_error).
#[local] Abbreviation streamChat_ :=
  (streamChat getenv alive limiter has_store others size fold_eq decode render valid_utf8 open read_error).
#[local] Abbreviation admitted_ :=
  (chat_admitted getenv alive limiter has_store others parse_float format digest size fold_eq decode render valid_utf8 cache send open read_error).
#[local] Abbreviation inspected_ :=
  (chat_inspected getenv alive limiter has_store others parse_float format digest body_len size fold_eq decode render valid_utf8 cache send open
     read_error).

Section request.
Variable q : handler_request.
Variable w0 : world B R.
Hypothesis Hcons : consistent (hw_db w0).
Hypothesis Hid : hr_id q <> "".
Hypothesis Hothers : forall i d, history d (others i d).
Hypothesis Hsend : forall n t r resp, send n t r = Returned (Ok resp) -> usage_int64 (rs_Usage resp).

#[local] Abbreviation tracked := (tracked json_size alive q w0).
#[local] Abbreviation started := (started q).

(** A stretch of the request from [w1] to [w]: the run is tracked with at most [n]
    failed completions, permits and leases of the stretch are given back, and a
    provider was called only for a marked entry. *)
Definition passes w1 (n : nat) w : Prop :=
  tracked n w /\
  exists evs, Gateway.frame (hw_gateway w1) (hw_gateway w) evs /\ replay evs [] [] = Some ([], []) /\ (calls evs = [] \/ started (hw_db w)).

Lemma passes_refl n w : tracked n w -> passes w n w.
Proof. intros Ht. split; [done |]. exists []. split_and!; [apply frame_refl | done | by left]. Qed.

Lemma passes_le w1 n m w : (n <= m)%nat -> passes w1 n w -> passes w1 m w.
Proof. intros Hle [Ht He]. split; [by eapply tracked_le | done]. Qed.

(** A step that leaves the gateway alone. *)
Lemma passes_quiet w1 n m w w' :
  passes w1 n w -> tracked m w' -> hw_gateway w' = hw_gateway w -> history (hw_db w) (hw_db w') -> passes w1 m w'.
Proof.
  intros [Ht (evs & Hf & Hr & Hc)] Ht' Eg Hh. split; [done |]. exists evs. rewrite Eg. split_and!; [done | done |].
  destruct Hc as [? | Hs]; [by left | right]. eapply started_history; [| exact Hh | exact Hs]. by eapply tracked_consistent; [| exact Ht].
Qed.

Lemma tracked_guard n g table w : tracked n w -> tracked n (set_guard g table w).
Proof. by intros [? ? ?]. Qed.

Lemma passes_guard w1 n g table w : passes w1 n w -> passes w1 n (set_guard g table w).
Proof. intros Hp. eapply passes_quiet; [exact Hp | by apply tracked_guard, Hp | done | done]. Qed.

Lemma passes_meanwhile w1 n i w : passes w1 n w -> passes w1 n (meanwhile others i w).
Proof. intros Hp. eapply passes_quiet; [exact Hp | by eapply meanwhile_tracked; [done | done | apply Hp] | done | apply Hothers]. Qed.

Lemma passes_denial w1 n wr now status code w :
  passes w1 n w -> passes w1 (S n) (recordDenial alive wr q now status code w).
Proof.
  intros Hp. eapply passes_quiet; [exact Hp | by eapply recordDenial_tracked; [.. | apply Hp] | apply recordDenial_gateway |].
  by apply persistUsage_history.
Qed.

Lemma passes_usage w1 n c resolved cached unknown u status error w :
  passes w1 n w -> (cached = false -> usage_int64 u) -> passes w1 (S n) (recordUsage alive c q resolved cached unknown u status error w).
Proof.
  intros Hp Hu. eapply passes_quiet; [exact Hp | by eapply recordUsage_tracked; [.. | apply Hp | exact Hu] | apply recordUsage_gateway |].
  by apply recordUsage_history.
Qed.

Lemma passes_gate w1 c r denial w :
  passes w1 0 w -> passes w1 1 (gate_answer alive c q r denial w).1.
Proof.
  intros Hp. unfold gate_answer. destruct denial as [[status code]|]; cbn; [by apply passes_denial | by apply (passes_le w1 0); [lia |]].
Qed.

(** The frame of a stretch continued by one that starts in the same gateway. *)
Lemma passes_frame w1 n w w' evs' :
  passes w1 n w -> tracked n w' -> history (hw_db w) (hw_db w') ->
  Gateway.frame (hw_gateway w) (hw_gateway w') evs' -> replay evs' [] [] = Some ([], []) -> (calls evs' = [] \/ started (hw_db w')) ->
  passes w1 n w'.
Proof.
  intros [Ht (evs & Hf & Hr & Hc)] Ht' Hh Hf' Hr' Hc'. split; [done |].
  exists (evs ++ evs'). split_and!; [by eapply frame_trans | by rewrite replay_app, Hr |]. rewrite calls_app.
  destruct Hc' as [-> | ?]; [| by right]. rewrite app_nil_r. destruct Hc as [-> | Hs']; [by left | right].
  eapply started_history; [| exact Hh | exact Hs']. by eapply tracked_consistent; [| exact Ht].
Qed.

(** *** The frame of an endpoint *)

Lemma fresh_tracked : tracked 0 (fresh w0).
Proof. split; [by cbn | by exists 0%nat | done]. Qed.

(** A request that is answered before its admission, with or without a denial. *)
Lemma fresh_accounted : accounted_for json_size alive q w0 (fresh w0).
Proof. apply (accounted_quiet _ _ _ _ 0); [apply fresh_tracked | lia | done | done]. Qed.

Lemma denied_accounted wr now status code : accounted_for json_size alive q w0 (recordDenial alive wr q now status code (fresh w0)).
Proof.
  destruct (recordDenial_tracked _ _ q _ Hcons Hid 0 _ wr now status code fresh_tracked) as [Ht Hn].
  apply (accounted_quiet _ _ _ _ 1); [done | lia | by apply Hn | by rewrite recordDenial_gateway].
Qed.

(** The admission: what is refused is accounted for, and what is admitted is when
    the stretch from there to the deferred release is. *)
Lemma admission_accounted path c w1 res :
  admitRequestConcurrency json_size alive limiter has_store others path c q (fresh w0) = (w1, res) ->
  match res with
  | Ok lease => passes w1 0 w1 /\ is_Some (hw_run w1) /\
      forall n w2, (n <= 2)%nat -> passes w1 n w2 -> accounted_for json_size alive q w0 (releaseModel alive c lease w2)
  | Err _ => accounted_for json_size alive q w0 w1
  end.
Proof.
  intros Ea. pose proof (admit_frame _ _ _ _ _ _ _ _ _ _ _ Ea) as Hf.
  eapply admit_tracked in Ea; [| done | done | done | apply fresh_tracked | done]. destruct res as [lease|err].
  - destruct Ea as (Ht1 & Hrun & Hready). split_and!; [by apply passes_refl | done |]. intros n w2 Hn (Ht2 & evs & Hf2 & Hr2 & Hc2).
    eapply (releaseModel_accounted _ _ q _ Hcons Hid n); [done | done | done | | exact Hr2 | exact Hc2]. by eapply frame_trans.
  - destruct Ea as (? & ? & ?). split_and!; [by eapply (tracked_le _ _ _ _ 2); [lia |] | done | done |].
    exists []. split_and!; [done | done | by left].
Qed.

(** A routed call. *)
Lemma passes_route {A} (call : nat -> Resolved -> call_result A) w1 c capability fuel w w' out :
  passes w1 0 w -> route getenv limiter has_store call c q capability fuel w = (w', out) ->
  passes w1 0 w' /\ (forall t a, out = Succeeded t a -> exists m, call m t = Returned (Ok a)).
Proof.
  intros Hp E. destruct (route_frame _ _ _ _ _ _ _ _ _ _ _ E) as (evs & Hf & Hr & Hc).
  pose proof (with_mark_history json_size alive _ _ _ _ _ _ E) as [Hh _].
  destruct (route_tracked _ _ _ _ _ _ _ Hcons _ _ _ _ _ _ _ _ (proj1 Hp) E) as [Ht Hs]. split; [by eapply passes_frame | done].
Qed.

Lemma passes_routing_error w1 c commits err w :
  passes w1 0 w -> passes w1 1 (writeRoutingError alive c commits q err w).1.
Proof.
  intros Hp. unfold writeRoutingError. destruct (hw_guard w) as [g|].
  - destruct (match err with RouteGuardrail => _ | _ => _ end) as [[g1 t1] cause].
    destruct (finish (Some cause) commits g1 t1) as [[g2 t2] e]. cbn [fst]. apply passes_usage; [by apply passes_guard | intros _; apply no_usage_int64].
  - destruct (routing_error_response err) as [[status errType] retry]. cbn [fst]. apply passes_usage; [done | intros _; apply no_usage_int64].
Qed.

Lemma chat_guarded_passes w1 commits resp w w' res :
  passes w1 0 w -> usage_int64 (rs_Usage resp) -> chat_guarded size fold_eq commits resp w = (w', res) ->
  passes w1 0 w' /\ forall resp', res = Ok (Some resp') -> usage_int64 (rs_Usage resp').
Proof.
  intros Hp Hu. unfold chat_guarded. destruct (hw_guard w) as [g|]; [| by intros [= <- <-]; split; [| intros ? [= <-]]].
  destruct (response _ _ _ _ _ _ _) as [[g' table] out]. intros [= <- <-]. split; [by apply passes_guard |].
  intros resp'. destruct out as [body|]; [| done]. intros [= E]. by eapply ChatResponse_usage_int64.
Qed.

Lemma chat_answer_passes w1 c cc alias cacheOn ttl key r fuel w entries :
  passes w1 0 w -> passes w1 1 (answer_ c cc q alias cacheOn ttl key r fuel w entries).1.1.
Proof.
  intros Hp. unfold chat_answer. set (call := fun n t => send n t _). apply (passes_meanwhile _ _ 1) in Hp.
  destruct (route _ _ _ _ _ _ _ _ _) as [w2 out] eqn:Er. destruct (passes_route _ _ _ _ _ _ _ _ Hp Er) as [Hp2 Hs].
  apply (passes_meanwhile _ _ 2) in Hp2. destruct out as [target resp | t err | |].
  - destruct (Hs target resp eq_refl) as [m Hm]. apply Hsend in Hm.
    destruct (chat_guarded _ _ _ _ _) as [w3 res] eqn:Eg.
    destruct (chat_guarded_passes _ _ (set_response_model alias resp) _ _ _ Hp2 Hm Eg) as [Hp3 Hu].
    destruct res as [[resp'|]|e]; cbn [fst]; [by apply passes_usage; [| intros _; by apply Hu] | by apply (passes_le w1 0); [lia |] | by apply passes_usage].
  - pose proof (passes_routing_error w1 c (cc_post cc) err _ Hp2) as He. by destruct (writeRoutingError _ _ _ _ _ _).
  - by apply (passes_le w1 0); [lia |].
  - by apply (passes_le w1 0); [lia |].
Qed.

(** A stream that opened, and that gives back its permit and lease. *)
Lemma stream_released {A} (s s' : gateway B R) alias tried target (a : A) p evs e :
  stream_post alias s tried s' (Succeeded target (a, p)) evs ->
  let evs' := evs ++ gave (up_provider p) ++ [GavePermit (dp_name (up_local p))] in
  Gateway.frame s (releaseUpstreamPermit e p s') evs' /\ replay evs' [] [] = Some ([], []) /\ calls evs' = calls evs.
Proof.
  intros (Ha & He & Hc & Hn & Hr & _) evs'. destruct (releaseUpstreamPermit_spec e p s') as (Ra & Rl & Re). split_and!.
  - unfold Gateway.frame. rewrite Ra, Rl, Re, Ha, He. split_and!; [done | done | by rewrite <- app_assoc].
  - unfold evs'. rewrite replay_app, Hr, Hn. destruct (up_provider p); cbn; by rewrite ?String.eqb_refl.
  - unfold evs'. rewrite !calls_app, (proj2 (lease_calls _)). apply app_nil_r.
Qed.

(** A routed call that opened nothing. *)
Lemma passes_unopened {A} w1 w w2 (out : outcome (A * upstreamPermit)) tried g evs i :
  passes w1 0 w -> tracked 0 w2 -> history (hw_db w) (hw_db w2) ->
  gw_registry g = gw_registry (hw_gateway w) -> gw_events g = gw_events (hw_gateway w) ->
  stream_post (hr_alias q) g tried (hw_gateway w2) out evs -> (calls evs = [] \/ started (hw_db w2)) ->
  (forall t a, out <> Succeeded t a) -> passes w1 0 (meanwhile others i w2).
Proof.
  intros Hp Ht Hh Er Ee (Ha & He & Hs) Hc Hn.
  assert (same_counters (rg_deploymentLimits (gw_registry g)) (rg_deploymentLimits (gw_registry (hw_gateway w2))) /\
    replay evs [] [] = Some ([], [])) as [Hl Hr].
  { destruct out; [by edestruct Hn | by destruct Hs as (? & ? & _)..]. }
  apply passes_meanwhile. eapply (passes_frame _ _ w); [exact Hp | done | exact Hh | | exact Hr | exact Hc].
  unfold Gateway.frame. by rewrite <- Er, <- Ee.
Qed.

(** The end of a stretch that held a permit until its row was written. *)
Lemma passes_released {A} w1 n w w5 target permit (a : A) e tried g evs :
  passes w1 0 w -> gw_registry g = gw_registry (hw_gateway w) -> gw_events g = gw_events (hw_gateway w) ->
  stream_post (hr_alias q) g tried (hw_gateway w5) (Succeeded target (a, permit)) evs -> (calls evs = [] \/ started (hw_db w5)) ->
  tracked n w5 -> history (hw_db w) (hw_db w5) ->
  passes w1 n (set_gateway (releaseUpstreamPermit e permit (hw_gateway w5)) w5).
Proof.
  intros Hp Er Ee Hpost Hc Ht Hh. destruct (stream_released g _ _ _ _ _ _ _ e Hpost) as (Hf & Hr & Hcalls).
  eapply (passes_frame _ _ w); [by eapply passes_le; [| exact Hp]; lia | by apply tracked_gateway | exact Hh | | exact Hr | by rewrite Hcalls].
  cbn [hw_gateway set_gateway]. unfold Gateway.frame in *. by rewrite <- Er, <- Ee.
Qed.

Lemma record_outcome_frame (s s' : gateway B R) cc name so err evs :
  Gateway.frame s s' evs -> Gateway.frame s (record_outcome read_error cc name so err s') evs.
Proof. intros Hf. unfold record_outcome. by repeat case_match. Qed.

Lemma route_stream_frame {A} (call : nat -> Resolved -> call_result A) stopped c fuel w w' out :
  route_stream getenv limiter has_store call stopped c q fuel w = (w', out) ->
  exists g evs, gw_registry g = gw_registry (hw_gateway w) /\ gw_events g = gw_events (hw_gateway w) /\
    stream_post (hr_alias q) g ∅ (hw_gateway w') out evs /\ (calls evs = [] \/ started (hw_db w')).
Proof.
  intros E. apply with_mark_frame in E as (env & g & Er & Ee & Erun & Hc).
  - pose proof Erun as Hs. apply stream_spec in Hs as (evs & Hpost). exists g, evs. split_and!; [done | done | done |].
    apply Hc. apply Hpost.
  - intros env g g' o _ Ef. by eapply stream_marks.
Qed.

Lemma stream_end_passes {A} w1 w0' c cc alias target src permit (a : A) w w' e tried g evs :
  passes w1 0 w0' -> tracked 0 w -> history (hw_db w0') (hw_db w) ->
  gw_registry g = gw_registry (hw_gateway w0') -> gw_events g = gw_events (hw_gateway w0') ->
  stream_post (hr_alias q) g tried (hw_gateway w) (Succeeded target (a, permit)) evs -> (calls evs = [] \/ started (hw_db w)) ->
  stream_end_ c cc q alias target src permit w = (w', Some e) -> passes w1 1 w'.
Proof.
  intros Hp Ht Hh Er Ee Hpost Hc. unfold stream_end.
  set (proxy := mkStreamProxy _ _ _ _ _). assert (usage_ok (px_observed proxy)) as Hobs by done.
  pose proof (Run_usage decode render valid_utf8 size fold_eq alias (bool_decide (hw_guard w = None)) (cc_turns cc) proxy Hobs) as Hu.
  destruct (Run _ _ _ _ _ _ _ _ _) as [p [runErr|]]; [| done]. cbn [fst] in Hu.
  destruct (match px_guard p with None => _ | Some g => _ end) as [guard table]. intros [= <- _].
  set (so := streamOutcome _ _). apply passes_usage.
  2: { intros _. destruct (ob_usage (px_observed p)) eqn:E; cbn; [by apply Hu | apply no_usage_int64]. }
  apply passes_meanwhile. destruct (stream_released g _ _ _ _ _ _ _ (cc_release cc) Hpost) as (Hf & Hr & Hcalls).
  eapply (passes_frame _ _ w0'); [exact Hp | by apply tracked_gateway, tracked_gateway, tracked_guard | exact Hh | | exact Hr | by rewrite Hcalls].
  apply record_outcome_frame. unfold Gateway.frame in *. by rewrite <- Er, <- Ee.
Qed.

Lemma streamChat_passes w1 c cc alias r fuel w w' e :
  passes w1 0 w -> streamChat_ c cc q alias r fuel w = (w', Some e) -> passes w1 1 w'.
Proof.
  intros Hp. unfold streamChat. set (call := fun n t => open n t _). apply (passes_meanwhile _ _ 1) in Hp.
  destruct (route_stream _ _ _ _ _ _ _ _ _) as [w2 out] eqn:Er.
  destruct (route_stream_frame _ _ _ _ _ _ _ Er) as (g & evs & Eg & Ee & Hpost & Hc).
  pose proof (with_mark_history json_size alive _ _ _ _ _ _ Er) as [Hh _].
  assert (tracked 0 w2) as Ht2 by (eapply with_mark_tracked; [done | apply Hp | exact Er]).
  destruct out as [target [src permit] | t err | |]; [by eapply stream_end_passes | | |].
  all: assert (passes w1 0 (meanwhile others 2 w2)) as Hp2 by (by eapply passes_unopened).
  - pose proof (passes_routing_error w1 c (cc_post cc) err _ Hp2) as He. destruct (writeRoutingError _ _ _ _ _ _). by intros [= <- _].
  - intros [= <- _]. by apply (passes_le w1 0); [lia |].
  - intros [= <- _]. by apply (passes_le w1 0); [lia |].
Qed.

Lemma chat_admitted_passes w1 c cc alias body r prompt completion fuel w entries w' entries' e :
  passes w1 0 w -> is_Some (hw_run w) -> int64_ok prompt -> int64_ok completion ->
  admitted_ c cc q alias body r prompt completion fuel w entries = (w', entries', Some e) -> passes w1 1 w'.
Proof.
  intros Hp Hrun Hpr Hco. unfold chat_admitted. destruct (enforceRateLimit _ _ _ _) as [| rep denial].
  2: { pose proof (passes_gate w1 c rep denial w Hp). destruct (gate_answer _ _ _ _ _ _). by intros [= <- _ _]. }
  destruct (cacheParams _ _ _ _ _ _ _ _) as [[cacheOn ttl] key].
  destruct (if _ && _ && _ then _ else None) as [hit|].
  { intros [= <- _ _]. by apply passes_usage. }
  destruct (enforceBudget _ _ _ _ _ _) as [w2 g] eqn:Eb.
  destruct (enforceBudget_tracked _ _ _ _ Hcons _ _ _ _ _ _ _ _ (proj1 Hp) Hrun Hpr Hco Eb) as (Ht2 & _ & Eg & Hh).
  assert (passes w1 0 w2) as Hp2 by by eapply passes_quiet.
  destruct g as [| rep denial].
  2: { pose proof (passes_gate w1 c rep denial w2 Hp2). destruct (gate_answer _ _ _ _ _ _). by intros [= <- _ _]. }
  destruct (rq_Stream r).
  - destruct (streamChat _ _ _ _ _ _ _ _ _ _ _ _ _ _ _ _ _ _) as [w3 e3] eqn:Es. intros [= <- _ ->]. by eapply streamChat_passes.
  - pose proof (chat_answer_passes w1 c cc alias (cacheOn && bool_decide (hw_guard w = None)) ttl key r fuel w2 entries Hp2) as Ha.
    destruct (chat_answer _ _ _ _ _ _ _ _ _ _ _ _ _ _ _ _ _ _ _) as [[w3 en3] e3]. by intros [= <- _ _].
Qed.

Lemma chat_inspected_passes w1 c cc alias body r fuel w entries w' entries' e :
  passes w1 0 w -> is_Some (hw_run w) -> limits_int64 r ->
  inspected_ c cc q alias body r fuel w entries = (w', entries', Some e) -> passes w1 1 w'.
Proof.
  intros Hp Hrun Hl. unfold chat_inspected. destruct (guardrailPre _ _ _ _ _ _) as [[guard table] pre].
  apply (passes_guard _ _ guard table) in Hp. assert (is_Some (hw_run (set_guard guard table w))) as Hrun' by done.
  assert (passes w1 1 (set_guard guard table w)) as Hp1 by (by apply (passes_le w1 0); [lia |]).
  destruct pre as [rewritten|err]; [| intros [= <- _ _]; by apply passes_denial].
  destruct (if bool_decide _ then _ else _) as [r1|] eqn:Er; [| by intros [= <- _ _]].
  assert (limits_int64 r1) as Hl1.
  { destruct (bool_decide _); [by eapply ChatRequest_limits_int64 | by injection Er as <-]. }
  destruct (admitCustomerPricing _ _ _) as [u|err].
  2: { destruct (err.1 =? 400); intros [= <- _ _]; [by apply passes_denial | done]. }
  destruct (chat_estimate _ _ _ _) as [[[r2 prompt] completion]|err] eqn:Ee; [| by intros [= <- _ _]].
  destruct (chat_estimate_ok _ _ _ _ _ _ _ Hl1 Ee). by apply chat_admitted_passes.
Qed.
End request.

#[local] Abbreviation chat :=
  (ChatCompletions getenv json_size alive limiter has_store others parse_float format digest body_len size fold_eq decode render valid_utf8 cache
     send open read_error).

Section endpoint.
(** Whatever others do to the database is a history of it; the request has a
    number; the counts of a response are 64-bit integers. *)
Hypothesis Hothers : forall i d, history d (others i d).
Hypothesis Hsend : forall n t r resp, send n t r = Returned (Ok resp) -> usage_int64 (rs_Usage resp).

Lemma ChatCompletions_accounted c cc q body fuel w entries w' entries' e :
  consistent (hw_db w) -> hr_id q <> "" -> chat c cc q body fuel w entries = (w', entries', Some e) ->
  exists q', hr_id q' = hr_id q /\ accounted_for json_size alive q' w w'.
Proof.
  intros Hcons Hid. unfold ChatCompletions.
  destruct (body ≫= _) as [r|] eqn:Er; [| intros [= <- _ _]; exists q; split; [done | apply fresh_accounted]].
  set (q1 := chat_request cc q r). assert (hr_id q1 = hr_id q) as E1 by done.
  destruct (_ || _); [intros [= <- _ _]; exists q; split; [done | apply fresh_accounted] |].
  destruct (negb _); [intros [= <- _ _]; exists q1; split; [done | by apply denied_accounted] |].
  destruct (admitRequestConcurrency _ _ _ _ _ _ _ _ _) as [w1 res] eqn:Ea.
  eapply admission_accounted in Ea; [| done..]. destruct res as [lease|err]; [| intros [= <- _ _]; by exists q1].
  destruct Ea as (Hp1 & Hrun & Hrelease).
  destruct (chat_inspected _ _ _ _ _ _ _ _ _ _ _ _ _ _ _ _ _ _ _ _ _ _ _ _ _ _ _) as [[w2 en2] [e2|]] eqn:Ei; [| done].
  intros [= <- _ _]. exists q1. split; [done |]. apply (Hrelease 1%nat); [lia |].
  assert (limits_int64 r) as Hl.
  { destruct body as [v|]; [| done]. by eapply ChatRequest_limits_int64. }
  by eapply (chat_inspected_passes q1 w Hcons Hid Hothers Hsend w1).
Qed.

(** C11. No admitted chat request is lost: once the write of its durable entry is
    acknowledged, then however it ends (a guardrail, a refusal, a cache hit, an upstream error, a
    panic, a stream that is cut or times out, a failed or unacknowledged write),
    the entry is complete in the database, or the replica is unready and admits
    nothing until the recovery has seen to it. Its database calls are steps of the
    accounting, so the database stays reachable. *)
Theorem chat_recorded (c : conditions) (cc : chat_conditions) (q : handler_request) (body : option raw) (fuel : nat) (w w' : world B R)
    (entries entries' : cache_entries) (e : ending) (Hid : hr_id q <> "")
    (Hd : reachable json_size alive (hw_db w)) (Hl : 0 <= lg_failures (hw_logger w) < 2 ^ 64)
    (E : chat c cc q body fuel w entries = (w', entries', Some e)) :
  reachable json_size alive (hw_db w') /\
  (is_Some (hw_run w') -> finished (hw_db w') (hr_id q) \/ Ready (hw_logger w') = false).
Proof.
  apply ChatCompletions_accounted in E as (q' & Eq & Ha); [| by eapply reachable_consistent | done]. split.
  - destruct Ha as ([Hh _ _] & _). unfold reachable in *. by etransitivity.
  - intros [run Hrun]. rewrite <- Eq. by eapply accounted_recorded.
Qed.

(** C12. A chat request gives back everything it took, streams included, and calls
    a provider only for a durably started entry: when it has ended, every permit
    and lease was returned in order and the deployment counters are as before; if
    any provider was called, the request's entry is marked as started. *)
Theorem chat_returns_everything (c : conditions) (cc : chat_conditions) (q : handler_request) (body : option raw) (fuel : nat)
    (w w' : world B R) (entries entries' : cache_entries) (e : ending) (Hid : hr_id q <> "")
    (Hd : reachable json_size alive (hw_db w)) (E : chat c cc q body fuel w entries = (w', entries', Some e)) :
  exists evs, gw_events (hw_gateway w') = gw_events (hw_gateway w) ++ evs /\ replay evs [] [] = Some ([], []) /\
    same_counters (rg_deploymentLimits (gw_registry (hw_gateway w))) (rg_deploymentLimits (gw_registry (hw_gateway w'))) /\
    (calls evs = [] \/ exists j, db_journal (hw_db w') !! hr_id q = Some j /\ jr_started j = true).
Proof.
  apply ChatCompletions_accounted in E as (q' & Eq & _ & _ & _ & evs & (_ & Hc & He) & Hr & Hst);
    [| by eapply reachable_consistent | done]. exists evs. split_and!; [done | done | done |]. rewrite <- Eq. exact Hst.
Qed.
End endpoint.
End facts.

(** ** What providers see *)

Section seen.
Context {B R F : Type} `{BreakerStore B, RedisZSet R}.
Variable getenv : string -> string.
Variable json_size : UsageEntry -> Z.
Variable alive : string -> option Z -> Z -> bool.
Variable limiter : option Limiter.
Variable has_store : bool.
Variable others : nat -> database -> database.
Variable parse_float : string -> option F.
Variable format : F -> text.
Variable digest : text -> string.
Variable body_len : raw -> Z.
Variable size : raw -> Z.
Variable fold_eq : rune -> rune -> bool.
Variable decode : bytes -> option raw.
Variable render : raw -> bytes.
Variable valid_utf8 : bytes -> bool.
Variable cache : option Cache.
Variable read_error : sse_error -> go_error.
(** Two worlds of providers. *)
Variables send send' : nat -> Resolved -> Wire.ChatRequest (F := F) -> call_result ChatResponse.
Variables open open' : nat -> Resolved -> Wire.ChatRequest (F := F) -> call_result chatStream.
Implicit Types (w : world B R).

(** The requests a guarded body may cause. *)
Definition passed_on (policies : list Policy) (body : raw) (sent : Wire.ChatRequest (F := F)) : Prop :=
  exists f out r limit model, GuardEnvelope.Request size fold_eq (Some body) (Guardrails.New policies "pre") = (f, Ok out) /\
    ChatRequest_UnmarshalJSON parse_float out = Some r /\
    (sent = set_model model (set_completion_limit limit r) \/ sent = stream_request model (set_completion_limit limit r)).

Lemma chat_estimate_limit key customer len (r r' : Wire.ChatRequest (F := F)) p n :
  chat_estimate key customer len r = Ok (r', p, n) -> exists limit, r' = set_completion_limit limit r.
Proof.
  unfold chat_estimate. destruct (EstimateChatUsage _) as [p' n']. destruct (_ || _).
  - destruct (BoundCustomerCompletion _) as [v [k|]]; [| done]. intros [= <- _ _]. eauto.
  - intros [= <- _ _]. exists (rq_MaxCompletionTokens r). by destruct r.
Qed.

(** After an admission under policies the request is guarded by them. *)
Lemma admit_guard path c q w w' lease p ps :
  co_policies c = Ok (p :: ps) ->
  admitRequestConcurrency json_size alive limiter has_store others path c q w = (w', Ok lease) ->
  exists g, hw_guard w' = Some g /\ g_pre g = Guardrails.New (p :: ps) "pre".
Proof.
  intros Hpol. unfold admitRequestConcurrency, loadGuardrails. rewrite Hpol.
  destruct (_ || _); [destruct (audit _ _ _ _ _); done |]. cbn [load_denial].
  destruct (resolveRequestCustomer _ _ _ _ _ _) as [[s customer] [u|e]]; [| done].
  unfold beginAccounting. destruct (negb (Ready _)); [done |].
  destruct (BeginAccounting _ _ _ _ _ _ _ _) as [d [u'|e]]; [| by destruct e].
  destruct (acquireConcurrencyScopes _ _ _ _ _ _) as [g [le|e]]; [| by destruct (if ca_unavailable e then _ else _)].
  intros [= <- <-]. cbn. by eexists.
Qed.

#[local] Abbreviation chat s o :=
  (ChatCompletions getenv json_size alive limiter has_store others parse_float format digest body_len size fold_eq decode render valid_utf8 cache
     s o read_error).

(** C13. A provider sees a guarded request only as the policies passed it. For a
    team with policies, two worlds of providers that answer alike to every request
    the inspected body can cause are not told apart by a chat request: whatever
    they would do on any other request, the original body included, makes no
    difference to the answer, the database, the cache or the permits. *)
Theorem providers_see_what_policies_pass (c : conditions) (cc : chat_conditions) (q : handler_request) (body : raw) (fuel : nat)
    (w : world B R) (entries : cache_entries) (p : Policy) (ps : list Policy) (Hpol : co_policies c = Ok (p :: ps))
    (Hsend : forall n t r, passed_on (p :: ps) body r -> send n t r = send' n t r)
    (Hopen : forall n t r, passed_on (p :: ps) body r -> open n t r = open' n t r) :
  chat send open c cc q (Some body) fuel w entries = chat send' open' c cc q (Some body) fuel w entries.
Proof.
  unfold ChatCompletions. cbn [mbind option_bind from_option id]. destruct (ChatRequest_UnmarshalJSON parse_float body) as [r|]; [| done].
  destruct (_ || _); [done |]. destruct (negb _); [done |].
  destruct (admitRequestConcurrency _ _ _ _ _ _ _ _ _) as [w1 [lease|e]] eqn:Ea; [| done].
  destruct (admit_guard _ _ _ _ _ _ _ _ Hpol Ea) as (g & Eg & Epre).
  match goal with |- match ?a with _ => _ end = match ?b with _ => _ end => assert (a = b) as ->; [| done] end.
  unfold chat_inspected, guardrailPre. rewrite Eg, Epre.
  destruct (GuardEnvelope.Request _ _ _ _) as [f [out|e]] eqn:Er.
  2: { by destruct (audit _ _ _ _ _) as [t [a|]]. }
  destruct (audit _ _ _ _ _) as [t [a|]]; [done |]. rewrite bool_decide_true by by eexists. cbn [from_option id].
  destruct (ChatRequest_UnmarshalJSON parse_float out) as [r1|] eqn:Ed; [| done].
  destruct (admitCustomerPricing _ _ _); [| done]. destruct (chat_estimate _ _ _ _) as [[[r2 prompt] completion]|] eqn:Ee; [| done].
  apply chat_estimate_limit in Ee as [limit ->].
  unfold chat_admitted. destruct (enforceRateLimit _ _ _ _); [| done]. destruct (cacheParams _ _ _ _ _ _ _ _) as [[on ttl] key].
  destruct (if _ && _ && _ then _ else None); [done |]. destruct (enforceBudget _ _ _ _ _ _) as [w2 []]; [| done].
  destruct (rq_Stream _).
  - unfold streamChat, route_stream. erewrite with_mark_ext; [done |]. intros env gw. apply stream_ext.
    intros n tgt. apply Hopen. exists f, out, r1, limit, (txt (rv_UpstreamModel tgt)). split_and!; [done | done | by right].
  - unfold chat_answer, route. erewrite with_mark_ext; [done |]. intros env gw. apply fallback_ext.
    intros n tgt. apply Hsend. exists f, out, r1, limit, (txt (rv_UpstreamModel tgt)). split_and!; [done | done | by left].
Qed.
End seen.

(** ** Evaluation *)

Definition chat_body (content : string) (stream : bool) : raw :=
  JObj [str_field "model" "gpt"; (txt "stream", JBool stream);
        (txt "messages", JArr [JObj [str_field "role" "user"; str_field "content" content]])].

(** The first deployment fails, the second answers or streams. *)
Definition chat_reply : ChatResponse :=
  mkChatResponse (txt "x1") (txt "upstream") (Some [mkChatChoice 0 (Wire.mkChatMessage (txt "assistant") (txt "hello") None [] []) (txt "stop")])
    (plain_usage 10 5) None.

Definition example_send (n : nat) (t : Resolved) (r : Wire.ChatRequest (F := unit)) : call_result ChatResponse :=
  if (n =? 0)%nat then Returned (Err http_500) else Returned (Ok chat_reply).

Definition example_open (n : nat) (t : Resolved) (r : Wire.ChatRequest (F := unit)) : call_result chatStream :=
  if (n =? 0)%nat then Returned (Err http_500) else Returned (Ok (streaming 0)).

Definition example_chat_conditions : chat_conditions :=
  mkChatConditions ("acme", "") false true true (IoOk, 0) (IoOk, 0) (fun _ => None)
    [example_turn 2 (data_event "chunk"); example_turn 3 (data_event "[DONE]")] None (example_env_n 9) 0.

Definition guarded_conditions (policies : list Policy) : conditions :=
  mkConditions 63072000000000000000 example_now (Ok policies) true StoreAnswers (true, Committed) Minute
    (example_env_n 0) None None (fun _ => true) Committed
    [] (true, Committed, example_now) example_env_n true example_write example_write example_write.

Definition run_chat (policies : list Policy) (send : nat -> Resolved -> Wire.ChatRequest (F := unit) -> call_result ChatResponse) (body : raw) :
    world Empty_set MapRedis.db * cache_entries * option ending :=
  ChatCompletions example_env small kept None true (fun _ d => d) (fun _ => Some tt) (fun _ => []) (fun _ => "0") (fun _ => 100) no_size ascii_fold
    example_decode example_render (fun _ => true) None send example_open (fun _ => ECanceled)
    (guarded_conditions policies) example_chat_conditions example_request (Some body) 4 example_world ∅.

(** Answers and streams are recorded; a blocked request calls nobody. *)
Lemma example_chats :
  let summary r := let '(w, _, e) := r in
    (e, calls (gw_events (hw_gateway w)), option_map jr_state (db_journal (hw_db w) !! "r9"), List.map gd_decision (hw_decisions w)) in
  summary (run_chat [] example_send (chat_body "hello" false)) = (Some (Answered (200, "")), ["east"; "west"], Some Complete, []) /\
  summary (run_chat [] example_send (chat_body "hello" true)) = (Some (Answered (200, "")), ["east"; "west"], Some Complete, []) /\
  summary (run_chat [blocking "both"] example_send (chat_body "hello" false)) =
    (Some (Answered (200, "")), ["east"; "west"], Some Complete, ["allow"; "allow"]) /\
  summary (run_chat [blocking "both"] example_send (chat_body "project apollo" true)) =
    (Some (Answered (403, "guardrail_blocked")), [], Some Complete, ["block"; "block"]).
Proof. vm_compute. split_and!; reflexivity. Qed.

Lemma example_send_int64 n t r resp : example_send n t r = Returned (Ok resp) -> usage_int64 (rs_Usage resp).
Proof. unfold example_send. destruct (n =? 0)%nat; [done |]. intros [= <-]. by vm_compute. Qed.

Definition example_streamed : world Empty_set MapRedis.db := (run_chat [] example_send (chat_body "hello" true)).1.1.

Lemma chat_recorded_witness :
  is_Some (hw_run example_streamed) /\ (finished (hw_db example_streamed) "r9" \/ Ready (hw_logger example_streamed) = false).
Proof.
  destruct (chat_recorded (B := Empty_set) example_env small kept None true (fun _ d => d) (fun _ => Some tt) (fun _ => []) (fun _ => "0")
    (fun _ => 100) no_size ascii_fold example_decode example_render (fun _ => true) None example_send example_open (fun _ => ECanceled)
    ltac:(intros; constructor) example_send_int64 (guarded_conditions []) example_chat_conditions example_request
    (Some (chat_body "hello" true)) 4 example_world example_streamed ∅ ∅ (Answered (200, ""))
    ltac:(discriminate) ltac:(constructor) ltac:(vm_compute; split; [discriminate | reflexivity]) ltac:(vm_compute; reflexivity)) as [_ Hrec].
  assert (is_Some (hw_run example_streamed)) as Hrun by (vm_compute; by eexists). split; [exact Hrun | exact (Hrec Hrun)].
Defined.

Lemma chat_returns_everything_witness :
  exists evs, gw_events (hw_gateway example_streamed) = evs /\ replay evs [] [] = Some ([], []).
Proof.
  destruct (chat_returns_everything (B := Empty_set) example_env small kept None true (fun _ d => d) (fun _ => Some tt) (fun _ => []) (fun _ => "0")
    (fun _ => 100) no_size ascii_fold example_decode example_render (fun _ => true) None example_send example_open (fun _ => ECanceled)
    ltac:(intros; constructor) example_send_int64 (guarded_conditions []) example_chat_conditions example_request
    (Some (chat_body "hello" true)) 4 example_world example_streamed ∅ ∅
    (Answered (200, "")) ltac:(discriminate) ltac:(constructor) ltac:(vm_compute; reflexivity)) as (evs & He & Hr & _).
  exists evs. split; [exact He | exact Hr].
Defined.

(** A blocked text is not sent, also not to a provider that would crash on it. *)
Lemma providers_see_what_policies_pass_witness :
  run_chat [blocking "both"] example_send (chat_body "project apollo" true) =
  run_chat [blocking "both"] (fun _ _ _ => Panicked) (chat_body "project apollo" true).
Proof.
  unfold run_chat.
  refine (providers_see_what_policies_pass (B := Empty_set) example_env small kept None true (fun _ d => d) (fun _ => Some tt) (fun _ => [])
    (fun _ => "0") (fun _ => 100) no_size ascii_fold example_decode example_render (fun _ => true) None (fun _ => ECanceled)
    example_send (fun _ _ _ => Panicked) example_open example_open (guarded_conditions [blocking "both"]) example_chat_conditions example_request
    (chat_body "project apollo" true) 4 example_world ∅ (blocking "both") [] eq_refl _ (fun _ _ _ _ => eq_refl)).
  intros n t r (f & out & r1 & limit & model & Hreq & _). exfalso. vm_compute in Hreq. discriminate Hreq.
Defined.
