(* ===== verification/Native.v ===== *)
(** * Answers of providers the gateway does not translate ([api/proxy_response.go],
    [api/responses_stream.go])

    What a call of a provider brings, with the reads of its body, and the copy of
    a native answer to the client: one upstream attempt under the deadlines of
    [StreamLife], as an event stream, as a binary body or as an error body. The
    client sees the provider's status and headers, less those of a connection and
    less cookies; an answer that breaks off after its status was sent is aborted,
    so that it cannot be taken for a complete one. *)

From S2P Require Import Prelude GoStrings Streaming Json Wire Router Registry Providers Sse StreamLife StreamProxy Handlers Chat.
From Stdlib Require Import Ascii.

(** ** What a provider's call brings *)

(** One read of a body: its instants and its bytes. *)
Record chunk := mkChunk { ck_t0 : Z; ck_t1 : Z; ck_t2 : Z; ck_bytes : bytes }.

(** An answer with the reads of its body, as events and as bytes; a body ends with
    an error or the end of the file. *)
Record http_response := mkHttpResponse {
  hp_status : Z;
  hp_detail : string;              (** [ReadErrorBody] *)
  hp_content_type : string;
  hp_headers : list (string * list string);
  hp_events : list arrival;
  hp_events_end : Z * Z * Z * sse_error;
  hp_chunks : list chunk;
  hp_chunks_end : chunk * stream_error;
}.

Inductive native_call := NativeError (err : go_error) | NativeResponse (a : http_response) | NativePanic.

(** An error of a proxied answer: of a write to the client, or another. *)
Inductive proxy_error := PWrite (err : string) | PError (err : go_error).

Definition proxyErrorStatus (e : proxy_error) : Z :=
  match e with
  | PWrite _ => 499
  | PError e => if is_canceled e then 499 else if is_deadline e then 504 else 502
  end.

Definition maxResponseBody : Z := 8388608.

Section Source.
Variable read_error : sse_error -> go_error.
(** [h.Streaming] *)
Variable streaming : StreamingConfig.

Definition streamingFor {B} (name : string) (r : Registry B) : StreamingConfig :=
  match rg_deployments r !! name with Some d => WithOverride streaming (dep_Streaming d) | None => WithDefaults streaming end.

#[local] Abbreviation go := (stream_go_error read_error).

(** The events that are read until one has data, and the end of the body. *)
Definition prefetch_all (a : http_response) (src : chatStream) : chatStream * result stream_error unit :=
  match prefetch (hp_events a) src with
  | (src, Some r) => (src, r)
  | (src, None) =>
      let '(t0, t1, t2, e) := hp_events_end a in
      let '(src, r) := readEvent t0 t1 t2 (Err e) src in
      (src, match r with Ok _ => Ok tt | Err e => Err e end)
  end.

(** One read of [readResponseJSON]: the bytes so far and whether the file has ended. *)
Definition read_chunk (c : chunk) (err : option stream_error) (out : bytes) (src : chatStream) : chatStream * result go_error (bytes * bool) :=
  let '(src, (n, e)) := readBytes (ck_t0 c) (ck_t1 c) (ck_t2 c) (Z.of_nat (length (ck_bytes c))) err src in
  if maxResponseBody <? Z.of_nat (length out) + n then (src, Err (EOther "Responses output exceeds 8 MiB"))
  else
    let out := if n =? 0 then out else out ++ ck_bytes c in
    match e with
    | None => (src, Ok (out, false))
    | Some (StreamRead EOF) => (src, Ok (out, true))
    | Some e => (src, Err (go e))
    end.

Fixpoint read_json (chunks : list chunk) (last : chunk * stream_error) (out : bytes) (src : chatStream) :
    chatStream * result go_error bytes :=
  match chunks with
  | [] =>
      match read_chunk last.1 (Some last.2) out src with
      | (src, Ok (out, _)) => (src, Ok out)
      | (src, Err e) => (src, Err e)
      end
  | c :: chunks =>
      match read_chunk c None out src with
      | (src, Ok (out, true)) => (src, Ok out)
      | (src, Ok (out, false)) => read_json chunks last out src
      | (src, Err e) => (src, Err e)
      end
  end.

Definition readResponseJSON (a : http_response) (src : chatStream) : chatStream * result go_error bytes :=
  read_json (hp_chunks a) (hp_chunks_end a) [] src.

Definition run_proxy_error (e : run_error) : proxy_error :=
  match e with RWrite err => PWrite err | _ => PError (run_go_error read_error e) end.
End Source.

(** ** Headers *)

(** The fields of a message: names in canonical form with their values. *)
Abbreviation Header := (list (string * list string)).

(** [h.Values(name)] and [h.Get(name)] of a canonical name. *)
Definition header_values (h : Header) (name : string) : list string :=
  default [] (option_map snd (List.find (fun kv => (kv.1 =? name)%string) h)).
Definition header_get (h : Header) (name : string) : string := default "" (head (header_values h name)).

Definition shouldHopByHop (h : string) : bool :=
  bool_decide (ToLower h ∈ ["connection"; "keep-alive"; "proxy-authenticate"; "proxy-authorization"; "te"; "trailer"; "trailers";
                            "transfer-encoding"; "upgrade"; "content-length"]).

Definition connectionHeaders (h : Header) : list string :=
  line ← header_values h "Connection"; value ← SplitByte line ","; [ToLower (TrimSpace value)].

(** What of the provider's header the client gets. *)
Definition forwarded (src : Header) (k : string) : bool :=
  negb (shouldHopByHop k || bool_decide (ToLower k ∈ connectionHeaders src) || (ToLower k =? "set-cookie")%string).

Definition copyProxyResponseHeaders (dst src : Header) : Header :=
  let copied := List.filter (fun kv => forwarded src kv.1) src in
  List.filter (fun kv => negb (bool_decide (kv.1 ∈ map fst copied))) dst ++ copied.

(** ** The copy ([forwardProxy]) *)

(** What the client has got: status and header once they are sent, and bytes. *)
Record proxy_client := mkProxyClient {
  pc_header : Header;
  pc_sent : option (Z * Header);
  pc_bytes : bytes;
}.

(** What happens with one read of a binary body. *)
Record byte_turn := mkByteTurn {
  bt_chunk : chunk;
  bt_err : option stream_error;
  bt_pause : Z;
  bt_write : write_outcome;
  bt_resume : Z * Z;
}.

(** The surroundings of one copy: the instants at which the stream is made, the
    firing of its timer while an error body is read, the pause before the status
    is sent, the write of an error body, and the turns of the body. *)
Record proxy_env := mkProxyEnv {
  pe_start : Z * Z;
  pe_fired : option (Z * Z);
  pe_pause : Z;
  pe_write : write_outcome;
  pe_turns : list turn;
  pe_bytes : list byte_turn;
}.

Section Proxy.
Variable decode : bytes -> option raw.
Variable read_error : sse_error -> go_error.
(** [mime.ParseMediaType] *)
Variable media_type : string -> string.
Implicit Types (c : proxy_client) (src : chatStream).

#[local] Abbreviation go e := (PError (stream_go_error read_error e)).

(** The end of a copy: the status of the row, and the error. *)
Abbreviation copied := (result proxy_error Z).

Definition set_type (k : text) (v : raw) (t : text) : option text := Some (if is_key "type" k then default t (into_string v t) else t).

Definition nativeEventType (e : sseEvent) : text :=
  match decode (ev_data e) with Some v => default [] (into_struct set_type v []) | None => [] end.

Definition native_progress (e : sseEvent) : bool :=
  ev_hasData e && negb (bool_decide (ev_data e = [])) && negb (bool_decide (nativeEventType e = txt "ping")).

Definition commit (a : http_response) c : proxy_client :=
  let h := copyProxyResponseHeaders (pc_header c) (hp_headers a) in mkProxyClient h (Some (hp_status a, h)) (pc_bytes c).

Definition put (data : bytes) (o : write_outcome) c : proxy_client * option string :=
  let '(out, e) := StreamProxy.write data o (pc_bytes c) in (mkProxyClient (pc_header c) (pc_sent c) out, e).

Definition stream_eof (e : stream_error) : bool := match e with StreamRead EOF => true | _ => false end.
Definition is_eof (e : run_error) : bool := match e with RStream e => stream_eof e | _ => false end.

(** One event of a stream. *)
Definition event_turn (a : http_response) (native : bool) (t : turn) src c : chatStream * proxy_client * option copied :=
  let '(src, out, pulled) := pull t src (pc_bytes c) in
  let c := mkProxyClient (pc_header c) (pc_sent c) out in
  match pulled with
  | Err e => (src, c, Some (if is_eof e && negb native then Ok (hp_status a) else Err (run_proxy_error read_error e)))
  | Ok event =>
      match pauseIdle (tn_pause t) src with
      | (src, Some e) => (src, c, Some (Err (go e)))
      | (src, None) =>
          match put (encode event (ev_data event)) (tn_write t) c with
          | (c, Some err) => (src, c, Some (Err (PWrite err)))
          | (c, None) =>
              let src := resumeIdle (tn_resume t) (tn_armed t) src in
              (src, c,
               if negb native then None
               else if bool_decide (nativeEventType event = txt "message_stop") then Some (Ok (hp_status a))
               else if bool_decide (nativeEventType event = txt "error") then Some (Err (PError (EOther "upstream reported a stream error")))
               else None)
          end
      end
  end.

Fixpoint event_loop (a : http_response) (native : bool) (ts : list turn) src c : proxy_client * option copied :=
  match ts with
  | [] => (c, None)
  | t :: ts =>
      match event_turn a native t src c with
      | (_, c, Some r) => (c, Some r)
      | (src, c, None) => event_loop a native ts src c
      end
  end.

(** One read of a body. *)
Definition bytes_turn (a : http_response) (t : byte_turn) src c : chatStream * proxy_client * option copied :=
  let k := bt_chunk t in
  let '(src, (n, err)) := readBytes (ck_t0 k) (ck_t1 k) (ck_t2 k) (Z.of_nat (length (ck_bytes k))) (bt_err t) src in
  let ended := match err with Some e => stream_eof e | None => false end in
  let finish src c := (src, c, if ended then Some (Ok (hp_status a)) else match err with Some e => Some (Err (go e)) | None => None end) in
  if (0 <? n) || ended
  then match pauseIdle (bt_pause t) src with
       | (src, Some e) => (src, c, Some (Err (go e)))
       | (src, None) =>
           let c := match pc_sent c with None => commit a c | Some _ => c end in
           let '(c, werr) := if 0 <? n then put (ck_bytes k) (bt_write t) c else (c, None) in
           match werr with
           | Some err => (src, c, Some (Err (PWrite err)))
           | None => finish (resumeIdle (bt_resume t).1 (bt_resume t).2 src) c
           end
       end
  else finish src c.

Fixpoint bytes_loop (a : http_response) (ts : list byte_turn) src c : proxy_client * option copied :=
  match ts with
  | [] => (c, None)
  | t :: ts =>
      match bytes_turn a t src c with
      | (_, c, Some r) => (c, Some r)
      | (src, c, None) => bytes_loop a ts src c
      end
  end.

Definition error_body (a : http_response) (e : proxy_env) src c : proxy_client * option copied :=
  let src := match pe_fired e with Some (now, armed) => expire now armed src | None => src end in
  match cs_ctx src with
  | Some cause => (c, Some (Err (go cause)))
  | None =>
      match pauseIdle (pe_pause e) src with
      | (_, Some cause) => (c, Some (Err (go cause)))
      | (_, None) =>
          match put (str (hp_detail a)) (pe_write e) (commit a c) with
          | (c, Some err) => (c, Some (Err (PWrite err)))
          | (c, None) => (c, Some (Ok (hp_status a)))
          end
      end
  end.

Definition event_stream (a : http_response) (e : proxy_env) (native : bool) src c : proxy_client * option copied :=
  let src := set_protocol (negb native) (if native then Some native_progress else None) src in
  match prefetch_all a src with
  | (src, Err cause) =>
      if stream_eof cause && negb native then (commit a c, Some (Ok (hp_status a))) else (c, Some (Err (go cause)))
  | (src, Ok _) =>
      match pauseIdle (pe_pause e) src with
      | (_, Some cause) => (c, Some (Err (go cause)))
      | (src, None) =>
          let c := mkProxyClient (List.filter (fun kv => negb (kv.1 =? "X-Accel-Buffering")%string) (pc_header c) ++ [("X-Accel-Buffering", ["no"])])
                     (pc_sent c) (pc_bytes c) in
          event_loop a native (pe_turns e) src (commit a c)
      end
  end.

(** How a copy ends for the handler: with a status, or by aborting the connection. *)
Record proxied := mkProxied { pd_status : Z; pd_abort : bool; pd_answer : reply }.

(** The copy and its deferred end; [None] while a read is awaited. *)
Definition forwardProxy (call : result go_error http_response) (cfg : StreamingConfig) (native : bool) (e : proxy_env) :
    proxy_client * option proxied :=
  let src := newChatStream None cfg false (pe_start e).1 (pe_start e).2 in
  let c := mkProxyClient [] None [] in
  let '(c, r) :=
    match call with
    | Err err => (c, Some (Err (PError err)))
    | Ok a =>
        if 300 <=? hp_status a then error_body a e src c
        else if (media_type (hp_content_type a) =? "text/event-stream")%string then event_stream a e native src c
        else bytes_loop a (pe_bytes e) src c
    end in
  (c, match r with
      | None => None
      | Some (Ok status) => Some (mkProxied status false (match pc_sent c with Some (s, _) => (s, "") | None => (200, "") end))
      | Some (Err err) =>
          let status := proxyErrorStatus err in
          Some match pc_sent c with
               | None => mkProxied status false (status, "upstream_error")
               | Some (s, _) => mkProxied status true (s, "")
               end
      end).
End Proxy.

(** ** What the client gets *)

Section copy_facts.
Variable decode : bytes -> option raw.
Variable read_error : sse_error -> go_error.
Variable media_type : string -> string.
Implicit Types (c : proxy_client) (src : chatStream).

(** The causes of a stream's end are never the end of a file. *)
Definition no_eof_cause src : Prop := (forall e, cs_ctx src = Some e -> stream_eof e = false) /\ stream_eof (cs_cause src) = false.

Lemma new_no_eof cfg allowEOF now armed : no_eof_cause (newChatStream None cfg allowEOF now armed).
Proof. done. Qed.

Lemma cancel_no_eof src : no_eof_cause src -> no_eof_cause (cancel (cs_cause src) src).
Proof. intros [H1 H2]. unfold cancel. destruct (cs_ctx src) eqn:E; [by split; [rewrite E |] |]. split; cbn; [by intros ? [= <-] | done]. Qed.

Lemma pause_no_eof now src src' r :
  no_eof_cause src -> pauseIdle now src = (src', r) -> no_eof_cause src' /\ cs_first src' = cs_first src.
Proof.
  intros Hs. unfold pauseIdle. destruct (cs_paused src); [by intros [= <- _] |]. cbn. destruct (_ <=? 0); intros [= <- _]; [| by split].
  pose proof (cancel_no_eof (set_paused true (Sub (cs_deadline src) now) src) Hs) as Hc. unfold cancel in *. cbn in *.
  destruct (cs_ctx src); (split; [exact Hc | done]).
Qed.

Lemma resume_no_eof now armed src :
  no_eof_cause src -> no_eof_cause (resumeIdle now armed src) /\ cs_first (resumeIdle now armed src) = cs_first src.
Proof. intros [H1 H2]. unfold resumeIdle. destruct (_ && _); (split; [by split | done]). Qed.

Lemma readBytes_cases t0 t1 t2 n err src src' k e :
  no_eof_cause src -> readBytes t0 t1 t2 n err src = (src', (k, e)) ->
  no_eof_cause src' /\ (k = n /\ e = err \/ k = 0 /\ exists x, e = Some x /\ stream_eof x = false).
Proof.
  intros Hs. unfold readBytes. destruct (cs_ctx src) as [x|] eqn:Ec.
  { intros [= <- <- <-]. split; [done |]. right. split; [done |]. exists x. split; [done | by apply Hs]. }
  destruct (negb _); intros [= <- <- <-].
  - split; [by apply cancel_no_eof |]. right. split; [done |]. eexists. split; [done | apply Hs].
  - split; [| by left]. destruct (0 <? n); [| done]. split; cbn; [apply Hs | done].
Qed.

Lemma readEvent_cases t0 t1 t2 read src src' r :
  no_eof_cause src -> readEvent t0 t1 t2 read src = (src', r) ->
  no_eof_cause src' /\ cs_first src' = cs_first src /\ match r with Ok e => read = Ok e | Err _ => True end.
Proof.
  intros Hs. unfold readEvent. destruct (cs_ctx src) as [x|] eqn:Ec; [by intros [= <- <-] |].
  destruct (negb _).
  { intros [= <- <-]. split_and!; [by apply cancel_no_eof | by unfold cancel; rewrite Ec | done]. }
  destruct read as [e|[]]; intros [= <- <-]; try done. split_and!; [| by destruct (meaningful src e) | done].
  destruct (meaningful src e); [split; cbn; [apply Hs | done] | done].
Qed.

(** *** A binary body *)

Definition body_of (ts : list byte_turn) : bytes := ts ≫= fun t => ck_bytes (bt_chunk t).

Definition sent_once (a : http_response) c c' : Prop :=
  pc_sent c' = pc_sent c \/
  pc_sent c = None /\ pc_sent c' = Some (hp_status a, copyProxyResponseHeaders (pc_header c) (hp_headers a)).

Lemma put_cases data o c c' e :
  put data o c = (c', e) -> pc_sent c' = pc_sent c /\ pc_header c' = pc_header c /\
  match e with None => pc_bytes c' = pc_bytes c ++ data | Some _ => pc_bytes c' `prefix_of` pc_bytes c ++ data end.
Proof.
  unfold put. destruct (StreamProxy.write data o (pc_bytes c)) as [out x] eqn:Ew. apply write_cases in Ew. intros [= <- <-]. done.
Qed.

Lemma bytes_turn_spec a t src c src' c' r :
  no_eof_cause src -> bytes_turn read_error a t src c = (src', c', r) ->
  no_eof_cause src' /\ sent_once a c c' /\ pc_bytes c' `prefix_of` pc_bytes c ++ ck_bytes (bt_chunk t) /\
  (pc_sent c' = None -> pc_header c' = pc_header c) /\
  match r with
  | None => pc_bytes c' = pc_bytes c ++ ck_bytes (bt_chunk t)
  | Some (Ok status) => status = hp_status a /\ pc_bytes c' = pc_bytes c ++ ck_bytes (bt_chunk t) /\ is_Some (pc_sent c') /\
      exists e, bt_err t = Some e /\ stream_eof e = true
  | Some (Err _) => True
  end.
Proof.
  intros Hs. unfold bytes_turn. set (k := bt_chunk t). destruct (readBytes _ _ _ _ _ _) as [src1 [n err]] eqn:Er.
  apply readBytes_cases in Er as [Hs1 Hcase]; [| done].
  assert (n = 0 -> pc_bytes c `prefix_of` pc_bytes c ++ ck_bytes k) as Hpre by (intros; by apply prefix_app_r).
  destruct ((0 <? n) || _) eqn:Egate.
  2: { apply orb_false_iff in Egate as [Hn He]. intros [= <- <- <-]. rewrite He. split_and!; [done | by left | by apply prefix_app_r | done |].
       destruct err as [x|]; [done |]. destruct Hcase as [[-> _] | (_ & ? & ? & _)]; [| done].
       destruct (ck_bytes k); [by rewrite app_nil_r | done]. }
  destruct Hcase as [[-> ->] | (-> & x & -> & Hx)]; [| by cbn in Egate; rewrite Hx in Egate].
  destruct (pauseIdle _ src1) as [src2 pr] eqn:Ep. apply pause_no_eof in Ep as [Hs2 _]; [| done].
  destruct pr as [x|]; [intros [= <- <- <-]; split_and!; [done | by left | by apply prefix_app_r | done | done] |].
  set (c1 := match pc_sent c with None => commit a c | Some _ => c end).
  assert (sent_once a c c1 /\ is_Some (pc_sent c1) /\ pc_bytes c1 = pc_bytes c) as (Ho & Hsome & Hb).
  { unfold c1. destruct (pc_sent c) eqn:E; (split_and!; [| by rewrite ?E; eexists | done]); [by left | right; done]. }
  destruct (if 0 <? _ then _ else _) as [c2 werr] eqn:Ew.
  assert (pc_sent c2 = pc_sent c1 /\ match werr with None => pc_bytes c2 = pc_bytes c ++ ck_bytes k | Some _ => pc_bytes c2 `prefix_of` pc_bytes c ++ ck_bytes k end) as [E2 Hw].
  { destruct (0 <? _) eqn:E0.
    - apply put_cases in Ew as (E1 & _ & Hw). rewrite Hb in Hw. split; [done |]. destruct werr; done.
    - injection Ew as <- <-. split; [done |]. destruct (ck_bytes k); [by rewrite app_nil_r | done]. }
  assert (sent_once a c c2) as Ho2 by (unfold sent_once in *; by rewrite E2).
  assert (pc_sent c2 = None -> pc_header c2 = pc_header c) as Hnone by (rewrite E2; intros E; destruct Hsome; congruence).
  destruct werr as [x|]; [intros [= <- <- <-]; done |]. intros [= <- <- <-].
  pose proof (resume_no_eof (bt_resume t).1 (bt_resume t).2 src2 Hs2) as [Hs3 _]. split_and!; [done | done | by rewrite Hw | done |].
  destruct (bt_err t) as [x|]; [| done]. destruct (stream_eof x) eqn:Ex; [| done]. split_and!; [done | done | by rewrite E2 | eauto].
Qed.

Lemma bytes_loop_spec a ts : forall src c c' r,
  no_eof_cause src -> bytes_loop read_error a ts src c = (c', r) ->
  exists ts1 ts2, ts = ts1 ++ ts2 /\ sent_once a c c' /\ pc_bytes c' `prefix_of` pc_bytes c ++ body_of ts1 /\
  (pc_sent c' = None -> pc_header c' = pc_header c) /\
  forall status, r = Some (Ok status) -> status = hp_status a /\ pc_bytes c' = pc_bytes c ++ body_of ts1 /\ is_Some (pc_sent c') /\
    exists t e, last ts1 = Some t /\ bt_err t = Some e /\ stream_eof e = true.
Proof.
  induction ts as [| t ts IH]; intros src c c' r Hs; cbn [bytes_loop].
  { intros [= <- <-]. exists [], []. split_and!; [done | by left | by rewrite app_nil_r | done | done]. }
  destruct (bytes_turn _ _ _ _ _) as [[src1 c1] r1] eqn:Et. apply bytes_turn_spec in Et as (Hs1 & Ho & Hp & Hn & Hr); [| done].
  destruct r1 as [[status|err]|].
  - intros [= <- <-]. exists [t], ts. unfold body_of. cbn. rewrite app_nil_r. split_and!; [done | done | done | done |].
    intros ? [= <-]. destruct Hr as (-> & Hb & Hsome & e & He & Hx). split_and!; [done | done | done | eauto].
  - intros [= <- <-]. exists [t], ts. unfold body_of. cbn. rewrite app_nil_r. by split_and!.
  - intros E. apply IH in E as (ts1 & ts2 & -> & Ho1 & Hp1 & Hn1 & Hok); [| done]. exists (t :: ts1), ts2.
    unfold body_of in *. cbn. rewrite Hr, <- app_assoc in *. split_and!; [done | | done | |].
    + destruct Ho as [E1 | [E1 E2]], Ho1 as [E3 | [E3 E4]]; unfold sent_once; [left; congruence | | right; split; congruence | congruence].
      right. split; [congruence |]. rewrite E4. by rewrite (Hn E3).
    + intros E. rewrite Hn1 by done. apply Hn. destruct Ho1 as [<- | [? _]]; done.
    + intros status E. destruct (Hok status E) as (-> & Hb & Hsome & t' & e & Hl & Hx). split_and!; [done | done | done |].
      exists t', e. split; [| done]. destruct ts1; [done |]. exact Hl.
Qed.

(** *** A stream of events *)

(** Events as they came, with keepalives between them. *)
Inductive copied_events : list sseEvent -> bytes -> Prop :=
| ce_start : copied_events [] []
| ce_keepalive evs bs : copied_events evs bs -> copied_events evs (bs ++ keepalive)
| ce_event evs bs e : copied_events evs bs -> copied_events (evs ++ [e]) (bs ++ encode e (ev_data e)).

(** The event that was prefetched, then those the turns bring. *)
Definition arriving (ts : list turn) : list sseEvent :=
  omap (fun t => match ar_read (tn_arrival t) with Ok e => Some e | Err _ => None end) ts.
Definition coming src (ts : list turn) : list sseEvent :=
  match cs_first src with Some e => e :: arriving (tail ts) | None => arriving ts end.

Lemma next_event_cases a src src' r :
  no_eof_cause src -> next_event a src = (src', r) ->
  no_eof_cause src' /\ cs_first src' = None /\ match r with Ok e => cs_first src = Some e \/ cs_first src = None /\ ar_read a = Ok e | Err _ => True end.
Proof.
  intros Hs. unfold next_event. destruct (cs_first src) as [e|] eqn:Ef.
  - intros [= <- <-]. split_and!; [done | done |]. cbn. destruct (cs_ctx src); [done | by left].
  - intros E. apply readEvent_cases in E as (Hs' & Ef' & Hr); [| done]. split_and!; [done | congruence |]. destruct r; [by right | done].
Qed.

Lemma pull_cases t src out src' out' r :
  no_eof_cause src -> pull t src out = (src', out', r) ->
  no_eof_cause src' /\ match r with Ok e => cs_first src' = None /\ (cs_first src = Some e \/ cs_first src = None /\ ar_read (tn_arrival t) = Ok e) | Err _ => True end.
Proof.
  intros Hs. unfold pull. destruct (_ <=? 0).
  { destruct (next_event _ src) as [s1 [e|e]] eqn:En; intros [= <- <- <-]; apply next_event_cases in En as (? & ? & ?); done. }
  destruct (cs_ctx src); [by intros [= <- <- <-] |]. destruct (write_keepalives _ _) as [out1 [err|]]; [by intros [= <- <- <-] |].
  destruct (next_event _ src) as [s1 e1] eqn:En. destruct (pauseIdle _ s1) as [s2 e2] eqn:Ep.
  apply next_event_cases in En as (Hs1 & Ef & Hr); [| done]. apply pause_no_eof in Ep as [Hs2 Ef2]; [| done].
  intros [= <- <- <-]. split; [done |]. destruct e1 as [e|]; [| done]. destruct e2; [done |]. split; [congruence | done].
Qed.

(** What one turn may leave. *)
Lemma event_turn_spec a native t src c src' c' r evs :
  no_eof_cause src -> copied_events evs (pc_bytes c) -> event_turn decode read_error a native t src c = (src', c', r) ->
  no_eof_cause src' /\ pc_sent c' = pc_sent c /\
  exists evs' bs, copied_events evs' bs /\ pc_bytes c' `prefix_of` bs /\
    (evs' = evs \/ exists e, evs' = evs ++ [e] /\ (cs_first src = Some e \/ cs_first src = None /\ ar_read (tn_arrival t) = Ok e)) /\
    match r with
    | None => pc_bytes c' = bs /\ cs_first src' = None /\ evs' <> evs
    | Some (Ok status) => status = hp_status a /\ pc_bytes c' = bs /\
        (native = true -> exists e, last evs' = Some e /\ nativeEventType decode e = txt "message_stop")
    | Some (Err _) => True
    end.
Proof.
  intros Hs Hc. unfold event_turn. destruct (pull t src (pc_bytes c)) as [[src1 out] pulled] eqn:Ep.
  pose proof (pull_cases _ _ _ _ _ _ Hs Ep) as [Hs1 Hev]. apply (pull_output _ (ce_keepalive evs)) in Ep as (bs & Hbs & Hpre & Heq); [| done].
  destruct pulled as [event|e].
  2: { intros [= <- <- <-]. split_and!; [done | done |]. exists evs, bs. split_and!; [done | done | by left |].
       destruct (is_eof e && negb native) eqn:Ee; [| done]. apply andb_true_iff in Ee as [Ee En]. apply negb_true_iff in En as ->.
       destruct e; try done. }
  destruct Hev as [Hnone Hev]. subst out. set (c1 := mkProxyClient _ _ bs).
  assert (evs ++ [event] <> evs) as Hne. { intros E. apply (f_equal length) in E. rewrite length_app in E. cbn in E. lia. }
  destruct (pauseIdle _ src1) as [src2 pr] eqn:Epi. apply pause_no_eof in Epi as [Hs2 Ef2]; [| done].
  destruct pr as [x|]; [intros [= <- <- <-]; split_and!; [done | done |]; exists evs, bs; split_and!; [done | done | by left | done] |].
  destruct (put _ _ c1) as [c2 werr] eqn:Ew. apply put_cases in Ew as (E1 & _ & Hw). cbn [pc_bytes c1] in Hw.
  assert (copied_events (evs ++ [event]) (bs ++ encode event (ev_data event))) as Hnew by by constructor.
  destruct werr as [x|].
  { intros [= <- <- <-]. split_and!; [done | done |]. eexists _, _. split_and!; [exact Hnew | done | eauto | done]. }
  intros [= <- <- <-]. pose proof (resume_no_eof (tn_resume t) (tn_armed t) src2 Hs2) as [Hs3 Ef3]. split_and!; [done | done |].
  eexists _, _. split_and!; [exact Hnew | by rewrite Hw | eauto |]. rewrite Ef3, Ef2.
  destruct native; cbn [negb]; [| done]. case_bool_decide as Hstop.
  - split_and!; [done | done |]. intros _. exists event. by rewrite last_snoc.
  - by case_bool_decide.
Qed.

Lemma event_loop_spec a native ts : forall src c c' r evs,
  no_eof_cause src -> copied_events evs (pc_bytes c) -> event_loop decode read_error a native ts src c = (c', r) ->
  pc_sent c' = pc_sent c /\
  exists evs' bs, copied_events (evs ++ evs') bs /\ pc_bytes c' `prefix_of` bs /\ evs' `prefix_of` coming src ts /\
    forall status, r = Some (Ok status) -> status = hp_status a /\ pc_bytes c' = bs /\
      (native = true -> exists e, last (evs ++ evs') = Some e /\ nativeEventType decode e = txt "message_stop").
Proof.
  induction ts as [| t ts IH]; intros src c c' r evs Hs Hc; cbn [event_loop].
  { intros [= <- <-]. split; [done |]. exists [], (pc_bytes c). rewrite app_nil_r. split_and!; [done | done | apply prefix_nil | done]. }
  destruct (event_turn _ _ _ _ _ _ _) as [[src1 c1] r1] eqn:Et.
  apply (event_turn_spec _ _ _ _ _ _ _ _ evs) in Et as (Hs1 & E1 & evs1 & bs & Hbs & Hpre & Hevs & Hr); [| done | done].
  assert (exists l, evs1 = evs ++ l /\ l `prefix_of` coming src (t :: ts)) as (l & -> & Hl).
  { destruct Hevs as [-> | (e & -> & He)]; [exists []; rewrite app_nil_r; split; [done | apply prefix_nil] |]. exists [e]. split; [done |].
    unfold coming, arriving. destruct He as [-> | [-> Ha]]; [by apply prefix_cons, prefix_nil |]. cbn. rewrite Ha. by apply prefix_cons, prefix_nil. }
  destruct r1 as [[status|err]|].
  - intros [= <- <-]. split; [done |]. exists l, bs. split_and!; [done | done | done |]. by intros ? [= <-].
  - intros [= <- <-]. split; [done |]. exists l, bs. by split_and!.
  - destruct Hr as (Hb & Hf & Hne). intros E. rewrite <- Hb in Hbs.
    destruct (IH _ _ _ _ _ Hs1 Hbs E) as (E2 & evs2 & bs2 & H1 & H2 & H3 & H4). split; [congruence |]. exists (l ++ evs2), bs2.
    rewrite <- app_assoc in *. split_and!; [done | done | | done].
    destruct Hevs as [Hx | (e & Hx & He)]; [by rewrite Hx in Hne |]. apply app_inv_head in Hx as ->. cbn [app].
    unfold coming in *. rewrite Hf in H3. unfold arriving in *. destruct He as [-> | [-> Ha]]; [by apply prefix_cons |].
    cbn. rewrite Ha. by apply prefix_cons.
Qed.
End copy_facts.

Section copy_properties.
Variable decode : bytes -> option raw.
Variable read_error : sse_error -> go_error.
Variable media_type : string -> string.
Implicit Types (c : proxy_client) (src : chatStream).

(** The header the client gets is the provider's, filtered. *)
Definition client_header (theirs h : Header) : Prop :=
  forall k vs, (k, vs) ∈ h -> k = "X-Accel-Buffering" /\ vs = ["no"] \/ (k, vs) ∈ theirs /\ forwarded theirs k = true.

Lemma copied_header dst (h : Header) : client_header h dst -> client_header h (copyProxyResponseHeaders dst h).
Proof.
  intros Hd k vs. unfold copyProxyResponseHeaders. intros [Hin | Hin]%elem_of_app; apply list_elem_of_In, filter_In in Hin as [Hin Hf];
    apply list_elem_of_In in Hin; [by apply Hd | by right].
Qed.

Lemma prefetch_all_cases a src src' r :
  no_eof_cause src -> prefetch_all a src = (src', r) ->
  no_eof_cause src' /\ (r = Ok tt -> exists e, cs_first src' = Some e /\ Ok e ∈ map ar_read (hp_events a)).
Proof.
  unfold prefetch_all. generalize (hp_events a) as reads. intros reads.
  assert (forall src src' r, no_eof_cause src -> prefetch reads src = (src', r) ->
    no_eof_cause src' /\ (r = Some (Ok tt) -> exists e, cs_first src' = Some e /\ Ok e ∈ map ar_read reads)) as Hpre.
  { induction reads as [| x reads IH]; intros s s' r0 Hs; cbn [prefetch]; [by intros [= <- <-] |].
    destruct (readEvent _ _ _ _ s) as [s1 [e|e]] eqn:Er; apply readEvent_cases in Er as (Hs1 & _ & Hread); try done; [| by intros [= <- <-]].
    destruct (meaningful s1 e).
    - intros [= <- <-]. split; [done |]. intros _. exists e. split; [done |]. cbn. rewrite Hread. by left.
    - intros E. apply IH in E as [Hs' Hf]; [| done]. split; [done |]. intros Hr. destruct (Hf Hr) as (e' & ? & ?). exists e'. split; [done | by right]. }
  intros Hs. destruct (prefetch reads src) as [s1 [r1|]] eqn:Ep; apply Hpre in Ep as [Hs1 Hf]; try done.
  - intros [= <- <-]. split; [done |]. intros ->. by apply Hf.
  - destruct (hp_events_end a) as [[[t0 t1] t2] e]. destruct (readEvent _ _ _ (Err e) s1) as [s2 r2] eqn:Er.
    apply readEvent_cases in Er as (Hs2 & _ & Hr2); [| done]. intros [= <- <-]. split; [done |]. by destruct r2.
Qed.

(** A complete answer: the error body; the events in their order, to the terminal
    one of the native protocol; or the bytes to the end of the file. *)
Definition whole (a : http_response) (native : bool) (e : proxy_env) c : Prop :=
  if 300 <=? hp_status a then pc_bytes c = str (hp_detail a)
  else if (media_type (hp_content_type a) =? "text/event-stream")%string
  then exists evs, copied_events evs (pc_bytes c) /\
         (evs = [] \/ exists first, Ok first ∈ map ar_read (hp_events a) /\ evs `prefix_of` first :: arriving (tail (pe_turns e))) /\
         (native = true -> exists event, last evs = Some event /\ nativeEventType decode event = txt "message_stop")
  else exists ts1 ts2, pe_bytes e = ts1 ++ ts2 /\ pc_bytes c = body_of ts1 /\
         exists t err, last ts1 = Some t /\ bt_err t = Some err /\ stream_eof err = true.

#[local] Abbreviation copy_ok a native e c r :=
  ((forall s h, pc_sent c = Some (s, h) -> s = hp_status a /\ client_header (hp_headers a) h) /\
   (forall status, r = Some (Ok status) -> status = hp_status a /\ is_Some (pc_sent c) /\ whole a native e c)).

Lemma error_body_ok a e src native c r :
  (300 <=? hp_status a) = true -> error_body read_error a e src (mkProxyClient [] None []) = (c, r) -> copy_ok a native e c r.
Proof.
  intros Hst. unfold error_body. destruct (cs_ctx _) as [x|]; [by intros [= <- <-] |]. destruct (pauseIdle _ _) as [s [x|]]; [by intros [= <- <-] |].
  assert (client_header (hp_headers a) (copyProxyResponseHeaders [] (hp_headers a))) as Hh.
  { apply copied_header. by intros ? ? ?%not_elem_of_nil. }
  destruct (put _ _ _) as [c1 werr] eqn:Ew. apply put_cases in Ew as (Es & _ & Hw). cbn in Es, Hw.
  destruct werr as [x|]; intros [= <- <-]; (split; [rewrite Es; by intros ? ? [= <- <-] |]); [done |].
  intros ? [= <-]. split_and!; [done | by rewrite Es | unfold whole; by rewrite Hst].
Qed.

Lemma event_stream_ok a e native src c r :
  (300 <=? hp_status a) = false -> (media_type (hp_content_type a) =? "text/event-stream")%string = true -> no_eof_cause src ->
  event_stream decode read_error a e native src (mkProxyClient [] None []) = (c, r) -> copy_ok a native e c r.
Proof.
  intros Hst Hm Hs. unfold event_stream.
  assert (client_header (hp_headers a) []) as H0 by by intros ? ? ?%not_elem_of_nil.
  destruct (prefetch_all a _) as [s1 [u|x]] eqn:Ep; apply prefetch_all_cases in Ep as [Hs1 Hf]; try done.
  2: { destruct (stream_eof x && negb native) eqn:Ee; intros [= <- <-]; [| done].
       split; [intros ? ? [= <- <-]; split; [done | by apply copied_header] |]. intros ? [= <-].
       apply andb_true_iff in Ee as [_ En]. apply negb_true_iff in En as ->. split_and!; [done | by eexists |]. unfold whole. rewrite Hst, Hm.
       exists []. split_and!; [constructor | by left | done]. }
  destruct u, (Hf eq_refl) as (first & Efirst & Hin). destruct (pauseIdle _ s1) as [s2 pr] eqn:Epi.
  apply pause_no_eof in Epi as [Hs2 Ef2]; [| done]. destruct pr as [x|]; [by intros [= <- <-] |].
  set (c0 := commit a _). assert (copied_events [] (pc_bytes c0)) as Hc0 by constructor. intros E.
  apply (event_loop_spec _ _ _ _ _ _ _ _ _ _ Hs2 Hc0) in E as (Es & evs & bs & Hbs & Hpre & Hcom & Hok).
  unfold coming in Hcom. rewrite Ef2, Efirst in Hcom. split.
  - rewrite Es. intros s h [= <- <-]. split; [done |]. apply copied_header. intros k vs Hk%list_elem_of_singleton. injection Hk as -> ->. by left.
  - intros status Hr. destruct (Hok status Hr) as (-> & Hb & Hstop). split_and!; [done | rewrite Es; by eexists |]. unfold whole. rewrite Hst, Hm.
    exists evs. rewrite Hb. split_and!; [done | right; by exists first | done].
Qed.

Lemma bytes_ok a e src native c r :
  (300 <=? hp_status a) = false -> (media_type (hp_content_type a) =? "text/event-stream")%string = false -> no_eof_cause src ->
  bytes_loop read_error a (pe_bytes e) src (mkProxyClient [] None []) = (c, r) -> copy_ok a native e c r.
Proof.
  intros Hst Hm Hs E. apply bytes_loop_spec in E as (ts1 & ts2 & Ets & Ho & _ & _ & Hok); [| done]. cbn in Ho. split.
  - destruct Ho as [-> | [_ ->]]; [done |]. intros ? ? [= <- <-]. split; [done |]. apply copied_header. by intros ? ? ?%not_elem_of_nil.
  - intros status Hr. destruct (Hok status Hr) as (-> & Hb & Hsome & Hlast). split_and!; [done | done |]. unfold whole. rewrite Hst, Hm.
    exists ts1, ts2. by split_and!.
Qed.

(** A native answer is whole, or the client can tell: whatever a provider answers
    and however reads and writes fail, a copy that ends without aborting the
    connection either sent nothing, and the gateway answered with its own error,
    or sent the provider's status, its header without the fields of a
    connection and without cookies, and the whole answer: the bytes to the end of
    the file, or the events in order to the protocol's terminal one. *)
Theorem native_answers_are_whole (a : http_response) (cfg : StreamingConfig) (native : bool) (e : proxy_env) (c : proxy_client) (p : proxied)
    (E : forwardProxy decode read_error media_type (Ok a) cfg native e = (c, Some p)) :
  (forall s h, pc_sent c = Some (s, h) -> s = hp_status a /\ client_header (hp_headers a) h) /\
  (if pd_abort p then is_Some (pc_sent c) /\ pd_status p ∈ [499; 502; 504]
   else match pc_sent c with
        | None => pd_status p ∈ [499; 502; 504] /\ pd_answer p = (pd_status p, "upstream_error")
        | Some _ => pd_status p = hp_status a /\ whole a native e c
        end).
Proof.
  revert E. unfold forwardProxy. set (src := newChatStream _ _ _ _ _). assert (no_eof_cause src) as Hs by apply new_no_eof.
  destruct (if 300 <=? hp_status a then _ else _) as [c' r] eqn:Er. intros [= <- Hp].
  assert (copy_ok a native e c' r) as [Hh Hok].
  { destruct (300 <=? hp_status a) eqn:Hst; [by eapply error_body_ok |].
    destruct (media_type _ =? _)%string eqn:Hm; [by eapply event_stream_ok | by eapply bytes_ok]. }
  split; [done |]. destruct r as [[status|err]|]; [| | done].
  - injection Hp as <-. cbn. destruct (Hok status eq_refl) as (-> & [x Hx] & Hw). by rewrite Hx.
  - injection Hp as <-. assert (proxyErrorStatus err ∈ [499; 502; 504]) as Hin.
    { unfold proxyErrorStatus. destruct err as [|x]; [set_solver |]. destruct (is_canceled x), (is_deadline x); set_solver. }
    destruct (pc_sent c') as [[s h]|] eqn:Ec; cbn; [| done]. split; [by eexists | done].
Qed.
End copy_properties.

(** ** Evaluation *)

Definition audio_answer : http_response :=
  mkHttpResponse 200 "" "audio/mpeg"
    [("Content-Type", ["audio/mpeg"]); ("Set-Cookie", ["session=1"]); ("Connection", ["X-Hop , close"]); ("X-Hop", ["1"])]
    [] (0, 0, 0, EOF) [] (mkChunk 0 0 0 [], StreamRead EOF).

Definition audio_turn (now : Z) (data : string) (err : option stream_error) : byte_turn :=
  mkByteTurn (mkChunk now now now (str data)) err now WOk (now, now).

Definition audio_env (err : stream_error) : proxy_env :=
  mkProxyEnv (0, 0) None 0 WOk [] [audio_turn 1 "ab" None; audio_turn 2 "cd" (Some err)].

Definition copy_audio (err : stream_error) : proxy_client * option proxied :=
  forwardProxy (fun _ => None) (fun _ => EOther "connection reset") (fun s => s) (Ok audio_answer) (mkStreamingConfig 0 0 0 0) false (audio_env err).

(** The cookie and the connection's fields stay; a body that breaks off aborts. *)
Lemma example_copy :
  copy_audio (StreamRead EOF) =
    (mkProxyClient [("Content-Type", ["audio/mpeg"])] (Some (200, [("Content-Type", ["audio/mpeg"])])) (str "abcd"), Some (mkProxied 200 false (200, ""))) /\
  (copy_audio ErrUnexpectedEOF).2 = Some (mkProxied 502 true (200, "")).
Proof. vm_compute. split; reflexivity. Qed.

Lemma native_answers_are_whole_witness : whole (fun _ => None) (fun s => s) audio_answer false (audio_env (StreamRead EOF)) (copy_audio (StreamRead EOF)).1.
Proof.
  destruct (copy_audio (StreamRead EOF)) as [c r] eqn:E. cbn [fst]. pose proof E as E'. vm_compute in E'. injection E' as Ec Er. subst r.
  destruct (native_answers_are_whole _ _ _ _ _ _ _ _ _ E) as [_ H]. subst c. exact (proj2 H).
Defined.
