(* ===== verification/Responses.v ===== *)
(** * The contract of the Responses endpoints ([api/responses_contract.go],
    [store/responses.go])

    Decoding and validating a Responses request, the body that is forwarded for
    it, the estimate it is admitted with, the owner of a stored response, the
    rewriting of what a provider answers, and the table of response bindings
    that ties a gateway identifier to its owner and to the deployment that keeps
    the response. The statements on the table are functions of it; the clock,
    random bytes and the digest of a token's name are arguments. *)

From S2P Require Import Prelude GoStrings Json Wire Money Models Chat.
From Stdlib Require Import Ascii.

(** ** Identifiers *)


Definition hex_rune (r : Z) : bool := (48 <=? r) && (r <=? 57) || (97 <=? r) && (r <=? 102).

(** The rest of a text after a prefix. *)
Definition after_prefix (p s : text) : option text :=
  if bool_decide (take (length p) s = p) then Some (drop (length p) s) else None.

Definition response_prefixes : list text := [txt "resp_gatemux_"; txt "resp_aiport_"].

Definition responseIDPattern (id : text) : bool :=
  existsb (fun p => match after_prefix p id with
                    | Some rest => (length rest =? 32)%nat && forallb hex_rune rest
                    | None => false
                    end) response_prefixes.

Definition id_rune (r : Z) : bool :=
  (65 <=? r) && (r <=? 90) || (97 <=? r) && (r <=? 122) || (48 <=? r) && (r <=? 57) || (r =? 95) || (r =? 45).

Definition upstreamResponseIDPattern (id : text) : bool :=
  (1 <=? length id)%nat && (length id <=? 256)%nat && forallb id_rune id.

(** [hex.EncodeToString] *)
Definition hex_byte (b : Z) : text := [hexdigit (b / 16); hexdigit (b mod 16)].

(** The random bytes, when there are any. *)
Definition newResponseID (value : option (list Z)) : option text :=
  option_map (fun bytes => txt "resp_gatemux_" ++ (bytes ≫= hex_byte)) value.

Section Owner.
(** The digest of the name of a token's key, in hexadecimal. *)
Variable digest : string -> string.

(** A key, the owner of a session, or the name of a token. *)
Definition responseOwner (key : option VirtualKey) (user : option User) : string :=
  let by_key := key ≫= fun k => if 0 <? vk_ID k then Some ("key:" +:+ pretty (vk_ID k)) else None in
  let by_user := user ≫= fun u => if 0 <? us_ID u then Some ("user:" +:+ pretty (us_ID u)) else None in
  let by_token := key ≫= fun k => if HasPrefix (vk_Name k) "jwt:" then Some ("jwt:" +:+ digest (vk_Name k)) else None in
  default "" (match by_key with Some o => Some o | None => match by_user with Some o => Some o | None => by_token end end).
End Owner.

(** ** Requests *)

Record responseRequest := mkResponseRequest {
  rr_Model : text;
  rr_Input : option raw;
  rr_Instructions : text;
  rr_Stream : bool;
  rr_Store : option bool;
  rr_Background : bool;
  rr_PreviousID : text;
  rr_MaxOutputTokens : option Z;
  rr_User : text;
  rr_raw : option (gmap text raw);
}.

Definition no_request : responseRequest := mkResponseRequest [] None [] false None false [] None [] None.

Definition set_response_request (k : text) (v : raw) (r : responseRequest) : option responseRequest :=
  let '(mkResponseRequest mo inp ins st sto bg prev mx us rw) := r in
  if is_key "model" k then x ← into_string v mo; Some (mkResponseRequest x inp ins st sto bg prev mx us rw)
  else if is_key "input" k then Some (mkResponseRequest mo (Some v) ins st sto bg prev mx us rw)
  else if is_key "instructions" k then x ← into_string v ins; Some (mkResponseRequest mo inp x st sto bg prev mx us rw)
  else if is_key "stream" k then x ← into_bool v st; Some (mkResponseRequest mo inp ins x sto bg prev mx us rw)
  else if is_key "store" k then x ← into_ptr into_bool false v sto; Some (mkResponseRequest mo inp ins st x bg prev mx us rw)
  else if is_key "background" k then x ← into_bool v bg; Some (mkResponseRequest mo inp ins st sto x prev mx us rw)
  else if is_key "previous_response_id" k then x ← into_string v prev; Some (mkResponseRequest mo inp ins st sto bg x mx us rw)
  else if is_key "max_output_tokens" k then x ← into_ptr into_int 0 v mx; Some (mkResponseRequest mo inp ins st sto bg prev x us rw)
  else if is_key "user" k then x ← into_string v us; Some (mkResponseRequest mo inp ins st sto bg prev mx x rw)
  else Some r.

Definition set_rr_raw (m : option (gmap text raw)) (r : responseRequest) : responseRequest :=
  mkResponseRequest (rr_Model r) (rr_Input r) (rr_Instructions r) (rr_Stream r) (rr_Store r) (rr_Background r) (rr_PreviousID r)
    (rr_MaxOutputTokens r) (rr_User r) m.

(** [len(value) > 0 && string(value) != "null"] *)
Definition present (v : option raw) : option raw := match v with Some JNull => None | _ => v end.

Definition resource_keys : list text := [txt "file_id"; txt "vector_store_ids"; txt "container_id"].

Definition is_item_reference {N} (v : option (json N)) : bool :=
  match v with Some (JStr s) => bool_decide (s = txt "item_reference") | _ => false end.

(** [validateResponseItems] at the depth [33 - levels]: an error is [false]. The
    members are those of the Go map, where the last one of a name stays. *)
Fixpoint validateResponseItems {N} (levels : nat) (v : json N) : bool :=
  match levels with
  | O => false
  | S levels =>
      match v with
      | JObj m =>
          let m := to_map m in
          negb (is_item_reference (m !! txt "type")) &&
          forallb (fun kv => negb (bool_decide (kv.1 ∈ resource_keys)) && validateResponseItems levels kv.2) (map_to_list m)
      | JArr l => forallb (validateResponseItems levels) l
      | _ => true
      end
  end.

(** The type of a tool. *)
Definition set_tool (k : text) (v : raw) (t : text) : option text := if is_key "type" k then into_string v t else Some t.

Definition client_tools (v : raw) : option bool :=
  tools ← into_slice (into_struct set_tool) [] v None;
  Some (forallb (fun t => bool_decide (t ∈ [txt "function"; txt "custom"])) (default [] tools)).

Section Decode.
Context {F : Type} (parse_float : string -> option F).

Definition nonempty_input (v : json F) : bool :=
  match v with JStr (_ :: _) | JArr (_ :: _) => true | _ => false end.

(** [decodeResponseRequest]: every error is an invalid request. *)
Definition decodeResponseRequest (body : raw) : option responseRequest :=
  r ← into_struct set_response_request body no_request;
  m ← into_raw body;
  let r := set_rr_raw m r in
  input ← present (rr_Input r) ≫= to_any parse_float;
  let model := utf8_string (rr_Model r) in
  if (model =? "")%string || negb (TrimSpace model =? model)%string then None
  else if negb (nonempty_input input) then None
  else if match rr_MaxOutputTokens r with Some n => (n <=? 0) || (1000000 <? n) | None => false end then None
  else if rr_Background r then None
  else if existsb (fun f => bool_decide (is_Some (present (field m f)))) ["conversation"; "prompt"] then None
  else if negb (bool_decide (rr_PreviousID r = [])) && negb (responseIDPattern (rr_PreviousID r)) then None
  else if negb (validateResponseItems 33 input) then None
  else match present (field m "tools") with
       | None => Some r
       | Some v => match client_tools v with Some true => Some r | _ => None end
       end.
End Decode.

(** The body for a deployment. *)
Definition encoded (r : responseRequest) (model previous : text) : raw :=
  let m := putJSON "model" (jstr model) (default ∅ (rr_raw r)) in
  let m := match rr_MaxOutputTokens r with None => putJSON "max_output_tokens" (JNum "1024") m | Some _ => m end in
  marshal_map (if bool_decide (previous = []) then m else putJSON "previous_response_id" (jstr previous) m).

(** ** Bindings *)

Record ResponseBinding := mkResponseBinding {
  rb_ID : text;
  rb_TeamID : Z;
  rb_Owner : string;
  rb_CustomerExternalID : string;
  rb_Alias : text;
  rb_Deployment : string;
  rb_TargetFingerprint : string;
  rb_UpstreamID : text;
  rb_PreviousID : text;
  rb_Status : text;
  rb_TotalTokens : Z;
}.

(** What a response changes of its binding. *)
Definition set_outcome (upstream status : text) (tokens : Z) (b : ResponseBinding) : ResponseBinding :=
  mkResponseBinding (rb_ID b) (rb_TeamID b) (rb_Owner b) (rb_CustomerExternalID b) (rb_Alias b) (rb_Deployment b)
    (rb_TargetFingerprint b) upstream (rb_PreviousID b) status tokens.

(** [estimate]: the length of the marshalled request is an argument. *)
Definition estimate (len : Z) (r : responseRequest) (previous : option ResponseBinding) : option (Z * Z) :=
  let prompt := (len +w 3) /g 4 in
  prompt ← match previous with
           | Some b => if MaxInt64 -w prompt <? rb_TotalTokens b then None else Some (prompt +w rb_TotalTokens b)
           | None => Some prompt
           end;
  let completion := default 1024 (rr_MaxOutputTokens r) in
  if MaxInt64 -w completion <? prompt then None else Some (prompt, completion).

(** ** Answers *)

Record responseEnvelope := mkResponseEnvelope {
  en_ID : text;
  en_Object : text;
  en_Status : text;
  en_Model : text;
  en_Usage : option ResponseUsage;
}.

Definition no_response_usage : ResponseUsage := mkResponseUsage false false 0 0 0 None None.

Definition set_envelope (k : text) (v : raw) (e : responseEnvelope) : option responseEnvelope :=
  let '(mkResponseEnvelope id ob st mo us) := e in
  if is_key "id" k then x ← into_string v id; Some (mkResponseEnvelope x ob st mo us)
  else if is_key "object" k then x ← into_string v ob; Some (mkResponseEnvelope id x st mo us)
  else if is_key "status" k then x ← into_string v st; Some (mkResponseEnvelope id ob x mo us)
  else if is_key "model" k then x ← into_string v mo; Some (mkResponseEnvelope id ob st x us)
  else if is_key "usage" k
  then x ← into_ptr (fun v _ => ResponseUsage_UnmarshalJSON v) no_response_usage v us; Some (mkResponseEnvelope id ob st mo x)
  else Some e.

Definition decode_envelope (body : raw) : option responseEnvelope :=
  into_struct set_envelope body (mkResponseEnvelope [] [] [] [] None).

(** The tokens of a response, when its counts add up to a machine integer. *)
Definition usage_total (u : option ResponseUsage) (old : Z) : option Z :=
  match u with
  | None => Some old
  | Some u =>
      let c := ResponseUsage_Canonical u in
      if (PromptTokens c <? 0) || (CompletionTokens c <? 0) || (MaxInt64 -w CompletionTokens c <? PromptTokens c) then None
      else Some (PromptTokens c +w CompletionTokens c)
  end.

(** The identifiers the client sees. *)
Definition gateway_view (b : ResponseBinding) (m : gmap text raw) : gmap text raw :=
  putJSON "previous_response_id" (if bool_decide (rb_PreviousID b = []) then JNull else jstr (rb_PreviousID b))
    (putJSON "model" (jstr (rb_Alias b)) (putJSON "id" (jstr (rb_ID b)) m)).

(** [rewriteResponse]: the binding, which is changed in place, and the body. *)
Definition rewriteResponse (body : raw) (b : ResponseBinding) : ResponseBinding * option (raw * responseEnvelope) :=
  match decode_envelope body with
  | None => (b, None)
  | Some e =>
      if negb (bool_decide (en_Object e = txt "response")) || negb (upstreamResponseIDPattern (en_ID e)) then (b, None)
      else if negb (bool_decide (rb_UpstreamID b = [])) && negb (bool_decide (rb_UpstreamID b = en_ID e)) then (b, None)
      else match into_raw body with
           | None => (b, None)
           | Some m =>
               let b := set_outcome (en_ID e) (en_Status e) (rb_TotalTokens b) b in
               match usage_total (en_Usage e) (rb_TotalTokens b) with
               | None => (b, None)
               | Some tokens =>
                   let b := set_outcome (en_ID e) (en_Status e) tokens b in
                   (b, Some (marshal_map (gateway_view b (default ∅ m)), e))
               end
           end
  end.

(** ** The table *)

(** Rows with the instant they expire. *)
Abbreviation response_table := (gmap text (ResponseBinding * Z)).

Definition response_retention : Z := 30 * 24 * Hour.

Definition owned (teamID : Z) (owner : string) (b : ResponseBinding) : bool :=
  (rb_TeamID b =? teamID) && (rb_Owner b =? owner)%string.

(** The insert fails on a duplicate, a missing team or a negative total. *)
Definition CreateResponseBinding (now : Z) (team_exists : bool) (b : ResponseBinding) (t : response_table) : option response_table :=
  if bool_decide (is_Some (t !! rb_ID b)) || negb team_exists || (rb_TotalTokens b <? 0) then None
  else Some (<[rb_ID b := (b, now + response_retention)]> t).

Definition GetResponseBinding (now teamID : Z) (owner : string) (id : text) (t : response_table) : option ResponseBinding :=
  '(b, expires) ← t !! id; if owned teamID owner b && (now <? expires) then Some b else None.

(** The rows the update matches: [None] when there is none or the check fails. *)
Definition UpdateResponseBinding (b : ResponseBinding) (t : response_table) : option response_table :=
  '(old, expires) ← t !! rb_ID b;
  if owned (rb_TeamID b) (rb_Owner b) old && (bool_decide (rb_UpstreamID old = []) || bool_decide (rb_UpstreamID old = rb_UpstreamID b))
     && negb (rb_TotalTokens b <? 0)
  then Some (<[rb_ID b := (set_outcome (rb_UpstreamID b) (rb_Status b) (rb_TotalTokens b) old, expires)]> t) else None.

Definition DeleteResponseBinding (teamID : Z) (owner : string) (id : text) (t : response_table) : response_table :=
  match t !! id with
  | Some (b, _) => if owned teamID owner b then delete id t else t
  | None => t
  end.

Definition expiry_le (a b : text * (ResponseBinding * Z)) : Prop := a.2.2 <= b.2.2.
#[export] Instance expiry_le_dec : RelDecision expiry_le.
Proof. intros a b. unfold expiry_le. apply _. Defined.

Definition prune_limit : nat := 1000.

(** The rows one pass removes: the first that expired. *)
Definition expired (now : Z) (t : response_table) : list (text * (ResponseBinding * Z)) :=
  merge_sort expiry_le (map_to_list (filter (fun kv : text * (ResponseBinding * Z) => kv.2.2 < now) t)).

Definition PruneResponseBindings (now : Z) (t : response_table) : response_table :=
  foldr (fun kv => delete kv.1) t (take prune_limit (expired now t)).

(** ** What is forwarded is what was checked *)

(** No member's name differs from [name] in case only. *)
Definition plain_key (name : string) (l : list (text * raw)) : Prop :=
  forall k v, (k, v) ∈ l -> is_key name k = true -> k = txt name.

Definition plain_keyb (name : string) (l : list (text * raw)) : bool :=
  forallb (fun kv => negb (is_key name kv.1) || bool_decide (kv.1 = txt name)) l.

Lemma plain_keyb_sound name l : plain_keyb name l = true -> plain_key name l.
Proof.
  intros Hb k v Hin%list_elem_of_In Hk. unfold plain_keyb in Hb. rewrite forallb_forall in Hb. specialize (Hb _ Hin). cbn in Hb.
  rewrite Hk in Hb. by apply bool_decide_eq_true in Hb.
Qed.

Abbreviation assigned l := (foldl (fun acc kv => a ← acc; set_response_request kv.1 kv.2 a) (Some no_request) l).

(** A relation between the request and the last member of a name that every
    assignment keeps. *)
Lemma plain_fold (P : responseRequest -> option raw -> Prop) name :
  P no_request None ->
  (forall r r' v o, P r o -> set_response_request (txt name) v r = Some r' -> P r' (Some v)) ->
  (forall k r r' v o, is_key name k = false -> P r o -> set_response_request k v r = Some r' -> P r' o) ->
  forall l r, plain_key name l -> assigned l = Some r -> P r (to_map l !! txt name).
Proof.
  intros H0 Hsame Hother l. induction l as [| [k v] l IH] using rev_ind; intros r Hp; [by intros [= <-] |].
  unfold to_map. rewrite !foldl_app. cbn [foldl fst snd].
  destruct (assigned l) as [r0|] eqn:E; cbn [mbind option_bind]; [| done]. intros Hs.
  assert (P r0 (to_map l !! txt name)) as H1.
  { apply IH; [| done]. intros k' v' Hin. apply (Hp k' v'). apply elem_of_app. by left. }
  destruct (is_key name k) eqn:Ek.
  - assert (k = txt name) as -> by (apply (Hp k v); [apply elem_of_app; right; by apply list_elem_of_singleton | done]).
    rewrite lookup_insert_eq. by eapply Hsame.
  - rewrite lookup_insert_ne; [by eapply Hother |]. intros ->. unfold is_key in Ek. by rewrite bool_decide_true in Ek.
Qed.

(** Each assignment changes one field. *)
Ltac assignment E :=
  revert E; unfold set_response_request; cbn [mbind option_bind];
  repeat match goal with
  | |- (if is_key ?n ?k then _ else _) = _ -> _ =>
      let K := fresh "K" in destruct (is_key n k) eqn:K; lazy iota; [try congruence |]
  | |- (?d ≫= _) = _ -> _ => destruct d; cbn [mbind option_bind]
  end; intros [=]; subst; cbn in *; try done.

(** The assignment of a member with a known name. *)
Ltac named E :=
  unfold set_response_request in E; cbv beta iota in E;
  repeat match type of E with
  | context [is_key ?n ?k] => let b := eval vm_compute in (is_key n k) in change (is_key n k) with b in E; cbv iota in E
  end.

Lemma input_plain l r : plain_key "input" l -> assigned l = Some r -> rr_Input r = to_map l !! txt "input".
Proof.
  apply (plain_fold (fun r o => rr_Input r = o)); [done | |].
  - intros [] r' v o _ E. named E. by injection E as <-.
  - intros k [] r' v o Hk Ho E. assignment E.
Qed.

Lemma background_plain l r :
  plain_key "background" l -> assigned l = Some r -> rr_Background r = false -> to_map l !! txt "background" <> Some (JBool true).
Proof.
  intros Hp Ha Hb E. revert Hb. apply not_false_iff_true.
  revert E. apply (plain_fold (fun r o => o = Some (JBool true) -> rr_Background r = true)) with (l := l); [done | | | done | done].
  - intros [] r' v o _ E [= ->]. named E. cbn in E. by injection E as <-.
  - intros k [] r' v o Hk Ho E. assignment E.
Qed.

Lemma previous_plain l r :
  plain_key "previous_response_id" l -> assigned l = Some r -> rr_PreviousID r = [] ->
  to_map l !! txt "previous_response_id" ∈ [None; Some JNull; Some (JStr [])].
Proof.
  apply (plain_fold (fun r o => rr_PreviousID r = [] -> o ∈ [None; Some JNull; Some (JStr [])])).
  - intros _. by left.
  - intros [] r' v o _ E. named E. destruct v; cbn in E; try discriminate E; injection E as <-; cbn.
    + intros _. right. by left.
    + intros ->. do 2 right. by left.
  - intros k [] r' v o Hk Ho E. assignment E.
Qed.

Lemma output_plain l r :
  plain_key "max_output_tokens" l -> assigned l = Some r ->
  match rr_MaxOutputTokens r with
  | Some n => exists lit, to_map l !! txt "max_output_tokens" = Some (JNum lit) /\ parse_int lit = Some n
  | None => True
  end.
Proof.
  apply (plain_fold (fun r o => match rr_MaxOutputTokens r with Some n => exists lit, o = Some (JNum lit) /\ parse_int lit = Some n | None => True end)).
  - done.
  - intros [] r' v o _ E. named E. destruct v; cbn in E; try discriminate E; [by injection E as <- |].
    destruct (parse_int n) eqn:Ep; [| done]. injection E as <-. cbn. eauto.
  - intros k [] r' v o Hk Ho E. assignment E.
Qed.

(** What a decoded request satisfies. *)
Lemma decode_checks {F} (parse_float : string -> option F) l r :
  decodeResponseRequest parse_float (JObj l) = Some r ->
  exists r0 input, assigned l = Some r0 /\ r = set_rr_raw (Some (to_map l)) r0 /\ present (rr_Input r0) ≫= to_any parse_float = Some input /\
    validateResponseItems 33 input = true /\ rr_Background r0 = false /\
    (forall n, rr_MaxOutputTokens r0 = Some n -> 1 <= n <= 1000000) /\
    (rr_PreviousID r0 = [] \/ responseIDPattern (rr_PreviousID r0) = true).
Proof.
  unfold decodeResponseRequest, into_struct. destruct (assigned l) as [r0|] eqn:E0; cbn [mbind option_bind into_raw]; [| done].
  cbn [set_rr_raw rr_Input rr_Model rr_MaxOutputTokens rr_Background rr_PreviousID].
  destruct (present (rr_Input r0) ≫= to_any parse_float) as [input|] eqn:Ei; cbn [mbind option_bind]; [| done].
  destruct (_ || _); [done |]. destruct (negb (nonempty_input input)); [done |].
  destruct (match rr_MaxOutputTokens r0 with Some n => _ | None => _ end) eqn:Em; [done |].
  destruct (rr_Background r0) eqn:Eb; [done |]. destruct (existsb _ _); [done |].
  destruct (_ && negb (responseIDPattern _)) eqn:Ep; [done |]. destruct (negb (validateResponseItems 33 input)) eqn:Ev; [done |].
  intros Hr. exists r0, input. split_and!; [done | | done | by apply negb_false_iff | done | |].
  - destruct (present (field _ _)) as [v|]; [destruct (client_tools v) as [[]|]; congruence | congruence].
  - intros n Hn. rewrite Hn in Em. lia.
  - apply andb_false_iff in Ep as [Hp | Hp]; apply negb_false_iff in Hp; [left; by apply bool_decide_eq_true in Hp | by right].
Qed.

Lemma lookup_encoded r model previous k :
  k <> txt "model" -> k <> txt "max_output_tokens" -> k <> txt "previous_response_id" ->
  exists m, encoded r model previous = marshal_map m /\ m !! txt "model" = Some (JStr model) /\ m !! k = default ∅ (rr_raw r) !! k /\
    m !! txt "max_output_tokens" =
      (if rr_MaxOutputTokens r is Some _ then default ∅ (rr_raw r) !! txt "max_output_tokens" else Some (JNum "1024")) /\
    m !! txt "previous_response_id" =
      if bool_decide (previous = []) then default ∅ (rr_raw r) !! txt "previous_response_id" else Some (JStr previous).
Proof.
  intros Hm Ho Hp. unfold encoded, putJSON. eexists. split; [reflexivity |].
  assert (txt "model" <> txt "max_output_tokens") by (intros E; by vm_compute in E).
  assert (txt "model" <> txt "previous_response_id") by (intros E; by vm_compute in E).
  assert (txt "max_output_tokens" <> txt "previous_response_id") by (intros E; by vm_compute in E).
  destruct (bool_decide (previous = [])), (rr_MaxOutputTokens r);
    repeat (rewrite lookup_insert_eq || rewrite lookup_insert_ne by done); done.
Qed.

(** Only an object decodes: a null leaves the struct without an input. *)
Lemma decoded_object {F} (parse_float : string -> option F) v r :
  decodeResponseRequest parse_float v = Some r -> exists l, v = JObj l.
Proof. destruct v; try done. by eexists. Qed.

(** The reference a provider gets. *)
Lemma encoded_reference {F} (parse_float : string -> option F) l r model previous :
  decodeResponseRequest parse_float (JObj l) = Some r -> plain_key "previous_response_id" l ->
  exists m, encoded r model previous = marshal_map m /\ m !! txt "model" = Some (JStr model) /\
    (if bool_decide (previous = [])
     then rr_PreviousID r = [] -> m !! txt "previous_response_id" ∈ [None; Some JNull; Some (JStr [])]
     else m !! txt "previous_response_id" = Some (JStr previous)).
Proof.
  intros (r0 & input & Ha & -> & _)%decode_checks Pp.
  destruct (lookup_encoded (set_rr_raw (Some (to_map l)) r0) model previous (txt "input")) as (m & Em & Hm & _ & _ & Hprev); [done.. |].
  exists m. split_and!; [done | done |]. rewrite Hprev. destruct (bool_decide (previous = [])); [| done]. intros Hn. by apply (previous_plain _ r0).
Qed.

(** The body a provider gets, when no member hides behind another case of a name. *)
Theorem forwarded_response_request_is_checked {F} (parse_float : string -> option F) (l : list (text * raw)) (r : responseRequest)
    (model previous : text) (Hd : decodeResponseRequest parse_float (JObj l) = Some r)
    (Hplain : Forall (fun name => plain_key name l) ["input"; "background"; "previous_response_id"; "max_output_tokens"]) :
  exists m, encoded r model previous = marshal_map m /\ m !! txt "model" = Some (JStr model) /\
    (exists v input, m !! txt "input" = Some v /\ to_any parse_float v = Some input /\ validateResponseItems 33 input = true) /\
    (exists lit, m !! txt "max_output_tokens" = Some (JNum lit) /\ parse_int lit = Some (default 1024 (rr_MaxOutputTokens r))) /\
    m !! txt "background" <> Some (JBool true) /\
    (if bool_decide (previous = [])
     then rr_PreviousID r = [] -> m !! txt "previous_response_id" ∈ [None; Some JNull; Some (JStr [])]
     else m !! txt "previous_response_id" = Some (JStr previous)).
Proof.
  apply decode_checks in Hd as (r0 & input & Ha & -> & Hi & Hv & Hb & _ & _).
  apply Forall_cons in Hplain as [Pi Hplain]. apply Forall_cons in Hplain as [Pb Hplain]. apply Forall_cons in Hplain as [Pp Hplain].
  apply Forall_cons in Hplain as [Po _].
  destruct (lookup_encoded (set_rr_raw (Some (to_map l)) r0) model previous (txt "input")) as (m & Em & Hm & Hin & Hout & Hprev); [done.. |].
  destruct (lookup_encoded (set_rr_raw (Some (to_map l)) r0) model previous (txt "background")) as (m' & Em' & _ & Hback & _); [done.. |].
  assert (m' = m) as -> by (rewrite Em in Em'; injection Em' as E; by rewrite <- (to_map_members m), <- (to_map_members m'), E).
  cbn in Hin, Hout, Hprev, Hback. exists m. split_and!; [done | done | | | |].
  - rewrite Hin, <- (input_plain _ _ Pi Ha). destruct (rr_Input r0) as [[]|]; cbn in Hi; try done; eauto.
  - rewrite Hout. pose proof (output_plain _ _ Po Ha) as Hx. cbn. destruct (rr_MaxOutputTokens r0) as [n|]; cbn; [done |].
    eexists. split; [done | by vm_compute].
  - rewrite Hback. by apply (background_plain _ r0).
  - rewrite Hprev. destruct (bool_decide (previous = [])); [| done]. intros Hn. by apply (previous_plain _ r0).
Qed.

(** A request whose members differ in case only is checked and forwarded apart: the
    struct the checks read keeps the last of them, the map that is forwarded
    keeps both, so a reference that was never checked for its owner reaches the
    provider, and so do inputs, output bounds and background mode. *)
Definition smuggled_body : raw :=
  JObj [(txt "model", JStr (txt "gpt")); (txt "input", JStr (txt "hello"));
        (txt "previous_response_id", JStr (txt "resp_of_somebody")); (txt "Previous_Response_ID", JStr [])].

Lemma previous_response_is_smuggled :
  let r := decodeResponseRequest (F := unit) (fun _ => Some tt) smuggled_body in
  option_map rr_PreviousID r = Some [] /\
  (r ← r; m ← into_raw (encoded r (txt "upstream") []); field m "previous_response_id") = Some (JStr (txt "resp_of_somebody")).
Proof. by vm_compute. Qed.

(** ** Identifiers of the client *)

Lemma hexdigit_hex n : 0 <= n < 16 -> hex_rune (hexdigit n) = true.
Proof. unfold hex_rune, hexdigit. intros Hn. destruct (Z.ltb_spec n 10); lia. Qed.

Lemma hex_bytes bytes :
  Forall (fun b => 0 <= b < 256) bytes ->
  length (bytes ≫= hex_byte) = (2 * length bytes)%nat /\ forallb hex_rune (bytes ≫= hex_byte) = true.
Proof.
  induction 1 as [| b bytes Hb _ [IHl IHf]]; [done |]. cbn. split; [cbn in IHl; lia |].
  rewrite !hexdigit_hex, IHf by (Z.to_euclidean_division_equations; lia). done.
Qed.

(** A fresh identifier can be referred to. *)
Lemma newResponseID_pattern bytes id :
  newResponseID (Some bytes) = Some id -> Forall (fun b => 0 <= b < 256) bytes -> length bytes = 16%nat -> responseIDPattern id = true.
Proof.
  unfold newResponseID. intros Hid%(inj Some) Hb Hl. cbn beta in Hid. subst id. destruct (hex_bytes bytes Hb) as [Hn Hf]. unfold responseIDPattern. apply existsb_exists.
  exists (txt "resp_gatemux_"). split; [by left |]. unfold after_prefix. rewrite take_app_length, drop_app_length, bool_decide_true by done.
  by rewrite Hn, Hf, Hl.
Qed.

(** What a rewriting leaves and sets. *)
Definition same_identity (b b' : ResponseBinding) : Prop :=
  rb_ID b' = rb_ID b /\ rb_TeamID b' = rb_TeamID b /\ rb_Owner b' = rb_Owner b /\
  rb_CustomerExternalID b' = rb_CustomerExternalID b /\ rb_Alias b' = rb_Alias b /\ rb_Deployment b' = rb_Deployment b /\
  rb_TargetFingerprint b' = rb_TargetFingerprint b /\ rb_PreviousID b' = rb_PreviousID b.

#[export] Instance same_identity_preorder : PreOrder same_identity.
Proof. split; [done |]. unfold same_identity. intros a b c. naive_solver congruence. Qed.

Definition with_upstream (b b' : ResponseBinding) : Prop := rb_UpstreamID b = [] \/ rb_UpstreamID b' = rb_UpstreamID b.

Lemma rewriteResponse_identity body b : same_identity b (rewriteResponse body b).1 /\ with_upstream b (rewriteResponse body b).1.
Proof.
  assert (same_identity b b /\ with_upstream b b) as Hb by (split; [done | by right]).
  unfold rewriteResponse. destruct (decode_envelope body) as [e|]; [| exact Hb].
  destruct (_ || _); [exact Hb |]. destruct (_ && _) eqn:Eu; [exact Hb |].
  destruct (into_raw body); [| exact Hb]. unfold with_upstream. apply andb_false_iff in Eu as [Hu | Hu]; apply negb_false_iff, bool_decide_eq_true in Hu;
    destruct (usage_total _ _); cbn; (split; [done | auto]).
Qed.

(** The counts of a decoded usage are machine integers. *)
Definition input_int64 (d : InputDetails) : Prop := int64_ok (id_CachedTokens d) /\ int64_ok (id_CacheWriteTokens d).
Definition counts_ok (u : ResponseUsage) : Prop :=
  int64_ok (ru_InputTokens u) /\ int64_ok (ru_OutputTokens u) /\ (forall d, ru_InputDetails u = Some d -> input_int64 d) /\
  (forall d, ru_OutputDetails u = Some d -> completion_int64 d).

Lemma no_counts_ok : counts_ok no_response_usage.
Proof. split_and!; [apply zero_int64_ok.. | done | done]. Qed.

Lemma input_details_int64 v old new :
  (forall d, old = Some d -> input_int64 d) -> into_ptr (into_struct set_input_details) (mkInputDetails 0 0) v old = Some new ->
  forall d, new = Some d -> input_int64 d.
Proof.
  apply into_ptr_keeps; [| split; apply zero_int64_ok]. intros v' a a'. apply into_struct_keeps.
  intros k v0 b b' [Hc Hw] E. unfold set_input_details in E. fits E; try done; split; cbn; first [done | int_fits].
Qed.

Lemma set_response_usage_ok k v u u' : counts_ok u -> set_response_usage k v u = Some u' -> counts_ok u'.
Proof.
  destruct u as [d r i o t id od]. intros (Hi & Ho & Hd & Hc) E. cbn in Hi, Ho, Hd, Hc. unfold set_response_usage in E.
  fits E; split_and!; cbn; try done.
  - exact (into_int_ok _ _ _ Hi H0).
  - exact (into_int_ok _ _ _ Ho H0).
  - by eapply input_details_int64.
  - by eapply completion_details_int64.
Qed.

Lemma envelope_counts body e : decode_envelope body = Some e -> forall u, en_Usage e = Some u -> counts_ok u.
Proof.
  unfold decode_envelope. apply (into_struct_keeps (fun e => forall u, en_Usage e = Some u -> counts_ok u)); [| done].
  intros k v [id ob st mo us] e' He E. unfold set_envelope in E. fits E; cbn in *; try done.
  eapply into_ptr_keeps; [| apply no_counts_ok | exact He | eassumption]. intros v' a u _. unfold ResponseUsage_UnmarshalJSON.
  destruct (into_struct set_response_usage _ _) as [u0|] eqn:E0; [| done]. intros [= <-].
  exact (into_struct_keeps counts_ok _ _ _ _ set_response_usage_ok no_counts_ok E0).
Qed.

(** What a response costs is computed from machine integers. *)
Lemma canonical_int64 u : counts_ok u -> usage_int64 (ResponseUsage_Canonical u).
Proof.
  intros (Hi & Ho & Hd & Hc). apply usage_int64_details. unfold ResponseUsage_Canonical. pose proof zero_int64_ok.
  destruct (ru_InputDetails u) as [d|]; cbn; [destruct (Hd d eq_refl) |]; split_and!; try done. by intros ? [= <-].
Qed.

(** The sum of the counts does not wrap. *)
Lemma usage_total_range e old tokens :
  int64_ok old -> 0 <= old -> usage_total e old = Some tokens ->
  (forall u, e = Some u -> counts_ok u) ->
  0 <= tokens /\ int64_ok tokens /\ (forall u, e = Some u -> tokens = ru_InputTokens u + ru_OutputTokens u).
Proof.
  intros Ho H0. unfold usage_total. destruct e as [u|]; [| intros [= <-]; done].
  assert (PromptTokens (ResponseUsage_Canonical u) = ru_InputTokens u /\ CompletionTokens (ResponseUsage_Canonical u) = ru_OutputTokens u)
    as [-> ->] by (unfold ResponseUsage_Canonical; by destruct (ru_InputDetails u)).
  destruct (_ || _) eqn:E; [done |]. intros [= <-] Hu. destruct (Hu u eq_refl) as (Hi & Hc & _).
  assert (0 <= ru_InputTokens u + ru_OutputTokens u <= MaxInt64) as Hs.
  { rewrite !orb_false_iff in E. destruct E as [[E1 E2] E3]. rewrite wrap64_id in E3 by (unfold int64_ok, MinInt64, MaxInt64 in *; lia). lia. }
  rewrite wrap64_id by int64_lia. split_and!; [lia | int64_lia |]. by intros ? [= <-].
Qed.

(** A row that may be stored: a name at the provider and a total that is not
    negative. *)
Definition binding_ok (b : ResponseBinding) : Prop :=
  upstreamResponseIDPattern (rb_UpstreamID b) = true /\ 0 <= rb_TotalTokens b /\ int64_ok (rb_TotalTokens b).

(** The answer the client gets carries the gateway's identifiers and is the
    provider's otherwise, and the binding counts what the provider reported. *)
Theorem rewritten_response_is_the_gateways (body out : raw) (b b' : ResponseBinding) (e : responseEnvelope)
    (H0 : 0 <= rb_TotalTokens b) (Hi : int64_ok (rb_TotalTokens b)) (E : rewriteResponse body b = (b', Some (out, e))) :
  binding_ok b' /\ rb_UpstreamID b' = en_ID e /\ rb_Status b' = en_Status e /\
  (forall u, en_Usage e = Some u -> rb_TotalTokens b' = ru_InputTokens u + ru_OutputTokens u) /\
  exists l m, body = JObj l /\ out = marshal_map m /\ m !! txt "id" = Some (JStr (rb_ID b)) /\ m !! txt "model" = Some (JStr (rb_Alias b)) /\
    m !! txt "previous_response_id" = Some (if bool_decide (rb_PreviousID b = []) then JNull else JStr (rb_PreviousID b)) /\
    forall k, k ∉ [txt "id"; txt "model"; txt "previous_response_id"] -> m !! k = to_map l !! k.
Proof.
  revert E. unfold rewriteResponse. destruct (decode_envelope body) as [e0|] eqn:Ee; [| done].
  destruct (_ || _) eqn:Eo; [done |]. apply orb_false_iff in Eo as [_ Hp]. apply negb_false_iff in Hp.
  destruct (_ && _); [done |]. destruct (into_raw body) as [m|] eqn:Em; [| done]. cbn [rb_TotalTokens set_outcome].
  destruct (usage_total _ _) as [tokens|] eqn:Et; [| done]. intros [= <- <- <-].
  destruct (usage_total_range _ _ _ Hi H0 Et (envelope_counts _ _ Ee)) as (Ht & Hti & Htu).
  split_and!; [done | done | done | done |].
  destruct body as [| | | | | l]; try done.
  { exfalso. injection Ee as <-. by vm_compute in Hp. }
  injection Em as <-. cbn [default from_option id]. unfold gateway_view, putJSON. cbn [rb_ID rb_Alias rb_PreviousID set_outcome]. exists l. eexists.
  assert (txt "model" <> txt "id") by (intros Ex; by vm_compute in Ex).
  assert (txt "previous_response_id" <> txt "id") by (intros Ex; by vm_compute in Ex).
  assert (txt "previous_response_id" <> txt "model") by (intros Ex; by vm_compute in Ex).
  split_and!; [done | done | | | |]; repeat (rewrite lookup_insert_eq || rewrite lookup_insert_ne by done); [done | done | |].
  - by destruct (bool_decide _).
  - intros k Hk. rewrite !lookup_insert_ne; [done | | |]; intros <-; apply Hk; set_solver.
Qed.

Lemma rewritten_counts body b b' out e u :
  rewriteResponse body b = (b', Some (out, e)) -> en_Usage e = Some u -> counts_ok u.
Proof.
  unfold rewriteResponse. destruct (decode_envelope body) as [e0|] eqn:Ee; [| done]. destruct (_ || _); [done |]. destruct (_ && _); [done |].
  destruct (into_raw body); [| done]. destruct (usage_total _ _); [| done]. intros [= _ _ <-]. by eapply envelope_counts.
Qed.

(** ** The table over time *)

(** What the gateway's replicas do to the table: the handlers store and update
    bindings whose responses they rewrote, and the retention removes rows. *)
Inductive binding_step : response_table -> response_table -> Prop :=
| bs_create now team b t t' : binding_ok b -> CreateResponseBinding now team b t = Some t' -> binding_step t t'
| bs_update b t t' : binding_ok b -> UpdateResponseBinding b t = Some t' -> binding_step t t'
| bs_delete team owner id t : binding_step t (DeleteResponseBinding team owner id t)
| bs_prune now t : binding_step t (PruneResponseBindings now t).

Definition table_ok (t : response_table) : Prop := forall id b e, t !! id = Some (b, e) -> rb_ID b = id /\ binding_ok b.

Lemma lookup_deletes (l : list (text * (ResponseBinding * Z))) (t : response_table) id :
  foldr (fun kv => delete kv.1) t l !! id = if bool_decide (id ∈ l.*1) then None else t !! id.
Proof.
  induction l as [| [k v] l IH]; [done |]. cbn [foldr fmap list_fmap fst]. rewrite lookup_delete, IH.
  destruct (decide (k = id)) as [-> |]; [by rewrite bool_decide_true by set_solver |].
  apply (f_equal2 (fun c (x : option (ResponseBinding * Z)) => if c : bool then None else x)); [| done].
  apply bool_decide_ext. set_solver.
Qed.

Lemma elem_of_expired now t id b e : (id, (b, e)) ∈ expired now t <-> t !! id = Some (b, e) /\ e < now.
Proof.
  unfold expired. rewrite merge_sort_Permutation, elem_of_map_to_list, map_lookup_filter_Some. done.
Qed.

Lemma pruned now t id : PruneResponseBindings now t !! id = t !! id \/
  PruneResponseBindings now t !! id = None /\ exists b e, t !! id = Some (b, e) /\ e < now.
Proof.
  unfold PruneResponseBindings. rewrite lookup_deletes. case_bool_decide as H; [right | by left]. split; [done |].
  apply list_elem_of_fmap in H as ([k [b e]] & -> & Hin). exists b, e. apply elem_of_expired.
  eapply elem_of_submseteq; [exact Hin |]. apply sublist_submseteq, sublist_take.
Qed.

(** A row keeps its owner, its deployment and its name at the provider for as long
    as it exists. *)
Lemma binding_step_stable t t' id b e :
  binding_step t t' -> table_ok t -> t !! id = Some (b, e) ->
  t' !! id = None \/ exists b', t' !! id = Some (b', e) /\ same_identity b b' /\ rb_UpstreamID b' = rb_UpstreamID b.
Proof.
  intros Hs Ht Hb. assert (exists b', Some (b, e) = Some (b', e) /\ same_identity b b' /\ rb_UpstreamID b' = rb_UpstreamID b) as Hself
    by (exists b; split_and!; done).
  destruct Hs as [now team c t t' Hc E | c t t' Hc E | team owner id' t | now t].
  - revert E. unfold CreateResponseBinding. destruct (_ || _ || _) eqn:Eo; [done |]. intros [= <-]. right.
    rewrite !orb_false_iff, bool_decide_eq_false in Eo. destruct Eo as [[Eo _] _].
    rewrite lookup_insert_ne; [by rewrite Hb |]. intros Ei. apply Eo. rewrite Ei. eauto.
  - revert E. unfold UpdateResponseBinding. destruct (t !! rb_ID c) as [[old x]|] eqn:Eo; [| done]. cbn [mbind option_bind].
    destruct (_ && _ && _) eqn:Ec; [| done]. intros [= <-]. right.
    destruct (decide (rb_ID c = id)) as [<- |]; [| by rewrite lookup_insert_ne, Hb by done].
    rewrite Hb in Eo. injection Eo as <- <-. rewrite lookup_insert_eq. eexists. split_and!; [done | done |]. cbn.
    apply andb_true_iff in Ec as [[_ Hu]%andb_true_iff _].
    destruct (Ht _ _ _ Hb) as (_ & Hpat & _). apply orb_true_iff in Hu as [Hu | Hu]; apply bool_decide_eq_true in Hu; [| done].
    rewrite Hu in Hpat. by vm_compute in Hpat.
  - unfold DeleteResponseBinding. destruct (t !! id') as [[c x]|] eqn:Ec; [| right; by rewrite Hb].
    destruct (owned team owner c); [| right; by rewrite Hb].
    rewrite lookup_delete. destruct (decide (id' = id)); [by left | right; by rewrite Hb].
  - destruct (pruned now t id) as [-> | [-> _]]; [right; by rewrite Hb | by left].
Qed.

Lemma binding_step_ok t t' : binding_step t t' -> table_ok t -> table_ok t'.
Proof.
  intros Hs Ht id b e Hb. destruct Hs as [now team c t t' Hc E | c t t' Hc E | team owner id' t | now t].
  - revert E. unfold CreateResponseBinding. destruct (_ || _ || _); [done |]. intros [= <-].
    destruct (decide (rb_ID c = id)) as [<- |]; [rewrite lookup_insert_eq in Hb; by injection Hb as <- <- |].
    rewrite lookup_insert_ne in Hb by done. eauto.
  - revert E. unfold UpdateResponseBinding. destruct (t !! rb_ID c) as [[old x]|] eqn:Eo; [| done]. cbn [mbind option_bind].
    destruct (_ && _ && _); [| done]. intros [= <-].
    destruct (decide (rb_ID c = id)) as [<- |]; [| rewrite lookup_insert_ne in Hb by done; eauto].
    rewrite lookup_insert_eq in Hb. injection Hb as <- <-. destruct (Ht _ _ _ Eo) as [Ei _]. done.
  - revert Hb. unfold DeleteResponseBinding. destruct (t !! id') as [[c x]|]; [| eauto].
    destruct (owned team owner c); [| eauto]. rewrite lookup_delete. destruct (decide _); [done | eauto].
  - destruct (pruned now t id) as [Ep | [Ep _]]; rewrite Ep in Hb; [eauto | done].
Qed.

Lemma reachable_table t : rtc binding_step ∅ t -> table_ok t.
Proof. apply (rtc_ind_r table_ok); [by intros ??? | intros; by eapply binding_step_ok]. Qed.

(** Every history of the table. *)
Theorem bindings_keep_their_owner (t t' : response_table) (id : text) (Hs : rtc binding_step ∅ t) (Hs' : binding_step t t') :
  table_ok t' /\
  forall b e, t !! id = Some (b, e) ->
    t' !! id = None \/ exists b', t' !! id = Some (b', e) /\ same_identity b b' /\ rb_UpstreamID b' = rb_UpstreamID b.
Proof.
  apply reachable_table in Hs as Ht. split; [by eapply binding_step_ok |]. intros b e. by apply binding_step_stable.
Qed.

(** The retention is not seen: a row it removes was refused before. *)
Lemma pruning_is_invisible now now' t team owner id :
  now <= now' -> GetResponseBinding now' team owner id (PruneResponseBindings now t) = GetResponseBinding now' team owner id t.
Proof.
  intros Hn. unfold GetResponseBinding. destruct (pruned now t id) as [-> | [-> (b & e & -> & He)]]; [done |]. cbn.
  destruct (Z.ltb_spec now' e); [lia | by rewrite andb_false_r].
Qed.

(** A pass removes as many rows as it may. *)
Lemma pruning_progress now t :
  size (PruneResponseBindings now t) = (size t - min prune_limit (length (expired now t)))%nat.
Proof.
  unfold PruneResponseBindings.
  assert (forall l : list (text * (ResponseBinding * Z)), NoDup (l.*1) -> (forall kv, kv ∈ l -> is_Some (t !! kv.1)) ->
    size (foldr (fun kv => delete kv.1) t l) = (size t - length l)%nat) as Hd.
  { induction l as [| kv l IH]; intros Hn Hin; [cbn; lia |]. cbn [foldr length]. apply NoDup_cons in Hn as [Hk Hn].
    rewrite map_size_delete_Some; [rewrite IH; [lia | done | intros; apply Hin; by right] |].
    rewrite lookup_deletes, bool_decide_false by done. apply Hin. by left. }
  rewrite Hd; [by rewrite length_take | |].
  - eapply sublist_NoDup; [| apply fmap_sublist, sublist_take]. unfold expired. rewrite merge_sort_Permutation. apply NoDup_fst_map_to_list.
  - intros [k [b e]] Hin. cbn [fst]. assert ((k, (b, e)) ∈ expired now t) as [-> _]%elem_of_expired; [| by eexists].
    eapply elem_of_submseteq; [exact Hin |]. apply sublist_submseteq, sublist_take.
Qed.

(** The estimate counts the body, the history and the output bound, and fits. *)
Lemma estimate_range len r previous prompt completion :
  0 <= len < 2 ^ 60 -> (forall b, previous = Some b -> 0 <= rb_TotalTokens b /\ int64_ok (rb_TotalTokens b)) ->
  (forall n, rr_MaxOutputTokens r = Some n -> 1 <= n <= 1000000) -> estimate len r previous = Some (prompt, completion) ->
  prompt = (len + 3) / 4 + match previous with Some b => rb_TotalTokens b | None => 0 end /\
  completion = default 1024 (rr_MaxOutputTokens r) /\ int64_ok prompt /\ int64_ok completion /\ prompt + completion <= MaxInt64.
Proof.
  intros Hl Hp Hm. unfold estimate.
  assert ((len +w 3) /g 4 = (len + 3) / 4) as -> by (rewrite wrap64_id by int64_lia; apply Z.quot_div_nonneg; lia).
  assert (0 <= (len + 3) / 4 < 2 ^ 59) as Hq by (Z.to_euclidean_division_equations; lia).
  set (q := (len + 3) / 4) in *. assert (1 <= default 1024 (rr_MaxOutputTokens r) <= 1000000) as Hc.
  { destruct (rr_MaxOutputTokens r) as [n|]; cbn; [by apply Hm | lia]. }
  destruct previous as [b|]; cbn [mbind option_bind].
  - destruct (Hp b eq_refl) as [H0 Hi]. rewrite (wrap64_id (MaxInt64 - q)) by int64_lia.
    destruct (Z.ltb_spec (MaxInt64 - q) (rb_TotalTokens b)); cbn; [done |]. rewrite (wrap64_id (q + _)) by int64_lia.
    rewrite (wrap64_id (MaxInt64 - _)) by int64_lia. destruct (Z.ltb_spec (MaxInt64 - default 1024 (rr_MaxOutputTokens r)) (q + rb_TotalTokens b)); [done |].
    intros [= <- <-]. split_and!; int64_lia.
  - rewrite (wrap64_id (MaxInt64 - _)) by int64_lia. destruct (Z.ltb_spec (MaxInt64 - default 1024 (rr_MaxOutputTokens r)) q); [done |].
    intros [= <- <-]. split_and!; int64_lia.
Qed.

(** ** Evaluation *)

Definition response_body (extra : list (text * raw)) : list (text * raw) :=
  [(txt "model", JStr (txt "gpt")); (txt "input", JArr [JObj [(txt "role", JStr (txt "user")); (txt "content", JStr (txt "hello"))]])] ++ extra.

Definition example_bytes : list Z := [0; 17; 34; 51; 68; 85; 102; 119; 136; 153; 170; 187; 204; 221; 238; 255].
Definition example_response_id : text := txt "resp_gatemux_00112233445566778899aabbccddeeff".

Definition example_binding : ResponseBinding :=
  mkResponseBinding example_response_id 1 "key:7" "acme" (txt "gpt") "east" "i1" [] [] [] 0.

Definition upstream_reply (status : string) : raw :=
  JObj [(txt "id", JStr (txt "resp_1")); (txt "object", JStr (txt "response")); (txt "status", JStr (txt status)); (txt "model", JStr (txt "up"));
        (txt "usage", JObj [(txt "input_tokens", JNum "10"); (txt "output_tokens", JNum "5")])].

Lemma example_responses :
  newResponseID (Some example_bytes) = Some example_response_id /\ responseIDPattern example_response_id = true /\
  is_Some (decodeResponseRequest (F := unit) (fun _ => Some tt) (JObj (response_body []))) /\
  decodeResponseRequest (F := unit) (fun _ => Some tt)
    (JObj [(txt "model", JStr (txt "gpt")); (txt "input", JArr [JObj [(txt "file_id", JStr (txt "f"))]])]) = None /\
  rb_TotalTokens (rewriteResponse (upstream_reply "completed") example_binding).1 = 15.
Proof. vm_compute. split_and!; try reflexivity. by eexists. Qed.

Lemma forwarded_response_request_is_checked_witness :
  exists r m, decodeResponseRequest (F := unit) (fun _ => Some tt) (JObj (response_body [])) = Some r /\
    encoded r (txt "upstream") [] = marshal_map m /\ m !! txt "background" <> Some (JBool true).
Proof.
  destruct (decodeResponseRequest (F := unit) (fun _ => Some tt) (JObj (response_body []))) as [r|] eqn:E; [| by vm_compute in E].
  destruct (forwarded_response_request_is_checked _ _ r (txt "upstream") [] E) as (m & Em & _ & _ & _ & Hb & _).
  - repeat (apply Forall_cons; split); [apply plain_keyb_sound; vm_compute; reflexivity.. | apply Forall_nil; exact I].
  - exists r, m. split; [done | split; [exact Em | exact Hb]].
Defined.

Lemma rewritten_response_is_the_gateways_witness :
  binding_ok (rewriteResponse (upstream_reply "completed") example_binding).1.
Proof.
  destruct (rewriteResponse (upstream_reply "completed") example_binding) as [b' [[out e]|]] eqn:E.
  - refine (proj1 (rewritten_response_is_the_gateways _ _ _ _ _ _ _ E)); vm_compute; [discriminate | split; discriminate].
  - exfalso. vm_compute in E. discriminate E.
Defined.

Definition stored_binding : ResponseBinding :=
  mkResponseBinding (txt "r") 1 "key:7" "acme" (txt "gpt") "east" "i1" (txt "resp_1") [] (txt "completed") 15.
Definition example_table : response_table := default ∅ (CreateResponseBinding 0 true stored_binding ∅).

Lemma bindings_keep_their_owner_witness : table_ok example_table.
Proof.
  refine (proj1 (bindings_keep_their_owner ∅ example_table [] (rtc_refl _ _) (bs_create 0 true stored_binding ∅ example_table _ _))).
  - vm_compute. split; [reflexivity | split; [discriminate | split; discriminate]].
  - vm_compute. reflexivity.
Defined.
