(* ===== verification/ResponsesApi.v ===== *)
(** * The Responses endpoints ([api/responses.go], [api/responses_stream.go],
    [api/responses_resources.go])

    Creating a response, as one body or as a stream of events, and reading or
    deleting a stored one, on the admission stages of [Handlers] and the contract
    of [Responses]. A response that continues a stored one goes to the deployment
    that keeps it and to no other; the others fall back like a chat request until
    a provider has accepted the work. What the outside does is an argument: the
    providers' answers with the reads of their bodies, the ends of database
    calls and of writes to the client, and what others do to the database and to
    the table of bindings meanwhile. *)

From S2P Require Import Prelude GoStrings Streaming Json Wire Money Models Identity Customers Guardrails GuardEnvelope GuardRuntime.
From S2P Require Import Redis RateLimit Admission Concurrency Providers Breaker Limits Router Registry Gateway.
From S2P Require Import Ledger Budget Accounting Logger Sse StreamLife StreamProxy Handlers Chat Native Responses.
From Stdlib Require Import Ascii.

(** The adapters that embed the OpenAI client and with it [ResponseRequest]. *)
Definition implements_responses (p : option Provider) : bool :=
  match p with
  | Some p => negb (bool_decide (pv_Type p ∈ ["anthropic"; "cohere"; "bedrock"; "vertex"; "gemini"]))
  | None => false
  end.

Section Source.
Variable read_error : sse_error -> go_error.

(** One attempt: whether the provider accepted the work, and the open stream or the
    body. [None] is a panic. *)
Definition response_attempt (provider : string) (stream : bool) (call : native_call) (src : chatStream) :
    option (bool * result go_error (chatStream * bytes)) :=
  match call with
  | NativePanic => None
  | NativeError err => Some (false, Err err)
  | NativeResponse a =>
      if 300 <=? hp_status a then Some (false, Err (EUpstream (mkUpstreamError provider (hp_status a) (hp_detail a))))
      else if stream
      then if negb (HasPrefix (hp_content_type a) "text/event-stream") then Some (true, Err (EOther "Responses stream has invalid content type"))
           else match prefetch_all a src with
                | (src, Ok _) => Some (true, Ok (src, []))
                | (_, Err e) => Some (true, Err (stream_go_error read_error e))
                end
      else match readResponseJSON read_error a src with
           | (src, Ok body) => Some (true, Ok (src, body))
           | (_, Err e) => Some (true, Err e)
           end
  end.
End Source.

(** ** The attempts ([openResponseWithFallback]) *)

Section Attempts.
Context {B R : Type} `{BreakerStore B, RedisZSet R}.
Variable getenv : string -> string.
Variable limiter : option Limiter.
Variable has_store : bool.
Variable guarded : bool.
Variable partition : Z.
Variable read_error : sse_error -> go_error.
Variable streaming : StreamingConfig.
Variable alias : string.
Variable rc : ResolveContext.
Variable env : nat -> surroundings.
(** The instants at which the attempt's stream is made and its timer armed. *)
Variable clock : nat -> Z * Z.
Variable post : nat -> Resolved -> raw -> native_call.
Variable previous : option ResponseBinding.
Variable req : responseRequest.
Implicit Types (s : gateway B R).

Definition responseTargetFingerprint (target : Resolved) : string := rv_Identity target.

Definition is_bound (b : ResponseBinding) (target : Resolved) : bool :=
  (rv_DeploymentName target =? rb_Deployment b)%string && (responseTargetFingerprint target =? rb_TargetFingerprint b)%string.

Definition responseBoundTarget (b : ResponseBinding) (r : Registry B) : result route_error Resolved :=
  match TargetsFor (utf8_string (rb_Alias b)) CapabilityResponses r with
  | Err e => Err (RouteResolve e)
  | Ok targets =>
      match List.find (is_bound b) targets with
      | Some target => Ok target
      | None => Err (RouteUpstream (EOther "original response deployment is no longer available"))
      end
  end.

(** The next deployment to ask. *)
Definition next_target (n : nat) (tried : gset string) s : gateway B R * result route_error Resolved :=
  match previous with
  | Some b => (s, responseBoundTarget b (gw_registry s))
  | None =>
      let '(r, res) := ResolveWithContext getenv (en_now (env n)) alias tried CapabilityResponses rc (gw_registry s) in
      (set_registry r s, match res with Ok t => Ok t | Err e => Err (RouteResolve e) end)
  end.

Definition previous_upstream : text := match previous with Some b => rb_UpstreamID b | None => [] end.

(** The call of one attempt. *)
Definition attempt_call (n : nat) (target : Resolved) s : option (bool * result go_error (chatStream * bytes)) :=
  let src := newChatStream None (streamingFor streaming (rv_DeploymentName target) (gw_registry s)) false (clock n).1 (clock n).2 in
  response_attempt read_error (rv_ProviderType target) (rr_Stream req) (post n target (encoded req (txt (rv_UpstreamModel target)) previous_upstream)) src.

Fixpoint response_loop (fuel n : nat) (tried : gset string) (last : option route_error) s :
    gateway B R * outcome ((chatStream * bytes) * upstreamPermit) :=
  match fuel with
  | O => (s, OutOfFuel)
  | S fuel =>
      let e := env n in
      let '(s, res) := next_target n tried s in
      match res with
      | Err err => (s, Failed None (default err last))
      | Ok target =>
          if bool_decide (is_Some previous) && bool_decide (rv_DeploymentName target ∈ tried)
          then (s, match last with Some err => Failed (Some target) err | None => Paniced end)
          else
            let tried := {[rv_DeploymentName target]} ∪ tried in
            if negb (implements_responses (rv_Provider target))
            then response_loop fuel (S n) tried (Some (RouteUpstream (EOther "deployment does not implement native Responses"))) s
            else
              let '(s, acquired) := tryAcquireUpstream limiter has_store true guarded partition e target s in
              match acquired with
              | Err err =>
                  if canFallbackConcurrency err then response_loop fuel (S n) tried (Some err) s else (s, Failed (Some target) err)
              | Ok None => response_loop fuel (S n) tried (Some RouteSaturated) s
              | Ok (Some permit) =>
                  let s := note (Called (rv_DeploymentName target)) s in
                  match attempt_call n target s with
                  | None => (releaseUpstreamPermit e permit s, Paniced)
                  | Some (_, Ok opened) => (s, Succeeded target (opened, permit))
                  | Some (true, Err err) => (releaseUpstreamPermit e permit s, Failed (Some target) (RouteUpstream err))
                  | Some (false, Err err) =>
                      let s := record_failure e (rv_DeploymentName target) err (releaseUpstreamPermit e permit s) in
                      if bool_decide (is_Some previous) || negb (IsRetryable (Some err)) || bool_decide (is_Some (en_ctx e))
                      then (s, Failed (Some target) (RouteUpstream err))
                      else response_loop fuel (S n) tried (Some (RouteUpstream err)) s
                  end
              end
      end
  end.

Definition openResponseWithFallback (fuel : nat) s : gateway B R * outcome ((chatStream * bytes) * upstreamPermit) :=
  response_loop fuel 0 ∅ None s.
End Attempts.

(** ** Saving a binding *)

(** How a call of [saveResponseBinding] ends: what others did before it, its
    instant, whether the team's row is there, and an error before the statement
    or after its commit. *)
Record save := mkSave {
  sv_others : response_table -> response_table;
  sv_now : Z;
  sv_team : bool;
  sv_error : option (bool * go_error);
}.

Definition save_statement (sv : save) (create : bool) (b : ResponseBinding) (t : response_table) : option response_table :=
  if create then CreateResponseBinding (sv_now sv) (sv_team sv) b t else UpdateResponseBinding b t.

Definition saveResponseBinding (sv : save) (create : bool) (b : ResponseBinding) (t : response_table) : response_table * option go_error :=
  let t := sv_others sv t in
  match sv_error sv with
  | Some (false, err) => (t, Some err)
  | _ =>
      match save_statement sv create b t with
      | Some t => (t, option_map snd (sv_error sv))
      | None => (t, Some (EOther "response binding was not saved"))
      end
  end.

(** ** The stream ([forwardResponseStream]) *)

Record response_stream := mkResponseStream {
  st_src : chatStream;
  st_binding : ResponseBinding;
  st_table : response_table;
  st_out : bytes;
  st_committed : bool;
  st_stored : bool;
  st_usage : option ResponseUsage;
}.

(** What happens in one turn of the loop: the pull and the write of the event, the
    save, and the write of an error frame. *)
Record response_turn := mkResponseTurn { rt_turn : turn; rt_save : save; rt_fail : write_outcome }.

Definition error_event : raw :=
  JObj [(txt "code", JStr (txt "gateway_stream_error")); (txt "message", JStr (txt "Response stream interrupted before completion"));
        (txt "param", JNull); (txt "type", JStr (txt "error"))].

Definition terminal_kinds : list text := [txt "response.completed"; txt "response.incomplete"; txt "response.failed"].

(** The type of an event. *)
Definition event_kind (m : gmap text raw) : option text :=
  match m !! txt "type" with Some (JStr (c :: s)) => Some (c :: s) | _ => None end.

(** Every [event] field names the type. *)
Definition event_named (kind : text) (fields : bytes) : bool :=
  forallb (fun line => let '(field, value) := Cut line ":"%char in
             negb (bool_decide (field = str "event")) || bool_decide (TrimPrefix value (str " ") = str (utf8_string kind))) (Split fields LF).

(** The end of the loop: the status and error of the outcome, and what the
    circuit breaker is told. *)
Abbreviation stream_result := (Z * option proxy_error * recorded)%type.

Section Forward.
Variable decode : bytes -> option raw.
Variable render : raw -> bytes.
Variable read_error : sse_error -> go_error.
Implicit Types (st : response_stream).

Definition error_frame : bytes := str "event: error" ++ [LF] ++ str "data: " ++ render error_event ++ [LF; LF].

(** [fail]: after the first event the client gets an error frame. *)
Definition fail (o : write_outcome) (err : proxy_error) st : response_stream * option stream_result :=
  let out := if st_committed st then (StreamProxy.write error_frame o (st_out st)).1 else st_out st in
  (mkResponseStream (st_src st) (st_binding st) (st_table st) out (st_committed st) (st_stored st) (st_usage st),
   Some (proxyErrorStatus err, Some err, RecordNothing)).

Definition invalid (msg : string) : proxy_error := PError (EOther msg).

(** The response an event carries: rewritten, and stored with the first one and
    with the last. *)
Definition event_response (storeResponse : bool) (t : response_turn) (kind : text) (m : gmap text raw) st :
    response_stream * result proxy_error (gmap text raw) :=
  let terminal := bool_decide (kind ∈ terminal_kinds) in
  match present (m !! txt "response") with
  | None => (st, if terminal then Err (invalid "terminal Responses event omitted response") else Ok m)
  | Some body =>
      match rewriteResponse body (st_binding st) with
      | (b, None) => (mkResponseStream (st_src st) b (st_table st) (st_out st) (st_committed st) (st_stored st) (st_usage st), Err (invalid "invalid response"))
      | (b, Some (rewritten, envelope)) =>
          let usage := match en_Usage envelope with Some u => Some u | None => st_usage st end in
          let st := mkResponseStream (st_src st) b (st_table st) (st_out st) (st_committed st) (st_stored st) usage in
          if terminal && negb (bool_decide (kind = txt "response." ++ en_Status envelope))
          then (st, Err (invalid "inconsistent response terminal status"))
          else if storeResponse && (negb (st_stored st) || terminal)
          then match saveResponseBinding (rt_save t) (negb (st_stored st)) b (st_table st) with
               | (table, Some err) => (mkResponseStream (st_src st) b table (st_out st) (st_committed st) (st_stored st) usage, Err (PError err))
               | (table, None) =>
                   (mkResponseStream (st_src st) b table (st_out st) (st_committed st) true usage, Ok (<[txt "response" := rewritten]> m))
               end
          else (st, Ok (<[txt "response" := rewritten]> m))
      end
  end.

(** The event as the client gets it, and the end of the loop. *)
Definition event_write (t : response_turn) (event : sseEvent) (kind : text) (m : gmap text raw) st : response_stream * option stream_result :=
  let m := match m !! txt "response_id" with Some _ => putJSON "response_id" (jstr (rb_ID (st_binding st))) m | None => m end in
  match pauseIdle (tn_pause (rt_turn t)) (st_src st) with
  | (src, Some c) =>
      fail (rt_fail t) (PError (stream_go_error read_error c))
        (mkResponseStream src (st_binding st) (st_table st) (st_out st) (st_committed st) (st_stored st) (st_usage st))
  | (src, None) =>
      match StreamProxy.write (encode event (render (marshal_map m))) (tn_write (rt_turn t)) (st_out st) with
      | (out, Some err) => fail (rt_fail t) (PWrite err) (mkResponseStream src (st_binding st) (st_table st) out true (st_stored st) (st_usage st))
      | (out, None) =>
          let src := resumeIdle (tn_resume (rt_turn t)) (tn_armed (rt_turn t)) src in
          (mkResponseStream src (st_binding st) (st_table st) out true (st_stored st) (st_usage st),
           if bool_decide (kind ∈ [txt "response.failed"; txt "error"])
           then Some (502, Some (invalid "upstream reported a stream error"), RecordFailure)
           else if bool_decide (kind ∈ terminal_kinds) then Some (200, None, RecordSuccess) else None)
      end
  end.

Definition forward_turn (storeResponse : bool) (t : response_turn) st : response_stream * option stream_result :=
  let '(src, out, pulled) := pull (rt_turn t) (st_src st) (st_out st) in
  let st := mkResponseStream src (st_binding st) (st_table st) out (st_committed st) (st_stored st) (st_usage st) in
  match pulled with
  | Err e => fail (rt_fail t) (run_proxy_error read_error e) st
  | Ok event =>
      if negb (ev_hasData event) || bool_decide (ev_data event = []) then (st, None)
      else match decode (ev_data event) ≫= into_raw with
           | None | Some None => fail (rt_fail t) (invalid "malformed Responses event") st
           | Some (Some m) =>
               match event_kind m with
               | None => fail (rt_fail t) (invalid "Responses event type missing") st
               | Some kind =>
                   if negb (event_named kind (ev_fields event))
                   then fail (rt_fail t) (invalid "Responses SSE event name disagrees with JSON type") st
                   else match event_response storeResponse t kind m st with
                        | (st, Err err) => fail (rt_fail t) err st
                        | (st, Ok m) =>
                            if bool_decide (kind = txt "error")
                            then if negb (st_committed st) then fail (rt_fail t) (invalid "upstream reported a stream error") st
                                 else event_write t event kind m st
                            else if bool_decide (rb_UpstreamID (st_binding st) = [])
                            then fail (rt_fail t) (invalid "response metadata missing before output") st
                            else event_write t event kind m st
                        end
               end
           end
  end.

(** The loop over the turns that happen; [None] while it waits for the next one. *)
Fixpoint forwardResponseStream (storeResponse : bool) (ts : list response_turn) st : response_stream * option stream_result :=
  match ts with
  | [] => (st, None)
  | t :: ts =>
      match forward_turn storeResponse t st with
      | (st, Some r) => (st, Some r)
      | (st, None) => forwardResponseStream storeResponse ts st
      end
  end.
End Forward.

(** ** Creating a response *)

Record response_conditions := mkResponseConditions {
  rc_customer : string * string;        (** the headers of [extractCustomerID] *)
  rc_load : option go_error;            (** the lookup of the previous response fails *)
  rc_load_now : Z;
  rc_random : option (list Z);
  rc_ping : option go_error;            (** the database does not answer *)
  rc_clock : nat -> Z * Z;
  rc_turns : list response_turn;
  rc_save : save;
  rc_write : write_outcome;
  rc_release : surroundings;
}.

Inductive load_error := LNotFound | LUnavailable.

(** [responseStateError] *)
Definition load_reply (e : load_error) : reply :=
  match e with LNotFound => (404, "not_found") | LUnavailable => (503, "response_state_unavailable") end.

Section Api.
Context {B R F : Type} `{BreakerStore B, RedisZSet R}.
Variable getenv : string -> string.
Variable json_size : UsageEntry -> Z.
Variable alive : string -> option Z -> Z -> bool.
Variable limiter : option Limiter.
Variable has_store : bool.
Variable others : nat -> database -> database.
Variable parse_float : string -> option F.
Variable digest : string -> string.
Variable body_len : raw -> Z.
Variable decode : bytes -> option raw.
Variable render : raw -> bytes.
Variable read_error : sse_error -> go_error.
Variable streaming : StreamingConfig.
(** The providers: what they answer to a body. *)
Variable post : nat -> Resolved -> raw -> native_call.
Implicit Types (w : world B R) (t : response_table).

Definition loadResponseBinding (rc : response_conditions) (q : handler_request) (id : text) t : result load_error ResponseBinding :=
  let owner := responseOwner digest (hr_key q) (hr_owner q) in
  if (owner =? "")%string || negb (responseIDPattern id) then Err LNotFound
  else match rc_load rc with
       | Some _ => Err LUnavailable
       | None => match GetResponseBinding (rc_load_now rc) (tm_ID (hr_team q)) owner id t with Some b => Ok b | None => Err LNotFound end
       end.

(** The response a request continues, if any. *)
Definition load_previous (rc : response_conditions) (q : handler_request) (r : responseRequest) t : result reply (option ResponseBinding) :=
  if bool_decide (rr_PreviousID r = []) then Ok None
  else match loadResponseBinding rc q (rr_PreviousID r) t with
       | Err e => Err (load_reply e)
       | Ok b =>
           if negb (bool_decide (rb_Alias b = rr_Model r)) || negb (rb_CustomerExternalID b =? hr_customer q)%string then Err (404, "not_found")
           else if negb (bool_decide (rb_Status b ∈ [txt "completed"; txt "incomplete"])) then Err (409, "response_not_ready")
           else Ok (Some b)
       end.

(** A routed call of the request, as in [Handlers.route]. *)
Definition route_response (c : conditions) (rc : response_conditions) (q : handler_request) (previous : option ResponseBinding)
    (r : responseRequest) (fuel : nat) w : world B R * outcome ((chatStream * bytes) * upstreamPermit) :=
  with_mark c q (fun env => openResponseWithFallback getenv limiter has_store (bool_decide (is_Some (hw_guard w))) (tm_ID (hr_team q)) read_error
    streaming (hr_alias q) (hr_context q) env (rc_clock rc) post previous r fuel) w.

(** The row of the call, and its permit. *)
Definition response_record (c : conditions) (rc : response_conditions) (q : handler_request) (target : Resolved) (permit : upstreamPermit)
    (usage : option ResponseUsage) (status : Z) (error : string) w : world B R :=
  let canonical := match usage with Some u => ResponseUsage_Canonical u | None => no_usage_yet end in
  let w := recordUsage alive c q (Some target) false (negb (ResponseUsage_UsageReported usage)) canonical status error w in
  set_gateway (releaseUpstreamPermit (rc_release rc) permit (hw_gateway w)) w.

(** What the circuit breaker is told of a response the provider ended. *)
Definition response_outcome (rc : response_conditions) (name : string) (rec : recorded) w : world B R :=
  match rec with
  | StreamProxy.RecordSuccess => set_gateway (record_success (rc_release rc) name (hw_gateway w)) w
  | StreamProxy.RecordFailure => set_gateway (record_failure (rc_release rc) name (EOther "upstream reported a stream error") (hw_gateway w)) w
  | RecordNothing => w
  end.

Definition error_type (err : option proxy_error) : string := match err with Some _ => "upstream_error" | None => "" end.

(** A response in one body: the table, the usage, the status and error of the
    row, what the breaker is told and what the client gets. *)
Definition response_json (rc : response_conditions) (storeResponse : bool) (payload : bytes) (b : ResponseBinding) t :
    response_table * option ResponseUsage * Z * string * recorded * reply :=
  let failed t usage := (t, usage, 502, "upstream_error", RecordNothing, (502, "upstream_error")) in
  match decode payload with
  | None => failed t None
  | Some body =>
      match rewriteResponse body b with
      | (_, None) => failed t None
      | (b, Some (_, envelope)) =>
          let usage := en_Usage envelope in
          if negb (bool_decide (rb_Status b ∈ [txt "completed"; txt "incomplete"; txt "failed"])) then failed t usage
          else
            let '(t, err) := if storeResponse then saveResponseBinding (rc_save rc) true b t else (t, None) in
            match err with
            | Some _ => failed t usage
            | None =>
                let '(status, error, rec) :=
                  if bool_decide (rb_Status b = txt "failed") then (502, "upstream_error", StreamProxy.RecordFailure)
                  else (200, "", StreamProxy.RecordSuccess) in
                match rc_write rc with
                | WOk => (t, usage, status, error, rec, (200, ""))
                | WFail _ err => (t, usage, proxyErrorStatus (PWrite err), "upstream_error", rec, (200, ""))
                end
            end
      end
  end.

(** From the opened call to the row. [None] is a stream that waits. *)
Definition response_opened (c : conditions) (rc : response_conditions) (q : handler_request) (r : responseRequest) (id : text) (storeResponse : bool)
    (target : Resolved) (src : chatStream) (payload : bytes) (permit : upstreamPermit) w t : world B R * response_table * option ending :=
  let b := mkResponseBinding id (tm_ID (hr_team q)) (responseOwner digest (hr_key q) (hr_owner q)) (hr_customer q) (rr_Model r)
             (rv_DeploymentName target) (responseTargetFingerprint target) [] (rr_PreviousID r) [] 0 in
  if rr_Stream r
  then match forwardResponseStream decode render read_error storeResponse (rc_turns rc) (mkResponseStream src b t [] false false None) with
       | (st, None) => (w, st_table st, None)
       | (st, Some (status, err, rec)) =>
           let w := response_outcome rc (rv_DeploymentName target) rec w in
           (response_record c rc q target permit (st_usage st) status (error_type err) (meanwhile others 2 w), st_table st,
            Some (Answered (if st_committed st then (200, "") else (status, "upstream_error"))))
       end
  else
    let '(t, usage, status, error, rec, answer) := response_json rc storeResponse payload b t in
    let w := response_outcome rc (rv_DeploymentName target) rec w in
    (response_record c rc q target permit usage status error (meanwhile others 2 w), t, Some (Answered answer)).

(** From the budget on. *)
Definition response_call (c : conditions) (rc : response_conditions) (q : handler_request) (r : responseRequest) (storeResponse : bool)
    (previous : option ResponseBinding) (fuel : nat) w t : world B R * response_table * option ending :=
  let routing_error err w := let '(w, e) := writeRoutingError alive c false q err w in (w, t, Some e) in
  match newResponseID (rc_random rc) with
  | None => routing_error (RouteUpstream (EOther "no random bytes")) w
  | Some id =>
      match (if storeResponse then rc_ping rc else None) with
      | Some err => routing_error (RouteUpstream err) w
      | None =>
          match route_response c rc q previous r fuel (meanwhile others 1 w) with
          | (w, Succeeded target (src, payload, permit)) => response_opened c rc q r id storeResponse target src payload permit w t
          | (w, Failed _ err) => routing_error err (meanwhile others 2 w)
          | (w, Paniced) | (w, OutOfFuel) => (meanwhile others 2 w, t, Some Crashed)
          end
      end
  end.

(** The stages after the request's admission. *)
Definition response_admitted (c : conditions) (rc : response_conditions) (q : handler_request) (r : responseRequest) (body : raw)
    (storeResponse : bool) (previous : option ResponseBinding) (fuel : nat) w t : world B R * response_table * option ending :=
  match admitCustomerPricing (hr_key q) (hw_customer w) body with
  | Err e => let '(w, e) := if e.1 =? 400 then deny alive c q e w else (w, Some (Answered e)) in (w, t, e)
  | Ok _ =>
      match estimate (body_len (marshal_map (default ∅ (rr_raw r)))) r previous with
      | None => (w, t, Some (Answered (400, "invalid_request")))
      | Some (prompt, completion) =>
          match enforceRateLimit c q (prompt +w completion) (hw_customer w) with
          | Refuse rep denial => let '(w, e) := gate_answer alive c q rep denial w in (w, t, e)
          | Pass =>
              match enforceBudget c q prompt completion CapabilityResponses w with
              | (w, Refuse rep denial) => let '(w, e) := gate_answer alive c q rep denial w in (w, t, e)
              | (w, Pass) => response_call c rc q r storeResponse previous fuel w t
              end
          end
      end
  end.

(** What the parsed body makes of the request. *)
Definition response_request (rc : response_conditions) (q : handler_request) (r : responseRequest) : handler_request :=
  mkHandlerRequest (hr_id q) (hr_team q) (hr_key q) (hr_owner q) (utf8_string (rr_Model r))
    (extractCustomerID (rc_customer rc).1 (rc_customer rc).2 (utf8_string (rr_User r))) (hr_tokens q) (hr_context q) (hr_nonBillable q).

(** The endpoint; a body that is too long or no JSON is [None]. *)
Definition Responses (c : conditions) (rc : response_conditions) (q : handler_request) (body : option raw) (fuel : nat) w t :
    world B R * response_table * option ending :=
  let w := fresh w in
  match body ≫= decodeResponseRequest parse_float with
  | None => (w, t, Some (Answered (400, "invalid_request")))
  | Some r =>
      let q := response_request rc q r in
      if negb (modelAllowed (Some (hr_team q)) (hr_key q) (hr_alias q))
      then let '(w, e) := deny alive c q (403, "model_not_allowed") w in (w, t, e)
      else if (responseOwner digest (hr_key q) (hr_owner q) =? "")%string then (w, t, Some (Answered (503, "response_state_unavailable")))
      else match load_previous rc q r t with
           | Err e => (w, t, Some (Answered e))
           | Ok previous =>
               match admitRequestConcurrency json_size alive limiter has_store others "/v1/responses" c q w with
               | (w, Err e) => (w, t, Some (Answered e))
               | (w, Ok lease) =>
                   match response_admitted c rc q r (default JNull body) (default true (rr_Store r)) previous fuel w t with
                   | (w, t, Some e) => (releaseModel alive c lease w, t, Some e)
                   | (w, t, None) => (w, t, None)
                   end
               end
           end
  end.
End Api.

(** ** Facts of the attempts *)

Section attempt_facts.
Context {B R : Type} `{BreakerStore B, RedisZSet R}.
Variable getenv : string -> string.
Variable limiter : option Limiter.
Variable has_store : bool.
Variable guarded : bool.
Variable partition : Z.
Variable read_error : sse_error -> go_error.
Variable streaming : StreamingConfig.
Variable alias : string.
Variable rc : ResolveContext.
Variable env : nat -> surroundings.
Variable clock : nat -> Z * Z.
Variable post : nat -> Resolved -> raw -> native_call.
Variable previous : option ResponseBinding.
Variable req : responseRequest.
Hypothesis Halias : forall b, previous = Some b -> utf8_string (rb_Alias b) = alias.
Implicit Types (s : gateway B R).

#[local] Abbreviation next := (next_target getenv alias rc env previous).
#[local] Abbreviation loop :=
  (response_loop getenv limiter has_store guarded partition read_error streaming alias rc env clock post previous req).

Lemma targets_loop_names (r : Registry B) capability targets t :
  t ∈ targets_loop r capability targets -> rv_DeploymentName t ∈ map DeploymentName targets.
Proof.
  induction targets as [| a l IH]; cbn; [by intros ?%not_elem_of_nil |]. intros Ht. apply elem_of_cons.
  destruct (rg_deployments r !! DeploymentName a) as [dep|]; [| by right; apply IH].
  destruct (rg_providers r !! DeploymentName a) as [prov|]; [| by right; apply IH].
  destruct (negb (dep_Enabled dep)); [by right; apply IH |]. destruct (_ && _); [by right; apply IH |].
  apply elem_of_cons in Ht as [-> | Ht]; [by left | by right; apply IH].
Qed.

(** A bound target is a deployment of the alias, with the identity of the binding. *)
Lemma responseBoundTarget_spec b (r : Registry B) t :
  responseBoundTarget b r = Ok t ->
  rv_DeploymentName t ∈ map DeploymentName (default [] (rg_aliases r !! utf8_string (rb_Alias b))) /\ is_bound b t = true.
Proof.
  unfold responseBoundTarget, TargetsFor. destruct (rg_aliases r !! utf8_string (rb_Alias b)) as [[| a l]|]; [done | | done].
  destruct (targets_loop r CapabilityResponses (a :: l)) as [| t0 ts] eqn:E; [done |].
  destruct (List.find _ _) as [t1|] eqn:Ef; [| done]. intros [= <-]. apply List.find_some in Ef as [Hin Hb]. split; [| done].
  apply (targets_loop_names r CapabilityResponses (a :: l)). rewrite E. by apply list_elem_of_In.
Qed.

Lemma next_target_spec n tried s s' res :
  next n tried s = (s', res) ->
  Gateway.frame s s' [] /\ gw_started s' = gw_started s /\
  forall t, res = Ok t -> rv_DeploymentName t ∈ names_of alias s /\ (previous = None -> rv_DeploymentName t ∉ tried) /\
    forall b, previous = Some b -> is_bound b t = true.
Proof.
  unfold next_target. destruct previous as [b|].
  - intros [= <- <-]. split_and!; [apply frame_refl | done |]. intros t Ht. apply responseBoundTarget_spec in Ht as [Hn Hb].
    rewrite (Halias b eq_refl) in Hn. split_and!; [done | done |]. by intros ? [= <-].
  - destruct (ResolveWithContext _ _ _ _ _ _ _) as [r [t|e]] eqn:Er; intros [= <- <-]; split_and!; try done; try by eapply resolve_frame.
    intros ? [= <-]. apply resolve_next in Er as [Hnt Hin]. done.
Qed.

(** An attempt loop leaves what an opened stream does. *)
Lemma response_loop_spec fuel : forall n tried last s s' out,
  loop fuel n tried last s = (s', out) -> exists evs, stream_post alias s tried s' out evs.
Proof.
  induction fuel as [| fuel IH]; intros n tried last s s' out; cbn [response_loop].
  { intros [= <- <-]. exists []. apply stream_post_closed; [apply frame_refl | apply run_ok_nil | done]. }
  destruct (next n tried s) as [s0 res] eqn:En. destruct (next_target_spec _ _ _ _ _ En) as (Hf0 & _ & Hres).
  destruct res as [target|err].
  2: { intros [= <- <-]. exists []. apply stream_post_closed; [done | apply run_ok_nil | done]. }
  destruct (Hres target eq_refl) as (Hin & Hnt0 & _).
  destruct (bool_decide (is_Some previous) && bool_decide (rv_DeploymentName target ∈ tried)) eqn:Et0.
  { intros [= <- <-]. exists []. apply stream_post_closed; [done | apply run_ok_nil | by destruct last]. }
  assert (rv_DeploymentName target ∉ tried) as Hnt.
  { apply andb_false_iff in Et0 as [Hp | Hp]; apply bool_decide_eq_false in Hp; [| done]. apply Hnt0. destruct previous; [by edestruct Hp | done]. }
  assert (forall evs s2, Gateway.frame s0 s2 evs -> Gateway.frame s s2 evs) as Hfr by (intros evs s2; apply (frame_trans _ _ _ [] evs Hf0)).
  destruct (negb _).
  { intros E. apply IH in E as (evs & E). exists ([] ++ evs). eapply stream_post_later; eauto. }
  destruct (tryAcquireUpstream _ _ _ _ _ (env n) target s0) as [s1 acq] eqn:Et. destruct acq as [[p|]|err].
  - set (s2 := note (Called (rv_DeploymentName target)) s1). destruct (attempt_call _ _ _ _ _ _ _ _ _) as [[acc [opened|err]]|].
    + intros E. assert ((s2, Succeeded target (opened, p)) = (s', out)) as [= <- <-] by by destruct acc.
      destruct (stream_opened _ _ _ _ _ alias _ _ _ tried _ _ opened Et) as (evs & Hpost); [by rewrite (names_of_frame _ _ _ _ Hf0) | done |].
      exists evs. by eapply stream_post_same.
    + destruct (called_frame _ _ _ _ _ _ _ _ _ _ (fun x => x) Et ltac:(done)) as (evs0 & Hf0' & Hb0 & Hc0).
      destruct (called_frame _ _ _ _ _ _ _ _ _ _ _ Et (record_failure_quiet (env n) (rv_DeploymentName target) err)) as (evs & Hf & Hb & Hc).
      destruct acc.
      * intros [= <- <-]. exists evs0. apply stream_post_closed; [by apply Hfr | by eapply run_ok_one; eauto | done].
      * destruct (_ || _ || _).
        -- intros [= <- <-]. exists evs. apply stream_post_closed; [by apply Hfr | by eapply run_ok_one; eauto | done].
        -- intros E. apply IH in E as (evs' & E). exists (evs ++ evs'). eapply stream_post_later; eauto.
    + intros [= <- <-]. destruct (called_frame _ _ _ _ _ _ _ _ _ _ (fun x => x) Et ltac:(done)) as (evs & Hf & Hb & Hc).
      exists evs. apply stream_post_closed; [by apply Hfr | by eapply run_ok_one; eauto | done].
  - apply tryAcquireUpstream_spec in Et as (evs & Hf & Hc & Hb). intros E. apply IH in E as (evs' & E).
    exists (evs ++ evs'). eapply stream_post_later; eauto.
  - apply tryAcquireUpstream_spec in Et as (evs & Hf & Hc & Hb). destruct (canFallbackConcurrency err).
    + intros E. apply IH in E as (evs' & E). exists (evs ++ evs'). eapply stream_post_later; eauto.
    + intros [= <- <-]. exists evs. apply stream_post_closed; [by apply Hfr | by eapply run_ok_one; eauto | done].
Qed.

Lemma response_loop_marks fuel : forall n tried last s s' out,
  loop fuel n tried last s = (s', out) -> marks (exists m, en_mark (env m) = true) s s'.
Proof.
  induction fuel as [| fuel IH]; intros n tried last s s' out; cbn [response_loop].
  { intros [= <- <-]. reflexivity. }
  destruct (next n tried s) as [s0 res] eqn:En. destruct (next_target_spec _ _ _ _ _ En) as ((_ & _ & He0) & Hs0 & _).
  assert (marks (exists m, en_mark (env m) = true) s s0) as M0 by (apply marks_quiet; [done | by rewrite He0, app_nil_r]).
  destruct res as [target|err]; [| by intros [= <- _]].
  destruct (_ && _); [by intros [= <- _] |]. destruct (negb _); [intros E; etransitivity; [exact M0 | by eapply IH] |].
  destruct (tryAcquireUpstream _ _ _ _ _ (env n) target s0) as [s1 acq] eqn:Et.
  destruct (attempt_marks _ _ _ _ _ env _ _ _ _ _ _ eq_refl M0 Et) as [M1 M2]. destruct acq as [[p|]|err].
  - specialize (M2 p eq_refl). set (s2 := note (Called (rv_DeploymentName target)) s1) in *.
    assert (marks (exists m, en_mark (env m) = true) s (releaseUpstreamPermit (env n) p s2)) as M3
      by (etransitivity; [exact M2 | apply releaseUpstreamPermit_marks]).
    destruct (attempt_call _ _ _ _ _ _ _ _ _) as [[acc [opened|err]]|]; [| | by intros [= <- _]].
    + intros E. assert ((s2, Succeeded target (opened, p)) = (s', out)) as [= <- _] by by destruct acc. exact M2.
    + destruct acc; [by intros [= <- _] |]. destruct (_ || _ || _).
      * intros [= <- _]. etransitivity; [exact M3 | by apply marks_quiet].
      * intros E. apply IH in E. etransitivity; [exact M3 |]. etransitivity; [| exact E]. by apply marks_quiet.
  - intros E. etransitivity; [exact M1 | by eapply IH].
  - destruct (canFallbackConcurrency err); [| by intros [= <- _]]. intros E. etransitivity; [exact M1 | by eapply IH].
Qed.

(** Each attempt takes another deployment. *)
Lemma response_loop_fuel fuel : forall n tried last s,
  (size (untried alias s tried) < fuel)%nat -> (loop fuel n tried last s).2 <> OutOfFuel.
Proof.
  induction fuel as [| fuel IH]; intros n tried last s Hlt; [lia |]. cbn [response_loop].
  destruct (next n tried s) as [s0 res] eqn:En. destruct (next_target_spec _ _ _ _ _ En) as ((Ha & _) & _ & Hres).
  destruct res as [target|err]; [| done]. destruct (Hres target eq_refl) as (Hin & Hnt0 & _).
  destruct (bool_decide (is_Some previous) && bool_decide (rv_DeploymentName target ∈ tried)) eqn:Et0; [by destruct last |].
  assert (rv_DeploymentName target ∉ tried) as Hnt.
  { apply andb_false_iff in Et0 as [Hp | Hp]; apply bool_decide_eq_false in Hp; [| done]. apply Hnt0. destruct previous; [by edestruct Hp | done]. }
  assert (forall s', rg_aliases (gw_registry s') = rg_aliases (gw_registry s) ->
    (size (untried alias s' ({[rv_DeploymentName target]} ∪ tried)) < fuel)%nat) as Hless.
  { intros s' Ea. eapply Nat.lt_le_trans; [by eapply (untried_shrinks getenv alias s) | lia]. }
  destruct (negb _); [by apply IH, Hless |].
  destruct (tryAcquireUpstream _ _ _ _ _ (env n) target s0) as [s1 acq] eqn:Et. apply try_upstream_aliases in Et. rewrite Ha in Et.
  destruct acq as [[p|]|err]; [| by apply IH, Hless | destruct (canFallbackConcurrency err); [by apply IH, Hless | done]].
  destruct (attempt_call _ _ _ _ _ _ _ _ _) as [[acc [opened|err]]|]; [by destruct acc | | done]. destruct acc; [done |].
  destruct (_ || _ || _); [done |]. apply IH, Hless. rewrite (proj1 (record_failure_quiet _ _ _ _)), release_aliases. exact Et.
Qed.

(** A call depends on what the providers answer to the bodies of the request, and
    for a continued response on the deployment that keeps it only. *)
Lemma response_loop_ext post' fuel :
  (forall n t, (forall b, previous = Some b -> is_bound b t = true) ->
     post n t (encoded req (txt (rv_UpstreamModel t)) (previous_upstream previous)) =
     post' n t (encoded req (txt (rv_UpstreamModel t)) (previous_upstream previous))) ->
  forall n tried last s, loop fuel n tried last s =
    response_loop getenv limiter has_store guarded partition read_error streaming alias rc env clock post' previous req fuel n tried last s.
Proof.
  intros Hpost. induction fuel as [| fuel IH]; intros n tried last s; cbn [response_loop]; [done |].
  destruct (next n tried s) as [s0 [target|err]] eqn:En; [| done]. apply next_target_spec in En as (_ & _ & Ht).
  destruct (_ && _); [done |]. destruct (negb _); [done |].
  destruct (tryAcquireUpstream _ _ _ _ _ _ _ _) as [s1 [[p|]|err]]; [| done | by destruct (canFallbackConcurrency err)].
  unfold attempt_call. rewrite <- Hpost by by apply Ht. destruct (response_attempt _ _ _ _ _) as [[acc [opened|err]]|]; [done | | done].
  destruct acc; [done |]. by destruct (_ || _ || _).
Qed.
End attempt_facts.

(** ** Facts of the stream *)

Section stream_facts.
Variable decode : bytes -> option raw.
Variable render : raw -> bytes.
Variable read_error : sse_error -> go_error.
(** The binding the stream starts with, and the table then. *)
Variable b0 : ResponseBinding.
Variable t0 : response_table.
Variable storeResponse : bool.
Implicit Types (st : response_stream).

(** An event that names the gateway's response and no other. *)
Definition gateway_event (m : gmap text raw) : Prop :=
  (m !! txt "response_id" = None \/ m !! txt "response_id" = Some (JStr (rb_ID b0))) /\
  match present (m !! txt "response") with
  | Some body => exists m', body = marshal_map m' /\ m' !! txt "id" = Some (JStr (rb_ID b0)) /\ m' !! txt "model" = Some (JStr (rb_Alias b0))
  | None => True
  end.

(** What a client reads of a stream: keepalives and such events. *)
Inductive response_output : bytes -> Prop :=
| ro_start : response_output []
| ro_keepalive bs : response_output bs -> response_output (bs ++ keepalive)
| ro_event bs event m : gateway_event m -> response_output bs -> response_output (bs ++ encode event (render (marshal_map m))).

Definition usage_counts (u : option ResponseUsage) : Prop := forall x, u = Some x -> counts_ok x.

(** The binding of a stream in progress. *)
Definition bound (b : ResponseBinding) : Prop := same_identity b0 b /\ 0 <= rb_TotalTokens b /\ int64_ok (rb_TotalTokens b).

(** A stream between two turns. *)
Record streaming_ok st : Prop := {
  so_counts : usage_counts (st_usage st);
  so_bound : bound (st_binding st);
  so_table : rtc binding_step t0 (st_table st);
  so_output : response_output (st_out st);
  so_committed : st_committed st = true -> rb_UpstreamID (st_binding st) <> [];
  so_stored : storeResponse = true -> rb_UpstreamID (st_binding st) <> [] -> st_stored st = true;
}.

(** A stream that has ended. *)
Record ended_ok st : Prop := {
  eo_counts : usage_counts (st_usage st);
  eo_table : rtc binding_step t0 (st_table st);
  eo_output : exists sent bs, response_output bs /\ sent `prefix_of` bs /\ st_out st `prefix_of` sent ++ error_frame render;
  eo_stored : storeResponse = true -> st_committed st = true -> st_stored st = true;
}.

Definition turn_ok (t : response_turn) : Prop := forall tb, rtc binding_step tb (sv_others (rt_save t) tb).

(** A save of a rewritten binding is a step of the table. *)
Lemma saveResponseBinding_steps sv create b t t' err :
  (forall tb, rtc binding_step tb (sv_others sv tb)) -> binding_ok b -> saveResponseBinding sv create b t = (t', err) -> rtc binding_step t t'.
Proof.
  intros Ho Hb. unfold saveResponseBinding. destruct (sv_error sv) as [[[] e]|].
  2: { intros [= <- _]. apply Ho. }
  all: destruct (save_statement sv create b (sv_others sv t)) as [t1|] eqn:Es; intros [= <- _]; [| apply Ho];
    eapply rtc_r; [apply Ho |]; revert Es; unfold save_statement; destruct create; intros Es; [by eapply bs_create | by eapply bs_update].
Qed.

(** A save that succeeded leaves the row. *)
Lemma saveResponseBinding_row sv b t t' :
  saveResponseBinding sv true b t = (t', None) -> t' !! rb_ID b = Some (b, sv_now sv + response_retention).
Proof.
  unfold saveResponseBinding, save_statement. destruct (sv_error sv) as [[[] e]|]; [| done |].
  all: unfold CreateResponseBinding; destruct (_ || _ || _); [done |]; cbn; try done.
  intros [= <-]. by rewrite lookup_insert_eq.
Qed.

(** A stream that may only fail. *)
Record failing_ok st : Prop := {
  fo_counts : usage_counts (st_usage st);
  fo_table : rtc binding_step t0 (st_table st);
  fo_output : exists bs, response_output bs /\ st_out st `prefix_of` bs;
  fo_stored : storeResponse = true -> st_committed st = true -> st_stored st = true;
}.

Lemma streaming_failing st : streaming_ok st -> failing_ok st.
Proof. intros [? ? ? ? Hc Hs]. split; [done | done | by exists (st_out st) |]. intros H1 H2. by apply Hs, Hc. Qed.

(** What a turn leaves. *)
Definition after_turn (s : response_stream * option stream_result) : Prop :=
  match s.2 with None => streaming_ok s.1 | Some _ => ended_ok s.1 end.

Lemma fail_turn o err st : failing_ok st -> after_turn (fail render o err st).
Proof.
  intros [Hc Ht (bs & Hbs & Hpre) Hs]. unfold fail, after_turn. cbn [fst snd]. split; cbn; [done | done | | done].
  exists (st_out st), bs. split_and!; [done | done |]. destruct (st_committed st); [| by apply prefix_app_r].
  destruct (StreamProxy.write _ o (st_out st)) as [out e] eqn:Ew. apply write_cases in Ew. destruct e; cbn; [done | by subst].
Qed.

(** The event's response names the gateway's. *)
Definition response_named (m : gmap text raw) : Prop :=
  forall body, present (m !! txt "response") = Some body ->
    exists m', body = marshal_map m' /\ m' !! txt "id" = Some (JStr (rb_ID b0)) /\ m' !! txt "model" = Some (JStr (rb_Alias b0)).

Lemma marshalled_present m : present (Some (marshal_map m)) = Some (marshal_map m).
Proof. done. Qed.

(** The response of an event: the stream goes on, or fails. *)
Lemma event_response_ok t kind m st st' res :
  turn_ok t -> streaming_ok st -> event_response storeResponse t kind m st = (st', res) ->
  match res with Ok m => streaming_ok st' /\ response_named m | Err _ => failing_ok st' end.
Proof.
  intros Hturn Hst. pose proof Hst as [Hc [Hi [H0 Hr]] Ht Ho Hcom Hsto]. unfold event_response.
  destruct (present (m !! txt "response")) as [body|] eqn:Ep.
  2: { destruct (bool_decide _); intros [= <- <-]; [by apply streaming_failing |]. split; [done |]. intros body Eb. congruence. }
  pose proof (rewriteResponse_identity body (st_binding st)) as [Hid Hup].
  destruct (rewriteResponse body (st_binding st)) as [b [[out e]|]] eqn:Er; cbn [fst] in Hid, Hup.
  2: { intros [= <- <-]. apply streaming_failing in Hst as []. by split. }
  destruct (rewritten_response_is_the_gateways _ _ _ _ _ H0 Hr Er) as (Hb & Hue & _ & _ & l & m' & _ & Hout & Hm1 & Hm2 & _).
  assert (usage_counts (match en_Usage e with Some u => Some u | None => st_usage st end)) as Hc'.
  { intros u. destruct (en_Usage e) as [u'|] eqn:Eu; [| by apply Hc]. intros [= <-]. by eapply rewritten_counts. }
  assert (same_identity b0 b) as Hib by by etransitivity.
  assert (rb_UpstreamID b <> []) as Hune. { intros E. destruct Hb as [Hb _]. rewrite E in Hb. by vm_compute in Hb. }
  assert (response_named (<[txt "response" := out]> m)) as Hnamed.
  { intros body'. rewrite lookup_insert_eq. subst out. rewrite marshalled_present. intros [= <-].
    destruct Hi as (Ei & _ & _ & _ & Ea & _). rewrite Ei in Hm1. rewrite Ea in Hm2. eauto. }
  assert (forall tb, rtc binding_step t0 tb -> forall stored, (storeResponse = true -> stored = true) ->
    streaming_ok (mkResponseStream (st_src st) b tb (st_out st) (st_committed st) stored
      (match en_Usage e with Some u => Some u | None => st_usage st end))) as Hgo.
  { intros tb Htb stored Hs. destruct Hb as (_ & ? & ?). split; cbn; [done | done | done | done | done | by intros ? _; apply Hs]. }
  assert (forall tb, rtc binding_step t0 tb -> failing_ok (mkResponseStream (st_src st) b tb (st_out st) (st_committed st) (st_stored st)
      (match en_Usage e with Some u => Some u | None => st_usage st end))) as Hfail.
  { intros tb Htb. split; cbn; [done | done | by exists (st_out st) |]. intros H1 H2. by apply Hsto, Hcom. }
  destruct (_ && _); [intros [= <- <-]; by apply Hfail |]. cbn [st_stored st_src st_table st_out st_committed].
  destruct (storeResponse && (negb (st_stored st) || bool_decide (kind ∈ terminal_kinds))) eqn:Esave.
  - destruct (saveResponseBinding _ _ _ _) as [tb [err|]] eqn:Es; intros [= <- <-].
    all: assert (rtc binding_step t0 tb) as Htb by (etransitivity; [exact Ht | by eapply saveResponseBinding_steps]).
    + by apply Hfail.
    + split; [by apply Hgo | done].
  - intros [= <- <-]. split; [| done]. apply Hgo; [done |]. intros ->. cbn in Esave. apply orb_false_iff in Esave as [Es _].
    by apply negb_false_iff in Es.
Qed.

Lemma named_event m b :
  response_named m -> rb_ID b = rb_ID b0 ->
  gateway_event (match m !! txt "response_id" with Some _ => putJSON "response_id" (jstr (rb_ID b)) m | None => m end).
Proof.
  intros Hm Hb. assert (txt "response_id" <> txt "response") as Hne by (intros E; by vm_compute in E).
  destruct (m !! txt "response_id") eqn:Ei; split.
  - right. unfold putJSON. by rewrite lookup_insert_eq, Hb.
  - unfold putJSON. rewrite lookup_insert_ne by done. case_match eqn:E; [by apply Hm | done].
  - by left.
  - case_match eqn:E; [by apply Hm | done].
Qed.

Lemma event_write_ok t event kind m st :
  streaming_ok st -> response_named m -> rb_UpstreamID (st_binding st) <> [] -> after_turn (event_write render read_error t event kind m st).
Proof.
  intros Hst Hm Hu. pose proof Hst as [Hc Hb Ht Ho Hcom Hsto]. unfold event_write.
  set (m1 := match m !! txt "response_id" with Some _ => _ | None => m end).
  assert (gateway_event m1) as Hg by (apply named_event; [done | by destruct Hb as [[] _]]).
  destruct (pauseIdle _ _) as [src [c|]]; [apply fail_turn; apply streaming_failing in Hst as []; by split |].
  set (frame := encode event _). assert (response_output (st_out st ++ frame)) as Ho' by by constructor.
  destruct (StreamProxy.write frame _ _) as [out [err|]] eqn:Ew; apply write_cases in Ew.
  { apply fail_turn. split; cbn; [done | done | by exists (st_out st ++ frame) | by intros H1 _; apply Hsto]. }
  subst out. set (s1 := mkResponseStream _ _ _ _ _ _ _). assert (streaming_ok s1) as Hok by (split; cbn; done).
  assert (ended_ok s1) as Hend.
  { split; cbn; [done | done | | by intros H1 _; apply Hsto].
    exists (st_out st ++ frame), (st_out st ++ frame). split_and!; [done | done | by apply prefix_app_r]. }
  unfold after_turn. cbn [fst snd]. by repeat destruct (bool_decide _).
Qed.

Lemma forward_turn_ok t st : turn_ok t -> streaming_ok st -> after_turn (forward_turn decode render read_error storeResponse t st).
Proof.
  intros Hturn Hst. pose proof Hst as [Hc Hb Ht Ho Hcom Hsto]. unfold forward_turn.
  destruct (pull _ _ _) as [[src out] pulled] eqn:Ep. apply (pull_output _ ro_keepalive) in Ep as (bs & Hbs & Hpre & Hout); [| done].
  destruct pulled as [event|e]; cycle 1.
  { apply fail_turn. split; cbn; [done | done | eauto | intros H1 H2; by apply Hsto, Hcom]. }
  subst bs. set (s1 := mkResponseStream _ _ _ _ _ _ _). assert (streaming_ok s1) as Hs1 by (split; cbn; done).
  pose proof (streaming_failing _ Hs1) as Hf1.
  destruct (_ || _); [done |]. destruct (decode _ ≫= into_raw) as [[m|]|]; try by apply fail_turn.
  destruct (event_kind m) as [kind|]; [| by apply fail_turn]. destruct (negb _); [by apply fail_turn |].
  destruct (event_response _ _ _ _ _) as [s2 res] eqn:Er. apply event_response_ok in Er; [| done | done].
  destruct res as [m'|err]; [| by apply fail_turn]. destruct Er as [Hs2 Hm]. pose proof (streaming_failing _ Hs2) as Hf2.
  destruct (bool_decide (kind = _)).
  - destruct (st_committed s2) eqn:Ec; [apply event_write_ok; [done | done | by apply Hs2] | by apply fail_turn].
  - case_bool_decide; [by apply fail_turn | by apply event_write_ok].
Qed.

Lemma forward_ok ts st : Forall turn_ok ts -> streaming_ok st -> after_turn (forwardResponseStream decode render read_error storeResponse ts st).
Proof.
  intros Hts. revert st. induction Hts as [| t ts Ht _ IH]; intros st Hst; cbn [forwardResponseStream]; [done |].
  pose proof (forward_turn_ok t st Ht Hst) as Ha. destruct (forward_turn _ _ _ _ _ _) as [s1 [r|]]; [done | by apply IH].
Qed.
Lemma opened_ok src t : rb_TotalTokens b0 = 0 -> rb_UpstreamID b0 = [] -> t = t0 -> streaming_ok (mkResponseStream src b0 t [] false false None).
Proof.
  intros Ht Hu ->. split; cbn; [done | | done | constructor | done | done]. split; [done |]. rewrite Ht. split; [lia | apply zero_int64_ok].
Qed.

(** The row a client can refer to. *)
Definition row_stored (t : response_table) : Prop := exists b e, t !! rb_ID b0 = Some (b, e) /\ same_identity b0 b /\ binding_ok b.

Lemma event_response_stores t kind m st :
  bound (st_binding st) -> st_stored st = false -> st_stored (event_response storeResponse t kind m st).1 = true ->
  row_stored (st_table (event_response storeResponse t kind m st).1).
Proof.
  intros (Hi & H0 & Hr) Hs. unfold event_response. destruct (present _) as [body|]; [| cbn; congruence].
  pose proof (rewriteResponse_identity body (st_binding st)) as [Hid _].
  destruct (rewriteResponse body (st_binding st)) as [b [[out e]|]] eqn:Er; [| cbn; congruence].
  destruct (rewritten_response_is_the_gateways _ _ _ _ _ H0 Hr Er) as (Hb & _). cbn [fst] in Hid.
  destruct (_ && _); cbn; [congruence |]. rewrite Hs. destruct (_ && _); cbn; [| congruence].
  destruct (saveResponseBinding _ _ _ _) as [tb [err|]] eqn:Es; cbn; [congruence |]. intros _.
  apply saveResponseBinding_row in Es. exists b. eexists. split_and!; [| by etransitivity | done].
  destruct Hi as [<- _], Hid as [<- _]. exact Es.
Qed.

Lemma event_write_table t event kind m st :
  st_table (event_write render read_error t event kind m st).1 = st_table st /\ st_stored (event_write render read_error t event kind m st).1 = st_stored st.
Proof. unfold event_write. destruct (pauseIdle _ _) as [src [c|]]; [done |]. by destruct (StreamProxy.write _ _ _) as [out [err|]]. Qed.

Lemma forward_turn_stores t st :
  streaming_ok st -> st_stored st = false -> let s := forward_turn decode render read_error storeResponse t st in
  st_stored s.1 = true -> row_stored (st_table s.1).
Proof.
  intros [_ Hb _ _ _ _] Hs. cbv zeta. unfold forward_turn. destruct (pull _ _ _) as [[src out] [event|e]]; [| cbn; congruence].
  set (s1 := mkResponseStream _ _ _ _ _ _ _). assert (st_stored s1 = false) as Hs1 by done.
  assert (forall o err, st_stored (fail render o err s1).1 = true -> row_stored (st_table (fail render o err s1).1)) as Hf by (intros; cbn in *; congruence).
  destruct (_ || _); [cbn; congruence |]. destruct (decode _ ≫= into_raw) as [[m|]|]; [| apply Hf..].
  destruct (event_kind m) as [kind|]; [| apply Hf]. destruct (negb _); [apply Hf |].
  pose proof (event_response_stores t kind m s1 Hb Hs1) as He. destruct (event_response _ _ _ _ _) as [s2 [m'|err]]; cbn [fst] in He; [| exact He].
  destruct (event_write_table t event kind m' s2) as [Et Es].
  destruct (bool_decide (kind = _)); [destruct (negb _) | destruct (bool_decide _)]; try (cbn; exact He); by rewrite Et, Es.
Qed.

(** A committed stream was stored by a turn before which nothing was committed. *)
Lemma forward_stores ts st :
  storeResponse = true -> Forall turn_ok ts -> streaming_ok st -> st_stored st = false ->
  let run ts := forwardResponseStream decode render read_error storeResponse ts st in
  st_committed (run ts).1 = true ->
  exists ts1 t ts2, ts = ts1 ++ t :: ts2 /\ (run ts1).2 = None /\ st_committed (run ts1).1 = false /\ row_stored (st_table (run (ts1 ++ [t])).1).
Proof.
  intros Hstore Hts. revert st. induction Hts as [| t ts Ht _ IH]; intros st Hst Hs; cbv zeta.
  { cbn. intros Hc. destruct Hst as [_ _ _ _ H1 H2]. specialize (H2 Hstore (H1 Hc)). congruence. }
  assert (st_committed st = false) as Hnc.
  { destruct (st_committed st) eqn:Hc; [| done]. destruct Hst as [_ _ _ _ H1 H2]. specialize (H2 Hstore (H1 Hc)). congruence. }
  cbn [forwardResponseStream]. pose proof (forward_turn_ok t st Ht Hst) as Ha. pose proof (forward_turn_stores t st Hst Hs) as Hr. cbv zeta in Hr.
  destruct (forward_turn _ _ _ _ _ _) as [s1 r] eqn:Ef. cbn [fst] in Hr. destruct (st_stored s1) eqn:Es1.
  { intros _. exists [], t, ts. split_and!; [done | done | done |]. cbn [app forwardResponseStream]. rewrite Ef. destruct r; by apply Hr. }
  destruct r as [r|].
  - cbn. intros Hc. destruct Ha as [_ _ _ Hx]. cbn in Hx. specialize (Hx Hstore Hc). congruence.
  - intros Hc. destruct (IH s1 Ha Es1 Hc) as (ts1 & t1 & ts2 & -> & E1 & E2 & E3). exists (t :: ts1), t1, ts2.
    cbn [app forwardResponseStream]. by rewrite Ef.
Qed.
End stream_facts.

(** ** Facts of the endpoint *)

Lemma decode_limit {F} (parse_float : string -> option F) body r n :
  decodeResponseRequest parse_float body = Some r -> rr_MaxOutputTokens r = Some n -> 1 <= n <= 1000000.
Proof.
  destruct body as [| | | | | l]; try done. intros Hd%decode_checks Hn. destruct Hd as (r0 & input & _ & -> & _ & _ & _ & Hm & _). by apply Hm.
Qed.

Section endpoint_facts.
Context {B R F : Type} `{BreakerStore B, RedisZSet R}.
Variable getenv : string -> string.
Variable json_size : UsageEntry -> Z.
Variable alive : string -> option Z -> Z -> bool.
Variable limiter : option Limiter.
Variable has_store : bool.
Variable others : nat -> database -> database.
Variable parse_float : string -> option F.
Variable digest : string -> string.
Variable body_len : raw -> Z.
Variable decode : bytes -> option raw.
Variable render : raw -> bytes.
Variable read_error : sse_error -> go_error.
Variable streaming : StreamingConfig.
Variable post : nat -> Resolved -> raw -> native_call.
Implicit Types (w : world B R) (t : response_table).

#[local] Abbreviation history := (rtc (event json_size alive)).
#[local] Abbreviation responses :=
  (Responses getenv json_size alive limiter has_store others parse_float digest body_len decode render read_error streaming post).
#[local] Abbreviation opened_ := (response_opened alive others digest decode render read_error).
#[local] Abbreviation call_ := (response_call getenv alive limiter has_store others digest decode render read_error streaming post).
#[local] Abbreviation admitted_ :=
  (response_admitted getenv alive limiter has_store others digest body_len decode render read_error streaming post).

(** What the surroundings do to the table of bindings is a history of it. *)
Definition saves_ok (rc : response_conditions) : Prop :=
  Forall turn_ok (rc_turns rc) /\ forall tb, rtc binding_step tb (sv_others (rc_save rc) tb).

Section request.
Variable q : handler_request.
Variable w0 : world B R.
Hypothesis Hcons : consistent (hw_db w0).
Hypothesis Hid : hr_id q <> "".
Hypothesis Hothers : forall i d, history d (others i d).
(** The bodies of requests are bounded, and a continued response belongs to the
    alias of the request. *)
Hypothesis Hlen : forall v, 0 <= body_len v < 2 ^ 60.

#[local] Abbreviation tracked := (tracked json_size alive q w0).
#[local] Abbreviation passes := (passes json_size alive q w0).
#[local] Abbreviation started := (started q).

Lemma response_outcome_db rc name rec w : hw_db (response_outcome rc name rec w) = hw_db w.
Proof. by destruct rec. Qed.

Lemma response_outcome_post {A} rc name rec w g tried (out : outcome (A * upstreamPermit)) evs :
  stream_post (hr_alias q) g tried (hw_gateway w) out evs -> stream_post (hr_alias q) g tried (hw_gateway (response_outcome rc name rec w)) out evs.
Proof. by destruct rec. Qed.

Lemma response_outcome_tracked n rc name rec w : tracked n w -> tracked n (response_outcome rc name rec w).
Proof. intros Ht. destruct rec; [by apply tracked_gateway.. | done]. Qed.

(** The row and the permit of an opened call. *)
Lemma response_record_passes {A} w1 w w2 c rc target permit (a : A) rec usage status error tried g evs :
  passes w1 0 w -> tracked 0 w2 -> history (hw_db w) (hw_db w2) ->
  gw_registry g = gw_registry (hw_gateway w) -> gw_events g = gw_events (hw_gateway w) ->
  stream_post (hr_alias q) g tried (hw_gateway w2) (Succeeded target (a, permit)) evs -> (calls evs = [] \/ started (hw_db w2)) ->
  usage_counts usage ->
  passes w1 1 (response_record alive c rc q target permit usage status error
    (meanwhile others 2 (response_outcome rc (rv_DeploymentName target) rec w2))).
Proof.
  intros Hp Ht Hh Er Ee Hpost Hc Hu. unfold response_record. set (canonical := match usage with Some u => _ | None => _ end).
  assert (usage_int64 canonical) as Hcan.
  { unfold canonical. destruct usage as [u|]; [by apply canonical_int64, Hu | apply no_usage_int64]. }
  pose proof (response_outcome_db rc (rv_DeploymentName target) rec w2) as Ed.
  apply (response_outcome_post rc (rv_DeploymentName target) rec) in Hpost.
  apply (response_outcome_tracked 0 rc (rv_DeploymentName target) rec) in Ht as Ht2. set (w3 := response_outcome _ _ _ _) in *.
  set (w4 := meanwhile others 2 w3) in *. assert (tracked 0 w4) as Ht4 by (eapply meanwhile_tracked; [done | done | exact Ht2]).
  assert (history (hw_db w2) (hw_db w4)) as Hh4 by (unfold w4; cbn; rewrite Ed; apply Hothers).
  set (w5 := recordUsage _ _ _ _ _ _ _ _ _ _).
  assert (history (hw_db w4) (hw_db w5)) as Hh5 by by apply recordUsage_history.
  assert (tracked 1 w5) as Ht5 by by eapply recordUsage_tracked.
  assert (hw_gateway w5 = hw_gateway w3) as Eg5 by (unfold w5; by rewrite recordUsage_gateway).
  rewrite <- Eg5 in Hpost. eapply passes_released; [done | exact Hp | done | done | exact Hpost | | done | by etransitivity; [exact Hh | etransitivity]].
  destruct Hc as [? | Hs]; [by left | right].
  apply (started_history json_size alive q (hw_db w2)); [exact (tracked_consistent _ _ _ _ Hcons 0 w2 Ht) | by etransitivity | exact Hs].
Qed.

(** A response in one body. *)
Lemma response_json_ok rc store payload b t t' usage status error rec answer :
  saves_ok rc -> rb_TotalTokens b = 0 ->
  response_json decode rc store payload b t = (t', usage, status, error, rec, answer) -> usage_counts usage /\ rtc binding_step t t'.
Proof.
  intros [_ Hsv] Hb. assert (usage_counts None) as Hn by done. unfold response_json.
  destruct (decode payload) as [body|]; [| by intros [= <- <- _ _ _ _]].
  destruct (rewriteResponse body b) as [b' [[out e]|]] eqn:Er; [| by intros [= <- <- _ _ _ _]].
  assert (usage_counts (en_Usage e)) as Hu by (intros u; by eapply rewritten_counts).
  destruct (rewritten_response_is_the_gateways _ _ _ _ _ ltac:(rewrite Hb; lia) ltac:(rewrite Hb; apply zero_int64_ok) Er) as (Hbok & _).
  destruct (negb _); [by intros [= <- <- _ _ _ _] |].
  destruct (if store then _ else _) as [t1 err] eqn:Es.
  assert (rtc binding_step t t1) as Ht1.
  { destruct store; [by eapply saveResponseBinding_steps | by injection Es as <- _]. }
  destruct err; [by intros [= <- <- _ _ _ _] |]. destruct (if bool_decide _ then _ else _) as [[st er] rc'].
  by destruct (rc_write rc); intros [= <- <- _ _ _ _].
Qed.

Lemma response_opened_passes {A} w1 w w2 c rc r id store target src payload permit (a : A) tried g evs t w' t' o :
  saves_ok rc -> passes w1 0 w -> tracked 0 w2 -> history (hw_db w) (hw_db w2) ->
  gw_registry g = gw_registry (hw_gateway w) -> gw_events g = gw_events (hw_gateway w) ->
  stream_post (hr_alias q) g tried (hw_gateway w2) (Succeeded target (a, permit)) evs -> (calls evs = [] \/ started (hw_db w2)) ->
  opened_ c rc q r id store target src payload permit w2 t = (w', t', o) ->
  rtc binding_step t t' /\ (is_Some o -> passes w1 1 w').
Proof.
  intros Hsv Hp Ht Hh Er Ee Hpost Hc. unfold response_opened. set (b := mkResponseBinding _ _ _ _ _ _ _ _ _ _ _). destruct (rr_Stream r).
  - pose proof (forward_ok decode render read_error b t store (rc_turns rc) _ (proj1 Hsv) (opened_ok render b t store src t eq_refl eq_refl eq_refl)) as Hf.
    destruct (forwardResponseStream _ _ _ _ _ _) as [st [[[status err] rec]|]]; intros [= <- <- <-].
    + destruct Hf as [Hu Htb _ _]. split; [done |]. intros _. by eapply response_record_passes.
    + destruct Hf as [_ _ Htb _ _ _]. split; [done | by intros []].
  - destruct (response_json _ _ _ _ _ _) as [[[[[t1 usage] status] error] rec] answer] eqn:Ej.
    apply response_json_ok in Ej as [Hu Htb]; [| done | done]. intros [= <- <- _]. split; [done |]. intros _. by eapply response_record_passes.
Qed.

Lemma route_response_frame c rc previous r fuel w w' out :
  (forall b, previous = Some b -> utf8_string (rb_Alias b) = hr_alias q) ->
  route_response getenv limiter has_store read_error streaming post c rc q previous r fuel w = (w', out) ->
  exists g evs, gw_registry g = gw_registry (hw_gateway w) /\ gw_events g = gw_events (hw_gateway w) /\
    stream_post (hr_alias q) g ∅ (hw_gateway w') out evs /\ (calls evs = [] \/ started (hw_db w')).
Proof.
  intros Hal E. apply with_mark_frame in E as (env & g & Er & Ee & Erun & Hc).
  - pose proof Erun as Hs. apply response_loop_spec in Hs as (evs & Hpost); [| done]. exists g, evs. split_and!; [done | done | done |].
    apply Hc. apply Hpost.
  - intros env g g' o _ Ef. by eapply response_loop_marks.
Qed.

Lemma response_call_passes w1 c rc r store previous fuel w t w' t' o :
  saves_ok rc -> (forall b, previous = Some b -> utf8_string (rb_Alias b) = hr_alias q) -> passes w1 0 w ->
  call_ c rc q r store previous fuel w t = (w', t', o) -> rtc binding_step t t' /\ (is_Some o -> passes w1 1 w').
Proof.
  intros Hsv Hal Hp. unfold response_call.
  assert (forall err w2 w' t' o, passes w1 0 w2 ->
    (let '(w, e) := writeRoutingError alive c false q err w2 in (w, t, Some e)) = (w', t', o) ->
    rtc binding_step t t' /\ (is_Some o -> passes w1 1 w')) as Hrouting.
  { intros err w2 w'' t'' o' Hp2. pose proof (passes_routing_error _ _ q w0 Hcons Hid w1 c false err _ Hp2) as He.
    destruct (writeRoutingError _ _ _ _ _ _). by intros [= <- <- <-]. }
  destruct (newResponseID _) as [id|]; [| by apply Hrouting]. destruct (if store then _ else _) as [err|]; [by apply Hrouting |].
  assert (passes w1 0 (meanwhile others 1 w)) as Hp1 by by apply passes_meanwhile.
  destruct (route_response _ _ _ _ _ _ _ _ _ _ _ _ _) as [w2 out] eqn:Er.
  destruct (route_response_frame _ _ _ _ _ _ _ _ Hal Er) as (g & evs & Eg & Ee & Hpost & Hc).
  pose proof (with_mark_history json_size alive _ _ _ _ _ _ Er) as [Hh _].
  assert (tracked 0 w2) as Ht2 by (eapply with_mark_tracked; [done | apply Hp1 | exact Er]).
  destruct out as [target [[src payload] permit] | tg err | |]; [by eapply response_opened_passes | | |].
  all: assert (passes w1 0 (meanwhile others 2 w2)) as Hp2 by (by eapply passes_unopened).
  - by apply Hrouting.
  - intros [= <- <- _]. split; [done |]. intros _. by apply (passes_le _ _ _ _ w1 0); [lia |].
  - intros [= <- <- _]. split; [done |]. intros _. by apply (passes_le _ _ _ _ w1 0); [lia |].
Qed.

Lemma response_admitted_passes w1 c rc r body store previous fuel w t w' t' o :
  saves_ok rc -> (forall b, previous = Some b -> utf8_string (rb_Alias b) = hr_alias q /\ 0 <= rb_TotalTokens b /\ int64_ok (rb_TotalTokens b)) ->
  (forall n, rr_MaxOutputTokens r = Some n -> 1 <= n <= 1000000) -> passes w1 0 w -> is_Some (hw_run w) ->
  admitted_ c rc q r body store previous fuel w t = (w', t', o) -> rtc binding_step t t' /\ (is_Some o -> passes w1 1 w').
Proof.
  intros Hsv Hprev Hmax Hp Hrun. assert (passes w1 1 w) as Hp1 by (by apply (passes_le _ _ _ _ w1 0); [lia |]). unfold response_admitted.
  assert (forall rep denial w2 w' t' o, passes w1 0 w2 -> (let '(w, e) := gate_answer alive c q rep denial w2 in (w, t, e)) = (w', t', o) ->
    rtc binding_step t t' /\ (is_Some o -> passes w1 1 w')) as Hgate.
  { intros rep denial w2 w'' t'' o' Hp2. pose proof (passes_gate _ _ _ _ Hcons Hid w1 c rep denial w2 Hp2).
    destruct (gate_answer _ _ _ _ _ _). by intros [= <- <- _]. }
  destruct (admitCustomerPricing _ _ _) as [u|err].
  2: { destruct (err.1 =? 400); [unfold deny; intros [= <- <- _]; split; [done |]; intros _; by apply passes_denial | by intros [= <- <- _]]. }
  destruct (estimate _ _ _) as [[prompt completion]|] eqn:Ee; [| by intros [= <- <- _]].
  apply estimate_range in Ee as (_ & _ & Hpr & Hco & _); [| apply Hlen | intros b Hb; by apply Hprev | done].
  destruct (enforceRateLimit _ _ _ _) as [| rep denial]; [| by apply Hgate].
  destruct (enforceBudget _ _ _ _ _ _) as [w2 gt] eqn:Eb.
  destruct (enforceBudget_tracked _ _ _ _ Hcons _ _ _ _ _ _ _ _ (proj1 Hp) Hrun Hpr Hco Eb) as (Ht2 & _ & Eg & Hh).
  assert (passes w1 0 w2) as Hp2 by by eapply passes_quiet.
  destruct gt as [| rep denial]; [| by apply Hgate]. apply response_call_passes; [done | intros b Hb; by apply Hprev | done].
Qed.
End request.

(** The response that is continued: the requester's own, of the same alias and
    customer, and done. *)
Lemma load_previous_spec rc q r t b :
  load_previous digest rc q r t = Ok (Some b) ->
  GetResponseBinding (rc_load_now rc) (tm_ID (hr_team q)) (responseOwner digest (hr_key q) (hr_owner q)) (rr_PreviousID r) t = Some b /\
  rb_Alias b = rr_Model r /\ rb_CustomerExternalID b = hr_customer q /\ rb_Status b ∈ [txt "completed"; txt "incomplete"].
Proof.
  unfold load_previous. case_bool_decide; [done |]. unfold loadResponseBinding. destruct (_ || _); [done |].
  destruct (rc_load rc); [done |]. destruct (GetResponseBinding _ _ _ _ _) as [b'|]; [| done].
  destruct (negb (bool_decide (rb_Alias b' = _)) || _) eqn:Ea; [done |]. destruct (negb (bool_decide (rb_Status b' ∈ _))) eqn:Es; [done |].
  intros [= <-].
  apply orb_false_iff in Ea as [Ea Ec]. apply negb_false_iff in Ea, Ec, Es. apply bool_decide_eq_true in Ea, Es. apply String.eqb_eq in Ec. done.
Qed.

Lemma GetResponseBinding_row now team owner id t b :
  GetResponseBinding now team owner id t = Some b -> exists e, t !! id = Some (b, e) /\ rb_TeamID b = team /\ rb_Owner b = owner /\ now < e.
Proof.
  unfold GetResponseBinding. destruct (t !! id) as [[b' e]|]; [| done]. cbn. destruct (_ && _) eqn:E; [| done]. intros [= ->].
  apply andb_true_iff in E as [[Ht Ho]%andb_true_iff He]. apply String.eqb_eq in Ho. exists e. split_and!; [done | lia | done | lia].
Qed.

Section accounted.
Hypothesis Hothers : forall i d, history d (others i d).
Hypothesis Hlen : forall v, 0 <= body_len v < 2 ^ 60.

Lemma Responses_accounted c rc q body fuel w t w' t' o :
  consistent (hw_db w) -> hr_id q <> "" -> saves_ok rc -> table_ok t -> responses c rc q body fuel w t = (w', t', o) ->
  rtc binding_step t t' /\ (is_Some o -> exists q', hr_id q' = hr_id q /\ accounted_for json_size alive q' w w').
Proof.
  intros Hcons Hid Hsv Htb. unfold Responses. destruct (body ≫= decodeResponseRequest parse_float) as [r|] eqn:Ed.
  2: { intros [= <- <- _]. split; [done |]. intros _. exists q. split; [done | apply fresh_accounted]. }
  set (q1 := response_request rc q r). assert (hr_id q1 = hr_id q) as E1 by done.
  destruct (negb _).
  { unfold deny. intros [= <- <- _]. split; [done |]. intros _. exists q1. split; [done | by apply denied_accounted]. }
  destruct (_ =? "")%string; [intros [= <- <- _]; split; [done |]; intros _; exists q1; split; [done | apply fresh_accounted] |].
  destruct (load_previous _ _ _ _ _) as [previous|e] eqn:El.
  2: { intros [= <- <- _]. split; [done |]. intros _. exists q1. split; [done | apply fresh_accounted]. }
  destruct (admitRequestConcurrency _ _ _ _ _ _ _ _ _) as [w1 res] eqn:Ea.
  eapply admission_accounted in Ea; [| done..]. destruct res as [lease|err]; [| intros [= <- <- _]; split; [done |]; intros _; by exists q1].
  destruct Ea as (Hp1 & Hrun & Hrelease).
  assert (forall b, previous = Some b -> utf8_string (rb_Alias b) = hr_alias q1 /\ 0 <= rb_TotalTokens b /\ int64_ok (rb_TotalTokens b)) as Hprev.
  { intros b ->. apply load_previous_spec in El as (Hg & Ha & _). apply GetResponseBinding_row in Hg as (e & Hrow & _).
    destruct (Htb _ _ _ Hrow) as (_ & _ & ? & ?). split_and!; [by rewrite Ha | done | done]. }
  assert (forall n, rr_MaxOutputTokens r = Some n -> 1 <= n <= 1000000) as Hmax.
  { intros n. destruct body as [v|]; [| done]. by apply (decode_limit parse_float v). }
  destruct (response_admitted _ _ _ _ _ _ _ _ _ _ _ _ _ _ _ _ _ _ _ _ _) as [[w2 t2] o2] eqn:Eadm.
  eapply (response_admitted_passes q1 w Hcons Hid Hothers Hlen w1) in Eadm as [Ht2 Hp2]; [| done..].
  destruct o2 as [e2|]; intros [= <- <- <-]; (split; [done |]).
  - intros _. exists q1. split; [done |]. apply (Hrelease 1%nat); [lia |]. apply Hp2. by eexists.
  - by intros [].
Qed.

(** No admitted Responses request is lost: once it has its durable entry, then
    however it ends (a refusal, an upstream error, a malformed, incomplete or
    interrupted answer, a binding that cannot be stored, a client that has gone),
    the entry is complete in the database, or the replica is unready until the
    recovery has seen to it. The database stays reachable, and the table of
    response bindings goes through steps of its own. *)
Theorem responses_recorded (c : conditions) (rc : response_conditions) (q : handler_request) (body : option raw) (fuel : nat)
    (w w' : world B R) (t t' : response_table) (e : ending) (Hid : hr_id q <> "") (Hsv : saves_ok rc)
    (Hd : reachable json_size alive (hw_db w)) (Ht : rtc binding_step ∅ t) (Hl : 0 <= lg_failures (hw_logger w) < 2 ^ 64)
    (E : responses c rc q body fuel w t = (w', t', Some e)) :
  reachable json_size alive (hw_db w') /\ rtc binding_step ∅ t' /\
  (is_Some (hw_run w') -> finished (hw_db w') (hr_id q) \/ Ready (hw_logger w') = false).
Proof.
  apply Responses_accounted in E as [Htb Ha]; [| by eapply reachable_consistent | done | done | by apply reachable_table].
  destruct (Ha ltac:(by eexists)) as (q' & Eq & Hacc). split_and!.
  - destruct Hacc as ([Hh _ _] & _). unfold reachable in *. by etransitivity.
  - by etransitivity.
  - intros [run Hrun]. rewrite <- Eq. by eapply accounted_recorded.
Qed.

(** A Responses request gives back everything it took, streams included, and
    calls a provider only for a durably started entry. *)
Theorem responses_return_everything (c : conditions) (rc : response_conditions) (q : handler_request) (body : option raw) (fuel : nat)
    (w w' : world B R) (t t' : response_table) (e : ending) (Hid : hr_id q <> "") (Hsv : saves_ok rc)
    (Hd : reachable json_size alive (hw_db w)) (Ht : rtc binding_step ∅ t)
    (E : responses c rc q body fuel w t = (w', t', Some e)) :
  exists evs, gw_events (hw_gateway w') = gw_events (hw_gateway w) ++ evs /\ replay evs [] [] = Some ([], []) /\
    same_counters (rg_deploymentLimits (gw_registry (hw_gateway w))) (rg_deploymentLimits (gw_registry (hw_gateway w'))) /\
    (calls evs = [] \/ exists j, db_journal (hw_db w') !! hr_id q = Some j /\ jr_started j = true).
Proof.
  apply Responses_accounted in E as [_ Ha]; [| by eapply reachable_consistent | done | done | by apply reachable_table].
  destruct (Ha ltac:(by eexists)) as (q' & Eq & _ & _ & _ & evs & (_ & Hc & He) & Hr & Hst). exists evs. split_and!; [done | done | done |].
  rewrite <- Eq. exact Hst.
Qed.
End accounted.
End endpoint_facts.

(** ** What the client and the providers see *)

(** Nothing of a stored response reaches the client before it can be continued:
    when a stream has sent anything but keepalives, some turn before which it had
    not left the binding in the table, with the owner, the customer, the alias,
    the deployment and the identifier the client is given. *)
Theorem stored_before_the_client_sees_it (decode : bytes -> option raw) (render : raw -> bytes) (read_error : sse_error -> go_error)
    (b : ResponseBinding) (t : response_table) (src : chatStream) (ts : list response_turn) (Hts : Forall turn_ok ts)
    (Hb : rb_TotalTokens b = 0) (Hu : rb_UpstreamID b = [])
    (Hc : st_committed (forwardResponseStream decode render read_error true ts (mkResponseStream src b t [] false false None)).1 = true) :
  let run ts := forwardResponseStream decode render read_error true ts (mkResponseStream src b t [] false false None) in
  exists ts1 turn ts2, ts = ts1 ++ turn :: ts2 /\ st_committed (run ts1).1 = false /\
    exists b' expires, st_table (run (ts1 ++ [turn])).1 !! rb_ID b = Some (b', expires) /\ same_identity b b' /\ binding_ok b'.
Proof.
  intros run. pose proof (opened_ok render b t true src t Hb Hu eq_refl) as Hok.
  destruct (forward_stores _ _ _ _ _ _ _ _ eq_refl Hts Hok eq_refl Hc) as (ts1 & turn & ts2 & E & _ & Hn & Hrow). by exists ts1, turn, ts2.
Qed.

(** A client of a stream sees the gateway's identifiers only: whatever the provider
    sends and however reads, saves and writes fail, the bytes are keepalives and
    events whose [response_id] and whose response's [id] and [model] are those of
    the gateway, then at most a part of one and an error frame. *)
Theorem client_sees_gateway_responses (decode : bytes -> option raw) (render : raw -> bytes) (read_error : sse_error -> go_error)
    (b : ResponseBinding) (t : response_table) (src : chatStream) (store : bool) (ts : list response_turn) (Hts : Forall turn_ok ts)
    (Hb : rb_TotalTokens b = 0) (Hu : rb_UpstreamID b = []) :
  exists sent bs, response_output render b bs /\ sent `prefix_of` bs /\
    st_out (forwardResponseStream decode render read_error store ts (mkResponseStream src b t [] false false None)).1
      `prefix_of` sent ++ error_frame render.
Proof.
  pose proof (forward_ok decode render read_error b t store ts _ Hts (opened_ok render b t store src t Hb Hu eq_refl)) as Ha.
  destruct (forwardResponseStream _ _ _ _ _ _) as [st [r|]]; [by destruct Ha |]. destruct Ha as [_ _ _ Ho _ _].
  exists (st_out st), (st_out st). split_and!; [done | done | by apply prefix_app_r].
Qed.

Section seen.
Context {B R F : Type} `{BreakerStore B, RedisZSet R}.
Variable getenv : string -> string.
Variable json_size : UsageEntry -> Z.
Variable alive : string -> option Z -> Z -> bool.
Variable limiter : option Limiter.
Variable has_store : bool.
Variable others : nat -> database -> database.
Variable parse_float : string -> option F.
Variable digest : string -> string.
Variable body_len : raw -> Z.
Variable decode : bytes -> option raw.
Variable render : raw -> bytes.
Variable read_error : sse_error -> go_error.
Variable streaming : StreamingConfig.
(** Two worlds of providers. *)
Variables post post' : nat -> Resolved -> raw -> native_call.

#[local] Abbreviation responses p :=
  (Responses getenv json_size alive limiter has_store others parse_float digest body_len decode render read_error streaming p).

(** The calls a request may cause: its own members under the target's model, with
    a reference, as the provider reads it, to nothing when the client gave none,
    and else to the provider's name of the response the client named, which is
    unexpired, the requester's own, of the same customer and alias, and kept by
    the target. *)
Definition may_ask (rc : response_conditions) (q : handler_request) (body : option raw) (t : response_table) (target : Resolved) (sent : raw) : Prop :=
  exists r m previous, body ≫= decodeResponseRequest parse_float = Some r /\
    sent = encoded r (txt (rv_UpstreamModel target)) previous /\ sent = marshal_map m /\
    m !! txt "model" = Some (JStr (txt (rv_UpstreamModel target))) /\
    ((rr_PreviousID r = [] /\ m !! txt "previous_response_id" ∈ [None; Some JNull; Some (JStr [])]) \/
     exists b e, t !! rr_PreviousID r = Some (b, e) /\ rc_load_now rc < e /\ rb_TeamID b = tm_ID (hr_team q) /\
       rb_Owner b = responseOwner digest (hr_key q) (hr_owner q) /\ rb_Alias b = rr_Model r /\
       rb_CustomerExternalID b = extractCustomerID (rc_customer rc).1 (rc_customer rc).2 (utf8_string (rr_User r)) /\
       is_bound b target = true /\ m !! txt "previous_response_id" = Some (JStr (rb_UpstreamID b))).

Lemma reference_is_checked rc q l r t previous target :
  rtc binding_step ∅ t -> decodeResponseRequest parse_float (JObj l) = Some r -> plain_key "previous_response_id" l ->
  load_previous digest rc (response_request rc q r) r t = Ok previous -> (forall b, previous = Some b -> is_bound b target = true) ->
  may_ask rc q (Some (JObj l)) t target (encoded r (txt (rv_UpstreamModel target)) (previous_upstream previous)).
Proof.
  intros Ht%reachable_table Hd Hp El Hbound.
  destruct (encoded_reference _ l r (txt (rv_UpstreamModel target)) (previous_upstream previous) Hd Hp) as (m & Em & Hm & Href).
  exists r, m, (previous_upstream previous). split_and!; [done | done | done | done |]. destruct previous as [b|]; cbn in Href; [right | left].
  - apply load_previous_spec in El as (Hg & Ha & Hc & _). apply GetResponseBinding_row in Hg as (e & Hrow & Hteam & Ho & He).
    exists b, e. split_and!; [done | done | done | done | done | done | by apply Hbound |].
    destruct (Ht _ _ _ Hrow) as (_ & Hpat & _). rewrite bool_decide_false in Href; [done |]. intros Hu. rewrite Hu in Hpat. by vm_compute in Hpat.
  - assert (rr_PreviousID r = []) as Hr; [| split; [done | by apply Href]].
    revert El. unfold load_previous. case_bool_decide; [done |]. destruct (loadResponseBinding _ _ _ _ _) as [b|]; [| done].
    destruct (_ || _); [done |]. by destruct (negb _).
Qed.

(** C19. A stored response is continued by its owner alone, and at the deployment that
    keeps it, for bodies in which no member's name differs from
    [previous_response_id] in case only: two worlds of providers that answer
    alike to the calls the request may cause are not told apart by it. So what a
    provider is sent is the decoded request under the target's model, which
    refers to no response, or by its name at the provider to the one the client
    named, and then that one is unexpired, of the same team, owner, customer and
    alias and kept by this very deployment. In other bodies a reference passes
    unchecked ([Responses.previous_response_is_smuggled]). *)
Theorem continuations_stay_with_their_owner (c : conditions) (rc : response_conditions) (q : handler_request) (body : option raw)
    (fuel : nat) (w : world B R) (t : response_table) (Ht : rtc binding_step ∅ t)
    (Hplain : forall l, body = Some (JObj l) -> plain_key "previous_response_id" l)
    (Hpost : forall n target sent, may_ask rc q body t target sent -> post n target sent = post' n target sent) :
  responses post c rc q body fuel w t = responses post' c rc q body fuel w t.
Proof.
  unfold Responses. destruct (body ≫= decodeResponseRequest parse_float) as [r|] eqn:Ed; [| done].
  apply bind_Some in Ed as (v & -> & Ed). destruct (decoded_object _ _ _ Ed) as [l ->]. specialize (Hplain l eq_refl).
  destruct (negb _); [done |]. destruct (_ =? "")%string; [done |].
  destruct (load_previous _ _ _ _ _) as [previous|e] eqn:El; [| done].
  destruct (admitRequestConcurrency _ _ _ _ _ _ _ _ _) as [w1 [lease|e]]; [| done].
  match goal with |- match ?a with _ => _ end = match ?b with _ => _ end => assert (a = b) as ->; [| done] end.
  unfold response_admitted. destruct (admitCustomerPricing _ _ _); [| done]. destruct (estimate _ _ _) as [[prompt completion]|]; [| done].
  destruct (enforceRateLimit _ _ _ _); [| done]. destruct (enforceBudget _ _ _ _ _ _) as [w2 []]; [| done].
  unfold response_call. destruct (newResponseID _) as [id|]; [| done]. destruct (if default true _ then _ else _); [done |].
  unfold route_response. erewrite with_mark_ext; [done |]. intros env g. unfold openResponseWithFallback. apply response_loop_ext.
  - intros b ->. apply load_previous_spec in El as (_ & -> & _). done.
  - intros n target Hbound. apply Hpost. exact (reference_is_checked rc q l r t previous target Ht Ed Hplain El Hbound).
Qed.
End seen.

(** ** Evaluation *)

Definition response_example_decode (data : bytes) : option raw :=
  if bool_decide (data = str "body") then Some (upstream_reply "completed")
  else if bool_decide (data = str "created")
  then Some (JObj [(txt "type", JStr (txt "response.created")); (txt "response", upstream_reply "in_progress")])
  else if bool_decide (data = str "done")
  then Some (JObj [(txt "type", JStr (txt "response.completed")); (txt "response", upstream_reply "completed")])
  else None.

Definition response_reads : http_response :=
  mkHttpResponse 200 "" "text/event-stream" [] [mkArrival 1 1 1 (Ok (data_event "created"))] (2, 2, 2, EOF)
    [mkChunk 1 1 1 (str "body")] (mkChunk 2 2 2 [], StreamRead EOF).

(** The first deployment fails, the second answers. *)
Definition example_post (n : nat) (t : Resolved) (v : raw) : native_call :=
  if (n =? 0)%nat then NativeError http_500 else NativeResponse response_reads.

Definition example_save : save := mkSave (fun tb => tb) 0 true None.
Definition example_response_turn (now : Z) (event : string) : response_turn :=
  mkResponseTurn (example_turn now (data_event event)) example_save WOk.

Definition example_response_conditions : response_conditions :=
  mkResponseConditions ("acme", "") None 0 (Some [7]) None (fun _ => (0, 0))
    [example_response_turn 2 "created"; example_response_turn 3 "done"] example_save WOk (example_env_n 9).

Definition response_key : VirtualKey :=
  mkVirtualKey 7 1 None None "gw-b" "x" "{}" [] [] None None None None None None None 0 None None "" "" "" None.

Definition response_handler_request : handler_request :=
  mkHandlerRequest "r9" auto_team (Some response_key) None "gpt" "acme" 10 (mkResolveContext [] "") false.

Definition run_responses (post : nat -> Resolved -> raw -> native_call) (extra : list (text * raw)) (t : response_table) :
    world Empty_set MapRedis.db * response_table * option ending :=
  Responses example_env small kept None true (fun _ d => d) (F := unit) (fun _ => Some tt) (fun s => s) (fun _ => 100) response_example_decode
    (fun _ => str "{}") (fun _ => ECanceled) (mkStreamingConfig 0 0 0 0) post
    example_conditions example_response_conditions
    response_handler_request
    (Some (JObj (response_body extra))) 4 example_world t.

Definition response_summary (r : world Empty_set MapRedis.db * response_table * option ending) :=
  let '(w, t, e) := r in
  (e, calls (gw_events (hw_gateway w)), option_map jr_state (db_journal (hw_db w) !! "r9"),
   List.map (fun kv => (utf8_string kv.1, rb_Deployment kv.2.1, rb_TotalTokens kv.2.1)) (map_to_list t)).

(** A stored response of the key, kept by the second deployment. *)
Definition continued_binding (owner : string) : ResponseBinding :=
  mkResponseBinding example_response_id (tm_ID auto_team) owner "acme" (txt "gpt") "west" "west" (txt "resp_1") [] (txt "completed") 15.
Definition continued_table (owner : string) : response_table := <[example_response_id := (continued_binding owner, 100)]> ∅.
Definition continues : list (text * raw) := [(txt "previous_response_id", JStr example_response_id)].
Definition post_to (name : string) (n : nat) (t : Resolved) (v : raw) : native_call :=
  if (rv_DeploymentName t =? name)%string then NativeResponse response_reads else NativePanic.

(** One body and a stream are stored and recorded; a continuation goes to the
    deployment that keeps the response, and somebody else's does not exist. *)
Lemma example_responses_api :
  response_summary (run_responses example_post [] ∅) =
    (Some (Answered (200, "")), ["east"; "west"], Some Complete, [("resp_gatemux_07", "west", 15)]) /\
  response_summary (run_responses example_post [(txt "stream", JBool true)] ∅) =
    (Some (Answered (200, "")), ["east"; "west"], Some Complete, [("resp_gatemux_07", "west", 15)]) /\
  (let '(w, _, e) := run_responses (post_to "west") continues (continued_table "key:7") in (e, calls (gw_events (hw_gateway w)))) =
    (Some (Answered (200, "")), ["west"]) /\
  (let '(w, _, e) := run_responses (post_to "west") continues (continued_table "key:8") in (e, calls (gw_events (hw_gateway w)))) =
    (Some (Answered (404, "not_found")), []).
Proof. vm_compute. split_and!; reflexivity. Qed.

Definition streamed_response : world Empty_set MapRedis.db * response_table := (run_responses example_post [(txt "stream", JBool true)] ∅).1.

Lemma example_saves_ok : saves_ok example_response_conditions.
Proof.
  assert (forall now event, turn_ok (example_response_turn now event)) as Ht by (intros ? ? tb; apply rtc_refl).
  split; [| intros tb; apply rtc_refl]. apply Forall_cons. split; [apply Ht |]. apply Forall_cons. split; [apply Ht | by apply Forall_nil].
Qed.

Lemma responses_recorded_witness :
  is_Some (hw_run streamed_response.1) /\ (finished (hw_db streamed_response.1) "r9" \/ Ready (hw_logger streamed_response.1) = false).
Proof.
  destruct (responses_recorded (B := Empty_set) example_env small kept None true (fun _ d => d) (F := unit) (fun _ => Some tt) (fun s => s) (fun _ => 100)
    response_example_decode (fun _ => str "{}") (fun _ => ECanceled) (mkStreamingConfig 0 0 0 0) example_post
    ltac:(intros; constructor) ltac:(intros; split; [discriminate | reflexivity]) example_conditions example_response_conditions
    response_handler_request (Some (JObj (response_body [(txt "stream", JBool true)]))) 4 example_world streamed_response.1 ∅ streamed_response.2
    (Answered (200, "")) ltac:(discriminate) example_saves_ok ltac:(constructor) ltac:(constructor)
    ltac:(vm_compute; split; [discriminate | reflexivity]) ltac:(vm_compute; reflexivity)) as (_ & _ & Hrec).
  assert (is_Some (hw_run streamed_response.1)) as Hrun by (vm_compute; by eexists). split; [exact Hrun | exact (Hrec Hrun)].
Defined.

Lemma responses_return_everything_witness :
  exists evs, gw_events (hw_gateway streamed_response.1) = evs /\ replay evs [] [] = Some ([], []).
Proof.
  destruct (responses_return_everything (B := Empty_set) example_env small kept None true (fun _ d => d) (F := unit) (fun _ => Some tt) (fun s => s)
    (fun _ => 100) response_example_decode (fun _ => str "{}") (fun _ => ECanceled) (mkStreamingConfig 0 0 0 0) example_post
    ltac:(intros; constructor) ltac:(intros; split; [discriminate | reflexivity]) example_conditions example_response_conditions
    response_handler_request (Some (JObj (response_body [(txt "stream", JBool true)]))) 4 example_world streamed_response.1 ∅ streamed_response.2
    (Answered (200, "")) ltac:(discriminate) example_saves_ok ltac:(constructor) ltac:(constructor) ltac:(vm_compute; reflexivity))
    as (evs & He & Hr & _).
  exists evs. split; [exact He | exact Hr].
Defined.

Definition stream_binding : ResponseBinding := mkResponseBinding (txt "r") 1 "key:7" "acme" (txt "gpt") "east" "i1" [] [] [] 0.

Lemma example_stream_committed :
  st_committed (forwardResponseStream response_example_decode (fun _ => str "{}") (fun _ => ECanceled) true (rc_turns example_response_conditions)
    (mkResponseStream (StreamProxy.streaming 0) stream_binding ∅ [] false false None)).1 = true.
Proof. vm_compute. reflexivity. Qed.

Lemma stored_before_the_client_sees_it_witness :
  exists (tb : response_table) b expires, tb !! rb_ID stream_binding = Some (b, expires) /\ same_identity stream_binding b.
Proof.
  pose proof (stored_before_the_client_sees_it response_example_decode (fun _ => str "{}") (fun _ => ECanceled) stream_binding ∅ (StreamProxy.streaming 0)
    (rc_turns example_response_conditions) (proj1 example_saves_ok) eq_refl eq_refl example_stream_committed) as Hs.
  cbv zeta in Hs. destruct Hs as (ts1 & turn & ts2 & _ & _ & b & e & Hrow & Hid & _).
  exists (st_table (forwardResponseStream response_example_decode (fun _ => str "{}") (fun _ => ECanceled) true (ts1 ++ [turn])
    (mkResponseStream (StreamProxy.streaming 0) stream_binding ∅ [] false false None)).1), b, e. split; [exact Hrow | exact Hid].
Defined.

Lemma client_sees_gateway_responses_witness :
  exists bs, response_output (fun _ => str "{}") stream_binding bs.
Proof.
  destruct (client_sees_gateway_responses response_example_decode (fun _ => str "{}") (fun _ => ECanceled) stream_binding ∅ (StreamProxy.streaming 0) true
    (rc_turns example_response_conditions) (proj1 example_saves_ok) eq_refl eq_refl) as (sent & bs & Hbs & _). exists bs. exact Hbs.
Defined.

(** Other deployments and other references are not asked. *)
Lemma continued_table_reachable : rtc binding_step ∅ (continued_table "key:7").
Proof.
  eapply rtc_l; [| apply rtc_refl]. apply (bs_create (100 - response_retention) true (continued_binding "key:7")).
  - split_and!; [vm_compute; reflexivity | done | done].
  - unfold CreateResponseBinding. rewrite lookup_empty, bool_decide_false, Z.sub_add by by intros []. done.
Qed.

Lemma continuations_stay_with_their_owner_witness :
  run_responses (post_to "west") continues (continued_table "key:7") =
  run_responses (fun _ _ _ => NativeResponse response_reads) continues (continued_table "key:7").
Proof.
  unfold run_responses. refine (continuations_stay_with_their_owner (B := Empty_set) example_env small kept None true (fun _ d => d) (F := unit)
    (fun _ => Some tt) (fun s => s) (fun _ => 100) response_example_decode (fun _ => str "{}") (fun _ => ECanceled) (mkStreamingConfig 0 0 0 0)
    (post_to "west") (fun _ _ _ => NativeResponse response_reads) example_conditions example_response_conditions response_handler_request
    (Some (JObj (response_body continues))) 4 example_world (continued_table "key:7") continued_table_reachable _ _).
  { intros l E. injection E as <-. apply plain_keyb_sound. vm_compute. reflexivity. }
  intros n target sent (r & m & previous & Hd & _ & _ & _ & Hcase). assert (rr_PreviousID r = example_response_id) as Hr by (vm_compute in Hd; injection Hd as <-; reflexivity).
  destruct Hcase as [[E _] | (b & e & Hg & _ & _ & _ & _ & _ & Hb & _)]; [rewrite Hr in E; vm_compute in E; discriminate E |].
  rewrite Hr in Hg. unfold continued_table in Hg. rewrite lookup_insert_eq in Hg. injection Hg as <- _.
  unfold is_bound in Hb. apply andb_true_iff in Hb as [Hb _]. change (rb_Deployment (continued_binding "key:7")) with "west" in Hb.
  unfold post_to. rewrite Hb. reflexivity.
Defined.
