(* ===== verification/ResponsesResources.v ===== *)
(** * Stored responses ([api/responses_resources.go])

    Reading a stored response or its input items, and deleting it: by the owner of
    the binding only, at the deployment that keeps it, as an operation that is
    admitted and recorded but not billed. A binding is deleted after the provider
    has confirmed the deletion. *)

From S2P Require Import Prelude GoStrings Streaming Json Wire Money Models Identity Customers Guardrails GuardRuntime.
From S2P Require Import Redis RateLimit Admission Concurrency Providers Breaker Limits Router Registry Gateway.
From S2P Require Import Ledger Budget Accounting Logger Sse StreamLife StreamProxy Handlers Chat Native Responses ResponsesApi.
From Stdlib Require Import Ascii.

(** ** The call *)

Inductive resource_method := Get | Delete.
#[export] Instance resource_method_eq_dec : EqDecision resource_method.
Proof. solve_decision. Defined.

(** What is asked of the provider: the path's identifier and whether it names the
    input items, and the query in the order it is encoded. *)
Record resource_request := mkResourceRequest {
  rq_method : resource_method;
  rq_id : text;
  rq_items : bool;
  rq_query : list (string * string);
}.

Definition query_get (query : list (string * string)) (name : string) : string :=
  default "" (option_map snd (List.find (fun kv => (kv.1 =? name)%string) query)).

(** [strconv.Atoi] *)
Definition Atoi (s : string) : option Z :=
  match s with
  | String c r => if (c =? "+")%char then if HasPrefix r "-" || HasPrefix r "+" then None else parse_int r else parse_int s
  | EmptyString => None
  end.

(** One parameter of the input items: [None] is refused, an empty one left out. *)
Definition item_param (query : list (string * string)) (name : string) : option (list (string * string)) :=
  let value := query_get query name in
  if (value =? "")%string then Some []
  else if (256 <? Z.of_nat (String.length value)) then None
  else if (name =? "limit")%string && match Atoi value with Some n => (n <? 1) || (100 <? n) | None => true end then None
  else if (name =? "order")%string && negb (bool_decide (value ∈ ["asc"; "desc"])) then None
  else Some [(name, value)].

(** The query of the call; its names come in the order of [url.Values.Encode]. *)
Definition resource_query (items : bool) (query : list (string * string)) : option (list (string * string)) :=
  let params := if items then option_map mjoin (mapM (item_param query) ["after"; "before"; "limit"; "order"]) else Some [] in
  p ← params;
  let include := List.filter (fun kv => (kv.1 =? "include[]")%string) query in
  if existsb (fun kv => 128 <? Z.of_nat (String.length kv.2)) include then None
  else
    let '(before, after) := (List.filter (fun kv => bool_decide (kv.1 ∈ ["after"; "before"])) p, List.filter (fun kv => negb (bool_decide (kv.1 ∈ ["after"; "before"]))) p) in
    Some (before ++ include ++ after).

(** [json.Unmarshal] into the confirmation; a member of the wrong type is skipped. *)
Definition confirmed (decode : bytes -> option raw) (status : Z) (body : bytes) : bool :=
  if status =? 204 then true
  else match decode body with
       | Some (JObj l) => foldl (fun acc kv => if is_key "deleted" kv.1 then match kv.2 with JBool b => b | _ => acc end else acc) false l
       | _ => false
       end.

Record resource_conditions := mkResourceConditions {
  re_customer : string * string;
  re_load : response_conditions;          (** the lookup of the binding *)
  re_clock : Z * Z;
  re_delete : option (bool * go_error);   (** the deletion fails before or after its commit *)
}.

Section Resources.
Context {B R : Type} `{BreakerStore B, RedisZSet R}.
Variable json_size : UsageEntry -> Z.
Variable alive : string -> option Z -> Z -> bool.
Variable limiter : option Limiter.
Variable has_store : bool.
Variable others : nat -> database -> database.
Variable digest : string -> string.
Variable decode : bytes -> option raw.
Variable read_error : sse_error -> go_error.
Variable streaming : StreamingConfig.
Variable ask : Resolved -> resource_request -> native_call.
Implicit Types (w : world B R) (t : response_table).

(** The attempt: a permit of the bound deployment, the check of the query, the
    call and the read of its body. [None] is a panic of the provider. *)
Definition resource_call (clock : Z * Z) (target : Resolved) (r : resource_request) (g : gateway B R) : option (result reply (Z * bytes)) :=
  match ask target r with
  | NativePanic => None
  | NativeError _ => Some (Err (502, "upstream_error"))
  | NativeResponse a =>
      if 300 <=? hp_status a then Some (Err (if 500 <=? hp_status a then 502 else hp_status a, "upstream_error"))
      else
        let src := newChatStream None (streamingFor streaming (rv_DeploymentName target) (gw_registry g)) false clock.1 clock.2 in
        Some match readResponseJSON read_error a src with
             | (_, Ok body) => Ok (hp_status a, body)
             | (_, Err _) => Err (502, "upstream_error")
             end
  end.

Definition resource_attempt (guarded : bool) (partition : Z) (clock : Z * Z) (target : Resolved) (m : resource_method) (b : ResponseBinding) (items : bool)
    (query : list (string * string)) (env : nat -> surroundings) (s : gateway B R) : gateway B R * outcome (result reply (Z * bytes)) :=
  match tryAcquireUpstream limiter has_store true guarded partition (env 0%nat) target s with
  | (s, Err err) => (s, Failed (Some target) err)
  | (s, Ok None) => (s, Failed (Some target) RouteSaturated)
  | (s, Ok (Some permit)) =>
      match resource_query items query with
      | None => (releaseUpstreamPermit (env 0%nat) permit s, Succeeded target (Err (400, "invalid_request")))
      | Some q =>
          let s := note (Called (rv_DeploymentName target)) s in
          (releaseUpstreamPermit (env 0%nat) permit s,
           match resource_call clock target (mkResourceRequest m (rb_UpstreamID b) items q) s with
           | Some r => Succeeded target r
           | None => Paniced
           end)
      end
  end.

(** The deletion of the binding, with what others did before it. *)
Definition delete_binding (rc : resource_conditions) (b : ResponseBinding) t : response_table * option go_error :=
  match re_delete rc with
  | Some (false, err) => (t, Some err)
  | Some (true, err) => (DeleteResponseBinding (rb_TeamID b) (rb_Owner b) (rb_ID b) t, Some err)
  | None => (DeleteResponseBinding (rb_TeamID b) (rb_Owner b) (rb_ID b) t, None)
  end.

(** The answer to a body of the provider. *)
Definition resource_answer (rc : resource_conditions) (m : resource_method) (b : ResponseBinding) (items : bool) (status : Z) (body : bytes) t :
    response_table * reply :=
  if bool_decide (m = Delete)
  then if negb (confirmed decode status body) then (t, (502, "upstream_error"))
       else match delete_binding rc b t with
            | (t, Some _) => (t, (503, "response_state_unavailable"))
            | (t, None) => (t, (200, ""))
            end
  else if items then (t, match decode body with Some (JObj _) => (200, "") | _ => (502, "upstream_error") end)
  else (t, match decode body with
           | Some v => match rewriteResponse v b with (_, Some _) => (200, "") | (_, None) => (502, "upstream_error") end
           | None => (502, "upstream_error")
           end).

(** The deferred row of an operation that wrote none. *)
Definition resource_audit (c : conditions) (status : Z) w : world B R :=
  match hw_run w with
  | Some run =>
      if ru_complete run then w
      else (persistUsage alive (co_record c) (set_status status (if 400 <=? status then "stored_response_operation_failed" else "") (ru_entry run)) w).1
  | None => w
  end.

Definition resource_admitted (c : conditions) (rc : resource_conditions) (q : handler_request) (m : resource_method) (b : ResponseBinding)
    (items : bool) (query : list (string * string)) w t : world B R * response_table * ending :=
  match enforceRateLimit c q 0 (hw_customer w) with
  | Handlers.Refuse r denial => let w := (gate_answer alive c q r denial w).1 in (resource_audit c r.1 w, t, Answered r)
  | Pass =>
      match responseBoundTarget b (gw_registry (hw_gateway w)) with
      | Err _ => (resource_audit c 503 w, t, Answered (503, "response_deployment_unavailable"))
      | Ok target =>
          if negb (implements_responses (rv_Provider target)) then (resource_audit c 503 w, t, Answered (503, "response_deployment_unavailable"))
          else
            let '(w, out) := with_mark c q (resource_attempt (bool_decide (is_Some (hw_guard w))) (tm_ID (hr_team q)) (re_clock rc) target m b items query)
                               (meanwhile others 1 w) in
            let w := meanwhile others 2 w in
            match out with
            | Succeeded _ (Ok (status, body)) =>
                let '(t, r) := resource_answer rc m b items status body t in (resource_audit c r.1 w, t, Answered r)
            | Succeeded _ (Err r) => (resource_audit c r.1 w, t, Answered r)
            | Failed _ _ => (resource_audit c 503 w, t, Answered (503, "server_overloaded"))
            | Paniced | OutOfFuel => (resource_audit c 503 w, t, Crashed)
            end
      end
  end.

(** The request in the place of the caller's: the alias and the customer are the
    binding's, and it is not billed. *)
Definition resource_handler_request (q : handler_request) (b : ResponseBinding) : handler_request :=
  mkHandlerRequest (hr_id q) (hr_team q) (hr_key q) (hr_owner q) (utf8_string (rb_Alias b)) (rb_CustomerExternalID b) (hr_tokens q) (hr_context q) true.

Definition responseResource (c : conditions) (rc : resource_conditions) (q : handler_request) (m : resource_method) (id : text) (items : bool)
    (query : list (string * string)) w t : world B R * response_table * ending :=
  let w := fresh w in
  match loadResponseBinding digest (re_load rc) q id t with
  | Err e => (w, t, Answered (load_reply e))
  | Ok b =>
      if negb (modelAllowed (Some (hr_team q)) (hr_key q) (utf8_string (rb_Alias b))) then (w, t, Answered (403, "model_not_allowed"))
      else
        let supplied := extractCustomerID (re_customer rc).1 (re_customer rc).2 "" in
        if negb (supplied =? "")%string && negb (supplied =? rb_CustomerExternalID b)%string then (w, t, Answered (404, "not_found"))
        else if negb (upstreamResponseIDPattern (rb_UpstreamID b)) then (w, t, Answered (409, "response_not_ready"))
        else if (query_get query "stream" =? "true")%string then (w, t, Answered (400, "unsupported_operation"))
        else
          let q := resource_handler_request q b in
          match admitRequestConcurrency json_size alive limiter has_store others ("/v1/responses/" +:+ utf8_string id) c q w with
          | (w, Err e) => (w, t, Answered e)
          | (w, Ok lease) =>
              let '(w, t, e) := resource_admitted c rc q m b items query w t in (releaseModel alive c lease w, t, e)
          end
  end.
End Resources.

(** ** Facts *)

Section resource_facts.
Context {B R : Type} `{BreakerStore B, RedisZSet R}.
Variable json_size : UsageEntry -> Z.
Variable alive : string -> option Z -> Z -> bool.
Variable limiter : option Limiter.
Variable has_store : bool.
Variable others : nat -> database -> database.
Variable digest : string -> string.
Variable decode : bytes -> option raw.
Variable read_error : sse_error -> go_error.
Variable streaming : StreamingConfig.
Variable ask : Resolved -> resource_request -> native_call.
Implicit Types (w : world B R) (t : response_table).

#[local] Abbreviation history := (rtc (Accounting.event json_size alive)).
#[local] Abbreviation attempt := (resource_attempt limiter has_store read_error streaming ask).
#[local] Abbreviation admitted_ := (resource_admitted alive limiter has_store others decode read_error streaming ask).
#[local] Abbreviation resource := (responseResource json_size alive limiter has_store others digest decode read_error streaming ask).

Lemma resource_attempt_spec guarded partition clock target m b items query env (s s' : gateway B R) out :
  attempt guarded partition clock target m b items query env s = (s', out) ->
  exists evs, Gateway.frame s s' evs /\ replay evs [] [] = Some ([], []).
Proof.
  unfold resource_attempt. destruct (tryAcquireUpstream _ _ _ _ _ _ target s) as [s1 acq] eqn:Et. destruct acq as [[p|]|err].
  - destruct (resource_query items query) as [qy|].
    + intros [= <- _]. destruct (called_frame _ _ _ _ _ _ _ _ _ _ (fun x => x) Et ltac:(done)) as (evs & Hf & Hr & _). eauto.
    + intros [= <- _]. destruct (stream_acquired _ _ _ _ _ "" _ _ _ ∅ _ _ tt Et) as (evs & Hpost & _).
      destruct (stream_released s _ _ _ _ _ _ _ (env 0%nat) Hpost) as (Hf & Hr & _). eauto.
  - intros [= <- _]. apply tryAcquireUpstream_spec in Et as (evs & Hf & _ & Hr). eauto.
  - intros [= <- _]. apply tryAcquireUpstream_spec in Et as (evs & Hf & _ & Hr). eauto.
Qed.

Lemma resource_attempt_marks guarded partition clock target m b items query env (s s' : gateway B R) out :
  attempt guarded partition clock target m b items query env s = (s', out) -> marks (exists n, en_mark (env n) = true) s s'.
Proof.
  unfold resource_attempt. destruct (tryAcquireUpstream _ _ _ _ _ _ target s) as [s1 acq] eqn:Et.
  assert (marks (exists n, en_mark (env n) = true) s s) as M0 by reflexivity.
  destruct (attempt_marks _ _ _ _ _ env 0%nat _ _ _ _ _ eq_refl M0 Et) as [M1 M2]. destruct acq as [[p|]|err]; [| by intros [= <- _]..].
  destruct (resource_query items query) as [qy|]; intros [= <- _]; (etransitivity; [| apply releaseUpstreamPermit_marks]); [by apply (M2 p) | exact M1].
Qed.

Section request.
Variable q : handler_request.
Variable w0 : world B R.
Hypothesis Hcons : consistent (hw_db w0).
Hypothesis Hid : hr_id q <> "".
Hypothesis Hothers : forall i d, history d (others i d).

#[local] Abbreviation tracked := (tracked json_size alive q w0).
#[local] Abbreviation passes := (passes json_size alive q w0).

Lemma resource_audit_passes w1 n c status w : passes w1 n w -> passes w1 (S n) (resource_audit alive c status w).
Proof.
  intros Hp. assert (passes w1 (S n) w) as Hp' by (by eapply passes_le; [| exact Hp]; lia). unfold resource_audit.
  destruct (hw_run w) as [run|] eqn:Er; [| done]. destruct (ru_complete run); [done |]. set (e := set_status _ _ _).
  assert (entry_int64 e) as He. { destruct (proj1 Hp) as [_ _ Hrun]. by destruct (Hrun run Er) as (_ & Hi & _). }
  eapply passes_quiet; [done | exact Hp | | apply persistUsage_gateway | by apply persistUsage_history].
  by eapply persistUsage_tracked; [.. | apply Hp | done].
Qed.

Lemma resource_mark_passes w1 c guarded partition clock target m b items query w w' out :
  passes w1 0 w -> with_mark c q (attempt guarded partition clock target m b items query) w = (w', out) -> passes w1 0 w'.
Proof.
  intros Hp E. pose proof (with_mark_history json_size alive _ _ _ _ _ _ E) as [Hh _].
  assert (tracked 0 w') as Ht by (eapply with_mark_tracked; [done | apply Hp | exact E]).
  apply with_mark_frame in E as (env & g & Er & Ee & Erun & Hc); [| intros env g g' o _; apply resource_attempt_marks].
  apply resource_attempt_spec in Erun as (evs & Hf & Hr). eapply (passes_frame _ _ _ _ Hcons w1 0 w); [exact Hp | done | done | | exact Hr |].
  - unfold Gateway.frame in *. by rewrite <- Er, <- Ee.
  - apply Hc. apply Hf.
Qed.

Lemma resource_admitted_passes w1 c rc m b items query w t w' t' e :
  passes w1 0 w -> admitted_ c rc q m b items query w t = (w', t', e) ->
  passes w1 2 w' /\ (t' = t \/ t' = DeleteResponseBinding (rb_TeamID b) (rb_Owner b) (rb_ID b) t).
Proof.
  intros Hp. unfold resource_admitted.
  assert (forall status w2, passes w1 0 w2 -> passes w1 2 (resource_audit alive c status w2)) as Haudit.
  { intros status w2 Hp2. eapply passes_le; [| by apply resource_audit_passes]; lia. }
  destruct (enforceRateLimit _ _ _ _) as [| rep denial].
  2: { intros [= <- <- _]. split; [| by left]. apply resource_audit_passes. exact (passes_gate _ _ _ _ Hcons Hid w1 c rep denial w Hp). }
  destruct (responseBoundTarget _ _) as [target|]; [| intros [= <- <- _]; split; [by apply Haudit | by left]].
  destruct (negb _); [intros [= <- <- _]; split; [by apply Haudit | by left] |].
  assert (passes w1 0 (meanwhile others 1 w)) as Hp1 by by apply passes_meanwhile.
  destruct (with_mark _ _ _ _) as [w2 out] eqn:Em. apply (resource_mark_passes w1) in Em; [| done].
  assert (passes w1 0 (meanwhile others 2 w2)) as Hp2 by by apply passes_meanwhile.
  destruct out as [tg [[status body]|r] | tg err | |]; [| intros [= <- <- _]; (split; [by apply Haudit | by left])..].
  destruct (resource_answer _ _ _ _ _ _ _ _) as [t1 r1] eqn:Ea. intros [= <- <- _]. split; [by apply Haudit |].
  revert Ea. unfold resource_answer, delete_binding. destruct (bool_decide _).
  - destruct (negb _); [intros [= <- _]; by left |]. destruct (re_delete rc) as [[[] err]|]; intros [= <- _]; auto.
  - destruct items; intros [= <- _]; by left.
Qed.
End request.

Section accounted.
Hypothesis Hothers : forall i d, history d (others i d).

(** An operation on a stored response is recorded, gives back everything it took
    and touches no binding but its own: the table is as before, or the binding of
    this owner is gone. *)
Theorem stored_response_operations_are_recorded (c : conditions) (rc : resource_conditions) (q : handler_request) (m : resource_method) (id : text)
    (items : bool) (query : list (string * string)) (w w' : world B R) (t t' : response_table) (e : ending) (Hid : hr_id q <> "")
    (Hd : reachable json_size alive (hw_db w)) (Hl : 0 <= lg_failures (hw_logger w) < 2 ^ 64) (Ht : table_ok t)
    (E : resource c rc q m id items query w t = (w', t', e)) :
  reachable json_size alive (hw_db w') /\
  (is_Some (hw_run w') -> finished (hw_db w') (hr_id q) \/ Ready (hw_logger w') = false) /\
  (exists evs, gw_events (hw_gateway w') = gw_events (hw_gateway w) ++ evs /\ replay evs [] [] = Some ([], []) /\
    same_counters (rg_deploymentLimits (gw_registry (hw_gateway w))) (rg_deploymentLimits (gw_registry (hw_gateway w'))) /\
    (calls evs = [] \/ exists j, db_journal (hw_db w') !! hr_id q = Some j /\ jr_started j = true)) /\
  (t' = t \/ t' = DeleteResponseBinding (tm_ID (hr_team q)) (responseOwner digest (hr_key q) (hr_owner q)) id t).
Proof.
  assert (exists q', hr_id q' = hr_id q /\ accounted_for json_size alive q' w w' /\
    (t' = t \/ t' = DeleteResponseBinding (tm_ID (hr_team q)) (responseOwner digest (hr_key q) (hr_owner q)) id t)) as (q' & Eq & Ha & Htab).
  { pose proof (reachable_consistent _ _ _ Hd) as Hcons. revert E. unfold responseResource.
    assert (forall w', w' = fresh w -> exists q', hr_id q' = hr_id q /\ accounted_for json_size alive q' w w' /\
      (t = t \/ t = DeleteResponseBinding (tm_ID (hr_team q)) (responseOwner digest (hr_key q) (hr_owner q)) id t)) as Hearly.
    { intros ? ->. exists q. split_and!; [done | apply fresh_accounted | by left]. }
    destruct (loadResponseBinding _ _ _ _ _) as [b|err] eqn:El; [| by intros [= <- <- _]; apply Hearly].
    destruct (negb _); [by intros [= <- <- _]; apply Hearly |]. destruct (_ && _); [by intros [= <- <- _]; apply Hearly |].
    destruct (negb _); [by intros [= <- <- _]; apply Hearly |]. destruct (_ =? "true")%string; [by intros [= <- <- _]; apply Hearly |].
    set (q1 := resource_handler_request q b). destruct (admitRequestConcurrency _ _ _ _ _ _ _ _ _) as [w1 res] eqn:Ea.
    eapply admission_accounted in Ea; [| done..]. destruct res as [lease|err]; [| intros [= <- <- _]; exists q1; split_and!; [done | done | by left]].
    destruct Ea as (Hp1 & _ & Hrelease). destruct (resource_admitted _ _ _ _ _ _ _ _ _ _ _ _ _ _ _ _ _) as [[w2 t2] e2] eqn:Er. intros [= <- <- _].
    eapply (resource_admitted_passes q1 w Hcons Hid Hothers w1) in Er as [Hp2 Ht2]; [| done].
    exists q1. split_and!; [done | by apply (Hrelease 2%nat) |].
    revert El. unfold loadResponseBinding. destruct (_ || _); [done |]. destruct (rc_load _); [done |].
    destruct (GetResponseBinding _ _ _ _ _) as [b'|] eqn:Eg; [| done]. intros [= ->]. apply GetResponseBinding_row in Eg as (x & Hrow & <- & <- & _).
    by destruct (Ht _ _ _ Hrow) as [<- _]. }
  split_and!; [| | | done].
  - destruct Ha as ([Hh _ _] & _). unfold reachable in *. by etransitivity.
  - intros [run Hrun]. rewrite <- Eq. by eapply accounted_recorded.
  - destruct Ha as (_ & _ & _ & evs & (_ & Hc & He) & Hr & Hst). exists evs. split_and!; [done | done | done |]. rewrite <- Eq. exact Hst.
Qed.
End accounted.

(** The table is changed by a confirmed deletion only. *)
Lemma deletion_is_confirmed rc m b items status body t t' r :
  resource_answer decode rc m b items status body t = (t', r) -> t' <> t -> m = Delete /\ confirmed decode status body = true.
Proof.
  unfold resource_answer. case_bool_decide as Hm; [| by destruct items; intros [= <- _]].
  destruct (confirmed decode status body); cbn; [done | by intros [= <- _]].
Qed.
End resource_facts.

(** ** What providers are asked *)

Section seen.
Context {B R : Type} `{BreakerStore B, RedisZSet R}.
Variable json_size : UsageEntry -> Z.
Variable alive : string -> option Z -> Z -> bool.
Variable limiter : option Limiter.
Variable has_store : bool.
Variable others : nat -> database -> database.
Variable digest : string -> string.
Variable decode : bytes -> option raw.
Variable read_error : sse_error -> go_error.
Variable streaming : StreamingConfig.
Variables ask ask' : Resolved -> resource_request -> native_call.

#[local] Abbreviation resource a := (responseResource json_size alive limiter has_store others digest decode read_error streaming a).

(** A stored response is reached by its owner alone: two worlds of providers that
    answer alike when the deployment that keeps a response of the caller is asked
    for that response are not told apart by any operation on stored responses. *)
Theorem stored_responses_stay_with_their_owner (c : conditions) (rc : resource_conditions) (q : handler_request) (m : resource_method) (id : text)
    (items : bool) (query : list (string * string)) (w : world B R) (t : response_table)
    (Hask : forall b target r,
       GetResponseBinding (rc_load_now (re_load rc)) (tm_ID (hr_team q)) (responseOwner digest (hr_key q) (hr_owner q)) id t = Some b ->
       is_bound b target = true -> rq_method r = m -> rq_id r = rb_UpstreamID b -> ask target r = ask' target r) :
  resource ask c rc q m id items query w t = resource ask' c rc q m id items query w t.
Proof.
  unfold responseResource, loadResponseBinding. destruct (_ || _); [done |]. destruct (rc_load _); [done |].
  destruct (GetResponseBinding _ _ _ _ _) as [b|]; [| done]. destruct (negb _); [done |]. destruct (_ && _); [done |].
  destruct (negb _); [done |]. destruct (_ =? "true")%string; [done |].
  destruct (admitRequestConcurrency _ _ _ _ _ _ _ _ _) as [w1 [lease|]]; [| done].
  set (q1 := resource_handler_request q b).
  enough (resource_admitted alive limiter has_store others decode read_error streaming ask c rc q1 m b items query w1 t =
    resource_admitted alive limiter has_store others decode read_error streaming ask' c rc q1 m b items query w1 t) as -> by done.
  unfold resource_admitted. destruct (enforceRateLimit _ _ _ _); [| done]. destruct (responseBoundTarget _ _) as [target|] eqn:Et; [| done].
  apply responseBoundTarget_spec in Et as [_ Hb]. destruct (negb _); [done |].
  erewrite with_mark_ext; [done |]. intros env g. unfold resource_attempt. destruct (tryAcquireUpstream _ _ _ _ _ _ _ _) as [s [[p|]|]]; [| done..].
  destruct (resource_query items query) as [qy|]; [| done]. unfold resource_call. by rewrite (Hask b target) by done.
Qed.
End seen.

(** ** Evaluation *)

Definition resource_world (m : resource_method) (ask : Resolved -> resource_request -> native_call) (owner : string) :
    world Empty_set MapRedis.db * response_table * ending :=
  responseResource small kept None true (fun _ d => d) (fun s => s)
    (fun body => if bool_decide (body = str "gone") then Some (JObj [(txt "deleted", JBool true)]) else response_example_decode body)
    (fun _ => ECanceled) (mkStreamingConfig 0 0 0 0) ask example_conditions
    (mkResourceConditions ("", "") example_response_conditions (0, 0) None) response_handler_request m example_response_id false [] example_world
    (continued_table owner).

Definition stored_body (data : string) : http_response :=
  mkHttpResponse 200 "" "application/json" [] [] (0, 0, 0, EOF) [mkChunk 1 1 1 (str data)] (mkChunk 2 2 2 [], StreamRead EOF).

Definition example_ask (data : string) (target : Resolved) (r : resource_request) : native_call :=
  if (rv_DeploymentName target =? "west")%string then NativeResponse (stored_body data) else NativePanic.

(** The owner reads and deletes; a deletion the provider does not confirm keeps
    the binding; somebody else finds nothing. *)
Lemma example_resources :
  let summary r := let '(w, t, e) := r in (e, calls (gw_events (hw_gateway w)), size t) in
  summary (resource_world Get (example_ask "body") "key:7") = (Answered (200, ""), ["west"], 1%nat) /\
  summary (resource_world Delete (example_ask "gone") "key:7") = (Answered (200, ""), ["west"], 0%nat) /\
  summary (resource_world Delete (example_ask "body") "key:7") = (Answered (502, "upstream_error"), ["west"], 1%nat) /\
  summary (resource_world Get (example_ask "body") "key:8") = (Answered (404, "not_found"), [], 1%nat).
Proof. vm_compute. split_and!; reflexivity. Qed.

Lemma continued_table_ok : table_ok (continued_table "key:7").
Proof.
  intros id b e. unfold continued_table. rewrite lookup_insert. case_decide as Hi; [| by rewrite lookup_empty]. intros [= <- <-]. subst id.
  split; [done |]. split_and!; by vm_compute.
Qed.

Lemma stored_response_operations_are_recorded_witness :
  let '(w', t', _) := resource_world Delete (example_ask "gone") "key:7" in
  t' = continued_table "key:7" \/ t' = DeleteResponseBinding (tm_ID auto_team) "key:7" example_response_id (continued_table "key:7").
Proof.
  destruct (resource_world Delete (example_ask "gone") "key:7") as [[w' t'] e] eqn:E.
  refine (proj2 (proj2 (proj2 (stored_response_operations_are_recorded (B := Empty_set) small kept None true (fun _ d => d) (fun s => s) _ _ _ _ _
    _ _ _ _ _ _ _ _ _ _ _ _ _ _ _ _ E)))); [intros; constructor | discriminate | constructor | vm_compute; split; [discriminate | reflexivity] |].
  exact continued_table_ok.
Defined.

Lemma stored_responses_stay_with_their_owner_witness :
  resource_world Get (example_ask "body") "key:8" = resource_world Get (fun _ _ => NativePanic) "key:8".
Proof.
  unfold resource_world. refine (stored_responses_stay_with_their_owner (B := Empty_set) _ _ _ _ _ _ _ _ _ _ _ _ _ _ _ _ _ _ _ _ _).
  intros b target r Hg. exfalso. vm_compute in Hg. discriminate Hg.
Defined.
