(* ===== verification/Passthrough.v ===== *)
(** * Native endpoints ([api/passthrough.go], [api/audio.go],
    [api/passthrough_generic.go], [api/customer_admission.go])

    Moderation, reranking, images, speech, transcriptions, Anthropic messages and
    the configured passthroughs: the request is admitted by the stages of
    [Handlers], a deployment with the capability is chosen and its permit taken,
    the body is forwarded with the deployment's model and credential, the answer
    is copied by [Native.forwardProxy] and one unpriced row is written. What the
    upstreams answer to a request, the reads and writes of the copy and what others
    do to the database meanwhile are arguments. *)

From S2P Require Import Prelude GoStrings Streaming Json Wire Money Models Identity Customers Guardrails GuardRuntime.
From S2P Require Import Redis RateLimit Admission Concurrency Providers Breaker Limits Router Registry Gateway.
From S2P Require Import Ledger Budget Accounting Logger Sse StreamLife StreamProxy Handlers Chat Native Responses ResponsesApi.
From Stdlib Require Import Ascii.

(** ** Upstream requests *)

Inductive passthroughCapability := capModeration | capRerank | capImages | capMessages | capAudioTranscribe | capAudioSpeech.

Definition capabilityMatches (c : DeploymentCapabilities) (cap : passthroughCapability) : bool :=
  match cap with
  | capModeration => dc_Moderation c
  | capRerank => dc_Rerank c
  | capImages => dc_Images c
  | capMessages => dc_MessagesPassthrough c
  | capAudioTranscribe => dc_AudioTranscribe c
  | capAudioSpeech => dc_AudioSpeech c
  end.

Definition is_messages (cap : passthroughCapability) : bool := match cap with capMessages => true | _ => false end.

(** A part of an upload: a field, or a file with its name, type and content; the
    content of a file that cannot be opened is missing. *)
Record upload := mkUpload { up_filename : string; up_type : string; up_size : Z; up_content : option bytes }.
Inductive part := FieldPart (name value : string) | FilePart (name filename ctype : string) (content : bytes).

Record form := mkForm { fm_values : list (string * list string); fm_files : list (string * list upload) }.

Inductive upstream_body := JsonBody (v : raw) | FormBody (parts : option (list part)) | RawBody.

Record upstream_request := mkUpstreamRequest {
  ur_method : string;
  ur_url : string;
  ur_header : Header;
  ur_body : upstream_body;
}.

(** [h.Set] *)
Definition header_set (name : string) (values : list string) (h : Header) : Header :=
  List.filter (fun kv => negb (kv.1 =? name)%string) h ++ [(name, values)].
Definition header_del (name : string) (h : Header) : Header := List.filter (fun kv => negb (kv.1 =? name)%string) h.

Definition upstreamFor (t : Resolved) (path : string) : option (string * string) :=
  if (rv_BaseURL t =? "")%string then None
  else
    let base := TrimRight (rv_BaseURL t) "/" in
    let path := if HasSuffix base "/v1" && HasPrefix path "/v1/" then GoStrings.TrimPrefix path "/v1" else path in
    Some (base +:+ path, rv_APIKey t).

(** The credential of the deployment; the client's own are not among the fields. *)
Definition native_header (cap : passthroughCapability) (client : Header) (apiKey : string) : Header :=
  let h := [("Content-Type", ["application/json"]); ("Accept", ["application/json"])] in
  let h := if (apiKey =? "")%string then h else header_set "Authorization" ["Bearer " +:+ apiKey] h in
  if is_messages cap
  then
    let h := header_set "X-Api-Key" [apiKey] (header_del "Authorization" h) in
    let version := header_get client "Anthropic-Version" in
    let h := header_set "Anthropic-Version" [if (version =? "")%string then "2023-06-01" else version] h in
    let beta := header_get client "Anthropic-Beta" in
    let h := if (beta =? "")%string then h else header_set "Anthropic-Beta" [beta] h in
    header_set "Accept" ["application/json, text/event-stream"] h
  else h.

Definition native_body (m : gmap text raw) (model : string) : raw := marshal_map (<[txt "model" := JStr (txt model)]> m).

(** [encodeMultipart]: the parts, unless a file cannot be opened or its name
    cannot be written. The request's context is alive. *)
Section Multipart.
Variable disposition_ok : string -> string -> bool.

Definition field_parts (model : string) (kv : string * list string) : list part :=
  map (fun v => FieldPart kv.1 (if (kv.1 =? "model")%string then model else v)) kv.2.

Definition file_part (name : string) (f : upload) : option part :=
  match up_content f with
  | Some content => if disposition_ok name (up_filename f) then Some (FilePart name (up_filename f) (up_type f) content) else None
  | None => None
  end.

Definition encodeMultipart (f : form) (model : string) : option (list part) :=
  files ← mapM (fun kf => file_part kf.1 kf.2) (kv ← fm_files f; map (fun file => (kv.1, file)) kv.2);
  Some ((fm_values f ≫= field_parts model) ++ files).
End Multipart.

Definition form_values (f : form) (name : string) : list string :=
  default [] (option_map snd (List.find (fun kv => (kv.1 =? name)%string) (fm_values f))).

(** [r.FormValue(name)]: the query comes before the form. *)
Definition FormValue (query : list (string * string)) (f : form) (name : string) : string :=
  default "" (head (map snd (List.filter (fun kv => (kv.1 =? name)%string) query) ++ form_values f name)).
Definition PostFormValue (f : form) (name : string) : string := default "" (head (form_values f name)).

Definition max_audio : Z := 25 * 1048576.

(** ** The endpoints *)

Record native_conditions := mkNativeConditions {
  nc_customer : string * string;          (** the headers of [extractCustomerID] *)
  nc_header : Header;                     (** the request's header *)
  nc_proxy : proxy_env;
  nc_release : surroundings;
}.

(** [writeCapabilityRoutingError] *)
Definition capability_error (err : route_error) : reply :=
  match err with
  | RouteAccounting => (503, "accounting_unavailable")
  | _ =>
      match concurrencyErrorDetails err with
      | Some (status, code, _) => (status, code)
      | None => match err with RouteSaturated => (503, "server_overloaded") | _ => (503, "no_deployment") end
      end
  end.

(** [admitUnpricedCustomer] as a stage. *)
Definition unpriced_gate (c : conditions) (q : handler_request) (customer : option Customer) : gate :=
  match admitUnpricedCustomer (hr_key q) customer (fun _ => Ok tt) with
  | Err r => Handlers.Refuse r (Some r)
  | Ok _ => enforceRateLimit c q 0 customer
  end.

(** The row of a native call ([recordNativeAudit], [logPassthroughAudit]). *)
Definition native_entry (q : handler_request) (customer : option Customer) (alias details : string) (status : Z) (error : string) (ts : Z) : UsageEntry :=
  mkUsageEntry "" "" details (tm_ID (hr_team q)) (hr_key q ≫= vk_UserID)
    (k ← hr_key q; if 0 <? vk_ID k then Some (vk_ID k) else None)
    (c ← customer; if 0 <? cu_ID c then Some (cu_ID c) else None)
    (hr_key q ≫= vk_ServiceAccountID) alias (hr_id q) 0 0 0 0 None 0 status error false ts.

Definition quoted (s : string) : string := String (ascii_of_nat 34) s +:+ String (ascii_of_nat 34) "".
Definition unpriced_native : string := "{" +:+ quoted "accounting" +:+ ":" +:+ quoted "unpriced_native" +:+ "}".
Definition unpriced_passthrough : string := "{" +:+ quoted "accounting" +:+ ":" +:+ quoted "unpriced_passthrough" +:+ "}".

Definition set_alias (alias customer : string) (q : handler_request) : handler_request :=
  mkHandlerRequest (hr_id q) (hr_team q) (hr_key q) (hr_owner q) alias customer (hr_tokens q) (hr_context q) (hr_nonBillable q).

Section Passthrough.
Context {B R : Type} `{BreakerStore B, RedisZSet R}.
Variable getenv : string -> string.
Variable json_size : UsageEntry -> Z.
Variable alive : string -> option Z -> Z -> bool.
Variable limiter : option Limiter.
Variable has_store : bool.
Variable others : nat -> database -> database.
Variable decode : bytes -> option raw.
Variable read_error : sse_error -> go_error.
Variable media_type : string -> string.
Variable disposition_ok : string -> string -> bool.
Variable streaming : StreamingConfig.
(** The upstreams: what they answer to a request. *)
Variable do : upstream_request -> result go_error http_response.
Implicit Types (w : world B R) (s : gateway B R).

(** [resolveForCapability]; the deployment is called unless it has no address. *)
Fixpoint capability_loop (guarded : bool) (partition : Z) (alias : string) (cap : passthroughCapability) (path : string)
    (env : nat -> surroundings) (fuel n : nat) (tried : gset string) (saturated miss : bool) (capacity : option route_error) s :
    gateway B R * outcome (unit * upstreamPermit) :=
  match fuel with
  | O => (s, OutOfFuel)
  | S fuel =>
      let '(r, res) := ResolveNextFor getenv (en_now (env n)) alias tried CapabilityNone (gw_registry s) in
      let s := set_registry r s in
      match res with
      | Err err =>
          (s, Failed None (match capacity with
                           | Some e => e
                           | None => if saturated then RouteSaturated
                                     else if miss then RouteUpstream (EOther "no deployment supports the capability") else RouteResolve err
                           end))
      | Ok target =>
          let tried := {[rv_DeploymentName target]} ∪ tried in
          let again := capability_loop guarded partition alias cap path env fuel (S n) tried in
          if negb match rg_deployments (gw_registry s) !! rv_DeploymentName target ≫= dep_Capabilities with
                  | Some caps => capabilityMatches caps cap
                  | None => false
                  end
          then again saturated true capacity s
          else
            match tryAcquireUpstream limiter has_store true guarded partition (env n) target s with
            | (s, Err err) => if canFallbackConcurrency err then again saturated miss (Some err) s else (s, Failed (Some target) err)
            | (s, Ok None) => again true miss capacity s
            | (s, Ok (Some permit)) =>
                (match upstreamFor target path with Some _ => note (Called (rv_DeploymentName target)) s | None => s end,
                 Succeeded target (tt, permit))
            end
      end
  end.

Definition resolveForCapability (c : conditions) (q : handler_request) (cap : passthroughCapability) (path : string) (fuel : nat) w :
    world B R * outcome (unit * upstreamPermit) :=
  with_mark c q (fun env => capability_loop (bool_decide (is_Some (hw_guard w))) (tm_ID (hr_team q)) (hr_alias q) cap path env fuel 0 ∅ false false None) w.

Definition recordNativeAudit (c : conditions) (q : handler_request) (status : Z) w : world B R :=
  (persistUsage alive (co_record c)
     (native_entry q (hw_customer w) (hr_alias q) unpriced_native status (if 400 <=? status then "native_upstream_failed" else "") (co_now c)) w).1.

(** From the unpriced admission to the end of the copy; [None] is a copy that
    waits for its upstream. *)
Definition native_call_through (c : conditions) (nc : native_conditions) (q : handler_request) (cap : passthroughCapability) (path : string)
    (request : string -> string -> string -> upstream_request) (fuel : nat) w : world B R * option ending :=
  match unpriced_gate c q (hw_customer w) with
  | Handlers.Refuse r denial => gate_answer alive c q r denial w
  | Pass =>
      match resolveForCapability c q cap path fuel (meanwhile others 1 w) with
      | (w, Succeeded target (_, permit)) =>
          let release w := set_gateway (releaseUpstreamPermit (nc_release nc) permit (hw_gateway w)) w in
          match upstreamFor target path with
          | None => (release (meanwhile others 2 w), Some (Answered (500, "internal_error")))
          | Some (url, apiKey) =>
              match forwardProxy decode read_error media_type (do (request url apiKey (rv_UpstreamModel target)))
                      (streamingFor streaming (rv_DeploymentName target) (gw_registry (hw_gateway w))) (is_messages cap) (nc_proxy nc) with
              | (_, None) => (w, None)
              | (_, Some p) =>
                  (release (recordNativeAudit c q (pd_status p) (meanwhile others 2 w)),
                   Some (if pd_abort p then Crashed else Answered (pd_answer p)))
              end
          end
      | (w, Failed _ err) => (meanwhile others 2 w, Some (Answered (capability_error err)))
      | (w, Paniced) | (w, OutOfFuel) => (meanwhile others 2 w, Some Crashed)
      end
  end.

(** The admission both endpoints share. *)
Definition native_endpoint (c : conditions) (nc : native_conditions) (q : handler_request) (endpoint : string) (cap : passthroughCapability)
    (path : string) (request : string -> string -> string -> upstream_request) (fuel : nat) w : world B R * option ending :=
  if negb (modelAllowed (Some (hr_team q)) (hr_key q) (hr_alias q)) then (w, Some (Answered (403, "model_not_allowed")))
  else match admitRequestConcurrency json_size alive limiter has_store others endpoint c q w with
       | (w, Err e) => (w, Some (Answered e))
       | (w, Ok lease) =>
           match native_call_through c nc q cap path request fuel w with
           | (w, Some e) => (releaseModel alive c lease w, Some e)
           | (w, None) => (w, None)
           end
       end.

Definition body_string (m : gmap text raw) (k : string) : text := match m !! txt k with Some v => default [] (into_string v []) | None => [] end.

(** [passthrough]; a body that cannot be read or is no JSON object is [None]. *)
Definition passthrough (c : conditions) (nc : native_conditions) (q : handler_request) (endpoint : string) (cap : passthroughCapability)
    (path : string) (body : option (gmap text raw)) (fuel : nat) w : world B R * option ending :=
  let w := fresh w in
  match body with
  | None => (w, Some (Answered (400, "invalid_request")))
  | Some m =>
      let model := utf8_string (body_string m "model") in
      if (model =? "")%string then (w, Some (Answered (400, "invalid_request")))
      else
        let user := extractCustomerID (nc_customer nc).1 (nc_customer nc).2 (utf8_string (body_string m "user")) in
        native_endpoint c nc (set_alias model user q) endpoint cap path
          (fun url apiKey upstream => mkUpstreamRequest "POST" url (native_header cap (nc_header nc) apiKey) (JsonBody (native_body m upstream))) fuel w
  end.

(** [audioMultipart]; an upload that does not parse is [None], and the type of the
    re-encoded form is an argument. *)
Definition audioMultipart (c : conditions) (nc : native_conditions) (q : handler_request) (endpoint path contentType : string)
    (query : list (string * string)) (upload : option form) (fuel : nat) w : world B R * option ending :=
  let w := fresh w in
  match upload with
  | None => (w, Some (Answered (400, "invalid_request")))
  | Some f =>
      if existsb (fun kv => existsb (fun file => max_audio <? up_size file) kv.2) (fm_files f) then (w, Some (Answered (413, "invalid_request")))
      else
        let model := FormValue query f "model" in
        if (model =? "")%string then (w, Some (Answered (400, "invalid_request")))
        else
          let user := extractCustomerID (nc_customer nc).1 (nc_customer nc).2 (PostFormValue f "user") in
          native_endpoint c nc (set_alias model user q) endpoint capAudioTranscribe path
            (fun url apiKey upstream =>
               let h := [("Content-Type", [contentType])] in
               mkUpstreamRequest "POST" url (if (apiKey =? "")%string then h else header_set "Authorization" ["Bearer " +:+ apiKey] h)
                 (FormBody (encodeMultipart disposition_ok f upstream))) fuel w
  end.
End Passthrough.

(** ** Configured passthroughs ([store/passthroughs.go], [api/passthroughs_admin.go]) *)

Record Passthrough := mkPassthrough {
  pt_ID : Z;
  pt_Name : string;
  pt_TargetURL : string;
  pt_AuthHeader : string;
  pt_AuthValueEnv : string;
  pt_AuthValuePrefix : string;
  pt_Enabled : bool;
  pt_ArchivedAt : option Z;
}.

(** The rows by their name, which is unique among archived rows too, and the next
    number. *)
Record passthroughs := mkPassthroughs { pt_rows : gmap string Passthrough; pt_next : Z }.

Definition active (p : Passthrough) : bool := bool_decide (pt_ArchivedAt p = None).

Definition GetPassthroughByName (name : string) (t : passthroughs) : option Passthrough :=
  p ← pt_rows t !! name; if active p then Some p else None.

Record CreatePassthroughParams := mkCreatePassthroughParams {
  cp_Name : string; cp_TargetURL : string; cp_AuthHeader : string; cp_AuthValueEnv : string; cp_AuthValuePrefix : string; cp_Enabled : bool;
}.

Definition store_CreatePassthrough (p : CreatePassthroughParams) (t : passthroughs) : passthroughs * result store_error Passthrough :=
  match pt_rows t !! cp_Name p with
  | Some _ => (mkPassthroughs (pt_rows t) (pt_next t + 1), Err (Rejected "duplicate name"))
  | None =>
      let row := mkPassthrough (pt_next t) (cp_Name p) (cp_TargetURL p) (cp_AuthHeader p) (cp_AuthValueEnv p) (cp_AuthValuePrefix p) (cp_Enabled p) None in
      (mkPassthroughs (<[cp_Name p := row]> (pt_rows t)) (pt_next t + 1), Ok row)
  end.

Record UpdatePassthroughParams := mkUpdatePassthroughParams {
  upp_TargetURL : option string; upp_AuthHeader : option string; upp_AuthValueEnv : option string; upp_AuthValuePrefix : option string;
  upp_Enabled : option bool;
}.

Definition update_row (u : UpdatePassthroughParams) (p : Passthrough) : Passthrough :=
  mkPassthrough (pt_ID p) (pt_Name p) (default (pt_TargetURL p) (upp_TargetURL u)) (default (pt_AuthHeader p) (upp_AuthHeader u))
    (default (pt_AuthValueEnv p) (upp_AuthValueEnv u)) (default (pt_AuthValuePrefix p) (upp_AuthValuePrefix u))
    (default (pt_Enabled p) (upp_Enabled u)) (pt_ArchivedAt p).

Definition store_UpdatePassthrough (name : string) (u : UpdatePassthroughParams) (t : passthroughs) : passthroughs * result store_error Passthrough :=
  match GetPassthroughByName name t with
  | Some p => (mkPassthroughs (<[name := update_row u p]> (pt_rows t)) (pt_next t), Ok (update_row u p))
  | None => (t, Err NotFound)
  end.

Definition archive (now : Z) (p : Passthrough) : Passthrough :=
  mkPassthrough (pt_ID p) (pt_Name p) (pt_TargetURL p) (pt_AuthHeader p) (pt_AuthValueEnv p) (pt_AuthValuePrefix p) (pt_Enabled p) (Some now).

Definition store_DeletePassthrough (now : Z) (name : string) (t : passthroughs) : passthroughs * result store_error unit :=
  match GetPassthroughByName name t with
  | Some p => (mkPassthroughs (<[name := archive now p]> (pt_rows t)) (pt_next t), Ok tt)
  | None => (t, Err NotFound)
  end.

Definition http_url (s : string) : bool := HasPrefix s "http://" || HasPrefix s "https://".

(** The request's [enabled] is a pointer; a missing one means enabled. *)
Definition CreatePassthrough (p : CreatePassthroughParams) (enabled : option bool) (t : passthroughs) : passthroughs * reply :=
  if (cp_Name p =? "")%string || (cp_TargetURL p =? "")%string then (t, (400, "invalid_request"))
  else if negb (http_url (cp_TargetURL p)) then (t, (400, "invalid_request"))
  else
    let p := mkCreatePassthroughParams (cp_Name p) (cp_TargetURL p) (cp_AuthHeader p) (cp_AuthValueEnv p) (cp_AuthValuePrefix p) (default true enabled) in
    match store_CreatePassthrough p t with
    | (t, Ok _) => (t, (201, ""))
    | (t, Err _) => (t, (500, "internal_error"))
    end.

Definition UpdatePassthrough (name : string) (u : UpdatePassthroughParams) (t : passthroughs) : passthroughs * reply :=
  if match upp_TargetURL u with Some url => negb (http_url url) | None => false end then (t, (400, "invalid_request"))
  else match store_UpdatePassthrough name u t with
       | (t, Ok _) => (t, (200, ""))
       | (t, Err NotFound) => (t, (404, "not_found"))
       | (t, Err _) => (t, (500, "internal_error"))
       end.

Definition DeletePassthrough (now : Z) (name : string) (t : passthroughs) : passthroughs * reply :=
  match store_DeletePassthrough now name t with
  | (t, Ok _) => (t, (204, ""))
  | (t, Err NotFound) => (t, (404, "not_found"))
  | (t, Err _) => (t, (500, "internal_error"))
  end.

(** ** The generic endpoint *)

(** [textproto.CanonicalMIMEHeaderKey]: names with a byte that is no token are
    kept; in others letters are upper case at the start and after a hyphen. *)
Definition token_byte (c : ascii) : bool :=
  let n := nat_of_ascii c in
  (48 <=? n)%nat && (n <=? 57)%nat || (65 <=? n)%nat && (n <=? 90)%nat || (97 <=? n)%nat && (n <=? 122)%nat ||
  bool_decide (n ∈ [33; 35; 36; 37; 38; 39; 42; 43; 45; 46; 94; 95; 96; 124; 126]%nat).

Definition upper_ascii (c : ascii) : ascii :=
  let n := nat_of_ascii c in if (97 <=? n)%nat && (n <=? 122)%nat then ascii_of_nat (n - 32) else c.

Fixpoint capitalize (first : bool) (s : string) : string :=
  match s with
  | EmptyString => EmptyString
  | String c s => String (if first then upper_ascii c else lower_ascii c) (capitalize (c =? "-")%char s)
  end.

Definition CanonicalHeaderKey (s : string) : string := if forallb token_byte (String.list_ascii_of_string s) then capitalize true s else s.

Definition withheld : list string :=
  ["authorization"; "host"; "cookie"; "x-api-key"; "x-forwarded-for"; "x-forwarded-host"; "x-forwarded-proto"; "x-real-ip";
   "x-gatemux-replay"; "x-aiport-replay"].

Definition copied_inbound (h : Header) (k : string) : bool :=
  negb (shouldHopByHop k || bool_decide (ToLower k ∈ connectionHeaders h) || bool_decide (ToLower k ∈ withheld)).

(** A target; user information and fragments are left out. *)
Record url := mkUrl { url_Scheme : string; url_Host : string; url_Path : string; url_RawQuery : string }.

Section Generic.
Context {B R : Type} `{BreakerStore B, RedisZSet R}.
Variable getenv : string -> string.
Variable json_size : UsageEntry -> Z.
Variable alive : string -> option Z -> Z -> bool.
Variable limiter : option Limiter.
Variable has_store : bool.
Variable others : nat -> database -> database.
Variable decode : bytes -> option raw.
Variable read_error : sse_error -> go_error.
Variable media_type : string -> string.
Variable streaming : StreamingConfig.
(** [net/url] *)
Variable parse_url : string -> option url.
Variable print_url : url -> string.
Variable do : upstream_request -> result go_error http_response.
Implicit Types (w : world B R).

Definition generic_header (pt : Passthrough) (h : Header) : Header :=
  let copied := List.filter (fun kv => copied_inbound h kv.1) h in
  if (pt_AuthHeader pt =? "")%string then copied
  else header_set (CanonicalHeaderKey (pt_AuthHeader pt))
         [pt_AuthValuePrefix pt +:+ (if (pt_AuthValueEnv pt =? "")%string then "" else getenv (pt_AuthValueEnv pt))] copied.

Definition generic_request (pt : Passthrough) (method rest query : string) (h : Header) : option upstream_request :=
  target ← parse_url (pt_TargetURL pt);
  if (url_Scheme target =? "")%string || (url_Host target =? "")%string then None
  else
    let target := mkUrl (url_Scheme target) (url_Host target) (TrimRight (url_Path target) "/" +:+ "/" +:+ TrimLeft rest "/") query in
    Some (mkUpstreamRequest method (print_url target) (generic_header pt h) RawBody).

(** [markAccountingStarted] outside a routed call. *)
Definition mark_started (c : conditions) (q : handler_request) w : world B R * bool :=
  let '(d, res) := MarkAccountingStarted (co_mark c).1.1 (co_mark c).1.2 (co_mark c).2 (hr_id q) (hw_db w) in (set_db d w, is_ok res).

Definition logPassthroughAudit (c : conditions) (q : handler_request) (name : string) (status : Z) w : world B R :=
  (persistUsage alive (co_record c)
     (native_entry q (hw_customer w) ("passthrough:" +:+ name) unpriced_passthrough status
        (if 400 <=? status then "upstream_" +:+ pretty status else "") (co_now c)) w).1.

(** The lookup of the row may fail. *)
Definition generic_admitted (c : conditions) (nc : native_conditions) (q : handler_request) (name method rest query : string)
    (lookup : result unit passthroughs) w : world B R * option ending :=
  let denied := set_alias ("passthrough:" +:+ name) (hr_customer q) q in
  match unpriced_gate c denied (hw_customer w) with
  | Handlers.Refuse r denial => gate_answer alive c denied r denial w
  | Pass =>
      if (name =? "")%string then (w, Some (Answered (400, "invalid_request")))
      else match lookup with
      | Err _ => (w, Some (Answered (500, "internal_error")))
      | Ok t =>
          match GetPassthroughByName name t with
          | None => (w, Some (Answered (404, "not_found")))
          | Some pt =>
              if negb (pt_Enabled pt) then (w, Some (Answered (503, "passthrough_disabled")))
              else match generic_request pt method rest query (nc_header nc) with
              | None => (w, Some (Answered (500, "internal_error")))
              | Some req =>
                  match mark_started c q (meanwhile others 1 w) with
                  | (w, false) => (w, Some (Answered (503, "accounting_unavailable")))
                  | (w, true) =>
                      match forwardProxy decode read_error media_type (do req) streaming false (nc_proxy nc) with
                      | (_, None) => (w, None)
                      | (_, Some p) =>
                          (logPassthroughAudit c q (pt_Name pt) (pd_status p) (meanwhile others 2 w),
                           Some (if pd_abort p then Crashed else Answered (pd_answer p)))
                      end
                  end
              end
          end
      end
  end.

Definition GenericPassthrough (c : conditions) (nc : native_conditions) (q : handler_request) (name method rest query : string)
    (lookup : result unit passthroughs) w : world B R * option ending :=
  let w := fresh w in
  let q := set_alias "" (extractCustomerID (nc_customer nc).1 (nc_customer nc).2 "") q in
  match admitRequestConcurrency json_size alive limiter has_store others ("/passthrough/" +:+ name +:+ "/" +:+ rest) c q w with
  | (w, Err e) => (w, Some (Answered e))
  | (w, Ok lease) =>
      match generic_admitted c nc q name method rest query lookup w with
      | (w, Some e) => (releaseModel alive c lease w, Some e)
      | (w, None) => (w, None)
      end
  end.
End Generic.

(** ** The routes *)

Inductive native_request :=
| Moderations (body : option (gmap text raw))
| Rerank (body : option (gmap text raw))
| ImagesGenerations (body : option (gmap text raw))
| Messages (body : option (gmap text raw))
| AudioSpeech (body : option (gmap text raw))
| AudioTranscriptions (contentType : string) (query : list (string * string)) (upload : option form)
| AudioTranslations (contentType : string) (query : list (string * string)) (upload : option form)
| Generic (name method rest query : string) (lookup : result unit passthroughs).

Section Routes.
Context {B R : Type} `{BreakerStore B, RedisZSet R}.
Variable getenv : string -> string.
Variable json_size : UsageEntry -> Z.
Variable alive : string -> option Z -> Z -> bool.
Variable limiter : option Limiter.
Variable has_store : bool.
Variable others : nat -> database -> database.
Variable decode : bytes -> option raw.
Variable read_error : sse_error -> go_error.
Variable media_type : string -> string.
Variable disposition_ok : string -> string -> bool.
Variable streaming : StreamingConfig.
Variable parse_url : string -> option url.
Variable print_url : url -> string.
Variable do : upstream_request -> result go_error http_response.

#[local] Abbreviation json := (passthrough getenv json_size alive limiter has_store others decode read_error media_type streaming do).
#[local] Abbreviation uploading :=
  (audioMultipart getenv json_size alive limiter has_store others decode read_error media_type disposition_ok streaming do).
#[local] Abbreviation generic :=
  (GenericPassthrough getenv json_size alive limiter has_store others decode read_error media_type streaming parse_url print_url do).

Definition serve_native (c : conditions) (nc : native_conditions) (q : handler_request) (r : native_request) (fuel : nat) (w : world B R) :
    world B R * option ending :=
  match r with
  | Moderations body => json c nc q "/v1/moderations" capModeration "/v1/moderations" body fuel w
  | Rerank body => json c nc q "/v1/rerank" capRerank "/v2/rerank" body fuel w
  | ImagesGenerations body => json c nc q "/v1/images/generations" capImages "/v1/images/generations" body fuel w
  | Messages body => json c nc q "/v1/messages" capMessages "/v1/messages" body fuel w
  | AudioSpeech body => json c nc q "/v1/audio/speech" capAudioSpeech "/v1/audio/speech" body fuel w
  | AudioTranscriptions ct query f => uploading c nc q "/v1/audio/transcriptions" "/v1/audio/transcriptions" ct query f fuel w
  | AudioTranslations ct query f => uploading c nc q "/v1/audio/translations" "/v1/audio/translations" ct query f fuel w
  | Generic name method rest query lookup => generic c nc q name method rest query lookup w
  end.
End Routes.

(** ** Facts of the routing *)

Section capability_facts.
Context {B R : Type} `{BreakerStore B, RedisZSet R}.
Variable getenv : string -> string.
Variable limiter : option Limiter.
Variable has_store : bool.
Variable guarded : bool.
Variable partition : Z.
Variable alias : string.
Variable cap : passthroughCapability.
Variable path : string.
Variable env : nat -> surroundings.
Implicit Types (s : gateway B R).

#[local] Abbreviation loop := (capability_loop getenv limiter has_store guarded partition alias cap path env).

Lemma capability_loop_spec fuel : forall n tried saturated miss capacity s s' out,
  loop fuel n tried saturated miss capacity s = (s', out) -> exists evs, stream_post alias s tried s' out evs.
Proof.
  induction fuel as [| fuel IH]; intros n tried saturated miss capacity s s' out; cbn [capability_loop].
  { intros [= <- <-]. exists []. apply stream_post_closed; [apply frame_refl | apply run_ok_nil | done]. }
  unfold ResolveNextFor. destruct (ResolveWithContext _ _ _ _ _ _ _) as [r res] eqn:Er. pose proof (resolve_frame _ _ _ _ _ _ _ _ _ Er) as Hf0.
  set (s0 := set_registry r s) in *.
  destruct res as [target|err]; [| intros [= <- <-]; exists []; apply stream_post_closed; [done | apply run_ok_nil | done]].
  apply resolve_next in Er as [Hnt Hin]. change (rv_DeploymentName target ∈ names_of alias s) in Hin.
  assert (forall evs s2, Gateway.frame s0 s2 evs -> Gateway.frame s s2 evs) as Hfr by (intros evs s2; apply (frame_trans _ _ _ [] evs Hf0)).
  destruct (negb _); [intros E; apply IH in E as (evs & E); exists ([] ++ evs); eapply stream_post_later; eauto |].
  destruct (tryAcquireUpstream _ _ _ _ _ (env n) target s0) as [s1 acq] eqn:Et. destruct acq as [[p|]|err].
  - intros [= <- <-]. destruct (upstreamFor target path).
    + destruct (stream_opened _ _ _ _ _ alias _ _ _ tried _ _ tt Et) as (evs & Hpost); [by rewrite (names_of_frame _ _ _ _ Hf0) | done |].
      exists evs. by eapply stream_post_same.
    + destruct (stream_acquired _ _ _ _ _ alias _ _ _ tried _ _ tt Et) as (evs & Hpost & _). exists evs. by eapply stream_post_same.
  - apply tryAcquireUpstream_spec in Et as (evs & Hf & Hc & Hb). intros E. apply IH in E as (evs' & E).
    exists (evs ++ evs'). eapply stream_post_later; eauto.
  - apply tryAcquireUpstream_spec in Et as (evs & Hf & Hc & Hb). destruct (canFallbackConcurrency err).
    + intros E. apply IH in E as (evs' & E). exists (evs ++ evs'). eapply stream_post_later; eauto.
    + intros [= <- <-]. exists evs. apply stream_post_closed; [by apply Hfr | by eapply run_ok_one; eauto | done].
Qed.

Lemma capability_loop_marks fuel : forall n tried saturated miss capacity s s' out,
  loop fuel n tried saturated miss capacity s = (s', out) -> marks (exists m, en_mark (env m) = true) s s'.
Proof.
  induction fuel as [| fuel IH]; intros n tried saturated miss capacity s s' out; cbn [capability_loop]; [intros [= <- _]; reflexivity |].
  unfold ResolveNextFor. destruct (ResolveWithContext _ _ _ _ _ _ _) as [r res] eqn:Er.
  assert (marks (exists m, en_mark (env m) = true) s (set_registry r s)) as M0 by by apply marks_quiet.
  destruct res as [target|err]; [| by intros [= <- _]]. destruct (negb _); [intros E; etransitivity; [exact M0 | by eapply IH] |].
  destruct (tryAcquireUpstream _ _ _ _ _ (env n) target _) as [s1 acq] eqn:Et.
  destruct (attempt_marks _ _ _ _ _ env _ _ _ _ _ _ eq_refl M0 Et) as [M1 M2]. destruct acq as [[p|]|err].
  - intros [= <- _]. destruct (upstreamFor target path); [by apply (M2 p) | exact M1].
  - intros E. etransitivity; [exact M1 | by eapply IH].
  - destruct (canFallbackConcurrency err); [| by intros [= <- _]]. intros E. etransitivity; [exact M1 | by eapply IH].
Qed.

Lemma capability_loop_fuel fuel : forall n tried saturated miss capacity s,
  (size (untried alias s tried) < fuel)%nat -> (loop fuel n tried saturated miss capacity s).2 <> OutOfFuel.
Proof.
  induction fuel as [| fuel IH]; intros n tried saturated miss capacity s Hlt; [lia |]. cbn [capability_loop].
  unfold ResolveNextFor. destruct (ResolveWithContext _ _ _ _ _ _ _) as [r res] eqn:Er. destruct (resolve_frame _ _ _ _ _ _ _ _ _ Er) as (Ha & _).
  destruct res as [target|err]; [| done]. apply resolve_next in Er as [Hnt Hin].
  assert (forall s', rg_aliases (gw_registry s') = rg_aliases (gw_registry s) ->
    (size (untried alias s' ({[rv_DeploymentName target]} ∪ tried)) < fuel)%nat) as Hless.
  { intros s' Ea. eapply Nat.lt_le_trans; [by eapply (untried_shrinks getenv alias s) | lia]. }
  destruct (negb _); [by apply IH, Hless |].
  destruct (tryAcquireUpstream _ _ _ _ _ (env n) target _) as [s1 acq] eqn:Et. apply try_upstream_aliases in Et. rewrite Ha in Et.
  destruct acq as [[p|]|err]; [done | by apply IH, Hless | destruct (canFallbackConcurrency err); [by apply IH, Hless | done]].
Qed.
End capability_facts.

(** ** Facts of the endpoints *)

Section native_facts.
Context {B R : Type} `{BreakerStore B, RedisZSet R}.
Variable getenv : string -> string.
Variable json_size : UsageEntry -> Z.
Variable alive : string -> option Z -> Z -> bool.
Variable limiter : option Limiter.
Variable has_store : bool.
Variable others : nat -> database -> database.
Variable decode : bytes -> option raw.
Variable read_error : sse_error -> go_error.
Variable media_type : string -> string.
Variable disposition_ok : string -> string -> bool.
Variable streaming : StreamingConfig.
Variable parse_url : string -> option url.
Variable print_url : url -> string.
Variable do : upstream_request -> result go_error http_response.
Implicit Types (w : world B R).

#[local] Abbreviation history := (rtc (Accounting.event json_size alive)).
#[local] Abbreviation call_through := (native_call_through getenv alive limiter has_store others decode read_error media_type streaming do).
#[local] Abbreviation generic := (generic_admitted getenv alive others decode read_error media_type streaming parse_url print_url do).

Section request.
Variable q : handler_request.
Variable w0 : world B R.
Hypothesis Hcons : consistent (hw_db w0).
Hypothesis Hid : hr_id q <> "".
Hypothesis Hothers : forall i d, history d (others i d).

#[local] Abbreviation tracked := (tracked json_size alive q w0).
#[local] Abbreviation passes := (passes json_size alive q w0).
#[local] Abbreviation started := (started q).

Lemma persist_gateway wr e w : hw_gateway (persistUsage alive wr e w).1 = hw_gateway w.
Proof. apply persistUsage_gateway. Qed.

(** A row that is written for the request. *)
Lemma passes_persist w1 n wr e w : passes w1 n w -> entry_int64 e -> passes w1 (S n) (persistUsage alive wr e w).1.
Proof.
  intros Hp He. eapply passes_quiet; [done | exact Hp | | apply persist_gateway | by apply persistUsage_history].
  by eapply persistUsage_tracked; [.. | apply Hp | done].
Qed.

Lemma native_entry_int64 customer alias details status error ts : entry_int64 (native_entry q customer alias details status error ts).
Proof. done. Qed.

Lemma resolve_capability_frame c cap path fuel w w' out :
  resolveForCapability getenv limiter has_store c q cap path fuel w = (w', out) ->
  exists g evs, gw_registry g = gw_registry (hw_gateway w) /\ gw_events g = gw_events (hw_gateway w) /\
    stream_post (hr_alias q) g ∅ (hw_gateway w') out evs /\ (calls evs = [] \/ started (hw_db w')).
Proof.
  intros E. apply with_mark_frame in E as (env & g & Er & Ee & Erun & Hc).
  - pose proof Erun as Hs. apply capability_loop_spec in Hs as (evs & Hpost). exists g, evs. split_and!; [done | done | done |].
    apply Hc. apply Hpost.
  - intros env g g' o _ Ef. by eapply capability_loop_marks.
Qed.

Lemma native_call_passes w1 c nc cap path request fuel w w' e :
  passes w1 0 w -> call_through c nc q cap path request fuel w = (w', Some e) -> passes w1 1 w'.
Proof.
  intros Hp. unfold native_call_through. destruct (unpriced_gate _ _ _) as [| rep denial].
  2: { intros E. pose proof (passes_gate _ _ _ _ Hcons Hid w1 c rep denial w Hp) as Hg. by rewrite E in Hg. }
  assert (passes w1 0 (meanwhile others 1 w)) as Hp1 by by apply passes_meanwhile.
  destruct (resolveForCapability _ _ _ _ _ _ _ _ _) as [w2 out] eqn:Er.
  destruct (resolve_capability_frame _ _ _ _ _ _ _ Er) as (g & evs & Eg & Ee & Hpost & Hc).
  pose proof (with_mark_history json_size alive _ _ _ _ _ _ Er) as [Hh _].
  assert (tracked 0 w2) as Ht2 by (eapply with_mark_tracked; [done | apply Hp1 | exact Er]).
  set (w3 := meanwhile others 2 w2). assert (tracked 0 w3) as Ht3 by (eapply meanwhile_tracked; [done | done | exact Ht2]).
  assert (history (hw_db w2) (hw_db w3)) as Hh3 by apply Hothers.
  assert (consistent (hw_db w2)) as Hc2 by exact (tracked_consistent _ _ _ _ Hcons 0 w2 Ht2).
  destruct out as [target [u permit] | t err | |].
  2-4: intros [= <- _]; apply (passes_le _ _ _ _ w1 0); [lia |]; by eapply passes_unopened.
  destruct (upstreamFor target path) as [[url apiKey]|].
  - destruct (forwardProxy _ _ _ _ _ _ _) as [client [p|]]; [| done]. intros [= <- _]. unfold recordNativeAudit.
    set (entry := native_entry _ _ _ _ _ _ _). set (w4 := (persistUsage _ _ entry _).1).
    assert (hw_gateway w4 = hw_gateway w2) as Eg4 by (unfold w4; by rewrite persist_gateway).
    assert (history (hw_db w3) (hw_db w4)) as Hh4 by by apply persistUsage_history.
    eapply (passes_released _ _ _ _ Hcons w1 1 (meanwhile others 1 w) w4); [exact Hp1 | exact Eg | exact Ee | rewrite Eg4; exact Hpost | | |].
    + destruct Hc as [? | Hs]; [by left | right]. eapply started_history; [exact Hc2 | by etransitivity | exact Hs].
    + by eapply persistUsage_tracked.
    + etransitivity; [exact Hh |]. by etransitivity.
  - intros [= <- _]. apply (passes_le _ _ _ _ w1 0); [lia |].
    eapply (passes_released _ _ _ _ Hcons w1 0 (meanwhile others 1 w) w3); [exact Hp1 | exact Eg | exact Ee | exact Hpost | | exact Ht3 | by etransitivity].
    destruct Hc as [? | Hs]; [by left | right]. eapply started_history; [exact Hc2 | exact Hh3 | exact Hs].
Qed.

Lemma mark_started_passes w1 c w w' ok : passes w1 0 w -> mark_started c q w = (w', ok) -> passes w1 0 w'.
Proof.
  intros Hp. unfold mark_started. destruct (MarkAccountingStarted _ _ _ _ _) as [d res] eqn:Em. intros [= <- _].
  assert (history (hw_db w) d) as Hh by (apply rtc_once; by eapply ev_start).
  eapply passes_quiet; [done | exact Hp | by eapply tracked_db; [.. | apply Hp | done] | done | done].
Qed.

Lemma generic_passes w1 c nc name method rest query lookup w w' e :
  passes w1 0 w -> generic c nc q name method rest query lookup w = (w', Some e) -> passes w1 1 w'.
Proof.
  intros Hp. assert (passes w1 1 w) as Hp' by (by apply (passes_le _ _ _ _ w1 0); [lia |]). unfold generic_admitted.
  destruct (unpriced_gate _ _ _) as [| rep denial].
  2: { unfold gate_answer. destruct denial as [[status code]|]; intros [= <- _]; [| done]. by apply passes_persist. }
  destruct (name =? "")%string; [by intros [= <- _] |]. destruct lookup as [t|]; [| by intros [= <- _]].
  destruct (GetPassthroughByName name t) as [pt|]; [| by intros [= <- _]]. destruct (negb _); [by intros [= <- _] |].
  destruct (generic_request _ _ _ _ _ _ _ _) as [req|]; [| by intros [= <- _]].
  assert (passes w1 0 (meanwhile others 1 w)) as Hp1 by by apply passes_meanwhile.
  destruct (mark_started c q _) as [w2 ok] eqn:Em. apply (mark_started_passes w1) in Em; [| done].
  destruct ok; [| intros [= <- _]; by apply (passes_le _ _ _ _ w1 0); [lia |]].
  destruct (forwardProxy _ _ _ _ _ _ _) as [client [p|]]; [| done]. intros [= <- _]. unfold logPassthroughAudit.
  apply passes_persist; [by apply passes_meanwhile | done].
Qed.
End request.

#[local] Abbreviation serve :=
  (serve_native getenv json_size alive limiter has_store others decode read_error media_type disposition_ok streaming parse_url print_url do).

Section accounted.
Hypothesis Hothers : forall i d, history d (others i d).

Lemma native_endpoint_accounted c nc q endpoint cap path request fuel w w' e :
  consistent (hw_db w) -> hr_id q <> "" ->
  native_endpoint getenv json_size alive limiter has_store others decode read_error media_type streaming do c nc q endpoint cap path request fuel (fresh w)
    = (w', Some e) -> accounted_for json_size alive q w w'.
Proof.
  intros Hcons Hid. unfold native_endpoint. destruct (negb _); [intros [= <- _]; apply fresh_accounted |].
  destruct (admitRequestConcurrency _ _ _ _ _ _ _ _ _) as [w1 res] eqn:Ea. eapply admission_accounted in Ea; [| done..].
  destruct res as [lease|err]; [| by intros [= <- _]]. destruct Ea as (Hp1 & Hrun & Hrelease).
  destruct (native_call_through _ _ _ _ _ _ _ _ _ _ _ _ _ _ _ _ _ _) as [w2 [e2|]] eqn:En; [| done]. intros [= <- _].
  apply (Hrelease 1%nat); [lia |]. by eapply native_call_passes.
Qed.

Lemma serve_native_accounted c nc q r fuel w w' e :
  consistent (hw_db w) -> hr_id q <> "" -> serve c nc q r fuel w = (w', Some e) ->
  exists q', hr_id q' = hr_id q /\ accounted_for json_size alive q' w w'.
Proof.
  intros Hcons Hid.
  assert (forall endpoint cap path body, passthrough getenv json_size alive limiter has_store others decode read_error media_type streaming do
    c nc q endpoint cap path body fuel w = (w', Some e) -> exists q', hr_id q' = hr_id q /\ accounted_for json_size alive q' w w') as Hjson.
  { intros endpoint cap path body. unfold passthrough. destruct body as [m|]; [| intros [= <- _]; exists q; split; [done | apply fresh_accounted]].
    destruct (_ =? "")%string; [intros [= <- _]; exists q; split; [done | apply fresh_accounted] |].
    intros E. apply native_endpoint_accounted in E; [| done | done]. eexists. split; [| exact E]. done. }
  assert (forall endpoint path ct query f, audioMultipart getenv json_size alive limiter has_store others decode read_error media_type disposition_ok
    streaming do c nc q endpoint path ct query f fuel w = (w', Some e) -> exists q', hr_id q' = hr_id q /\ accounted_for json_size alive q' w w') as Hup.
  { intros endpoint path ct query f. unfold audioMultipart. destruct f as [f|]; [| intros [= <- _]; exists q; split; [done | apply fresh_accounted]].
    destruct (existsb _ _); [intros [= <- _]; exists q; split; [done | apply fresh_accounted] |].
    destruct (_ =? "")%string; [intros [= <- _]; exists q; split; [done | apply fresh_accounted] |].
    intros E. apply native_endpoint_accounted in E; [| done | done]. eexists. split; [| exact E]. done. }
  destruct r; cbn [serve_native]; [by apply Hjson.. | by apply Hup | by apply Hup |].
  unfold GenericPassthrough. set (q1 := set_alias "" _ q).
  destruct (admitRequestConcurrency _ _ _ _ _ _ _ _ _) as [w1 res] eqn:Ea. eapply admission_accounted in Ea; [| done..].
  destruct res as [lease|err]; [| intros [= <- _]; by exists q1]. destruct Ea as (Hp1 & Hrun & Hrelease).
  destruct (generic_admitted _ _ _ _ _ _ _ _ _ _ _ _ _ _ _ _ _ _ _) as [w2 [e2|]] eqn:En; [| done]. intros [= <- _].
  exists q1. split; [done |]. apply (Hrelease 1%nat); [lia |]. by eapply (generic_passes q1).
Qed.

(** No admitted native request is lost, and it gives back everything it took: for
    every native endpoint and however it ends (a refusal, no deployment, an
    upstream that breaks off, a client that has gone), the entry is complete or
    the replica is unready, the database stays reachable, every permit and lease
    was returned in order, and a deployment was called only for an entry that is
    durably started. *)
Theorem native_requests_are_recorded (c : conditions) (nc : native_conditions) (q : handler_request) (r : native_request) (fuel : nat)
    (w w' : world B R) (e : ending) (Hid : hr_id q <> "") (Hd : reachable json_size alive (hw_db w))
    (Hl : 0 <= lg_failures (hw_logger w) < 2 ^ 64) (E : serve c nc q r fuel w = (w', Some e)) :
  reachable json_size alive (hw_db w') /\
  (is_Some (hw_run w') -> finished (hw_db w') (hr_id q) \/ Ready (hw_logger w') = false) /\
  exists evs, gw_events (hw_gateway w') = gw_events (hw_gateway w) ++ evs /\ replay evs [] [] = Some ([], []) /\
    same_counters (rg_deploymentLimits (gw_registry (hw_gateway w))) (rg_deploymentLimits (gw_registry (hw_gateway w'))) /\
    (calls evs = [] \/ exists j, db_journal (hw_db w') !! hr_id q = Some j /\ jr_started j = true).
Proof.
  apply serve_native_accounted in E as (q' & Eq & Ha); [| by eapply reachable_consistent | done]. split_and!.
  - destruct Ha as ([Hh _ _] & _). unfold reachable in *. by etransitivity.
  - intros [run Hrun]. rewrite <- Eq. by eapply accounted_recorded.
  - destruct Ha as (_ & _ & _ & evs & (_ & Hc & He) & Hr & Hst). exists evs. split_and!; [done | done | done |]. rewrite <- Eq. exact Hst.
Qed.
End accounted.
End native_facts.

(** ** What upstreams get *)

(** The fields with which a client shows who it is: its key, in either of the
    two fields that carry one, its credentials for a proxy, its sessions, and the
    address and host under which proxies in front saw it. *)
Definition client_credentials : list string :=
  ["authorization"; "x-api-key"; "proxy-authorization"; "cookie";
   "x-forwarded-for"; "x-real-ip"; "x-forwarded-host"; "x-forwarded-proto"].

Definition credential (kv : string * list string) : bool := bool_decide (ToLower kv.1 ∈ client_credentials).

(** None of them is copied. *)
Lemma credentials_are_withheld h k : ToLower k ∈ client_credentials -> copied_inbound h k = false.
Proof.
  unfold copied_inbound, shouldHopByHop. intros Hk. apply negb_false_iff, orb_true_iff.
  unfold client_credentials in Hk. rewrite !elem_of_cons in Hk.
  repeat destruct Hk as [-> | Hk]; [.. | by apply elem_of_nil in Hk];
    first [by right | left; apply orb_true_iff; by left].
Qed.

(** Two headers that differ in the client's credentials only. *)
Definition same_but_credentials (h h' : Header) : Prop :=
  List.filter (fun kv => negb (credential kv)) h = List.filter (fun kv => negb (credential kv)) h'.

Lemma find_filtered {A} (f g : A -> bool) l : (forall x, f x = true -> g x = true) -> List.find f (List.filter g l) = List.find f l.
Proof.
  intros Hfg. induction l as [| x l IH]; [done |]. cbn. destruct (g x) eqn:Eg; cbn; [by destruct (f x) |].
  destruct (f x) eqn:Ef; [apply Hfg in Ef; congruence | done].
Qed.

Lemma filter_filtered {A} (f g : A -> bool) l : (forall x, f x = true -> g x = true) -> List.filter f (List.filter g l) = List.filter f l.
Proof.
  intros Hfg. induction l as [| x l IH]; [done |]. cbn. destruct (g x) eqn:Eg; cbn; [by rewrite IH |].
  destruct (f x) eqn:Ef; [apply Hfg in Ef; congruence | done].
Qed.

Lemma values_filtered h name :
  bool_decide (ToLower name ∈ client_credentials) = false -> header_values h name = header_values (List.filter (fun kv => negb (credential kv)) h) name.
Proof.
  intros Hn. unfold header_values. rewrite find_filtered; [done |]. intros [k vs]. cbn. intros ->%String.eqb_eq. unfold credential. cbn.
  by rewrite Hn.
Qed.

Lemma values_same h h' name :
  same_but_credentials h h' -> bool_decide (ToLower name ∈ client_credentials) = false -> header_values h name = header_values h' name.
Proof. intros Hh Hn. by rewrite (values_filtered h name Hn), (values_filtered h' name Hn), Hh. Qed.

Lemma native_header_same cap h h' apiKey : same_but_credentials h h' -> native_header cap h apiKey = native_header cap h' apiKey.
Proof.
  intros Hh. unfold native_header, header_get.
  rewrite (values_same h h' "Anthropic-Version" Hh eq_refl), (values_same h h' "Anthropic-Beta" Hh eq_refl). done.
Qed.

Lemma generic_header_same getenv pt h h' : same_but_credentials h h' -> generic_header getenv pt h = generic_header getenv pt h'.
Proof.
  intros Hh. unfold generic_header.
  assert (connectionHeaders h = connectionHeaders h') as Hc by (unfold connectionHeaders; by rewrite (values_same h h' "Connection" Hh eq_refl)).
  assert (List.filter (fun kv => copied_inbound h kv.1) h = List.filter (fun kv => copied_inbound h' kv.1) h') as ->; [| done].
  assert (forall g (kv : string * list string), copied_inbound g kv.1 = true -> negb (credential kv) = true) as Hkeep.
  { intros g kv Hk. unfold credential. case_bool_decide as Hcr; [| done]. by rewrite (credentials_are_withheld g kv.1 Hcr) in Hk. }
  rewrite <- (filter_filtered _ _ h (Hkeep h)), <- (filter_filtered _ _ h' (Hkeep h')), Hh.
  apply List.filter_ext. intros kv. unfold copied_inbound. by rewrite Hc.
Qed.

(** A configured target gets none of the withheld fields but its own credential. *)
Lemma generic_header_withheld getenv pt h k vs :
  (k, vs) ∈ generic_header getenv pt h -> ToLower k ∈ withheld \/ shouldHopByHop k = true \/ ToLower k ∈ connectionHeaders h ->
  pt_AuthHeader pt <> "" /\ k = CanonicalHeaderKey (pt_AuthHeader pt) /\
  vs = [pt_AuthValuePrefix pt +:+ (if (pt_AuthValueEnv pt =? "")%string then "" else getenv (pt_AuthValueEnv pt))].
Proof.
  assert ((k, vs) ∈ List.filter (fun kv => copied_inbound h kv.1) h -> ~ (ToLower k ∈ withheld \/ shouldHopByHop k = true \/ ToLower k ∈ connectionHeaders h)) as Hno.
  { intros [_ Hc]%list_elem_of_In%filter_In. cbn in Hc. unfold copied_inbound in Hc. apply negb_true_iff in Hc. rewrite !orb_false_iff in Hc.
    destruct Hc as [[H1 H2] H3]. apply bool_decide_eq_false in H2, H3. intros [? | [? | ?]]; congruence || done. }
  unfold generic_header. destruct (String.eqb_spec (pt_AuthHeader pt) ""); [intros Hin Hk; by destruct (Hno Hin) |].
  unfold header_set. intros [Hin | Hin]%elem_of_app Hk.
  - apply list_elem_of_In, filter_In in Hin as [Hin _]. apply list_elem_of_In in Hin. by destruct (Hno Hin).
  - apply list_elem_of_singleton in Hin. by injection Hin as -> ->.
Qed.

Section seen.
Context {B R : Type} `{BreakerStore B, RedisZSet R}.
Variable getenv : string -> string.
Variable json_size : UsageEntry -> Z.
Variable alive : string -> option Z -> Z -> bool.
Variable limiter : option Limiter.
Variable has_store : bool.
Variable others : nat -> database -> database.
Variable decode : bytes -> option raw.
Variable read_error : sse_error -> go_error.
Variable media_type : string -> string.
Variable disposition_ok : string -> string -> bool.
Variable streaming : StreamingConfig.
Variable parse_url : string -> option url.
Variable print_url : url -> string.
Variables do do' : upstream_request -> result go_error http_response.
Implicit Types (w : world B R).

#[local] Abbreviation serve d :=
  (serve_native getenv json_size alive limiter has_store others decode read_error media_type disposition_ok streaming parse_url print_url d).

Definition with_header (h : Header) (nc : native_conditions) : native_conditions :=
  mkNativeConditions (nc_customer nc) h (nc_proxy nc) (nc_release nc).

Lemma native_call_ext c nc nc' q cap path request request' fuel w :
  nc_proxy nc = nc_proxy nc' -> nc_release nc = nc_release nc' ->
  (forall url apiKey upstream, do (request url apiKey upstream) = do' (request' url apiKey upstream)) ->
  native_call_through getenv alive limiter has_store others decode read_error media_type streaming do c nc q cap path request fuel w =
  native_call_through getenv alive limiter has_store others decode read_error media_type streaming do' c nc' q cap path request' fuel w.
Proof.
  intros E1 E2 Hdo. unfold native_call_through. destruct (unpriced_gate _ _ _); [| done].
  destruct (resolveForCapability _ _ _ _ _ _ _ _ _) as [w2 [target [u permit] | | |]]; [| done..].
  destruct (upstreamFor target path) as [[url apiKey]|]; [| by rewrite E2]. by rewrite Hdo, E1, E2.
Qed.

Lemma native_endpoint_ext c nc nc' q endpoint cap path request request' fuel w :
  nc_proxy nc = nc_proxy nc' -> nc_release nc = nc_release nc' ->
  (forall url apiKey upstream, do (request url apiKey upstream) = do' (request' url apiKey upstream)) ->
  native_endpoint getenv json_size alive limiter has_store others decode read_error media_type streaming do c nc q endpoint cap path request fuel w =
  native_endpoint getenv json_size alive limiter has_store others decode read_error media_type streaming do' c nc' q endpoint cap path request' fuel w.
Proof.
  intros E1 E2 Hdo. unfold native_endpoint. destruct (negb _); [done |]. destruct (admitRequestConcurrency _ _ _ _ _ _ _ _ _) as [w1 [lease|]]; [| done].
  by rewrite (native_call_ext c nc nc' _ _ _ _ request' _ _ E1 E2 Hdo).
Qed.
End seen.

Section closed.
Context {B R : Type} `{BreakerStore B, RedisZSet R}.
Variable getenv : string -> string.
Variable json_size : UsageEntry -> Z.
Variable alive : string -> option Z -> Z -> bool.
Variable limiter : option Limiter.
Variable has_store : bool.
Variable others : nat -> database -> database.
Variable decode : bytes -> option raw.
Variable read_error : sse_error -> go_error.
Variable media_type : string -> string.
Variable disposition_ok : string -> string -> bool.
Variable streaming : StreamingConfig.
Variable parse_url : string -> option url.
Variable print_url : url -> string.
Variable do : upstream_request -> result go_error http_response.
Implicit Types (w : world B R).

#[local] Abbreviation serve :=
  (serve_native getenv json_size alive limiter has_store others decode read_error media_type disposition_ok streaming parse_url print_url do).

(** C20. A client's credentials do not flow to an upstream. A native request,
    JSON, upload or configured passthrough, ends with the same answer and state,
    whatever function of the requests they are sent the upstreams' answers are, for
    two headers that differ in nothing but
    [Authorization], [X-Api-Key], [Proxy-Authorization], [Cookie],
    [X-Forwarded-For], [X-Real-Ip], [X-Forwarded-Host] and [X-Forwarded-Proto]. *)
Theorem client_credentials_do_not_flow (c : conditions) (nc : native_conditions) (q : handler_request) (r : native_request) (fuel : nat)
    (w : world B R) (h : Header) (Hh : same_but_credentials (nc_header nc) h) :
  serve c nc q r fuel w = serve c (with_header h nc) q r fuel w.
Proof.
  assert (forall endpoint cap path body, passthrough getenv json_size alive limiter has_store others decode read_error media_type streaming do
      c nc q endpoint cap path body fuel w =
    passthrough getenv json_size alive limiter has_store others decode read_error media_type streaming do
      c (with_header h nc) q endpoint cap path body fuel w) as Hjson.
  { intros endpoint cap path body. unfold passthrough. destruct body as [m|]; [| done]. destruct (_ =? "")%string; [done |].
    apply native_endpoint_ext; [done | done |]. intros. cbn [with_header nc_header]. by rewrite (native_header_same cap _ h apiKey Hh). }
  assert (forall endpoint path ct query f, audioMultipart getenv json_size alive limiter has_store others decode read_error media_type disposition_ok
      streaming do c nc q endpoint path ct query f fuel w =
    audioMultipart getenv json_size alive limiter has_store others decode read_error media_type disposition_ok
      streaming do c (with_header h nc) q endpoint path ct query f fuel w) as Hup.
  { intros endpoint path ct query f. unfold audioMultipart. destruct f as [f|]; [| done]. destruct (existsb _ _); [done |].
    destruct (_ =? "")%string; [done |]. by apply native_endpoint_ext. }
  destruct r; cbn [serve_native]; [by apply Hjson.. | by apply Hup | by apply Hup |]. unfold GenericPassthrough.
  destruct (admitRequestConcurrency _ _ _ _ _ _ _ _ _) as [w1 [lease|]]; [| done].
  match goal with |- match ?a with _ => _ end = match ?b with _ => _ end => assert (a = b) as ->; [| done] end.
  unfold generic_admitted. destruct (unpriced_gate _ _ _); [| done]. destruct (name =? "")%string; [done |].
  destruct lookup as [t|]; [| done]. destruct (GetPassthroughByName name t) as [pt|]; [| done]. destruct (negb _); [done |].
  assert (generic_request getenv parse_url print_url pt method rest query (nc_header nc) =
    generic_request getenv parse_url print_url pt method rest query (nc_header (with_header h nc))) as ->; [| done].
  unfold generic_request. cbn [with_header nc_header]. by rewrite (generic_header_same getenv pt _ h Hh).
Qed.

(** An admission under a policy, or one whose policies cannot be read, ends for
    any endpoint but the chat one. *)
Lemma policies_deny path c q w :
  co_policies c <> Ok [] -> path <> "/v1/chat/completions" ->
  exists w' e, admitRequestConcurrency json_size alive limiter has_store others path c q w = (w', Err e) /\
    hw_gateway w' = hw_gateway w /\ 400 <= e.1.
Proof.
  intros Hpol Hpath. unfold admitRequestConcurrency, loadGuardrails.
  assert (negb (path =? "/v1/chat/completions")%string = true) as Hn by (apply negb_true_iff; by apply String.eqb_neq).
  destruct (co_policies c) as [[| p ps]|msg]; [done | |].
  all: rewrite ?Hn; cbn [orb]; destruct (audit _ _ _ _ _) as [table x]; cbn [load_denial];
    eexists _, _; split_and!; [reflexivity | by rewrite recordDenial_gateway | by vm_compute].
Qed.

(** A refusal that left the gateway alone. *)
Definition refused w w' (e : ending) : Prop := hw_gateway w' = hw_gateway w /\ exists r, e = Answered r /\ 400 <= r.1.

Lemma native_endpoint_refused c nc q endpoint cap path request fuel w :
  co_policies c <> Ok [] -> endpoint <> "/v1/chat/completions" ->
  exists w' e, native_endpoint getenv json_size alive limiter has_store others decode read_error media_type streaming do
    c nc q endpoint cap path request fuel w = (w', Some e) /\ refused w w' e.
Proof.
  intros Hpol Hpath. unfold native_endpoint. destruct (negb _); [eexists _, _; split; [done |]; split; [done | by eexists] |].
  destruct (policies_deny endpoint c q w Hpol Hpath) as (w' & e & -> & Hg & He). eexists _, _. split; [done |]. split; [done | eauto].
Qed.

Lemma serve_native_refused c nc q r fuel w :
  co_policies c <> Ok [] -> exists w' e, serve c nc q r fuel w = (w', Some e) /\ refused w w' e.
Proof.
  intros Hpol. assert (forall r, 400 <= r.1 -> refused w (fresh w) (Answered r)) as Hearly by (intros r0 Hr; split; [done | eauto]).
  assert (forall endpoint cap path body, endpoint <> "/v1/chat/completions" -> exists w' e,
    passthrough getenv json_size alive limiter has_store others decode read_error media_type streaming do c nc q endpoint cap path body fuel w = (w', Some e) /\
    refused w w' e) as Hjson.
  { intros endpoint cap path body Hp. unfold passthrough. destruct body as [m|]; [| eexists _, _; split; [done | by apply Hearly]].
    destruct (_ =? "")%string; [eexists _, _; split; [done | by apply Hearly] |]. by apply (native_endpoint_refused c nc _ endpoint _ _ _ _ (fresh w)). }
  assert (forall endpoint path ct query f, endpoint <> "/v1/chat/completions" -> exists w' e,
    audioMultipart getenv json_size alive limiter has_store others decode read_error media_type disposition_ok streaming do
      c nc q endpoint path ct query f fuel w = (w', Some e) /\ refused w w' e) as Hup.
  { intros endpoint path ct query f Hp. unfold audioMultipart. destruct f as [f|]; [| eexists _, _; split; [done | by apply Hearly]].
    destruct (existsb _ _); [eexists _, _; split; [done | by apply Hearly] |].
    destruct (_ =? "")%string; [eexists _, _; split; [done | by apply Hearly] |]. by apply (native_endpoint_refused c nc _ endpoint _ _ _ _ (fresh w)). }
  destruct r; cbn [serve_native]; [by apply Hjson.. | by apply Hup | by apply Hup |]. unfold GenericPassthrough.
  match goal with |- context [admitRequestConcurrency _ _ _ _ _ ?path ?c ?q ?w] => destruct (policies_deny path c q w Hpol ltac:(done)) as (w' & e & -> & Hg & He) end.
  eexists _, _. split; [done |]. split; [done | eauto].
Qed.

(** A policy cannot be bypassed by another endpoint: while a team has guardrail
    policies, or they cannot be read, embeddings, responses and every native
    endpoint are refused with an error before any permit, lease or upstream is
    touched; only the chat endpoint, which applies them, is open. *)
Theorem policies_close_other_endpoints {F} (call : nat -> Resolved -> call_result (Usage * bool)) (parse_float : string -> option F)
    (digest : string -> string) (body_len : raw -> Z) (render : raw -> bytes) (post : nat -> Resolved -> raw -> native_call)
    (c : conditions) (nc : native_conditions) (rc : response_conditions) (q : handler_request) (r : native_request) (body : option raw)
    (input_len : Z) (fuel : nat) (w : world B R) (t : response_table) (Hpol : co_policies c <> Ok []) :
  (let '(w', e) := Embeddings getenv json_size alive limiter has_store others call c q input_len fuel w in refused w w' e) /\
  (let '(w', t', e) := Responses getenv json_size alive limiter has_store others parse_float digest body_len decode render read_error streaming post
     c rc q body fuel w t in t' = t /\ exists x, e = Some x /\ refused w w' x) /\
  (let '(w', e) := serve c nc q r fuel w in exists x, e = Some x /\ refused w w' x).
Proof.
  assert (forall r, 400 <= r.1 -> refused w (fresh w) (Answered r)) as Hearly by (intros r0 Hr; split; [done | eauto]).
  assert (forall wr q now status code r, 400 <= r.1 -> refused w (recordDenial alive wr q now status code (fresh w)) (Answered r)) as Hdeny.
  { intros. split; [by rewrite recordDenial_gateway | eauto]. }
  split_and!.
  - unfold Embeddings. destruct (hr_alias q =? "")%string; [by apply Hearly |]. destruct (input_len =? 0); [by apply Hearly |].
    destruct (negb _); [by apply Hdeny |].
    destruct (policies_deny "/v1/embeddings" c q (fresh w) Hpol ltac:(done)) as (w' & e & -> & Hg & He). split; [done | eauto].
  - unfold Responses. destruct (body ≫= _) as [req|]; [| split; [done |]; eexists; split; [done | by apply Hearly]].
    destruct (negb _); [split; [done |]; eexists; split; [done | by apply Hdeny] |].
    destruct (_ =? "")%string; [split; [done |]; eexists; split; [done | by apply Hearly] |].
    destruct (load_previous _ _ _ _ _) as [previous|e] eqn:El.
    + match goal with |- context [admitRequestConcurrency _ _ _ _ _ ?path ?c ?q ?w] => destruct (policies_deny path c q w Hpol ltac:(done)) as (w' & e & -> & Hg & He) end.
      split; [done |]. eexists. split; [done |]. split; [done | eauto].
    + split; [done |]. eexists. split; [done |]. apply Hearly. revert El. unfold load_previous. case_bool_decide; [done |].
      destruct (loadResponseBinding _ _ _ _ _) as [b|[]]; [| by intros [= <-]..]. destruct (_ || _); [by intros [= <-] |].
      by destruct (negb _); [intros [= <-] |].
  - destruct (serve_native_refused c nc q r fuel w Hpol) as (w' & e & -> & Hr). eauto.
Qed.
End closed.

(** ** Bodies *)

(** A forwarded JSON body is the client's with the deployment's model. *)
Lemma native_body_spec m model :
  exists m', native_body m model = marshal_map m' /\ m' !! txt "model" = Some (JStr (txt model)) /\ forall k, k <> txt "model" -> m' !! k = m !! k.
Proof. eexists. split; [reflexivity |]. split; [apply lookup_insert_eq |]. intros k Hk. by rewrite lookup_insert_ne. Qed.

(** What a part of the re-encoded form stands for. *)
Definition part_of (f : form) (model : string) (p : part) : Prop :=
  match p with
  | FieldPart name value => exists values v, (name, values) ∈ fm_values f /\ v ∈ values /\ value = if (name =? "model")%string then model else v
  | FilePart name filename ctype content =>
      exists files u, (name, files) ∈ fm_files f /\ u ∈ files /\ up_filename u = filename /\ up_type u = ctype /\ up_content u = Some content
  end.

(** A forwarded upload consists of the client's parts, with the deployment's model
    in every field of that name. *)
Theorem uploads_are_forwarded (disposition_ok : string -> string -> bool) (f : form) (model : string) (parts : list part)
    (E : encodeMultipart disposition_ok f model = Some parts) :
  (forall p, p ∈ parts -> part_of f model p) /\
  length parts = (sum_list (map (fun kv => length kv.2) (fm_values f)) + sum_list (map (fun kv => length kv.2) (fm_files f)))%nat.
Proof.
  unfold encodeMultipart in E. destruct (mapM _ _) as [files|] eqn:Em; cbn in E; [| done]. injection E as <-. apply mapM_Some in Em. split.
  - intros p [Hp | Hp]%elem_of_app.
    + apply list_elem_of_bind in Hp as ([name values] & Hp & Hin). apply list_elem_of_fmap in Hp as (v & -> & Hv). by exists values, v.
    + apply list_elem_of_lookup in Hp as [i Hi]. destruct (Forall2_lookup_r _ _ _ _ _ Em Hi) as ([name u] & Hu & Hx). cbn in Hx.
      apply list_elem_of_lookup_2, list_elem_of_bind in Hu as ([name' us] & Hu & Hin). apply list_elem_of_fmap in Hu as (u' & [= -> ->] & Hu').
      unfold file_part in Hx. destruct (up_content u') as [content|] eqn:Ec; [| done]. destruct (disposition_ok _ _); [| done]. injection Hx as <-.
      by exists us, u'.
  - rewrite length_app. apply Forall2_length in Em. rewrite <- Em. f_equal.
    + induction (fm_values f) as [| kv l IH]; [done |]. cbn. rewrite length_app, IH. unfold field_parts. by rewrite length_map.
    + clear Em. induction (fm_files f) as [| kv l IH]; [done |]. cbn. by rewrite length_app, IH, length_map.
Qed.

(** The model of an upload may come from the query, which is not forwarded: the
    deployment is chosen by a model its upstream is never told. *)
Lemma model_of_the_query_is_lost :
  let f := mkForm [("language", ["en"])] [] in
  FormValue [("model", "whisper")] f "model" = "whisper" /\
  encodeMultipart (fun _ _ => true) f "whisper-1" = Some [FieldPart "language" "en"].
Proof. done. Qed.

(** A deleted passthrough is archived, and its name stays taken: it cannot be
    created again. *)
Lemma deleted_name_is_taken now p enabled t t1 :
  DeletePassthrough now (cp_Name p) t = (t1, (204, "")) -> (CreatePassthrough p enabled t1).2 <> (201, "").
Proof.
  unfold DeletePassthrough, store_DeletePassthrough. destruct (GetPassthroughByName (cp_Name p) t) as [row|]; [| done].
  intros [= <-]. unfold CreatePassthrough. destruct (_ || _); [done |]. destruct (negb _); [done |].
  unfold store_CreatePassthrough. cbn. by rewrite lookup_insert_eq.
Qed.

(** Every row that can be used has an http target. *)
Definition targets_ok (t : passthroughs) : Prop := forall name p, pt_rows t !! name = Some p -> http_url (pt_TargetURL p) = true.

Inductive passthrough_step : passthroughs -> passthroughs -> Prop :=
| ps_create p enabled t : passthrough_step t (CreatePassthrough p enabled t).1
| ps_update name u t : passthrough_step t (UpdatePassthrough name u t).1
| ps_delete now name t : passthrough_step t (DeletePassthrough now name t).1.

Lemma passthrough_step_ok t t' : passthrough_step t t' -> targets_ok t -> targets_ok t'.
Proof.
  assert (forall name n row t, targets_ok t -> http_url (pt_TargetURL row) = true -> targets_ok (mkPassthroughs (<[name := row]> (pt_rows t)) n)) as Hins.
  { intros name n row t0 Ht Hrow k p. cbn. rewrite lookup_insert. case_decide; [by intros [= <-] | apply Ht]. }
  intros [p enabled t0 | name u t0 | now name t0] Ht.
  - unfold CreatePassthrough. destruct (_ || _); [done |]. destruct (negb (http_url _)) eqn:Eu; [done |]. apply negb_false_iff in Eu.
    unfold store_CreatePassthrough. cbn. destruct (pt_rows t0 !! cp_Name p); [exact Ht |]. by apply Hins.
  - unfold UpdatePassthrough. destruct (match upp_TargetURL u with Some url => _ | None => _ end) eqn:Eu; [done |].
    unfold store_UpdatePassthrough, GetPassthroughByName. destruct (pt_rows t0 !! name) as [p|] eqn:Ep; cbn; [| done].
    destruct (active p); cbn; [| done]. apply Hins; [done |]. cbn. destruct (upp_TargetURL u); [by apply negb_false_iff in Eu | by eapply Ht].
  - unfold DeletePassthrough, store_DeletePassthrough, GetPassthroughByName. destruct (pt_rows t0 !! name) as [p|] eqn:Ep; cbn; [| done].
    destruct (active p); cbn; [| done]. apply Hins; [done |]. cbn. by eapply Ht.
Qed.

(** ** Evaluation *)

Definition native_capabilities : DeploymentCapabilities := mkDeploymentCapabilities None true true true true true true true true true.

Definition native_deployments : list Deployment :=
  [mkDeployment 1 "east" "openai" "gpt-4o" "KEY" (Some "https://east/v1/") None true 1 None [] None None;
   mkDeployment 2 "west" "openai" "tts-1" "KEY" (Some "https://west/v1/") None true 1 None [] (Some native_capabilities) None].

Definition native_world : world Empty_set MapRedis.db :=
  let r := (Refresh example_env dep_Name (fun _ => true) Second (Ok []) (Ok []) (Ok native_deployments)
     (Ok [mkAliasRow "gpt" [] [mkAliasTargetRow "east" 0 1; mkAliasTargetRow "west" 1 1] false 0 "" ∅]) (Ok []) no_policies empty_registry).1.2 in
  mkWorld (mkGateway r (mkConcurrencyPolicies ∅ 63072000000000000000) MapRedis.empty_db false []) empty_database NewLogger customer_tables [] None None None.

Definition native_example : native_conditions :=
  mkNativeConditions ("acme", "") [("Authorization", ["Bearer gw-secret"])] (audio_env (StreamRead EOF)) (example_env_n 9).

Definition speech_body : gmap text raw := <[txt "model" := JStr (txt "gpt")]> (<[txt "input" := JStr (txt "hello")]> ∅).

(** The upstream answers with the audio to the expected request only. *)
Definition example_do (r : upstream_request) : result go_error http_response :=
  if (ur_url r =? "https://west/v1/audio/speech")%string then Ok audio_answer else Err (EOther "refused").

Definition run_native (c : conditions) (nc : native_conditions) (do : upstream_request -> result go_error http_response) (r : native_request) :
    world Empty_set MapRedis.db * option ending :=
  serve_native example_env small kept None true (fun _ d => d) (fun _ => None) (fun _ => ECanceled) (fun s => s) (fun _ _ => true)
    (mkStreamingConfig 0 0 0 0) (fun _ => None) (fun u => url_Host u) do c nc example_request r 4 native_world.

Definition spoken : world Empty_set MapRedis.db := (run_native example_conditions native_example example_do (AudioSpeech (Some speech_body))).1.

(** The deployment without the capability is skipped, the other one is asked at
    its own address; a configured passthrough that does not exist is not found. *)
Lemma example_native :
  (let '(w, e) := run_native example_conditions native_example example_do (AudioSpeech (Some speech_body)) in
   (e, calls (gw_events (hw_gateway w)), option_map jr_state (db_journal (hw_db w) !! "r9"))) =
    (Some (Answered (200, "")), ["west"], Some Complete) /\
  (run_native example_conditions native_example example_do (Generic "x" "GET" "y" "" (Ok (mkPassthroughs ∅ 1)))).2 = Some (Answered (404, "not_found")).
Proof. vm_compute. split; reflexivity. Qed.

Lemma native_requests_are_recorded_witness :
  is_Some (hw_run spoken) /\ (finished (hw_db spoken) "r9" \/ Ready (hw_logger spoken) = false).
Proof.
  destruct (native_requests_are_recorded (B := Empty_set) example_env small kept None true (fun _ d => d) (fun _ => None) (fun _ => ECanceled) (fun s => s)
    (fun _ _ => true) (mkStreamingConfig 0 0 0 0) (fun _ => None) (fun u => url_Host u) example_do ltac:(intros; constructor)
    example_conditions native_example example_request (AudioSpeech (Some speech_body)) 4 native_world spoken (Answered (200, ""))
    ltac:(discriminate) ltac:(constructor) ltac:(vm_compute; split; [discriminate | reflexivity]) ltac:(vm_compute; reflexivity)) as (_ & Hrec & _).
  assert (is_Some (hw_run spoken)) as Hrun by (vm_compute; by eexists). split; [exact Hrun | exact (Hrec Hrun)].
Defined.

Lemma client_credentials_do_not_flow_witness :
  run_native example_conditions native_example example_do (AudioSpeech (Some speech_body)) =
  run_native example_conditions (with_header [] native_example) example_do (AudioSpeech (Some speech_body)).
Proof. unfold run_native. refine (client_credentials_do_not_flow (B := Empty_set) _ _ _ _ _ _ _ _ _ _ _ _ _ _ _ _ _ _ _ _ _ _). vm_compute. reflexivity. Defined.

Lemma policies_close_other_endpoints_witness :
  let '(w', e) := run_native (guarded_conditions [GuardEnvelope.blocking "both"]) native_example example_do (AudioSpeech (Some speech_body)) in
  exists x, e = Some x /\ refused native_world w' x.
Proof.
  unfold run_native.
  refine (proj2 (proj2 (policies_close_other_endpoints (B := Empty_set) example_env small kept None true (fun _ d => d) (fun _ => None) (fun _ => ECanceled)
    (fun s => s) (fun _ _ => true) (mkStreamingConfig 0 0 0 0) (fun _ => None) (fun u => url_Host u) example_do (F := unit) example_answer (fun _ => Some tt)
    (fun s => s) (fun _ => 100) (fun _ => str "{}") example_post (guarded_conditions [GuardEnvelope.blocking "both"]) native_example
    example_response_conditions example_request (AudioSpeech (Some speech_body)) None 1 4 native_world ∅ _))).
  vm_compute. discriminate.
Defined.

Lemma uploads_are_forwarded_witness :
  exists parts, encodeMultipart (fun _ _ => true) (mkForm [("model", ["whisper"])] [("file", [mkUpload "a.wav" "audio/wav" 2 (Some (str "ab"))])]) "whisper-1" =
    Some parts /\ length parts = 2%nat.
Proof.
  destruct (encodeMultipart (fun _ _ => true) (mkForm [("model", ["whisper"])] [("file", [mkUpload "a.wav" "audio/wav" 2 (Some (str "ab"))])]) "whisper-1")
    as [parts|] eqn:E; [| discriminate E].
  exists parts. split; [reflexivity | exact (proj2 (uploads_are_forwarded _ _ _ _ E))].
Defined.
