(* ===== verification/Callbacks.v ===== *)
(** * Callbacks ([internal/callbacks/callbacks.go], [internal/callbacks/sinks.go])

    The event bus: every registered sink has a bounded queue and one worker, and
    the goroutines that emit events, the workers and the goroutine that waits for
    the end of the process run in any order. A goroutine is its program counter;
    one transition is one channel operation with the counters that follow it,
    which no other goroutine's choice depends on. Counters do not wrap: they count
    events of one process. A clock reading is a number of nanoseconds since 1970.
    [Module Archive] is the sink that collects events into files, [Module Sinks]
    what the HTTP sinks send. *)

From S2P Require Import Prelude GoStrings Json Wire.
From S2P Require Import Models Money Router.

(** ** Events *)

Definition EventRequestCompleted : string := "request.completed".
Definition EventRequestFailed : string := "request.failed".
Definition EventBudgetThreshold : string := "budget.threshold".
Definition EventBudgetExceeded : string := "budget.exceeded".
Definition EventCircuitOpened : string := "circuit.opened".
Definition EventCircuitClosed : string := "circuit.closed".
Definition EventKeyRevoked : string := "key.revoked".
Definition EventGuardrailBlocked : string := "guardrail.blocked".

Record TokenUsage := mkTokenUsage { tk_Prompt : Z; tk_Completion : Z; tk_Total : Z }.

Record Event := mkEvent {
  ev_ID : string;
  ev_Type : string;
  ev_RequestID : string;
  ev_Ts : Z;
  ev_TeamSlug : string;
  ev_UserID : Z;
  ev_KeyPrefix : string;
  ev_Alias : string;
  ev_Deployment : string;
  ev_ModelUsed : string;
  ev_Tokens : TokenUsage;
  ev_CostCents : Z;
  ev_LatencyMs : Z;
  ev_StatusCode : Z;
  ev_Cached : bool;
  ev_Error : string;
  ev_Payload : list (text * raw);
  ev_CostMicrocents : Z;
}.

(** What [Emit] fills in: the identifier and the time. *)
Definition stamp (nano now : Z) (e : Event) : Event :=
  mkEvent (if (ev_ID e =? "")%string then "evt_" +:+ int_lit nano else ev_ID e) (ev_Type e) (ev_RequestID e)
    (if IsZero (ev_Ts e) then now else ev_Ts e) (ev_TeamSlug e) (ev_UserID e) (ev_KeyPrefix e) (ev_Alias e) (ev_Deployment e)
    (ev_ModelUsed e) (ev_Tokens e) (ev_CostCents e) (ev_LatencyMs e) (ev_StatusCode e) (ev_Cached e) (ev_Error e) (ev_Payload e)
    (ev_CostMicrocents e).

(** ** The bus *)

Module Bus.

(** What the bus asks of a sink before it starts. *)
Record Callback := mkCallback { cb_Name : string; cb_EventTypes : list string }.

(** Where the goroutine of a worker is: not started, before the test of the
    context, in the [select], in [Send], or returned. *)
Inductive worker_pc := WIdle | WCheck | WSelect | WSending (e : Event) | WExited.

Record worker := mkWorker {
  w_cb : Callback;
  w_subscribed : list string;
  w_subAll : bool;
  w_queue : list Event;
  w_delivered : Z;
  w_failed : Z;
  w_dropped : Z;
  w_circuit : Z;
  w_openUntil : Z;
  w_pc : worker_pc;
}.

(** The goroutine that waits for the cancellation: it stops the bus, joins the
    workers and drains their queues. *)
Inductive closer_pc := CIdle | CAwait | CJoin | CDrain (i : nat) | CDone.

Record Bus := mkBus {
  b_workers : list worker;
  b_stopped : bool;
  b_sealed : bool;
  b_cancelled : bool;
  b_closer : closer_pc;
}.

Definition queue_depth : Z := 10000.
Definition max_callbacks : nat := 32.

Definition set_queue (q : list Event) (dropped : Z) (w : worker) : worker :=
  mkWorker (w_cb w) (w_subscribed w) (w_subAll w) q (w_delivered w) (w_failed w) dropped (w_circuit w) (w_openUntil w) (w_pc w).
Definition set_pc (p : worker_pc) (w : worker) : worker :=
  mkWorker (w_cb w) (w_subscribed w) (w_subAll w) (w_queue w) (w_delivered w) (w_failed w) (w_dropped w) (w_circuit w) (w_openUntil w) p.
Definition set_outcome (delivered failed circuit openUntil : Z) (w : worker) : worker :=
  mkWorker (w_cb w) (w_subscribed w) (w_subAll w) (w_queue w) delivered failed (w_dropped w) circuit openUntil WCheck.
Definition set_workers (ws : list worker) (b : Bus) : Bus := mkBus ws (b_stopped b) (b_sealed b) (b_cancelled b) (b_closer b).
Definition set_closer (c : closer_pc) (b : Bus) : Bus := mkBus (b_workers b) (b_stopped b) (b_sealed b) (b_cancelled b) c.

Definition NewBus : Bus := mkBus [] false false false CIdle.

(** [Register]; an error is [None]. *)
Definition Register (cb : Callback) (b : Bus) : option Bus :=
  if b_sealed b || (max_callbacks <=? length (b_workers b))%nat then None
  else Some (set_workers (b_workers b ++ [mkWorker cb (cb_EventTypes cb) (bool_decide (cb_EventTypes cb = [])) [] 0 0 0 0 0 WIdle]) b).

(** [Start] seals the bus and starts its goroutines, once. *)
Definition Start (b : Bus) : Bus :=
  match b_closer b with
  | CIdle => mkBus (set_pc WCheck <$> b_workers b) (b_stopped b) true (b_cancelled b) CAwait
  | _ => b
  end.

(** ** Emitting *)

(** An [Emit] that holds the read lock, at its [i]-th worker: before the first
    send, before it removes the oldest event, or before the second send. *)
Inductive emit_phase := FirstSend | RemoveOldest | SecondSend.
Inductive emit_pc := EStart (e : Event) | EAt (e : Event) (i : nat) (ph : emit_phase) | EDone.

(** What happened to an event, for one worker. *)
Inductive obs :=
| Offer (k : nat) (e : Event)
| Push (k : nat) (e : Event)
| Remove (k : nat) (e : Event)
| Hand (k : nat) (e : Event) (now : Z)
| Result (k : nat) (e : Event) (ok : bool) (now : Z).

Definition subscribes (w : worker) (e : Event) : bool := w_subAll w || bool_decide (ev_Type e ∈ w_subscribed w).

Definition full (w : worker) : bool := queue_depth <=? Z.of_nat (length (w_queue w)).

Definition push (e : Event) (w : worker) : worker := set_queue (w_queue w ++ [e]) (w_dropped w) w.
Definition drop (w : worker) : worker := set_queue (w_queue w) (w_dropped w + 1) w.
Definition pop (q : list Event) (w : worker) : worker := set_queue q (w_dropped w + 1) w.

Definition emit_step (b : Bus) (p : emit_pc) : option (Bus * emit_pc * list obs) :=
  match p with
  | EStart e => Some (b, EAt e 0 FirstSend, [])
  | EAt e i FirstSend =>
      match b_workers b !! i with
      | None => Some (b, EDone, [])
      | Some w =>
          let to w' := set_workers (<[i := w']> (b_workers b)) b in
          if negb (subscribes w e) then Some (b, EAt e (S i) FirstSend, [])
          else if b_stopped b then Some (to (drop w), EAt e (S i) FirstSend, [Offer i e])
          else if full w then Some (b, EAt e i RemoveOldest, [Offer i e])
          else Some (to (push e w), EAt e (S i) FirstSend, [Push i e; Offer i e])
      end
  | EAt e i RemoveOldest =>
      w ← b_workers b !! i;
      match w_queue w with
      | [] => Some (b, EAt e i SecondSend, [])
      | old :: q => Some (set_workers (<[i := pop q w]> (b_workers b)) b, EAt e i SecondSend, [Remove i old])
      end
  | EAt e i SecondSend =>
      w ← b_workers b !! i;
      let to w' := set_workers (<[i := w']> (b_workers b)) b in
      if full w then Some (to (drop w), EAt e (S i) FirstSend, [])
      else Some (to (push e w), EAt e (S i) FirstSend, [Push i e])
  | EDone => None
  end.

(** [defer b.mu.RUnlock()]: an emitter between its first and last step excludes
    the writers of the lock. *)
Definition reading (p : emit_pc) : bool := match p with EAt _ _ _ => true | _ => false end.

(** ** Workers *)

(** What the surroundings decide in one step of a worker: which ready case the
    [select] takes and the clock, or how [Send] ended. *)
Inductive choice := CaseDone | CaseQueue (now : Z) | Sent (ok : bool) (now : Z) | Go.

Definition circuit_open (openUntil now : Z) : bool := (0 <? openUntil) && (now <? openUntil).

(** The counters after an attempt. *)
Definition after_send (ok : bool) (now : Z) (w : worker) : worker :=
  if ok then set_outcome (w_delivered w + 1) (w_failed w) 0 (w_openUntil w) w
  else if 10 <? w_circuit w + 1 then set_outcome (w_delivered w) (w_failed w + 1) 0 (now + 60 * Second) w
  else set_outcome (w_delivered w) (w_failed w + 1) (w_circuit w + 1) (w_openUntil w) w.

Definition run_step (cancelled : bool) (k : nat) (w : worker) (c : choice) : option (worker * list obs) :=
  match w_pc w, c with
  | WCheck, Go => Some (set_pc (if cancelled then WExited else WSelect) w, [])
  | WSelect, CaseDone => if cancelled then Some (set_pc WExited w, []) else None
  | WSelect, CaseQueue now =>
      match w_queue w with
      | [] => None
      | e :: q =>
          if circuit_open (w_openUntil w) now then Some (set_pc WCheck (pop q w), [Remove k e])
          else Some (set_pc (WSending e) (set_queue q (w_dropped w) w), [Hand k e now; Remove k e])
      end
  | WSending e, Sent ok now => Some (after_send ok now w, [Result k e ok now])
  | _, _ => None
  end.

(** ** The end *)

Definition exited (w : worker) : bool := match w_pc w with WExited => true | _ => false end.

Definition closer_step (b : Bus) : option (Bus * list obs) :=
  match b_closer b with
  | CAwait => if b_cancelled b then Some (mkBus (b_workers b) true (b_sealed b) true CJoin, []) else None
  | CJoin => if forallb exited (b_workers b) then Some (set_closer (CDrain 0) b, []) else None
  | CDrain i =>
      match b_workers b !! i with
      | None => Some (set_closer CDone b, [])
      | Some w =>
          match w_queue w with
          | [] => Some (set_closer (CDrain (S i)) b, [])
          | e :: q => Some (set_workers (<[i := pop q w]> (b_workers b)) b, [Remove i e])
          end
      end
  | CIdle | CDone => None
  end.

(** [Stats] *)
Record Stat := mkStat { st_Name : string; st_Delivered : Z; st_Failed : Z; st_Dropped : Z; st_QueueLen : nat; st_Circuit : string }.

Definition Stats (now : Z) (b : option Bus) : list Stat :=
  match b with
  | None => []
  | Some b => (fun w => mkStat (cb_Name (w_cb w)) (w_delivered w) (w_failed w) (w_dropped w) (length (w_queue w))
                          (if circuit_open (w_openUntil w) now then "open" else "closed")) <$> b_workers b
  end.

(** ** Runs *)

(** The bus, the calls of [Emit], and what happened, the latest first. *)
Record sys := mkSys { s_bus : Bus; s_emitters : list emit_pc; s_trail : list obs }.

Inductive step : sys -> sys -> Prop :=
| step_register b b' es tr cb : forallb (fun p => negb (reading p)) es = true -> Register cb b = Some b' -> step (mkSys b es tr) (mkSys b' es tr)
| step_start b es tr : forallb (fun p => negb (reading p)) es = true -> step (mkSys b es tr) (mkSys (Start b) es tr)
| step_cancel b es tr : step (mkSys b es tr) (mkSys (mkBus (b_workers b) (b_stopped b) (b_sealed b) true (b_closer b)) es tr)
| step_emit b es tr e : step (mkSys b es tr) (mkSys b (es ++ [EStart e]) tr)
| step_emitter b b' es tr i p p' o : es !! i = Some p -> emit_step b p = Some (b', p', o) -> step (mkSys b es tr) (mkSys b' (<[i := p']> es) (o ++ tr))
| step_worker b es tr k w w' c o : b_workers b !! k = Some w -> run_step (b_cancelled b) k w c = Some (w', o) ->
    step (mkSys b es tr) (mkSys (set_workers (<[k := w']> (b_workers b)) b) es (o ++ tr))
| step_closer b b' es tr o : (b_closer b = CAwait -> forallb (fun p => negb (reading p)) es = true) -> closer_step b = Some (b', o) ->
    step (mkSys b es tr) (mkSys b' es (o ++ tr)).

Definition reachable (s : sys) : Prop := rtc step (mkSys NewBus [] []) s.

(** ** What happened to the events of one worker *)

Definition key (o : obs) : nat := match o with Offer k _ | Push k _ | Remove k _ | Hand k _ _ | Result k _ _ _ => k end.
Definition about (k : nat) (tr : list obs) : list obs := List.filter (fun o => (key o =? k)%nat) tr.

Definition is_offer (o : obs) : bool := match o with Offer _ _ => true | _ => false end.
Definition is_result (ok : bool) (o : obs) : bool := match o with Result _ _ ok' _ => Bool.eqb ok ok' | _ => false end.
Definition pushed (l : list obs) : list Event := omap (fun o => match o with Push _ e => Some e | _ => None end) l.
Definition removed (l : list obs) : list Event := omap (fun o => match o with Remove _ e => Some e | _ => None end) l.
Definition handed (l : list obs) : list Event := omap (fun o => match o with Hand _ e _ => Some e | _ => None end) l.
Definition results (l : list obs) : list (bool * Z) := omap (fun o => match o with Result _ _ ok t => Some (ok, t) | _ => None end) l.

(** The failures in a row with which a history, the latest first, ends; and the
    latest instant at which their number was a multiple of eleven. *)
Fixpoint streak (rs : list (bool * Z)) : Z := match rs with (false, _) :: rs => 1 + streak rs | _ => 0 end.
Fixpoint opening (rs : list (bool * Z)) : option Z :=
  match rs with
  | [] => None
  | (ok, t) :: rest => if negb ok && (streak rs mod 11 =? 0) then Some t else opening rest
  end.

(** Every attempt started after the minute that followed the latest opening. *)
Definition may_send (l : list obs) (now : Z) : Prop := forall t, opening (results l) = Some t -> 0 < t + 60 * Second -> t + 60 * Second <= now.
Fixpoint spaced (l : list obs) : Prop :=
  match l with
  | [] => True
  | Hand _ _ now :: l => may_send l now /\ spaced l
  | _ :: l => spaced l
  end.

Definition sending (w : worker) : Z := match w_pc w with WSending _ => 1 | _ => 0 end.

(** The emitters that have met the worker's full queue and not decided yet. *)
Definition undecided (k : nat) (p : emit_pc) : bool :=
  match p with EAt _ i (RemoveOldest | SecondSend) => (i =? k)%nat | _ => false end.

Record winv (n : Z) (l : list obs) (w : worker) : Prop := mkWinv {
  wi_count : countZ is_offer l = w_delivered w + w_failed w + w_dropped w + Z.of_nat (length (w_queue w)) + sending w + n;
  wi_bound : Z.of_nat (length (w_queue w)) <= queue_depth;
  wi_fifo : pushed l = reverse (w_queue w) ++ removed l;
  wi_handed : handed l `sublist_of` removed l;
  wi_delivered : w_delivered w = countZ (is_result true) l;
  wi_failed : w_failed w = countZ (is_result false) l;
  wi_circuit : w_circuit w = streak (results l) mod 11;
  wi_open : w_openUntil w = from_option (fun t => t + 60 * Second) 0 (opening (results l));
  wi_spaced : spaced l;
}.

Lemma streak_nonneg rs : 0 <= streak rs.
Proof. induction rs as [| [[] t] rs IH]; cbn; lia. Qed.

(** *** The steps, for the worker they touch *)

Lemma countZ_cons {A} (f : A -> bool) x l : countZ f (x :: l) = (if f x then 1 else 0) + countZ f l.
Proof. done. Qed.

Ltac local_step :=
  intros [Hc Hb Hf Hh Hd Hx Hs Ho Hp]; split; unfold sending in *; cbn -[countZ Z.modulo queue_depth reverse] in *;
  rewrite ?countZ_cons, ?length_app in *; cbn -[countZ Z.modulo queue_depth reverse] in *; try done; try lia.

Lemma winv_offer n l w k e : winv n l w -> winv (n + 1) (Offer k e :: l) w.
Proof. local_step. Qed.
Lemma winv_drop n l w : winv (n + 1) l w -> winv n l (drop w).
Proof. local_step. Qed.
Lemma winv_push n l w k e : full w = false -> winv (n + 1) l w -> winv n (Push k e :: l) (push e w).
Proof. unfold full. rewrite Z.leb_gt. intros Hfull. local_step. rewrite reverse_snoc. exact (f_equal (cons e) Hf). Qed.
Lemma winv_pop n l w k e q : w_queue w = e :: q -> winv n l w -> winv n (Remove k e :: l) (pop q w).
Proof.
  intros Hq. local_step; rewrite Hq in *; cbn -[reverse] in *; try lia; [| by apply sublist_cons].
  rewrite reverse_cons, <- app_assoc in Hf. exact Hf.
Qed.
Lemma winv_check n l w p : sending w = 0 -> match p with WSending _ => False | _ => True end -> winv n l w -> winv n l (set_pc p w).
Proof. intros H0 Hp'. local_step. unfold sending in *. destruct p; cbn in *; try done; lia. Qed.

Lemma winv_hand n l w k e q now :
  w_queue w = e :: q -> sending w = 0 -> circuit_open (w_openUntil w) now = false -> winv n l w ->
  winv n (Hand k e now :: Remove k e :: l) (set_pc (WSending e) (set_queue q (w_dropped w) w)).
Proof.
  intros Hq H0 Hopen. local_step; rewrite ?Hq in *; cbn -[reverse] in *; try lia.
  - rewrite reverse_cons, <- app_assoc in Hf. exact Hf.
  - by apply sublist_skip.
  - split; [| done]. intros t Ht Hpos. change (opening (results l) = Some t) in Ht. rewrite Ht in Ho. cbn in Ho.
    unfold circuit_open in Hopen. rewrite andb_false_iff, !Z.ltb_ge in Hopen. lia.
Qed.

Lemma winv_result n l w k e ok now : w_pc w = WSending e -> winv n l w -> winv n (Result k e ok now :: l) (after_send ok now w).
Proof.
  intros Hpc [Hc Hb Hf Hh Hd Hx Hs Ho Hp]. unfold sending in Hc. rewrite Hpc in Hc.
  pose proof (streak_nonneg (results l)) as Hpos.
  assert (w_circuit w + 1 <= 11) as Hle by (rewrite Hs; pose proof (Z.mod_pos_bound (streak (results l)) 11); lia).
  unfold after_send. destruct ok.
  { split; cbn -[countZ Z.modulo queue_depth reverse]; rewrite ?countZ_cons; cbn -[countZ queue_depth reverse]; try done; lia. }
  assert (streak (results (Result k e false now :: l)) mod 11 = (w_circuit w + 1) mod 11) as Hstreak.
  { cbn -[Z.modulo]. rewrite Hs, Z.add_mod_idemp_l, Z.add_comm; done. }
  assert (opening (results (Result k e false now :: l)) = if (w_circuit w + 1) mod 11 =? 0 then Some now else opening (results l)) as Hopening.
  { cbn -[Z.modulo]. by rewrite <- Hstreak. }
  assert (0 <= w_circuit w) by (rewrite Hs; apply Z.mod_pos_bound; lia).
  destruct (Z.ltb_spec 10 (w_circuit w + 1)).
  - replace (w_circuit w + 1) with 11 in * by lia.
    split; try done; try (by rewrite Hstreak); try (by rewrite Hopening);
      cbn -[countZ queue_depth reverse]; rewrite ?countZ_cons; cbn -[countZ queue_depth reverse]; lia.
  - rewrite (Z.mod_small (w_circuit w + 1)) in * by lia. rewrite (proj2 (Z.eqb_neq _ _)) in Hopening by lia.
    split; try done; try (by rewrite Hstreak); try (by rewrite Hopening);
      cbn -[countZ queue_depth reverse]; rewrite ?countZ_cons; cbn -[countZ queue_depth reverse]; lia.
Qed.

#[local] Arguments countZ : simpl never.
#[local] Arguments about : simpl never.

(** *** The whole bus *)

Definition busy (p : emit_pc) : option nat := match p with EAt _ i (RemoveOldest | SecondSend) => Some i | _ => None end.

Definition busy_ok (b : Bus) (p : emit_pc) : Prop := forall i, busy p = Some i -> (i < length (b_workers b))%nat /\ b_stopped b = false.

(** The queues of the workers before the [n]-th are empty for good. *)
Definition drained (n : nat) (b : Bus) : Prop :=
  b_stopped b = true /\ forall k w, b_workers b !! k = Some w -> exited w = true /\ ((k < n)%nat -> w_queue w = []).

Definition closing (b : Bus) : Prop :=
  (b_sealed b = true \/ b_closer b = CIdle) /\
  match b_closer b with
  | CIdle => forall k w, b_workers b !! k = Some w -> w_pc w = WIdle
  | CAwait => True
  | CJoin => b_stopped b = true
  | CDrain i => drained i b
  | CDone => drained (length (b_workers b)) b
  end.

Record inv (s : sys) : Prop := mkInv {
  in_workers : forall k w, b_workers (s_bus s) !! k = Some w -> winv (countZ (undecided k) (s_emitters s)) (about k (s_trail s)) w;
  in_keys : Forall (fun o => key o < length (b_workers (s_bus s)))%nat (s_trail s);
  in_busy : Forall (busy_ok (s_bus s)) (s_emitters s);
  in_closing : closing (s_bus s);
}.

Lemma about_same k o tr : Forall (fun x => key x = k) o -> about k (o ++ tr) = o ++ about k tr.
Proof.
  unfold about. intros H. rewrite List.filter_app. f_equal. induction H as [| x o Hx _ IH]; [done |].
  cbn. by rewrite Hx, Nat.eqb_refl, IH.
Qed.

Lemma about_other k j o tr : j <> k -> Forall (fun x => key x = k) o -> about j (o ++ tr) = about j tr.
Proof.
  unfold about. intros Hj H. rewrite List.filter_app. induction H as [| x o Hx _ IH]; [done |].
  cbn. destruct (Nat.eqb_spec (key x) j); [congruence | done].
Qed.

Lemma about_fresh k tr : Forall (fun o => key o < k)%nat tr -> about k tr = [].
Proof. unfold about. induction 1 as [| x tr Hx _ IH]; [done |]. cbn. destruct (Nat.eqb_spec (key x) k); [lia | done]. Qed.

(** A step that touches one worker. *)
Lemma workers_update (ws : list worker) es es' tr o k w w' :
  ws !! k = Some w -> Forall (fun x => key x = k) o ->
  (forall j, j <> k -> countZ (undecided j) es' = countZ (undecided j) es) ->
  winv (countZ (undecided k) es') (o ++ about k tr) w' ->
  (forall j v, ws !! j = Some v -> winv (countZ (undecided j) es) (about j tr) v) ->
  forall j v, <[k := w']> ws !! j = Some v -> winv (countZ (undecided j) es') (about j (o ++ tr)) v.
Proof.
  intros Hk Ho Hes Hw H j v Hj. destruct (decide (j = k)) as [-> | Hne].
  - rewrite list_lookup_insert_eq in Hj by eauto using length_pos_lookup. simplify_eq. by rewrite about_same.
  - rewrite list_lookup_insert_ne in Hj by done. rewrite Hes, (about_other k) by done. auto.
Qed.

Lemma undecided_busy k p : undecided k p = true <-> busy p = Some k.
Proof. destruct p as [| e i [] |]; cbn; rewrite ?Nat.eqb_eq; split; congruence. Qed.

Lemma undecided_insert k es i p p' : es !! i = Some p -> busy p' = busy p -> countZ (undecided k) (<[i := p']> es) = countZ (undecided k) es.
Proof.
  intros Hi Hb. rewrite (countZ_insert _ _ _ _ _ Hi).
  assert (undecided k p' = undecided k p) as ->; [| lia]. apply eq_true_iff_eq. by rewrite !undecided_busy, Hb.
Qed.

Lemma undecided_change k es i p p' :
  es !! i = Some p ->
  countZ (undecided k) (<[i := p']> es) = countZ (undecided k) es - (if undecided k p then 1 else 0) + (if undecided k p' then 1 else 0).
Proof. apply countZ_insert. Qed.

Lemma not_reading_busy es : forallb (fun p => negb (reading p)) es = true -> Forall (fun p => busy p = None) es.
Proof. intros H%Is_true_true%forallb_True. eapply Forall_impl; [exact H |]. by intros [| e i ph |]. Qed.

Lemma keys_grow (k n : nat) o tr : (k < n)%nat -> Forall (fun x => key x = k) o -> Forall (fun x => key x < n)%nat tr -> Forall (fun x => key x < n)%nat (o ++ tr).
Proof. intros Hk Ho Ht. apply Forall_app. split; [| done]. eapply Forall_impl; [exact Ho |]. cbn. lia. Qed.

Lemma closing_update b k w w' :
  b_workers b !! k = Some w ->
  (w_pc w = WIdle -> w_pc w' = WIdle) ->
  (b_stopped b = true -> exited w = true -> exited w' = true /\ (w_queue w = [] -> w_queue w' = [])) ->
  closing b -> closing (set_workers (<[k := w']> (b_workers b)) b).
Proof.
  intros Hk Hpc Hw [Hs Hc]. split; [exact Hs |]. cbn. destruct (b_closer b) as [| | | i |]; try done.
  { intros j v Hj. destruct (decide (j = k)) as [-> | Hne]; [| rewrite list_lookup_insert_ne in Hj by done; by eapply Hc].
    rewrite list_lookup_insert_eq in Hj by eauto using length_pos_lookup. simplify_eq. eauto. }
  all: destruct Hc as [Hst Hc]; split; [exact Hst |]; cbn; rewrite ?length_insert; intros j v Hj.
  all: destruct (decide (j = k)) as [-> | Hne]; [| rewrite list_lookup_insert_ne in Hj by done; by apply Hc].
  all: rewrite list_lookup_insert_eq in Hj by eauto using length_pos_lookup; simplify_eq.
  all: destruct (Hc _ _ Hk) as [He Hq]; destruct (Hw Hst He); auto.
Qed.

(** One step on the worker [k]: its own invariant is all there is to show. *)
Lemma inv_update b es es' tr o k w w' :
  b_workers b !! k = Some w -> Forall (fun x => key x = k) o ->
  (forall j, j <> k -> countZ (undecided j) es' = countZ (undecided j) es) ->
  (w_pc w = WIdle -> w_pc w' = WIdle) ->
  (b_stopped b = true -> exited w = true -> exited w' = true /\ (w_queue w = [] -> w_queue w' = [])) ->
  Forall (busy_ok b) es' ->
  (winv (countZ (undecided k) es) (about k tr) w -> winv (countZ (undecided k) es') (o ++ about k tr) w') ->
  inv (mkSys b es tr) -> inv (mkSys (set_workers (<[k := w']> (b_workers b)) b) es' (o ++ tr)).
Proof.
  intros Hk Ho Hes Hpc Hx Hbusy Hw [Hi Hkeys Hb Hc]. cbn in *. split; cbn; rewrite ?length_insert.
  - eapply workers_update; eauto.
  - eapply keys_grow; eauto using length_pos_lookup.
  - eapply Forall_impl; [exact Hbusy |]. intros p Hp n Hn. cbn. rewrite length_insert. by apply Hp.
  - by eapply closing_update.
Qed.

(** A step of an emitter that leaves the bus alone. *)
Lemma inv_emitter b es tr i p p' :
  es !! i = Some p -> busy p' = busy p -> inv (mkSys b es tr) -> inv (mkSys b (<[i := p']> es) tr).
Proof.
  intros Hi Hb [Hw Hkeys Hbusy Hc]. split; cbn in *; try done.
  - intros k w Hk. rewrite (undecided_insert k es i p p') by done. auto.
  - apply Forall_insert; [done |]. intros n. rewrite Hb. by apply (Forall_lookup_1 _ _ _ _ Hbusy Hi).
Qed.

Lemma set_workers_id b k w : b_workers b !! k = Some w -> set_workers (<[k := w]> (b_workers b)) b = b.
Proof. intros H. rewrite list_insert_id by done. by destruct b. Qed.

Lemma inv_emit_step b b' es tr i p p' o :
  es !! i = Some p -> emit_step b p = Some (b', p', o) -> inv (mkSys b es tr) -> inv (mkSys b' (<[i := p']> es) (o ++ tr)).
Proof.
  intros Hi Hstep Hinv. pose proof (in_busy _ Hinv) as Hbusy. cbn in Hbusy.
  pose proof (Forall_lookup_1 _ _ _ _ Hbusy Hi) as Hpbusy. cbn in Hpbusy.
  assert (forall q, busy_ok b q -> Forall (busy_ok b) (<[i := q]> es)) as Hins by (intros q Hq; by apply Forall_insert).
  destruct p as [e | e k ph |]; cbn in Hstep; [| | done].
  { simplify_eq. by apply (inv_emitter _ _ _ _ _ _ Hi). }
  assert (forall ph', (forall j, j <> k -> undecided j (EAt e k ph') = false)) as Hother.
  { intros [] j Hj; cbn; try done; by apply Nat.eqb_neq. }
  assert (forall q j, j <> k -> undecided j q = false -> countZ (undecided j) (<[i := q]> es) = countZ (undecided j) es) as Hes.
  { intros q j Hj Hq. rewrite (undecided_change j es i _ q Hi), Hq, (Hother ph j Hj). lia. }
  destruct (b_workers b !! k) as [w |] eqn:Hk; [| destruct ph; simplify_eq; by apply (inv_emitter _ _ _ _ _ _ Hi)].
  pose proof (length_pos_lookup _ _ _ Hk) as Hlen.
  destruct ph; cbn in Hstep.
  - assert (forall q, busy q = None -> countZ (undecided k) (<[i := q]> es) = countZ (undecided k) es) as Hnone
      by (intros q Hq; by apply (undecided_insert k es i _ q Hi)).
    repeat case_match; simplify_eq.
    + by apply (inv_emitter _ _ _ _ _ _ Hi).
    + eapply (inv_update b es _ tr [Offer k e] k w); [done | by repeat constructor | by intros; apply Hes | done | done | by apply Hins | | done].
      intros Hw. rewrite Hnone by done. by apply winv_drop, winv_offer.
    + rewrite <- (set_workers_id _ _ _ Hk).
      eapply (inv_update b' es _ tr [Offer k e] k w); [done | by repeat constructor | intros; by apply Hes, Hother | done | done | | | done].
      * apply Hins. by intros n [= <-].
      * intros Hw. rewrite (undecided_change k es i _ _ Hi). cbn -[countZ]. rewrite Nat.eqb_refl, Z.sub_0_r. by apply winv_offer.
    + eapply (inv_update b es _ tr [Push k e; Offer k e] k w); [done | by repeat constructor | by intros; apply Hes | done | congruence | by apply Hins | | done].
      intros Hw. rewrite Hnone by done. by apply winv_push, winv_offer.
  - destruct (Hpbusy k eq_refl) as [_ Hstop].
    case_match eqn:Hq; simplify_eq; [by apply (inv_emitter _ _ _ _ _ _ Hi) |].
    eapply (inv_update b es _ tr [Remove k e0] k w); [done | by repeat constructor | intros; by apply Hes, Hother | done | congruence | | | done].
    + apply Hins. by intros n [= <-].
    + intros Hw. rewrite (undecided_insert k es i (EAt e k RemoveOldest)) by done. by apply winv_pop.
  - destruct (Hpbusy k eq_refl) as [_ Hstop].
    assert (countZ (undecided k) es = countZ (undecided k) (<[i := EAt e (S k) FirstSend]> es) + 1) as Hcount.
    { rewrite (undecided_change k es i _ _ Hi). cbn -[countZ]. rewrite Nat.eqb_refl. lia. }
    case_match eqn:Hfull; simplify_eq.
    + eapply (inv_update b es _ tr [] k w); [done | done | by intros; apply Hes | done | congruence | by apply Hins | | done].
      rewrite Hcount. apply winv_drop.
    + eapply (inv_update b es _ tr [Push k e] k w); [done | by repeat constructor | by intros; apply Hes | done | congruence | by apply Hins | | done].
      rewrite Hcount. by apply winv_push.
Qed.

Lemma inv_worker b es tr k w w' c o :
  b_workers b !! k = Some w -> run_step (b_cancelled b) k w c = Some (w', o) ->
  inv (mkSys b es tr) -> inv (mkSys (set_workers (<[k := w']> (b_workers b)) b) es (o ++ tr)).
Proof.
  intros Hk Hstep Hinv. unfold run_step in Hstep.
  eapply (inv_update b es es tr o k w); [done | | done | | | apply (in_busy _ Hinv) | | done].
  - repeat case_match; simplify_eq; by repeat constructor.
  - intros He. by rewrite He in Hstep.
  - intros _ He. unfold exited in He. by destruct (w_pc w).
  - assert (sending w = 0 \/ exists e, w_pc w = WSending e) as [H0 | [e Hpc]] by (unfold sending; destruct (w_pc w); eauto).
    + repeat case_match; simplify_eq; intros Hw; try (apply winv_check; [done | done |]); try done.
      * by apply winv_pop.
      * by apply winv_hand.
      * exfalso. unfold sending in H0. by case_match.
    + rewrite Hpc in Hstep. destruct c; simplify_eq. by apply winv_result.
Qed.

Lemma inv_closer b b' es tr o :
  (b_closer b = CAwait -> forallb (fun p => negb (reading p)) es = true) -> closer_step b = Some (b', o) ->
  inv (mkSys b es tr) -> inv (mkSys b' es (o ++ tr)).
Proof.
  intros Hlock Hstep Hinv. pose proof Hinv as [Hw Hkeys Hbusy [Hs Hc]]. cbn in *. unfold closer_step in Hstep.
  destruct (b_closer b) as [| | | i |] eqn:Ecl; try done.
  - case_match; simplify_eq. split; cbn; try done; [| by split; [destruct Hs; [left | done] |]].
    eapply Forall_impl; [exact (not_reading_busy _ (Hlock eq_refl)) |]. intros p Hp n. congruence.
  - case_match eqn:Hall; simplify_eq. split; cbn; try done. split; [by destruct Hs; [left | done] |]. cbn.
    split; [done |]. cbn. intros k w Hk. split; [| lia].
    rewrite forallb_forall in Hall. apply Hall, list_elem_of_In. by eapply list_elem_of_lookup_2.
  - assert (b_sealed b = true) as Hsealed by by destruct Hs.
    destruct (b_workers b !! i) as [w |] eqn:Hi.
    + destruct (w_queue w) as [| e q] eqn:Hq; simplify_eq.
      * split; cbn; try done. split; [by left |]. cbn. destruct Hc as [Hst Hc]. split; [done |]. cbn.
        intros k v Hk. destruct (Hc k v Hk) as [? Hlt]. split; [done |]. intros. destruct (decide (k = i)) as [-> |]; [congruence | apply Hlt; lia].
      * apply (inv_update b es es tr [Remove i e] i w); try done; [by repeat constructor | | by apply winv_pop].
        intros _ He. split; [done | congruence].
    + simplify_eq. split; cbn; try done. split; [by left |]. cbn. destruct Hc as [Hst Hc]. split; [done |]. cbn.
      intros k v Hk. destruct (Hc k v Hk) as [? Hlt]. split; [done |]. intros. apply Hlt.
      apply lookup_ge_None in Hi. apply length_pos_lookup in Hk. lia.
Qed.

Lemma inv_register b b' es tr cb :
  forallb (fun p => negb (reading p)) es = true -> Register cb b = Some b' -> inv (mkSys b es tr) -> inv (mkSys b' es tr).
Proof.
  intros Hlock%not_reading_busy. unfold Register. destruct (b_sealed b) eqn:Hsealed; [done |]. cbn -[Nat.leb].
  destruct (max_callbacks <=? length (b_workers b))%nat; [done |]. intros [= <-] [Hw Hkeys Hbusy [Hs Hc]]. cbn in *.
  destruct Hs as [| Hidle]; [congruence |].
  split; cbn; rewrite ?length_app; cbn.
  - intros k w [Hk | [Hlen Hk]]%lookup_app_Some; [auto |].
    apply list_lookup_singleton_Some in Hk as [Hz <-]. replace k with (length (b_workers b)) by lia.
    rewrite about_fresh by done.
    assert (countZ (undecided (length (b_workers b))) es = 0) as ->.
    { apply countZ_zero. intros i p Hp. apply not_true_iff_false. by rewrite undecided_busy, (Forall_lookup_1 _ _ _ _ Hlock Hp). }
    by split.
  - eapply Forall_impl; [exact Hkeys |]. cbn. lia.
  - eapply Forall_impl; [exact Hlock |]. intros p Hp n. congruence.
  - unfold closing. cbn. rewrite Hidle in *. split; [by right |].
    intros k w [Hk | [_ Hk]]%lookup_app_Some; [by eapply Hc |]. by apply list_lookup_singleton_Some in Hk as [_ <-].
Qed.

Lemma inv_start b es tr : inv (mkSys b es tr) -> inv (mkSys (Start b) es tr).
Proof.
  intros Hinv. unfold Start. destruct (b_closer b) eqn:Ecl; try done. destruct Hinv as [Hw Hkeys Hbusy [Hs Hc]]. cbn in *. rewrite Ecl in Hc.
  split; cbn; rewrite ?length_fmap; try done.
  - intros k w. rewrite list_lookup_fmap. intros (v & Hv & ->)%fmap_Some. apply winv_check; [| done | auto]. unfold sending. by rewrite (Hc _ _ Hv).
  - eapply Forall_impl; [exact Hbusy |]. intros p Hp n Hn. cbn. rewrite length_fmap. by apply Hp.
  - split; [by left | done].
Qed.

Lemma inv_step s s' : step s s' -> inv s -> inv s'.
Proof.
  destruct 1; [by eapply inv_register | by apply inv_start | | | by eapply inv_emit_step | by eapply inv_worker | by eapply inv_closer].
  - intros [Hw Hk Hb Hc]. by split.
  - intros [Hw Hk Hb Hc]. cbn in *. split; cbn; try done.
    + intros k w Hi. rewrite countZ_app. change (countZ (undecided k) [EStart e]) with 0. rewrite Z.add_0_r. auto.
    + apply Forall_app. split; [done |]. by constructor.
Qed.

Lemma bus_reachable_inv s : reachable s -> inv s.
Proof.
  intros H. assert (inv (mkSys NewBus [] [])) as H0 by (split; [done | constructor | constructor | by split; [right |]]).
  unfold reachable in H. revert H H0. generalize (mkSys NewBus [] []). induction 1; eauto using inv_step.
Qed.

(** No [Emit] has the read lock. *)
Definition quiet (s : sys) : Prop := Forall (fun p => reading p = false) (s_emitters s).

(** C34. Whatever the interleaving of emitters, workers, registration, start and
    shutdown: of the events a sink subscribed to, those that were delivered, that
    failed, that were dropped, that wait in its queue, that are being sent and that
    an [Emit] has not decided about are all; its queue never holds more than 10,000;
    and when the bus is closed and no [Emit] is under way, each event offered was
    delivered, failed or counted as dropped. *)
Theorem callback_events_are_accounted (s : sys) (k : nat) (w : worker) (Hs : reachable s) (Hk : b_workers (s_bus s) !! k = Some w) :
  let l := about k (s_trail s) in
  countZ is_offer l = w_delivered w + w_failed w + w_dropped w + Z.of_nat (length (w_queue w)) + sending w + countZ (undecided k) (s_emitters s) /\
  w_delivered w = countZ (is_result true) l /\ w_failed w = countZ (is_result false) l /\
  Z.of_nat (length (w_queue w)) <= queue_depth /\
  (b_closer (s_bus s) = CDone -> quiet s -> countZ is_offer l = w_delivered w + w_failed w + w_dropped w).
Proof.
  apply bus_reachable_inv in Hs as [Hw _ _ [_ Hc]]. destruct (Hw k w Hk). intros l. split_and!; try done.
  intros Hdone Hquiet. rewrite Hdone in Hc. destruct Hc as [_ Hc]. destruct (Hc k w Hk) as [He Hq].
  rewrite Hq in * by eauto using length_pos_lookup.
  assert (sending w = 0) as H0 by (unfold sending, exited in *; by destruct (w_pc w)).
  assert (countZ (undecided k) (s_emitters s) = 0) as H1; [| unfold l; rewrite wi_count0, H0, H1; cbn; lia].
  apply countZ_zero. intros i p Hp. apply (Forall_lookup_1 _ _ _ _ Hquiet) in Hp. by destruct p.
Qed.

(** A sink gets its events in the order in which they entered its queue, none
    twice, and an attempt is never made in the minute after the latest eleventh
    failure in a row. *)
Theorem callbacks_keep_order_and_pause (s : sys) (k : nat) (w : worker) (Hs : reachable s) (Hk : b_workers (s_bus s) !! k = Some w) :
  let l := about k (s_trail s) in
  handed l `sublist_of` pushed l /\ pushed l = reverse (w_queue w) ++ removed l /\ spaced l.
Proof.
  apply bus_reachable_inv in Hs as [Hw _ _ _]. destruct (Hw k w Hk). intros l. split_and!; try done.
  unfold l. rewrite wi_fifo0. by apply sublist_inserts_l.
Qed.

(** The steps an [Emit] has left with [n] workers. *)
Definition emit_left (n : nat) (p : emit_pc) : nat :=
  match p with
  | EStart _ => 3 * n + 2
  | EAt _ i FirstSend => 3 * (n - i) + 1
  | EAt _ i RemoveOldest => 3 * (n - i)
  | EAt _ i SecondSend => 3 * (n - i) - 1
  | EDone => 0
  end.

(** [Emit] never waits for a sink: a call under way always has a next step, which
    brings it nearer to its end, and nothing another goroutine does while it runs
    changes the number of sinks it has to go through. So it returns after at most
    three steps per sink and two more. *)
Theorem emit_never_waits (s : sys) (i : nat) (p : emit_pc) (Hs : reachable s) (Hi : s_emitters s !! i = Some p) (Hp : p <> EDone) :
  let n := length (b_workers (s_bus s)) in
  (exists b' p' o, emit_step (s_bus s) p = Some (b', p', o) /\ (emit_left n p' < emit_left n p)%nat) /\
  (forall s', step s s' -> reading p = true -> length (b_workers (s_bus s')) = n).
Proof.
  apply bus_reachable_inv in Hs as [_ _ Hbusy _]. apply (Forall_lookup_1 _ _ _ _ Hbusy) in Hi as Hpb. intros n. split.
  - destruct p as [e | e k ph |]; [| | done]; cbn [emit_step].
    { eexists _, _, _. split; [done |]. cbn. lia. }
    destruct ph; [destruct (b_workers (s_bus s) !! k) as [w |] eqn:Hk | |].
    + apply length_pos_lookup in Hk. repeat case_match; eexists _, _, _; (split; [done |]); unfold n; cbn -[Nat.mul]; lia.
    + eexists _, _, _. split; [done |]. cbn. lia.
    + destruct (Hpb k eq_refl) as [[w Hk]%lookup_lt_is_Some_2 _]. rewrite Hk. cbn. apply length_pos_lookup in Hk.
      case_match; eexists _, _, _; (split; [done |]); unfold n; cbn -[Nat.mul]; lia.
    + destruct (Hpb k eq_refl) as [[w Hk]%lookup_lt_is_Some_2 _]. rewrite Hk. cbn. apply length_pos_lookup in Hk.
      case_match; eexists _, _, _; (split; [done |]); unfold n; cbn -[Nat.mul]; lia.
  - intros s' Hstep Hr. subst n. destruct Hstep as [b b' es tr cb Hlock | | | | b b' es tr j q q' o Hj Hq | | b b' es tr o Hlock Hc]; cbn in *; try done.
    + apply Is_true_true, forallb_True in Hlock. apply (Forall_lookup_1 _ _ _ _ Hlock) in Hi. by rewrite Hr in Hi.
    + unfold Start. case_match; cbn; by rewrite ?length_fmap.
    + unfold emit_step in Hq. repeat case_match; simplify_eq/=; try done; try (by rewrite length_insert).
      all: destruct (b_workers b !! i0) eqn:?; simplify_eq/=; repeat case_match; simplify_eq/=; by rewrite ?length_insert.
    + by rewrite length_insert.
    + unfold closer_step in Hc. repeat case_match; simplify_eq/=; by rewrite ?length_insert.
Qed.

(** ** Evaluation *)

Inductive move := MRegister (cb : Callback) | MStart | MCancel | MEmit (e : Event) | MEmitter (i : nat) | MWorker (k : nat) (c : choice) | MCloser.

Definition unlocked (s : sys) : bool := forallb (fun p => negb (reading p)) (s_emitters s).

Definition do_move (s : sys) (m : move) : option sys :=
  let 'mkSys b es tr := s in
  match m with
  | MRegister cb => if unlocked s then b' ← Register cb b; Some (mkSys b' es tr) else None
  | MStart => if unlocked s then Some (mkSys (Start b) es tr) else None
  | MCancel => Some (mkSys (mkBus (b_workers b) (b_stopped b) (b_sealed b) true (b_closer b)) es tr)
  | MEmit e => Some (mkSys b (es ++ [EStart e]) tr)
  | MEmitter i => p ← es !! i; '(b', p', o) ← emit_step b p; Some (mkSys b' (<[i := p']> es) (o ++ tr))
  | MWorker k c => w ← b_workers b !! k; '(w', o) ← run_step (b_cancelled b) k w c; Some (mkSys (set_workers (<[k := w']> (b_workers b)) b) es (o ++ tr))
  | MCloser => if unlocked s then '(b', o) ← closer_step b; Some (mkSys b' es (o ++ tr)) else None
  end.

Fixpoint moves (s : sys) (ms : list move) : option sys := match ms with [] => Some s | m :: ms => s' ← do_move s m; moves s' ms end.

Lemma do_move_step s m s' : do_move s m = Some s' -> step s s'.
Proof.
  destruct s as [b es tr], m; cbn; try (destruct (unlocked _) eqn:Hl; [| done]); intros H;
    repeat (apply bind_Some in H as (? & ? & H)); repeat case_match; repeat (apply bind_Some in H as (? & ? & H)); simplify_eq.
  - by eapply step_register.
  - by apply step_start.
  - apply step_cancel.
  - apply step_emit.
  - by eapply step_emitter.
  - by eapply step_worker.
  - destruct x. simplify_eq. by eapply step_closer.
Qed.

Lemma moves_reachable ms s : moves (mkSys NewBus [] []) ms = Some s -> reachable s.
Proof.
  unfold reachable. generalize (mkSys NewBus [] []). induction ms as [| m ms IH]; intros s0; cbn; [by intros [= ->] |].
  intros (s1 & H1%do_move_step & H)%bind_Some. eapply rtc_l; eauto.
Qed.

Definition example_event (id : string) : Event := mkEvent id EventRequestCompleted "r1" 1 "acme" 0 "" "gpt" "east" "gpt-4o" (mkTokenUsage 3 4 7) 1 20 200 false "" [] 1000000.

(** One event is delivered, one waits when the process ends and is dropped. *)
Definition example_moves : list move :=
  [MRegister (mkCallback "hook" []); MStart; MEmit (example_event "a"); MEmitter 0; MEmitter 0; MWorker 0 Go; MWorker 0 (CaseQueue 5);
   MEmit (example_event "b"); MEmitter 1; MEmitter 1; MCancel; MEmitter 0; MEmitter 1; MCloser; MWorker 0 (Sent true 6); MWorker 0 Go; MCloser; MCloser; MCloser; MCloser].
Definition example_closed : sys := default (mkSys NewBus [] []) (moves (mkSys NewBus [] []) example_moves).

Lemma example_closed_reachable : reachable example_closed.
Proof. apply (moves_reachable example_moves). vm_compute. reflexivity. Qed.

(** The worker of the closed bus. *)
Definition example_worker : worker := mkWorker (mkCallback "hook" []) [] true [] 1 0 1 0 0 WExited.

Lemma callback_events_are_accounted_witness :
  b_workers (s_bus example_closed) !! 0%nat = Some example_worker /\ countZ is_offer (about 0 (s_trail example_closed)) = 1 + 0 + 1.
Proof.
  assert (b_workers (s_bus example_closed) !! 0%nat = Some example_worker) as Hw by (vm_compute; reflexivity).
  split; [exact Hw |].
  apply (callback_events_are_accounted example_closed 0 example_worker example_closed_reachable Hw); [vm_compute; reflexivity |].
  unfold quiet. assert (s_emitters example_closed = [EDone; EDone]) as -> by (vm_compute; reflexivity). repeat constructor.
Defined.

Lemma callbacks_keep_order_and_pause_witness :
  ev_ID <$> handed (about 0 (s_trail example_closed)) = ["a"] /\ ev_ID <$> pushed (about 0 (s_trail example_closed)) = ["b"; "a"] /\
  handed (about 0 (s_trail example_closed)) `sublist_of` pushed (about 0 (s_trail example_closed)).
Proof.
  split; [vm_compute; reflexivity |]. split; [vm_compute; reflexivity |].
  assert (b_workers (s_bus example_closed) !! 0%nat = Some example_worker) as Hw by (vm_compute; reflexivity).
  exact (proj1 (callbacks_keep_order_and_pause example_closed 0 example_worker example_closed_reachable Hw)).
Defined.

(** The first event is about to meet the sink. *)
Definition example_emitting : sys := default example_closed (moves (mkSys NewBus [] []) (take 4 example_moves)).

Lemma emit_never_waits_witness :
  let p := EAt (example_event "a") 0 FirstSend in
  exists b' p' o, emit_step (s_bus example_emitting) p = Some (b', p', o) /\ (emit_left 1 p' < emit_left 1 p)%nat.
Proof.
  assert (reachable example_emitting) as Hr by (apply (moves_reachable (take 4 example_moves)); vm_compute; reflexivity).
  intros p. assert (s_emitters example_emitting !! 0%nat = Some p) as Hp by (vm_compute; reflexivity).
  assert (p <> EDone) as Hne by discriminate.
  exact (proj1 (emit_never_waits example_emitting 0 p Hr Hp Hne)).
Defined.
End Bus.

(** ** What the sinks send *)

Module Sinks.
Section Sinks.
(** The RFC 3339 text of an instant, which [encoding/json] writes for a [time.Time]. *)
Variable rfc3339 : Z -> text.

(** A member with [omitempty]. *)
Definition omit_empty (k s : string) : list (text * raw) := if (s =? "")%string then [] else [(txt k, JStr (txt s))].
Definition omit_false (k : string) (b : bool) : list (text * raw) := if b then [(txt k, JBool true)] else [].

Definition tokens_json (t : TokenUsage) : raw :=
  JObj (omit_zero "prompt" (tk_Prompt t) ++ omit_zero "completion" (tk_Completion t) ++ omit_zero "total" (tk_Total t)).

(** [json.Marshal] of an event: the members in the order of the fields; a struct is
    never empty, a map is written by its keys. *)
Definition event_json (e : Event) : raw :=
  JObj ([(txt "id", JStr (txt (ev_ID e))); (txt "event", JStr (txt (ev_Type e)))] ++ omit_empty "request_id" (ev_RequestID e) ++
        [(txt "ts", JStr (rfc3339 (ev_Ts e)))] ++ omit_empty "team_slug" (ev_TeamSlug e) ++ omit_zero "user_id" (ev_UserID e) ++
        omit_empty "key_prefix" (ev_KeyPrefix e) ++ omit_empty "alias" (ev_Alias e) ++ omit_empty "deployment" (ev_Deployment e) ++
        omit_empty "model_used" (ev_ModelUsed e) ++ [(txt "tokens", tokens_json (ev_Tokens e))] ++ omit_zero "cost_cents" (ev_CostCents e) ++
        omit_zero "latency_ms" (ev_LatencyMs e) ++ omit_zero "status_code" (ev_StatusCode e) ++ omit_false "cached" (ev_Cached e) ++
        omit_empty "error" (ev_Error e) ++ (if bool_decide (ev_Payload e = []) then [] else [(txt "payload", marshal_map (to_map (ev_Payload e)))]) ++
        (if ev_CostMicrocents e =? 0 then [] else [(txt "cost_microcents", JStr (txt (int_lit (ev_CostMicrocents e))))])).

(** A request of a sink; basic authentication is the pair of names. *)
Record sink_request := mkSinkRequest { sk_url : string; sk_headers : list (string * string); sk_auth : option (string * string); sk_body : raw }.

Inductive Sink :=
| Webhook (name url : string) (headers : list (string * string)) (subscribed : list string)
| Langfuse (name host publicKey secretKey : string) (subscribed : list string)
| Slack (name url : string) (subscribed : list string)
| S3Archive (name localDir : string) (subscribed : list string).

Definition callback_of (s : Sink) : Bus.Callback :=
  match s with
  | Webhook n _ _ t | Langfuse n _ _ _ t | Slack n _ t | S3Archive n _ t => Bus.mkCallback n t
  end.

(** [req.Header.Set] for every configured header, after the content type. *)
Definition webhook_request (url : string) (headers : list (string * string)) (e : Event) : sink_request :=
  mkSinkRequest url (("Content-Type", "application/json") :: headers) None (event_json e).

Definition levelFor (e : Event) : string :=
  if 500 <=? ev_StatusCode e then "ERROR" else if 400 <=? ev_StatusCode e then "WARNING" else "DEFAULT".

Definition jmap (l : list (string * raw)) : raw := marshal_map (to_map (map (fun kv => (txt kv.1, kv.2)) l)).
Definition jtext (s : string) : raw := JStr (txt s).

(** The trace and its generation; [now] is the formatted time. *)
Definition langfuse_body (now : string) (e : Event) : raw :=
  let trace := if (ev_RequestID e =? "")%string then ev_ID e else ev_RequestID e in
  JObj [(txt "batch", JArr [
    JObj [(txt "id", jtext (ev_ID e +:+ "-trace")); (txt "type", jtext "trace-create"); (txt "timestamp", jtext now);
          (txt "body", jmap [("id", jtext trace); ("name", jtext (ev_Alias e)); ("userId", jtext (ev_KeyPrefix e)); ("sessionId", jtext (ev_TeamSlug e));
             ("metadata", jmap [("team_slug", jtext (ev_TeamSlug e)); ("deployment", jtext (ev_Deployment e)); ("cached", JBool (ev_Cached e));
                                ("cost_cents", jint (ev_CostCents e)); ("cost_microcents", jtext (int_lit (ev_CostMicrocents e)));
                                ("latency_ms", jint (ev_LatencyMs e))]);
             ("tags", JArr [jtext "gatemux"])])];
    JObj [(txt "id", jtext (ev_ID e +:+ "-gen")); (txt "type", jtext "generation-create"); (txt "timestamp", jtext now);
          (txt "body", jmap [("id", jtext (ev_ID e +:+ "-gen")); ("traceId", jtext trace); ("name", jtext (ev_Alias e)); ("model", jtext (ev_ModelUsed e));
             ("startTime", jtext now); ("endTime", jtext now); ("completionStartTime", jtext now);
             ("usage", jmap [("input", jint (tk_Prompt (ev_Tokens e))); ("output", jint (tk_Completion (ev_Tokens e)));
                             ("total", jint (tk_Total (ev_Tokens e))); ("unit", jtext "TOKENS")]);
             ("level", jtext (levelFor e)); ("statusMessage", jtext (ev_Error e))])]])].

Definition langfuse_request (host publicKey secretKey now : string) (e : Event) : sink_request :=
  mkSinkRequest ((if (host =? "")%string then "https://cloud.langfuse.com" else host) +:+ "/api/public/ingestion")
    [("Content-Type", "application/json")] (Some (publicKey, secretKey)) (langfuse_body now e).

(** [format]: [sprint] is [fmt.Sprint] of a payload value, [indent] the indented
    JSON text; the dash of a message is given in UTF-8. *)
Definition slack_text (sprint : raw -> string) (indent : raw -> string) (e : Event) : string :=
  if (ev_Type e =? EventBudgetThreshold)%string then
    ":warning: Team *" +:+ ev_TeamSlug e +:+ "* has used " +:+
    (match to_map (ev_Payload e) !! txt "threshold_pct" with Some v => sprint v | None => "" end) +:+ "% of its budget"
  else if (ev_Type e =? EventBudgetExceeded)%string then ":no_entry: Team *" +:+ ev_TeamSlug e +:+ "* exhausted its budget — requests are now denied"
  else if (ev_Type e =? EventCircuitOpened)%string then ":electric_plug: Provider circuit opened for *" +:+ ev_Deployment e +:+ "*: " +:+ ev_Error e
  else if (ev_Type e =? EventCircuitClosed)%string then ":white_check_mark: Provider circuit recovered for *" +:+ ev_Deployment e +:+ "*"
  else if (ev_Type e =? EventGuardrailBlocked)%string then ":shield: Guardrail blocked request on *" +:+ ev_TeamSlug e +:+ "* (alias " +:+ ev_Alias e +:+ ")"
  else if (ev_Type e =? EventKeyRevoked)%string then ":key: Key revoked: *" +:+ ev_KeyPrefix e +:+ "* on team " +:+ ev_TeamSlug e
  else "```" +:+ indent (event_json e) +:+ "```".

Definition slack_request (sprint indent : raw -> string) (url : string) (e : Event) : sink_request :=
  mkSinkRequest url [("Content-Type", "application/json")] None (jmap [("text", jtext (slack_text sprint indent e))]).

(** An attempt of an HTTP sink: the error of the client, or the status of the answer. *)
Definition sent (reply : option Z) : bool := match reply with Some status => status <? 400 | None => false end.

End Sinks.
End Sinks.

(** ** The archive *)

Module Archive.
Section Archive.
Variable rfc3339 : Z -> text.
(** The hour of an instant, [2006/01/02/15] in UTC. *)
Variable hour_of : Z -> string.
(** The compressed bytes that [gzip] has written for the lines so far. *)
Variable size : list raw -> Z.

(** [bucket] and [gz]: the lines written, [None] for [nil]. *)
Record archive := mkArchive { ar_lines : option (list raw); ar_hour : string }.

(** [Putter] or [LocalDir]; [None] is neither. *)
Inductive destination := Putter | LocalDir (dir : string).

(** An upload: the hour and the clock in the file's name, its lines, and whether
    it succeeded. *)
Record chunk := mkChunk { ck_hour : string; ck_nano : Z; ck_lines : list raw; ck_ok : bool }.

Definition flushLocked (d : option destination) (nano : Z) (ok : bool) (a : archive) : archive * list chunk * bool :=
  match ar_lines a with
  | None => (a, [], true)
  | Some l =>
      if size l =? 0 then (a, [], true)
      else let ok := bool_decide (is_Some d) && ok in (mkArchive None (ar_hour a), [mkChunk (ar_hour a) nano l ok], ok)
  end.

(** [Send]: the clock and the outcome of its two possible uploads. *)
Definition Send (d : option destination) (up1 up2 : Z * bool) (e : Event) (a : archive) : archive * list chunk * bool :=
  let hour := hour_of (ev_Ts e) in
  let '(a, c1, ok) := if negb (ar_hour a =? hour)%string && bool_decide (is_Some (ar_lines a)) then flushLocked d up1.1 up1.2 a else (a, [], true) in
  if negb ok then (a, c1, false)
  else
    let a := match ar_lines a with None => mkArchive (Some []) hour | Some _ => a end in
    let lines := default [] (ar_lines a) ++ [Sinks.event_json rfc3339 e] in
    let a := mkArchive (Some lines) (ar_hour a) in
    if 256 * 1024 <? size lines then
      let '(a, c2, ok) := flushLocked d up2.1 up2.2 a in (a, c1 ++ c2, ok)
    else (a, c1, true).

Definition Flush (d : option destination) (up : Z * bool) (a : archive) : archive * list chunk * bool := flushLocked d up.1 up.2 a.

(** ** Every accepted event is in one file, of its hour *)

Inductive op := OSend (up1 up2 : Z * bool) (e : Event) | OFlush (up : Z * bool).

(** The events whose line was written, with the archive and the uploads so far. *)
Record history := mkHistory { h_archive : archive; h_chunks : list chunk; h_events : list Event }.

(** A [Send] that fails in the upload of the last hour has written no line; one
    that fails later has. *)
Definition accepted (d : option destination) (up1 : Z * bool) (e : Event) (a : archive) : bool :=
  (if negb (ar_hour a =? hour_of (ev_Ts e))%string && bool_decide (is_Some (ar_lines a)) then flushLocked d up1.1 up1.2 a else (a, [], true)).2.

Definition run_op (d : option destination) (h : history) (o : op) : history :=
  match o with
  | OSend up1 up2 e =>
      let '(a, cs, _) := Send d up1 up2 e (h_archive h) in
      mkHistory a (h_chunks h ++ cs) (h_events h ++ (if accepted d up1 e (h_archive h) then [e] else []))
  | OFlush up => let '(a, cs, _) := Flush d up (h_archive h) in mkHistory a (h_chunks h ++ cs) (h_events h)
  end.

Definition run (d : option destination) (os : list op) : history := foldl (run_op d) (mkHistory (mkArchive None "") [] []) os.

Definition pending (a : archive) : list raw := default [] (ar_lines a).

(** Lines of one hour. *)
Definition of_hour (h : string) (l : list raw) : Prop := l <> [] /\ Forall (fun v => exists e, v = Sinks.event_json rfc3339 e /\ hour_of (ev_Ts e) = h) l.

Record archived (h : history) : Prop := mkArchived {
  hi_lines : concat (map ck_lines (h_chunks h)) ++ pending (h_archive h) = map (Sinks.event_json rfc3339) (h_events h);
  hi_files : Forall (fun c => of_hour (ck_hour c) (ck_lines c)) (h_chunks h);
  hi_open : forall l, ar_lines (h_archive h) = Some l -> of_hour (ar_hour (h_archive h)) l;
}.

(** [gzip.Writer] writes its header with the first line. *)
Hypothesis size_pos : forall l, l <> [] -> size l <> 0.

Lemma flush_archived d nano ok cs es a a' cs' r :
  flushLocked d nano ok a = (a', cs', r) -> archived (mkHistory a cs es) ->
  archived (mkHistory a' (cs ++ cs') es) /\ (ar_lines a' = None).
Proof.
  unfold flushLocked. intros Hf [Hl Hh Ho]. cbn in *. destruct (ar_lines a) as [l |] eqn:El.
  - destruct (Ho l eq_refl) as [Hne Hl0]. rewrite (proj2 (Z.eqb_neq _ _) (size_pos l Hne)) in Hf. simplify_eq.
    split; [| done]. split; cbn; [| apply Forall_app; split; [done | by repeat constructor] | done].
    rewrite map_app, concat_app, <- Hl. unfold pending. rewrite El. cbn. by rewrite !app_nil_r.
  - simplify_eq. rewrite app_nil_r. split; [by split; cbn; try rewrite El | done].
Qed.

(** The line of an event goes into the file of its hour. *)
Lemma append_archived a cs es e :
  archived (mkHistory a cs es) -> (forall l, ar_lines a = Some l -> ar_hour a = hour_of (ev_Ts e)) ->
  let a0 := match ar_lines a with None => mkArchive (Some []) (hour_of (ev_Ts e)) | Some _ => a end in
  archived (mkHistory (mkArchive (Some (default [] (ar_lines a0) ++ [Sinks.event_json rfc3339 e])) (ar_hour a0)) cs (es ++ [e])).
Proof.
  intros [Hl Hh Ho] Hhour a0. cbn in *. split; cbn; [| done |].
  - rewrite map_app, <- Hl. cbn. unfold pending, a0. destruct (ar_lines a) as [l |] eqn:El; cbn; [by rewrite El, <- app_assoc | by rewrite app_nil_r].
  - intros l [= <-]. split; [by destruct (default [] (ar_lines a0)) |]. unfold a0. destruct (ar_lines a) as [l |] eqn:El; cbn.
    + rewrite El. cbn. apply Forall_app. rewrite (Hhour _ eq_refl). split; [| by constructor; [exists e |]].
      destruct (Ho l eq_refl) as [_ H]. by rewrite <- (Hhour _ eq_refl).
    + constructor; [by exists e | constructor].
Qed.

Lemma send_archived d up1 up2 e h : archived h -> archived (run_op d h (OSend up1 up2 e)).
Proof.
  intros Ha. destruct h as [a cs es]. cbn. unfold Send, accepted.
  set (x := if negb (ar_hour a =? hour_of (ev_Ts e))%string && bool_decide (is_Some (ar_lines a)) then flushLocked d up1.1 up1.2 a else (a, [], true)).
  assert (exists a1 c1 ok, x = (a1, c1, ok) /\ archived (mkHistory a1 (cs ++ c1) es) /\
    (forall l, ar_lines a1 = Some l -> ar_hour a1 = hour_of (ev_Ts e))) as (a1 & c1 & ok & -> & H1 & Hh1).
  { unfold x. destruct (String.eqb_spec (ar_hour a) (hour_of (ev_Ts e))) as [Heq | Hne]; cbn.
    - exists a, [], true. rewrite app_nil_r. auto.
    - case_bool_decide as Hs.
      + destruct (flushLocked d up1.1 up1.2 a) as [[a1 c1] ok] eqn:Ef. apply flush_archived with (cs := cs) (es := es) in Ef as [H1 H2]; [| done].
        exists a1, c1, ok. rewrite H2. done.
      + exists a, [], true. rewrite app_nil_r. split_and!; try done. intros l Hl. destruct Hs. eauto. }
  cbn -[Z.ltb Z.mul flushLocked]. destruct ok; cbn -[Z.ltb Z.mul flushLocked]; [| by rewrite app_nil_r].
  pose proof (append_archived _ _ _ _ H1 Hh1) as H2. cbv zeta in H2. set (a2 := mkArchive _ _) in *.
  destruct (_ <? _); [| exact H2].
  destruct (flushLocked d up2.1 up2.2 a2) as [[a3 c2] ok] eqn:Ef. apply flush_archived with (cs := cs ++ c1) (es := es ++ [e]) in Ef as [H3 _]; [| done].
  cbn. by rewrite app_assoc.
Qed.

(** Whatever uploads fail: the uploads so far and the open file together hold the
    line of every accepted event, once and in order; each upload is not empty and
    holds events of the hour in its name only; and a flush leaves nothing open. So
    the files that were written miss exactly the events of the uploads that failed. *)
Theorem archive_files_events_by_hour (d : option destination) (os : list op) :
  let h := run d os in
  concat (map ck_lines (h_chunks h)) ++ pending (h_archive h) = map (Sinks.event_json rfc3339) (h_events h) /\
  Forall (fun c => of_hour (ck_hour c) (ck_lines c)) (h_chunks h) /\
  (forall up, pending (h_archive (run_op d h (OFlush up))) = []).
Proof.
  assert (archived (run d os)) as H.
  { unfold run. assert (archived (mkHistory (mkArchive None "") [] [])) as H0 by by split.
    revert H0. generalize (mkHistory (mkArchive None "") [] []). induction os as [| o os IH]; intros h Hh; [done |].
    cbn. apply IH. destruct o as [up1 up2 e | up]; [by apply send_archived |].
    destruct h as [a cs es]. cbn. unfold Flush. destruct (flushLocked d up.1 up.2 a) as [[a' cs'] r] eqn:Ef.
    by eapply flush_archived in Ef as [? _]. }
  cbv zeta. pose proof H as [H1 H2 _]. split_and!; [exact H1 | exact H2 |]. intros up. destruct (run d os) as [a cs es]. cbn. unfold Flush.
  destruct (flushLocked d up.1 up.2 a) as [[a' cs'] r] eqn:Ef. eapply flush_archived in Ef as [_ Hn]; [| exact H].
  cbn. unfold pending. by rewrite Hn.
Qed.

End Archive.
End Archive.

(** One file per hour: two events of the first hour, one of the second. *)
Definition hourly (e : string) (t : Z) : Event := mkEvent e EventRequestCompleted "" t "" 0 "" "" "" "" (mkTokenUsage 0 0 0) 0 0 0 false "" [] 0.

Lemma archive_files_events_by_hour_witness :
  let hour t := int_lit (t / 3600) in
  let h := Archive.run (fun _ => []) hour (fun l => Z.of_nat (length l)) (Some Archive.Putter)
             [Archive.OSend (1, true) (1, true) (hourly "a" 10); Archive.OSend (1, true) (1, true) (hourly "b" 20); Archive.OSend (2, true) (1, true) (hourly "c" 4000)] in
  (fun c => (Archive.ck_hour c, length (Archive.ck_lines c))) <$> Archive.h_chunks h = [("0", 2%nat)] /\
  length (Archive.pending (Archive.h_archive h)) = 1%nat /\
  Forall (fun c => Archive.of_hour (fun _ => []) hour (Archive.ck_hour c) (Archive.ck_lines c)) (Archive.h_chunks h).
Proof.
  cbv zeta. split; [vm_compute; reflexivity |]. split; [vm_compute; reflexivity |].
  refine (proj1 (proj2 (Archive.archive_files_events_by_hour (fun _ => []) (fun t => int_lit (t / 3600)) (fun l => Z.of_nat (length l)) _ (Some Archive.Putter) _))).
  intros [| v l] Hl; [done | cbn; lia].
Defined.

(** ** The bus of a configuration ([buildCallbackBus] of [internal/server/server.go]) *)

Record CallbackConfig := mkCallbackConfig {
  cf_Name : string;
  cf_Type : string;
  cf_EventTypes : list string;
  cf_URL : string;
  cf_URLEnv : string;
  cf_LocalDir : string;
  cf_Headers : list (string * string);
  cf_Host : string;
  cf_PublicKeyEnv : string;
  cf_SecretKeyEnv : string;
}.

Section Build.
Variable getenv : string -> string.

(** The sink of an entry; one without credentials or of an unknown type is skipped. *)
Definition sink_of (c : CallbackConfig) : option Sinks.Sink :=
  let url := if negb (cf_URLEnv c =? "")%string && negb (getenv (cf_URLEnv c) =? "")%string then getenv (cf_URLEnv c) else cf_URL c in
  if (cf_Type c =? "webhook")%string then Some (Sinks.Webhook (cf_Name c) url (cf_Headers c) (cf_EventTypes c))
  else if (cf_Type c =? "slack")%string then Some (Sinks.Slack (cf_Name c) url (cf_EventTypes c))
  else if (cf_Type c =? "s3")%string then Some (Sinks.S3Archive (cf_Name c) (cf_LocalDir c) (cf_EventTypes c))
  else if (cf_Type c =? "langfuse")%string then
    let pubKey := getenv (cf_PublicKeyEnv c) in let secKey := getenv (cf_SecretKeyEnv c) in
    if (pubKey =? "")%string || (secKey =? "")%string then None
    else Some (Sinks.Langfuse (cf_Name c) (cf_Host c) pubKey secKey (cf_EventTypes c))
  else None.

(** The errors of [Register] are not looked at. *)
Definition register_sink (b : Bus.Bus) (c : CallbackConfig) : Bus.Bus :=
  match sink_of c with Some s => default b (Bus.Register (Sinks.callback_of s) b) | None => b end.

Definition buildCallbackBus (cfg : list CallbackConfig) : option Bus.Bus :=
  if bool_decide (cfg = []) then None else Some (foldl register_sink Bus.NewBus cfg).

(** The first 32 entries that name a sink get a worker each, in their order, and
    nothing else does. *)
Lemma buildCallbackBus_workers cfg b :
  buildCallbackBus cfg = Some b ->
  Bus.w_cb <$> Bus.b_workers b = take Bus.max_callbacks (Sinks.callback_of <$> omap sink_of cfg) /\ Bus.b_sealed b = false.
Proof.
  unfold buildCallbackBus. case_bool_decide; [done |]. intros [= <-].
  assert (forall cfg b l, Bus.b_sealed b = false -> Bus.w_cb <$> Bus.b_workers b = take Bus.max_callbacks l ->
    Bus.w_cb <$> Bus.b_workers (foldl register_sink b cfg) = take Bus.max_callbacks (l ++ (Sinks.callback_of <$> omap sink_of cfg)) /\
    Bus.b_sealed (foldl register_sink b cfg) = false) as Hgen; [| by apply (Hgen cfg Bus.NewBus [])].
  clear. induction cfg as [| c cfg IH]; intros b l Hs Hl; cbn [foldl omap list_omap]; [by rewrite app_nil_r |].
  unfold register_sink at 2 4. destruct (sink_of c) as [s |]; [| by apply IH].
  rewrite fmap_cons, (cons_middle _ l), app_assoc. apply IH.
  - unfold Bus.Register. by case_match.
  - unfold Bus.Register. rewrite Hs. cbn -[Nat.leb]. apply (f_equal length) in Hl as Hlen. rewrite length_fmap, length_take in Hlen.
    destruct (Nat.leb_spec Bus.max_callbacks (length (Bus.b_workers b))) as [Hle | Hlt]; unfold Bus.max_callbacks in *; cbn -[take].
    + rewrite Hl, take_app_le by lia. done.
    + rewrite fmap_app, Hl. cbn -[take]. rewrite !take_ge; [done | |]; rewrite ?length_app; cbn; lia.
Qed.
End Build.

(** ** The event of a recorded request ([recordUsage] of [internal/api/v1.go]) *)

(** The cost is the receipt's when the row was written. *)
Definition request_event (team : option Team) (userID : option Z) (vk : option VirtualKey) (requestID alias deployment modelUsed : string) (u : Usage)
    (cost : Z * Z) (receipt : option (Z * Z)) (latencyMs status : Z) (cached : bool) (errMsg : string) : Event :=
  let '(cents, microcents) := default cost receipt in
  mkEvent "" (if 400 <=? status then EventRequestFailed else EventRequestCompleted) requestID 0
    (from_option tm_Slug "" team) (default 0 userID) (from_option vk_KeyPrefix "" vk) alias deployment modelUsed
    (mkTokenUsage (PromptTokens u) (CompletionTokens u) (TotalTokens u)) cents latencyMs status cached errMsg [] microcents.

(** A sink reads the exact cost of the row of a recorded request: the member is a
    decimal literal of it, and is left out for a cost of zero only. *)
Lemma event_reports_the_receipt rfc3339 team user vk id alias dep model u cost cents micro latency status cached err nano now :
  int64_ok micro ->
  exists m, Sinks.sk_body (Sinks.webhook_request rfc3339 "" [] (stamp nano now (request_event team user vk id alias dep model u cost (Some (cents, micro)) latency status cached err))) = JObj m /\
  (micro <> 0 -> (txt "cost_microcents", JStr (txt (int_lit micro))) ∈ m) /\ parse_int (int_lit micro) = Some micro.
Proof.
  intros Hm. eexists. split; [reflexivity |]. split; [| by apply parse_int_lit].
  intros Hne. rewrite !elem_of_app. do 16 right. cbn. rewrite (proj2 (Z.eqb_neq _ _) Hne). by left.
Qed.
