(* ===== verification/Alerts.v ===== *)
(** * Alerts ([internal/alerts/evaluator.go], [internal/store/alerts.go],
    [internal/api/alerts.go])

    The rules and events as tables with the statements and handlers that change
    them, and the evaluators: every gateway process runs one, whose pass reads the
    enabled rules and, for each, the latest event, the metric, delivers and records.
    Processes share the tables and take no lock, so their database operations, and
    those of the administration, interleave. Numbers of a rule's options are
    64-bit floats, modelled by [SpecFloat]; the percentile of PostgreSQL, the
    conversion of a float that is no [int64], and the delivery's outcome are
    parameters. *)

From S2P Require Import Prelude GoStrings Calendar Money Models Json Wire Ledger Budget.
From Stdlib Require Import SpecFloat QArith Ascii.
Open Scope Z_scope.

Abbreviation float := spec_float.
Definition float_of_Z (z : Z) : float := binary_normalize 53 1024 z 0 false.

(** The exact value of a float, [big.Rat.SetFloat64]: [None] when it is not finite. *)
Definition SetFloat64 (f : float) : option Q :=
  match f with
  | S754_zero _ => Some (inject_Z 0)
  | S754_finite s m e =>
      let n := if s then Zneg m else Zpos m in
      Some (match e with Z0 => inject_Z n | Zpos p => inject_Z (n * 2 ^ Zpos p) | Zneg p => Qmake n (2 ^ p) end)
  | _ => None
  end.

(** ** Rules and events *)

Record AlertRule := mkAlertRule {
  al_ID : Z;
  al_Name : string;
  al_Enabled : bool;
  al_ScopeType : string;
  al_ScopeID : option Z;
  al_TriggerType : string;
  al_ThresholdOptions : gmap text (json float);
  al_ChannelType : string;
  al_ChannelTarget : string;
  al_CooldownSeconds : Z;
  al_CreatedAt : Z;
}.

(** What an alert reports. *)
Inductive payload :=
| Traffic (metric : string) (value threshold : float) (requests window : Z) (scope : string)
| Providers (names : list string) (window : Z)
| BudgetSpend (team : string) (limitCents spendCents limit spend : Z) (thresholdPct actualPct : float) (period : string) (start end_ : Z).

Record alert_event := mkAlertEvent { ae_ID : Z; ae_RuleID : Z; ae_FiredAt : Z; ae_Payload : payload; ae_Status : string; ae_Error : option string }.

(** The two tables and their sequences. *)
Record alert_tables := mkAlertTables { at_rules : gmap Z AlertRule; at_events : list alert_event; at_next_rule : Z; at_next_event : Z }.

Definition no_alerts : alert_tables := mkAlertTables ∅ [] 1 1.

Inductive alert_error := AlertNotFound | AlertFailed.

Definition with_rules (r : gmap Z AlertRule) (t : alert_tables) : alert_tables := mkAlertTables r (at_events t) (at_next_rule t) (at_next_event t).

Definition rule_le (a b : AlertRule) : Prop := al_ID a <= al_ID b.
#[export] Instance rule_le_dec : RelDecision rule_le.
Proof. intros a b. unfold rule_le. apply _. Defined.

(** [ORDER BY id], of the enabled rules, and [ORDER BY id DESC]. *)
Definition rules_by_id (t : alert_tables) : list AlertRule := merge_sort rule_le (map snd (map_to_list (at_rules t))).
Definition ListAlertRules (t : alert_tables) : list AlertRule := List.filter al_Enabled (rules_by_id t).
Definition ListAllAlertRules (t : alert_tables) : list AlertRule := reverse (rules_by_id t).

Definition enable (enabled : bool) (r : AlertRule) : AlertRule :=
  mkAlertRule (al_ID r) (al_Name r) enabled (al_ScopeType r) (al_ScopeID r) (al_TriggerType r) (al_ThresholdOptions r) (al_ChannelType r)
    (al_ChannelTarget r) (al_CooldownSeconds r) (al_CreatedAt r).

Definition SetAlertRuleEnabled (id : Z) (enabled : bool) (t : alert_tables) : alert_tables * result alert_error unit :=
  match at_rules t !! id with
  | Some r => (with_rules (<[id := enable enabled r]> (at_rules t)) t, Ok tt)
  | None => (t, Err AlertNotFound)
  end.

(** The events go with their rule. *)
Definition DeleteAlertRule (id : Z) (t : alert_tables) : alert_tables * result alert_error unit :=
  match at_rules t !! id with
  | Some _ => (mkAlertTables (delete id (at_rules t)) (List.filter (fun e => negb (ae_RuleID e =? id)) (at_events t)) (at_next_rule t) (at_next_event t), Ok tt)
  | None => (t, Err AlertNotFound)
  end.

Record CreateAlertRuleParams := mkCreateAlertRuleParams {
  ap_Name : string;
  ap_ScopeType : string;
  ap_ScopeID : option Z;
  ap_TriggerType : string;
  ap_ThresholdOptions : gmap text (json float);
  ap_ChannelType : string;
  ap_ChannelTarget : string;
  ap_CooldownSeconds : Z;
}.

(** The column is a 32-bit integer; a larger value fails the insert. *)
Definition max_int32 : Z := 2147483647.

Definition CreateAlertRule (now : Z) (p : CreateAlertRuleParams) (t : alert_tables) : alert_tables * result alert_error AlertRule :=
  let cooldown := if ap_CooldownSeconds p <=? 0 then 300 else ap_CooldownSeconds p in
  if max_int32 <? cooldown then (mkAlertTables (at_rules t) (at_events t) (at_next_rule t + 1) (at_next_event t), Err AlertFailed)
  else
    let r := mkAlertRule (at_next_rule t) (ap_Name p) true (ap_ScopeType p) (ap_ScopeID p) (ap_TriggerType p) (ap_ThresholdOptions p)
               (ap_ChannelType p) (ap_ChannelTarget p) cooldown now in
    (mkAlertTables (<[al_ID r := r]> (at_rules t)) (at_events t) (at_next_rule t + 1) (at_next_event t), Ok r).

(** [MAX(fired_at)], the zero time when there is no event. *)
Definition LastAlertEventTime (ruleID : Z) (t : alert_tables) : Z :=
  foldr (fun e acc => if ae_RuleID e =? ruleID then Z.max (ae_FiredAt e) acc else acc) 0 (at_events t).

(** [json.Marshal] refuses a float that is not finite. *)
Definition finite (f : float) : bool := match f with S754_zero _ | S754_finite _ _ _ => true | _ => false end.
Definition marshals (p : payload) : bool :=
  match p with
  | Traffic _ value threshold _ _ _ => finite value && finite threshold
  | Providers _ _ => true
  | BudgetSpend _ _ _ _ _ threshold actual _ _ _ => finite threshold && finite actual
  end.

(** The insert fails without its rule, and for a payload that has no JSON: the
    column cannot be null. *)
Definition RecordAlertEvent (now ruleID : Z) (p : payload) (status error : string) (t : alert_tables) : option alert_tables :=
  match at_rules t !! ruleID with
  | Some _ =>
      if marshals p then Some (mkAlertTables (at_rules t)
        (at_events t ++ [mkAlertEvent (at_next_event t) ruleID now p status (if (error =? "")%string then None else Some error)])
        (at_next_rule t) (at_next_event t + 1))
      else None
  | None => None
  end.

Definition event_le (a b : alert_event) : Prop := ae_FiredAt b <= ae_FiredAt a.
#[export] Instance event_le_dec : RelDecision event_le.
Proof. intros a b. unfold event_le. apply _. Defined.

(** The latest events, with the names of their rules. *)
Definition ListAlertEvents (limit : Z) (t : alert_tables) : list (alert_event * string) :=
  let limit := if (limit <=? 0) || (200 <? limit) then 50 else limit in
  take (Z.to_nat limit) (omap (fun e => r ← at_rules t !! ae_RuleID e; Some (e, al_Name r)) (merge_sort event_le (at_events t))).

(** ** Metrics *)

(** The columns of [usage_log] and of the health samples that the queries read. *)
Record traffic_row := mkTrafficRow { tr_team : Z; tr_ts : Z; tr_status : Z; tr_latency : Z }.
Record health_sample := mkHealthSample { hs_deployment : string; hs_at : Z; hs_ready : bool; hs_circuit : string }.

Record AlertTrafficWindow := mkAlertTrafficWindow { aw_Requests : Z; aw_ServerErrors : Z; aw_P95Ms : float }.

Definition AlertTraffic (p95 : list Z -> float) (team : option Z) (since : Z) (rows : list traffic_row) : AlertTrafficWindow :=
  let rows := List.filter (fun r => (since <=? tr_ts r) && match team with None => true | Some id => tr_team r =? id end) rows in
  mkAlertTrafficWindow (Z.of_nat (length rows)) (countZ (fun r => 500 <=? tr_status r) rows)
    (match rows with [] => S754_zero false | _ => p95 (map tr_latency rows) end).

Definition down (s : health_sample) : bool := negb (hs_ready s) || (hs_circuit s =? "open")%string.

Definition name_le (a b : string) : Prop := String.leb a b = true.
#[export] Instance name_le_dec : RelDecision name_le.
Proof. intros a b. unfold name_le. apply _. Defined.

(** [GROUP BY h.deployment_name HAVING bool_and(...)], for the enabled deployments. *)
Definition UnavailableDeployments (enabled : list string) (since : Z) (samples : list health_sample) : list string :=
  let samples := List.filter (fun s => (since <=? hs_at s) && bool_decide (hs_deployment s ∈ enabled)) samples in
  let names := merge_sort name_le (elements (list_to_set (map hs_deployment samples) : gset string)) in
  List.filter (fun n => forallb (fun s => negb (hs_deployment s =? n)%string || down s) samples) names.

(** [SumTeamSpendInWindow]: a sum that is no [int64] fails to scan, a negative one
    is refused. *)
Definition SumTeamSpendInWindow (team start end_ : Z) (rows : list usage_row) : option Z :=
  let total := sumZ (map (fun u => coalesce_micro (ur_cost_cents u) (ur_cost_micro u))
    (List.filter (fun u => (ow_team (ur_owner u) =? team) && (start <=? ur_ts u) && (ur_ts u <? end_)) rows)) in
  if int64_okb total && (0 <=? total) then Some total else None.

(** [windowFor]; the days count from a Monday and weeks start on Sunday. *)
Definition windowFor (period : string) (now : Z) : Z * Z :=
  if (period =? "day")%string then let start := day_of now * Day in (start, start + 24 * Hour)
  else if (period =? "week")%string then let start := (day_of now - (day_of now + 1) mod 7) * Day in (start, start + 7 * 24 * Hour)
  else let '(a, b) := month_of (day_of now) in (a * Day, b * Day).

(** ** The evaluator *)

(** What a pass reads besides the tables of alerts. *)
Record alert_world := mkAlertWorld {
  wd_team : Z -> option Team;
  wd_usage : list usage_row;
  wd_traffic : list traffic_row;
  wd_health : list health_sample;
  wd_enabled : list string;
}.

(** What happens while one rule is evaluated, once its latest event is read: the
    clock of the cooldown, whether the metric could be read and the clock
    of its window, the error of the delivery, and the instant of the insert, if it
    goes through. *)
Record moments := mkMoments { mo_now : Z; mo_metric : bool; mo_window : Z; mo_delivery : string; mo_record : option Z }.

(** A delivery: its rule, the clock of the cooldown's check, what it reported, and
    the instant of the event that records it, if any. *)
Record notice := mkNotice { no_rule : AlertRule; no_now : Z; no_payload : payload; no_recorded : option Z }.

Section Evaluator.
Variable p95 : list Z -> float.
(** The conversion to [int64] of a float that is not in its range. *)
Variable out_of_range : float -> Z.

(** [int64(f)] *)
Definition int64_of (f : float) : Z :=
  match f with
  | S754_zero _ => 0
  | S754_finite s m e =>
      let a := if 0 <=? e then Zpos m * 2 ^ e else Zpos m / 2 ^ (- e) in
      let z := if s then - a else a in if int64_okb z then z else out_of_range f
  | _ => out_of_range f
  end.

Definition option_of (r : AlertRule) (key : string) (fallback : float) : float :=
  match al_ThresholdOptions r !! txt key with Some (JNum f) => f | _ => fallback end.

Definition window_of (r : AlertRule) (fallback : Z) : Z := int64_of (option_of r "window_minutes" (float_of_Z fallback)) *w Minute.

Definition deliver (r : AlertRule) (m : moments) : string :=
  if (al_ChannelType r =? "slack")%string || (al_ChannelType r =? "webhook")%string then mo_delivery m
  else "unsupported channel: " +:+ al_ChannelType r.

Definition fire (r : AlertRule) (p : payload) (m : moments) (t : alert_tables) : alert_tables * option notice :=
  let err := deliver r m in
  let status := if (err =? "")%string then "delivered" else "failed" in
  match mo_record m ≫= (fun at_ => t' ← RecordAlertEvent at_ (al_ID r) p status err t; Some (at_, t')) with
  | Some (at_, t') => (t', Some (mkNotice r (mo_now m) p (Some at_)))
  | None => (t, Some (mkNotice r (mo_now m) p None))
  end.

Definition error_rate (w : AlertTrafficWindow) : float :=
  SFdiv 53 1024 (SFmul 53 1024 (float_of_Z 100) (float_of_Z (aw_ServerErrors w))) (float_of_Z (aw_Requests w)).

Definition evaluateTraffic (metric : string) (wd : alert_world) (r : AlertRule) (m : moments) (t : alert_tables) : alert_tables * option notice :=
  let window := window_of r 15 in
  let minRequests := int64_of (option_of r "min_requests" (float_of_Z 20)) in
  let threshold := option_of r "threshold" (float_of_Z (if (metric =? "error_rate")%string then 5 else 5000)) in
  let team := if (al_ScopeType r =? "team")%string then al_ScopeID r else None in
  if negb (mo_metric m) then (t, None)
  else
    let w := AlertTraffic p95 team (mo_window m + (0 -w window)) (wd_traffic wd) in
    if aw_Requests w <? minRequests then (t, None)
    else
      let value := if (metric =? "error_rate")%string then error_rate w else aw_P95Ms w in
      if SFltb value threshold then (t, None)
      else fire r (Traffic metric value threshold (aw_Requests w) window (al_ScopeType r)) m t.

Definition evaluateProviders (wd : alert_world) (r : AlertRule) (m : moments) (t : alert_tables) : alert_tables * option notice :=
  let window := window_of r 5 in
  if negb (mo_metric m) then (t, None)
  else
    let names := UnavailableDeployments (wd_enabled wd) (mo_window m + (0 -w window)) (wd_health wd) in
    if bool_decide (names = []) then (t, None) else fire r (Providers names window) m t.

(** The comparison is exact: [spend * 100 >= threshold * limit]. *)
Definition over_threshold (thresholdPct : float) (spend limit : Z) : bool :=
  match SetFloat64 thresholdPct with
  | Some q => negb (match Qcompare (inject_Z (spend * 100)) (q * inject_Z limit) with Lt => true | _ => false end)
  | None => false
  end.

Definition evaluateBudgetThreshold (thresholdPct : float) (wd : alert_world) (r : AlertRule) (m : moments) (t : alert_tables) :
    alert_tables * option notice :=
  match al_ScopeID r with
  | Some id =>
      if negb (al_ScopeType r =? "team")%string || negb (mo_metric m) then (t, None)
      else
        match wd_team wd id with
        | Some team =>
            match tm_UsdLimitCents team with
            | Some cents =>
                if cents <=? 0 then (t, None)
                else
                  let '(start, end_) := windowFor (tm_Period team) (mo_window m) in
                  match SumTeamSpendInWindow (tm_ID team) start end_ (wd_usage wd), LimitMicrocents cents with
                  | Some spend, Some limit =>
                      if over_threshold thresholdPct spend limit
                      then fire r (BudgetSpend (tm_Slug team) cents (default 0 (CeilCents spend)) limit spend thresholdPct
                                     (SFdiv 53 1024 (SFmul 53 1024 (float_of_Z 100) (float_of_Z spend)) (float_of_Z limit))
                                     (tm_Period team) start end_) m t
                      else (t, None)
                  | _, _ => (t, None)
                  end
            | None => (t, None)
            end
        | None => (t, None)
        end
  | None => (t, None)
  end.

Definition cooling (r : AlertRule) (now last : Z) : bool := negb (IsZero last) && (Sub now last <? al_CooldownSeconds r *w Second).

(** [evaluateRule], once it has read the time [last] of the rule's latest event. *)
Definition evaluateRule (wd : alert_world) (r : AlertRule) (m : moments) (last : Z) (t : alert_tables) : alert_tables * option notice :=
  if cooling r (mo_now m) last then (t, None)
  else if (al_TriggerType r =? "budget_threshold")%string then evaluateBudgetThreshold (option_of r "threshold_pct" (float_of_Z 80)) wd r m t
  else if (al_TriggerType r =? "budget_exceeded")%string then evaluateBudgetThreshold (float_of_Z 100) wd r m t
  else if (al_TriggerType r =? "error_rate")%string then evaluateTraffic "error_rate" wd r m t
  else if (al_TriggerType r =? "latency_p95")%string then evaluateTraffic "latency_p95" wd r m t
  else if (al_TriggerType r =? "provider_unavailable")%string then evaluateProviders wd r m t
  else (t, None).

End Evaluator.

(** ** The administration ([api/alerts.go]) *)

Definition Triggers : list string := ["budget_threshold"; "budget_exceeded"; "error_rate"; "latency_p95"; "provider_unavailable"].
Definition Channels : list string := ["slack"; "webhook"].

Abbreviation answer := (Z * string)%type.

(** A body that does not decode is [None]. *)
Definition admin_CreateAlertRule (now : Z) (req : option CreateAlertRuleParams) (t : alert_tables) : alert_tables * answer :=
  match req with
  | None => (t, (400, "invalid_request"))
  | Some p =>
      if (negb (ap_TriggerType p =? "")%string && negb (bool_decide (ap_TriggerType p ∈ Triggers))) ||
         (negb (ap_ChannelType p =? "")%string && negb (bool_decide (ap_ChannelType p ∈ Channels))) ||
         (ap_Name p =? "")%string || (ap_ScopeType p =? "")%string || (ap_TriggerType p =? "")%string || (ap_ChannelType p =? "")%string ||
         (ap_ChannelTarget p =? "")%string
      then (t, (400, "invalid_request"))
      else match CreateAlertRule now p t with (t, Ok _) => (t, (201, "created")) | (t, Err _) => (t, (500, "internal_error")) end
  end.

(** The identifier of the path and the flag of the body, when they parse. *)
Definition admin_UpdateAlertRule (id : option Z) (enabled : option (option bool)) (t : alert_tables) : alert_tables * answer :=
  match id, enabled with
  | Some id, Some (Some enabled) =>
      match SetAlertRuleEnabled id enabled t with (t, Ok _) => (t, (204, "")) | (t, Err _) => (t, (404, "not_found")) end
  | _, _ => (t, (400, "invalid_request"))
  end.

Definition admin_DeleteAlertRule (id : option Z) (t : alert_tables) : alert_tables * answer :=
  match id with
  | Some id => match DeleteAlertRule id t with (t, Ok _) => (t, (204, "")) | (t, Err _) => (t, (404, "not_found")) end
  | None => (t, (400, "invalid_request"))
  end.

(** ** Histories *)

(** Where the evaluator of a process is: between passes, before the next of the
    rules it loaded, or in [evaluateRule], having read the time of the rule's
    latest event, when [seen] notices had been given. *)
Inductive evaluator :=
| Resting
| Walking (rules : list AlertRule)
| Deciding (r : AlertRule) (last : Z) (seen : nat) (rules : list AlertRule).

(** The tables all processes share, the notices in the order in which their
    recording was tried, each with the number of earlier ones when the latest
    event was read for it, and the evaluator of each process. *)
Record alert_sys := mkAlertSys {
  as_tables : alert_tables;
  as_notices : list (nat * notice);
  as_evaluators : gmap nat evaluator;
}.

Definition first_alerts : alert_sys := mkAlertSys no_alerts [] ∅.

Definition evaluator_of (s : alert_sys) (p : nat) : evaluator := default Resting (as_evaluators s !! p).
Definition set_evaluator (p : nat) (e : evaluator) (s : alert_sys) : alert_sys :=
  mkAlertSys (as_tables s) (as_notices s) (<[p := e]> (as_evaluators s)).
Definition set_tables (t : alert_tables) (s : alert_sys) : alert_sys := mkAlertSys t (as_notices s) (as_evaluators s).

(** One operation of the administration, or of the evaluator of a process: the tick
    that loads the enabled rules, the read of the latest event of the next rule,
    which may fail, the rest of its evaluation, and the end of the pass, when no rule
    is left, its context ends or the process dies. *)
Inductive alert_op :=
| ACreate (now : Z) (req : option CreateAlertRuleParams)
| AUpdate (id : option Z) (enabled : option (option bool))
| ADelete (id : option Z)
| ALoad (p : nat)
| ARead (p : nat) (readable : bool)
| AAct (p : nat) (wd : alert_world) (m : moments)
| AStop (p : nat).

(** The process whose evaluator runs. *)
Definition process_of (o : alert_op) : option nat :=
  match o with ALoad p | ARead p _ | AAct p _ _ | AStop p => Some p | _ => None end.

Section History.
Context (p95 : list Z -> float) (out_of_range : float -> Z).

(** [evaluate] in its steps. *)
Definition evaluate_load (p : nat) (s : alert_sys) : alert_sys :=
  match evaluator_of s p with
  | Resting => set_evaluator p (Walking (ListAlertRules (as_tables s))) s
  | _ => s
  end.

Definition evaluate_read (p : nat) (readable : bool) (s : alert_sys) : alert_sys :=
  match evaluator_of s p with
  | Walking (r :: rules) =>
      set_evaluator p (if readable
                       then Deciding r (LastAlertEventTime (al_ID r) (as_tables s)) (length (as_notices s)) rules
                       else Walking rules) s
  | _ => s
  end.

Definition evaluate_act (p : nat) (wd : alert_world) (m : moments) (s : alert_sys) : alert_sys :=
  match evaluator_of s p with
  | Deciding r last seen rules =>
      let '(t, n) := evaluateRule p95 out_of_range wd r m last (as_tables s) in
      set_evaluator p (Walking rules)
        (mkAlertSys t (as_notices s ++ map (fun n => (seen, n)) (option_list n)) (as_evaluators s))
  | _ => s
  end.

Definition alert_step (s : alert_sys) (o : alert_op) : alert_sys :=
  match o with
  | ACreate now req => set_tables (admin_CreateAlertRule now req (as_tables s)).1 s
  | AUpdate id enabled => set_tables (admin_UpdateAlertRule id enabled (as_tables s)).1 s
  | ADelete id => set_tables (admin_DeleteAlertRule id (as_tables s)).1 s
  | ALoad p => evaluate_load p s
  | ARead p readable => evaluate_read p readable s
  | AAct p wd m => evaluate_act p wd m s
  | AStop p => set_evaluator p Resting s
  end.

Definition alert_history (os : list alert_op) : alert_sys := foldl alert_step first_alerts os.

(** What the administration stores: the trigger and the channel are known, the texts
    are given, and the cooldown is positive and fits its column. *)
Definition well_formed_rule (r : AlertRule) : Prop :=
  al_TriggerType r ∈ Triggers /\ al_ChannelType r ∈ Channels /\ al_Name r <> "" /\ al_ScopeType r <> "" /\ al_ChannelTarget r <> "" /\
  0 < al_CooldownSeconds r <= max_int32.

(** The notice [n'] waits for its cooldown after the notice [n] of the same rule, if
    that one was recorded. *)
Definition waits_for (n n' : notice) : Prop := forall f,
  no_recorded n = Some f -> 0 < f -> f + al_CooldownSeconds (no_rule n') * Second <= no_now n'.

(** The notices of a stored rule: each waits after those that had been given when the
    rule's latest event was read for it. *)
Definition apart (t : alert_tables) (ns : list (nat * notice)) : Prop := forall i j seen seen' n n',
  ns !! i = Some (seen, n) -> ns !! j = Some (seen', n') -> (i < seen')%nat ->
  al_ID (no_rule n) = al_ID (no_rule n') -> is_Some (at_rules t !! al_ID (no_rule n')) -> waits_for n n'.

(** A rule that was once stored. *)
Definition known_rule (t : alert_tables) (r : AlertRule) : Prop := well_formed_rule r /\ al_ID r < at_next_rule t.

(** What an evaluator that is deciding knows: the time it read is not before any of
    the recorded notices it counts. *)
Definition knows (s : alert_sys) (e : evaluator) : Prop :=
  match e with
  | Resting => True
  | Walking rules => Forall (known_rule (as_tables s)) rules
  | Deciding r last seen rules =>
      Forall (known_rule (as_tables s)) (r :: rules) /\ (seen <= length (as_notices s))%nat /\
      forall i k n f, as_notices s !! i = Some (k, n) -> (i < seen)%nat -> al_ID (no_rule n) = al_ID r ->
        is_Some (at_rules (as_tables s) !! al_ID r) -> no_recorded n = Some f -> f <= last
  end.

(** What every history keeps: rules are stored under their identifier, which is
    never used again; a rule that is stored has the event of each of its recorded
    notices; the evaluators know what they read; and recorded notices are apart. *)
Record alerts_ok (s : alert_sys) : Prop := mkAlertsOk {
  ao_rules : forall id r, at_rules (as_tables s) !! id = Some r -> al_ID r = id /\ id < at_next_rule (as_tables s) /\ well_formed_rule r;
  ao_notices : Forall (fun n => al_ID (no_rule n.2) < at_next_rule (as_tables s)) (as_notices s);
  ao_recorded : forall k n at_, (k, n) ∈ as_notices s -> no_recorded n = Some at_ -> is_Some (at_rules (as_tables s) !! al_ID (no_rule n)) ->
    exists e, e ∈ at_events (as_tables s) /\ ae_RuleID e = al_ID (no_rule n) /\ ae_FiredAt e = at_;
  ao_knows : forall p e, as_evaluators s !! p = Some e -> knows s e;
  ao_seen : forall j k n, as_notices s !! j = Some (k, n) -> (k <= j)%nat;
  ao_apart : apart (as_tables s) (as_notices s);
}.

Lemma last_event_ge e t id : e ∈ at_events t -> ae_RuleID e = id -> ae_FiredAt e <= LastAlertEventTime id t.
Proof.
  unfold LastAlertEventTime. induction (at_events t) as [| x l IH]; [by intros ?%elem_of_nil |].
  cbn. intros [<- | He]%elem_of_cons Hid.
  - rewrite (proj2 (Z.eqb_eq _ _) Hid). lia.
  - specialize (IH He Hid). destruct (_ =? _); lia.
Qed.

(** A rule that is not cooling is past the cooldown of its latest event. *)
Lemma not_cooling r now last : well_formed_rule r -> cooling r now last = false -> last <> 0 -> last + al_CooldownSeconds r * Second <= now.
Proof.
  intros (_ & _ & _ & _ & _ & Hc) Hcool Hl. unfold cooling, IsZero in Hcool. rewrite (proj2 (Z.eqb_neq _ _) Hl) in Hcool. cbn in Hcool.
  apply Z.ltb_ge in Hcool. unfold max_int32, Sub, Second in *.
  rewrite wrap64_id in Hcool by (unfold int64_ok, MinInt64, MaxInt64; lia).
  unfold clamp64, MinInt64, MaxInt64 in Hcool. lia.
Qed.

(** What the evaluation of one rule does, from the time it read. *)
Definition rule_effect (r : AlertRule) (m : moments) (last : Z) (t t' : alert_tables) (n : option notice) : Prop :=
  match n with
  | None => t' = t
  | Some n =>
      no_rule n = r /\ no_now n = mo_now m /\ cooling r (mo_now m) last = false /\
      match no_recorded n with
      | None => t' = t
      | Some f => exists e, at_rules t' = at_rules t /\ at_next_rule t' = at_next_rule t /\ at_events t' = at_events t ++ [e] /\
          ae_RuleID e = al_ID r /\ ae_FiredAt e = f /\ mo_record m = Some f
      end
  end.

Lemma fire_effect r p m last t :
  cooling r (mo_now m) last = false -> rule_effect r m last t (fire r p m t).1 (fire r p m t).2.
Proof.
  intros Hc. unfold fire. destruct (mo_record m) as [f |] eqn:Em; cbn; [| done]. unfold RecordAlertEvent.
  destruct (at_rules t !! al_ID r); cbn; [| done]. destruct (marshals p); cbn; [| done]. split_and!; try done. eexists. by split_and!.
Qed.

Lemma evaluateRule_effect wd r m last t :
  rule_effect r m last t (evaluateRule p95 out_of_range wd r m last t).1 (evaluateRule p95 out_of_range wd r m last t).2.
Proof.
  unfold evaluateRule. destruct (cooling r (mo_now m) last) eqn:Hc; [done |].
  repeat case_match; unfold evaluateBudgetThreshold, evaluateTraffic, evaluateProviders; repeat case_match; try done; by apply fire_effect.
Qed.

(** ** How the tables change *)

(** Stored rules stay well formed and under their identifiers, a rule that is gone
    does not come back, and events go only with their rule. *)
Record evolves (t t' : alert_tables) : Prop := mkEvolves {
  ev_next : at_next_rule t <= at_next_rule t';
  ev_gone : forall id, id < at_next_rule t -> is_Some (at_rules t' !! id) -> is_Some (at_rules t !! id);
  ev_events : forall e, e ∈ at_events t -> is_Some (at_rules t' !! ae_RuleID e) -> e ∈ at_events t';
  ev_rules : (forall id r, at_rules t !! id = Some r -> al_ID r = id /\ id < at_next_rule t /\ well_formed_rule r) ->
    forall id r, at_rules t' !! id = Some r -> al_ID r = id /\ id < at_next_rule t' /\ well_formed_rule r;
}.

Lemma evolves_refl t : evolves t t.
Proof. by split. Qed.

Lemma create_evolves now req t : evolves t (admin_CreateAlertRule now req t).1.
Proof.
  unfold admin_CreateAlertRule. destruct req as [p |]; [| apply evolves_refl]. case_match eqn:E; [apply evolves_refl |].
  repeat (apply orb_false_iff in E as [E ?]). unfold CreateAlertRule. cbv zeta.
  destruct (max_int32 <? (if ap_CooldownSeconds p <=? 0 then 300 else ap_CooldownSeconds p)) eqn:Hmax; split; cbn; try done; try lia.
  - intros Hrules id r Hr. destruct (Hrules id r Hr) as (? & ? & ?). split_and!; try done. lia.
  - intros id Hid. by rewrite lookup_insert_ne by lia.
  - intros Hrules id r [[<- <-] | [Hne Hr]]%lookup_insert_Some; cbn.
    + split_and!; [done | lia |]. apply String.eqb_neq in H, H0, H1, H2, H3. apply Z.ltb_ge in Hmax.
      unfold well_formed_rule. cbn. split_and!; try done.
      * apply andb_false_iff in E as [E%negb_false_iff%String.eqb_eq | E%negb_false_iff%bool_decide_eq_true]; done.
      * apply andb_false_iff in H4 as [E'%negb_false_iff%String.eqb_eq | E'%negb_false_iff%bool_decide_eq_true]; done.
      * case_match eqn:E0; [lia | apply Z.leb_gt in E0; lia].
    + destruct (Hrules id r Hr) as (? & ? & ?). split_and!; try done. lia.
Qed.

Lemma update_evolves id enabled t : evolves t (admin_UpdateAlertRule id enabled t).1.
Proof.
  unfold admin_UpdateAlertRule, SetAlertRuleEnabled. destruct id as [id |]; [| apply evolves_refl].
  destruct enabled as [[enabled |] |]; try apply evolves_refl.
  destruct (at_rules t !! id) as [r |] eqn:Hr; [| apply evolves_refl]. split; cbn; try done.
  - intros k _ Hk. destruct (decide (k = id)) as [-> |]; [eauto |]. by rewrite lookup_insert_ne in Hk.
  - intros Hrules k r' [[<- <-] | [Hne Hr']]%lookup_insert_Some; [| auto]. exact (Hrules _ _ Hr).
Qed.

Lemma delete_evolves id t : evolves t (admin_DeleteAlertRule id t).1.
Proof.
  unfold admin_DeleteAlertRule, DeleteAlertRule. destruct id as [id |]; [| apply evolves_refl].
  destruct (at_rules t !! id) as [r |] eqn:Hr; [| apply evolves_refl]. split; cbn; try done.
  - intros k _ [r' [Hne Hr']%lookup_delete_Some]. eauto.
  - intros e He [r' [Hne Hr']%lookup_delete_Some]. apply list_elem_of_In, filter_In.
    split; [by apply list_elem_of_In | by apply negb_true_iff, Z.eqb_neq].
  - intros Hrules k r' [Hne Hr']%lookup_delete_Some. auto.
Qed.

Lemma effect_evolves r m last t t' n : rule_effect r m last t t' n -> evolves t t'.
Proof.
  destruct n as [n |]; cbn; [| intros ->; apply evolves_refl]. intros (_ & _ & _ & He).
  destruct (no_recorded n); [| subst; apply evolves_refl]. destruct He as (e & Hr & Hn & Hev & _).
  split; rewrite ?Hr, ?Hn, ?Hev; try done. intros e' He' _. apply elem_of_app. by left.
Qed.

(** ** The invariant *)

Lemma known_rule_mono t t' r : at_next_rule t <= at_next_rule t' -> known_rule t r -> known_rule t' r.
Proof. intros ? [? ?]. split; [done | lia]. Qed.

Lemma knows_mono s s' l e :
  evolves (as_tables s) (as_tables s') -> as_notices s' = as_notices s ++ l -> knows s e -> knows s' e.
Proof.
  intros [Hn Hg _ _] Hl. destruct e as [| rules | r last seen rules]; cbn; [done | |].
  - intros H. eapply Forall_impl; [exact H |]. intros r. by apply known_rule_mono.
  - intros (Hr & Hlen & Hk). rewrite Hl. split_and!.
    + eapply Forall_impl; [exact Hr |]. intros r'. by apply known_rule_mono.
    + rewrite length_app. lia.
    + intros i k n f Hi Hlt Hid Hs. apply Forall_cons in Hr as [[_ Hr] _].
      rewrite lookup_app_l in Hi by lia. apply (Hk i k n f Hi Hlt Hid). by apply Hg.
Qed.

Lemma tables_ok s t' : evolves (as_tables s) t' -> alerts_ok s -> alerts_ok (set_tables t' s).
Proof.
  intros Hev [Hrules Hns Hrec Hkn Hseen Hap]. split; cbn.
  - by apply (ev_rules _ _ Hev).
  - eapply Forall_impl; [exact Hns |]. cbn. intros n Hn. pose proof (ev_next _ _ Hev). lia.
  - intros k n f Hn Hf Hs. rewrite Forall_forall in Hns. pose proof (Hns _ Hn) as Hlt. cbn in Hlt.
    destruct (Hrec k n f Hn Hf) as (e & He & Hid & Hfe); [by apply (ev_gone _ _ Hev) |].
    exists e. split_and!; try done. apply (ev_events _ _ Hev); [done | by rewrite Hid].
  - intros p e Hp. apply (knows_mono s _ []); [done | by rewrite app_nil_r | by apply (Hkn p)].
  - exact Hseen.
  - intros i j k k' n n' Hi Hj Hlt Hid Hs. apply (Hap i j k k' n n' Hi Hj Hlt Hid).
    apply (ev_gone _ _ Hev); [| done]. rewrite Forall_forall in Hns. apply (Hns (k', n')). by eapply list_elem_of_lookup_2.
Qed.

Lemma evaluator_ok s p e : knows s e -> alerts_ok s -> alerts_ok (set_evaluator p e s).
Proof.
  intros Hk [Hrules Hns Hrec Hkn Hseen Hap]. split; cbn; try done.
  intros q e' [[<- <-] | [_ Hq]]%lookup_insert_Some; [done | by apply (Hkn q)].
Qed.

Lemma notice_ok s seen n :
  alerts_ok s -> al_ID (no_rule n) < at_next_rule (as_tables s) ->
  (forall f, no_recorded n = Some f -> exists e, e ∈ at_events (as_tables s) /\ ae_RuleID e = al_ID (no_rule n) /\ ae_FiredAt e = f) ->
  (seen <= length (as_notices s))%nat ->
  (forall i k n0, as_notices s !! i = Some (k, n0) -> (i < seen)%nat -> al_ID (no_rule n0) = al_ID (no_rule n) ->
    is_Some (at_rules (as_tables s) !! al_ID (no_rule n)) -> waits_for n0 n) ->
  alerts_ok (mkAlertSys (as_tables s) (as_notices s ++ [(seen, n)]) (as_evaluators s)).
Proof.
  intros [Hrules Hns Hrec Hkn Hseen Hap] Hid He Hlen Hw. split; cbn; [done | | | | |].
  - apply Forall_app. split; [done |]. constructor; [done | constructor].
  - intros k n0 f [Hin | [= -> ->]%list_elem_of_singleton]%elem_of_app Hf Hs; [by apply (Hrec k) | by apply He].
  - intros p e Hp. apply (knows_mono s _ [(seen, n)]); [apply evolves_refl | done | by apply (Hkn p)].
  - intros j k n0 Hj. apply lookup_app_Some in Hj as [Hj | [Hge Hj]]; [by apply (Hseen j k n0) |].
    apply list_lookup_singleton_Some in Hj as [_ [= <- <-]]. lia.
  - intros i j k k' n1 n2 Hi Hj Hlt Hid' Hs. apply lookup_app_Some in Hj as [Hj | [Hge Hj]].
    + pose proof (Hseen _ _ _ Hj). pose proof (lookup_lt_Some _ _ _ Hj).
      rewrite lookup_app_l in Hi by lia. by apply (Hap i j k k').
    + apply list_lookup_singleton_Some in Hj as [_ [= <- <-]]. rewrite lookup_app_l in Hi by lia. by apply (Hw i k n1).
Qed.

Lemma listed_rules s : alerts_ok s -> Forall (known_rule (as_tables s)) (ListAlertRules (as_tables s)).
Proof.
  intros [Hrules _ _ _ _ _]. apply Forall_forall. intros r Hr%list_elem_of_In. unfold ListAlertRules in Hr. apply filter_In in Hr as [Hr _].
  apply list_elem_of_In in Hr. unfold rules_by_id in Hr. rewrite merge_sort_Permutation in Hr. apply list_elem_of_fmap in Hr as ([id r'] & -> & Hr).
  apply elem_of_map_to_list in Hr. destruct (Hrules _ _ Hr) as (Hid & ? & ?). split; cbn; [done | by rewrite Hid].
Qed.

Lemma evaluator_knows s p : alerts_ok s -> knows s (evaluator_of s p).
Proof. intros Hok. unfold evaluator_of. destruct (as_evaluators s !! p) as [e |] eqn:E; [by apply (ao_knows s Hok p) | done]. Qed.

Lemma read_ok p readable s : alerts_ok s -> alerts_ok (evaluate_read p readable s).
Proof.
  intros Hok. unfold evaluate_read. pose proof (evaluator_knows s p Hok) as Hk.
  destruct (evaluator_of s p) as [| [| r rules] |]; try done. apply evaluator_ok; [| done]. cbn in Hk.
  destruct readable; cbn; [| by apply Forall_cons in Hk as [_ Hk]]. split_and!; [done | lia |].
  intros i k n f Hi _ Hid Hs Hf. apply list_elem_of_lookup_2 in Hi.
  destruct (ao_recorded s Hok k n f Hi Hf) as (e & He & Heid & <-); [by rewrite Hid |].
  apply last_event_ge; [done | congruence].
Qed.

Lemma act_ok p wd m s : alerts_ok s -> alerts_ok (evaluate_act p wd m s).
Proof.
  intros Hok. unfold evaluate_act. pose proof (evaluator_knows s p Hok) as Hk.
  destruct (evaluator_of s p) as [| | r last seen rules]; try done. cbn in Hk. destruct Hk as (Hr & Hlen & Hk).
  pose proof (evaluateRule_effect wd r m last (as_tables s)) as He.
  destruct (evaluateRule _ _ wd r m last _) as [t n]. cbn [fst snd] in He.
  pose proof (effect_evolves _ _ _ _ _ _ He) as Hev. pose proof (tables_ok _ _ Hev Hok) as Ht.
  apply evaluator_ok.
  { apply Forall_cons in Hr as [_ Hr]. cbn. eapply Forall_impl; [exact Hr |]. intros r'. apply known_rule_mono, Hev. }
  destruct n as [n |]; cbn [option_list map]; [| by rewrite app_nil_r].
  destruct He as (Hn & Hnow & Hcool & He). apply Forall_cons in Hr as [[Hwf Hlt] _].
  apply (notice_ok (set_tables t s) seen n Ht); cbn.
  - rewrite Hn. pose proof (ev_next _ _ Hev). lia.
  - intros f Hf. rewrite Hf in He. destruct He as (e & _ & _ & Hes & Hid & Hfe & _). exists e. rewrite Hes, Hn.
    split_and!; try done. apply elem_of_app. right. by left.
  - done.
  - intros i k n0 Hi Hil Hid Hs f Hf Hpos. rewrite Hn in *. rewrite Hnow.
    pose proof (Hk i k n0 f Hi Hil Hid ltac:(by apply (ev_gone _ _ Hev)) Hf).
    pose proof (not_cooling _ _ _ Hwf Hcool ltac:(lia)). lia.
Qed.

Lemma alert_step_ok s o : alerts_ok s -> alerts_ok (alert_step s o).
Proof.
  intros Hok. destruct o; cbn [alert_step].
  - apply tables_ok; [apply create_evolves | done].
  - apply tables_ok; [apply update_evolves | done].
  - apply tables_ok; [apply delete_evolves | done].
  - unfold evaluate_load. destruct (evaluator_of s p); [| done..]. apply evaluator_ok; [by apply listed_rules | done].
  - by apply read_ok.
  - by apply act_ok.
  - by apply evaluator_ok.
Qed.

Lemma alert_history_ok os : alerts_ok (alert_history os).
Proof.
  unfold alert_history. assert (alerts_ok first_alerts) as H0.
  { split; cbn; try done; by intros ? ?; rewrite lookup_empty. }
  revert H0. generalize first_alerts. induction os as [| o os IH]; intros s H; [done |]. cbn [foldl]. by apply IH, alert_step_ok.
Qed.

(** ** One evaluator *)

(** With one process no notice comes between a read and its notice. *)
Definition alone (p : nat) (s : alert_sys) : Prop :=
  (forall q e, as_evaluators s !! q = Some e -> q = p) /\
  (forall r last seen rules, evaluator_of s p = Deciding r last seen rules -> seen = length (as_notices s)) /\
  (forall j k n, as_notices s !! j = Some (k, n) -> k = j).

Lemma alone_set p e s :
  (forall r last seen rules, e = Deciding r last seen rules -> seen = length (as_notices s)) ->
  (forall q e, as_evaluators s !! q = Some e -> q = p) /\ (forall j k n, as_notices s !! j = Some (k, n) -> k = j) ->
  alone p (set_evaluator p e s).
Proof.
  intros He [Hq Hj]. split_and!; cbn; [| | done].
  - intros q e' [[<- _] | [_ H]]%lookup_insert_Some; [done | by apply (Hq q e')].
  - intros r last seen rules. unfold evaluator_of. cbn. rewrite lookup_insert_eq. cbn. apply He.
Qed.

Lemma alone_step p s o :
  (forall q, process_of o = Some q -> q = p) -> alone p s -> alone p (alert_step s o).
Proof.
  intros Ho (Hq & Hd & Hj). destruct o as [| | | q | q readable | q wd m | q]; cbn [alert_step]; try done;
    rewrite ?(Ho q eq_refl).
  - unfold evaluate_load. destruct (evaluator_of s p) eqn:E; try (split_and!; [done | by rewrite E | done]). by apply alone_set.
  - unfold evaluate_read. destruct (evaluator_of s p) as [| [| r rules] |] eqn:E; try (split_and!; [done | by rewrite E | done]).
    apply alone_set; [| done]. destruct readable; [by intros ???? [= _ _ <- _] | done].
  - unfold evaluate_act. destruct (evaluator_of s p) as [| | r last seen rules] eqn:E; try (split_and!; [done | by rewrite E | done]).
    destruct (evaluateRule _ _ wd r m last _) as [t n]. apply alone_set; [done |]. cbn. split; [done |].
    intros j k n0 H. apply lookup_app_Some in H as [H | [Hge H]]; [by apply (Hj j k n0) |].
    rewrite (Hd _ _ _ _ eq_refl) in H. destruct n as [n |]; cbn in H; [| done].
    apply list_lookup_singleton_Some in H as [H [= <- <-]]. lia.
  - by apply alone_set.
Qed.

Lemma alone_history p os :
  Forall (fun o => forall q, process_of o = Some q -> q = p) os -> alone p (alert_history os).
Proof.
  unfold alert_history. assert (alone p first_alerts) as H0.
  { split_and!; cbn; [by intros ? ?; rewrite lookup_empty | done | done]. }
  revert H0. generalize first_alerts. intros s H0 Hos. revert s H0.
  induction Hos as [| o os Ho _ IH]; intros s H0; [done |]. cbn [foldl]. by apply IH, alone_step.
Qed.

(** C36. Let any number of gateway processes evaluate the rules while the
    administration creates, switches and deletes them, their database operations
    interleaved in any way. Every stored rule has a known trigger, a known channel and
    a positive cooldown. For a rule that is still stored, a notice is given only a
    cooldown or more after every recorded notice of the rule that its process could
    have seen, that is, one given before the process read the rule's latest event.
    When a single process runs an evaluator, these are all the earlier ones, so the
    notices of a rule that follow a recorded one wait for its cooldown. *)
Theorem alerts_respect_the_cooldown (os : list alert_op) :
  let s := alert_history os in
  (forall id r, at_rules (as_tables s) !! id = Some r -> well_formed_rule r) /\
  apart (as_tables s) (as_notices s) /\
  (forall p, Forall (fun o => forall q, process_of o = Some q -> q = p) os ->
   forall i j seen seen' n n', as_notices s !! i = Some (seen, n) -> as_notices s !! j = Some (seen', n') -> (i < j)%nat ->
     al_ID (no_rule n) = al_ID (no_rule n') -> is_Some (at_rules (as_tables s) !! al_ID (no_rule n')) -> waits_for n n').
Proof.
  intros s. pose proof (alert_history_ok os) as Hok. split_and!; [| apply Hok |].
  - intros id r H. apply (ao_rules _ Hok id r H).
  - intros p Hp i j k k' n n' Hi Hj Hij. destruct (alone_history p os Hp) as (_ & _ & Ha).
    apply (ao_apart _ Hok i j k k' n n' Hi Hj). by rewrite (Ha _ _ _ Hj).
Qed.
End History.

(** ** Windows *)

(** A team whose budget runs by the day or by the month is measured over the very
    window in which its budget is enforced; a week starts on a Sunday; and every
    window holds the instant it is asked for. *)
Theorem alert_windows (period : string) (now : Z) :
  (period <> "week" -> windowFor period now = budgetWindow now period) /\
  (let '(start, end_) := windowFor period now in start <= now < end_) /\
  (let start := (windowFor "week" now).1 in exists d, start = d * Day /\ (d + 1) mod 7 = 0 /\ (windowFor "week" now).2 = start + 7 * Day).
Proof.
  assert (day_of now * Day <= now < day_of now * Day + Day) as Hday.
  { unfold day_of. pose proof (Z.mul_div_le now Day ltac:(done)). pose proof (Z.mul_succ_div_gt now Day ltac:(done)). lia. }
  pose proof (Z.mod_pos_bound (day_of now + 1) 7 ltac:(done)) as Hmod.
  split_and!.
  - intros Hp. unfold windowFor, budgetWindow. by rewrite (proj2 (String.eqb_neq _ _) Hp).
  - unfold windowFor. destruct (period =? "day")%string; [change (24 * Hour) with Day; lia |].
    destruct (period =? "week")%string; [change (7 * 24 * Hour) with (7 * Day); unfold Day, Hour, Minute, Second in *; lia |].
    pose proof (month_of_spec (day_of now)) as Hm. destruct (month_of (day_of now)) as [a b]. destruct Hm as [Hm _].
    unfold Day, Hour, Minute, Second in *. lia.
  - cbn. exists (day_of now - (day_of now + 1) mod 7). split_and!; [done | | done].
    replace (day_of now - (day_of now + 1) mod 7 + 1) with ((day_of now + 1) - (day_of now + 1) mod 7) by lia.
    rewrite Zminus_mod, Z.mod_mod, Z.sub_diag by done. done.
Qed.

(** A team with a weekly budget is watched by the week and held to a month: on
    Wednesday, 15 May 2024, the one began on the 12th and the other on the 1st. *)
Lemma weekly_budget_is_enforced_by_the_month :
  let now := (unix_epoch + 1715731200) * Second in
  windowFor "week" now = ((unix_epoch + 1715472000) * Second, (unix_epoch + 1716076800) * Second) /\
  budgetWindow now "week" = ((unix_epoch + 1714521600) * Second, (unix_epoch + 1717200000) * Second).
Proof. by split; vm_compute. Qed.

(** ** Budget rules *)

Section Budgets.
Context (p95 : list Z -> float) (out_of_range : float -> Z).

Lemma over_threshold_whole f q p spend limit : SetFloat64 f = Some q -> (q == inject_Z p)%Q -> over_threshold f spend limit = (p * limit <=? spend * 100).
Proof.
  intros Hf Hq. unfold over_threshold. rewrite Hf, Hq. unfold inject_Z, Qcompare, Qmult. cbn. rewrite !Z.mul_1_r.
  destruct (Z.compare_spec (spend * 100) (p * limit)), (Z.leb_spec (p * limit) (spend * 100)); done || lia.
Qed.

(** A budget rule fires, when it is not cooling and can read its team, exactly when
    the spend of the window is at least the given percentage of the limit, compared
    as whole numbers of micro-cents. *)
Theorem budget_alert_is_exact (wd : alert_world) (r : AlertRule) (m : moments) (t : alert_tables) (id : Z) (team : Team) (cents spend p : Z) (q : Q)
    (Htrigger : al_TriggerType r = "budget_threshold") (Hscope : al_ScopeType r = "team") (Hid : al_ScopeID r = Some id)
    (Hteam : wd_team wd id = Some team) (Hcents : tm_UsdLimitCents team = Some cents) (Hpos : 0 < cents <= 9223372036854)
    (last : Z) (Hread : mo_metric m = true) (Hcool : cooling r (mo_now m) last = false)
    (Hspend : let '(start, end_) := windowFor (tm_Period team) (mo_window m) in SumTeamSpendInWindow (tm_ID team) start end_ (wd_usage wd) = Some spend)
    (Hpct : SetFloat64 (option_of r "threshold_pct" (float_of_Z 80)) = Some q) (Hwhole : (q == inject_Z p)%Q) :
  is_Some (evaluateRule p95 out_of_range wd r m last t).2 <-> p * (cents * MicrocentsPerCent) <= 100 * spend.
Proof.
  unfold evaluateRule. rewrite Hcool, Htrigger. cbn [negb orb String.eqb Ascii.eqb Bool.eqb].
  unfold evaluateBudgetThreshold. rewrite Hid, Hscope, Hread, Hteam, Hcents. cbn [negb orb String.eqb Ascii.eqb Bool.eqb].
  rewrite (proj2 (Z.leb_gt _ _)) by lia. destruct (windowFor _ _) as [start end_]. rewrite Hspend.
  assert (LimitMicrocents cents = Some (cents * MicrocentsPerCent)) as ->.
  { unfold LimitMicrocents. rewrite (proj2 (Z.ltb_ge _ _)) by lia. unfold MaxInt64, MicrocentsPerCent in *.
    change (9223372036854775807 /g 1000000) with 9223372036854. rewrite (proj2 (Z.ltb_ge _ _)) by lia. rewrite wrap64_id by (unfold int64_ok, MinInt64, MaxInt64; lia). done. }
  rewrite (over_threshold_whole _ _ _ _ _ Hpct Hwhole). destruct (Z.leb_spec (p * (cents * MicrocentsPerCent)) (spend * 100)) as [Hle | Hlt].
  - split; [lia |]. intros _. unfold fire. repeat case_match; cbn; eauto.
  - split; [by intros [? [=]] | lia].
Qed.

(** A budget rule without a team is stored and never fires. *)
Lemma unscoped_budget_rule_never_fires wd r m last t :
  al_TriggerType r = "budget_threshold" \/ al_TriggerType r = "budget_exceeded" -> al_ScopeType r <> "team" \/ al_ScopeID r = None ->
  evaluateRule p95 out_of_range wd r m last t = (t, None).
Proof.
  intros Ht Hs. unfold evaluateRule. case_match; [done |].
  assert (forall f, evaluateBudgetThreshold f wd r m t = (t, None)) as H0.
  { intros f. unfold evaluateBudgetThreshold. destruct (al_ScopeID r) as [id |]; [| done]. destruct Hs as [Hs%String.eqb_neq | [=]]. by rewrite Hs. }
  destruct Ht as [-> | ->]; cbn [String.eqb Ascii.eqb Bool.eqb]; apply H0.
Qed.
End Budgets.

(** ** Evaluation *)

Definition alert_team : Team := mkTeam 1 "acme" "Acme" (Some 1000) "day" ["*"] None None None false "optional" 0 None.
Definition alert_usage (micro : Z) : list usage_row := [mkUsageRow "r1" None (mkOwner 1 None None None None) 5 0 (Some micro) "priced" 200].
Definition quiet_world (usage : list usage_row) : alert_world := mkAlertWorld (fun id => if id =? 1 then Some alert_team else None) usage [] [] [].
Definition budget_rule : CreateAlertRuleParams := mkCreateAlertRuleParams "eighty" "team" (Some 1) "budget_threshold" ∅ "webhook" "https://hooks.test" 600.
Definition example_moments (now : Z) : moments := mkMoments now true now "" (Some now).
Definition no_range (f : float) : Z := MinInt64.
Definition no_p95 (l : list Z) : float := S754_zero false.

(** A pass of one process over one rule, without interference. *)
Definition one_pass (p : nat) (wd : alert_world) (m : moments) : list alert_op := [ALoad p; ARead p true; AAct p wd m; AStop p].

(** Eighty percent of ten dollars are reached; the next pass is in the cooldown, a
    later one fires again. *)
Definition budget_alert_ops : list alert_op :=
  ACreate 0 (Some budget_rule) :: one_pass 1 (quiet_world (alert_usage 799999999)) (example_moments 10) ++
  one_pass 1 (quiet_world (alert_usage 800000000)) (example_moments 20) ++
  one_pass 1 (quiet_world (alert_usage 800000000)) (example_moments (20 + 599 * Second)) ++
  one_pass 1 (quiet_world (alert_usage 800000000)) (example_moments (20 + 600 * Second)).

Example budget_alert_example :
  map (fun n => no_now n.2) (as_notices (alert_history no_p95 no_range budget_alert_ops)) = [20; 20 + 600 * Second].
Proof. vm_compute. reflexivity. Qed.

Lemma alerts_respect_the_cooldown_witness :
  exists n n', map snd (as_notices (alert_history no_p95 no_range budget_alert_ops)) = [n; n'] /\
    no_recorded n = Some 20 /\ al_CooldownSeconds (no_rule n') = 600 /\ waits_for n n'.
Proof.
  destruct (alerts_respect_the_cooldown no_p95 no_range budget_alert_ops) as (_ & _ & H).
  eexists _, _. split; [vm_compute; reflexivity |]. split; [reflexivity |]. split; [reflexivity |].
  apply (H 1%nat) with (i := 0%nat) (j := 1%nat) (seen := 0%nat) (seen' := 1%nat);
    [repeat constructor; by intros q [= <-] | vm_compute; reflexivity.. | lia | reflexivity | vm_compute; eauto].
Defined.

(** Two gateways evaluate the same rule. Each reads the latest event before the other
    has recorded its own, and both deliver within one cooldown. *)
Lemma two_gateways_both_notify :
  let wd := quiet_world (alert_usage 800000000) in
  let os := [ACreate 0 (Some budget_rule); ALoad 1; ALoad 2; ARead 1 true; ARead 2 true;
             AAct 1 wd (example_moments 20); AAct 2 wd (example_moments 21)] in
  map (fun n => (al_CooldownSeconds (no_rule n.2), no_recorded n.2)) (as_notices (alert_history no_p95 no_range os)) =
    [(600, Some 20); (600, Some 21)].
Proof. vm_compute. reflexivity. Qed.

Lemma budget_alert_is_exact_witness :
  let r := mkAlertRule 1 "eighty" true "team" (Some 1) "budget_threshold" ∅ "webhook" "https://hooks.test" 600 0 in
  is_Some (evaluateRule no_p95 no_range (quiet_world (alert_usage 800000000)) r (example_moments 20) 0 no_alerts).2 <-> 80 * (1000 * MicrocentsPerCent) <= 100 * 800000000.
Proof.
  intros r. apply (budget_alert_is_exact no_p95 no_range (quiet_world (alert_usage 800000000)) r (example_moments 20) no_alerts 1 alert_team 1000 800000000 80
    (Qmake 5629499534213120 (2 ^ 46))); try reflexivity; lia.
Defined.

(** Without a minimum of requests the error rate of no traffic is not a number: it is
    not below the threshold, and has no JSON, so the event is not stored and every
    pass delivers again. *)
Lemma quiet_error_rate_repeats :
  let zero := {[txt "min_requests" := JNum (S754_zero false)]} in
  let p := mkCreateAlertRuleParams "errors" "global" None "error_rate" zero "webhook" "https://hooks.test" 600 in
  let pass n := one_pass 1 (quiet_world []) (example_moments (n * 30 * Second)) in
  let h := alert_history no_p95 no_range (ACreate 0 (Some p) :: pass 1 ++ pass 2 ++ pass 3) in
  map (fun n => no_recorded n.2) (as_notices h) = [None; None; None] /\ at_events (as_tables h) = [].
Proof. vm_compute. by split. Qed.

(** ** Dollars ([formatMicrocentsUSD]) *)

Definition perDollar : Z := 100 * MicrocentsPerCent.

Definition digit (d : Z) : ascii := ascii_of_nat (Z.to_nat (48 + d)).

(** [strconv.FormatInt] in base ten: an [int64] has at most nineteen digits. *)
Fixpoint digits (fuel : nat) (z : Z) : list ascii :=
  match fuel with
  | O => []
  | S fuel => if z <? 10 then [digit z] else digits fuel (z / 10) ++ [digit (z mod 10)]
  end.
Definition FormatInt (z : Z) : list ascii := if z <? 0 then "-"%char :: digits 19 (- z) else digits 19 z.

(** [%08d] *)
Definition pad8 (z : Z) : list ascii :=
  let ds := digits 19 (Z.abs z) in
  if z <? 0 then "-"%char :: replicate (7 - length ds) "0"%char ++ ds else replicate (8 - length ds) "0"%char ++ ds.

(** The loop that groups the dollars, from the index [i] down. *)
Fixpoint group (fuel : nat) (i : Z) (l : list ascii) : list ascii :=
  match fuel with
  | O => l
  | S fuel => if 0 <? i then group fuel (i - 3) (take (Z.to_nat i) l ++ ","%char :: drop (Z.to_nat i) l) else l
  end.

Fixpoint trim_zeros (l : list ascii) : list ascii := match l with "0"%char :: l => trim_zeros l | _ => l end.
Definition trim_right (l : list ascii) : list ascii := reverse (trim_zeros (reverse l)).

Definition formatMicrocentsUSD (microcents : Z) : list ascii :=
  let dollars := FormatInt (microcents /g perDollar) in
  let dollars := group (length dollars) (Z.of_nat (length dollars) - 3) dollars in
  let fraction := trim_right (pad8 (microcents %g perDollar)) in
  "$"%char :: dollars ++ "."%char :: fraction ++ replicate (2 - length fraction) "0"%char.

Definition usd (s : string) : list ascii := String.list_ascii_of_string s.
Example usd_examples :
  (formatMicrocentsUSD 0, formatMicrocentsUSD 123456789012345678, formatMicrocentsUSD 150000000, formatMicrocentsUSD 1) =
  (usd "$0.00", usd "$1,234,567,890.12345678", usd "$1.50", usd "$0.00000001").
Proof. reflexivity. Qed.

(** Reading an amount back: separators are skipped, the fraction has eight digits. *)
Definition value_of (l : list ascii) : Z := foldl (fun acc c => 10 * acc + (Z.of_nat (nat_of_ascii c) - 48)) 0 l.
Definition no_commas (l : list ascii) : list ascii := List.filter (fun c => negb (Ascii.eqb c ",")) l.
Fixpoint split_point (l : list ascii) : list ascii * list ascii :=
  match l with
  | [] => ([], [])
  | c :: l => if Ascii.eqb c "." then ([], l) else let '(a, b) := split_point l in (c :: a, b)
  end.
Definition read_usd (l : list ascii) : Z :=
  let '(dollars, fraction) := split_point (drop 1 l) in
  value_of (no_commas dollars) * perDollar + value_of (fraction ++ replicate (8 - length fraction) "0"%char).

Definition is_digit (c : ascii) : Prop := exists d, 0 <= d < 10 /\ c = digit d.

Lemma digit_value d : 0 <= d < 10 -> Z.of_nat (nat_of_ascii (digit d)) - 48 = d.
Proof. intros H. unfold digit. rewrite nat_ascii_embedding by lia. lia. Qed.

Lemma is_digit_plain c : is_digit c -> Ascii.eqb c "," = false /\ Ascii.eqb c "." = false.
Proof.
  intros (d & Hd & ->). assert (d = 0 \/ d = 1 \/ d = 2 \/ d = 3 \/ d = 4 \/ d = 5 \/ d = 6 \/ d = 7 \/ d = 8 \/ d = 9) as H by lia.
  by repeat destruct H as [-> | H]; [.. | subst].
Qed.

Lemma digits_are_digits fuel z : 0 <= z -> Forall is_digit (digits fuel z).
Proof.
  revert z. induction fuel as [| fuel IH]; intros z Hz; cbn [digits]; [constructor |]. destruct (Z.ltb_spec z 10).
  - repeat constructor. exists z. split; [lia | done].
  - apply Forall_app. split; [apply IH; apply Z.div_pos; lia |]. repeat constructor. exists (z mod 10). split; [apply Z.mod_pos_bound; lia | done].
Qed.

Lemma value_of_app a b : value_of (a ++ b) = value_of a * 10 ^ Z.of_nat (length b) + value_of b.
Proof.
  unfold value_of. rewrite foldl_app. generalize (foldl (fun acc c => 10 * acc + (Z.of_nat (nat_of_ascii c) - 48)) 0 a). intros x.
  revert x. induction b as [| c b IH] using rev_ind; intros x; [cbn; lia |].
  rewrite !foldl_app, length_app, IH. cbn [foldl length].
  replace (Z.of_nat (length b + 1)) with (Z.of_nat (length b) + 1) by lia. rewrite Z.pow_add_r by lia. lia.
Qed.

Lemma value_zeros n : value_of (replicate n "0"%char) = 0.
Proof. induction n as [| n IH]; [done |]. rewrite replicate_S. change ("0"%char :: replicate n "0"%char) with (["0"%char] ++ replicate n "0"%char). by rewrite value_of_app, IH. Qed.

Lemma value_digits fuel z : 0 <= z < 10 ^ Z.of_nat fuel -> value_of (digits fuel z) = z.
Proof.
  revert z. induction fuel as [| fuel IH]; intros z Hz; [cbn in *; lia |]. cbn [digits]. destruct (Z.ltb_spec z 10).
  - unfold value_of. cbn [foldl]. rewrite digit_value by lia. lia.
  - rewrite Nat2Z.inj_succ, Z.pow_succ_r in Hz by lia. rewrite value_of_app, IH.
    + unfold value_of. cbn [foldl length]. rewrite digit_value by (apply Z.mod_pos_bound; lia). pose proof (Z.div_mod z 10). lia.
    + split; [apply Z.div_pos; lia | apply Z.div_lt_upper_bound; lia].
Qed.

Lemma length_digits fuel n z : 0 <= z < 10 ^ Z.of_nat n -> (1 <= n)%nat -> (length (digits fuel z) <= n)%nat.
Proof.
  revert n z. induction fuel as [| fuel IH]; intros n z Hz Hn; cbn [digits]; [cbn; lia |]. destruct (Z.ltb_spec z 10); [done |].
  rewrite length_app. cbn. destruct n as [| [| n]]; [lia | cbn in Hz; lia |].
  rewrite Nat2Z.inj_succ, Z.pow_succ_r in Hz by lia.
  specialize (IH (S n) (z / 10)). assert (0 <= z / 10 < 10 ^ Z.of_nat (S n)) as Hd; [| specialize (IH Hd); lia].
  split; [apply Z.div_pos; lia | apply Z.div_lt_upper_bound; lia].
Qed.

Lemma no_commas_app a b : no_commas (a ++ b) = no_commas a ++ no_commas b.
Proof. apply List.filter_app. Qed.

Lemma no_commas_group fuel i l : no_commas (group fuel i l) = no_commas l.
Proof.
  revert i l. induction fuel as [| fuel IH]; intros i l; cbn [group]; [done |]. destruct (0 <? i); [| done].
  rewrite IH, no_commas_app. cbn. by rewrite <- no_commas_app, take_drop.
Qed.

Definition plain_char (c : ascii) : Prop := Ascii.eqb c "." = false.

Lemma group_plain fuel i l : Forall plain_char l -> Forall plain_char (group fuel i l).
Proof.
  revert i l. induction fuel as [| fuel IH]; intros i l Hl; cbn [group]; [done |]. destruct (0 <? i); [| done].
  apply IH, Forall_app. split; [by apply Forall_take |]. constructor; [done | by apply Forall_drop].
Qed.

Lemma split_point_app a b : Forall plain_char a -> split_point (a ++ "."%char :: b) = (a, b).
Proof. induction 1 as [| c a Hc _ IH]; [done |]. cbn. by rewrite Hc, IH. Qed.

Lemma no_commas_digits l : Forall is_digit l -> no_commas l = l.
Proof. induction 1 as [| c l Hc _ IH]; [done |]. cbn. rewrite (proj1 (is_digit_plain c Hc)). cbn. by f_equal. Qed.

Lemma trim_zeros_spec l : exists n, l = replicate n "0"%char ++ trim_zeros l.
Proof.
  induction l as [| c l [n IH]]; [by exists 0%nat |]. destruct (decide (c = "0"%char)) as [-> | Hc].
  - exists (S n). cbn. by f_equal.
  - exists 0%nat. cbn. repeat case_match; subst; done.
Qed.

Lemma trim_right_spec l : exists n, l = trim_right l ++ replicate n "0"%char.
Proof.
  destruct (trim_zeros_spec (reverse l)) as [n Hn]. exists n. unfold trim_right.
  apply (f_equal reverse) in Hn. rewrite reverse_involutive, reverse_app, reverse_replicate in Hn. exact Hn.
Qed.

(** Eight digits come back from what was trimmed and padded to two. *)
Lemma fraction_back l : length l = 8%nat ->
  let f := trim_right l ++ replicate (2 - length (trim_right l)) "0"%char in f ++ replicate (8 - length f) "0"%char = l.
Proof.
  intros Hl f. destruct (trim_right_spec l) as [n Hn]. unfold f.
  rewrite <- app_assoc, <- replicate_add, length_app, length_replicate.
  assert (length (trim_right l) + n = 8)%nat as Hlen by (rewrite Hn, length_app, length_replicate in Hl; lia).
  etransitivity; [| symmetry; exact Hn]. f_equal. f_equal. lia.
Qed.

(** The dollars of an alert are exact: reading the text back, separators skipped,
    gives the amount in micro-cents. *)
Theorem usd_roundtrip (m : Z) (Hm : 0 <= m <= MaxInt64) : read_usd (formatMicrocentsUSD m) = m.
Proof.
  unfold formatMicrocentsUSD, read_usd. rewrite skipn_cons, drop_0.
  change perDollar with 100000000. unfold MaxInt64 in Hm.
  rewrite Z.quot_div_nonneg, Z.rem_mod_nonneg by lia.
  assert (0 <= m / 100000000 < 10 ^ Z.of_nat 19) as Hd by (split; [apply Z.div_pos; lia | apply Z.div_lt_upper_bound; cbn; lia]).
  pose proof (Z.mod_pos_bound m 100000000 ltac:(done)) as Hf.
  set (ds := FormatInt (m / 100000000)). set (fs := pad8 (m mod 100000000)).
  assert (ds = digits 19 (m / 100000000)) as Hds by (unfold ds, FormatInt; by rewrite (proj2 (Z.ltb_ge _ _)) by lia).
  assert (Forall is_digit ds) as Hdig by (rewrite Hds; apply digits_are_digits; lia).
  rewrite split_point_app.
  2: { apply group_plain. eapply Forall_impl; [exact Hdig |]. intros c Hc. by apply is_digit_plain. }
  assert (fs = replicate (8 - length (digits 19 (m mod 100000000))) "0"%char ++ digits 19 (m mod 100000000)) as Hfs.
  { unfold fs, pad8. rewrite (proj2 (Z.ltb_ge _ _)) by lia. by rewrite Z.abs_eq by lia. }
  pose proof (length_digits 19 8 (m mod 100000000) ltac:(cbn; lia) ltac:(lia)) as Hlen.
  rewrite fraction_back by (rewrite Hfs, length_app, length_replicate; lia).
  rewrite no_commas_group, no_commas_digits by done. rewrite Hds, value_digits by done.
  rewrite Hfs, value_of_app, value_zeros, value_digits by (cbn; lia). pose proof (Z.div_mod m 100000000). lia.
Qed.

Lemma usd_roundtrip_witness : formatMicrocentsUSD 1234567890 = usd "$12.3456789" /\ read_usd (formatMicrocentsUSD 1234567890) = 1234567890.
Proof. split; [reflexivity |]. apply (usd_roundtrip 1234567890). unfold MaxInt64. lia. Defined.

Lemma alert_windows_witness : windowFor "day" 5 = budgetWindow 5 "day".
Proof. apply (alert_windows "day" 5). discriminate. Defined.
