(* ===== verification/Catalog.v ===== *)
(** * Deployments, aliases and prices ([internal/store/deployments.go],
    [internal/store/aliases.go], [internal/store/budgets.go],
    [internal/api/admin.go], the synchronisation of [internal/server/server.go])

    The tables that routing and pricing read, the statements that change them, the
    administration's handlers and the start of a server that applies its
    configuration. A handler that changes deployments or aliases reloads the
    registry of its replica: [refreshRegistry] feeds [Registry.Refresh] with the
    rows of the tables. *)

From S2P Require Import Prelude GoStrings Streaming Limits Concurrency Models Providers Breaker Router Registry Money Budget Redis Gateway Passthrough.

Abbreviation answer := (Z * string)%type.

(** ** Tables *)

(** A row of [model_aliases] and of [alias_deployments]. *)
Record alias_row := mkAlias {
  ar_ID : Z;
  ar_CacheEnabled : bool;
  ar_CacheTTLSeconds : Z;
  ar_Strategy : string;
  ar_StrategyOptions : gmap string any;
}.
Record link := mkLink { ln_alias : Z; ln_deployment : Z; ln_priority : Z; ln_weight : Z }.

(** Deployments and aliases by their unique names, and the sequences. *)
Record catalog := mkCatalog {
  ct_deployments : gmap string Deployment;
  ct_aliases : gmap string alias_row;
  ct_links : list link;
  ct_pricing : list Pricing;
  ct_next_deployment : Z;
  ct_next_alias : Z;
}.

Definition empty_catalog : catalog := mkCatalog ∅ ∅ [] [] 1 1.

Definition with_deployments (m : gmap string Deployment) (t : catalog) : catalog :=
  mkCatalog m (ct_aliases t) (ct_links t) (ct_pricing t) (ct_next_deployment t) (ct_next_alias t).
Definition with_aliases (m : gmap string alias_row) (t : catalog) : catalog :=
  mkCatalog (ct_deployments t) m (ct_links t) (ct_pricing t) (ct_next_deployment t) (ct_next_alias t).
Definition with_links (l : list link) (t : catalog) : catalog :=
  mkCatalog (ct_deployments t) (ct_aliases t) l (ct_pricing t) (ct_next_deployment t) (ct_next_alias t).

Inductive catalog_error := CatalogNotFound | CatalogFailed.

(** *** Deployments *)

(** The columns of an upsert; [u_streaming] is the variadic argument. *)
Record upsert := mkUpsert {
  u_name : string;
  u_type : string;
  u_model : string;
  u_credential : string;
  u_base_url : option string;
  u_region : option string;
  u_capabilities : option DeploymentCapabilities;
  u_max_parallel : option Z;
  u_streaming : option (option StreamingConfig);
}.

Definition GetDeploymentByName (name : string) (t : catalog) : option Deployment := ct_deployments t !! name.

(** A new row takes the defaults of the other columns; an existing one keeps them. *)
Definition upserted (u : upsert) (id : Z) (old : option Deployment) : Deployment :=
  mkDeployment (from_option dep_ID id old) (u_name u) (u_type u) (u_model u) (u_credential u) (u_base_url u) (u_region u)
    (from_option dep_Enabled true old) (from_option dep_Weight 1 old) (u_max_parallel u) (from_option dep_Tags [] old) (u_capabilities u)
    (match u_streaming u with Some s => s | None => old ≫= dep_Streaming end).

(** The statement fails on settings that are not valid and on a limit the table's
    check refuses; the sequence moves on in any case. *)
Definition UpsertDeployment (u : upsert) (t : catalog) : catalog * result catalog_error Deployment :=
  let valid := match u_streaming u with Some (Some s) => ValidateStreaming s | _ => true end in
  if negb valid then (t, Err CatalogFailed)
  else
    let d := upserted u (ct_next_deployment t) (ct_deployments t !! u_name u) in
    let ok := match u_max_parallel u with Some n => (0 <? n) && (n <=? 2147483647) | None => true end in
    (mkCatalog (if ok then <[u_name u := d]> (ct_deployments t) else ct_deployments t) (ct_aliases t) (ct_links t) (ct_pricing t)
       (ct_next_deployment t + 1) (ct_next_alias t),
     if ok then Ok d else Err CatalogFailed).

Definition set_tags (tags : list string) (d : Deployment) : Deployment :=
  mkDeployment (dep_ID d) (dep_Name d) (dep_ProviderType d) (dep_UpstreamModel d) (dep_CredentialRef d) (dep_BaseURL d) (dep_Region d)
    (dep_Enabled d) (dep_Weight d) (dep_MaxParallelRequests d) tags (dep_Capabilities d) (dep_Streaming d).

Definition UpdateDeploymentTags (name : string) (tags : list string) (t : catalog) : catalog * result catalog_error unit :=
  match ct_deployments t !! name with
  | Some d => (with_deployments (<[name := set_tags tags d]> (ct_deployments t)) t, Ok tt)
  | None => (t, Err CatalogNotFound)
  end.

(** The links of a deployment go with it. *)
Definition DeleteDeployment (name : string) (t : catalog) : catalog * result catalog_error unit :=
  match ct_deployments t !! name with
  | Some d => (with_links (List.filter (fun l => negb (ln_deployment l =? dep_ID d)) (ct_links t)) (with_deployments (delete name (ct_deployments t)) t), Ok tt)
  | None => (t, Err CatalogNotFound)
  end.

(** *** Aliases *)

(** The links of an upsert: the position is the priority. A name that comes twice
    violates the key of the table. *)
Definition new_links (alias : Z) (deps : gmap string Deployment) (names : list string) : list link :=
  concat (imap (fun i name => match deps !! name with Some d => [mkLink alias (dep_ID d) (Z.of_nat i) 1] | None => [] end) names).

(** One transaction: an error leaves the tables as they were, up to the sequence. *)
Definition UpsertAlias (alias : string) (names : list string) (t : catalog) : catalog * result catalog_error unit :=
  if bool_decide (names = []) || negb (forallb (fun n => bool_decide (is_Some (ct_deployments t !! n))) names) then (t, Err CatalogFailed)
  else
    let row := default (mkAlias (ct_next_alias t) false 0 "priority" ∅) (ct_aliases t !! alias) in
    if negb (bool_decide (NoDup names))
    then (mkCatalog (ct_deployments t) (ct_aliases t) (ct_links t) (ct_pricing t) (ct_next_deployment t) (ct_next_alias t + 1), Err CatalogFailed)
    else
      (mkCatalog (ct_deployments t) (<[alias := row]> (ct_aliases t))
         (List.filter (fun l => negb (ln_alias l =? ar_ID row)) (ct_links t) ++ new_links (ar_ID row) (ct_deployments t) names)
         (ct_pricing t) (ct_next_deployment t) (ct_next_alias t + 1), Ok tt).

Definition store_UpdateAliasStrategy (alias strategy : string) (options : gmap string any) (t : catalog) : catalog * result catalog_error unit :=
  match ct_aliases t !! alias with
  | Some a => (with_aliases (<[alias := mkAlias (ar_ID a) (ar_CacheEnabled a) (ar_CacheTTLSeconds a) (if (strategy =? "")%string then "priority" else strategy) options]> (ct_aliases t)) t, Ok tt)
  | None => (t, Err CatalogNotFound)
  end.

Definition UpdateAliasCacheSettings (alias : string) (enabled : bool) (ttl : Z) (t : catalog) : catalog * result catalog_error unit :=
  match ct_aliases t !! alias with
  | Some a =>
      if (ttl <? -2147483648) || (2147483647 <? ttl) then (t, Err CatalogFailed)
      else (with_aliases (<[alias := mkAlias (ar_ID a) enabled ttl (ar_Strategy a) (ar_StrategyOptions a)]> (ct_aliases t)) t, Ok tt)
  | None => (t, Err CatalogNotFound)
  end.

Definition store_DeleteAlias (alias : string) (t : catalog) : catalog * result catalog_error unit :=
  match ct_aliases t !! alias with
  | Some a => (with_links (List.filter (fun l => negb (ln_alias l =? ar_ID a)) (ct_links t)) (with_aliases (delete alias (ct_aliases t)) t), Ok tt)
  | None => (t, Err CatalogNotFound)
  end.

(** *** Prices *)

(** A row per change; two changes of a pair at one instant violate the key. *)
Definition store_UpsertPricing (now : Z) (p : Pricing) (t : catalog) : catalog * result catalog_error Pricing :=
  let p := mkPricing (Tiers p) (p_ProviderType p) (p_UpstreamModel p) (InputPerMillionCents p) (OutputPerMillionCents p) now in
  if negb (is_ok (PricingTiers_Validate (Tiers p))) || (InputPerMillionCents p <? 0) || (OutputPerMillionCents p <? 0) ||
     existsb (fun q => (p_ProviderType q =? p_ProviderType p)%string && (p_UpstreamModel q =? p_UpstreamModel p)%string && (EffectiveAt q =? now)) (ct_pricing t)
  then (t, Err CatalogFailed)
  else (mkCatalog (ct_deployments t) (ct_aliases t) (ct_links t) (ct_pricing t ++ [p]) (ct_next_deployment t) (ct_next_alias t), Ok p).

(** ** What routing loads *)

Definition by_name (a b : Deployment) : Prop := String.leb (dep_Name a) (dep_Name b) = true.
#[export] Instance by_name_dec : RelDecision by_name.
Proof. intros a b. unfold by_name. apply _. Defined.

Definition ListDeployments (t : catalog) : list Deployment := merge_sort by_name (map snd (map_to_list (ct_deployments t))).

(** [ORDER BY ad.priority, d.name] *)
Definition target_le (a b : AliasTarget) : Prop :=
  at_Priority a < at_Priority b \/ at_Priority a = at_Priority b /\ String.leb (at_Deployment a) (at_Deployment b) = true.
#[export] Instance target_le_dec : RelDecision target_le.
Proof. intros a b. unfold target_le. apply _. Defined.

Definition deployment_of_id (id : Z) (t : catalog) : option Deployment := find (fun d => dep_ID d =? id) (map snd (map_to_list (ct_deployments t))).

(** The targets of an alias: its links joined with the deployments. *)
Definition targets_of (a : alias_row) (t : catalog) : list AliasTarget :=
  merge_sort target_le (omap (fun l =>
    if ln_alias l =? ar_ID a
    then d ← deployment_of_id (ln_deployment l) t; Some (mkAliasTargetRow (dep_Name d) (ln_priority l) (if ln_weight l <=? 0 then 1 else ln_weight l))
    else None) (ct_links t)).

Definition alias_with_deployments (t : catalog) (na : string * alias_row) : AliasWithDeployments :=
  let targets := targets_of na.2 t in
  mkAliasRow na.1 (map at_Deployment targets) targets (ar_CacheEnabled na.2) (ar_CacheTTLSeconds na.2) (ar_Strategy na.2) (ar_StrategyOptions na.2).

Definition alias_le (a b : AliasWithDeployments) : Prop := String.leb (al_Alias a) (al_Alias b) = true.
#[export] Instance alias_le_dec : RelDecision alias_le.
Proof. intros a b. unfold alias_le. apply _. Defined.

Definition ListAliasesWithDeployments (t : catalog) : list AliasWithDeployments :=
  merge_sort alias_le (alias_with_deployments t <$> map_to_list (ct_aliases t)).

(** [DISTINCT ON (provider_type, upstream_model)], the latest first. *)
Definition pricing_pairs (rows : list Pricing) : list (string * string) :=
  elements (list_to_set (map (fun p => (p_ProviderType p, p_UpstreamModel p)) rows) : gset (string * string)).
Definition ListCurrentPricing (t : catalog) : list Pricing :=
  omap (fun pm => GetCurrentPricing pm.1 pm.2 (ct_pricing t)) (pricing_pairs (ct_pricing t)).
Definition pricing_rows (t : catalog) : list PricingRow :=
  map (fun p => mkPricingRow (p_ProviderType p) (p_UpstreamModel p) (InputPerMillionCents p)) (ListCurrentPricing t).

(** ** The administration ([api/admin.go]) *)

(** How a handler ends: the tables, the answer, and whether it reloads the
    registry. *)
Abbreviation handled := (catalog * answer * bool)%type.

Definition supportedProviderTypes : list string :=
  ["openai"; "azure_openai"; "anthropic"; "openai_compatible"; "ollama"; "vllm"; "mistral"; "groq"; "together"; "fireworks"; "openrouter"; "cohere"; "bedrock";
   "vertex"; "gemini"].

Definition providerNeedsCredential (providerType : string) : bool := negb (bool_decide (providerType ∈ ["openai_compatible"; "ollama"; "vllm"])).

Record DeploymentRequest := mkDeploymentRequest {
  dr_Name : string;
  dr_ProviderType : string;
  dr_UpstreamModel : string;
  dr_CredentialRef : string;
  dr_BaseURL : option string;
  dr_Region : option string;
  dr_MaxParallelRequests : option Z;
  dr_SupportsChat : option bool;
  dr_SupportsStreamChat : option bool;
  dr_SupportsEmbeddings : option bool;
  dr_SupportsResponses : option bool;
  (** [None] when there is no such member; its value is [None] for [null]. *)
  dr_Streaming : option (option StreamingConfig);
}.

Definition boolPtrOrFalse (p : option bool) : bool := default false p.
Definition nonEmptyStringPtr (s : string) : option string := if (s =? "")%string then None else Some s.
Definition positiveIntPtr (p : option Z) : option Z := match p with Some 0 => None | p => p end.

(** The checks both handlers make. *)
Definition deployment_request_ok (providerType credential : string) (maxParallel : option Z) : bool :=
  bool_decide (providerType ∈ supportedProviderTypes) && negb (providerNeedsCredential providerType && (credential =? "")%string) &&
  negb match maxParallel with Some n => n <? 0 | None => false end.

Definition given (r : DeploymentRequest) : bool :=
  bool_decide (is_Some (dr_SupportsChat r)) || bool_decide (is_Some (dr_SupportsStreamChat r)) || bool_decide (is_Some (dr_SupportsEmbeddings r)).

Definition explicit_capabilities (responses : option bool) (r : DeploymentRequest) : DeploymentCapabilities :=
  mkDeploymentCapabilities responses (boolPtrOrFalse (dr_SupportsChat r)) (boolPtrOrFalse (dr_SupportsStreamChat r)) (boolPtrOrFalse (dr_SupportsEmbeddings r))
    false false false false false false.

(** A body that does not decode is [None]. *)
Definition CreateDeployment (req : option DeploymentRequest) (t : catalog) : handled :=
  match req with
  | None => (t, (400, "invalid_request"), false)
  | Some r =>
      if (dr_Name r =? "")%string || (dr_ProviderType r =? "")%string || (dr_UpstreamModel r =? "")%string ||
         negb (deployment_request_ok (dr_ProviderType r) (dr_CredentialRef r) (dr_MaxParallelRequests r))
      then (t, (400, "invalid_request"), false)
      else
        let caps := if given r || bool_decide (is_Some (dr_SupportsResponses r)) then Some (explicit_capabilities (dr_SupportsResponses r) r) else None in
        match UpsertDeployment (mkUpsert (dr_Name r) (dr_ProviderType r) (dr_UpstreamModel r) (dr_CredentialRef r)
                (dr_BaseURL r ≫= nonEmptyStringPtr) (dr_Region r ≫= nonEmptyStringPtr) caps (positiveIntPtr (dr_MaxParallelRequests r))
                (Some (default None (dr_Streaming r)))) t with
        | (t, Ok _) => (t, (201, "created"), true)
        | (t, Err _) => (t, (500, "internal_error"), false)
        end
  end.

Definition or_existing (s existing : string) : string := if (s =? "")%string then existing else s.

(** The capabilities of an update. *)
Definition updated_capabilities (r : DeploymentRequest) (providerType : string) (existing : option DeploymentCapabilities) : option DeploymentCapabilities :=
  let caps := if given r then Some (explicit_capabilities (existing ≫= dc_Responses) r) else existing in
  match dr_SupportsResponses r with
  | None => caps
  | Some _ =>
      let d := DefaultCapabilities providerType in
      let c := default (mkDeploymentCapabilities None (cap_Chat d) (cap_StreamChat d) (cap_Embeddings d) false false false false false false) caps in
      Some (mkDeploymentCapabilities (dr_SupportsResponses r) (dc_Chat c) (dc_StreamChat c) (dc_Embeddings c) (dc_Moderation c) (dc_Rerank c) (dc_Images c)
              (dc_AudioTranscribe c) (dc_AudioSpeech c) (dc_MessagesPassthrough c))
  end.

Definition UpdateDeployment (name : string) (req : option DeploymentRequest) (t : catalog) : handled :=
  match GetDeploymentByName name t with
  | None => (t, (404, "not_found"), false)
  | Some existing =>
      match req with
      | None => (t, (400, "invalid_request"), false)
      | Some r =>
          let providerType := or_existing (dr_ProviderType r) (dep_ProviderType existing) in
          let model := or_existing (dr_UpstreamModel r) (dep_UpstreamModel existing) in
          let credential := or_existing (dr_CredentialRef r) (dep_CredentialRef existing) in
          if negb (deployment_request_ok providerType credential (dr_MaxParallelRequests r)) then (t, (400, "invalid_request"), false)
          else
            match UpsertDeployment (mkUpsert name providerType model credential
                    (match dr_BaseURL r with Some s => nonEmptyStringPtr s | None => dep_BaseURL existing end)
                    (match dr_Region r with Some s => nonEmptyStringPtr s | None => dep_Region existing end)
                    (updated_capabilities r providerType (dep_Capabilities existing))
                    (match dr_MaxParallelRequests r with Some _ => positiveIntPtr (dr_MaxParallelRequests r) | None => dep_MaxParallelRequests existing end)
                    (Some (match dr_Streaming r with Some s => s | None => dep_Streaming existing end))) t with
            | (t, Ok _) => (t, (200, "ok"), true)
            | (t, Err _) => (t, (500, "internal_error"), false)
            end
      end
  end.

Definition answer_of (ok : answer) (r : catalog * result catalog_error unit) : handled :=
  match r with
  | (t, Ok _) => (t, ok, true)
  | (t, Err CatalogNotFound) => (t, (404, "not_found"), false)
  | (t, Err CatalogFailed) => (t, (500, "internal_error"), false)
  end.

Definition admin_DeleteDeployment (name : string) (t : catalog) : handled := answer_of (204, "") (DeleteDeployment name t).

Definition UpdateDeploymentTagsHandler (name : string) (tags : option (list string)) (t : catalog) : handled :=
  match tags with None => (t, (400, "invalid_request"), false) | Some tags => answer_of (200, "ok") (UpdateDeploymentTags name tags t) end.

Definition UpdateAliasStrategy (alias : string) (req : option (string * gmap string any)) (t : catalog) : handled :=
  match req with
  | None => (t, (400, "invalid_request"), false)
  | Some (strategy, options) =>
      if bool_decide (strategy ∈ [""; "priority"; "tagged"; "region"; "cost"; "latency"])
      then answer_of (200, "ok") (store_UpdateAliasStrategy alias strategy options t)
      else (t, (400, "invalid_request"), false)
  end.

Definition UpdateAliasCache (alias : string) (req : option (bool * Z)) (t : catalog) : handled :=
  match req with
  | None => (t, (400, "invalid_request"), false)
  | Some (enabled, ttl) =>
      if enabled && (ttl <=? 0) then (t, (400, "invalid_request"), false) else answer_of (200, "ok") (UpdateAliasCacheSettings alias enabled ttl t)
  end.

(** Every error of the store is answered as the caller's. *)
Definition admin_UpsertAlias (req : option (string * list string)) (t : catalog) : handled :=
  match req with
  | None => (t, (400, "invalid_request"), false)
  | Some (alias, names) =>
      if (alias =? "")%string || bool_decide (names = []) then (t, (400, "invalid_request"), false)
      else match UpsertAlias alias names t with
           | (t, Ok _) => (t, (201, "created"), true)
           | (t, Err _) => (t, (400, "invalid_request"), false)
           end
  end.

Definition DeleteAlias (alias : string) (t : catalog) : handled := answer_of (204, "") (store_DeleteAlias alias t).

(** The registry is not reloaded. *)
Definition UpsertPricing (now : Z) (req : option Pricing) (t : catalog) : handled :=
  match req with
  | None => (t, (400, "invalid_request"), false)
  | Some p =>
      if (p_ProviderType p =? "")%string || (p_UpstreamModel p =? "")%string || (InputPerMillionCents p <? 0) || (OutputPerMillionCents p <? 0) ||
         negb (is_ok (PricingTiers_Validate (Tiers p)))
      then (t, (400, "invalid_request"), false)
      else match store_UpsertPricing now p t with
           | (t, Ok _) => (t, (201, "created"), false)
           | (t, Err _) => (t, (500, "internal_error"), false)
           end
  end.

(** ** The start of a server ([New] of [server/server.go]) *)

Record DeploymentConfig := mkDeploymentConfig {
  dcf_Name : string;
  dcf_Type : string;
  dcf_UpstreamModel : string;
  dcf_APIKeyEnv : string;
  dcf_BaseURL : string;
  dcf_Region : string;
  dcf_MaxParallelRequests : Z;
  dcf_Streaming : option StreamingConfig;
}.

Definition config_upsert (d : DeploymentConfig) : upsert :=
  mkUpsert (dcf_Name d) (dcf_Type d) (dcf_UpstreamModel d) (dcf_APIKeyEnv d) (nonEmptyStringPtr (dcf_BaseURL d)) (nonEmptyStringPtr (dcf_Region d))
    None (if 0 <? dcf_MaxParallelRequests d then Some (dcf_MaxParallelRequests d) else None) (Some (dcf_Streaming d)).

Fixpoint sync_deployments (ds : list DeploymentConfig) (t : catalog) : catalog * bool :=
  match ds with
  | [] => (t, true)
  | d :: ds => match UpsertDeployment (config_upsert d) t with (t, Ok _) => sync_deployments ds t | (t, Err _) => (t, false) end
  end.

Fixpoint sync_aliases (al : list (string * list string)) (t : catalog) : catalog * bool :=
  match al with
  | [] => (t, true)
  | (a, names) :: al => match UpsertAlias a names t with (t, Ok _) => sync_aliases al t | (t, Err _) => (t, false) end
  end.

(** Both loops; the server does not start when one of them fails. *)
Definition sync (ds : list DeploymentConfig) (al : list (string * list string)) (t : catalog) : catalog * bool :=
  match sync_deployments ds t with (t, true) => sync_aliases al t | (t, false) => (t, false) end.

(** ** Reloading *)

(** What the loads of a refresh meet. *)
Record refresh_env := mkRefreshEnv {
  rf_now : Z;
  rf_policies : result string (list RoutingConcurrencyLimit);
  rf_customers : result string (list RoutingConcurrencyLimit);
  rf_deployments : bool;
  rf_aliases : bool;
  rf_pricing : bool;
}.

Definition loaded {A} (ok : bool) (rows : A) : result string A := if ok then Ok rows else Err "load failed".

Section Refresh.
Context {B : Type} `{BreakerStore B}.
Variable getenv : string -> string.
Variable routingIdentity : Deployment -> string.
Variable cloud_client : Deployment -> bool.

Definition refreshRegistry (e : refresh_env) (t : catalog) (cr : concurrencyPolicies * Registry B) : concurrencyPolicies * Registry B :=
  (Refresh getenv routingIdentity cloud_client (rf_now e) (rf_policies e) (rf_customers e) (loaded (rf_deployments e) (ListDeployments t))
     (loaded (rf_aliases e) (ListAliasesWithDeployments t)) (loaded (rf_pricing e) (pricing_rows t)) cr.1 cr.2).1.

(** A handler and its reload. *)
Definition administer (e : refresh_env) (h : catalog -> handled) (s : catalog * (concurrencyPolicies * Registry B)) :
    catalog * (concurrencyPolicies * Registry B) * answer :=
  let '(t, a, reload) := h s.1 in ((t, if reload then refreshRegistry e t s.2 else s.2), a).

End Refresh.

(** ** The registry mirrors the tables *)

(** Rows loaded one by one into a map. *)
Section Loading.
Context {A V : Type} (k : A -> string) (f : A -> V).

Definition load_rows (l : list A) (acc : gmap string V) : gmap string V := foldl (fun acc x => <[k x := f x]> acc) acc l.

Lemma load_rows_lookup l acc n :
  NoDup (k <$> l) -> load_rows l acc !! n = match find (fun x => (k x =? n)%string) l with Some x => Some (f x) | None => acc !! n end.
Proof.
  revert acc. induction l as [| x l IH]; intros acc Hd; [done |]. rewrite fmap_cons, NoDup_cons in Hd. destruct Hd as [Hx Hd].
  cbn [load_rows foldl find]. change (foldl (fun acc x => <[k x := f x]> acc) ?a l) with (load_rows l a). rewrite IH by done.
  destruct (String.eqb_spec (k x) n) as [<- | Hne].
  - destruct (find _ l) as [y |] eqn:E; [| by rewrite lookup_insert_eq]. exfalso. apply find_some in E as [Hy E%String.eqb_eq].
    apply Hx. rewrite <- E. apply list_elem_of_fmap. exists y. split; [done |]. by apply list_elem_of_In.
  - by rewrite lookup_insert_ne.
Qed.
End Loading.

(** The rows of a table, in any order, give its map back. *)
Lemma load_table {X A V} (k : A -> string) (f : A -> V) (g : string * X -> A) (m : gmap string X) (l : list A) (n : string) :
  (forall n x, m !! n = Some x -> k (g (n, x)) = n) -> l ≡ₚ g <$> map_to_list m -> load_rows k f l ∅ !! n = (fun x => f (g (n, x))) <$> m !! n.
Proof.
  intros Hk Hl.
  assert (k <$> l ≡ₚ (map_to_list m).*1) as Hkeys.
  { rewrite Hl, <- list_fmap_compose. apply reflexive_eq. apply list_fmap_ext. intros i [n' x] Hi. cbn. apply Hk.
    apply elem_of_map_to_list. by eapply list_elem_of_lookup_2. }
  rewrite load_rows_lookup by (rewrite Hkeys; apply NoDup_fst_map_to_list). rewrite lookup_empty.
  destruct (find (fun x => (k x =? n)%string) l) as [y |] eqn:E.
  - apply find_some in E as [Hy%list_elem_of_In E%String.eqb_eq]. rewrite Hl in Hy. apply list_elem_of_fmap in Hy as ([n' x] & -> & Hx%elem_of_map_to_list).
    rewrite (Hk _ _ Hx) in E. subst n'. by rewrite Hx.
  - destruct (m !! n) as [x |] eqn:Ex; [| done]. exfalso.
    assert (g (n, x) ∈ l) as Hx by (rewrite Hl; apply list_elem_of_fmap; exists (n, x); split; [done | by apply elem_of_map_to_list]).
    apply list_elem_of_In in Hx. pose proof (find_none _ _ E _ Hx) as E'. cbn in E'. by rewrite (Hk _ _ Ex), String.eqb_refl in E'.
Qed.

Section Mirror.
Context {B : Type} `{BreakerStore B}.
Variable getenv : string -> string.
Variable routingIdentity : Deployment -> string.
Variable cloud_client : Deployment -> bool.

Lemma load_deployments_rows ds acc : (load_deployments getenv routingIdentity cloud_client ds acc).1.1 = load_rows dep_Name (fun d => d) ds acc.1.1.
Proof. revert acc. induction ds as [| d ds IH]; intros [[m1 m2] m3]; [done |]. cbn [load_deployments load_rows foldl]. by rewrite IH. Qed.

Lemma load_aliases_rows al acc : (load_aliases al acc).1 = load_rows al_Alias alias_targets al acc.1.
Proof. revert acc. induction al as [| a al IH]; intros [m1 m2]; [done |]. cbn [load_aliases load_rows foldl]. by rewrite IH. Qed.

Definition routed (t : AliasTarget) : aliasTarget := mkAliasTarget (at_Deployment t) (at_Priority t) (at_Weight t).

(** All loads of a refresh succeed. *)
Definition loads_ok (e : refresh_env) : Prop := is_ok (rf_policies e) = true /\ is_ok (rf_customers e) = true /\ rf_deployments e = true /\ rf_aliases e = true.

Lemma refresh_mirrors e t (cr : concurrencyPolicies * Registry B) :
  loads_ok e -> (forall n d, ct_deployments t !! n = Some d -> dep_Name d = n) ->
  let r := (refreshRegistry getenv routingIdentity cloud_client e t cr).2 in
  rg_deployments r = ct_deployments t /\ forall a, rg_aliases r !! a = (fun row => routed <$> targets_of row t) <$> ct_aliases t !! a.
Proof.
  intros (Hp & Hc & Hd & Ha) Hnames. unfold refreshRegistry, Refresh, loaded. rewrite Hd, Ha. unfold RefreshConcurrencyPolicies.
  destruct (rf_policies e); [| done]. destruct (rf_customers e); [| done]. cbn [fst snd].
  pose proof (load_deployments_rows (ListDeployments t) (∅, ∅, ∅)) as H1.
  pose proof (load_aliases_rows (ListAliasesWithDeployments t) (∅, ∅)) as H2.
  destruct (load_deployments _ _ _ _ _) as [[newDep newId] newProv]. destruct (load_aliases _ _) as [newAliases newMeta]. cbn in *. subst.
  split.
  - apply map_eq. intros n. rewrite (load_table _ _ snd (ct_deployments t)); [by destruct (ct_deployments t !! n) | | apply merge_sort_Permutation].
    intros n' d Hd'. by apply Hnames.
  - intros name. rewrite (load_table _ _ (alias_with_deployments t) (ct_aliases t)); [| done | apply merge_sort_Permutation].
    destruct (ct_aliases t !! name) as [row |]; [| done]. cbn [fmap option_fmap option_map]. f_equal.
    unfold alias_targets, alias_with_deployments, routed. cbn. by destruct (targets_of row t).
Qed.
End Mirror.

(** ** The tables stay consistent *)

(** No flag of a native endpoint is set. *)
Definition no_native (c : DeploymentCapabilities) : Prop :=
  dc_Moderation c = false /\ dc_Rerank c = false /\ dc_Images c = false /\ dc_AudioTranscribe c = false /\ dc_AudioSpeech c = false /\
  dc_MessagesPassthrough c = false.

Definition deployment_ok (d : Deployment) : Prop :=
  (forall n, dep_MaxParallelRequests d = Some n -> 0 < n) /\ (forall s, dep_Streaming d = Some s -> ValidateStreaming s = true) /\
  (forall c, dep_Capabilities d = Some c -> no_native c).

Definition price_ok (p : Pricing) : Prop := 0 <= InputPerMillionCents p /\ 0 <= OutputPerMillionCents p /\ PricingTiers_Validate (Tiers p) = Ok tt.

Record catalog_ok (t : catalog) : Prop := mkCatalogOk {
  co_deployments : forall n d, ct_deployments t !! n = Some d -> dep_Name d = n /\ dep_ID d < ct_next_deployment t /\ deployment_ok d;
  co_ids : forall n m d d', ct_deployments t !! n = Some d -> ct_deployments t !! m = Some d' -> dep_ID d = dep_ID d' -> n = m;
  co_aliases : forall n a, ct_aliases t !! n = Some a -> ar_ID a < ct_next_alias t;
  co_alias_ids : forall n m a a', ct_aliases t !! n = Some a -> ct_aliases t !! m = Some a' -> ar_ID a = ar_ID a' -> n = m;
  co_links : Forall (fun l => (exists n a, ct_aliases t !! n = Some a /\ ar_ID a = ln_alias l) /\
                              (exists n d, ct_deployments t !! n = Some d /\ dep_ID d = ln_deployment l)) (ct_links t);
  co_prices : Forall price_ok (ct_pricing t);
}.

Definition upsert_ok (u : upsert) : Prop := forall c, u_capabilities u = Some c -> no_native c.

Lemma upsert_deployment_ok u t : upsert_ok u -> catalog_ok t -> catalog_ok (UpsertDeployment u t).1.
Proof.
  intros Hu Hok. unfold UpsertDeployment. destruct (match u_streaming u with Some (Some s) => ValidateStreaming s | _ => true end) eqn:Hs; cbn; [| done].
  pose proof Hok as [Hd Hids Ha Hai Hl Hp].
  destruct (match u_max_parallel u with Some n => (0 <? n) && (n <=? 2147483647) | None => true end) eqn:Hm; cbn.
  2: { split; cbn; try done. intros n d H. destruct (Hd n d H) as (? & ? & ?). split_and!; try done; lia. }
  assert (dep_ID (upserted u (ct_next_deployment t) (ct_deployments t !! u_name u)) =
          match ct_deployments t !! u_name u with Some d => dep_ID d | None => ct_next_deployment t end) as Hid by by destruct (ct_deployments t !! u_name u).
  assert (forall n d, ct_deployments t !! n = Some d -> dep_ID d = dep_ID (upserted u (ct_next_deployment t) (ct_deployments t !! u_name u)) -> n = u_name u) as Hnew.
  { intros n d Hn E. rewrite Hid in E. destruct (ct_deployments t !! u_name u) as [o |] eqn:Eo; [by apply (Hids n (u_name u) d o) |].
    destruct (Hd n d Hn) as (_ & ? & _). lia. }
  split; cbn; try done.
  - intros n d [[<- <-] | [Hne H]]%lookup_insert_Some; [| destruct (Hd n d H) as (? & ? & ?); split_and!; try done; lia].
    split_and!; [done | |].
    + rewrite Hid. destruct (ct_deployments t !! u_name u) as [o |] eqn:Eo; [destruct (Hd _ _ Eo) as (_ & ? & _) |]; lia.
    + split_and!; cbn.
      * intros n Hn. rewrite Hn in Hm. apply andb_true_iff in Hm as [?%Z.ltb_lt _]. done.
      * intros s Es. destruct (u_streaming u) as [[s' |] |]; simplify_eq; try done.
        destruct (ct_deployments t !! u_name u) as [o |] eqn:Eo; [| done]. destruct (Hd _ _ Eo) as (_ & _ & _ & Hst & _). by apply Hst.
      * exact Hu.
  - intros n m d d' [[<- <-] | [Hn H1]]%lookup_insert_Some [[<- <-] | [Hm' H2]]%lookup_insert_Some E; [done | | |].
    + symmetry. eapply Hnew; [exact H2 | by symmetry].
    + eapply Hnew; [exact H1 | done].
    + by apply (Hids n m d d').
  - eapply Forall_impl; [exact Hl |]. intros l [HA (n & d & Hn & E)]. split; [done |].
    destruct (decide (n = u_name u)) as [-> | Hne]; [| exists n, d; by rewrite lookup_insert_ne].
    eexists (u_name u), _. rewrite lookup_insert_eq. split; [done |]. rewrite Hid, Hn. done.
Qed.

Lemma update_tags_ok name tags t : catalog_ok t -> catalog_ok (UpdateDeploymentTags name tags t).1.
Proof.
  intros Hok. unfold UpdateDeploymentTags. destruct (ct_deployments t !! name) as [d |] eqn:Ed; [| done]. destruct Hok as [Hd Hids Ha Hai Hl Hp].
  split; cbn; try done.
  - intros n d' [[<- <-] | [Hne H]]%lookup_insert_Some; [exact (Hd _ _ Ed) | by apply Hd].
  - intros n m x y [[<- <-] | [Hn H1]]%lookup_insert_Some [[<- <-] | [Hm H2]]%lookup_insert_Some E; eauto.
  - eapply Forall_impl; [exact Hl |]. intros l [HA (n & x & Hn & E)]. split; [done |].
    destruct (decide (n = name)) as [-> | Hne]; [| exists n, x; by rewrite lookup_insert_ne].
    eexists name, _. rewrite lookup_insert_eq. split; [done |]. cbn. congruence.
Qed.

Lemma delete_deployment_ok name t : catalog_ok t -> catalog_ok (DeleteDeployment name t).1.
Proof.
  intros Hok. unfold DeleteDeployment. destruct (ct_deployments t !! name) as [d |] eqn:Ed; [| done]. destruct Hok as [Hd Hids Ha Hai Hl Hp].
  split; cbn; try done.
  - intros n d' [_ H]%lookup_delete_Some. by apply Hd.
  - intros n m x y [_ H1]%lookup_delete_Some [_ H2]%lookup_delete_Some. by apply Hids.
  - apply Forall_forall. intros l [Hin Hne%negb_true_iff%Z.eqb_neq]%list_elem_of_In%filter_In. rewrite Forall_forall in Hl.
    destruct (Hl l) as [HA (n & x & Hn & E)]; [by apply list_elem_of_In |]. split; [done |]. exists n, x. split; [| done].
    rewrite lookup_delete_ne; [done |]. intros ->. congruence.
Qed.

Lemma delete_alias_ok name t : catalog_ok t -> catalog_ok (store_DeleteAlias name t).1.
Proof.
  intros Hok. unfold store_DeleteAlias. destruct (ct_aliases t !! name) as [a |] eqn:Ea; [| done]. destruct Hok as [Hd Hids Ha Hai Hl Hp].
  split; cbn; try done.
  - intros n a' [_ H]%lookup_delete_Some. by apply (Ha n).
  - intros n m x y [_ H1]%lookup_delete_Some [_ H2]%lookup_delete_Some. by apply Hai.
  - apply Forall_forall. intros l [Hin Hne%negb_true_iff%Z.eqb_neq]%list_elem_of_In%filter_In. rewrite Forall_forall in Hl.
    destruct (Hl l) as [(n & x & Hn & E) HD]; [by apply list_elem_of_In |]. split; [| done]. exists n, x. split; [| done].
    rewrite lookup_delete_ne; [done |]. intros ->. congruence.
Qed.

(** A row that is replaced keeps its identifier. *)
Lemma replace_alias_ok name a a' t : ct_aliases t !! name = Some a -> ar_ID a' = ar_ID a -> catalog_ok t -> catalog_ok (with_aliases (<[name := a']> (ct_aliases t)) t).
Proof.
  intros Ea Hid [Hd Hids Ha Hai Hl Hp]. split; cbn; try done.
  - intros n x [[<- <-] | [Hne H]]%lookup_insert_Some; [rewrite Hid |]; eauto.
  - intros n m x y [[<- <-] | [Hn H1]]%lookup_insert_Some [[<- <-] | [Hm H2]]%lookup_insert_Some E; rewrite ?Hid in *; eauto.
  - eapply Forall_impl; [exact Hl |]. intros l [(n & x & Hn & E) HD]. split; [| done].
    destruct (decide (n = name)) as [-> | Hne]; [| exists n, x; by rewrite lookup_insert_ne].
    exists name, a'. rewrite lookup_insert_eq. split; [done |]. congruence.
Qed.

Lemma update_strategy_ok name strategy options t : catalog_ok t -> catalog_ok (store_UpdateAliasStrategy name strategy options t).1.
Proof. intros Hok. unfold store_UpdateAliasStrategy. destruct (ct_aliases t !! name) eqn:E; [| done]. by eapply replace_alias_ok. Qed.

Lemma update_cache_ok name enabled ttl t : catalog_ok t -> catalog_ok (UpdateAliasCacheSettings name enabled ttl t).1.
Proof. intros Hok. unfold UpdateAliasCacheSettings. destruct (ct_aliases t !! name) eqn:E; [| done]. case_match; [done |]. by eapply replace_alias_ok. Qed.

Lemma new_links_in alias deps names l : l ∈ new_links alias deps names ->
  exists i n d, names !! i = Some n /\ deps !! n = Some d /\ l = mkLink alias (dep_ID d) (Z.of_nat i) 1.
Proof.
  unfold new_links. intros (x & Hx & Hl)%list_elem_of_In%in_concat. apply list_elem_of_In in Hl, Hx.
  apply list_elem_of_lookup in Hx as [i Hi]. rewrite list_lookup_imap in Hi. apply fmap_Some in Hi as (n & Hn & ->).
  destruct (deps !! n) as [d |] eqn:Ed; [| by apply elem_of_nil in Hl]. apply list_elem_of_singleton in Hl as ->. eauto 10.
Qed.

Lemma upsert_alias_ok alias names t : catalog_ok t -> catalog_ok (UpsertAlias alias names t).1.
Proof.
  intros Hok. unfold UpsertAlias. case_match; [done |]. set (row := default _ (ct_aliases t !! alias)). destruct Hok as [Hd Hids Ha Hai Hl Hp].
  destruct (bool_decide (NoDup names)); cbn; split; cbn; try done.
  4: { intros n a Hn. specialize (Ha n a Hn). lia. }
  - intros n a [[<- <-] | [Hne H0]]%lookup_insert_Some.
    + unfold row. destruct (ct_aliases t !! alias) as [a |] eqn:E; cbn; [specialize (Ha _ _ E) |]; lia.
    + specialize (Ha n a H0). lia.
  - assert (forall n a, ct_aliases t !! n = Some a -> ar_ID a = ar_ID row -> n = alias) as Hnew.
    { intros n a Hn E. unfold row in E. destruct (ct_aliases t !! alias) as [o |] eqn:Eo; cbn in E; [by apply (Hai n alias a o) |].
      specialize (Ha n a Hn). lia. }
    intros n m x y [[<- <-] | [Hn H1]]%lookup_insert_Some [[<- <-] | [Hm H2]]%lookup_insert_Some E; [done | | | by apply (Hai n m x y)].
    + symmetry. by eapply Hnew.
    + by eapply Hnew.
  - apply Forall_app. split.
    + apply Forall_forall. intros l [Hin Hne%negb_true_iff%Z.eqb_neq]%list_elem_of_In%filter_In. rewrite Forall_forall in Hl.
      destruct (Hl l) as [(n & x & Hn & E) HD]; [by apply list_elem_of_In |]. split; [| done]. exists n, x. split; [| done].
      rewrite lookup_insert_ne; [done |]. intros <-. apply Hne. unfold row. rewrite Hn. done.
    + apply Forall_forall. intros l (i & n & d & Hi & Hn & ->)%new_links_in. cbn. split; [exists alias, row; by rewrite lookup_insert_eq | eauto].
Qed.

Lemma upsert_pricing_ok now p t : catalog_ok t -> catalog_ok (store_UpsertPricing now p t).1.
Proof.
  intros Hok. unfold store_UpsertPricing. case_match eqn:E; [done |]. destruct Hok as [Hd Hids Ha Hai Hl Hp]. split; cbn; try done.
  apply Forall_app. split; [done |]. repeat (apply orb_false_iff in E as [E ?]). cbn -[PricingTiers_Validate] in *. constructor; [| constructor].
  apply negb_false_iff in E. split_and!; cbn -[PricingTiers_Validate]; [by apply Z.ltb_ge | by apply Z.ltb_ge |].
  revert E. by destruct (PricingTiers_Validate (Tiers p)) as [[] | e].
Qed.

(** ** Histories *)

Inductive catalog_op :=
| OpStart (ds : list DeploymentConfig) (al : list (string * list string))
| OpCreateDeployment (req : option DeploymentRequest)
| OpUpdateDeployment (name : string) (req : option DeploymentRequest)
| OpDeleteDeployment (name : string)
| OpTags (name : string) (tags : option (list string))
| OpUpsertAlias (req : option (string * list string))
| OpDeleteAlias (name : string)
| OpStrategy (name : string) (req : option (string * gmap string any))
| OpCache (name : string) (req : option (bool * Z))
| OpPricing (now : Z) (req : option Pricing).

Definition catalog_handler (o : catalog_op) (t : catalog) : handled :=
  match o with
  | OpStart ds al => ((sync ds al t).1, (0, ""), true)
  | OpCreateDeployment req => CreateDeployment req t
  | OpUpdateDeployment name req => UpdateDeployment name req t
  | OpDeleteDeployment name => admin_DeleteDeployment name t
  | OpTags name tags => UpdateDeploymentTagsHandler name tags t
  | OpUpsertAlias req => admin_UpsertAlias req t
  | OpDeleteAlias name => DeleteAlias name t
  | OpStrategy name req => UpdateAliasStrategy name req t
  | OpCache name req => UpdateAliasCache name req t
  | OpPricing now req => UpsertPricing now req t
  end.

Definition catalog_history (os : list catalog_op) : catalog := foldl (fun t o => (catalog_handler o t).1.1) empty_catalog os.

Lemma answer_of_ok ok r : catalog_ok r.1 -> catalog_ok (answer_of ok r).1.1.
Proof. by destruct r as [t [[] | []]]. Qed.

Lemma sync_ok ds al t : catalog_ok t -> catalog_ok (sync ds al t).1.
Proof.
  intros Hok. unfold sync.
  assert (catalog_ok (sync_deployments ds t).1) as H1.
  { revert t Hok. induction ds as [| d ds IH]; intros t Hok; [done |]. cbn. pose proof (upsert_deployment_ok (config_upsert d) t ltac:(done) Hok) as H.
    destruct (UpsertDeployment _ t) as [t' []]; [by apply IH | done]. }
  destruct (sync_deployments ds t) as [t1 []]; [| done]. cbn in H1. clear Hok. revert t1 H1.
  induction al as [| [a names] al IH]; intros t1 H1; [done |]. cbn. pose proof (upsert_alias_ok a names t1 H1) as H.
  destruct (UpsertAlias a names t1) as [t' []]; [by apply IH | done].
Qed.

Lemma explicit_no_native responses r : no_native (explicit_capabilities responses r).
Proof. done. Qed.

Lemma updated_no_native r ty existing c : (forall c, existing = Some c -> no_native c) -> updated_capabilities r ty existing = Some c -> no_native c.
Proof.
  intros He. unfold updated_capabilities. destruct (dr_SupportsResponses r).
  - intros [= <-]. unfold no_native. cbn. destruct (given r); [done |]. destruct existing as [c0 |]; [| done]. exact (He c0 eq_refl).
  - destruct (given r); [by intros [= <-] | apply He].
Qed.

Lemma handler_ok o t : catalog_ok t -> catalog_ok (catalog_handler o t).1.1.
Proof.
  intros Hok. destruct o; cbn [catalog_handler].
  - by apply sync_ok.
  - unfold CreateDeployment. destruct req as [r |]; [| done]. case_match; [done |].
    match goal with |- context [UpsertDeployment ?u t] => pose proof (upsert_deployment_ok u t) as H1; destruct (UpsertDeployment u t) as [t' []] end; apply H1; try done.
    all: intros c; cbn; case_match; intros [=]; subst; apply explicit_no_native.
  - unfold UpdateDeployment, GetDeploymentByName. destruct (ct_deployments t !! name) as [d |] eqn:Ed; [| done]. destruct req as [r |]; [| done]. case_match; [done |].
    match goal with |- context [UpsertDeployment ?u t] => pose proof (upsert_deployment_ok u t) as H1; destruct (UpsertDeployment u t) as [t' []] end; apply H1; try done.
    all: intros c; cbn; apply updated_no_native; destruct (co_deployments _ Hok _ _ Ed) as (_ & _ & _ & _ & Hc); exact Hc.
  - by apply answer_of_ok, delete_deployment_ok.
  - destruct tags; [| done]. by apply answer_of_ok, update_tags_ok.
  - unfold admin_UpsertAlias. destruct req as [[a names] |]; [| done]. case_match; [done |].
    pose proof (upsert_alias_ok a names t Hok) as H1. by destruct (UpsertAlias a names t) as [t' []].
  - by apply answer_of_ok, delete_alias_ok.
  - unfold UpdateAliasStrategy. destruct req as [[s o] |]; [| done]. case_match; [| done]. by apply answer_of_ok, update_strategy_ok.
  - unfold UpdateAliasCache. destruct req as [[e ttl] |]; [| done]. case_match; [done |]. by apply answer_of_ok, update_cache_ok.
  - unfold UpsertPricing. destruct req as [p |]; [| done]. case_match; [done |]. pose proof (upsert_pricing_ok now p t Hok) as H1.
    by destruct (store_UpsertPricing now p t) as [t' []].
Qed.

Lemma catalog_history_ok os : catalog_ok (catalog_history os).
Proof.
  unfold catalog_history. assert (catalog_ok empty_catalog) as H0 by (split; cbn; try (intros ? ?; by rewrite lookup_empty); by constructor).
  revert H0. generalize empty_catalog. induction os as [| o os IH]; intros t Ht; [done |]. cbn. by apply IH, handler_ok.
Qed.

(** ** What an alias routes to *)

Lemma deployment_of_id_spec t n d : catalog_ok t -> ct_deployments t !! n = Some d -> deployment_of_id (dep_ID d) t = Some d.
Proof.
  intros Hok Hn. unfold deployment_of_id. destruct (find _ _) as [x |] eqn:E.
  - apply find_some in E as [Hx E%Z.eqb_eq]. apply list_elem_of_In, list_elem_of_fmap in Hx as ([m x'] & -> & Hx%elem_of_map_to_list). cbn in E.
    pose proof (co_ids _ Hok _ _ _ _ Hx Hn E) as ->. cbn. congruence.
  - exfalso. assert (d ∈ map snd (map_to_list (ct_deployments t))) as Hd.
    { apply list_elem_of_fmap. exists (n, d). split; [done |]. by apply elem_of_map_to_list. }
    apply list_elem_of_In in Hd. pose proof (find_none _ _ E d Hd) as E'. cbn in E'. by rewrite Z.eqb_refl in E'.
Qed.

(** A list whose priorities grow is left alone by the sort. *)
Definition before (a b : AliasTarget) : Prop := at_Priority a < at_Priority b.

Lemma target_le_total : Total target_le.
Proof.
  intros a b. unfold target_le. destruct (Z.lt_total (at_Priority a) (at_Priority b)) as [| [-> |]]; [by left; left | | by right; left].
  destruct (String.leb_total (at_Deployment a) (at_Deployment b)); [left | right]; right; auto.
Qed.

Lemma sorted_before l : Sorted target_le l -> NoDup (at_Priority <$> l) -> StronglySorted before l.
Proof.
  intros Hs Hd. apply Sorted_StronglySorted; [intros x y z; unfold before; lia |].
  induction Hs as [| x l Hs IH Hx]; [constructor |]. rewrite fmap_cons, NoDup_cons in Hd. destruct Hd as [Hnx Hd]. constructor; [by apply IH |].
  destruct Hx as [| y l [Hlt | [Heq _]]]; constructor; [done |]. exfalso. apply Hnx. rewrite Heq. by left.
Qed.

Lemma merge_sort_before l : StronglySorted before l -> merge_sort target_le l = l.
Proof.
  intros Hl. assert (NoDup (at_Priority <$> l)) as Hd.
  { induction Hl as [| x l Hl IH Hx]; [constructor |]. rewrite fmap_cons. apply NoDup_cons. split; [| done].
    intros (y & E & Hy)%list_elem_of_fmap. rewrite Forall_forall in Hx. specialize (Hx y Hy). unfold before in Hx. lia. }
  pose proof target_le_total. pose proof (merge_sort_Permutation target_le l) as Hp.
  apply (StronglySorted_unique_strong before); [unfold before; intros; lia | | done | done].
  apply sorted_before; [by apply Sorted_merge_sort |]. by rewrite Hp.
Qed.

(** The targets in their order. *)
Definition ranked (names : list string) : list AliasTarget := imap (fun i n => mkAliasTargetRow n (Z.of_nat i) 1) names.

Lemma ranked_sorted names : StronglySorted before (ranked names).
Proof.
  unfold ranked. assert (forall k, StronglySorted before (imap (fun i n => mkAliasTargetRow n (Z.of_nat (k + i)) 1) names)) as H; [| exact (H 0%nat)].
  induction names as [| n names IH]; intros k; [constructor |]. rewrite imap_cons. constructor.
  - rewrite (imap_ext _ (fun i n => mkAliasTargetRow n (Z.of_nat (S k + i)) 1)); [apply IH |]. intros i x _. cbn. do 2 f_equal. lia.
  - apply Forall_forall. intros y [i Hi]%list_elem_of_lookup. rewrite list_lookup_imap in Hi. apply fmap_Some in Hi as (x & _ & ->). unfold before. cbn. lia.
Qed.

Section Linked.
Context (t : catalog) (id : Z) (Hok : catalog_ok t).

(** A link of the alias, with its deployment. *)
Definition joined (l : link) : option AliasTarget :=
  if ln_alias l =? id
  then d ← deployment_of_id (ln_deployment l) t; Some (mkAliasTargetRow (dep_Name d) (ln_priority l) (if ln_weight l <=? 0 then 1 else ln_weight l))
  else None.

Lemma joined_new names : Forall (fun n => is_Some (ct_deployments t !! n)) names -> omap joined (new_links id (ct_deployments t) names) = ranked names.
Proof.
  unfold new_links, ranked. intros Hn.
  assert (forall k, omap joined (concat (imap (fun i name => match ct_deployments t !! name with Some d => [mkLink id (dep_ID d) (Z.of_nat (k + i)) 1] | None => [] end) names)) =
    imap (fun i n => mkAliasTargetRow n (Z.of_nat (k + i)) 1) names) as H; [| exact (H 0%nat)].
  induction Hn as [| n names [d Hd] _ IH]; intros k; [done |]. rewrite !imap_cons. cbn [concat]. rewrite Hd. cbn [app].
  assert (joined (mkLink id (dep_ID d) (Z.of_nat (k + 0)) 1) = Some (mkAliasTargetRow n (Z.of_nat (k + 0)) 1)) as Hj.
  { unfold joined. cbn. rewrite Z.eqb_refl, (deployment_of_id_spec _ _ _ Hok Hd). cbn. by destruct (co_deployments _ Hok _ _ Hd) as [-> _]. }
  cbn [omap list_omap]. rewrite Hj. f_equal. change (list_omap _ _ joined) with (omap (M := list) joined).
  erewrite imap_ext; [rewrite IH with (k := S k) |]; [apply imap_ext; intros; cbn; do 2 f_equal; lia |].
  intros i x _. cbn. destruct (ct_deployments t !! x); [| done]. do 3 f_equal. lia.
Qed.
End Linked.

Lemma joined_others t id ls : omap (joined t id) (List.filter (fun l => negb (ln_alias l =? id)) ls) = [].
Proof.
  induction ls as [| l ls IH]; [done |]. cbn [List.filter]. destruct (ln_alias l =? id) eqn:E; cbn [negb]; [done |].
  cbn [omap list_omap]. unfold joined at 1. by rewrite E.
Qed.

Lemma upsert_alias_targets alias names t t' row :
  catalog_ok t -> UpsertAlias alias names t = (t', Ok tt) -> ct_aliases t' !! alias = Some row -> targets_of row t' = ranked names.
Proof.
  intros Hok Hu Hrow. pose proof (upsert_alias_ok alias names t Hok) as Hok'. rewrite Hu in Hok'. cbn in Hok'.
  unfold UpsertAlias in Hu. destruct (bool_decide (names = [])); cbn in Hu; [done |].
  destruct (forallb (fun n => bool_decide (is_Some (ct_deployments t !! n))) names) eqn:Hall; cbn in Hu; [| done].
  destruct (bool_decide (NoDup names)); cbn in Hu; [| done]. injection Hu as <-. cbn in Hrow. rewrite lookup_insert_eq in Hrow. injection Hrow as <-.
  set (row := default _ (ct_aliases t !! alias)) in *. set (t' := mkCatalog _ _ _ _ _ _) in *. unfold targets_of.
  change (ct_links t') with (List.filter (fun l => negb (ln_alias l =? ar_ID row)) (ct_links t) ++ new_links (ar_ID row) (ct_deployments t) names).
  change (fun l : link => if ln_alias l =? ar_ID row then _ else None) with (joined t' (ar_ID row)). rewrite omap_app.
  rewrite joined_others.
  change (ct_deployments t) with (ct_deployments t'). rewrite app_nil_l, joined_new; [apply merge_sort_before, ranked_sorted | done |].
  apply Forall_forall. intros n Hn. rewrite forallb_forall in Hall. apply list_elem_of_In in Hn. apply (bool_decide_eq_true_1 _ (Hall n Hn)).
Qed.

(** Storing an alias leaves the others as they are. *)
Lemma upsert_alias_others alias names t t' n row :
  catalog_ok t -> UpsertAlias alias names t = (t', Ok tt) -> n <> alias -> ct_aliases t !! n = Some row ->
  ct_aliases t' !! n = Some row /\ targets_of row t' = targets_of row t.
Proof.
  intros Hok Hu Hn Hrow. unfold UpsertAlias in Hu. case_match; [done |]. destruct (bool_decide (NoDup names)); cbn in Hu; [| done]. injection Hu as <-.
  set (r := default _ (ct_aliases t !! alias)). cbn [ct_aliases]. split; [by rewrite lookup_insert_ne |].
  assert (ar_ID row <> ar_ID r) as Hid.
  { unfold r. destruct (ct_aliases t !! alias) as [x |] eqn:E; cbn; [intros Heq; by apply Hn, (co_alias_ids _ Hok n alias row x) |].
    pose proof (co_aliases _ Hok _ _ Hrow). lia. }
  unfold targets_of, deployment_of_id. cbn [ct_links ct_deployments]. f_equal. rewrite omap_app.
  match goal with |- ?x ++ ?y = ?z => assert (y = []) as ->; [| rewrite app_nil_r] end.
  - assert (Forall (fun l => ln_alias l = ar_ID r) (new_links (ar_ID r) (ct_deployments t) names)) as Hl.
    { apply Forall_forall. by intros l (i & m & d & _ & _ & ->)%new_links_in. }
    induction Hl as [| l ls Hl _ IH]; [done |]. cbn. by rewrite Hl, (proj2 (Z.eqb_neq _ _)).
  - induction (ct_links t) as [| l ls IH]; [done |]. cbn. destruct (Z.eqb_spec (ln_alias l) (ar_ID r)) as [Heq |]; cbn.
    + by rewrite Heq, (proj2 (Z.eqb_neq _ _)).
    + rewrite IH. done.
Qed.

Section Routing.
Context {B : Type} `{BreakerStore B}.
Variable getenv : string -> string.
Variable routingIdentity : Deployment -> string.
Variable cloud_client : Deployment -> bool.

(** After any history of the catalogue, an alias that was stored with a list of
    deployments is routed, as soon as the registry has loaded it, to exactly these
    deployments: in the given order, one priority each, and all of them known to the
    registry. *)
Theorem aliases_route_as_configured (os : list catalog_op) (alias : string) (names : list string) (e : refresh_env) (cr : concurrencyPolicies * Registry B)
    (t' : catalog) (a : answer) (reload : bool)
    (Hreq : admin_UpsertAlias (Some (alias, names)) (catalog_history os) = (t', a, reload)) (Hcode : a.1 = 201) (He : loads_ok e) :
  reload = true /\
  let r := (refreshRegistry getenv routingIdentity cloud_client e t' cr).2 in
  rg_aliases r !! alias = Some (imap (fun i n => mkAliasTarget n (Z.of_nat i) 1) names) /\
  Forall (fun n => is_Some (rg_deployments r !! n)) names /\ rg_deployments r = ct_deployments (catalog_history os).
Proof.
  pose proof (catalog_history_ok os) as Hok. set (t := catalog_history os) in *. unfold admin_UpsertAlias in Hreq.
  destruct ((alias =? "")%string || bool_decide (names = [])); [by simplify_eq |].
  pose proof (upsert_alias_ok alias names t Hok) as Hok'.
  destruct (UpsertAlias alias names t) as [t1 [[] |]] eqn:Hu; simplify_eq. cbn in Hok'. split; [done |].
  destruct (refresh_mirrors getenv routingIdentity cloud_client e t' cr He) as [Hd Hal]; [intros n d Hn; apply (co_deployments _ Hok' n d Hn) |].
  cbv zeta in Hd, Hal |- *. rewrite Hal, Hd.
  assert (exists row, ct_aliases t' !! alias = Some row /\ ct_deployments t' = ct_deployments t /\
    Forall (fun n => is_Some (ct_deployments t !! n)) names) as (row & Hrow & Hsame & Hall).
  { unfold UpsertAlias in Hu. destruct (bool_decide (names = [])); cbn in Hu; [done |].
    destruct (forallb (fun n => bool_decide (is_Some (ct_deployments t !! n))) names) eqn:Hall; cbn in Hu; [| done].
    destruct (bool_decide (NoDup names)); cbn in Hu; [| done]. injection Hu as <-. eexists. cbn. rewrite lookup_insert_eq. split_and!; try done.
    apply Forall_forall. intros n Hn. rewrite forallb_forall in Hall. apply list_elem_of_In in Hn. apply (bool_decide_eq_true_1 _ (Hall n Hn)). }
  rewrite Hrow, Hsame. split_and!; [| done | done]. cbn. f_equal. rewrite (upsert_alias_targets _ _ _ _ _ Hok Hu Hrow). unfold ranked, routed.
  rewrite fmap_imap. done.
Qed.
End Routing.

(** ** Edits of a deployment *)

(** An accepted edit of a deployment keeps its identifier, switch, weight and tags
    and every field the request does not name, and changes no other row. *)
Theorem deployment_edits_keep_the_rest (name : string) (r : DeploymentRequest) (t t' : catalog) (a : answer) (reload : bool) (d : Deployment)
    (Hd : ct_deployments t !! name = Some d) (Hreq : UpdateDeployment name (Some r) t = (t', a, reload)) (Hcode : a.1 = 200) :
  reload = true /\ ct_aliases t' = ct_aliases t /\ ct_links t' = ct_links t /\ ct_pricing t' = ct_pricing t /\
  exists d', ct_deployments t' = <[name := d']> (ct_deployments t) /\ dep_ID d' = dep_ID d /\ dep_Name d' = name /\
  dep_Enabled d' = dep_Enabled d /\ dep_Weight d' = dep_Weight d /\ dep_Tags d' = dep_Tags d /\
  (dr_ProviderType r = "" -> dep_ProviderType d' = dep_ProviderType d) /\ (dr_UpstreamModel r = "" -> dep_UpstreamModel d' = dep_UpstreamModel d) /\
  (dr_CredentialRef r = "" -> dep_CredentialRef d' = dep_CredentialRef d) /\ (dr_BaseURL r = None -> dep_BaseURL d' = dep_BaseURL d) /\
  (dr_Region r = None -> dep_Region d' = dep_Region d) /\ (dr_MaxParallelRequests r = None -> dep_MaxParallelRequests d' = dep_MaxParallelRequests d) /\
  (dr_Streaming r = None -> dep_Streaming d' = dep_Streaming d) /\
  (given r = false -> dr_SupportsResponses r = None -> dep_Capabilities d' = dep_Capabilities d).
Proof.
  unfold UpdateDeployment, GetDeploymentByName in Hreq. rewrite Hd in Hreq. case_match; [by simplify_eq |].
  set (u := mkUpsert _ _ _ _ _ _ _ _ _) in Hreq. unfold UpsertDeployment in Hreq.
  destruct (match u_streaming u with Some (Some s) => ValidateStreaming s | _ => true end); cbn [negb] in Hreq; [| by simplify_eq].
  destruct (match u_max_parallel u with Some n => (0 <? n) && (n <=? 2147483647) | None => true end); [| by simplify_eq]. simplify_eq.
  split_and!; try done. eexists. split; [done |]. change (u_name u) with name. rewrite Hd. cbn.
  split_and!; try done; try (by intros ->).
  unfold updated_capabilities. by intros -> ->.
Qed.

(** ** Findings *)

(** A change of a price is not followed by a reload: the registry keeps ordering by
    the old prices. *)
Lemma price_change_is_not_reloaded {B} `{BreakerStore B} getenv routingIdentity cloud_client e now p (s : catalog * (concurrencyPolicies * Registry B)) :
  (administer getenv routingIdentity cloud_client e (UpsertPricing now p) s).1.2 = s.2.
Proof.
  unfold administer. destruct (UpsertPricing now p s.1) as [[t a] reload] eqn:E. cbn. assert (reload = false) as ->; [| done].
  unfold UpsertPricing in E. repeat case_match; by simplify_eq.
Qed.

(** No operation of the gateway can declare a native capability: whatever was done
    to the catalogue, the native endpoints find no deployment. *)
Section NativeClosed.
Context {B R : Type} `{BreakerStore B, RedisZSet R}.
Variable getenv : string -> string.
Variable routingIdentity : Deployment -> string.
Variable cloud_client : Deployment -> bool.
Variable limiter : option Limiter.
Variable has_store : bool.

Lemma capability_loop_closed guarded partition alias cap path env fuel n tried saturated miss capacity (s : gateway B R) :
  (forall name d c, rg_deployments (gw_registry s) !! name = Some d -> dep_Capabilities d = Some c -> no_native c) ->
  forall target x, (capability_loop getenv limiter has_store guarded partition alias cap path env fuel n tried saturated miss capacity s).2 <> Succeeded target x.
Proof.
  revert n tried saturated miss capacity s. induction fuel as [| fuel IH]; intros n tried saturated miss capacity s Hs target x; [done |].
  cbn [capability_loop]. unfold ResolveNextFor.
  pose proof (resolve_routing getenv (en_now (env n)) alias tried CapabilityNone (mkResolveContext [] "") (gw_registry s)) as Hsame.
  destruct (ResolveWithContext _ _ _ _ _ _ _) as [r [res | err]]; [| done]. cbn in Hsame. destruct Hsame as (_ & _ & Hdeps & _).
  assert (match rg_deployments (gw_registry (set_registry r s)) !! rv_DeploymentName res ≫= dep_Capabilities with
          | Some caps => capabilityMatches caps cap | None => false end = false) as ->.
  { cbn. rewrite Hdeps. destruct (rg_deployments (gw_registry s) !! rv_DeploymentName res) as [d |] eqn:Ed; [| done]. cbn.
    destruct (dep_Capabilities d) as [c |] eqn:Ec; [| done]. destruct (Hs _ _ _ Ed Ec) as (? & ? & ? & ? & ? & ?). by destruct cap. }
  cbn [negb]. apply IH. cbn. rewrite Hdeps. exact Hs.
Qed.

Lemma native_endpoints_cannot_be_opened os e (cr : concurrencyPolicies * Registry B) (s : gateway B R) guarded partition alias cap path env fuel n tried saturated miss capacity :
  loads_ok e -> gw_registry s = (refreshRegistry getenv routingIdentity cloud_client e (catalog_history os) cr).2 ->
  forall target x, (capability_loop getenv limiter has_store guarded partition alias cap path env fuel n tried saturated miss capacity s).2 <> Succeeded target x.
Proof.
  intros He Hs. apply capability_loop_closed. intros name d c. pose proof (catalog_history_ok os) as Hok. rewrite Hs.
  destruct (refresh_mirrors getenv routingIdentity cloud_client e (catalog_history os) cr He) as [-> _]; [intros m x Hm; apply (co_deployments _ Hok m x Hm) |].
  intros Hd Hc. destruct (co_deployments _ Hok name d Hd) as (_ & _ & _ & _ & Hn). by apply Hn.
Qed.
End NativeClosed.

(** ** Evaluation *)

Definition east_request (name : string) : DeploymentRequest :=
  mkDeploymentRequest name "openai" "gpt-4o" "KEY" None None (Some 8) None None None None None.
Definition example_ops : list catalog_op := [OpCreateDeployment (Some (east_request "east")); OpCreateDeployment (Some (east_request "west"))].
Definition example_refresh : refresh_env := mkRefreshEnv 1 (Ok []) (Ok []) true true true.

Lemma aliases_route_as_configured_witness :
  rg_aliases (refreshRegistry (B := Empty_set) example_env dep_Name (fun _ => true) example_refresh
      (admin_UpsertAlias (Some ("gpt", ["west"; "east"])) (catalog_history example_ops)).1.1 (no_policies, empty_registry)).2 !! "gpt" =
  Some [mkAliasTarget "west" 0 1; mkAliasTarget "east" 1 1].
Proof.
  refine (proj1 (proj2 (aliases_route_as_configured example_env dep_Name (fun _ => true) example_ops "gpt" ["west"; "east"] example_refresh
    (no_policies, empty_registry) _ (201, "created") true _ _ _))).
  - vm_compute. reflexivity.
  - reflexivity.
  - by repeat split.
Defined.

Lemma deployment_edits_keep_the_rest_witness :
  let t := catalog_history example_ops in
  let r := mkDeploymentRequest "" "" "gpt-5" "" None None None None None None None None in
  exists d', ct_deployments (UpdateDeployment "east" (Some r) t).1.1 = <["east" := d']> (ct_deployments t) /\ dep_ID d' = 1 /\ dep_CredentialRef d' = "KEY".
Proof.
  intros t r.
  destruct (deployment_edits_keep_the_rest "east" r t (UpdateDeployment "east" (Some r) t).1.1 (200, "ok") true
    (mkDeployment 1 "east" "openai" "gpt-4o" "KEY" None None true 1 (Some 8) [] None None)) as (_ & _ & _ & _ & d' & H1 & H2 & _ & _ & _ & _ & _ & _ & H3 & _);
    [vm_compute; reflexivity | vm_compute; reflexivity | reflexivity |].
  exists d'. split; [exact H1 |]. split; [exact H2 | exact (H3 eq_refl)].
Defined.
