(* ===== verification/Config.v ===== *)
(** * Configuration ([internal/config/config.go], [internal/config/env.go])

    The configuration file, its defaults and its checks, and what a server that
    starts from it can rely on. The YAML decoder and the environment are
    parameters: [parse] is [yaml.Unmarshal] into the zero configuration and
    [lookupenv] is [os.LookupEnv]. *)

From S2P Require Import Prelude GoStrings Streaming Models Admission Limits Router Registry Callbacks Alerts Catalog.
From Stdlib Require Import SpecFloat.
Open Scope Z_scope.

(** ** Data *)

Record TelemetryConfig := mkTelemetryConfig {
  tl_ServiceName : string;
  tl_OTLPEndpoint : string;
  tl_OTLPProtocol : string;
  tl_SampleRate : float;
  tl_StdoutTracing : bool;
}.

Record AdmissionConfig := mkAdmissionConfig { ad_Disabled : bool; ad_MaxInFlight : Z; ad_MaxQueued : Z; ad_QueueTimeout : Z }.

Record ShutdownConfig := mkShutdownConfig { sh_GracePeriod : Z; sh_CleanupTimeout : Z }.

Record ServerConfig := mkServerConfig {
  sv_Addr : string;
  sv_ReadTimeout : Z;
  sv_Shutdown : ShutdownConfig;
  sv_TrustedProxies : list string;
  sv_V1Deadline : Z;
  sv_Streaming : StreamingConfig;
  sv_MetricsAddr : string;
  sv_Admission : AdmissionConfig;
}.

Record DatabaseConfig := mkDatabaseConfig { db_Driver : string; db_DSN : string }.
Record RedisConfig := mkRedisConfig { rd_Addr : string; rd_PasswordEnv : string; rd_DB : Z; rd_KeyPrefix : string }.
Record AdminConfig := mkAdminConfig { am_MasterKeyEnv : string; am_SecureCookies : bool; am_DisableMasterKey : bool; am_DisableMasterKeyLogin : bool }.
Record PayloadsConfig := mkPayloadsConfig { py_RetentionHours : Z; py_PruneIntervalHours : Z }.
Record AliasConfig := mkAliasConfig { ac_Alias : string; ac_Deployments : list string }.

(** The sign-in settings are read by [Accounts]; nothing here depends on them. *)
Record Config := mkConfiguration {
  cg_Server : ServerConfig;
  cg_Payloads : PayloadsConfig;
  cg_Telemetry : TelemetryConfig;
  cg_Database : DatabaseConfig;
  cg_Redis : RedisConfig;
  cg_Admin : AdminConfig;
  cg_Deployments : list DeploymentConfig;
  cg_Aliases : list AliasConfig;
  cg_Callbacks : list CallbackConfig;
}.

(** ** Defaults *)

Definition if_zero (v d : Z) : Z := if v =? 0 then d else v.
Definition if_empty (s d : string) : string := if (s =? "")%string then d else s.

Definition Shutdown_WithDefaults (s : ShutdownConfig) : ShutdownConfig :=
  mkShutdownConfig (if_zero (sh_GracePeriod s) (30 * Second)) (if_zero (sh_CleanupTimeout s) (10 * Second)).

Definition Shutdown_Validate (s : ShutdownConfig) : bool :=
  negb ((sh_GracePeriod s <? 0) || (24 * Hour <? sh_GracePeriod s)) && negb ((sh_CleanupTimeout s <? 0) || (5 * Minute <? sh_CleanupTimeout s)).

(** The constant 0.1 as a float64. *)
Definition one_tenth : float := S754_finite false 7205759403792794 (-56).

Definition float_is_zero (f : float) : bool := match f with S754_zero _ => true | _ => false end.

(** Negative settings are kept, so that the checks refuse them. *)
Definition default_streaming (s : StreamingConfig) : StreamingConfig :=
  let d := WithDefaults s in
  mkStreamingConfig (if_zero (FirstEventTimeout s) (FirstEventTimeout d)) (if_zero (IdleTimeout s) (IdleTimeout d))
    (if_zero (WriteTimeout s) (WriteTimeout d)) (KeepaliveInterval s).

Definition default_admission (a : AdmissionConfig) : AdmissionConfig :=
  mkAdmissionConfig (ad_Disabled a) (if_zero (ad_MaxInFlight a) 1024) (if_zero (ad_MaxQueued a) 256) (if_zero (ad_QueueTimeout a) (250 * Millisecond)).

Definition default_server (s : ServerConfig) : ServerConfig :=
  mkServerConfig (if_empty (sv_Addr s) ":4000") (if_zero (sv_ReadTimeout s) (30 * Second)) (Shutdown_WithDefaults (sv_Shutdown s)) (sv_TrustedProxies s)
    (if_zero (sv_V1Deadline s) (90 * Second)) (default_streaming (sv_Streaming s)) (if_empty (sv_MetricsAddr s) "127.0.0.1:9090")
    (default_admission (sv_Admission s)).

Definition default_telemetry (t : TelemetryConfig) : TelemetryConfig :=
  mkTelemetryConfig (if_empty (tl_ServiceName t) "gatemux") (tl_OTLPEndpoint t) (if_empty (tl_OTLPProtocol t) "http")
    (if negb (tl_OTLPEndpoint t =? "")%string && float_is_zero (tl_SampleRate t) then one_tenth else tl_SampleRate t) (tl_StdoutTracing t).

Definition applyDefaults (c : Config) : Config :=
  mkConfiguration (default_server (cg_Server c)) (cg_Payloads c) (default_telemetry (cg_Telemetry c)) (cg_Database c)
    (mkRedisConfig (rd_Addr (cg_Redis c)) (rd_PasswordEnv (cg_Redis c)) (rd_DB (cg_Redis c)) (if_empty (rd_KeyPrefix (cg_Redis c)) "aiport"))
    (cg_Admin c) (cg_Deployments c) (cg_Aliases c) (cg_Callbacks c).

(** ** Checks *)

Inductive config_error :=
| CfgRead | CfgParse | CfgShutdown | CfgCallbacks | CfgStreaming | CfgInFlight | CfgQueued | CfgQueueTimeout
| CfgDriver | CfgDSN | CfgMasterKeyName | CfgMasterKeyEmpty | CfgRedisPassword
| CfgDeployment (name what : string)
| CfgAlias (name what : string).

Section Load.
Variable lookupenv : string -> option string.
Variable parse : string -> option Config.

Definition Getenv (name : string) : string := default "" (lookupenv name).

(** A set but empty variable does not fall back to its old name. *)
Definition Env (name : string) : string :=
  match lookupenv name with
  | Some value => value
  | None => if HasPrefix name "GATEMUX_" then Getenv ("AIPORT_" +:+ TrimPrefix name "GATEMUX_") else ""
  end.

Definition check_deployment (seen : gset string) (d : DeploymentConfig) : result config_error unit :=
  let bad := CfgDeployment (dcf_Name d) in
  _ ← fail_if (dcf_Name d =? "")%string (bad "empty name");
  _ ← fail_if (bool_decide (dcf_Name d ∈ seen)) (bad "duplicate");
  _ ← fail_if (dcf_Type d =? "")%string (bad "type is required");
  _ ← fail_if (dcf_UpstreamModel d =? "")%string (bad "upstream_model is required");
  _ ← fail_if (dcf_APIKeyEnv d =? "")%string (bad "api_key_env is required");
  _ ← fail_if (dcf_MaxParallelRequests d <? 0) (bad "max_parallel_requests must be non-negative");
  fail_if (match dcf_Streaming d with Some s => negb (ValidateStreaming s) | None => false end) (bad "streaming").

Fixpoint check_deployments (seen : gset string) (ds : list DeploymentConfig) : result config_error (gset string) :=
  match ds with
  | [] => Ok seen
  | d :: ds => _ ← check_deployment seen d; check_deployments ({[dcf_Name d]} ∪ seen) ds
  end.

Definition check_alias (deployNames seen : gset string) (a : AliasConfig) : result config_error unit :=
  let bad := CfgAlias (ac_Alias a) in
  _ ← fail_if (ac_Alias a =? "")%string (bad "empty name");
  _ ← fail_if (bool_decide (ac_Alias a ∈ seen)) (bad "duplicate");
  _ ← fail_if (bool_decide (ac_Deployments a = [])) (bad "must reference at least one deployment");
  fail_if (negb (forallb (fun d => bool_decide (d ∈ deployNames)) (ac_Deployments a))) (bad "deployment is not defined").

Fixpoint check_aliases (deployNames seen : gset string) (al : list AliasConfig) : result config_error unit :=
  match al with
  | [] => Ok tt
  | a :: al => _ ← check_alias deployNames seen a; check_aliases deployNames ({[ac_Alias a]} ∪ seen) al
  end.

Definition validate (c : Config) : result config_error unit :=
  let s := cg_Server c in
  _ ← fail_if (negb (Shutdown_Validate (sv_Shutdown s))) CfgShutdown;
  _ ← fail_if (32 <? length (cg_Callbacks c))%nat CfgCallbacks;
  _ ← fail_if (negb (ValidateStreaming (sv_Streaming s))) CfgStreaming;
  _ ← fail_if (ad_MaxInFlight (sv_Admission s) <? 0) CfgInFlight;
  _ ← fail_if (ad_MaxQueued (sv_Admission s) <? 0) CfgQueued;
  _ ← fail_if (ad_QueueTimeout (sv_Admission s) <? 0) CfgQueueTimeout;
  _ ← fail_if (negb (db_Driver (cg_Database c) =? "postgres")%string) CfgDriver;
  _ ← fail_if (db_DSN (cg_Database c) =? "")%string CfgDSN;
  _ ← fail_if (am_MasterKeyEnv (cg_Admin c) =? "")%string CfgMasterKeyName;
  _ ← fail_if (Env (am_MasterKeyEnv (cg_Admin c)) =? "")%string CfgMasterKeyEmpty;
  _ ← fail_if (negb (rd_PasswordEnv (cg_Redis c) =? "")%string && (Getenv (rd_PasswordEnv (cg_Redis c)) =? "")%string) CfgRedisPassword;
  deployNames ← check_deployments ∅ (cg_Deployments c);
  check_aliases deployNames ∅ (cg_Aliases c).

(** [file] is what reading the path gives. *)
Definition Load (file : option string) : result config_error Config :=
  match file with
  | None => Err CfgRead
  | Some b => match parse b with
              | None => Err CfgParse
              | Some c => let c := applyDefaults c in _ ← validate c; Ok c
              end
  end.
End Load.

(** ** What a loaded configuration satisfies *)

Ltac checks H :=
  repeat match type of H with
  | (_ ≫= _) = Ok _ => let u := fresh "u" in let E := fresh "E" in apply bind_Ok_inv in H as (u & E & H); try (apply fail_if_Ok_inv in E); cbn beta in H
  | fail_if _ _ = Ok _ => apply fail_if_Ok_inv in H
  end.

Definition deployment_checked (d : DeploymentConfig) : Prop :=
  dcf_Name d <> "" /\ dcf_Type d <> "" /\ dcf_UpstreamModel d <> "" /\ dcf_APIKeyEnv d <> "" /\ 0 <= dcf_MaxParallelRequests d /\
  forall s, dcf_Streaming d = Some s -> ValidateStreaming s = true.

Lemma check_deployment_ok seen d : check_deployment seen d = Ok tt -> deployment_checked d /\ dcf_Name d ∉ seen.
Proof.
  unfold check_deployment. intros H. checks H. rewrite !String.eqb_neq in *. apply bool_decide_eq_false in E0. apply Z.ltb_ge in E4. split; [| done].
  split_and!; try done. intros s Hs. rewrite Hs in H. by apply negb_false_iff in H.
Qed.

Lemma check_deployments_ok ds seen names :
  check_deployments seen ds = Ok names ->
  Forall deployment_checked ds /\ NoDup (dcf_Name <$> ds) /\ (forall d, d ∈ ds -> dcf_Name d ∉ seen) /\ names = list_to_set (dcf_Name <$> ds) ∪ seen.
Proof.
  revert seen. induction ds as [| d ds IH]; intros seen H; cbn in H.
  - injection H as <-. split_and!; try constructor; [by intros d Hd%elem_of_nil | set_solver].
  - apply bind_Ok_inv in H as ([] & [Hd Hn]%check_deployment_ok & H). apply IH in H as (Hds & Hnd & Hns & ->). cbn.
    split_and!; [by constructor | constructor; [| done] | intros x [-> | Hx]%elem_of_cons; [done |]; specialize (Hns x Hx); set_solver | set_solver].
    intros (x & E & Hx)%list_elem_of_fmap. specialize (Hns x Hx). set_solver.
Qed.

Definition alias_checked (ds : list DeploymentConfig) (a : AliasConfig) : Prop :=
  ac_Alias a <> "" /\ ac_Deployments a <> [] /\ Forall (fun n => n ∈ dcf_Name <$> ds) (ac_Deployments a).

Lemma check_aliases_ok ds al seen :
  check_aliases (list_to_set (dcf_Name <$> ds) ∪ ∅) seen al = Ok tt ->
  Forall (alias_checked ds) al /\ NoDup (ac_Alias <$> al) /\ forall a, a ∈ al -> ac_Alias a ∉ seen.
Proof.
  revert seen. induction al as [| a al IH]; intros seen H; cbn in H; [split_and!; try constructor; by intros a Ha%elem_of_nil |].
  apply bind_Ok_inv in H as ([] & Ha & (Hal & Hnd & Hns)%IH). unfold check_alias in Ha. checks Ha.
  apply String.eqb_neq in E. apply bool_decide_eq_false in E0, E1. apply negb_false_iff in Ha. rewrite forallb_forall in Ha.
  split_and!.
  - constructor; [| done]. split_and!; try done. apply Forall_forall. intros n Hn%list_elem_of_In. apply Ha, bool_decide_eq_true in Hn. set_solver.
  - cbn. constructor; [| done]. intros (x & E' & Hx)%list_elem_of_fmap. specialize (Hns x Hx). set_solver.
  - intros x [-> | Hx]%elem_of_cons; [done |]. specialize (Hns x Hx). set_solver.
Qed.

Lemma if_zero_pos v d : 0 < d -> 0 <= if_zero v d -> 0 < if_zero v d.
Proof. unfold if_zero. destruct (v =? 0) eqn:E; [done |]. apply Z.eqb_neq in E. lia. Qed.

Lemma if_zero_ne v d : d <> 0 -> if_zero v d <> 0.
Proof. unfold if_zero. destruct (Z.eqb_spec v 0); done. Qed.

Lemma default_streaming_pos s : ValidateStreaming (default_streaming s) = true ->
  let s := default_streaming s in
  Forall (fun v => 0 < v <= 24 * Hour) [FirstEventTimeout s; IdleTimeout s; WriteTimeout s] /\
  (KeepaliveInterval s = 0 \/ 10 * Millisecond <= KeepaliveInterval s <= 24 * Hour) /\ WithDefaults s = s.
Proof.
  intros H s'. unfold ValidateStreaming in H. fold s' in H. apply andb_true_iff in H as [H Hk]. rewrite forallb_forall in H.
  assert (forall v, v ∈ [FirstEventTimeout s'; IdleTimeout s'; WriteTimeout s'; KeepaliveInterval s'] -> 0 <= v <= 24 * Hour) as Hr.
  { intros v Hv%list_elem_of_In%H. apply negb_true_iff, orb_false_iff in Hv. lia. }
  assert (0 < FirstEventTimeout s' /\ 0 < IdleTimeout s' /\ 0 < WriteTimeout s') as (H1 & H2 & H3).
  { split_and!; (apply if_zero_pos; [cbn -[Second]; unfold or_default; case_match; unfold Second; lia | apply Hr; set_solver]). }
  split_and!.
  - repeat constructor; try done; apply Hr; set_solver.
  - pose proof (Hr (KeepaliveInterval s') ltac:(set_solver)). apply negb_true_iff, andb_false_iff in Hk. lia.
  - unfold WithDefaults, or_default. rewrite !(proj2 (Z.leb_gt _ _)) by done. by destruct s'.
Qed.

Lemma if_zero_idem v d : d <> 0 -> if_zero (if_zero v d) d = if_zero v d.
Proof. unfold if_zero. destruct (v =? 0) eqn:E; [| by rewrite E]. intros H. by rewrite (proj2 (Z.eqb_neq _ _)). Qed.

Lemma if_empty_idem v d : if_empty (if_empty v d) d = if_empty v d.
Proof. unfold if_empty. destruct (v =? "")%string eqn:E; [by destruct (d =? "")%string | by rewrite E]. Qed.

Lemma if_zero_or_default v d : d <> 0 -> if_zero (if_zero v (or_default v d)) (or_default (if_zero v (or_default v d)) d) = if_zero v (or_default v d).
Proof.
  intros Hd. unfold if_zero, or_default. destruct (v =? 0) eqn:E; [| by rewrite E]. apply Z.eqb_eq in E as ->. cbn [Z.leb Z.compare].
  by rewrite (proj2 (Z.eqb_neq _ _)).
Qed.

(** Defaults that were applied change nothing when they are applied again. *)
Lemma applyDefaults_idem c : applyDefaults (applyDefaults c) = applyDefaults c.
Proof.
  unfold applyDefaults. cbn. f_equal.
  - unfold default_server, default_admission, Shutdown_WithDefaults, default_streaming, WithDefaults. cbn -[Second Millisecond].
    rewrite !if_empty_idem, !if_zero_or_default, !if_zero_idem; done.
  - unfold default_telemetry. cbn. rewrite !if_empty_idem. f_equal.
    destruct (tl_OTLPEndpoint _ =? "")%string; [done |]. by destruct (tl_SampleRate (cg_Telemetry c)).
  - by rewrite if_empty_idem.
Qed.

Lemma Load_inv lookupenv parse file c : Load lookupenv parse file = Ok c ->
  exists b c0, file = Some b /\ parse b = Some c0 /\ c = applyDefaults c0 /\ validate lookupenv c = Ok tt.
Proof.
  unfold Load. destruct file as [b |]; [| done]. destruct (parse b) as [c0 |] eqn:E; [| done]. intros ([] & Hv & [= <-])%bind_Ok_inv. eauto 10.
Qed.

Lemma gate_with_capacity i q w : 0 < i -> 0 < q -> Gate.New (Gate.mkConfig i q w) = Some (Gate.mkGate 0 i 0 q w 0 0).
Proof. intros Hi Hq. unfold Gate.New. cbn. rewrite (proj2 (Z.leb_gt _ _)) by done. by rewrite (proj2 (Z.ltb_ge _ _)) by lia. Qed.

Section Loaded.
Variable lookupenv : string -> option string.
Variable parse : string -> option Config.

(** C35. A configuration that loads has a grace period of at most a day and a cleanup time
    of at most five minutes, both positive; the times of a stream for the first event,
    between events and for a write are positive and at most a day, and its keepalive is
    0 or between 10 ms and a day; the numbers of the admission gate and its queueing time are
    positive (the code sets no upper bound), so that the gate, where it is not switched off,
    is made with that capacity; the deadline of a request is not 0 (a negative one
    passes, [negative_deadline_is_accepted]); there is a master key and there are at
    most 32 callbacks; deployments and aliases pass their checks and have distinct
    names, every alias referring to configured deployments; and the defaults are
    applied once and for all. Nothing is said of other times, such as the read timeout. *)
Theorem loaded_configuration_is_sound (file : option string) (c : Config) (Hload : Load lookupenv parse file = Ok c) :
  let s := cg_Server c in
  0 < sh_GracePeriod (sv_Shutdown s) <= 24 * Hour /\ 0 < sh_CleanupTimeout (sv_Shutdown s) <= 5 * Minute /\
  Forall (fun v => 0 < v <= 24 * Hour) [FirstEventTimeout (sv_Streaming s); IdleTimeout (sv_Streaming s); WriteTimeout (sv_Streaming s)] /\
  (KeepaliveInterval (sv_Streaming s) = 0 \/ 10 * Millisecond <= KeepaliveInterval (sv_Streaming s) <= 24 * Hour) /\
  (let a := sv_Admission s in
   Gate.New (Gate.mkConfig (ad_MaxInFlight a) (ad_MaxQueued a) (ad_QueueTimeout a)) =
   Some (Gate.mkGate 0 (ad_MaxInFlight a) 0 (ad_MaxQueued a) (ad_QueueTimeout a) 0 0) /\ 0 < ad_MaxInFlight a /\ 0 < ad_MaxQueued a /\ 0 < ad_QueueTimeout a) /\
  Env lookupenv (am_MasterKeyEnv (cg_Admin c)) <> "" /\ (length (cg_Callbacks c) <= 32)%nat /\ sv_V1Deadline s <> 0 /\
  Forall deployment_checked (cg_Deployments c) /\ NoDup (dcf_Name <$> cg_Deployments c) /\
  Forall (alias_checked (cg_Deployments c)) (cg_Aliases c) /\ NoDup (ac_Alias <$> cg_Aliases c) /\
  applyDefaults c = c.
Proof.
  destruct (Load_inv _ _ _ _ Hload) as (b & c0 & -> & Hc & -> & Hv). clear Hload Hc. intros s. unfold validate in Hv. fold s in Hv. checks Hv.
  apply check_deployments_ok in E10 as (Hds & Hnd & _ & ->). apply check_aliases_ok in Hv as (Hal & Hna & _).
  apply negb_false_iff in E, E1, E5. apply Z.ltb_ge in E2, E3, E4. apply Nat.ltb_ge in E0. apply String.eqb_neq in E8.
  apply default_streaming_pos in E1 as (Hs1 & Hs2 & Hs3).
  unfold Shutdown_Validate in E. rewrite !andb_true_iff, !negb_true_iff, !orb_false_iff, !Z.ltb_ge in E. destruct E as [Eg Ec].
  assert (0 < ad_MaxInFlight (sv_Admission s)) as H1 by (apply if_zero_pos; [lia | exact E2]).
  assert (0 < ad_MaxQueued (sv_Admission s)) as H2 by (apply if_zero_pos; [lia | exact E3]).
  assert (0 < ad_QueueTimeout (sv_Admission s)) as H3 by (apply if_zero_pos; [unfold Millisecond; lia | exact E4]).
  assert (0 < sh_GracePeriod (sv_Shutdown s)) as H4 by (apply if_zero_pos; [unfold Second; lia | apply Eg]).
  assert (0 < sh_CleanupTimeout (sv_Shutdown s)) as H5 by (apply if_zero_pos; [unfold Second; lia | apply Ec]).
  split_and!; try done; try lia.
  - intros a. by split_and!; [apply gate_with_capacity | ..].
  - by apply if_zero_ne.
  - apply applyDefaults_idem.
Qed.
End Loaded.

(** ** The start of a server ([New] of [internal/server/server.go] up to the router)

    The key the session middleware compares with, empty when it is switched off, and
    the catalogue after the synchronisation. *)

Definition alias_pair (a : AliasConfig) : string * list string := (ac_Alias a, ac_Deployments a).

Definition New_start (lookupenv : string -> option string) (c : Config) (t : catalog) : catalog * result string string :=
  if negb (Shutdown_Validate (sv_Shutdown (cg_Server c))) then (t, Err "shutdown")
  else if (32 <? length (cg_Callbacks c))%nat then (t, Err "at most 32 callbacks may be configured")
  else
    let masterKey := Env lookupenv (am_MasterKeyEnv (cg_Admin c)) in
    if (masterKey =? "")%string then (t, Err "admin master key env is empty")
    else
      match sync (cg_Deployments c) (alias_pair <$> cg_Aliases c) t with
      | (t, true) => (t, Ok (if am_DisableMasterKey (cg_Admin c) then "" else masterKey))
      | (t, false) => (t, Err "sync")
      end.

(** A row as its entry of the configuration wants it; a row that was there keeps its
    identifier, switch, weight and tags. *)
Definition row_of (d : DeploymentConfig) (old : option Deployment) (x : Deployment) : Prop :=
  dep_Name x = dcf_Name d /\ dep_ProviderType x = dcf_Type d /\ dep_UpstreamModel x = dcf_UpstreamModel d /\ dep_CredentialRef x = dcf_APIKeyEnv d /\
  dep_BaseURL x = nonEmptyStringPtr (dcf_BaseURL d) /\ dep_Region x = nonEmptyStringPtr (dcf_Region d) /\ dep_Streaming x = dcf_Streaming d /\
  dep_MaxParallelRequests x = (if 0 <? dcf_MaxParallelRequests d then Some (dcf_MaxParallelRequests d) else None) /\ dep_Capabilities x = None /\
  forall o, old = Some o -> dep_ID x = dep_ID o /\ dep_Enabled x = dep_Enabled o /\ dep_Weight x = dep_Weight o /\ dep_Tags x = dep_Tags o.

Lemma upsert_config d t :
  deployment_checked d -> dcf_MaxParallelRequests d <= 2147483647 -> catalog_ok t ->
  exists t' x, UpsertDeployment (config_upsert d) t = (t', Ok x) /\ catalog_ok t' /\ ct_aliases t' = ct_aliases t /\ ct_links t' = ct_links t /\
    ct_deployments t' = <[dcf_Name d := x]> (ct_deployments t) /\ row_of d (ct_deployments t !! dcf_Name d) x.
Proof.
  intros (_ & _ & _ & _ & Hm & Hs) Hmax Hok. pose proof (upsert_deployment_ok (config_upsert d) t ltac:(done) Hok) as Hok'. revert Hok'.
  unfold UpsertDeployment. cbn [u_streaming config_upsert].
  assert (match dcf_Streaming d with Some s => ValidateStreaming s | None => true end = true) as -> by (destruct (dcf_Streaming d); auto).
  assert (match u_max_parallel (config_upsert d) with Some n => (0 <? n) && (n <=? 2147483647) | None => true end = true) as ->.
  { cbn. destruct (0 <? dcf_MaxParallelRequests d) eqn:E; [| done]. rewrite E. by apply Z.leb_le. }
  cbn. intros Hok'. eexists _, _. split; [done |]. split_and!; try done. unfold row_of. cbn. split_and!; try done. by intros o ->.
Qed.

Lemma sync_config_deployments ds t :
  Forall deployment_checked ds -> Forall (fun d => dcf_MaxParallelRequests d <= 2147483647) ds -> NoDup (dcf_Name <$> ds) -> catalog_ok t ->
  exists t', sync_deployments ds t = (t', true) /\ catalog_ok t' /\ ct_aliases t' = ct_aliases t /\ ct_links t' = ct_links t /\
    (forall d, d ∈ ds -> exists x, ct_deployments t' !! dcf_Name d = Some x /\ row_of d (ct_deployments t !! dcf_Name d) x) /\
    (forall n, n ∉ dcf_Name <$> ds -> ct_deployments t' !! n = ct_deployments t !! n).
Proof.
  intros Hds Hmax. revert t. induction Hds as [| d ds Hd Hds IH]; intros t Hnd Hok.
  - exists t. split_and!; try done. by intros d Hd%elem_of_nil.
  - apply Forall_cons in Hmax as [Hm Hmax]. rewrite fmap_cons, NoDup_cons in Hnd. destruct Hnd as [Hn Hnd].
    destruct (upsert_config d t Hd Hm Hok) as (t1 & x & E & Hok1 & Ha1 & Hl1 & Hd1 & Hx).
    destruct (IH Hmax t1 Hnd Hok1) as (t' & E' & Hok' & Ha' & Hl' & Hin & Hout). exists t'. cbn [sync_deployments]. rewrite E.
    split_and!; try done; try congruence.
    + intros y [-> | Hy]%elem_of_cons.
      * exists x. rewrite Hout by done. by rewrite Hd1, lookup_insert_eq.
      * destruct (Hin y Hy) as (z & Hz & Hrow). exists z. split; [done |]. rewrite Hd1, lookup_insert_ne in Hrow; [done |].
        intros Heq. apply Hn. rewrite Heq. by apply list_elem_of_fmap_2.
    + intros n Hnn. rewrite fmap_cons, not_elem_of_cons in Hnn. destruct Hnn as [Hne Hnn]. by rewrite Hout, Hd1, lookup_insert_ne by done.
Qed.

Lemma upsert_config_alias alias names t :
  names <> [] -> NoDup names -> Forall (fun n => is_Some (ct_deployments t !! n)) names -> catalog_ok t ->
  exists t', UpsertAlias alias names t = (t', Ok tt) /\ catalog_ok t' /\ ct_deployments t' = ct_deployments t /\
    (exists row, ct_aliases t' !! alias = Some row /\ targets_of row t' = ranked names) /\
    forall n row, n <> alias -> ct_aliases t !! n = Some row -> ct_aliases t' !! n = Some row /\ targets_of row t' = targets_of row t.
Proof.
  intros Hne Hnd Hall Hok. pose proof (upsert_alias_ok alias names t Hok) as Hok'.
  assert (exists t', UpsertAlias alias names t = (t', Ok tt) /\ ct_deployments t' = ct_deployments t /\ is_Some (ct_aliases t' !! alias)) as (t' & E & Hd & [row Hrow]).
  { unfold UpsertAlias. rewrite bool_decide_eq_false_2 by done. assert (forallb (fun n => bool_decide (is_Some (ct_deployments t !! n))) names = true) as ->.
    { apply forallb_forall. intros n Hn%list_elem_of_In. rewrite Forall_forall in Hall. by apply bool_decide_eq_true, Hall. }
    cbn. rewrite bool_decide_eq_true_2 by done. cbn. eexists. split; [done |]. cbn. by rewrite lookup_insert_eq. }
  rewrite E in Hok'. exists t'. split_and!; [done | done | done | exists row; split; [done | exact (upsert_alias_targets _ _ _ _ _ Hok E Hrow)] |].
  intros n r Hn Hr. exact (upsert_alias_others _ _ _ _ _ _ Hok E Hn Hr).
Qed.

Lemma sync_config_aliases al t :
  Forall (fun a => ac_Deployments a <> [] /\ NoDup (ac_Deployments a) /\ Forall (fun n => is_Some (ct_deployments t !! n)) (ac_Deployments a)) al ->
  NoDup (ac_Alias <$> al) -> catalog_ok t ->
  exists t', sync_aliases (alias_pair <$> al) t = (t', true) /\ catalog_ok t' /\ ct_deployments t' = ct_deployments t /\
    (forall a, a ∈ al -> exists row, ct_aliases t' !! ac_Alias a = Some row /\ targets_of row t' = ranked (ac_Deployments a)) /\
    forall n row, n ∉ ac_Alias <$> al -> ct_aliases t !! n = Some row -> ct_aliases t' !! n = Some row /\ targets_of row t' = targets_of row t.
Proof.
  revert t. induction al as [| a al IH]; intros t Hal Hnd Hok.
  - exists t. split_and!; try done. by intros a Ha%elem_of_nil.
  - apply Forall_cons in Hal as [(H1 & H2 & H3) Hal]. rewrite fmap_cons, NoDup_cons in Hnd. destruct Hnd as [Hn Hnd].
    destruct (upsert_config_alias (ac_Alias a) (ac_Deployments a) t H1 H2 H3 Hok) as (t1 & E & Hok1 & Hd1 & (row & Hrow & Ht) & Hothers).
    rewrite <- Hd1 in Hal. destruct (IH t1 Hal Hnd Hok1) as (t' & E' & Hok' & Hd' & Hin & Hout). exists t'. cbn [fmap list_fmap sync_aliases alias_pair].
    rewrite E. split_and!; [done | done | congruence | |].
    + intros x [-> | Hx]%elem_of_cons; [| by apply Hin]. destruct (Hout _ _ Hn Hrow) as [Hr Ht']. exists row. split; [done |]. congruence.
    + intros n r [Hne Hx]%not_elem_of_cons Hr. destruct (Hothers n r Hne Hr) as [Hr1 Ht1].
      destruct (Hout n r Hx Hr1) as [Hr2 Ht2]. split; [done |]. congruence.
Qed.

Section Starts.
Variable lookupenv : string -> option string.
Variable parse : string -> option Config.

(** A server with a loaded configuration whose aliases name no deployment twice and
    whose limits fit the column starts on any catalogue the gateway's operations can
    leave: every configured deployment is stored as configured, every configured alias
    leads to its deployments in the given order, and deployments and aliases of the
    administration are kept. *)
Theorem loaded_configuration_starts (file : option string) (c : Config) (os : list catalog_op)
    (Hload : Load lookupenv parse file = Ok c) (Hdup : Forall (fun a => NoDup (ac_Deployments a)) (cg_Aliases c))
    (Hmax : Forall (fun d => dcf_MaxParallelRequests d <= 2147483647) (cg_Deployments c)) :
  let t := catalog_history os in
  exists t', New_start lookupenv c t = (t', Ok (if am_DisableMasterKey (cg_Admin c) then "" else Env lookupenv (am_MasterKeyEnv (cg_Admin c)))) /\
    (forall d, d ∈ cg_Deployments c -> exists x, ct_deployments t' !! dcf_Name d = Some x /\ row_of d (ct_deployments t !! dcf_Name d) x) /\
    (forall n, n ∉ dcf_Name <$> cg_Deployments c -> ct_deployments t' !! n = ct_deployments t !! n) /\
    (forall a, a ∈ cg_Aliases c -> exists row, ct_aliases t' !! ac_Alias a = Some row /\ targets_of row t' = ranked (ac_Deployments a)) /\
    (forall n row, n ∉ ac_Alias <$> cg_Aliases c -> ct_aliases t !! n = Some row -> ct_aliases t' !! n = Some row).
Proof.
  destruct (Load_inv _ _ _ _ Hload) as (b & c0 & -> & _ & Hc0 & Hv). intros t. pose proof (catalog_history_ok os) as Hok. fold t in Hok.
  unfold validate in Hv. checks Hv. apply check_deployments_ok in E10 as (Hds & Hnd & _ & ->). apply check_aliases_ok in Hv as (Hal & Hna & _).
  unfold New_start. rewrite E, E0, E8. unfold sync.
  destruct (sync_config_deployments _ t Hds Hmax Hnd Hok) as (t1 & -> & Hok1 & Ha1 & _ & Hin & Hout).
  destruct (sync_config_aliases (cg_Aliases c) t1) as (t' & -> & _ & Hd' & Hain & Haout); [| done | done |].
  - rewrite Forall_forall in Hal, Hdup |- *. intros a Ha. destruct (Hal a Ha) as (_ & Hne & Hall). split_and!; [done | by apply Hdup |].
    rewrite Forall_forall in Hall |- *. intros n Hn. apply Hall, list_elem_of_fmap in Hn as (d & -> & Hd). destruct (Hin d Hd) as (x & Hx & _). eauto.
  - exists t'. rewrite Hd'. split_and!; [done | exact Hin | exact Hout | exact Hain |]. intros n row Hn Hrow. rewrite <- Ha1 in Hrow. by apply Haout.
Qed.
End Starts.

(** ** Findings and evaluation *)

(** The metrics listener cannot be switched off by an empty address. *)
Lemma metrics_listener_cannot_be_disabled lookupenv parse file c :
  Load lookupenv parse file = Ok c -> sv_MetricsAddr (cg_Server c) <> "".
Proof.
  intros (b & c0 & _ & _ & -> & _)%Load_inv. cbn. unfold if_empty. by destruct (String.eqb_spec (sv_MetricsAddr (cg_Server c0)) "").
Qed.

Definition example_config (deadline : Z) (targets : list string) : Config :=
  mkConfiguration (mkServerConfig "" 0 (mkShutdownConfig 0 0) [] deadline (mkStreamingConfig 0 0 0 0) "" (mkAdmissionConfig false 0 0 0))
    (mkPayloadsConfig 0 0) (mkTelemetryConfig "" "" "" (S754_zero false) false) (mkDatabaseConfig "postgres" "dsn") (mkRedisConfig "" "" 0 "")
    (mkAdminConfig "GATEMUX_KEY" false false false) [mkDeploymentConfig "east" "openai" "gpt-4o" "KEY" "" "" 8 None]
    [mkAliasConfig "gpt" targets] [].
Definition example_lookup (name : string) : option string := if (name =? "AIPORT_KEY")%string then Some "secret" else None.
Definition example_load (deadline : Z) (targets : list string) : result config_error Config :=
  Load example_lookup (fun _ => Some (example_config deadline targets)) (Some "").

(** An alias that names a deployment twice passes the checks and stops the start. *)
Lemma repeated_deployment_stops_the_start :
  exists c, example_load 0 ["east"; "east"] = Ok c /\ is_ok (New_start example_lookup c empty_catalog).2 = false.
Proof. eexists. split; [vm_compute; reflexivity | vm_compute; reflexivity]. Qed.

(** A negative deadline passes the checks. *)
Lemma negative_deadline_is_accepted : exists c, example_load (-1) ["east"] = Ok c /\ sv_V1Deadline (cg_Server c) = -1.
Proof. eexists. split; [vm_compute; reflexivity | vm_compute; reflexivity]. Qed.

Lemma loaded_configuration_is_sound_witness : ad_MaxInFlight (sv_Admission (cg_Server (applyDefaults (example_config 0 ["east"])))) = 1024 /\
  NoDup (dcf_Name <$> cg_Deployments (applyDefaults (example_config 0 ["east"]))).
Proof.
  assert (example_load 0 ["east"] = Ok (applyDefaults (example_config 0 ["east"]))) as H by (vm_compute; reflexivity).
  split; [reflexivity |]. exact (proj1 (proj2 (proj2 (proj2 (proj2 (proj2 (proj2 (proj2 (proj2 (proj2
    (loaded_configuration_is_sound _ _ _ _ H))))))))))).
Defined.

Lemma loaded_configuration_starts_witness : exists t, New_start example_lookup (applyDefaults (example_config 0 ["east"])) (catalog_history []) = (t, Ok "secret").
Proof.
  assert (example_load 0 ["east"] = Ok (applyDefaults (example_config 0 ["east"]))) as H by (vm_compute; reflexivity).
  destruct (loaded_configuration_starts _ _ _ _ [] H) as (t & Ht & _).
  - apply Forall_singleton. cbn. apply NoDup_singleton.
  - apply Forall_singleton. cbn. lia.
  - exists t. exact Ht.
Defined.
