(* ===== verification/Lifecycle.v ===== *)
(** * Starting, draining and stopping a server ([internal/server/lifecycle.go],
    [Start] and [handleReady] of [internal/server/server.go])

    Requests of the data plane, the drain switch, the goroutine that listens, the
    workers and the shutdown sequence, as program counters over the mutexes and
    channels they share. The ends of handlers and of library calls, expiring
    deadlines and the interleaving are arbitrary. *)

From S2P Require Import Prelude.

(** ** State *)

(** [context.AfterFunc]: the callback of a request on the server's context. *)
Inductive hook := HNone | HArmed | HRunning | HFired | HStopped.

(** Where a request is in [inferenceLifecycle]. *)
Inductive request_pc := QArrived | QRefused | QRegistered | QServing | QLeaving | QJoining | QFinal | QGone.

Record request := mkReq { q_pc : request_pc; q_hook : hook; q_cancelled : bool }.

(** Where [Start] is; [TListen] holds [serveMu]. *)
Inductive start_pc := TIdle | TListen | TServing | TClosing | TReturned.
Inductive metrics_pc := MNone | MServing | MDone.

(** What [shutdown] appends to its errors. *)
Inductive failure := FHttp | FGrace | FCleanup | FWorker (i : nat) | FUsage | FMetrics | FServe | FMetricsDone | FTelemetry.

(** Where [shutdown] is; an [Await] holds the channel it read under the mutex, and the
    last waits whether the listeners' channels were made. *)
Inductive shutdown_pc :=
| PIdle | PReadServe | PHttp | PWait1 | PAwait1 (ch : nat) | PCancel | PWait2 | PAwait2 (ch : nat)
| PWorkersCancel | PWorker (i : nat) | PUsage | PMetrics | PServe | PMetricsDone | PClose | PTelemetry | PReturned.

Record server := mkServer {
  s_draining : bool;
  s_active : nat;
  (** the channels made for [requestsDone], with whether each is closed, and the current one *)
  s_chans : list bool;
  s_cur : nat;
  (** [requestCtx] and the workers' context *)
  s_cancelled : bool;
  s_workers_cancelled : bool;
  s_workers : list bool;
  s_usage_cancelled : bool;
  s_usage_done : bool;
  s_start : start_pc;
  s_metrics : metrics_pc;
  s_http_closed : bool;
  s_metrics_closed : bool;
  s_clients_closed : bool;
  s_grace_expired : bool;
  s_cleanup_expired : bool;
  s_pc : shutdown_pc;
  (** [serveDone] and [metricsDone] as the shutdown read them: made or [nil] *)
  s_serve : bool;
  s_metrics_made : bool;
  s_failures : list failure;
}.

(** [New] with [n] workers, after [initLifecycle]. *)
Definition initLifecycle (n : nat) : server :=
  mkServer false 0 [true] 0 false false (replicate n false) false false TIdle MNone false false false false false PIdle false false [].

Definition set_requests (draining : bool) (active : nat) (chans : list bool) (cur : nat) (s : server) : server :=
  mkServer draining active chans cur (s_cancelled s) (s_workers_cancelled s) (s_workers s) (s_usage_cancelled s) (s_usage_done s) (s_start s) (s_metrics s)
    (s_http_closed s) (s_metrics_closed s) (s_clients_closed s) (s_grace_expired s) (s_cleanup_expired s) (s_pc s) (s_serve s) (s_metrics_made s) (s_failures s).
Definition set_cancelled (b : bool) (s : server) : server :=
  mkServer (s_draining s) (s_active s) (s_chans s) (s_cur s) b (s_workers_cancelled s) (s_workers s) (s_usage_cancelled s) (s_usage_done s) (s_start s) (s_metrics s)
    (s_http_closed s) (s_metrics_closed s) (s_clients_closed s) (s_grace_expired s) (s_cleanup_expired s) (s_pc s) (s_serve s) (s_metrics_made s) (s_failures s).
Definition set_background (wc : bool) (ws : list bool) (uc ud : bool) (s : server) : server :=
  mkServer (s_draining s) (s_active s) (s_chans s) (s_cur s) (s_cancelled s) wc ws uc ud (s_start s) (s_metrics s)
    (s_http_closed s) (s_metrics_closed s) (s_clients_closed s) (s_grace_expired s) (s_cleanup_expired s) (s_pc s) (s_serve s) (s_metrics_made s) (s_failures s).
Definition set_listen (st : start_pc) (m : metrics_pc) (hc mc cc : bool) (s : server) : server :=
  mkServer (s_draining s) (s_active s) (s_chans s) (s_cur s) (s_cancelled s) (s_workers_cancelled s) (s_workers s) (s_usage_cancelled s) (s_usage_done s) st m
    hc mc cc (s_grace_expired s) (s_cleanup_expired s) (s_pc s) (s_serve s) (s_metrics_made s) (s_failures s).
Definition set_timers (g c : bool) (s : server) : server :=
  mkServer (s_draining s) (s_active s) (s_chans s) (s_cur s) (s_cancelled s) (s_workers_cancelled s) (s_workers s) (s_usage_cancelled s) (s_usage_done s) (s_start s) (s_metrics s)
    (s_http_closed s) (s_metrics_closed s) (s_clients_closed s) g c (s_pc s) (s_serve s) (s_metrics_made s) (s_failures s).
Definition go (p : shutdown_pc) (fs : list failure) (s : server) : server :=
  mkServer (s_draining s) (s_active s) (s_chans s) (s_cur s) (s_cancelled s) (s_workers_cancelled s) (s_workers s) (s_usage_cancelled s) (s_usage_done s) (s_start s) (s_metrics s)
    (s_http_closed s) (s_metrics_closed s) (s_clients_closed s) (s_grace_expired s) (s_cleanup_expired s) p (s_serve s) (s_metrics_made s) (s_failures s ++ fs).
Definition set_read (serve metrics : bool) (s : server) : server :=
  mkServer (s_draining s) (s_active s) (s_chans s) (s_cur s) (s_cancelled s) (s_workers_cancelled s) (s_workers s) (s_usage_cancelled s) (s_usage_done s) (s_start s) (s_metrics s)
    (s_http_closed s) (s_metrics_closed s) (s_clients_closed s) (s_grace_expired s) (s_cleanup_expired s) (s_pc s) serve metrics (s_failures s).

(** ** Requests ([inferenceLifecycle]) *)

Definition Drain (s : server) : server := set_requests true (s_active s) (s_chans s) (s_cur s) s.

(** The section under [requestsMu] that registers a request: [None] when the server
    drains and the request is answered 503. *)
Definition enter (s : server) : option server :=
  if s_draining s then None
  else if (s_active s =? 0)%nat then Some (set_requests false 1 (s_chans s ++ [false]) (length (s_chans s)) s)
  else Some (set_requests false (S (s_active s)) (s_chans s) (s_cur s) s).

(** The section that takes it off: [None] is the panic of closing a closed channel. *)
Definition leave (s : server) : option server :=
  let n := (s_active s - 1)%nat in
  if (n =? 0)%nat
  then match s_chans s !! s_cur s with Some false => Some (set_requests (s_draining s) n (<[s_cur s := true]> (s_chans s)) (s_cur s) s) | _ => None end
  else Some (set_requests (s_draining s) n (s_chans s) (s_cur s) s).

(** A request's own step. Arming the callback on a cancelled context starts it at
    once; the handler may end or panic at any time; [stop] reports whether it kept the
    callback from running. *)
Definition request_step (s : server) (q : request) : option (server * request) :=
  match q_pc q with
  | QArrived => match enter s with None => Some (s, mkReq QRefused HNone false) | Some s' => Some (s', mkReq QRegistered HNone false) end
  | QRegistered => Some (s, mkReq QServing (if s_cancelled s then HRunning else HArmed) (q_cancelled q))
  | QServing => Some (s, mkReq QLeaving (q_hook q) (q_cancelled q))
  | QLeaving => match q_hook q with
                | HArmed => Some (s, mkReq QFinal HStopped true)
                | HRunning | HFired => Some (s, mkReq QJoining (q_hook q) (q_cancelled q))
                | HNone | HStopped => None
                end
  | QJoining => match q_hook q with HFired => Some (s, mkReq QFinal HFired true) | _ => None end
  | QFinal => match leave s with Some s' => Some (s', mkReq QGone (q_hook q) (q_cancelled q)) | None => None end
  | QRefused | QGone => None
  end.

(** The context's goroutine: it starts the armed callbacks once it is cancelled, and a
    callback cancels the request's context and closes its channel. *)
Definition hook_step (s : server) (q : request) : option request :=
  match q_hook q with
  | HArmed => if s_cancelled s then Some (mkReq (q_pc q) HRunning (q_cancelled q)) else None
  | HRunning => Some (mkReq (q_pc q) HFired true)
  | _ => None
  end.

(** ** Listening ([Start]) *)

(** What the operating system and the servers do. *)
Inductive start_choice := ListenFails | MetricsListenFails | Listens (metrics : bool) | ServeEnds | MetricsEnd.

(** The result of a start that is refused is [None]; everything between taking and
    giving back [serveMu] is [TListen]. *)
Definition start_enter (s : server) : option server :=
  match s_start s with
  | TIdle => if s_draining s then None else Some (set_listen TListen (s_metrics s) (s_http_closed s) (s_metrics_closed s) (s_clients_closed s) s)
  | _ => None
  end.

Definition start_step (s : server) (c : start_choice) : option server :=
  let keep st m := Some (set_listen st m (s_http_closed s) (s_metrics_closed s) (s_clients_closed s) s) in
  match s_start s, c with
  | TListen, (ListenFails | MetricsListenFails) => keep TClosing (s_metrics s)
  | TListen, Listens metrics => keep TServing (if metrics then MServing else MNone)
  | TServing, ServeEnds => keep TClosing (s_metrics s)
  | TClosing, _ => keep TReturned (s_metrics s)
  | _, _ => None
  end.

(** The metrics server ends by itself with an error, which closes the main one, or
    after it was closed. *)
Definition metrics_step (s : server) (failed : bool) : option server :=
  match s_metrics s with
  | MServing => if failed then Some (set_listen (s_start s) MDone true (s_metrics_closed s) (s_clients_closed s) s)
                else if s_metrics_closed s then Some (set_listen (s_start s) MDone (s_http_closed s) (s_metrics_closed s) (s_clients_closed s) s) else None
  | _ => None
  end.

Definition locked (s : server) : bool := match s_start s with TListen => true | _ => false end.
Definition serve_made (s : server) : bool := match s_start s with TIdle => false | _ => true end.
Definition serve_done (s : server) : bool := match s_start s with TReturned => true | _ => false end.
Definition metrics_made (s : server) : bool := match s_metrics s with MNone => false | _ => true end.
Definition metrics_done (s : server) : bool := match s_metrics s with MDone => true | _ => false end.

(** ** Stopping ([shutdown]) *)

(** How a library call or a [select] ends: its channel, its deadline, or as the
    library answers. *)
Inductive shutdown_choice := Ready | Expired | Returns (ok : bool).

Definition fail_unless (ok : bool) (f : failure) : list failure := if ok then [] else [f].

(** Whether the channel is closed. *)
Definition closed (s : server) (ch : nat) : bool := bool_decide (s_chans s !! ch = Some true).

(** A [select] between a channel and a deadline. *)
Definition select (ready expired : bool) (c : shutdown_choice) : option bool :=
  match c with
  | Ready => if ready then Some true else None
  | Expired => if expired then Some false else None
  | Returns _ => None
  end.

Definition shutdown_step (s : server) (c : shutdown_choice) : option server :=
  match s_pc s with
  | PIdle => Some (go PReadServe [] (Drain s))
  | PReadServe => if locked s then None else Some (go PHttp [] (set_read (serve_made s) (metrics_made s) s))
  | PHttp => match c with
             | Returns ok => Some (go PWait1 (fail_unless ok FHttp) (set_listen (s_start s) (s_metrics s) true (s_metrics_closed s) (s_clients_closed s) s))
             | _ => None
             end
  | PWait1 => Some (go (PAwait1 (s_cur s)) [] s)
  | PAwait1 ch => ok ← select (closed s ch) (s_grace_expired s) c; Some (go PCancel (fail_unless ok FGrace) s)
  | PCancel => Some (go PWait2 [] (set_listen (s_start s) (s_metrics s) true (s_metrics_closed s) (s_clients_closed s) (set_cancelled true s)))
  | PWait2 => Some (go (PAwait2 (s_cur s)) [] s)
  | PAwait2 ch => ok ← select (closed s ch) (s_cleanup_expired s) c; Some (go PWorkersCancel (fail_unless ok FCleanup) s)
  | PWorkersCancel => Some (go (PWorker 0) [] (set_background true (s_workers s) (s_usage_cancelled s) (s_usage_done s) s))
  | PWorker i =>
      match s_workers s !! i with
      | None => Some (go PUsage [] (set_background (s_workers_cancelled s) (s_workers s) true (s_usage_done s) s))
      | Some exited => ok ← select exited (s_cleanup_expired s) c; Some (go (PWorker (S i)) (fail_unless ok (FWorker i)) s)
      end
  | PUsage => ok ← select (s_usage_done s) (s_cleanup_expired s) c; Some (go PMetrics (fail_unless ok FUsage) s)
  | PMetrics => match c with
                | Returns ok => Some (go PServe (fail_unless ok FMetrics) (set_listen (s_start s) (s_metrics s) (s_http_closed s) true (s_clients_closed s) s))
                | _ => None
                end
  | PServe => if s_serve s then ok ← select (serve_done s) (s_cleanup_expired s) c; Some (go PMetricsDone (fail_unless ok FServe) s)
              else Some (go PMetricsDone [] s)
  | PMetricsDone => if s_metrics_made s then ok ← select (metrics_done s) (s_cleanup_expired s) c; Some (go PClose (fail_unless ok FMetricsDone) s)
                    else Some (go PClose [] s)
  | PClose => Some (go PTelemetry [] (set_listen (s_start s) (s_metrics s) (s_http_closed s) (s_metrics_closed s) true s))
  | PTelemetry => match c with Returns ok => Some (go PReturned (fail_unless ok FTelemetry) s) | _ => None end
  | PReturned => None
  end.

(** ** Runs *)

Record sys := mkSys { y_server : server; y_requests : list request }.

Inductive step : sys -> sys -> Prop :=
| step_arrive s qs : step (mkSys s qs) (mkSys s (qs ++ [mkReq QArrived HNone false]))
| step_request s qs i q s' q' : qs !! i = Some q -> request_step s q = Some (s', q') -> step (mkSys s qs) (mkSys s' (<[i := q']> qs))
| step_hook s qs i q q' : qs !! i = Some q -> hook_step s q = Some q' -> step (mkSys s qs) (mkSys s (<[i := q']> qs))
| step_drain s qs : step (mkSys s qs) (mkSys (Drain s) qs)
| step_start s qs s' : start_enter s = Some s' -> step (mkSys s qs) (mkSys s' qs)
| step_listen s qs c s' : start_step s c = Some s' -> step (mkSys s qs) (mkSys s' qs)
| step_metrics s qs failed s' : metrics_step s failed = Some s' -> step (mkSys s qs) (mkSys s' qs)
| step_shutdown s qs c s' : shutdown_step s c = Some s' -> step (mkSys s qs) (mkSys s' qs)
| step_worker s qs i : s_workers_cancelled s = true -> s_workers s !! i = Some false ->
    step (mkSys s qs) (mkSys (set_background true (<[i := true]> (s_workers s)) (s_usage_cancelled s) (s_usage_done s) s) qs)
| step_usage s qs : s_usage_cancelled s = true -> step (mkSys s qs) (mkSys (set_background (s_workers_cancelled s) (s_workers s) true true s) qs)
| step_grace s qs : step (mkSys s qs) (mkSys (set_timers true (s_cleanup_expired s) s) qs)
| step_cleanup s qs : step (mkSys s qs) (mkSys (set_timers (s_grace_expired s) true s) qs).

Definition reachable (n : nat) (y : sys) : Prop := rtc step (mkSys (initLifecycle n) []) y.

(** ** The invariant *)

(** The requests that count as active. *)
Definition registered (q : request) : bool := match q_pc q with QRegistered | QServing | QLeaving | QJoining | QFinal => true | _ => false end.

Definition hook_ok (q : request) : bool :=
  match q_pc q, q_hook q with
  | (QServing | QLeaving), (HArmed | HRunning | HFired) => true
  | QJoining, (HRunning | HFired) => true
  | (QArrived | QRefused | QRegistered), HNone => true
  | QFinal, (HStopped | HFired) => true
  | QGone, (HStopped | HFired) => true
  | _, _ => false
  end.

(** The order of the phases of a shutdown. *)
Definition phase (p : shutdown_pc) : nat :=
  match p with
  | PIdle => 0 | PReadServe => 1 | PHttp => 2 | PWait1 => 3 | PAwait1 _ => 4 | PCancel => 5 | PWait2 => 6 | PAwait2 _ => 7 | PWorkersCancel => 8
  | PWorker _ => 9 | PUsage => 10 | PMetrics => 11 | PServe => 12 | PMetricsDone => 13 | PClose => 14 | PTelemetry => 15 | PReturned => 16
  end.

(** The workers the shutdown is done with. *)
Definition passed (p : shutdown_pc) (i : nat) : Prop := match p with PWorker k => (i < k)%nat | _ => (10 <= phase p)%nat end.

Record requests_inv (y : sys) : Prop := mkRequestsInv {
  iv_count : Z.of_nat (s_active (y_server y)) = countZ registered (y_requests y);
  iv_chan : s_chans (y_server y) !! s_cur (y_server y) = Some (s_active (y_server y) =? 0)%nat;
  iv_hooks : Forall (fun q => hook_ok q = true) (y_requests y);
}.

Record shutdown_inv (s : server) : Prop := mkShutdownInv {
  iv_drain : (1 <= phase (s_pc s))%nat -> s_draining s = true;
  iv_await : forall ch, s_pc s = PAwait1 ch \/ s_pc s = PAwait2 ch -> ch = s_cur s;
  iv_grace : (5 <= phase (s_pc s))%nat -> FGrace ∈ s_failures s \/ s_active s = 0%nat;
  iv_grace_expired : FGrace ∈ s_failures s -> s_grace_expired s = true;
  iv_cleanup : (8 <= phase (s_pc s))%nat -> FCleanup ∈ s_failures s \/ s_active s = 0%nat;
  iv_cancel : s_cancelled s = true -> (6 <= phase (s_pc s))%nat;
  iv_wcancel : s_workers_cancelled s = true -> (9 <= phase (s_pc s))%nat;
  iv_workers : forall i w, passed (s_pc s) i -> s_workers s !! i = Some w -> FWorker i ∈ s_failures s \/ w = true;
  iv_ucancel : s_usage_cancelled s = true -> (10 <= phase (s_pc s))%nat;
  iv_usage : (11 <= phase (s_pc s))%nat -> FUsage ∈ s_failures s \/ s_usage_done s = true;
  iv_read : (2 <= phase (s_pc s))%nat -> locked s = false /\ s_serve s = serve_made s /\ s_metrics_made s = metrics_made s;
  iv_idle : s_start s = TIdle \/ s_start s = TListen -> s_metrics s = MNone;
  iv_served : (13 <= phase (s_pc s))%nat -> FServe ∈ s_failures s \/ s_start s = TIdle \/ s_start s = TReturned;
  iv_metrics : (14 <= phase (s_pc s))%nat -> FMetricsDone ∈ s_failures s \/ s_metrics s = MNone \/ s_metrics s = MDone;
  iv_clients : s_clients_closed s = true -> (15 <= phase (s_pc s))%nat;
}.

(** A draining server admits nobody, so the count can only fall. *)
Lemma request_step_server s q s' q' : request_step s q = Some (s', q') ->
  s' = s \/ (s_draining s = false /\ exists n ch k, s' = set_requests false n ch k s) \/
  (registered q = true /\ exists ch, s' = set_requests (s_draining s) (s_active s - 1) ch (s_cur s) s).
Proof.
  unfold request_step, enter, leave, registered. destruct (q_pc q); try (intros [= <- <-]; by left); try done.
  - destruct (s_draining s); [intros [= <- <-]; by left |].
    destruct (s_active s =? 0)%nat; intros [= <- <-]; right; left; (split; [done |]; by eexists _, _, _).
  - destruct (q_hook q); try done; intros [= <- <-]; by left.
  - destruct (q_hook q); try done; intros [= <- <-]; by left.
  - destruct (s_active s - 1 =? 0)%nat.
    + destruct (s_chans s !! s_cur s) as [[] |]; try done. intros [= <- <-]. right. right. split; [done |]. by eexists.
    + intros [= <- <-]. right. right. split; [done |]. by eexists.
Qed.

Lemma request_step_inv s qs i q s' q' :
  qs !! i = Some q -> request_step s q = Some (s', q') -> requests_inv (mkSys s qs) -> requests_inv (mkSys s' (<[i := q']> qs)).
Proof.
  intros Hi Hstep [Hc Hch Hh]. cbn -[countZ] in *.
  assert (hook_ok q = true) as Hq by by apply (Forall_lookup_1 _ _ _ _ Hh Hi).
  pose proof (countZ_insert registered qs i q q' Hi) as Hcount.
  assert (registered q = true -> 0 < countZ registered qs) as Hpos by by apply countZ_pos with (i := i).
  assert (hook_ok q' = true /\ s_chans s' !! s_cur s' = Some (s_active s' =? 0)%nat /\
    Z.of_nat (s_active s') = countZ registered qs - (if registered q then 1 else 0) + (if registered q' then 1 else 0)) as (H1 & H2 & H3).
  { revert Hc Hpos. clear Hcount. generalize (countZ registered qs). intros k Hc Hpos. destruct q as [pc h c]. unfold request_step in Hstep. cbn in *. destruct pc; cbn in *.
    - unfold enter in Hstep. destruct h; try done. destruct (s_draining s); [simplify_eq/=; split_and!; [done | done | lia] |].
      destruct (s_active s =? 0)%nat eqn:E; simplify_eq/=; (split; [done |]); [| split; [| lia]].
      + apply Nat.eqb_eq in E. split; [by rewrite lookup_app_r, Nat.sub_diag by done | lia].
      + by rewrite Hch.
    - done.
    - simplify_eq/=. split_and!; [by destruct (s_cancelled s') | done | lia].
    - simplify_eq/=. split_and!; [done | done | lia].
    - destruct h; simplify_eq/=; (split_and!; [done | done | lia]).
    - destruct h; simplify_eq/=; (split_and!; [done | done | lia]).
    - specialize (Hpos eq_refl). unfold leave in Hstep. destruct (s_active s - 1 =? 0)%nat eqn:E.
      + apply Nat.eqb_eq in E. destruct (s_chans s !! s_cur s) as [[] |] eqn:Ec; simplify_eq/=. split_and!; [done | | lia].
        rewrite list_lookup_insert_eq by by eapply lookup_lt_Some. by rewrite E.
      + simplify_eq/=. split_and!; [done | | lia]. rewrite Hch, E. apply Nat.eqb_neq in E. f_equal. apply Nat.eqb_neq. lia.
    - done. }
  split; cbn -[countZ]; [lia | done |]. by apply Forall_insert.
Qed.

Lemma hook_step_inv s qs i q q' : qs !! i = Some q -> hook_step s q = Some q' -> requests_inv (mkSys s qs) -> requests_inv (mkSys s (<[i := q']> qs)).
Proof.
  intros Hi Hstep [Hc Hch Hh]. cbn -[countZ] in *. assert (hook_ok q = true) as Hq by by apply (Forall_lookup_1 _ _ _ _ Hh Hi).
  assert (hook_ok q' = true /\ registered q' = registered q) as [H1 H2].
  { destruct q as [pc h c]. unfold hook_step in Hstep. destruct h; cbn in *; try done; [destruct (s_cancelled s); [| done] |]; simplify_eq/=; by destruct pc. }
  split; cbn -[countZ]; [| done | by apply Forall_insert]. rewrite (countZ_insert _ _ _ _ _ Hi), H2. lia.
Qed.

(** Changes outside the requests. *)
Definition same_requests (s s' : server) : Prop := s_active s' = s_active s /\ s_chans s' = s_chans s /\ s_cur s' = s_cur s.

Lemma same_requests_inv s s' qs : same_requests s s' -> requests_inv (mkSys s qs) -> requests_inv (mkSys s' qs).
Proof. intros (H1 & H2 & H3) [Hc Hch Hh]. split; cbn -[countZ] in *; by rewrite ?H1, ?H2, ?H3. Qed.

(** The cases of a step of the shutdown. *)
Ltac shutdown_cases H :=
  unfold shutdown_step in H;
  repeat first
    [ discriminate H
    | match type of H with _ ≫= _ = _ => let ok := fresh "ok" in let Hs := fresh "Hsel" in apply bind_Some in H as (ok & Hs & H) end
    | match type of H with match ?x with _ => _ end = _ => let E := fresh "E" in destruct x eqn:E end ];
  injection H as <-.

Lemma select_cases ready expired c ok : select ready expired c = Some ok -> (ok = true /\ ready = true) \/ (ok = false /\ expired = true).
Proof. unfold select. destruct c; try done; [destruct ready | destruct expired]; intros [= <-]; auto. Qed.

Lemma shutdown_step_same s c s' : shutdown_step s c = Some s' -> same_requests s s'.
Proof.
  intros H. unfold same_requests. shutdown_cases H; done.
Qed.

(** What the invariant says at the current phase. *)
Ltac at_phase :=
  repeat match goal with
  | H : (?a <= ?b)%nat -> _ |- _ => first [specialize (H ltac:(cbn; lia)) | clear H]
  end.
Lemma keep_failure (f : failure) l k (P : Prop) : f ∈ l \/ P -> f ∈ l ++ k \/ P.
Proof. intros [H | H]; [left; apply elem_of_app; by left | by right]. Qed.
Lemma new_failure (f : failure) l (P : Prop) : f ∈ l ++ [f] \/ P.
Proof. left. apply elem_of_app. right. by left. Qed.
Lemma old_failure (f g : failure) l : f ∈ l ++ [g] -> f <> g -> f ∈ l.
Proof. intros [H | ->%list_elem_of_singleton]%elem_of_app Hne; done. Qed.

Ltac field :=
  cbn; intros;
  first
    [ assumption | reflexivity
    | match goal with I : _ -> s_metrics ?s = MNone |- s_metrics ?s = MNone => by apply I end
    | right; assumption
    | match goal with H : (?a <= ?b)%nat |- _ => exfalso; clear -H; cbn in H; lia end
    | match goal with |- (?a <= ?b)%nat => clear; cbn; lia end
    | match goal with H : ?x = true, I : ?x = true -> (_ <= _)%nat |- _ => exfalso; apply I in H; clear -H; lia end
    | match goal with H : _ = PAwait1 _ \/ _ = PAwait2 _ |- _ => destruct H as [[=] | [=]]; congruence end
    | apply keep_failure; first [assumption | match goal with I : forall i w, _ -> _ -> _ \/ _ |- _ => apply I; [lia | assumption] end]
    | apply new_failure
    | match goal with I : FGrace ∈ _ -> _, H : FGrace ∈ _ ++ _ |- _ => apply I; first [by eapply old_failure | by rewrite app_nil_r in H] end
    | idtac ].

Lemma lookup_none_lt {A} (l : list A) i k x : l !! k = None -> l !! i = Some x -> (i < k)%nat.
Proof. intros H1%lookup_ge_None H2%lookup_lt_Some. lia. Qed.

Lemma shutdown_step_inv s c s' qs : shutdown_step s c = Some s' -> requests_inv (mkSys s qs) -> shutdown_inv s -> shutdown_inv s'.
Proof.
  intros H [_ Hch _] Hi. cbn in Hch.
  assert (forall ch, ch = s_cur s -> closed s ch = true -> s_active s = 0%nat) as Hclosed.
  { intros ch -> Hc%bool_decide_eq_true. rewrite Hch in Hc. injection Hc as Hc. by apply Nat.eqb_eq. }
  destruct Hi. shutdown_cases H.
  all: cbn [phase passed] in *; at_phase.
  all: try (match goal with Hs : select _ _ _ = Some _ |- _ => apply select_cases in Hs as [[-> Hs] | [-> Hs]] end).
  all: try (match goal with |- context [fail_unless ?ok _] => is_var ok; destruct ok end).
  all: split; field.
  1: by split_and!.
  1: right; exact (Hclosed _ (iv_await0 _ (or_introl eq_refl)) Hsel).
  1: right; exact (Hclosed _ (iv_await0 _ (or_intror eq_refl)) Hsel).
  1, 2: destruct (decide (i0 = i)) as [-> |];
    [simplify_eq; first [by right | apply new_failure] | apply keep_failure, (iv_workers0 i0 w); [lia | done]].
  1: apply keep_failure, (iv_workers0 i0 w); [eapply lookup_none_lt; eauto | done].
  all: destruct iv_read0 as (Hl & Hs & Hm); unfold locked, serve_made, serve_done, metrics_made, metrics_done in *; cbn.
  all: destruct (s_start s); destruct (s_metrics s); cbn in *; try congruence; intuition congruence.
Qed.

Lemma leave_inv s n ch : shutdown_inv s -> (n <= s_active s)%nat -> shutdown_inv (set_requests (s_draining s) n ch (s_cur s) s).
Proof. intros [] Hn. split; cbn; try done; intros; [destruct (iv_grace0 H) | destruct (iv_cleanup0 H)]; auto; right; lia. Qed.

Lemma enter_inv s n ch k : s_draining s = false -> shutdown_inv s -> shutdown_inv (set_requests false n ch k s).
Proof.
  intros Hd []. assert (phase (s_pc s) = 0%nat) as Hp by (destruct (phase (s_pc s)); [done |]; rewrite iv_drain0 in Hd; [done | lia]).
  split; cbn; rewrite ?Hp in *; try done; try (intros; lia).
  intros c [E | E]; rewrite E in Hp; done.
Qed.

Lemma drain_inv s : shutdown_inv s -> shutdown_inv (Drain s).
Proof. intros []. by split. Qed.

Lemma request_step_shutdown s q s' q' : request_step s q = Some (s', q') -> shutdown_inv s -> shutdown_inv s'.
Proof.
  intros [-> | [(Hd & n & ch & k & ->) | (_ & ch & ->)]]%request_step_server Hi; [done | by apply enter_inv | apply leave_inv; [done | lia]].
Qed.

(** Steps of the listeners. *)
Lemma start_enter_inv s s' : start_enter s = Some s' -> shutdown_inv s -> shutdown_inv s'.
Proof.
  unfold start_enter. destruct (s_start s) eqn:Es; try done. destruct (s_draining s) eqn:Hd; [done |]. intros [= <-] [].
  assert (phase (s_pc s) = 0%nat) as Hp by (destruct (phase (s_pc s)); [done |]; rewrite iv_drain0 in Hd; [done | lia]).
  split; cbn; rewrite ?Hp in *; try done; try (intros; lia). intros _. apply iv_idle0. by left.
Qed.

Lemma start_step_inv s c s' : start_step s c = Some s' -> shutdown_inv s -> shutdown_inv s'.
Proof.
  unfold start_step. destruct (s_start s) eqn:Es; try done; intros H [].
  - assert (phase (s_pc s) <= 1)%nat as Hp.
    { destruct (le_lt_dec 2 (phase (s_pc s))) as [Hle |]; [| lia]. destruct (iv_read0 Hle) as [Hl _]. unfold locked in Hl. by rewrite Es in Hl. }
    destruct c; simplify_eq; split; cbn; try done; intros; first [lia | intuition congruence].
  - destruct c; simplify_eq. split; cbn; try done.
    + intros H. destruct (iv_read0 H) as (_ & Hs & Hm). unfold locked, serve_made, metrics_made in *. cbn. by rewrite Es in Hs.
    + intros [|]; done.
    + intros H. destruct (iv_served0 H) as [| [|]]; [by left | congruence | congruence].
  - destruct c; simplify_eq; split; cbn; try done.
    all: first [intros [|]; done | intros H; auto; destruct (iv_read0 H) as (_ & Hs & Hm); unfold locked, serve_made, metrics_made in *; cbn; by rewrite Es in Hs].
Qed.

Lemma metrics_step_inv s failed s' : metrics_step s failed = Some s' -> shutdown_inv s -> shutdown_inv s'.
Proof.
  unfold metrics_step. destruct (s_metrics s) eqn:Es; try done. intros H [].
  assert (s' = set_listen (s_start s) MDone (s_http_closed s') (s_metrics_closed s) (s_clients_closed s) s) as ->.
  { destruct failed; [| destruct (s_metrics_closed s) eqn:E; [| done]]; simplify_eq; cbn; by rewrite ?E. }
  split; cbn; try done.
  - intros H1. destruct (iv_read0 H1) as (Hl & Hs & Hm). unfold locked, serve_made, metrics_made in *. cbn. by rewrite Es in Hm.
  - intros H1. specialize (iv_idle0 H1). congruence.
  - intros H1. auto.
Qed.

Record inv (y : sys) : Prop := mkInv { iv_requests : requests_inv y; iv_shutdown : shutdown_inv (y_server y) }.

Lemma step_inv y y' : step y y' -> inv y -> inv y'.
Proof.
  intros Hstep [Hr Hs]. destruct Hstep; cbn in Hs.
  - destruct Hr as [Hc Hch Hh]. split; [split; cbn -[countZ] in *; [| done |] | done].
    + rewrite countZ_app. unfold countZ at 2. cbn. lia.
    + apply Forall_app. split; [done | by repeat constructor].
  - split; [by eapply request_step_inv | by eapply request_step_shutdown].
  - split; [by eapply hook_step_inv | done].
  - split; [by apply (same_requests_inv s) | by apply drain_inv].
  - split; [apply (same_requests_inv s); [| done] | by eapply start_enter_inv].
    unfold start_enter in H. destruct (s_start s); try done. destruct (s_draining s); [done |]. injection H as <-. done.
  - split; [apply (same_requests_inv s); [| done] | by eapply start_step_inv].
    unfold start_step in H. destruct (s_start s), c; simplify_eq; done.
  - split; [apply (same_requests_inv s); [| done] | by eapply metrics_step_inv].
    unfold metrics_step in H. destruct (s_metrics s), failed, (s_metrics_closed s); simplify_eq; done.
  - split; [apply (same_requests_inv s); [by eapply shutdown_step_same | done] | by eapply shutdown_step_inv].
  - split; [by apply (same_requests_inv s) |]. destruct Hs. split; cbn; try done; [by intros _; apply iv_wcancel0 |]. intros k w Hp Hk. destruct (decide (k = i)) as [-> |].
    + rewrite list_lookup_insert_eq in Hk by by eapply lookup_lt_Some. right. congruence.
    + rewrite list_lookup_insert_ne in Hk by done. by apply iv_workers0.
  - split; [by apply (same_requests_inv s) |]. destruct Hs. split; cbn; try done; [by intros _; apply iv_ucancel0 | by right].
  - split; [by apply (same_requests_inv s) |]. destruct Hs. by split.
  - split; [by apply (same_requests_inv s) |]. destruct Hs. by split.
Qed.

Lemma lifecycle_reachable_inv n y : reachable n y -> inv y.
Proof.
  intros H. unfold reachable in H. assert (inv (mkSys (initLifecycle n) [])) as H0.
  { split; [by split | split; cbn; try done; try lia; try (by intros H1%elem_of_nil); try (intros; lia)]. by intros ch [|]. }
  revert H0. induction H as [| y1 y2 y3 H1 H2 IH]; [done |]. intros H0. by eapply IH, step_inv.
Qed.

(** ** What draining and stopping promise *)

(** C17. In every run: the counter of active requests is the number of requests between
    their registration and their end; requests are cancelled only once all have ended
    or the grace period has passed; and unless the cleanup time ran out, the accounting
    and the Redis clients are closed only when every request has ended, the clients
    moreover only when every worker and both listeners have. *)
Theorem shutdown_is_ordered (n : nat) (y : sys) (Hy : reachable n y) :
  let s := y_server y in
  Z.of_nat (s_active s) = countZ registered (y_requests y) /\
  (s_cancelled s = true -> s_grace_expired s = true \/ countZ registered (y_requests y) = 0) /\
  (s_usage_cancelled s = true -> FCleanup ∈ s_failures s \/ countZ registered (y_requests y) = 0) /\
  (s_clients_closed s = true ->
     (FCleanup ∈ s_failures s \/ countZ registered (y_requests y) = 0) /\
     (forall i w, s_workers s !! i = Some w -> FWorker i ∈ s_failures s \/ w = true) /\
     (FUsage ∈ s_failures s \/ s_usage_done s = true) /\
     (FServe ∈ s_failures s \/ s_start s = TIdle \/ s_start s = TReturned) /\
     (FMetricsDone ∈ s_failures s \/ s_metrics s = MNone \/ s_metrics s = MDone)) /\
  (s_pc s = PReturned -> s_failures s = [] ->
     countZ registered (y_requests y) = 0 /\ Forall (fun w => w = true) (s_workers s) /\ s_usage_done s = true /\
     (s_start s = TIdle \/ s_start s = TReturned) /\ (s_metrics s = MNone \/ s_metrics s = MDone)).
Proof.
  apply lifecycle_reachable_inv in Hy as [[Hc _ _] []]. cbv zeta. split_and!; [done | | | |].
  - intros H%iv_cancel0. destruct iv_grace0 as [Hg | Hg]; [lia | left; auto | right; lia].
  - intros H%iv_ucancel0. destruct iv_cleanup0 as [Hg | Hg]; [lia | by left | right; lia].
  - intros H%iv_clients0. split_and!.
    + destruct iv_cleanup0 as [Hg | Hg]; [lia | by left | right; lia].
    + intros i w. apply iv_workers0. unfold passed. destruct (s_pc (y_server y)); cbn in *; lia.
    + apply iv_usage0. lia.
    + apply iv_served0. lia.
    + apply iv_metrics0. lia.
  - intros Hp Hf. rewrite Hp, Hf in *. cbn in *.
    destruct iv_cleanup0 as [[]%elem_of_nil | Ha]; [lia |]. destruct iv_usage0 as [[]%elem_of_nil | Hu]; [lia |].
    destruct iv_served0 as [[]%elem_of_nil | Hs]; [lia |]. destruct iv_metrics0 as [[]%elem_of_nil | Hm]; [lia |].
    split_and!; [lia | | done | done | done]. apply Forall_lookup. intros i w Hi. destruct (iv_workers0 i w) as [[]%elem_of_nil |]; [lia | done | done].
Qed.

(** A request under way in a later state was under way in the earlier one. *)
Definition no_new_requests (y y' : sys) : Prop :=
  s_draining (y_server y') = true /\
  forall i q', y_requests y' !! i = Some q' -> registered q' = true -> exists q, y_requests y !! i = Some q /\ registered q = true.

Lemma drained_step y y' : step y y' -> s_draining (y_server y) = true -> no_new_requests y y'.
Proof.
  intros Hstep Hd. unfold no_new_requests. destruct Hstep; cbn in *; try (split; [done | eauto]; fail).
  - split; [done |]. intros i q' Hi Hq. apply lookup_app_Some in Hi as [Hi | [_ Hi]]; [eauto |].
    destruct (i - length qs)%nat; cbn in Hi; by simplify_eq.
  - pose proof (request_step_server _ _ _ _ H0) as Hs. split.
    + destruct Hs as [-> | [[Hf _] | (_ & ch & ->)]]; [done | congruence | done].
    + intros k q1 Hk Hq1. destruct (decide (k = i)) as [-> |]; [| rewrite list_lookup_insert_ne in Hk by done; eauto].
      rewrite list_lookup_insert_eq in Hk by by eapply lookup_lt_Some. injection Hk as <-. exists q. split; [done |].
      destruct q as [pc h c]. unfold request_step, enter in H0. rewrite Hd in H0. unfold registered in *. destruct pc; cbn in *; simplify_eq/=; done.
  - split; [done |]. intros k q1 Hk Hq1. destruct (decide (k = i)) as [-> |]; [| rewrite list_lookup_insert_ne in Hk by done; eauto].
    rewrite list_lookup_insert_eq in Hk by by eapply lookup_lt_Some. injection Hk as <-. exists q. split; [done |].
    unfold hook_step, registered in *. destruct (q_hook q), (s_cancelled s); simplify_eq/=; done.
  - unfold start_enter in H. destruct (s_start s); try done. by rewrite Hd in H.
  - split; [| eauto]. unfold start_step in H. destruct (s_start s), c; by simplify_eq.
  - split; [| eauto]. unfold metrics_step in H. destruct (s_metrics s), failed, (s_metrics_closed s); by simplify_eq.
  - split; [| eauto]. shutdown_cases H; done.
Qed.

(** Once a server drains, whatever follows, no request gets under way any more: every
    later arrival is answered 503, and the server keeps draining. *)
Theorem drained_server_admits_nothing (y y' : sys) (Hd : s_draining (y_server y) = true) (Hrun : rtc step y y') :
  s_draining (y_server y') = true /\ enter (y_server y') = None /\ start_enter (y_server y') = None /\
  countZ registered (y_requests y') <= countZ registered (y_requests y) /\
  forall i q', y_requests y' !! i = Some q' -> registered q' = true -> exists q, y_requests y !! i = Some q /\ registered q = true.
Proof.
  assert (no_new_requests y y') as [Hd' Hn].
  { induction Hrun as [y | y1 y2 y3 H1 _ IH]; [split; eauto |]. destruct (drained_step _ _ H1 Hd) as [Hd2 Hn2]. destruct (IH Hd2) as [Hd3 Hn3].
    split; [done |]. intros i q3 Hi Hq. destruct (Hn3 i q3 Hi Hq) as (q2 & Hi2 & Hq2). eauto. }
  split_and!; [done | unfold enter; by rewrite Hd' | unfold start_enter; rewrite Hd'; by destruct (s_start _) | | done].
  apply countZ_lookup_le. intros i q' Hi Hq. eauto.
Qed.

(** A request whose handler has ended always gets to its end: the wait for its callback
    is short, because the callback only runs, and taking the request off never closes a
    channel twice. A request that runs when the server cancels its context is told. *)
Theorem requests_always_leave (n : nat) (y : sys) (i : nat) (q : request) (Hy : reachable n y) (Hi : y_requests y !! i = Some q) :
  (q_pc q = QLeaving \/ q_pc q = QJoining \/ q_pc q = QFinal ->
   is_Some (request_step (y_server y) q) \/ exists q', hook_step (y_server y) q = Some q' /\ q_pc q' = q_pc q /\ is_Some (request_step (y_server y) q')) /\
  (q_pc q = QServing -> s_cancelled (y_server y) = true -> q_hook q <> HFired ->
   exists q', rtc (fun a b => hook_step (y_server y) a = Some b) q q' /\ q_cancelled q' = true).
Proof.
  apply lifecycle_reachable_inv in Hy as [[Hc Hch Hh] _]. pose proof (Forall_lookup_1 _ _ _ _ Hh Hi) as Hq. cbn in Hq.
  destruct q as [pc h c]. unfold hook_ok in Hq. split; cbn.
  - intros [-> | [-> | ->]]; cbn in *.
    + left. unfold request_step. destruct h; try done; by eexists.
    + destruct h; try done; [| left; unfold request_step; by eexists]. right. eexists. split; [done |]. split; [done |]. by eexists.
    + left. pose proof (countZ_pos registered _ _ _ Hi eq_refl) as Hpos. unfold request_step, leave. cbn.
      destruct (s_active (y_server y) - 1 =? 0)%nat; [| by eexists]. rewrite Hch. rewrite (proj2 (Nat.eqb_neq _ _)) by lia. by eexists.
  - intros -> Hcan Hne. destruct h; try done; exists (mkReq QServing HFired true); (split; [| done]).
    + eapply rtc_l; [unfold hook_step; cbn; by rewrite Hcan |]. by apply rtc_once.
    + by apply rtc_once.
Qed.

(** ** The shutdown ends *)

Definition left_over (s : server) : nat :=
  match s_pc s with
  | PWorker i => 7 + (length (s_workers s) - i)
  | p => (16 - phase p) + (if (phase p <? 9)%nat then length (s_workers s) else 0)
  end.

(** C37. Every step of a shutdown brings it nearer to its end, and once its two deadlines
    have passed a next step is always possible, however requests, workers and listeners
    behave: at most sixteen steps and one for each worker. The mutex it waits for is
    held only while a start opens its listeners. *)
Theorem shutdown_ends (s : server) (Hpc : s_pc s <> PReturned) (Hgrace : s_grace_expired s = true) (Hcleanup : s_cleanup_expired s = true) :
  (left_over s <= 16 + length (s_workers s))%nat /\
  (forall c s', shutdown_step s c = Some s' -> (left_over s' < left_over s)%nat /\ s_grace_expired s' = true /\ s_cleanup_expired s' = true) /\
  (locked s = false -> exists c s', shutdown_step s c = Some s') /\
  (locked s = true -> forall c, c = ListenFails \/ c = MetricsListenFails \/ (exists m, c = Listens m) -> exists s', start_step s c = Some s' /\ locked s' = false).
Proof.
  split_and!.
  - unfold left_over. destruct (s_pc s); cbn; lia.
  - intros c s' H. unfold left_over.
    assert (forall i x, s_workers s !! i = Some x -> (i < length (s_workers s))%nat) as Hlt by (intros ? ?; apply lookup_lt_Some).
    shutdown_cases H; cbn; (split; [| done]); try lia. specialize (Hlt _ _ E0). lia.
  - intros Hl. unfold shutdown_step. destruct (s_pc s); try done; try (by exists Ready; eexists); try (by exists (Returns true); eexists).
    + exists Ready. rewrite Hl. by eexists.
    + exists Expired. rewrite Hgrace. by eexists.
    + exists Expired. rewrite Hcleanup. by eexists.
    + exists Expired. rewrite Hcleanup. destruct (s_workers s !! i); by eexists.
    + exists Expired. rewrite Hcleanup. by eexists.
    + exists Expired. rewrite Hcleanup. destruct (s_serve s); by eexists.
    + exists Expired. rewrite Hcleanup. destruct (s_metrics_made s); by eexists.
  - unfold locked, start_step. destruct (s_start s); try done. intros _ c [-> | [-> | [m ->]]]; by eexists.
Qed.

(** ** Readiness ([handleReady]) *)

(** The state when the probe begins and when it ends; what the accounting, the database
    and, if configured, Redis answer in between. *)
Definition handleReady (before after : server) (accounting database : bool) (redis : option bool) : Z * string :=
  if s_draining before then (503, "draining")
  else if negb accounting then (503, "accounting recovery pending")
  else if negb database then (503, "db unreachable")
  else if negb (default true redis) then (503, "redis unreachable")
  else if s_draining after then (503, "draining")
  else (200, "ready").

Lemma ready_means_serving before after accounting database redis :
  (handleReady before after accounting database redis).1 = 200 ->
  is_Some (enter after) /\ accounting = true /\ database = true /\ redis <> Some false.
Proof.
  unfold handleReady, enter. destruct (s_draining before), accounting, database, redis as [[] |], (s_draining after); try done; cbn; intros _;
    (split; [destruct (s_active after =? 0)%nat; by eexists | done]).
Qed.

(** ** Evaluation *)

Inductive move := VArrive | VRequest (i : nat) | VHook (i : nat) | VDrain | VStart | VListen (c : start_choice) | VShutdown (c : shutdown_choice)
| VWorker (i : nat) | VUsage | VGrace | VCleanup.

Definition do_move (y : sys) (m : move) : option sys :=
  let s := y_server y in let qs := y_requests y in
  match m with
  | VArrive => Some (mkSys s (qs ++ [mkReq QArrived HNone false]))
  | VRequest i => q ← qs !! i; '(s', q') ← request_step s q; Some (mkSys s' (<[i := q']> qs))
  | VHook i => q ← qs !! i; q' ← hook_step s q; Some (mkSys s (<[i := q']> qs))
  | VDrain => Some (mkSys (Drain s) qs)
  | VStart => s' ← start_enter s; Some (mkSys s' qs)
  | VListen c => s' ← start_step s c; Some (mkSys s' qs)
  | VShutdown c => s' ← shutdown_step s c; Some (mkSys s' qs)
  | VWorker i => if s_workers_cancelled s && bool_decide (s_workers s !! i = Some false)
                 then Some (mkSys (set_background true (<[i := true]> (s_workers s)) (s_usage_cancelled s) (s_usage_done s) s) qs) else None
  | VUsage => if s_usage_cancelled s then Some (mkSys (set_background (s_workers_cancelled s) (s_workers s) true true s) qs) else None
  | VGrace => Some (mkSys (set_timers true (s_cleanup_expired s) s) qs)
  | VCleanup => Some (mkSys (set_timers (s_grace_expired s) true s) qs)
  end.

Fixpoint moves (y : sys) (ms : list move) : option sys := match ms with [] => Some y | m :: ms => y' ← do_move y m; moves y' ms end.

Lemma server_move_step y m y' : do_move y m = Some y' -> step y y'.
Proof.
  destruct y as [s qs]. destruct m; cbn; intros H.
  - injection H as <-. constructor.
  - apply bind_Some in H as (q & Hq & ([s' q'] & Hs & [= <-])%bind_Some). by eapply step_request.
  - apply bind_Some in H as (q & Hq & (q' & Hs & [= <-])%bind_Some). by eapply step_hook.
  - injection H as <-. constructor.
  - apply bind_Some in H as (s' & Hs & [= <-]). by apply step_start.
  - apply bind_Some in H as (s' & Hs & [= <-]). by eapply step_listen.
  - apply bind_Some in H as (s' & Hs & [= <-]). by eapply step_shutdown.
  - destruct (s_workers_cancelled s) eqn:E; [| done]. cbn in H. destruct (bool_decide _) eqn:Hw in H; [| done]. apply bool_decide_eq_true in Hw. injection H as <-. by apply step_worker.
  - destruct (s_usage_cancelled s) eqn:E; [| done]. injection H as <-. by apply step_usage.
  - injection H as <-. apply step_grace.
  - injection H as <-. apply step_cleanup.
Qed.

Lemma moves_steps ms y y' : moves y ms = Some y' -> rtc step y y'.
Proof.
  revert y. induction ms as [| m ms IH]; intros y H; cbn in H; [injection H as <-; constructor |].
  apply bind_Some in H as (y1 & H1 & H2). eapply rtc_l; [by eapply server_move_step | by apply IH].
Qed.

(** Two requests, one still running when the grace period ends, and a clean stop. *)
Definition example_run : list move :=
  [VStart; VListen (Listens false); VArrive; VArrive; VRequest 0; VRequest 0; VRequest 1; VRequest 1; VRequest 1; VRequest 1; VRequest 1;
   VShutdown Ready; VShutdown Ready; VShutdown (Returns true); VShutdown Ready].
Definition example_stop : list move :=
  [VGrace; VShutdown Expired; VShutdown Ready; VShutdown Ready; VHook 0; VHook 0; VRequest 0; VRequest 0; VRequest 0; VRequest 0; VShutdown Ready; VShutdown Ready;
   VWorker 0; VShutdown Ready; VShutdown Ready; VUsage; VShutdown Ready; VShutdown (Returns true); VListen ServeEnds; VListen ServeEnds; VShutdown Ready;
   VShutdown Ready; VShutdown Ready; VShutdown (Returns true)].
Definition example_sys (ms : list move) : sys := default (mkSys (initLifecycle 1) []) (moves (mkSys (initLifecycle 1) []) ms).

Lemma example_stop_reachable ms : is_Some (moves (mkSys (initLifecycle 1) []) ms) -> reachable 1 (example_sys ms).
Proof. intros [y Hy]. unfold example_sys. rewrite Hy. by apply moves_steps in Hy. Qed.

Example example_stopped : s_failures (y_server (example_sys (example_run ++ example_stop))) = [FGrace] /\ s_pc (y_server (example_sys (example_run ++ example_stop))) = PReturned.
Proof. vm_compute. done. Qed.

Lemma shutdown_is_ordered_witness :
  let y := example_sys (example_run ++ example_stop) in s_clients_closed (y_server y) = true /\ countZ registered (y_requests y) = 0.
Proof.
  intros y. split; [vm_compute; reflexivity |].
  assert (reachable 1 y) as Hy by (apply example_stop_reachable; vm_compute; by eexists).
  pose proof (proj1 (shutdown_is_ordered 1 y Hy)) as H. rewrite <- H. vm_compute. reflexivity.
Defined.

Lemma drained_server_admits_nothing_witness : enter (y_server (example_sys (example_run ++ example_stop))) = None.
Proof.
  refine (proj1 (proj2 (drained_server_admits_nothing (example_sys example_run) _ _ _))); [vm_compute; reflexivity |].
  apply (moves_steps example_stop). vm_compute. reflexivity.
Defined.

Lemma requests_always_leave_witness : is_Some (request_step (y_server (example_sys (take 9 example_run))) (mkReq QLeaving HArmed false)).
Proof.
  assert (reachable 1 (example_sys (take 9 example_run))) as Hy by (apply example_stop_reachable; vm_compute; by eexists).
  destruct (proj1 (requests_always_leave 1 _ 1 (mkReq QLeaving HArmed false) Hy ltac:(vm_compute; reflexivity)) (or_introl eq_refl)) as [H | (q' & Hq & _)]; [exact H |].
  vm_compute in Hq. discriminate.
Defined.

Lemma shutdown_ends_witness : exists c s', shutdown_step (set_timers true true (y_server (example_sys example_run))) c = Some s'.
Proof.
  refine (proj1 (proj2 (proj2 (shutdown_ends (set_timers true true (y_server (example_sys example_run))) _ _ _))) _); [| reflexivity | reflexivity | vm_compute; reflexivity].
  vm_compute. discriminate.
Defined.
