(* ===== verification/Middleware.v ===== *)
(** * The middlewares and routes of a server ([internal/server/server.go])

    The chain in front of the data plane, as a function on the counts of active
    requests and permits and on the leases of the tenants in Redis, and the table of routes with the checks each is behind. The router of chi, which
    selects the route of a request, and the gate's decision are given from outside;
    [Admission] and [Lifecycle] show what they can be. *)

From S2P Require Import Prelude GoStrings Redis Concurrency Models Admission Identity Auth.

(** ** Body limits ([limitBody]) *)

Definition bodyLimitV1 : Z := 8 * 2 ^ 20.
Definition bodyLimitAdmin : Z := 1 * 2 ^ 20.

Definition requestLimit (limit : Z) (path : string) : Z :=
  if (limit =? bodyLimitV1) && ((path =? "/v1/audio/transcriptions")%string || (path =? "/v1/audio/translations")%string) then 32 * 2 ^ 20 else limit.

(** ** Leases of tenants *)

Definition positive (limit : option Z) : option Z := match limit with Some n => if 0 <? n then Some n else None | None => None end.

Definition tenantConcurrencyScopes (team : option Team) (key : option VirtualKey) : Z * list Scope :=
  let '(partition, scopes) :=
    match team with
    | Some t => match positive (tm_MaxParallelRequests t) with Some n => (tm_ID t, [mkScope "team" (tm_ID t) n]) | None => (0, []) end
    | None => (0, [])
    end in
  match key with
  | None => (partition, scopes)
  | Some k =>
      let in_partition p := if p =? 0 then vk_TeamID k else p in
      let '(partition, scopes) :=
        match positive (vk_MaxParallelRequests k) with
        | Some n => if 0 <? vk_ID k then (in_partition partition, scopes ++ [mkScope "key" (vk_ID k) n]) else (partition, scopes)
        | None => (partition, scopes)
        end in
      match positive (vk_OwnerMaxParallelRequests k) with
      | None => (partition, scopes)
      | Some n =>
          (in_partition partition,
           match positive (vk_UserID k), positive (vk_ServiceAccountID k) with
           | Some u, _ => scopes ++ [mkScope "user" u n]
           | None, Some a => scopes ++ [mkScope "service_account" a n]
           | None, None => scopes
           end)
      end
  end.

Definition concurrencyLeaseTTL (requestDeadline : Z) : Z :=
  let ttl := requestDeadline +w (30 * Second) in if ttl <? 2 * Minute then 2 * Minute else ttl.

(** Whole seconds, rounded up, and at least one. *)
Definition retryAfterSeconds (wait : Z) : Z :=
  let seconds := wait /g Second in
  let seconds := if negb (wait %g Second =? 0) then seconds + 1 else seconds in
  if seconds <? 1 then 1 else seconds.

(** The member of a lease: sixteen random bytes, or a name from the clock and a
    sequence when there is no randomness. *)
Definition newTenantLeaseMember (random : option string) (nano seq : Z) : string :=
  match random with Some hex => hex | None => "fallback-" +:+ pretty nano +:+ "-" +:+ pretty seq end.

(** ** The chain of the data plane *)

(** What the chain counts and holds: the requests of the server's lifecycle
    ([activeRequests]), the live permits of the gate, and the leases in Redis. *)
Record plane (R : Type) := mkPlane { pl_active : Z; pl_permits : Z; pl_redis : R }.
Arguments mkPlane {R}.
Arguments pl_active {R}.
Arguments pl_permits {R}.
Arguments pl_redis {R}.

(** How a handler or the chain ends: an answer, nothing for a client that has gone, or
    a panic, which [Recoverer] turns into a 500. *)
Inductive outcome := Answer (status : Z) (code : string) (retry : option Z) | Silence | Panicked.

Section Chain.
Context {R : Type} `{RedisZSet R}.

(** The moments of a request. *)
Record chain_env := mkChainEnv {
  ce_draining : bool;
  ce_gate : option Gate.Outcome;
  ce_cancelled : bool;
  ce_draining_after : bool;
  ce_caller : answer caller;
  ce_method : string;
  ce_path : string;
  ce_limiter : option Limiter;
  ce_ttl : Z;
  ce_member : string;
  ce_acquire : io;
  ce_acquired : Z;
  ce_release : io;
  ce_released : Z;
}.

(** [writeDraining] *)
Definition drained_answer : outcome := Answer 503 "server_draining" (Some 1).

(** The handler of the route, with everything other requests do meanwhile. *)
Variable handler : caller -> plane R -> plane R * outcome.

Definition with_redis (r : R) (s : plane R) : plane R := mkPlane (pl_active s) (pl_permits s) r.

(** [tenantConcurrencyMiddleware] *)
Definition tenantConcurrencyMiddleware (e : chain_env) (c : caller) (s : plane R) : plane R * outcome :=
  if (ce_method e =? "GET")%string && (TrimSuffix (ce_path e) "/" =? "/v1/models")%string then handler c s
  else
    let '(partition, scopes) := tenantConcurrencyScopes (Some (ca_team c)) (Some (ca_key c)) in
    if bool_decide (scopes = []) then handler c s
    else match ce_limiter e with
    | None => (s, Answer 503 "concurrency_limit_unavailable" (Some 1))
    | Some l =>
        match Acquire (Some l) (ce_acquire e) (ce_acquired e) (mkRequest (ce_member e) partition (ce_ttl e) scopes) (pl_redis s) with
        | (r, Err _) => (with_redis r s, Answer 503 "concurrency_limit_unavailable" (Some 1))
        | (r, Ok (lease, result)) =>
            let s := with_redis r s in
            if negb (rs_Allowed result) then (s, Answer 429 "concurrency_limit_exceeded" (Some (retryAfterSeconds (rs_RetryAfter result))))
            else
              let '(s, o) := handler c s in
              (with_redis (Release (lm_redis l) (ce_release e) (ce_released e) lease (pl_redis s)).1.1 s, o)
        end
    end.

(** [rejectDrained] and [Bearer] *)
Definition authenticated (e : chain_env) (s : plane R) : plane R * outcome :=
  if ce_draining_after e then (s, drained_answer)
  else match ce_caller e with
       | Err (status, code) => (s, Answer status code None)
       | Ok c => tenantConcurrencyMiddleware e c s
       end.

(** [admissionMiddleware]; without a gate everything passes. *)
Definition admissionMiddleware (e : chain_env) (s : plane R) : plane R * outcome :=
  match ce_gate e with
  | None => authenticated e s
  | Some Gate.OutcomeAdmitted =>
      let '(s, o) := authenticated e (mkPlane (pl_active s) (pl_permits s + 1) (pl_redis s)) in
      (mkPlane (pl_active s) (pl_permits s - 1) (pl_redis s), o)
  | Some _ => (s, if ce_cancelled e then Silence else Answer 503 "server_overloaded" (Some 1))
  end.

(** [inferenceLifecycle] around the rest. *)
Definition serve_data_plane (e : chain_env) (s : plane R) : plane R * outcome :=
  if ce_draining e then (s, drained_answer)
  else
    let '(s, o) := admissionMiddleware e (mkPlane (pl_active s + 1) (pl_permits s) (pl_redis s)) in
    (mkPlane (pl_active s - 1) (pl_permits s) (pl_redis s), o).
End Chain.
Arguments chain_env : clear implicits.

(** ** Routes *)

Inductive middleware :=
| LimitBody (limit : Z) | SessionAuth | NeedAdmin | NeedTeamAccess | NeedManagerOrAdmin | Inflight | Throttle
| Lifecycle | Deadline | Admit | RejectDrained | BearerAuth | TenantConcurrency.

Record route := mkRoute { rt_method : string; rt_pattern : string; rt_middlewares : list middleware; rt_handler : string }.

Definition GET (pattern h : string) : route := mkRoute "GET" pattern [] h.
Definition POST (pattern h : string) : route := mkRoute "POST" pattern [] h.
Definition PATCH (pattern h : string) : route := mkRoute "PATCH" pattern [] h.
Definition PUT (pattern h : string) : route := mkRoute "PUT" pattern [] h.
Definition DELETE (pattern h : string) : route := mkRoute "DELETE" pattern [] h.

(** [With], [Group] and [Route] put their middlewares in front. *)
Definition with_ (ms : list middleware) (r : route) : route := mkRoute (rt_method r) (rt_pattern r) (ms ++ rt_middlewares r) (rt_handler r).
Definition group (ms : list middleware) (rs : list route) : list route := map (with_ ms) rs.
Definition under (prefix : string) (ms : list middleware) (rs : list route) : list route :=
  map (fun r => mkRoute (rt_method r) (prefix +:+ rt_pattern r) (ms ++ rt_middlewares r) (rt_handler r)) rs.

(** [/auth], [/invite] and [/reset]. *)
Definition sign_in_routes : list route :=
  under "/auth" [LimitBody bodyLimitAdmin]
    (with_ [Throttle] (POST "/login" "Login") :: [GET "/login-modes" "LoginModesHandler"; GET "/oidc/start" "Start"; GET "/oidc/callback" "Callback"] ++
     group [SessionAuth] [GET "/me" "Whoami"; POST "/logout" "Logout"]) ++
  under "/invite" [LimitBody bodyLimitAdmin] [GET "/{token}" "GetInvite"; POST "/{token}/accept" "AcceptInvite"] ++
  under "/reset" [LimitBody bodyLimitAdmin] [GET "/{token}" "Get"; with_ [Throttle] (POST "/{token}" "Consume")].

Definition me_routes : list route :=
  under "/me" [LimitBody bodyLimitAdmin; SessionAuth] [
    GET "/keys" "ListKeys"; GET "/usage" "ListUsage"; GET "/budget" "GetBudget"; GET "/sessions" "ListSessions";
    DELETE "/sessions/{prefix}" "RevokeSession"; DELETE "/sessions" "RevokeOtherSessions"; POST "/password" "ChangePassword"].

(** The groups of [/admin]. *)
Definition admin_only_routes : list route :=
  group [NeedAdmin] ([
    GET "/info" "GetInfo"; GET "/audit" "ListAudit"; GET "/audit/facets" "GetAuditFacets"; GET "/users" "ListUsers";
    POST "/users/{id}/budget" "UpdateUserBudget"; PATCH "/users/{id}/concurrency" "UpdateUserConcurrency";
    POST "/users/{id}/password-reset" "IssuePasswordReset"; PATCH "/users/{id}/disabled" "SetUserDisabled"; PATCH "/users/{id}/role" "SetUserRole";
    POST "/teams" "CreateTeam"; GET "/pricing" "ListPricing"; POST "/pricing" "UpsertPricing"; GET "/deployments" "ListDeployments";
    GET "/concurrency/routing" "ListRoutingConcurrencyLimits"; PUT "/concurrency/routing" "SetRoutingConcurrencyLimit";
    GET "/provider-health" "GetProviderHealth"; GET "/provider-health/{name}/history" "GetProviderHealthHistory";
    POST "/deployments" "CreateDeployment"; PATCH "/deployments/{name}" "UpdateDeployment";
    POST "/deployments/{name}/test" "TestDeploymentConnection"; DELETE "/deployments/{name}" "DeleteDeployment"; GET "/aliases" "ListAliases";
    POST "/aliases" "UpsertAlias"; PATCH "/aliases/{alias}/cache" "UpdateAliasCache"; PATCH "/aliases/{alias}/strategy" "UpdateAliasStrategy";
    PATCH "/deployments/{name}/tags" "UpdateDeploymentTagsHandler"; DELETE "/aliases/{alias}" "DeleteAlias"; GET "/callbacks" "ListCallbackStats";
    GET "/projections" "GetProjection"; GET "/export/usage.csv" "ExportUsage"; GET "/export/audit.csv" "ExportAudit"; GET "/alerts" "ListAlertRules";
    POST "/alerts" "CreateAlertRule"; PATCH "/alerts/{id}" "UpdateAlertRule"; DELETE "/alerts/{id}" "DeleteAlertRule";
    GET "/alert-events" "ListAlertEvents"; GET "/guardrails" "ListGuardrails"; GET "/guardrails/assignments" "ListGuardrailAssignments";
    POST "/guardrails/test" "TestGuardrails"; GET "/guardrails/{scope}/{subject}" "GetGuardrailScope";
    PUT "/guardrails/{scope}/{subject}" "SetGuardrailScope"; GET "/usage/{id}/payload" "GetUsagePayload"] ++
    with_ [Lifecycle; Deadline; Admit; RejectDrained] (POST "/usage/{id}/replay" "ReplayUsage") :: [
    GET "/keys/{id}/effective-policy" "GetEffectivePolicy"; PATCH "/teams/{slug}/capture-payloads" "UpdateTeamCapturePayloads";
    PUT "/teams/{slug}/models" "UpdateTeamAllowedModels"; GET "/passthroughs" "ListPassthroughs"; POST "/passthroughs" "CreatePassthrough";
    PATCH "/passthroughs/{name}" "UpdatePassthrough"; DELETE "/passthroughs/{name}" "DeletePassthrough"]).

Definition team_routes : list route :=
  group [NeedTeamAccess] [
    GET "/teams/{slug}" "GetTeam"; GET "/teams/{slug}/members" "ListTeamMembers"; GET "/teams/{slug}/models" "ListTeamModels";
    POST "/teams/{slug}/budget" "UpdateTeamBudget"; PATCH "/teams/{slug}/concurrency" "UpdateTeamConcurrency";
    PATCH "/teams/{slug}/rates" "UpdateTeamRates"; GET "/teams/{slug}/keys" "ListKeys"; POST "/teams/{slug}/keys" "CreateKey";
    GET "/teams/{slug}/customers" "ListCustomers"; PATCH "/teams/{slug}/customer-policy" "SetCustomerRegistration";
    POST "/teams/{slug}/customers" "CreateCustomer"; PATCH "/teams/{slug}/customers/{externalID}" "UpdateCustomer";
    GET "/teams/{slug}/customers/{externalID}/budget" "GetCustomerBudget";
    PATCH "/teams/{slug}/customers/{externalID}/concurrency" "SetCustomerConcurrency"; GET "/teams/{slug}/service-accounts" "ListServiceAccounts";
    POST "/teams/{slug}/service-accounts" "CreateServiceAccount"].

Definition service_account_routes : list route :=
  group [NeedAdmin] [
    PATCH "/service-accounts/{id}" "UpdateServiceAccount"; PATCH "/service-accounts/{id}/concurrency" "UpdateServiceAccountConcurrency";
    DELETE "/service-accounts/{id}" "ArchiveServiceAccount"; POST "/service-accounts/{id}/keys" "CreateServiceAccountKey"].

Definition manager_routes : list route :=
  group [NeedManagerOrAdmin] [
    GET "/teams" "ListTeams"; GET "/usage" "ListUsage"; GET "/usage/facets" "GetUsageFacets"; GET "/usage/{id}" "GetUsageRow";
    GET "/usage/aggregate" "GetUsageAggregate"; GET "/spend" "GetSpendReport"; GET "/spend/timeseries" "GetSpendTimeseries";
    GET "/invites" "ListInvites"; POST "/invites" "CreateInvite"; PATCH "/keys/{id}" "UpdateKey"; GET "/keys/{id}/budget" "GetKeyBudget";
    PATCH "/keys/{id}/budget" "SetKeyBudget"; POST "/keys/{id}/rotate" "RotateKey"; POST "/keys/{id}/revoke" "RevokeKey";
    POST "/keys/{id}/pause" "PauseKey"; POST "/keys/{id}/resume" "ResumeKey"].

Definition admin_routes : list route :=
  under "/admin" [LimitBody bodyLimitAdmin; SessionAuth; Inflight] (admin_only_routes ++ team_routes ++ service_account_routes ++ manager_routes).

(** The data plane. *)
Definition data_plane : list middleware := [Lifecycle; LimitBody bodyLimitV1; Deadline; Admit; RejectDrained; BearerAuth; TenantConcurrency].

Definition v1_routes : list route :=
  under "/v1" data_plane [
    GET "/models" "Models"; POST "/chat/completions" "ChatCompletions"; POST "/embeddings" "Embeddings"; POST "/responses" "Responses";
    GET "/responses/{responseID}" "GetResponse"; DELETE "/responses/{responseID}" "DeleteResponse";
    GET "/responses/{responseID}/input_items" "ResponseInputItems"; POST "/moderations" "Moderations"; POST "/rerank" "Rerank";
    POST "/images/generations" "ImagesGenerations"; POST "/messages" "Messages"; POST "/audio/transcriptions" "AudioTranscriptions";
    POST "/audio/translations" "AudioTranslations"; POST "/audio/speech" "AudioSpeech"].

Definition passthrough_routes : list route := under "/passthrough" data_plane [mkRoute "*" "/{name}/*" [] "GenericPassthrough"].

Definition routes : list route :=
  [GET "/healthz" "handleHealth"; GET "/readyz" "handleReady"; with_ [LimitBody bodyLimitAdmin; SessionAuth; NeedAdmin] (POST "/health/drain" "handleDrain")] ++
  sign_in_routes ++ me_routes ++ admin_routes ++ v1_routes ++ passthrough_routes ++ [GET "/*" "spaHandler"].

(** ** What the chain guarantees *)

Section Chain_facts.
Context {R : Type} `{RedisZSetLaws R}.
Variable handler : caller -> plane R -> plane R * outcome.
Implicit Types (s : plane R).

(** The caller's limited scopes and their keys. *)
Definition tenant_scopes (c : caller) : list Scope := (tenantConcurrencyScopes (Some (ca_team c)) (Some (ca_key c))).2.
Definition tenant_keys (l : Limiter) (c : caller) : list string := scope_key (lm_keyPrefix l) <$> tenant_scopes c.

(** The list of models takes no tenant's capacity, nor does a caller without limits. *)
Definition exempt (e : chain_env) (c : caller) : Prop :=
  (ce_method e = "GET" /\ TrimSuffix (ce_path e) "/" = "/v1/models") \/ tenant_scopes c = [].

(** The handler ran: from the state [s1] to [s2], with a lease of the caller on each of
    its scopes in Redis. Afterwards the lease is gone from all of them, if the release
    got to Redis, and every other lease is as the handler left it. *)
Definition held_leases (e : chain_env) (c : caller) (s1 s2 : plane R) (r' : R) : Prop :=
  exists l, ce_limiter e = Some l /\ lm_redis l = true /\
    (forall k, k ∈ tenant_keys l c -> is_Some (leases (ce_acquired e) (pl_redis s1) k !! ce_member e)) /\
    match ce_release e with
    | IoFailedBefore => r' = pl_redis s2
    | _ => forall k, leases (ce_released e) r' k =
             if decide (k ∈ tenant_keys l c) then delete (ce_member e) (leases (ce_released e) (pl_redis s2) k)
             else leases (ce_released e) (pl_redis s2) k
    end.

(** What a request that is turned away leaves in Redis: nothing new, unless the reply to
    its lease was lost. *)
Definition no_leases (e : chain_env) (r r' : R) : Prop :=
  ce_acquire e <> IoFailedAfter -> forall k, leases (ce_acquired e) r' k = leases (ce_acquired e) r k.

(** The answers of the chain itself: the bearer check's, or one of its own. *)
Definition refusal (e : chain_env) (o : outcome) : Prop :=
  match o with
  | Answer status code _ => ce_caller e = Err (status, code) \/ status = 429 \/ status = 503
  | Silence => ce_cancelled e = true
  | Panicked => False
  end.

(** A call of the lease that does not admit changes no lease, unless its reply is lost. *)
Lemma refused_leases l call now req (r r' : R) res :
  rq_Scopes req <> [] -> Acquire (Some l) call now req r = (r', res) -> call <> IoFailedAfter ->
  (forall le x, res = Ok (le, x) -> rs_Allowed x = false) -> forall k, leases now r' k = leases now r k.
Proof.
  intros Hne HA Hcall Hno k. destruct res as [[le x] | err].
  - pose proof (Acquire_all_or_nothing l call now req r r' le x Hne HA) as Hall. cbn zeta in Hall.
    rewrite (Hno le x eq_refl) in Hall. by destruct Hall as (_ & Hk & _).
  - revert HA. unfold Acquire. repeat (case_match; try (intros; simplify_eq; done)).
    intros [= <- Hd]. match goal with E : acquireScript _ _ _ _ _ = _ |- _ => rename E into Hs end. exfalso.
    match goal with E : build_keys _ _ = _ |- _ => apply build_keys_Ok in E as [-> _] end.
    apply acquireScript_spec in Hs as [(-> & _) | (j & retry & k' & limit & -> & Hj & _ & Hk & _)]; [done | |].
    + unfold decode_reply in Hd. cbn in Hd. rewrite list_lookup_fmap in Hk. apply fmap_Some in Hk as (s & Hs & _).
      pose proof (lookup_lt_Some _ _ _ Hs). assert ((j - 1 <? 0) || (Z.of_nat (length (rq_Scopes req)) <=? j - 1) = false) as Hb by lia.
      by rewrite Hb, Hs in Hd.
    + unfold maxInt64. case_match; lia.
Qed.

(** A lease that was given covers every scope of the caller. *)
Lemma admitted_leases e c l partition r r' lease res :
  tenantConcurrencyScopes (Some (ca_team c)) (Some (ca_key c)) = (partition, tenant_scopes c) -> tenant_scopes c <> [] ->
  Acquire (Some l) (ce_acquire e) (ce_acquired e) (mkRequest (ce_member e) partition (ce_ttl e) (tenant_scopes c)) r = (r', Ok (lease, res)) ->
  rs_Allowed res = true ->
  lm_redis l = true /\ lease = Some (mkLease (ce_member e) (tenant_keys l c) false false) /\
  forall k, k ∈ tenant_keys l c -> is_Some (leases (ce_acquired e) r' k !! ce_member e).
Proof.
  intros _ Hne HA Hall. pose proof (Acquire_all_or_nothing l _ _ (mkRequest (ce_member e) partition (ce_ttl e) (tenant_scopes c)) _ _ _ _ Hne HA) as Hq. cbn zeta in Hq. rewrite Hall in Hq.
  destruct Hq as (-> & Hk & _). split_and!; [| done |].
  - revert HA. unfold Acquire. rewrite bool_decide_false by done. by destruct (lm_redis l).
  - intros k Hin. rewrite Hk, decide_True by done. cbn [rq_ID]. rewrite lookup_insert_eq. eauto.
Qed.

Lemma released_leases e c l r :
  lm_redis l = true -> tenant_scopes c <> [] ->
  let r' := (Release (lm_redis l) (ce_release e) (ce_released e) (Some (mkLease (ce_member e) (tenant_keys l c) false false)) r).1.1 in
  match ce_release e with
  | IoFailedBefore => r' = r
  | _ => forall k, leases (ce_released e) r' k =
           if decide (k ∈ tenant_keys l c) then delete (ce_member e) (leases (ce_released e) r k) else leases (ce_released e) r k
  end.
Proof.
  intros -> Hne. unfold Release. cbn [le_once le_keys le_member negb orb]. rewrite bool_decide_false.
  2: { unfold tenant_keys. by destruct (tenant_scopes c). }
  destruct (ce_release e); [| done |]; intros k; apply releaseScript_leases.
Qed.

(** What the middleware of the tenants does. *)
Lemma tenant_chain e c s :
  let '(s', o) := tenantConcurrencyMiddleware handler e c s in
  (exists s1 s2, handler c s1 = (s2, o) /\ pl_active s1 = pl_active s /\ pl_permits s1 = pl_permits s /\
     pl_active s' = pl_active s2 /\ pl_permits s' = pl_permits s2 /\
     ((exempt e c /\ pl_redis s1 = pl_redis s /\ pl_redis s' = pl_redis s2) \/ held_leases e c s1 s2 (pl_redis s'))) \/
  ((forall h, tenantConcurrencyMiddleware h e c s = (s', o)) /\ refusal e o /\
   pl_active s' = pl_active s /\ pl_permits s' = pl_permits s /\ no_leases e (pl_redis s) (pl_redis s')).
Proof.
  unfold tenantConcurrencyMiddleware. destruct (_ && _) eqn:Em.
  { apply andb_true_iff in Em as [E1%String.eqb_eq E2%String.eqb_eq]. destruct (handler c s) as [s2 o] eqn:Eh.
    left. exists s, s2. split_and!; try done. left. split_and!; try done. by left. }
  destruct (tenantConcurrencyScopes (Some (ca_team c)) (Some (ca_key c))) as [p scopes] eqn:Es.
  assert (tenant_scopes c = scopes) as Hsc by (unfold tenant_scopes; by rewrite Es). case_bool_decide as Hne.
  { destruct (handler c s) as [s2 o] eqn:Eh. left. exists s, s2. split_and!; try done. left. split_and!; try done. right. by rewrite Hsc. }
  destruct (ce_limiter e) as [l |] eqn:El; [| right; split_and!; try done; cbn; auto].
  destruct (Acquire _ _ _ _ _) as [r1 [[lease res] | err]] eqn:HA.
  2: { right. split_and!; try done; [cbn; auto |]. intros Hc. by eapply (refused_leases l); [| exact HA | done | done]. }
  destruct (rs_Allowed res) eqn:Ha; cbn [negb].
  2: { right. split_and!; try done; [cbn; auto |]. intros Hc. eapply (refused_leases l); [| exact HA | done |]; [done |]. intros le x [= _ <-]. done. }
  rewrite <- Hsc in HA, Es, Hne. destruct (admitted_leases e c l p _ _ _ _ Es Hne HA Ha) as (Hr & -> & Hk).
  destruct (handler c (with_redis r1 s)) as [s2 o] eqn:Eh. left. exists (with_redis r1 s), s2. split_and!; try done.
  right. exists l. split_and!; [done | done | exact Hk |]. by apply released_leases.
Qed.

(** C16. A request of the data plane gives back what it took. Either its handler ran, for a
    caller the bearer check accepted and on a server that did not drain at either check:
    the handler saw itself counted as an active request, with a permit where there is a
    gate, and, except on the list of models and for a caller without limits, with a
    lease in Redis on every limited scope of the caller; and when it was over, panicking
    or not, the count and the permit were taken off what was left, and the lease was
    removed from all its scopes, every other lease kept, if the release got to Redis
    (otherwise it stays until it expires). Or no handler ran, the answer is a refusal or
    none for a client that has gone, both counts are as before, and no lease was added
    or lost, unless the reply to the lease's acquisition was lost (a lease taken then
    stays until it expires). *)
Theorem data_plane_gives_everything_back (e : chain_env) (s : plane R) :
  let '(s', o) := serve_data_plane handler e s in
  (exists c s1 s2, handler c s1 = (s2, o) /\ ce_draining e = false /\ ce_draining_after e = false /\ ce_caller e = Ok c /\
     (ce_gate e = None \/ ce_gate e = Some Gate.OutcomeAdmitted) /\
     let permit := match ce_gate e with None => 0 | Some _ => 1 end in
     pl_active s1 = pl_active s + 1 /\ pl_permits s1 = pl_permits s + permit /\
     pl_active s' = pl_active s2 - 1 /\ pl_permits s' = pl_permits s2 - permit /\
     ((exempt e c /\ pl_redis s1 = pl_redis s /\ pl_redis s' = pl_redis s2) \/ held_leases e c s1 s2 (pl_redis s'))) \/
  ((forall h, serve_data_plane h e s = (s', o)) /\ refusal e o /\
   pl_active s' = pl_active s /\ pl_permits s' = pl_permits s /\ no_leases e (pl_redis s) (pl_redis s')).
Proof.
  unfold serve_data_plane, admissionMiddleware, authenticated.
  destruct (ce_draining e) eqn:Ed; [right; split_and!; try done; cbn; auto |].
  destruct (ce_gate e) as [g |] eqn:Eg.
  - assert (g = Gate.OutcomeAdmitted \/ g <> Gate.OutcomeAdmitted) as [-> | Hg] by (destruct g; auto).
    2: { destruct g; try done; (destruct (ce_cancelled e) eqn:Ec; right; cbn; split_and!; try done; try lia; auto). }
    destruct (ce_draining_after e) eqn:Ea; [right; cbn; split_and!; try done; try lia; auto |].
    destruct (ce_caller e) as [c | [status code]] eqn:Eca; [| right; cbn; split_and!; try done; try lia; by left].
    set (s0 := mkPlane _ _ _). pose proof (tenant_chain e c s0) as Ht.
    destruct (tenantConcurrencyMiddleware handler e c s0) as [s3 o] eqn:Et. cbn in Ht.
    destruct Ht as [(s1 & s2 & Hh & H1 & H2 & H3 & H4 & Hl) | (Hh & Ho & H1 & H2 & Hl)]; [left | right].
    + exists c, s1, s2. cbn. rewrite H3, H4. split_and!; try done; try lia. by right.
    + split_and!; cbn; try done; try lia. intros h. by rewrite Hh.
  - destruct (ce_draining_after e) eqn:Ea; [right; cbn; split_and!; try done; try lia; auto |].
    destruct (ce_caller e) as [c | [status code]] eqn:Eca; [| right; cbn; split_and!; try done; try lia; by left].
    set (s0 := mkPlane _ _ _). pose proof (tenant_chain e c s0) as Ht.
    destruct (tenantConcurrencyMiddleware handler e c s0) as [s3 o] eqn:Et. cbn in Ht.
    destruct Ht as [(s1 & s2 & Hh & H1 & H2 & H3 & H4 & Hl) | (Hh & Ho & H1 & H2 & Hl)]; [left | right].
    + exists c, s1, s2. cbn. rewrite H3, H4. split_and!; try done; try lia. by left.
    + split_and!; cbn; try done; try lia. intros h. by rewrite Hh.
Qed.
End Chain_facts.

(** ** Leases of a caller *)

Lemma positive_Some o n : positive o = Some n -> o = Some n /\ 0 < n.
Proof. unfold positive. destruct o as [m |]; [| done]. destruct (0 <? m) eqn:E; [| done]. intros [= <-]. split; [done | by apply Z.ltb_lt]. Qed.

Definition valid_scope (s : Scope) : Prop := validScopeKind (sc_Kind s) = true /\ 0 < sc_ID s /\ 0 < sc_Limit s.

Lemma tenant_scopes_valid t k :
  0 < tm_ID t -> 0 < vk_TeamID k ->
  let '(partition, scopes) := tenantConcurrencyScopes (Some t) (Some k) in
  Forall valid_scope scopes /\ (length scopes <= 3)%nat /\ (scopes <> [] -> 0 < partition).
Proof.
  intros Ht Hk. unfold tenantConcurrencyScopes.
  assert (forall p, 0 <= p -> 0 < (if p =? 0 then vk_TeamID k else p)) as Hp by (intros p ?; destruct (Z.eqb_spec p 0); lia).
  destruct (positive (tm_MaxParallelRequests t)) as [n1 |] eqn:E1; [apply positive_Some in E1 as [_ E1] |];
  (destruct (positive (vk_MaxParallelRequests k)) as [n2 |] eqn:E2; [apply positive_Some in E2 as [_ E2]; destruct (0 <? vk_ID k) eqn:Eid; [apply Z.ltb_lt in Eid |] |]);
  (destruct (positive (vk_OwnerMaxParallelRequests k)) as [n3 |] eqn:E3; [apply positive_Some in E3 as [_ E3];
     destruct (positive (vk_UserID k)) as [u |] eqn:E4; [apply positive_Some in E4 as [_ E4] |
       destruct (positive (vk_ServiceAccountID k)) as [a |] eqn:E5; [apply positive_Some in E5 as [_ E5] |]] |]).
  all: cbn -[Z.eqb]; split_and!; [repeat (apply Forall_cons; split; [by split |]); apply Forall_nil_2 | lia | intros Hne; first [done | apply Hp; first [lia | apply Z.lt_le_incl, Hp; lia]]].
Qed.

Lemma build_keys_valid prefix scopes : Forall valid_scope scopes -> exists ks, build_keys prefix scopes = Ok ks.
Proof.
  induction 1 as [| s scopes (Hk & Hi & Hl) _ [ks IH]]; [by eexists |]. cbn. rewrite Hk, (proj2 (Z.leb_gt _ _)), (proj2 (Z.leb_gt _ _)) by done.
  cbn. rewrite IH. by eexists.
Qed.

Lemma ttl_covers d : 0 < d -> d + 30 * Second <= MaxInt64 -> d + 30 * Second <= concurrencyLeaseTTL d /\ 2 * Minute <= concurrencyLeaseTTL d.
Proof.
  intros Hd Hmax. unfold concurrencyLeaseTTL. rewrite wrap64_id by (unfold int64_ok, MinInt64; unfold Second in *; lia).
  destruct (Z.ltb_spec (d + 30 * Second) (2 * Minute)); lia.
Qed.

Lemma lease_ms_covers req d : 0 < d -> d + 30 * Second <= rq_TTL req -> Milliseconds d + 30000 <= lease_ms req.
Proof.
  intros Hd H. unfold lease_ms, maxInt64. assert (Milliseconds d + 30000 <= Milliseconds (rq_TTL req)); [| case_match; lia].
  unfold Milliseconds, Millisecond, Second in *. rewrite !Z.quot_div_nonneg by lia.
  replace (d / 1000000 + 30000) with ((d + 30000 * 1000000) / 1000000) by (rewrite Z.div_add; lia). apply Z.div_le_mono; lia.
Qed.

Section Tenant_leases.
Context {R : Type} `{RedisZSetLaws R}.

(** With a deadline and a Redis that answers, the lease of an authenticated caller is
    never refused for its form: the caller is admitted or one of the caller's own scopes
    is full. An admitted caller holds every one of its scopes, each within its limit, for
    the whole time the request may run and thirty seconds more. *)
Theorem tenant_leases_cover_the_request (l : Limiter) (c : caller) (deadline now : Z) (member : string) (r : R)
    (Hl : lm_redis l = true) (Hteam : 0 < tm_ID (ca_team c)) (Hkey : 0 < vk_TeamID (ca_key c)) (Hm : member <> "")
    (Hd : 0 < deadline) (Hmax : deadline + 30 * Second <= MaxInt64) :
  let '(partition, scopes) := tenantConcurrencyScopes (Some (ca_team c)) (Some (ca_key c)) in
  scopes <> [] ->
  exists r' lease res, Acquire (Some l) IoOk now (mkRequest member partition (concurrencyLeaseTTL deadline) scopes) r = (r', Ok (lease, res)) /\
  if rs_Allowed res
  then lease = Some (mkLease member (tenant_keys l c) false false) /\
       forall s, s ∈ scopes -> let k := scope_key (lm_keyPrefix l) s in
         (exists t, leases now r' k !! member = Some t /\ now + Milliseconds deadline + 30000 <= t) /\
         (leases now r k !! member = None -> Z.of_nat (size (leases now r' k)) <= sc_Limit s)
  else exists s, s ∈ scopes /\ rs_Scope res = sc_Kind s /\ sc_Limit s <= Z.of_nat (size (leases now r (scope_key (lm_keyPrefix l) s))).
Proof.
  pose proof (tenant_scopes_valid _ _ Hteam Hkey) as Hv. unfold tenant_keys, tenant_scopes.
  destruct (tenantConcurrencyScopes (Some (ca_team c)) (Some (ca_key c))) as [partition scopes] eqn:Es. cbn [snd]. destruct Hv as (Hs & Hlen & Hp).
  intros Hne. specialize (Hp Hne). destruct (ttl_covers deadline Hd Hmax) as [Ht1 Ht2].
  set (req := mkRequest member partition (concurrencyLeaseTTL deadline) scopes).
  assert (exists r' lease res, Acquire (Some l) IoOk now req r = (r', Ok (lease, res))) as (r' & lease & res & HA).
  { destruct (build_keys_valid (lm_keyPrefix l) scopes Hs) as [ks Hks]. unfold Acquire. cbn [rq_Scopes rq_ID rq_Partition rq_TTL req].
    rewrite bool_decide_eq_false_2 by done. rewrite Hl. cbn [negb]. rewrite (proj2 (String.eqb_neq _ _)) by done.
    rewrite (proj2 (Z.leb_gt partition 0)) by done. rewrite (proj2 (Z.leb_gt (concurrencyLeaseTTL deadline) 0)) by (unfold Minute, Second in *; lia).
    rewrite (proj2 (Z.ltb_ge maxScopes _)) by (unfold maxScopes; lia). rewrite Hks.
    destruct (acquireScript now (maxInt64 (Milliseconds (concurrencyLeaseTTL deadline)) 1) member ks r) as [r' values] eqn:Ha.
    apply acquireScript_spec in Ha; [| unfold maxInt64; case_match; lia]. destruct Ha as [(-> & _) | (j & retry & k & limit & -> & Hj & _ & Hk & _)].
    - by eexists _, _, _.
    - apply build_keys_Ok in Hks as [-> _]. unfold decode_reply. cbn [Z.eqb Z.sub]. cbn [rq_Scopes req].
      rewrite list_lookup_fmap in Hk. apply fmap_Some in Hk as (s & Hk & _). pose proof (lookup_lt_Some _ _ _ Hk).
      rewrite (proj2 (Z.ltb_ge (j - 1) 0)) by lia. rewrite (proj2 (Z.leb_gt (Z.of_nat (length scopes)) (j - 1))) by lia. cbn [orb]. rewrite Hk.
      by eexists _, _, _. }
  exists r', lease, res. split; [done |]. pose proof (Acquire_all_or_nothing l IoOk now req r r' lease res Hne HA) as Hall. cbn zeta in Hall.
  destruct (rs_Allowed res).
  - destruct Hall as (-> & Hleases & Hsize). split; [done |]. intros s Hin. split; [| by apply Hsize].
    exists (now + lease_ms req). rewrite Hleases, decide_True by by apply list_elem_of_fmap_2. rewrite lookup_insert_eq. split; [done |].
    pose proof (lease_ms_covers req deadline Hd Ht1). lia.
  - destruct Hall as (_ & _ & s & Hin & Hsc & _ & Hfull). eauto.
Qed.
End Tenant_leases.

(** A wait is announced in whole seconds, never shorter than it is. *)
Lemma retry_after_covers wait : 0 <= wait -> let n := retryAfterSeconds wait in 1 <= n /\ wait <= n * Second /\ (1 < n -> (n - 1) * Second < wait).
Proof.
  intros Hw. unfold retryAfterSeconds. pose proof (Z.quot_rem' wait Second) as Hq. pose proof (Z.rem_bound_pos wait Second Hw ltac:(unfold Second; lia)) as Hr.
  destruct (Z.eqb_spec (wait %g Second) 0); cbn -[Second]; destruct (Z.ltb_spec (wait /g Second) 1); try destruct (Z.ltb_spec (wait /g Second + 1) 1); unfold Second in *; lia.
Qed.

(** A server whose deadline is negative, which the configuration accepts, sets no
    deadline and still takes leases of two minutes: they end under running requests. *)
Lemma negative_deadline_short_lease d : MinInt64 <= d < 0 -> concurrencyLeaseTTL d = 2 * Minute.
Proof.
  intros Hd. unfold concurrencyLeaseTTL. rewrite wrap64_id by (unfold int64_ok, MinInt64, MaxInt64, Second in *; lia).
  destruct (Z.ltb_spec (d + 30 * Second) (2 * Minute)); [done |]. unfold Minute, Second in *. lia.
Qed.

(** ** Who reaches which route *)

(** The checks of a chain on a caller with the session's principal, for the team of the
    path; the other middlewares look at no identity. *)
Definition check (session : answer Principal) (slug : string) (p : option Principal) (m : middleware) : answer (option Principal) :=
  match m with
  | SessionAuth => p ← session; Ok (Some p)
  | NeedAdmin => _ ← RequireAdmin p; Ok p
  | NeedTeamAccess => _ ← RequireTeamAccess p slug; Ok p
  | NeedManagerOrAdmin => _ ← RequireManagerOrAdmin p; Ok p
  | _ => Ok p
  end.

Fixpoint authorize (session : answer Principal) (slug : string) (p : option Principal) (ms : list middleware) : answer (option Principal) :=
  match ms with [] => Ok p | m :: ms => p ← check session slug p m; authorize session slug p ms end.

Definition changes_state (r : route) : bool := negb (rt_method r =? "GET")%string.

#[export] Instance middleware_eq_dec : EqDecision middleware.
Proof. solve_decision. Defined.

Definition has (m : middleware) (r : route) : bool := bool_decide (m ∈ rt_middlewares r).

(** The form of every route of the administration: one check of the role, after the
    session. *)
Definition is_guard (m : middleware) : bool := match m with NeedAdmin | NeedTeamAccess | NeedManagerOrAdmin => true | _ => false end.
Definition admin_shape (r : route) : bool :=
  match rt_middlewares r with
  | LimitBody n :: SessionAuth :: Inflight :: g :: rest => (n =? bodyLimitAdmin) && is_guard g && forallb (fun m => negb (is_guard m)) rest
  | _ => false
  end.

Lemma admin_routes_shape : forallb (fun r => negb (HasPrefix (rt_pattern r) "/admin") || admin_shape r) routes = true.
Proof. vm_compute. reflexivity. Qed.

(** C33. A route under [/admin] is reached only with a session, by an administrator or, where
    the route is not an administrator's, by a manager, and on a route of a team only by a
    manager of that team. *)
Theorem administration_is_guarded (r : route) (session : answer Principal) (slug : string) (p : option Principal)
    (Hr : r ∈ routes) (Hadmin : HasPrefix (rt_pattern r) "/admin" = true) (Hok : authorize session slug None (rt_middlewares r) = Ok p) :
  exists pr, session = Ok pr /\
    (IsAdmin (Some pr) = true \/
     (IsManager (Some pr) = true /\ has NeedAdmin r = false /\ (has NeedTeamAccess r = true -> TeamSlug (Some pr) = slug /\ slug <> ""))).
Proof.
  pose proof admin_routes_shape as Hall. rewrite forallb_forall in Hall. specialize (Hall r (proj1 (list_elem_of_In _ _) Hr)).
  rewrite Hadmin in Hall. cbn [negb orb] in Hall. unfold admin_shape in Hall. unfold has.
  destruct (rt_middlewares r) as [| [] [| [] [| [] [| g rest]]]]; try done. apply andb_true_iff in Hall as [Hg Hrest].
  assert (forall m, is_guard m = true -> m <> g -> bool_decide (m ∈ LimitBody limit :: SessionAuth :: Inflight :: g :: rest) = false) as Hno.
  { intros m Hm Hne. apply bool_decide_eq_false. rewrite !elem_of_cons. intros [-> | [-> | [-> | [-> | Hin]]]]; try done.
    rewrite forallb_forall in Hrest. apply list_elem_of_In in Hin. specialize (Hrest m Hin). by rewrite Hm in Hrest. }
  destruct session as [pr | e]; [| done]. exists pr. split; [done |]. cbn [authorize check mbind result_bind] in Hok.
  apply bind_Ok_inv in Hok as (p1 & H1 & _). apply andb_true_iff in Hg as [_ Hg]. destruct g; try done; cbn [check] in H1.
  - left. unfold RequireAdmin in H1. by destruct (IsAdmin (Some pr)).
  - unfold RequireTeamAccess, CanAccessTeam, IsManagerOf in H1. destruct (String.eqb_spec slug ""); [done |]. destruct (IsAdmin (Some pr)); [by left |].
    right. destruct (IsManager (Some pr)); [| done]. destruct (String.eqb_spec (TeamSlug (Some pr)) slug); [| done]. split_and!; [done | by apply Hno | done].
  - unfold RequireManagerOrAdmin in H1. destruct (IsAdmin (Some pr)); [by left |]. right. destruct (IsManager (Some pr)); [| done].
    split_and!; [done | by apply Hno |]. intros Ht. by rewrite Hno in Ht.
Qed.

(** Requests that change something are behind a session or a bearer key, but for the
    sign-in, the reset of a password, both throttled, and the acceptance of an invite;
    and everything with a bearer key is behind the whole chain of the data plane. *)
Theorem writes_are_authenticated (r : route) (Hr : r ∈ routes) (Hw : changes_state r = true) :
  has SessionAuth r = true \/ rt_middlewares r = data_plane \/
  (has Throttle r = true /\ (rt_handler r = "Login" \/ rt_handler r = "Consume")) \/ rt_handler r = "AcceptInvite".
Proof.
  assert (forallb (fun r => negb (changes_state r) || has SessionAuth r || bool_decide (rt_middlewares r = data_plane) ||
    (has Throttle r && ((rt_handler r =? "Login")%string || (rt_handler r =? "Consume")%string)) || (rt_handler r =? "AcceptInvite")%string) routes = true) as Hall
    by (vm_compute; reflexivity).
  rewrite forallb_forall in Hall. specialize (Hall r (proj1 (list_elem_of_In _ _) Hr)). rewrite Hw in Hall. cbn [negb orb] in Hall.
  rewrite !orb_true_iff, andb_true_iff, orb_true_iff, !String.eqb_eq, bool_decide_eq_true in Hall. tauto.
Qed.

(** ** Evaluation *)

Definition example_team : Team := mkTeam 7 "acme" "Acme" None "" [] None None (Some 2) false "optional" 0 None.
Definition example_caller : caller :=
  mkCaller example_team (mkVirtualKey 3 7 (Some 5) None "" "" "" [] [] None None (Some 1) None None None None 0 None None "" "" "" (Some 4)) None.

Example example_scopes : tenantConcurrencyScopes (Some example_team) (Some (ca_key example_caller)) =
  (7, [mkScope "team" 7 2; mkScope "key" 3 1; mkScope "user" 5 4]).
Proof. reflexivity. Qed.

Lemma tenant_leases_cover_the_request_witness :
  exists r' lease res, Acquire (R := MapRedis.db) (Some example_limiter) IoOk 1000
    (mkRequest "m" 7 (concurrencyLeaseTTL (90 * Second)) [mkScope "team" 7 2; mkScope "key" 3 1; mkScope "user" 5 4]) example_db = (r', Ok (lease, res)).
Proof.
  destruct (tenant_leases_cover_the_request (R := MapRedis.db) example_limiter example_caller (90 * Second) 1000 "m" example_db) as (r' & lease & res & HA & _);
    [reflexivity | reflexivity | reflexivity | discriminate | reflexivity | vm_compute; discriminate | discriminate |].
  exists r', lease, res. exact HA.
Defined.

Lemma administration_is_guarded_witness :
  exists pr, Ok (mkPrincipal true None) = Ok (E := Z * string) pr /\ (IsAdmin (Some pr) = true \/ (IsManager (Some pr) = true /\ has NeedAdmin (default (GET "" "") (admin_routes !! 0%nat)) = false /\
    (has NeedTeamAccess (default (GET "" "") (admin_routes !! 0%nat)) = true -> TeamSlug (Some pr) = "" /\ "" <> ""))).
Proof.
  refine (administration_is_guarded (default (GET "" "") (admin_routes !! 0%nat)) (Ok (mkPrincipal true None)) "" (Some (mkPrincipal true None)) _ _ _);
    [| reflexivity | reflexivity].
  apply list_elem_of_lookup. exists 20%nat. vm_compute. reflexivity.
Defined.

Lemma writes_are_authenticated_witness :
  let r := mkRoute "POST" "/v1/embeddings" data_plane "Embeddings" in
  has SessionAuth r = true \/ rt_middlewares r = data_plane \/ (has Throttle r = true /\ (rt_handler r = "Login" \/ rt_handler r = "Consume")) \/ rt_handler r = "AcceptInvite".
Proof.
  intros r. apply (writes_are_authenticated r); [| reflexivity]. apply list_elem_of_lookup. exists 108%nat. vm_compute. reflexivity.
Defined.

(** ** A request through the chain *)

Definition example_chain (acquire release : io) : chain_env :=
  mkChainEnv false (Some Gate.OutcomeAdmitted) false false (Ok example_caller) "POST" "/v1/chat/completions" (Some example_limiter)
    (2 * Minute) "m" acquire 1000 release 2000.
Definition example_handler (c : caller) (s : plane MapRedis.db) : plane MapRedis.db * outcome := (s, Answer 200 "" None).
Definition example_plane : plane MapRedis.db := mkPlane 4 2 MapRedis.empty_db.
Definition team_lease (s : plane MapRedis.db) : option Z := leases 2000 (pl_redis s) (scope_key "aiport" (mkScope "team" 7 2)) !! "m".

Lemma data_plane_gives_everything_back_witness :
  let '(s', o) := serve_data_plane example_handler (example_chain IoOk IoOk) example_plane in
  o = Answer 200 "" None /\
  exists c s1 s2, example_handler c s1 = (s2, o) /\ pl_active s1 = 5 /\ pl_permits s1 = 3 /\ pl_active s' = pl_active s2 - 1.
Proof.
  pose proof (data_plane_gives_everything_back example_handler (example_chain IoOk IoOk) example_plane) as Hc.
  assert ((serve_data_plane example_handler (example_chain IoOk IoOk) example_plane).2 = Answer 200 "" None) as Ho by (vm_compute; reflexivity).
  destruct (serve_data_plane example_handler (example_chain IoOk IoOk) example_plane) as [s' o]. cbn [snd] in Ho. subst o. split; [reflexivity |].
  destruct Hc as [(c & s1 & s2 & Hh & _ & _ & _ & _ & H1 & H2 & H3 & _) | (_ & [[=] | [[=] | [=]]] & _)].
  exists c, s1, s2. split; [exact Hh |]. split; [exact H1 |]. split; [exact H2 | exact H3].
Defined.

(** The lease is gone after the request; it stays when the release does not get to
    Redis, and when the reply to its acquisition is lost, although the request was
    turned away. *)
Example leases_of_a_request :
  team_lease (serve_data_plane example_handler (example_chain IoOk IoOk) example_plane).1 = None /\
  team_lease (serve_data_plane example_handler (example_chain IoOk IoFailedBefore) example_plane).1 = Some 121000 /\
  (let '(s, o) := serve_data_plane example_handler (example_chain IoFailedAfter IoOk) example_plane in
   (o, team_lease s) = (Answer 503 "concurrency_limit_unavailable" (Some 1), Some 121000)).
Proof. vm_compute. by split_and!. Qed.
