(* ===== verification/Adapters.v ===== *)
(** * Provider adapters ([internal/providers])

    The translation between the gateway's chat requests and answers and those of the
    native providers: Anthropic ([anthropic/anthropic.go]), Gemini
    ([gemini/gemini.go], [gemini_stream.go]), both also on Vertex
    ([vertex/vertex.go]), Cohere ([cohere/cohere.go]), Bedrock ([bedrock/]) and the
    compatible providers ([openai/openai.go] and its wrappers). Network and AWS calls,
    the text of JSON and of floats, clocks, and the reader of a pipe, which may go at
    any time, are given from outside. *)

From S2P Require Import Prelude GoStrings Providers Guardrails Money Json StreamProxy Registry Wire.

(** ** Requests, answers and streams *)

(** A request to a provider and what comes back: no answer, or a status with the value
    its body decodes to and the text of its error. *)
Record provider_request := mkProviderRequest { pq_url : string; pq_headers : list (string * string); pq_body : raw }.
Inductive http_reply := NetError | Reply (status : Z) (body : option raw) (message : string).

Inductive adapter_error := ENet | EUpstream (e : UpstreamError) | EDecode | EUsage.

(** Every adapter looks at the status before the body. *)
Definition read_reply (provider : string) (r : http_reply) : result adapter_error raw :=
  match r with
  | NetError => Err ENet
  | Reply status body message =>
      if 400 <=? status then Err (EUpstream (mkUpstreamError provider status message))
      else match body with Some v => Ok v | None => Err EDecode end
  end.

Definition jmap (l : list (string * raw)) : raw := marshal_map (to_map (map (fun kv => (txt kv.1, kv.2)) l)).
Definition jtext (s : string) : raw := JStr (txt s).

(** A frame of an outgoing event stream, and the end of the pipe: closed, or closed with
    an error. *)
Inductive frame := Chunk (v : raw) | DoneFrame.
Inductive pipe_end := Clean | Broken.

(** A write whose failure ends the stream, and one whose failure is ignored. *)
Inductive write_op := Must (f : frame) | May (f : frame).
Definition frame_of (w : write_op) : frame := match w with Must f | May f => f end.

Section Pipe.
(** Whether the reader is still there for the n-th frame. *)
Variable alive : nat -> bool.

Fixpoint pipe_writes (ws : list write_op) (out : list frame) : list frame * bool :=
  match ws with
  | [] => (out, true)
  | w :: ws =>
      if alive (length out) then pipe_writes ws (out ++ [frame_of w])
      else match w with Must _ => (out, false) | May _ => pipe_writes ws out end
  end.

(** The loop of a translator: what one item of the upstream's stream writes, the state
    after it and whether the stream ends there; and what is written after the last. *)
Context {L S : Type} (step : nat -> L -> S -> list write_op * S * option pipe_end) (finish : nat -> S -> list write_op * pipe_end).

Fixpoint translate (items : list L) (s : S) (out : list frame) : list frame * pipe_end :=
  match items with
  | [] =>
      let '(ws, e) := finish (length out) s in
      let '(out, ok) := pipe_writes ws out in (out, if ok then e else Broken)
  | l :: items =>
      let '(ws, s, stop) := step (length out) l s in
      let '(out, ok) := pipe_writes ws out in
      if ok then match stop with Some e => (out, e) | None => translate items s out end else (out, Broken)
  end.
End Pipe.

(** [Usage] in a chunk; [choices] are values. *)
Definition chunk (id model : text) (created : Z) (choices : list raw) (usage : option Usage) : raw :=
  jmap ([("id", JStr id); ("object", jtext "chat.completion.chunk"); ("created", jint created); ("model", JStr model); ("choices", JArr choices)] ++
    match usage with Some u => [("usage", encode_usage u)] | None => [] end).

(** The payload of a line of an event stream. *)
Definition data_of (trim : bool) (line : string) : option string :=
  let line := if trim then TrimSpace line else line in
  if HasPrefix line "data:" then Some (TrimSpace (TrimPrefix line "data:")) else None.

Definition assistant_answer (id model content finish : text) (usage : Usage) : ChatResponse :=
  mkChatResponse id model (Some [mkChatChoice 0 (Wire.mkChatMessage (txt "assistant") content None [] []) finish]) usage None.

Section Requests.
Context {F : Type} (float_lit : F -> string).

Definition limit_of (r : @ChatRequest F) : option Z := match rq_MaxCompletionTokens r with Some n => Some n | None => rq_MaxTokens r end.
Definition msgs_of (r : @ChatRequest F) : list Wire.ChatMessage := default [] (rq_Messages r).
Definition is_role (s : string) (m : Wire.ChatMessage) : bool := bool_decide (cm_Role m = txt s).
Definition jfloat (f : F) : raw := JNum (float_lit f).
Definition omit_none {A} (k : string) (enc : A -> raw) (p : option A) : list (text * raw) := omit_nil k enc p.

(** ** Anthropic *)

Record anthropicMessage := mkAnthropicMessage { an_Role : text; an_Content : text }.
Record anthropicRequest := mkAnthropicRequest {
  ar_Model : text;
  ar_System : text;
  ar_MaxTokens : Z;
  ar_Messages : list anthropicMessage;
  ar_Temperature : option F;
  ar_Stream : bool;
}.

Fixpoint join (sep : text) (l : list text) : text := match l with [] => [] | [s] => s | s :: l => s ++ sep ++ join sep l end.

(** The loop over the messages. *)
Fixpoint anthropic_messages (msgs : list Wire.ChatMessage) (system : list text) (out : list anthropicMessage) : list text * list anthropicMessage :=
  match msgs with
  | [] => (system, out)
  | m :: msgs =>
      if is_role "system" m then anthropic_messages msgs (if forallb is_space (cm_Content m) then system else system ++ [cm_Content m]) out
      else if is_role "assistant" m then anthropic_messages msgs system (out ++ [mkAnthropicMessage (txt "assistant") (cm_Content m)])
      else anthropic_messages msgs system (out ++ [mkAnthropicMessage (txt "user") (cm_Content m)])
  end.

Definition buildAnthropicRequest (r : @ChatRequest F) (stream : bool) : anthropicRequest :=
  let '(systemParts, messages) := anthropic_messages (msgs_of r) [] [] in
  mkAnthropicRequest (rq_Model r) (join [10; 10] systemParts)
    (match limit_of r with Some n => if 0 <? n then n else 1024 | None => 1024 end) messages (rq_Temperature r) stream.

Definition omit_empty_text (k : string) (s : text) : list (text * raw) := if bool_decide (s = []) then [] else [(txt k, JStr s)].
Definition omit_false_bool (k : string) (b : bool) : list (text * raw) := if b then [(txt k, JBool true)] else [].

Definition message_json (role content : text) : raw := JObj [(txt "role", JStr role); (txt "content", JStr content)].

Definition anthropic_json (r : anthropicRequest) : raw :=
  JObj ([(txt "model", JStr (ar_Model r))] ++ omit_empty_text "system" (ar_System r) ++ [(txt "max_tokens", jint (ar_MaxTokens r));
    (txt "messages", JArr (map (fun m => message_json (an_Role m) (an_Content m)) (ar_Messages r)))] ++
    omit_none "temperature" jfloat (ar_Temperature r) ++ omit_false_bool "stream" (ar_Stream r)).

(** [New] and [postMessage] *)
Definition base_url (base fallback : string) : string := TrimRight (if (base =? "")%string then fallback else base) (Ascii.ascii_of_nat 47).

Definition postMessage (apiKey base : string) (r : @ChatRequest F) (stream : bool) : provider_request :=
  mkProviderRequest (base_url base "https://api.anthropic.com/v1" +:+ "/messages")
    ([("x-api-key", apiKey); ("anthropic-version", "2023-06-01"); ("content-type", "application/json")] ++
     if stream then [("accept", "text/event-stream")] else [])
    (anthropic_json (buildAnthropicRequest r stream)).

(** *** Answers *)

Definition set_anthropic_usage (k : text) (v : raw) (u : AnthropicUsage) : option AnthropicUsage :=
  let '(mkAnthropicUsage i o cc cr ca) := u in
  if is_key "input_tokens" k then n ← into_int v i; Some (mkAnthropicUsage n o cc cr ca)
  else if is_key "output_tokens" k then n ← into_int v o; Some (mkAnthropicUsage i n cc cr ca)
  else if is_key "cache_creation_input_tokens" k then n ← into_int v cc; Some (mkAnthropicUsage i o n cr ca)
  else if is_key "cache_read_input_tokens" k then n ← into_int v cr; Some (mkAnthropicUsage i o cc n ca)
  else if is_key "cache_creation" k then d ← cache_details v ca; Some (mkAnthropicUsage i o cc cr d)
  else Some u.
Definition no_anthropic_usage : AnthropicUsage := mkAnthropicUsage 0 0 0 0 None.
Definition into_anthropic_usage : raw -> AnthropicUsage -> option AnthropicUsage := into_struct set_anthropic_usage.

Definition set_block (k : text) (v : raw) (b : text * text) : option (text * text) :=
  if is_key "type" k then s ← into_string v b.1; Some (s, b.2) else if is_key "text" k then s ← into_string v b.2; Some (b.1, s) else Some b.

Record anthropicResponse := mkAnthropicResponse {
  as_ID : text;
  as_Model : text;
  as_Content : option (list (text * text));
  as_StopReason : text;
  as_Usage : AnthropicUsage;
}.

Definition set_anthropic_response (k : text) (v : raw) (r : anthropicResponse) : option anthropicResponse :=
  let '(mkAnthropicResponse id model content stop usage) := r in
  if is_key "id" k then s ← into_string v id; Some (mkAnthropicResponse s model content stop usage)
  else if is_key "model" k then s ← into_string v model; Some (mkAnthropicResponse id s content stop usage)
  else if is_key "content" k then l ← into_slice (into_struct set_block) ([], []) v content; Some (mkAnthropicResponse id model l stop usage)
  else if is_key "stop_reason" k then s ← into_string v stop; Some (mkAnthropicResponse id model content s usage)
  else if is_key "usage" k then u ← into_anthropic_usage v usage; Some (mkAnthropicResponse id model content stop u)
  else Some r.

Definition joinTextBlocks (blocks : list (text * text)) : text :=
  concat (map snd (List.filter (fun b => bool_decide (b.1 = txt "text") && negb (bool_decide (b.2 = []))) blocks)).

Definition mapStopReason (reason : text) : text :=
  if bool_decide (reason = txt "end_turn") || bool_decide (reason = txt "stop_sequence") then txt "stop"
  else if bool_decide (reason = txt "max_tokens") then txt "length" else [].

Definition anthropic_ChatCompletion (reply : http_reply) : result adapter_error ChatResponse :=
  v ← read_reply "anthropic" reply;
  match into_struct set_anthropic_response v (mkAnthropicResponse [] [] None [] no_anthropic_usage) with
  | None => Err EDecode
  | Some out =>
      match AnthropicUsage_Canonical (as_Usage out) with
      | Err _ => Err EUsage
      | Ok usage => Ok (assistant_answer (as_ID out) (as_Model out) (joinTextBlocks (default [] (as_Content out))) (mapStopReason (as_StopReason out)) usage)
      end
  end.

(** *** Streams ([TranslateStream], shared with Anthropic on Vertex) *)

Record stream_event := mkStreamEvent {
  sv_Type : text;
  sv_ID : text;
  sv_Model : text;
  sv_MessageUsage : AnthropicUsage;
  sv_DeltaType : text;
  sv_DeltaText : text;
  sv_DeltaStop : text;
  sv_Usage : AnthropicUsage;
}.

Definition no_event : stream_event := mkStreamEvent [] [] [] no_anthropic_usage [] [] [] no_anthropic_usage.

Definition set_stream_message (k : text) (v : raw) (e : stream_event) : option stream_event :=
  let '(mkStreamEvent t id model mu dt dx ds u) := e in
  if is_key "id" k then s ← into_string v id; Some (mkStreamEvent t s model mu dt dx ds u)
  else if is_key "model" k then s ← into_string v model; Some (mkStreamEvent t id s mu dt dx ds u)
  else if is_key "usage" k then x ← into_anthropic_usage v mu; Some (mkStreamEvent t id model x dt dx ds u)
  else Some e.
Definition set_stream_delta (k : text) (v : raw) (e : stream_event) : option stream_event :=
  let '(mkStreamEvent t id model mu dt dx ds u) := e in
  if is_key "type" k then s ← into_string v dt; Some (mkStreamEvent t id model mu s dx ds u)
  else if is_key "text" k then s ← into_string v dx; Some (mkStreamEvent t id model mu dt s ds u)
  else if is_key "stop_reason" k then s ← into_string v ds; Some (mkStreamEvent t id model mu dt dx s u)
  else Some e.
Definition set_stream_event (k : text) (v : raw) (e : stream_event) : option stream_event :=
  let '(mkStreamEvent t id model mu dt dx ds u) := e in
  if is_key "type" k then s ← into_string v t; Some (mkStreamEvent s id model mu dt dx ds u)
  else if is_key "message" k then into_struct set_stream_message v e
  else if is_key "delta" k then into_struct set_stream_delta v e
  else if is_key "usage" k then x ← into_anthropic_usage v u; Some (mkStreamEvent t id model mu dt dx ds x)
  else Some e.

Record anthropic_state := mkAnthropicState { at_id : text; at_model : text; at_usage : Usage; at_sent : bool }.

(** The chunks of the translator; [created] is 0. *)
Definition text_choice (delta : list (string * raw)) (finish : raw) : raw := jmap [("index", jint 0); ("delta", jmap delta); ("finish_reason", finish)].
Definition text_chunk (s : anthropic_state) (t : text) : raw :=
  chunk (at_id s) (at_model s) 0 [text_choice (("content", JStr t) :: if at_sent s then [] else [("role", jtext "assistant")]) JNull] None.
Definition finish_chunk (s : anthropic_state) (reason : text) : raw := chunk (at_id s) (at_model s) 0 [text_choice [] (JStr reason)] None.

(** An event: what is written, the new state, and whether the stream ends with it. *)
Definition anthropic_event (e : stream_event) (s : anthropic_state) : list write_op * anthropic_state * option pipe_end :=
  let kind t := bool_decide (sv_Type e = txt t) in
  if kind "message_start" then
    match AnthropicUsage_Canonical (sv_MessageUsage e) with
    | Err _ => ([], mkAnthropicState (sv_ID e) (sv_Model e) no_usage (at_sent s), Some Broken)
    | Ok u => ([], mkAnthropicState (sv_ID e) (sv_Model e) u (at_sent s), None)
    end
  else if kind "content_block_delta" then
    if negb (bool_decide (sv_DeltaType e = txt "text_delta")) || bool_decide (sv_DeltaText e = []) then ([], s, None)
    else ([Must (Chunk (text_chunk s (sv_DeltaText e)))], mkAnthropicState (at_id s) (at_model s) (at_usage s) true, None)
  else if kind "message_delta" then
    match (if au_OutputTokens (sv_Usage e) =? 0 then Ok (at_usage s) else SetCompletionTokens (at_usage s) (au_OutputTokens (sv_Usage e))) with
    | Err _ => ([], s, Some Broken)
    | Ok u =>
        let s := mkAnthropicState (at_id s) (at_model s) u (at_sent s) in
        let mapped := mapStopReason (sv_DeltaStop e) in
        (if bool_decide (mapped = []) then [] else [Must (Chunk (finish_chunk s mapped))], s, None)
    end
  else if kind "message_stop" then
    let u := at_usage s in
    let u := if (TotalTokens u =? 0) && (0 <? PromptTokens u)
             then mkUsage (PromptTokens u) (CompletionTokens u) (PromptTokens u +w CompletionTokens u) (u_PromptTokensDetails u) (u_CompletionTokensDetails u)
                    (CacheCreationInputTokens u) (CacheReadInputTokens u) (CacheCreation u)
             else u in
    ([Must (Chunk (chunk (at_id s) (at_model s) 0 [] (Some u))); Must DoneFrame], s, Some Clean)
  else if kind "error" then ([], s, Some Broken)
  else ([], s, None).

Section Streams.
Variable alive : nat -> bool.
Variable parse : string -> option raw.

(** The event of a line: a line that is no event, or does not decode. *)
Inductive line_event (E : Type) := NoEvent | BadEvent | Event (e : E).
#[global] Arguments NoEvent {E}.
#[global] Arguments BadEvent {E}.
#[global] Arguments Event {E} e.

Definition anthropic_line (line : string) : line_event stream_event :=
  match data_of false line with
  | None => NoEvent
  | Some data =>
      if (data =? "")%string || (data =? "[DONE]")%string then NoEvent
      else match parse data ≫= (fun v => into_struct set_stream_event v no_event) with Some e => Event e | None => BadEvent end
  end.

Definition anthropic_step (_ : nat) (line : string) (s : anthropic_state) : list write_op * anthropic_state * option pipe_end :=
  match anthropic_line line with
  | NoEvent => ([], s, None)
  | BadEvent => ([], s, Some Broken)
  | Event e => anthropic_event e s
  end.

(** However the scanner ends, the end of the body is an unexpected one. *)
Definition TranslateStream (lines : list string) : list frame * pipe_end :=
  translate alive anthropic_step (fun _ _ => ([], Broken)) lines (mkAnthropicState [] [] no_usage false) [].
End Streams.

(** ** Gemini, direct and on Vertex *)

Record geminiRequest := mkGeminiRequest {
  gr_Contents : list (text * text);
  gr_System : option (list text);
  gr_Config : option (option F * option Z);
}.

(** The loop of [buildGeminiRequest] and [buildVertexGeminiRequest]. *)
Fixpoint gemini_messages (msgs : list Wire.ChatMessage) (system : option (list text)) (out : list (text * text)) : option (list text) * list (text * text) :=
  match msgs with
  | [] => (system, out)
  | m :: msgs =>
      if is_role "system" m then gemini_messages msgs (Some (default [] system ++ [cm_Content m])) out
      else gemini_messages msgs system (out ++ [(if is_role "assistant" m then txt "model" else txt "user", cm_Content m)])
  end.

Definition buildGeminiRequest (r : @ChatRequest F) : geminiRequest :=
  let '(system, contents) := gemini_messages (msgs_of r) None [] in
  mkGeminiRequest contents system
    (if bool_decide (is_Some (rq_Temperature r)) || bool_decide (is_Some (limit_of r)) then Some (rq_Temperature r, limit_of r) else None).

Definition parts_json (ts : list text) : raw := JArr (map (fun t => JObj [(txt "text", JStr t)]) ts).
Definition gemini_json (r : geminiRequest) : raw :=
  JObj ([(txt "contents", match gr_Contents r with
                          | [] => JNull
                          | l => JArr (map (fun c => JObj (omit_empty_text "role" c.1 ++ [(txt "parts", parts_json [c.2])])) l)
                          end)] ++
    omit_none "systemInstruction" (fun ts => JObj [(txt "parts", parts_json ts)]) (gr_System r) ++
    omit_none "generationConfig" (fun c => JObj (omit_none "temperature" jfloat c.1 ++ omit_none "maxOutputTokens" jint c.2)) (gr_Config r)).

(** [do]: the key goes into the query. *)
Definition gemini_do (apiKey base path : string) (body : raw) : provider_request :=
  let url := base_url base "https://generativelanguage.googleapis.com/v1beta" +:+ path in
  mkProviderRequest (if Contains url "?" then url +:+ "&key=" +:+ apiKey else url +:+ "?key=" +:+ apiKey) [("Content-Type", "application/json")] body.

Definition gemini_path (model : string) (stream : bool) : string :=
  "/models/" +:+ model +:+ (if stream then ":streamGenerateContent?alt=sse" else ":generateContent").

(** *** Answers *)

Definition set_gemini_usage (k : text) (v : raw) (u : GeminiUsage) : option GeminiUsage :=
  let '(mkGeminiUsage p c t cc th) := u in
  if is_key "promptTokenCount" k then n ← into_int v p; Some (mkGeminiUsage n c t cc th)
  else if is_key "candidatesTokenCount" k then n ← into_int v c; Some (mkGeminiUsage p n t cc th)
  else if is_key "totalTokenCount" k then n ← into_int v t; Some (mkGeminiUsage p c n cc th)
  else if is_key "cachedContentTokenCount" k then n ← into_int v cc; Some (mkGeminiUsage p c t n th)
  else if is_key "thoughtsTokenCount" k then n ← into_int v th; Some (mkGeminiUsage p c t cc n)
  else Some u.
Definition no_gemini_usage : GeminiUsage := mkGeminiUsage 0 0 0 0 0.
Definition into_gemini_usage : raw -> GeminiUsage -> option GeminiUsage := into_struct set_gemini_usage.

(** A part with its thought mark, and a candidate. *)
Definition set_part (k : text) (v : raw) (p : text * bool) : option (text * bool) :=
  if is_key "text" k then s ← into_string v p.1; Some (s, p.2) else if is_key "thought" k then b ← into_bool v p.2; Some (p.1, b) else Some p.
Record candidate := mkCandidate { cd_Index : Z; cd_Parts : option (list (text * bool)); cd_FinishReason : text }.
Definition set_content (k : text) (v : raw) (c : candidate) : option candidate :=
  if is_key "parts" k then l ← into_slice (into_struct set_part) ([], false) v (cd_Parts c); Some (mkCandidate (cd_Index c) l (cd_FinishReason c)) else Some c.
Definition set_candidate (k : text) (v : raw) (c : candidate) : option candidate :=
  if is_key "index" k then n ← into_int v (cd_Index c); Some (mkCandidate n (cd_Parts c) (cd_FinishReason c))
  else if is_key "content" k then into_struct set_content v c
  else if is_key "finishReason" k then s ← into_string v (cd_FinishReason c); Some (mkCandidate (cd_Index c) (cd_Parts c) s)
  else Some c.
Definition no_candidate : candidate := mkCandidate 0 None [].

(** The answer's parts have no field for the thought mark, and its candidates none for
    the index: a member of that name is not looked at. Vertex has one for the role. *)
Definition set_plain_part (k : text) (v : raw) (p : text) : option text := if is_key "text" k then into_string v p else Some p.
Definition set_plain_content (role : bool) (k : text) (v : raw) (c : option (list text) * text) : option (option (list text) * text) :=
  if is_key "parts" k then l ← into_slice (into_struct set_plain_part) [] v c.1; Some (l, c.2)
  else if role && is_key "role" k then _ ← into_string v []; Some c else Some c.
Definition set_plain_candidate (role : bool) (k : text) (v : raw) (c : option (list text) * text) : option (option (list text) * text) :=
  if is_key "content" k then into_struct (set_plain_content role) v c
  else if is_key "finishReason" k then s ← into_string v c.2; Some (c.1, s) else Some c.
Definition set_gemini_response (role : bool) (k : text) (v : raw) (r : option (list (option (list text) * text)) * GeminiUsage) :
    option (option (list (option (list text) * text)) * GeminiUsage) :=
  if is_key "candidates" k then l ← into_slice (into_struct (set_plain_candidate role)) (None, []) v r.1; Some (l, r.2)
  else if is_key "usageMetadata" k then u ← into_gemini_usage v r.2; Some (r.1, u)
  else Some r.

(** [ChatCompletion] of Gemini and [geminiChat] of Vertex, which differ in the name and the role. *)
Definition gemini_ChatCompletion (provider : string) (model : text) (reply : http_reply) : result adapter_error ChatResponse :=
  v ← read_reply provider reply;
  match into_struct (set_gemini_response (provider =? "vertex")%string) v (None, no_gemini_usage) with
  | None => Err EDecode
  | Some (cands, usage) =>
      match GeminiUsage_Canonical usage with
      | Err _ => Err EUsage
      | Ok u =>
          let choices := imap (fun i c => mkChatChoice (Z.of_nat i) (Wire.mkChatMessage (txt "assistant") (concat (default [] c.1)) None [] []) c.2) (default [] cands) in
          Ok (mkChatResponse (txt provider ++ 45 :: model) model (if bool_decide (choices = []) then None else Some choices) u None)
      end
  end.

(** *** Streams ([TranslateGeminiStream]) *)

Record gemini_event := mkGeminiEvent { ge_Candidates : option (list candidate); ge_Usage : option GeminiUsage; ge_Error : option raw }.
Definition set_gemini_event (k : text) (v : raw) (e : gemini_event) : option gemini_event :=
  if is_key "candidates" k then l ← into_slice (into_struct set_candidate) no_candidate v (ge_Candidates e); Some (mkGeminiEvent l (ge_Usage e) (ge_Error e))
  else if is_key "usageMetadata" k then u ← into_ptr into_gemini_usage no_gemini_usage v (ge_Usage e); Some (mkGeminiEvent (ge_Candidates e) u (ge_Error e))
  else if is_key "error" k then Some (mkGeminiEvent (ge_Candidates e) (ge_Usage e) (Some v))
  else Some e.

Definition spoken (c : candidate) : text := concat (map fst (List.filter (fun p => negb p.2) (default [] (cd_Parts c)))).
Definition gemini_finish (reason : text) : text :=
  if bool_decide (reason = txt "MAX_TOKENS") then txt "length" else if bool_decide (reason = txt "STOP") then txt "stop" else txt "content_filter".
Definition candidate_choice (c : candidate) : raw :=
  jmap ([("index", jint (cd_Index c)); ("delta", jmap [("content", JStr (spoken c))])] ++
    if bool_decide (cd_FinishReason c = []) then [] else [("finish_reason", JStr (gemini_finish (cd_FinishReason c)))]).

Section Gemini_streams.
Variable alive : nat -> bool.
Variable parse : string -> option raw.
(** The identifier of the stream, the model and the clock of the n-th chunk. *)
Variable id model : text.
Variable created : nat -> Z.

Definition candidate_writes (n : nat) (cs : list candidate) : list write_op :=
  imap (fun i c => Must (Chunk (chunk id model (created (n + i)%nat) [candidate_choice c] None))) cs.

Definition gemini_line (line : string) : line_event gemini_event :=
  match data_of true line with
  | None => NoEvent
  | Some payload =>
      if (payload =? "")%string then NoEvent
      else match parse payload ≫= (fun v => into_struct set_gemini_event v (mkGeminiEvent None None None)) with Some e => Event e | None => BadEvent end
  end.

Definition reports_error (e : gemini_event) : bool := match ge_Error e with Some JNull | None => false | Some _ => true end.
Definition finishes (e : gemini_event) : bool := existsb (fun c => negb (bool_decide (cd_FinishReason c = []))) (default [] (ge_Candidates e)).

(** The state is whether a candidate finished, and the last usage. *)
Definition gemini_step (n : nat) (line : string) (s : bool * option Usage) : list write_op * (bool * option Usage) * option pipe_end :=
  match gemini_line line with
  | NoEvent => ([], s, None)
  | BadEvent => ([], s, Some Broken)
  | Event e =>
      if reports_error e then ([], s, Some Broken)
      else match (match ge_Usage e with Some g => u ← GeminiUsage_Canonical g; Ok (Some u) | None => Ok s.2 end) with
      | Err _ => ([], s, Some Broken)
      | Ok usage => (candidate_writes n (default [] (ge_Candidates e)), (s.1 || finishes e, usage), None)
      end
  end.

Definition gemini_finish_stream (scan_ok : bool) (n : nat) (s : bool * option Usage) : list write_op * pipe_end :=
  if negb scan_ok || negb s.1 then ([], Broken)
  else ((match s.2 with Some u => [Must (Chunk (chunk id model (created n) [] (Some u)))] | None => [] end) ++ [May DoneFrame], Clean).

Definition TranslateGeminiStream (scan_ok : bool) (lines : list string) : list frame * pipe_end :=
  translate alive gemini_step (gemini_finish_stream scan_ok) lines (false, None) [].
End Gemini_streams.

(** ** Vertex *)

Definition isAnthropic (model : text) : bool := bool_decide (take 7 model = txt "claude-").

Definition endpoint (region project : string) : string :=
  "https://" +:+ region +:+ "-aiplatform.googleapis.com/v1/projects/" +:+ project +:+ "/locations/" +:+ region.

Definition vertex_post (url : string) (body : raw) : provider_request := mkProviderRequest url [("Content-Type", "application/json")] body.

(** The loop of [buildAnthropicVertexRequest]; the roles stay as they are. *)
Fixpoint vertex_messages (msgs : list Wire.ChatMessage) (system : text) (out : list anthropicMessage) : text * list anthropicMessage :=
  match msgs with
  | [] => (system, out)
  | m :: msgs =>
      if is_role "system" m then vertex_messages msgs ((if bool_decide (system = []) then system else system ++ [10; 10]) ++ cm_Content m) out
      else vertex_messages msgs system (out ++ [mkAnthropicMessage (cm_Role m) (cm_Content m)])
  end.

Definition buildAnthropicVertexRequest (r : @ChatRequest F) (stream : bool) : anthropicRequest :=
  let '(system, messages) := vertex_messages (msgs_of r) [] [] in
  mkAnthropicRequest (rq_Model r) system (default 1024 (limit_of r)) messages (rq_Temperature r) stream.

(** The model is in the URL, and no message is a nil slice. *)
Definition anthropic_vertex_json (r : anthropicRequest) : raw :=
  JObj ([(txt "anthropic_version", jtext "vertex-2023-10-16");
    (txt "messages", match ar_Messages r with [] => JNull | l => JArr (map (fun m => message_json (an_Role m) (an_Content m)) l) end)] ++
    omit_empty_text "system" (ar_System r) ++ [(txt "max_tokens", jint (ar_MaxTokens r))] ++
    omit_none "temperature" jfloat (ar_Temperature r) ++ omit_false_bool "stream" (ar_Stream r)).

(** [ChatCompletion] and [ChatCompletionStream] *)
Definition vertex_request (model_name region project : string) (r : @ChatRequest F) (stream : bool) : provider_request :=
  let base := endpoint region project +:+ "/publishers/" in
  if isAnthropic (rq_Model r) then
    vertex_post (base +:+ "anthropic/models/" +:+ model_name +:+ (if stream then ":streamRawPredict" else ":rawPredict"))
      (anthropic_vertex_json (buildAnthropicVertexRequest r stream))
  else
    vertex_post (base +:+ "google/models/" +:+ model_name +:+ (if stream then ":streamGenerateContent?alt=sse" else ":generateContent"))
      (gemini_json (buildGeminiRequest r)).

(** The answer has no field for the model. *)
Definition set_vertex_response (k : text) (v : raw) (r : anthropicResponse) : option anthropicResponse :=
  if is_key "model" k then Some r else set_anthropic_response k v r.

Definition anthropicChat (model : text) (reply : http_reply) : result adapter_error ChatResponse :=
  v ← read_reply "vertex" reply;
  match into_struct set_vertex_response v (mkAnthropicResponse [] [] None [] no_anthropic_usage) with
  | None => Err EDecode
  | Some out =>
      match AnthropicUsage_Canonical (as_Usage out) with
      | Err _ => Err EUsage
      | Ok usage => Ok (assistant_answer (as_ID out) model (concat (map snd (List.filter (fun b => bool_decide (b.1 = txt "text")) (default [] (as_Content out)))))
                          (as_StopReason out) usage)
      end
  end.

Definition vertex_ChatCompletion (model : text) (reply : http_reply) : result adapter_error ChatResponse :=
  if isAnthropic model then anthropicChat model reply else gemini_ChatCompletion "vertex" model reply.

(** ** Cohere *)

Definition toCohereMessages (msgs : list Wire.ChatMessage) : list (text * text) := map (fun m => (cm_Role m, cm_Content m)) msgs.

Definition cohere_json (r : @ChatRequest F) (stream : bool) : raw :=
  JObj ([(txt "model", JStr (rq_Model r)); (txt "messages", JArr (map (fun m => message_json m.1 m.2) (toCohereMessages (msgs_of r))))] ++
    omit_false_bool "stream" stream ++ omit_none "temperature" jfloat (rq_Temperature r) ++ omit_none "max_tokens" jint (limit_of r)).

Definition cohere_do (apiKey base path : string) (body : raw) : provider_request :=
  mkProviderRequest (base_url base "https://api.cohere.com" +:+ path)
    ((if (apiKey =? "")%string then [] else [("Authorization", "Bearer " +:+ apiKey)]) ++ [("Content-Type", "application/json"); ("Accept", "application/json")]) body.

Definition cohere_chat (apiKey base : string) (r : @ChatRequest F) (stream : bool) : provider_request := cohere_do apiKey base "/v2/chat" (cohere_json r stream).

Record cohereChatResponse := mkCohereChatResponse {
  co_ID : text;
  co_Content : option (list (text * text));
  co_FinishReason : text;
  co_InputTokens : Z;
  co_OutputTokens : Z;
}.

Definition set_cohere_message (k : text) (v : raw) (r : cohereChatResponse) : option cohereChatResponse :=
  let '(mkCohereChatResponse id content finish i o) := r in
  if is_key "content" k then l ← into_slice (into_struct set_block) ([], []) v content; Some (mkCohereChatResponse id l finish i o) else Some r.
Definition set_cohere_tokens (k : text) (v : raw) (r : cohereChatResponse) : option cohereChatResponse :=
  let '(mkCohereChatResponse id content finish i o) := r in
  if is_key "input_tokens" k then n ← into_int v i; Some (mkCohereChatResponse id content finish n o)
  else if is_key "output_tokens" k then n ← into_int v o; Some (mkCohereChatResponse id content finish i n)
  else Some r.
Definition set_cohere_usage (k : text) (v : raw) (r : cohereChatResponse) : option cohereChatResponse :=
  if is_key "tokens" k then into_struct set_cohere_tokens v r else Some r.
Definition set_cohere_response (k : text) (v : raw) (r : cohereChatResponse) : option cohereChatResponse :=
  let '(mkCohereChatResponse id content finish i o) := r in
  if is_key "id" k then s ← into_string v id; Some (mkCohereChatResponse s content finish i o)
  else if is_key "message" k then into_struct set_cohere_message v r
  else if is_key "finish_reason" k then s ← into_string v finish; Some (mkCohereChatResponse id content s i o)
  else if is_key "usage" k then into_struct set_cohere_usage v r
  else Some r.

Definition joinContent (parts : list (text * text)) : text :=
  concat (map snd (List.filter (fun p => bool_decide (p.1 = txt "text") || bool_decide (p.1 = [])) parts)).

Definition cohere_ChatCompletion (model : text) (reply : http_reply) : result adapter_error ChatResponse :=
  v ← read_reply "cohere" reply;
  match into_struct set_cohere_response v (mkCohereChatResponse [] None [] 0 0) with
  | None => Err EDecode
  | Some cr =>
      Ok (assistant_answer (co_ID cr) model (joinContent (default [] (co_Content cr))) (co_FinishReason cr)
            (mkUsage (co_InputTokens cr) (co_OutputTokens cr) (co_InputTokens cr +w co_OutputTokens cr) None None 0 0 None))
  end.

(** *** Streams *)

(** [openAIChunk] of Cohere and [writeChunk] of Bedrock build the same chunk. *)
Definition openAIChunk (id model : text) (created : Z) (deltaText finishReason : text) : raw :=
  chunk id model created
    [jmap ([("index", jint 0);
            ("delta", if bool_decide (deltaText = []) then jmap [] else jmap [("role", jtext "assistant"); ("content", JStr deltaText)])] ++
           if bool_decide (finishReason = []) then [] else [("finish_reason", JStr finishReason)])] None.

Record cohere_event := mkCohereEvent { ce_Type : text; ce_Text : text; ce_FinishReason : text }.
Definition set_cohere_content (k : text) (v : raw) (e : cohere_event) : option cohere_event :=
  if is_key "text" k then s ← into_string v (ce_Text e); Some (mkCohereEvent (ce_Type e) s (ce_FinishReason e)) else Some e.
Definition set_cohere_delta_message (k : text) (v : raw) (e : cohere_event) : option cohere_event :=
  if is_key "content" k then into_struct set_cohere_content v e else Some e.
Definition set_cohere_delta (k : text) (v : raw) (e : cohere_event) : option cohere_event :=
  if is_key "message" k then into_struct set_cohere_delta_message v e
  else if is_key "finish_reason" k then s ← into_string v (ce_FinishReason e); Some (mkCohereEvent (ce_Type e) (ce_Text e) s)
  else Some e.
Definition set_cohere_event (k : text) (v : raw) (e : cohere_event) : option cohere_event :=
  if is_key "type" k then s ← into_string v (ce_Type e); Some (mkCohereEvent s (ce_Text e) (ce_FinishReason e))
  else if is_key "delta" k then into_struct set_cohere_delta v e
  else Some e.

Section Cohere_streams.
Variable alive : nat -> bool.
Variable parse : string -> option raw.
Variable id model : text.
Variable created : nat -> Z.

Definition cohere_line (line : string) : line_event cohere_event :=
  match data_of true line with
  | None => NoEvent
  | Some payload =>
      if (payload =? "")%string || (payload =? "[DONE]")%string then NoEvent
      else match parse payload ≫= (fun v => into_struct set_cohere_event v (mkCohereEvent [] [] [])) with Some e => Event e | None => BadEvent end
  end.

(** An event that does not decode is skipped, and no write is looked at. *)
Definition cohere_step (n : nat) (line : string) (_ : unit) : list write_op * unit * option pipe_end :=
  match cohere_line line with
  | Event e =>
      ((if bool_decide (ce_Type e = txt "content-delta") then [May (Chunk (openAIChunk id model (created n) (ce_Text e) []))]
        else if bool_decide (ce_Type e = txt "message-end") then [May (Chunk (openAIChunk id model (created n) [] (ce_FinishReason e)))]
        else []), tt, None)
  | _ => ([], tt, None)
  end.

(** [translateStream] of Cohere; how the scanner ended is not asked. *)
Definition cohere_translateStream (lines : list string) : list frame * pipe_end :=
  translate alive cohere_step (fun _ _ => ([May DoneFrame], Clean)) lines tt [].
End Cohere_streams.

(** ** Bedrock *)

(** What the SDK hands over: content blocks, usage counters that may be missing, and
    the events of a stream. *)
Inductive CacheTTL := CacheTTLFiveMinutes | CacheTTLOneHour | CacheTTLOther (name : string).
#[global] Instance CacheTTL_eq_dec : EqDecision CacheTTL.
Proof. solve_decision. Defined.
Inductive content_block := TextBlock (t : text) | OtherBlock.
Record TokenUsage := mkTokenUsage {
  tu_InputTokens : option Z;
  tu_OutputTokens : option Z;
  tu_CacheWriteInputTokens : option Z;
  tu_CacheReadInputTokens : option Z;
  tu_CacheDetails : list (CacheTTL * option Z);
}.
Record ConverseOutput := mkConverseOutput { cv_Message : option (list content_block); cv_StopReason : text; cv_Usage : option TokenUsage }.
Inductive converse_event := ContentBlockDelta (t : option text) | MessageStop (reason : text) | Metadata (u : option TokenUsage) | OtherEvent.

Definition int32 (z : Z) : Z := (z + 2 ^ 31) mod 2 ^ 32 - 2 ^ 31.

Record ConverseInput (G : Type) := mkConverseInput {
  ci_ModelId : text;
  ci_System : list text;
  ci_Messages : list (text * text);
  ci_InferenceConfig : option (option G * option Z);
}.
#[global] Arguments mkConverseInput {G} ci_ModelId ci_System ci_Messages ci_InferenceConfig.
#[global] Arguments ci_InferenceConfig {G} c.

Fixpoint splitSystem (msgs : list Wire.ChatMessage) (system : list text) (out : list (text * text)) : list text * list (text * text) :=
  match msgs with
  | [] => (system, out)
  | m :: msgs =>
      if is_role "system" m then splitSystem msgs (system ++ [cm_Content m]) out
      else splitSystem msgs system (out ++ [(if is_role "assistant" m then txt "assistant" else txt "user", cm_Content m)])
  end.

(** A temperature becomes a [float32], a limit an [int32]. *)
Definition inferenceConfig {G} (to_float32 : F -> G) (r : @ChatRequest F) : option (option G * option Z) :=
  if bool_decide (is_Some (rq_Temperature r)) || bool_decide (is_Some (limit_of r))
  then Some (option_map to_float32 (rq_Temperature r), option_map int32 (limit_of r)) else None.

(** [buildConverseInput] and [buildConverseStreamInput] *)
Definition buildConverseInput {G} (to_float32 : F -> G) (r : @ChatRequest F) : ConverseInput G :=
  let '(system, messages) := splitSystem (msgs_of r) [] [] in mkConverseInput (rq_Model r) system messages (inferenceConfig to_float32 r).

Definition ToInt32 (p : option Z) : Z := default 0 p.

(** The loop over the cache details, with the TTLs seen so far. *)
Fixpoint cache_ttls (details : list (CacheTTL * option Z)) (seen : list CacheTTL) (c : CacheCreationDetails) : option CacheCreationDetails :=
  match details with
  | [] => Some c
  | (ttl, n) :: details =>
      if bool_decide (ttl ∈ seen) then None
      else match ttl with
      | CacheTTLFiveMinutes => cache_ttls details (ttl :: seen) (mkCacheCreationDetails (ToInt32 n) (Ephemeral1hInputTokens c))
      | CacheTTLOneHour => cache_ttls details (ttl :: seen) (mkCacheCreationDetails (Ephemeral5mInputTokens c) (ToInt32 n))
      | CacheTTLOther _ => None
      end
  end.

Definition canonicalUsage (u : option TokenUsage) : result adapter_error Usage :=
  match u with
  | None => Ok no_usage
  | Some u =>
      match (if bool_decide (tu_CacheDetails u = []) then Some None
             else c ← cache_ttls (tu_CacheDetails u) [] (mkCacheCreationDetails 0 0); Some (Some c)) with
      | None => Err EUsage
      | Some details =>
          match AnthropicUsage_Canonical (mkAnthropicUsage (ToInt32 (tu_InputTokens u)) (ToInt32 (tu_OutputTokens u))
                  (ToInt32 (tu_CacheWriteInputTokens u)) (ToInt32 (tu_CacheReadInputTokens u)) details) with
          | Ok u => Ok u
          | Err _ => Err EUsage
          end
      end
  end.

Definition joinText (blocks : list content_block) : text := concat (map (fun b => match b with TextBlock t => t | OtherBlock => [] end) blocks).

Definition convertConverseOutput (model : text) (out : ConverseOutput) : result adapter_error ChatResponse :=
  usage ← match cv_Usage out with Some u => canonicalUsage (Some u) | None => Ok no_usage end;
  Ok (mkChatResponse (txt "bedrock-" ++ model) model
        (option_map (fun blocks => [mkChatChoice 0 (Wire.mkChatMessage (txt "assistant") (joinText blocks) None [] []) (cv_StopReason out)]) (cv_Message out)) usage None).

Definition wrapError (msg : string) : UpstreamError :=
  mkUpstreamError "bedrock"
    (if Contains msg "ThrottlingException" then 429 else if Contains msg "ValidationException" then 400
     else if Contains msg "AccessDeniedException" then 403 else if Contains msg "ResourceNotFoundException" then 404 else 500) msg.

(** [ChatCompletion], given what the SDK answers. *)
Definition bedrock_ChatCompletion (model : text) (answer : result string ConverseOutput) : result adapter_error ChatResponse :=
  match answer with Err msg => Err (EUpstream (wrapError msg)) | Ok out => convertConverseOutput model out end.

Section Bedrock_streams.
Variable alive : nat -> bool.
Variable id model : text.
Variable created : nat -> Z.

(** The state is whether the message stopped. *)
Definition bedrock_step (n : nat) (e : converse_event) (finished : bool) : list write_op * bool * option pipe_end :=
  match e with
  | ContentBlockDelta (Some t) => ([Must (Chunk (openAIChunk id model (created n) t []))], finished, None)
  | MessageStop reason => ([Must (Chunk (openAIChunk id model (created n) [] reason))], true, None)
  | Metadata u =>
      match canonicalUsage u with
      | Err _ => ([], finished, Some Broken)
      | Ok u => ([Must (Chunk (chunk id model (created n) [] (Some u)))], finished, None)
      end
  | ContentBlockDelta None | OtherEvent => ([], finished, None)
  end.

(** [translateStream] of Bedrock; [stream_ok] is that the event stream has no error. *)
Definition bedrock_translateStream (stream_ok : bool) (events : list converse_event) : list frame * pipe_end :=
  translate alive bedrock_step (fun _ finished => if negb stream_ok || negb finished then ([], Broken) else ([May DoneFrame], Clean)) events false [].
End Bedrock_streams.

(** [Embeddings] of Bedrock and of Vertex *)
Definition unsupported_embeddings (provider : string) : UpstreamError :=
  mkUpstreamError provider 501 (provider +:+ " embeddings not yet supported in this adapter").

(** ** The compatible providers *)

Definition bearer (apiKey : string) : list (string * string) := if (apiKey =? "")%string then [] else [("Authorization", "Bearer " +:+ apiKey)].

(** [postChat]: the request as the gateway marshals it. *)
Definition postChat (apiKey base : string) (r : @ChatRequest F) : provider_request :=
  mkProviderRequest (base_url base "https://api.openai.com/v1" +:+ "/chat/completions")
    (bearer apiKey ++ [("Content-Type", "application/json")] ++ if rq_Stream r then [("Accept", "text/event-stream")] else [])
    (ChatRequest_MarshalJSON float_lit r).

(** [ChatCompletion]: the answer to a protected call is read up to its limit; [size] is
    that of the body. *)
Definition openai_ChatCompletion (limit size : Z) (reply : http_reply) : result adapter_error ChatResponse :=
  match reply with
  | Reply status _ _ => if (status <? 400) && (0 <? limit) && (limit <? size) then Err EDecode
                        else v ← read_reply "openai" reply; match ChatResponse_UnmarshalJSON v with Some r => Ok r | None => Err EDecode end
  | NetError => Err ENet
  end.

(** [ResponseRequest] *)
Definition ResponseRequest (apiKey base path : string) (body : raw) : option provider_request :=
  if negb (path =? "/responses")%string && negb (HasPrefix path "/responses/") then None
  else Some (mkProviderRequest (base_url base "https://api.openai.com/v1" +:+ path)
               ([("Content-Type", "application/json"); ("Accept", "application/json, text/event-stream")] ++ bearer apiKey) body).
End Requests.

(** ** Embeddings *)

Section Embeddings.
(** [float32] and the decoder of its literals. *)
Context {G : Type} (parse_float32 : string -> option G) (zero32 : G).

Record EmbeddingResponse := mkEmbeddingResponse { es_Model : text; es_Data : list (Z * list G); es_Usage : Usage }.

Definition into_float32 (v : raw) (old : G) : option G := match v with JNum lit => parse_float32 lit | JNull => Some old | _ => None end.
Definition into_vector (v : raw) (old : option (list G)) : option (option (list G)) := into_slice into_float32 zero32 v old.

Definition UnsupportedTokenInput (provider : string) : UpstreamError :=
  mkUpstreamError provider 400 "this provider adapter cannot translate tokenizer-specific embedding token IDs; use text input or an OpenAI-compatible deployment".

(** Cohere: one request for all texts, and the billed input tokens. *)
Definition cohere_embed_json (model : text) (texts : list text) : raw :=
  JObj [(txt "model", JStr model); (txt "input_type", jtext "search_document"); (txt "texts", match texts with [] => JNull | _ => JArr (map JStr texts) end)].

Definition set_embed_float (k : text) (v : raw) (r : option (list (option (list G))) * Z) : option (option (list (option (list G))) * Z) :=
  if is_key "float" k then l ← into_slice into_vector None v r.1; Some (l, r.2) else Some r.
Definition set_billed (k : text) (v : raw) (r : option (list (option (list G))) * Z) : option (option (list (option (list G))) * Z) :=
  if is_key "input_tokens" k then n ← into_int v r.2; Some (r.1, n) else Some r.
Definition set_embed_meta (k : text) (v : raw) (r : option (list (option (list G))) * Z) : option (option (list (option (list G))) * Z) :=
  if is_key "billed_units" k then into_struct set_billed v r else Some r.
Definition set_embed_id (k : text) (v : raw) (r : option (list (option (list G))) * Z) : option (option (list (option (list G))) * Z) :=
  if is_key "id" k then _ ← into_string v []; Some r
  else if is_key "embeddings" k then into_struct set_embed_float v r
  else if is_key "meta" k then into_struct set_embed_meta v r
  else Some r.

Definition indexed (l : list (option (list G))) : list (Z * list G) := imap (fun i e => (Z.of_nat i, default [] e)) l.

Definition cohere_Embeddings (model : text) (input : EmbeddingInput) (reply : http_reply) : result adapter_error EmbeddingResponse :=
  if IsTokenized input then Err (EUpstream (UnsupportedTokenInput "cohere"))
  else
    v ← read_reply "cohere" reply;
    match into_struct set_embed_id v (None, 0) with
    | None => Err EDecode
    | Some (vectors, n) => Ok (mkEmbeddingResponse model (indexed (default [] vectors)) (mkUsage n 0 n None None 0 0 None))
    end.

(** Gemini: one request for each text, the first failure ends them. *)
Definition gemini_embed_json (t : text) : raw := JObj [(txt "content", JObj [(txt "parts", parts_json [t])])].
Definition set_values (k : text) (v : raw) (r : option (list G)) : option (option (list G)) := if is_key "values" k then into_vector v r else Some r.
Definition set_embedding (k : text) (v : raw) (r : option (list G)) : option (option (list G)) := if is_key "embedding" k then into_struct set_values v r else Some r.

Fixpoint gemini_embed (send : nat -> raw -> http_reply) (n : nat) (texts : list text) : result adapter_error (list (option (list G))) :=
  match texts with
  | [] => Ok []
  | t :: texts =>
      v ← read_reply "gemini" (send n (gemini_embed_json t));
      match into_struct set_embedding v None with
      | None => Err EDecode
      | Some e => rest ← gemini_embed send (S n) texts; Ok (e :: rest)
      end
  end.

Definition gemini_Embeddings (send : nat -> raw -> http_reply) (model : text) (input : EmbeddingInput) : result adapter_error EmbeddingResponse :=
  if IsTokenized input then Err (EUpstream (UnsupportedTokenInput "gemini"))
  else vectors ← gemini_embed send 0 (in_Texts input); Ok (mkEmbeddingResponse model (indexed vectors) no_usage).
End Embeddings.

(** ** What a translator's loop does *)

Definition must (w : write_op) : bool := match w with Must _ => true | May _ => false end.

Lemma pipe_writes_prefix alive ws out out' ok :
  pipe_writes alive ws out = (out', ok) ->
  exists k, out' = out ++ take k (map frame_of ws) /\ (ok = true -> forallb must ws = true -> k = length ws) /\ (ok = false -> (k < length ws)%nat).
Proof.
  revert out. induction ws as [| w ws IH]; intros out; cbn; [intros [= <- <-]; exists 0%nat; by rewrite app_nil_r |].
  destruct (alive (length out)) eqn:Ea.
  - intros (k & -> & Ht & Hf)%IH. exists (S k). cbn. rewrite <- app_assoc. split_and!; [done | | intros Ho; specialize (Hf Ho); lia].
    intros Ho [_ Hw]%andb_true_iff. f_equal. by apply Ht.
  - destruct w; [intros [= <- <-]; exists 0%nat; rewrite app_nil_r; split_and!; [done.. | intros _; lia] |]. intros E. exists 0%nat. cbn. rewrite app_nil_r.
    split_and!; [| done | intros _; lia].
    clear IH. revert E. induction ws as [| w ws IH]; cbn; [by intros [= <- _] |]. rewrite Ea. destruct w; [by intros [= <- _] | done].
Qed.

Lemma pipe_writes_all alive ws out out' : pipe_writes alive ws out = (out', true) -> forallb must ws = true -> out' = out ++ map frame_of ws.
Proof. intros (k & -> & Hk & _)%pipe_writes_prefix Hm. rewrite take_ge; [done |]. rewrite length_map, Hk by done. done. Qed.

Section Engine.
Context {L S : Type} (alive : nat -> bool) (step : nat -> L -> S -> list write_op * S * option pipe_end) (finish : nat -> S -> list write_op * pipe_end).

(** The end of a run: the item it ended with, or what was written after the last. *)
Definition ends_at (l : L) (s : S) (out out' : list frame) (x : pipe_end) : Prop :=
  exists ws s' stop ok, step (length out) l s = (ws, s', stop) /\ pipe_writes alive ws out = (out', ok) /\
    ((ok = false /\ x = Broken) \/ (ok = true /\ stop = Some x)).
Definition ends_after (s : S) (out out' : list frame) (x : pipe_end) : Prop :=
  exists ws e ok, finish (length out) s = (ws, e) /\ pipe_writes alive ws out = (out', ok) /\ x = if ok then e else Broken.

(** What every item keeps holds when the run ends. *)
Lemma translate_keeps (Inv : list L -> S -> list frame -> Prop) items done s out out' x :
  (forall done l s out ws s' out2, Inv done s out -> step (length out) l s = (ws, s', None) -> pipe_writes alive ws out = (out2, true) -> Inv (done ++ [l]) s' out2) ->
  Inv done s out -> translate alive step finish items s out = (out', x) ->
  exists before s1 out1, Inv (done ++ before) s1 out1 /\
    ((exists l after, items = before ++ l :: after /\ ends_at l s1 out1 out' x) \/ (items = before /\ ends_after s1 out1 out' x)).
Proof.
  intros Hkeep. revert done s out. induction items as [| l items IH]; intros done s out Hinv; cbn.
  - destruct (finish _ _) as [ws e] eqn:Ef. destruct (pipe_writes _ _ _) as [o ok] eqn:Ew. intros [= <- <-].
    exists [], s, out. rewrite app_nil_r. split; [done |]. right. split; [done |]. by exists ws, e, ok.
  - destruct (step _ _ _) as [[ws s'] stop] eqn:Es. destruct (pipe_writes _ _ _) as [o ok] eqn:Ew.
    assert (forall x', (ok = false /\ x' = Broken) \/ (ok = true /\ stop = Some x') -> (o, x') = (out', x) ->
      exists before s1 out1, Inv (done ++ before) s1 out1 /\
        ((exists l' after, l :: items = before ++ l' :: after /\ ends_at l' s1 out1 out' x) \/ (l :: items = before /\ ends_after s1 out1 out' x))) as Hend.
    { intros x' Hx [= <- <-]. exists [], s, out. rewrite app_nil_r. split; [done |]. left. exists l, items. split; [done |]. by exists ws, s', stop, ok. }
    destruct ok; [| apply Hend; by left]. destruct stop as [e|]; [apply Hend; by right |]. intros Ht.
    apply (IH (done ++ [l])) in Ht as (before & s1 & out1 & Hi & Ht); [| by eapply Hkeep].
    exists (l :: before), s1, out1. rewrite <- app_assoc in Hi. split; [done |].
    destruct Ht as [(l' & after & -> & ?) | [-> ?]]; [left; by exists l', after | by right].
Qed.
End Engine.

(** ** What the streaming proxy hears *)

(** The choices and the usage the proxy ([StreamProxy]) reads from a frame. *)
Definition member (k : string) (v : raw) : option raw := match v with JObj l => to_map l !! txt k | _ => None end.
Definition heard (f : frame) : list parsed_choice :=
  match f with
  | Chunk v =>
      match member "choices" v with
      | Some c => match into_slice (into_struct set_parsed) (mkParsedChoice 0 [] None) c None with Some l => default [] l | None => [] end
      | None => []
      end
  | DoneFrame => []
  end.
Definition heard_usage (f : frame) : option Usage := match f with Chunk v => read_usage (member "usage" v) None | DoneFrame => None end.
Definition heard_text (out : list frame) : text := concat (map (fun f => concat (map pc_Content (List.filter (fun c => pc_Index c =? 0) (heard f)))) out).

Lemma heard_text_app a b : heard_text (a ++ b) = heard_text a ++ heard_text b.
Proof. unfold heard_text. by rewrite map_app, concat_app. Qed.

Lemma chunk_choices id model created choices usage : member "choices" (chunk id model created choices usage) = Some (JArr choices).
Proof. unfold member, chunk, jmap, marshal_map. rewrite to_map_members. by destruct usage. Qed.
Lemma chunk_usage id model created choices usage : member "usage" (chunk id model created choices usage) = option_map encode_usage usage.
Proof. unfold member, chunk, jmap, marshal_map. rewrite to_map_members. by destruct usage. Qed.

Lemma heard_chunk id model created choices usage :
  heard (Chunk (chunk id model created choices usage)) =
    match into_elements (into_struct set_parsed) (mkParsedChoice 0 [] None) choices [] with Some l => l | None => [] end.
Proof. cbn [heard]. rewrite chunk_choices. cbn. by destruct (into_elements _ _ _ _). Qed.

Lemma heard_text_choice t s : heard (Chunk (text_chunk s t)) = [mkParsedChoice 0 t None].
Proof. unfold text_chunk. rewrite heard_chunk. by destruct (at_sent s). Qed.
Lemma heard_finish s reason : heard (Chunk (finish_chunk s reason)) = [mkParsedChoice 0 [] (Some reason)].
Proof. unfold finish_chunk. by rewrite heard_chunk. Qed.
Lemma heard_openAIChunk id model created t reason :
  heard (Chunk (openAIChunk id model created t reason)) = [mkParsedChoice 0 t (if bool_decide (reason = []) then None else Some reason)].
Proof. unfold openAIChunk. rewrite heard_chunk. destruct t, reason; reflexivity. Qed.

(** *** Usage *)

(** A usage that adds up. *)
Definition usage_whole (u : Usage) : Prop :=
  usage_ints u /\ 0 <= PromptTokens u /\ 0 <= CompletionTokens u /\ TotalTokens u = PromptTokens u + CompletionTokens u.

Lemma encode_usage_counters u :
  member "prompt_tokens" (encode_usage u) = Some (jint (PromptTokens u)) /\ member "completion_tokens" (encode_usage u) = Some (jint (CompletionTokens u)).
Proof.
  destruct u as [p c t pd cd cc cr ca]. unfold encode_usage, omit_zero, omit_nil, member. cbn [PromptTokens CompletionTokens TotalTokens u_PromptTokensDetails
    u_CompletionTokensDetails CacheCreationInputTokens CacheReadInputTokens CacheCreation].
  by destruct pd, cd, (cc =? 0), (cr =? 0), ca.
Qed.

Lemma encode_usage_is_reported u : usage_whole u -> ReportedUsage (Some (encode_usage u)) true = true.
Proof.
  intros (Hi & Hp & Hc & _). destruct (encode_usage_counters u) as [Ep Ec]. apply Forall_app in Hi as [Hi _]. rewrite !Forall_cons in Hi. destruct Hi as (? & ? & _).
  unfold ReportedUsage, reportedCounters, field. assert (encode_usage u = JObj (match encode_usage u with JObj l => l | _ => [] end)) as Ee by done.
  rewrite Ee in Ep, Ec |- *. cbn [mbind option_bind into_raw forallb Datatypes.app]. cbn [member] in Ep, Ec. rewrite Ep, Ec. unfold jint. rewrite !parse_int_lit by done.
  assert ((PromptTokens u <? 0) = false) as -> by lia. by assert ((CompletionTokens u <? 0) = false) as -> by lia.
Qed.

(** The proxy reads the usage the translator wrote. *)
Lemma heard_usage_chunk id model created choices u : usage_whole u -> heard_usage (Chunk (chunk id model created choices (Some u))) = Some u.
Proof.
  intros Hu. cbn [heard_usage]. rewrite chunk_usage. cbn [option_map]. unfold read_usage. rewrite usage_roundtrip by apply Hu.
  by rewrite encode_usage_is_reported.
Qed.

Lemma anthropic_usage_whole a u : anthropic_int64 a -> AnthropicUsage_Canonical a = Ok u -> usage_whole u.
Proof.
  intros Ha Hc. destruct (Anthropic_canonical_splits a u Ha Hc) as [Hu _]. destruct Ha as [Ha Hd]. rewrite !Forall_cons in Ha. destruct Ha as (? & ? & ? & ? & _).
  unfold AnthropicUsage_Canonical in Hc. bind_inv. destruct Hu as (Hp & Ho & ? & ? & ? & ? & ?).
  injection Hc as <-. cbn [PromptTokens CompletionTokens CacheCreationInputTokens CacheReadInputTokens] in *.
  apply tokenSum_Ok in Hr1 as (Hn & -> & Hm); [| repeat constructor; cbn; int64_lia]. rewrite !Forall_cons in Hn. cbn in Hn, Hm.
  split; [| cbn; int64_lia]. unfold usage_ints. cbn. rewrite !Forall_cons. split_and!; try done; try int64_lia. by destruct (au_CacheCreation a).
Qed.

Lemma gemini_usage_whole g u :
  Forall int64_ok [PromptTokenCount g; CandidatesTokenCount g; ThoughtsTokenCount g; CachedContentTokenCount g] ->
  GeminiUsage_Canonical g = Ok u -> usage_whole u.
Proof.
  intros Hg Hc. rewrite !Forall_cons in Hg. destruct Hg as (? & ? & ? & ? & _). unfold GeminiUsage_Canonical in Hc. bind_inv.
  apply tokenSum_Ok in Hr as (Hn1 & -> & ?); [| repeat constructor; cbn; int64_lia]. rewrite !Forall_cons in Hn1. cbn in Hn1, H3.
  apply tokenSum_Ok in Hr0 as (Hn2 & -> & ?); [| repeat constructor; cbn; int64_lia]. rewrite !Forall_cons in Hn2. cbn in Hn2, H4.
  case_match; [done |]. injection Hc as <-. split; [| cbn; int64_lia]. unfold usage_ints. cbn. rewrite !Forall_cons. split_and!; try done; int64_lia.
Qed.

Lemma set_completion_whole u n v : usage_whole u -> int64_ok n -> SetCompletionTokens u n = Ok v -> usage_whole v.
Proof.
  intros (Hu & Hp & Hc & Ht) Hn E. unfold SetCompletionTokens in E. bind_inv. injection E as <-.
  unfold usage_ints in *. cbn in Hu |- *. rewrite !Forall_cons in Hu. destruct Hu as (? & ? & ? & ? & ? & Hrest).
  apply tokenSum_Ok in Hr as (Hnn & -> & Hm); [| repeat constructor; cbn; int64_lia]. rewrite !Forall_cons in Hnn. cbn in Hnn, Hm.
  split; [| cbn; lia]. unfold usage_ints. cbn. rewrite !Forall_cons. split_and!; try done; int64_lia.
Qed.

(** The counters of a decoded report fit. *)
Lemma into_anthropic_usage_fits v old u : anthropic_int64 old -> into_anthropic_usage v old = Some u -> anthropic_int64 u.
Proof.
  assert (forall a, anthropic_int64 a <-> int64_ok (au_InputTokens a) /\ int64_ok (au_OutputTokens a) /\ int64_ok (au_CacheCreationInputTokens a) /\
    int64_ok (au_CacheReadInputTokens a) /\ forall d, au_CacheCreation a = Some d -> creation_int64 d) as Hiff.
  { intros a. unfold anthropic_int64, creation_int64. rewrite !Forall_cons. split.
    - intros [(? & ? & ? & ? & _) Hd]. split_and!; try done. intros d Ed. rewrite Ed, !Forall_cons in Hd. by destruct Hd as (? & ? & _).
    - intros (? & ? & ? & ? & Hd). split; [done |]. destruct (au_CacheCreation a) as [d|]; [| done]. destruct (Hd d eq_refl). repeat (apply Forall_cons; split; [done |]). by apply Forall_nil. }
  apply into_struct_keeps. intros k v0 [i o cc cr ca] u' Hu E. apply Hiff in Hu as (? & ? & ? & ? & ?). apply Hiff.
  unfold set_anthropic_usage in E. fits E; cbn in *; split_and!; try done; first [int_fits | eapply cache_details_int64; [| eassumption]; assumption].
Qed.

Definition gemini_fits (g : GeminiUsage) : Prop :=
  Forall int64_ok [PromptTokenCount g; CandidatesTokenCount g; ThoughtsTokenCount g; CachedContentTokenCount g].
Lemma into_gemini_usage_fits v old u : gemini_fits old -> into_gemini_usage v old = Some u -> gemini_fits u.
Proof.
  apply into_struct_keeps. intros k v0 [p c t cc th] u' Hu E. unfold gemini_fits in *. rewrite !Forall_cons in Hu |- *. cbn in *. destruct Hu as (? & ? & ? & ? & _).
  unfold set_gemini_usage in E. fits E; cbn in *; split_and!; try done; int_fits.
Qed.

(** ** Anthropic streams *)

Definition event_says (e : stream_event) : text :=
  if bool_decide (sv_Type e = txt "content_block_delta") && bool_decide (sv_DeltaType e = txt "text_delta") then sv_DeltaText e else [].
Definition line_says (parse : string -> option raw) (line : string) : text :=
  match anthropic_line parse line with Event e => event_says e | _ => [] end.

Lemma zero_anthropic_fits : anthropic_int64 no_anthropic_usage.
Proof. split; [| done]. rewrite !Forall_cons. split_and!; try apply zero_int64_ok. by apply Forall_nil. Qed.

Lemma anthropic_line_fits parse line e : anthropic_line parse line = Event e -> anthropic_int64 (sv_MessageUsage e) /\ anthropic_int64 (sv_Usage e).
Proof.
  unfold anthropic_line. destruct (data_of _ _) as [d|]; [| done]. destruct (_ || _); [done |]. destruct (parse d) as [v|]; cbn; [| done].
  destruct (into_struct _ _ _) as [e'|] eqn:E; [| done]. intros [= <-].
  revert E. apply (into_struct_keeps (fun e => anthropic_int64 (sv_MessageUsage e) /\ anthropic_int64 (sv_Usage e))); [| split; apply zero_anthropic_fits].
  intros k v1 [t id model mu dt dx ds u] a' [H1 H2] E. cbn in H1, H2. unfold set_stream_event in E.
  destruct (is_key "type" k); [fits E; done |]. destruct (is_key "message" k); [| destruct (is_key "delta" k)].
  - revert E. apply (into_struct_keeps (fun e => anthropic_int64 (sv_MessageUsage e) /\ anthropic_int64 (sv_Usage e))); [| done].
    intros k2 v2 [t2 id2 model2 mu2 dt2 dx2 ds2 u2] a2 [H3 H4] E. unfold set_stream_message in E. fits E; cbn in *; split; try done. eapply into_anthropic_usage_fits; [| eassumption]; assumption.
  - revert E. apply (into_struct_keeps (fun e => anthropic_int64 (sv_MessageUsage e) /\ anthropic_int64 (sv_Usage e))); [| done].
    intros k2 v2 [t2 id2 model2 mu2 dt2 dx2 ds2 u2] a2 [H3 H4] E. unfold set_stream_delta in E. fits E; done.
  - fits E; cbn in *; split; try done. eapply into_anthropic_usage_fits; [| eassumption]; assumption.
Qed.

(** What an event does. *)
Lemma anthropic_event_spec e s ws s' stop :
  anthropic_int64 (sv_MessageUsage e) -> anthropic_int64 (sv_Usage e) -> usage_whole (at_usage s) -> anthropic_event e s = (ws, s', stop) ->
  forallb must ws = true /\ heard_text (map frame_of ws) = event_says e /\
  match stop with
  | None => usage_whole (at_usage s') /\ DoneFrame ∉ map frame_of ws
  | Some Broken => ws = []
  | Some Clean => sv_Type e = txt "message_stop" /\
      exists c, ws = [Must (Chunk c); Must DoneFrame] /\ heard_usage (Chunk c) = Some (at_usage s)
  end.
Proof.
  intros Hm Hu Hs. unfold anthropic_event, event_says.
  destruct (bool_decide_reflect (sv_Type e = txt "message_start")) as [-> | N1].
  { destruct (AnthropicUsage_Canonical _) as [u|] eqn:Ec; intros [= <- <- <-]; split_and!; try done; [by apply (anthropic_usage_whole (sv_MessageUsage e)) | apply not_elem_of_nil]. }
  destruct (bool_decide_reflect (sv_Type e = txt "content_block_delta")) as [-> | N2].
  { destruct (bool_decide_reflect (sv_DeltaType e = txt "text_delta")) as [_ | Nd]; cbn; [| intros [= <- <- <-]; split_and!; try done; apply not_elem_of_nil].
    destruct (bool_decide_reflect (sv_DeltaText e = [])) as [-> | Nt]; intros [= <- <- <-]; split_and!; try done; [apply not_elem_of_nil | |].
    - unfold heard_text. cbn [map frame_of]. rewrite heard_text_choice. cbn. by rewrite !app_nil_r.
    - cbn. rewrite elem_of_cons, elem_of_nil. by intros [? | []]. }
  destruct (bool_decide_reflect (sv_Type e = txt "message_delta")) as [E3 | N3].
  { destruct (if au_OutputTokens (sv_Usage e) =? 0 then Ok (at_usage s) else SetCompletionTokens (at_usage s) (au_OutputTokens (sv_Usage e))) as [u|] eqn:Ec; [| intros [= <- <- <-]; done].
    assert (usage_whole u) as Hw.
    { destruct (au_OutputTokens (sv_Usage e) =? 0); [by injection Ec as <- |]. eapply set_completion_whole; [exact Hs | | exact Ec]. destruct Hu as [Hu _]. rewrite !Forall_cons in Hu. by destruct Hu as (_ & ? & _). }
    intros [= <- <- <-]. destruct (bool_decide (mapStopReason _ = [])); split_and!; try done; [apply not_elem_of_nil |].
    cbn. rewrite elem_of_cons, elem_of_nil. by intros [? | []]. }
  destruct (bool_decide_reflect (sv_Type e = txt "message_stop")) as [E4 | N4].
  { assert (((TotalTokens (at_usage s) =? 0) && (0 <? PromptTokens (at_usage s))) = false) as -> by (destruct Hs as (_ & ? & ? & ?); lia).
    intros [= <- <- <-]. split_and!; [done | | done |].
    - unfold heard_text. cbn [map frame_of]. by rewrite heard_chunk.
    - eexists. split; [done |]. by apply heard_usage_chunk. }
  destruct (bool_decide_reflect (sv_Type e = txt "error")); intros [= <- <- <-]; split_and!; try done. apply not_elem_of_nil.
Qed.

(** What holds between two lines of an Anthropic stream. *)
Definition anthropic_inv (parse : string -> option raw) (done : list string) (s : anthropic_state) (out : list frame) : Prop :=
  heard_text out = concat (map (line_says parse) done) /\ usage_whole (at_usage s) /\ (DoneFrame ∉ out) /\ Forall (fun l => anthropic_line parse l <> BadEvent) done.

Lemma no_usage_whole : usage_whole no_usage.
Proof. split; [| done]. unfold usage_ints. cbn. rewrite !Forall_cons. split_and!; try apply zero_int64_ok. by apply Forall_nil. Qed.

Lemma anthropic_line_keeps alive parse done l s out ws s' out' :
  anthropic_inv parse done s out -> anthropic_step parse (length out) l s = (ws, s', None) -> pipe_writes alive ws out = (out', true) ->
  anthropic_inv parse (done ++ [l]) s' out'.
Proof.
  intros (Ht & Hu & Hn & Hd) Hs Hw. unfold anthropic_step in Hs. unfold anthropic_inv. rewrite map_app, concat_app, Forall_app, Forall_singleton. cbn [map concat].
  rewrite app_nil_r. unfold line_says at 2. destruct (anthropic_line parse l) as [| | e] eqn:El; [| done |].
  - injection Hs as <- <-. injection Hw as <-. by rewrite app_nil_r.
  - destruct (anthropic_line_fits _ _ _ El) as [H1 H2]. destruct (anthropic_event_spec e s ws s' None H1 H2 Hu Hs) as (Hm & Hh & Hu' & Hn').
    apply pipe_writes_all in Hw as ->; [| done]. rewrite heard_text_app, Ht, Hh. split_and!; try done. by rewrite elem_of_app; intros [? | ?].
Qed.

(** How the pipe stands when a line of an Anthropic stream ends it. *)
Lemma anthropic_line_ends alive parse done l s out out' x :
  anthropic_inv parse done s out -> ends_at alive (anthropic_step parse) l s out out' x ->
  (exists rest, heard_text out' ++ rest = concat (map (line_says parse) done) ++ line_says parse l) /\
  match x with
  | Broken => DoneFrame ∉ out'
  | Clean => exists e c, anthropic_line parse l = Event e /\ sv_Type e = txt "message_stop" /\ out' = out ++ [Chunk c; DoneFrame] /\ heard_text out' = concat (map (line_says parse) done) /\
      heard_usage (Chunk c) = Some (at_usage s)
  end.
Proof.
  intros (Ht & Hu & Hn & Hd) (ws & s' & stop & ok & Hs & Hw & Hx). unfold anthropic_step in Hs. unfold line_says at 2.
  destruct (anthropic_line parse l) as [| | e] eqn:El; [injection Hs as <- <- <-; injection Hw as <- <-; naive_solver | |].
  { injection Hs as <- <- <-. injection Hw as <- <-. destruct Hx as [[? _] | [_ [= <-]]]; [done |]. rewrite Ht. split; [| done]. exists []. by rewrite !app_nil_r. }
  destruct (anthropic_line_fits _ _ _ El) as [H1 H2]. destruct (anthropic_event_spec e s ws s' stop H1 H2 Hu Hs) as (Hm & Hh & Hstop).
  destruct (pipe_writes_prefix _ _ _ _ _ Hw) as (k & -> & Hk & Hk'). split.
  { rewrite heard_text_app, Ht, <- Hh. exists (heard_text (drop k (map frame_of ws))). by rewrite <- app_assoc, <- heard_text_app, take_drop. }
  destruct Hx as [[-> ->] | [-> ->]].
  - specialize (Hk' eq_refl). rewrite elem_of_app. intros [? | Hi]; [done |]. destruct stop as [[] |]; [| subst ws; destruct k; by apply elem_of_nil in Hi |].
    + destruct Hstop as (_ & c & -> & _). cbn in Hi, Hk'. destruct k as [| [|]]; [by apply elem_of_nil in Hi | | lia]. by apply list_elem_of_singleton in Hi.
    + destruct Hstop as [_ Hno]. apply Hno. revert Hi. apply subseteq_take.
  - rewrite (Hk eq_refl Hm), take_ge by by rewrite length_map. destruct x; [| by subst ws; rewrite app_nil_r].
    destruct Hstop as (Hty & c & -> & Hus). exists e, c. split_and!; try done. rewrite heard_text_app, Ht, Hh. unfold event_says.
    rewrite Hty. by rewrite app_nil_r.
Qed.

(** C21. An Anthropic stream, direct or on Vertex, ends with [DONE] only when the provider
    said so: after a [message_stop], with every line before it decoded, the text the
    proxy hears is exactly that of the provider's text deltas in their order, and the last
    chunk carries a usage that the proxy reads and that adds up. A stream that breaks off,
    at any point and for any reason, never shows [DONE], and shows no text the provider
    did not send. *)
Theorem anthropic_streams_are_whole alive parse lines out x
    (Hrun : TranslateStream alive parse lines = (out, x)) :
  (exists rest, heard_text out ++ rest = concat (map (line_says parse) lines)) /\
  match x with
  | Broken => DoneFrame ∉ out
  | Clean => exists before stop after e front c u,
      lines = before ++ stop :: after /\ anthropic_line parse stop = Event e /\ sv_Type e = txt "message_stop" /\
      Forall (fun l => anthropic_line parse l <> BadEvent) before /\
      out = front ++ [Chunk c; DoneFrame] /\ (DoneFrame ∉ front) /\
      heard_text out = concat (map (line_says parse) before) /\ heard_usage (Chunk c) = Some u /\ usage_whole u
  end.
Proof.
  apply (translate_keeps alive _ _ (anthropic_inv parse) lines []) in Hrun as (before & s & out1 & Hinv & [(l & after & -> & He) | [-> He]]).
  - destruct (anthropic_line_ends alive parse _ l s out1 out x Hinv He) as ((rest & Hr) & Hx). cbn [Datatypes.app] in Hr, Hx. split.
    { exists (rest ++ concat (map (line_says parse) after)). by rewrite app_assoc, Hr, map_app, concat_app, <- app_assoc. }
    destruct x; [| done]. destruct Hx as (e & c & El & Hty & -> & Ht & Hu), Hinv as (_ & Hw & Hn & Hd). by exists before, l, after, e, out1, c, (at_usage s).
  - destruct He as (ws & e & ok & [= <- <-] & [= <- <-] & ->). destruct Hinv as (Ht & _ & Hn & _). split; [| done]. exists []. by rewrite app_nil_r.
  - intros. by eapply anthropic_line_keeps.
  - split_and!; [done | apply no_usage_whole | apply not_elem_of_nil | by apply Forall_nil].
Qed.

(** ** Gemini streams *)

Definition candidate_heard (c : candidate) : parsed_choice :=
  mkParsedChoice (cd_Index c) (spoken c) (if bool_decide (cd_FinishReason c = []) then None else Some (gemini_finish (cd_FinishReason c))).
Definition candidates_of (parse : string -> option raw) (line : string) : list parsed_choice :=
  match gemini_line parse line with Event e => if reports_error e then [] else map candidate_heard (default [] (ge_Candidates e)) | _ => [] end.
Definition good_line (parse : string -> option raw) (line : string) : Prop :=
  match gemini_line parse line with NoEvent => True | BadEvent => False | Event e => reports_error e = false end.
Definition finishing (parse : string -> option raw) (line : string) : bool := match gemini_line parse line with Event e => finishes e | _ => false end.
Definition usage_report (parse : string -> option raw) (acc : option GeminiUsage) (line : string) : option GeminiUsage :=
  match gemini_line parse line with Event e => match ge_Usage e with Some g => Some g | None => acc end | _ => acc end.
Definition last_report (parse : string -> option raw) (lines : list string) : option GeminiUsage := foldl (usage_report parse) None lines.
Definition all_heard (out : list frame) : list parsed_choice := concat (map heard out).

Lemma all_heard_app a b : all_heard (a ++ b) = all_heard a ++ all_heard b.
Proof. unfold all_heard. by rewrite map_app, concat_app. Qed.

Lemma into_slice_keeps {A} (P : A -> Prop) dec zero v old new :
  (forall v a a', P a -> dec v a = Some a' -> P a') -> P zero -> Forall P (default [] old) -> into_slice dec zero v old = Some new -> Forall P (default [] new).
Proof.
  intros Hdec Hz Hold. destruct v as [| | | | l |]; try done; cbn; [by intros [= <-]; apply Forall_nil |].
  revert Hold new. generalize (default [] old). clear old. induction l as [| v l IH]; intros old Hold new; cbn; [intros [= <-]; by apply Forall_nil |].
  assert (P (match old with a :: _ => a | [] => zero end) /\ Forall P (match old with _ :: old => old | [] => [] end)) as [Hhd Htl].
  { destruct old; [done |]. by apply Forall_cons in Hold. }
  destruct (dec v _) as [a|] eqn:Ed; cbn; [| done]. specialize (IH _ Htl). destruct (into_elements dec zero l _) as [l'|]; cbn; [| done]. intros [= <-].
  apply Forall_cons. split; [by eapply Hdec | by apply (IH (Some l'))].
Qed.

Definition gemini_event_fits (e : gemini_event) : Prop :=
  Forall (fun c => int64_ok (cd_Index c)) (default [] (ge_Candidates e)) /\ forall g, ge_Usage e = Some g -> gemini_fits g.

Lemma gemini_line_fits parse line e : gemini_line parse line = Event e -> gemini_event_fits e.
Proof.
  unfold gemini_line. destruct (data_of _ _) as [d|]; [| done]. destruct (_ =? _)%string; [done |]. destruct (parse d) as [v|]; cbn; [| done].
  destruct (into_struct _ _ _) as [e'|] eqn:E; [| done]. intros [= <-]. revert E. apply (into_struct_keeps gemini_event_fits); [| split; [by apply Forall_nil | done]].
  intros k v1 a a' [H1 H2] E. unfold set_gemini_event in E. fits E; split; cbn; try done.
  - eapply (into_slice_keeps (fun c => int64_ok (cd_Index c)) _ no_candidate); [| apply zero_int64_ok | exact H1 | eassumption].
    intros v2 c c' Hc Ec. revert Hc Ec. apply (into_struct_keeps (fun c => int64_ok (cd_Index c))). intros k3 v3 c3 c3' Hc3 E3. unfold set_candidate in E3.
    destruct (is_key "index" k3); [fits E3; cbn; int_fits |]. destruct (is_key "content" k3); [| fits E3; done].
    revert Hc3 E3. apply (into_struct_keeps (fun c => int64_ok (cd_Index c))). intros k4 v4 c4 c4' Hc4 E4. unfold set_content in E4. fits E4; done.
  - eapply (into_ptr_keeps gemini_fits _ no_gemini_usage); [intros *; apply into_gemini_usage_fits | | exact H2 | eassumption].
    unfold gemini_fits. cbn. rewrite !Forall_cons. split_and!; try apply zero_int64_ok. by apply Forall_nil.
Qed.

Lemma heard_candidate id model created c : int64_ok (cd_Index c) -> heard (Chunk (chunk id model created [candidate_choice c] None)) = [candidate_heard c].
Proof.
  intros Hi. rewrite heard_chunk. unfold candidate_heard.
  assert (candidate_choice c = JObj ([(txt "delta", jmap [("content", JStr (spoken c))])] ++
    (if bool_decide (cd_FinishReason c = []) then [] else [(txt "finish_reason", JStr (gemini_finish (cd_FinishReason c)))]) ++ [(txt "index", jint (cd_Index c))])) as ->
    by (unfold candidate_choice; by destruct (bool_decide _)).
  assert (forall a, set_parsed (txt "delta") (jmap [("content", JStr (spoken c))]) a = Some (mkParsedChoice (pc_Index a) (spoken c) (pc_FinishReason a))) as Hd by done.
  assert (forall a, set_parsed (txt "index") (jint (cd_Index c)) a = Some (mkParsedChoice (cd_Index c) (pc_Content a) (pc_FinishReason a))) as Hx.
  { intros a. unfold set_parsed. keys. cbv iota. by rewrite into_int_jint. }
  unfold into_elements, into_struct. destruct (bool_decide _); cbn [Datatypes.app foldl fst snd mbind option_bind]; rewrite Hd; cbn [mbind option_bind].
  - by rewrite Hx.
  - assert (forall a r, set_parsed (txt "finish_reason") (JStr r) a = Some (mkParsedChoice (pc_Index a) (pc_Content a) (Some r))) as -> by done.
    cbn [mbind option_bind]. by rewrite Hx.
Qed.

Section Gemini_theorems.
Variable alive : nat -> bool.
Variable parse : string -> option raw.
Variable id model : text.
Variable created : nat -> Z.

(** What holds between two lines of a Gemini stream. *)
Definition gemini_inv (done : list string) (s : bool * option Usage) (out : list frame) : Prop :=
  all_heard out = concat (map (candidates_of parse) done) /\ (DoneFrame ∉ out) /\ Forall (good_line parse) done /\ s.1 = existsb (finishing parse) done /\
  match last_report parse done with
  | None => s.2 = None
  | Some g => gemini_fits g /\ exists u, GeminiUsage_Canonical g = Ok u /\ s.2 = Some u
  end.

Lemma candidate_writes_spec n cs :
  Forall (fun c => int64_ok (cd_Index c)) cs ->
  forallb must (candidate_writes id model created n cs) = true /\ (DoneFrame ∉ map frame_of (candidate_writes id model created n cs)) /\
  all_heard (map frame_of (candidate_writes id model created n cs)) = map candidate_heard cs.
Proof.
  intros Hcs. unfold candidate_writes. assert (forall m, let ws := imap (fun i c => Must (Chunk (chunk id model (created (m + i)%nat) [candidate_choice c] None))) cs in
    forallb must ws = true /\ (DoneFrame ∉ map frame_of ws) /\ all_heard (map frame_of ws) = map candidate_heard cs) as H; [| apply H].
  induction Hcs as [| c cs Hc Hcs IH]; intros m ws; [subst ws; cbn; split_and!; try done; apply not_elem_of_nil |].
  destruct (IH (S m)) as (H1 & H2 & H3). subst ws. rewrite imap_cons.
  rewrite (imap_ext _ (fun i c => Must (Chunk (chunk id model (created (S m + i)%nat) [candidate_choice c] None)))) by
    (intros i x _; cbn; by rewrite Nat.add_succ_r).
  cbn [forallb must map frame_of]. split_and!; [done | rewrite elem_of_cons; by intros [? | ?] |].
  unfold all_heard in H3 |- *. cbn [map concat]. by rewrite heard_candidate, H3.
Qed.

Lemma gemini_step_spec done l s out ws s' stop :
  gemini_inv done s out -> gemini_step parse id model created (length out) l s = (ws, s', stop) ->
  forallb must ws = true /\ (DoneFrame ∉ map frame_of ws) /\ stop <> Some Clean /\
  (stop = Some Broken -> ws = []) /\
  (stop = None -> all_heard (map frame_of ws) = candidates_of parse l /\ good_line parse l /\ s'.1 = existsb (finishing parse) (done ++ [l]) /\
     match last_report parse (done ++ [l]) with None => s'.2 = None | Some g => gemini_fits g /\ exists u, GeminiUsage_Canonical g = Ok u /\ s'.2 = Some u end).
Proof.
  intros (_ & _ & _ & Hf & Hu) Hs. unfold last_report. rewrite existsb_app, foldl_app. fold (last_report parse done). cbn [existsb foldl]. rewrite orb_false_r.
  unfold gemini_step in Hs. unfold candidates_of, good_line, finishing, usage_report. destruct (gemini_line parse l) as [| | e] eqn:El.
  - injection Hs as <- <- <-. rewrite orb_false_r. split_and!; try done. apply not_elem_of_nil.
  - injection Hs as <- <- <-. split_and!; try done. apply not_elem_of_nil.
  - destruct (gemini_line_fits _ _ _ El) as [Hc Hg].
    destruct (reports_error e); [injection Hs as <- <- <-; split_and!; try done; apply not_elem_of_nil |].
    destruct (candidate_writes_spec (length out) _ Hc) as (H1 & H2 & H3). destruct (ge_Usage e) as [g|] eqn:Eg.
    + destruct (GeminiUsage_Canonical g) as [u|] eqn:Ec; cbn in Hs; injection Hs as <- <- <-; split_and!; try done; [| apply not_elem_of_nil].
      intros _. cbn. rewrite Hf. split_and!; try done; [by apply Hg | by exists u].
    + injection Hs as <- <- <-. split_and!; try done. intros _. cbn. by rewrite Hf.
Qed.

Lemma gemini_line_keeps done l s out ws s' out' :
  gemini_inv done s out -> gemini_step parse id model created (length out) l s = (ws, s', None) -> pipe_writes alive ws out = (out', true) ->
  gemini_inv (done ++ [l]) s' out'.
Proof.
  intros Hinv Hs Hw. destruct (gemini_step_spec _ _ _ _ _ _ _ Hinv Hs) as (Hm & Hn & _ & _ & H). destruct (H eq_refl) as (Hh & Hg & Hf & Hu).
  destruct Hinv as (Ht & Hd & Hgood & _). apply pipe_writes_all in Hw as ->; [| done]. unfold gemini_inv.
  rewrite all_heard_app, map_app, concat_app, Forall_app, Forall_singleton, Ht, Hh. cbn [map concat]. rewrite app_nil_r. split_and!; try done.
  by rewrite elem_of_app; intros [? | ?].
Qed.

Lemma gemini_line_ends done l s out out' x :
  gemini_inv done s out -> ends_at alive (gemini_step parse id model created) l s out out' x ->
  x = Broken /\ (DoneFrame ∉ out') /\ exists rest, all_heard out' ++ rest = concat (map (candidates_of parse) done) ++ candidates_of parse l.
Proof.
  intros Hinv (ws & s' & stop & ok & Hs & Hw & Hx). destruct (gemini_step_spec _ _ _ _ _ _ _ Hinv Hs) as (Hm & Hn & Hc & Hb & H).
  destruct Hinv as (Ht & Hd & _), (pipe_writes_prefix _ _ _ _ _ Hw) as (k & -> & _).
  assert (x = Broken) as ->. { destruct Hx as [[_ ->] | [_ ->]]; [done |]. by destruct x. }
  split_and!; [done | |].
  - rewrite elem_of_app. intros [? | Hi]; [done |]. apply Hn. revert Hi. apply subseteq_take.
  - rewrite all_heard_app, Ht. destruct stop as [[] |]; [done | |].
    + rewrite Hb by done. exists (candidates_of parse l). destruct k; cbn; by rewrite app_nil_r.
    + destruct (H eq_refl) as [<- _]. exists (all_heard (drop k (map frame_of ws))). by rewrite <- app_assoc, <- all_heard_app, take_drop.
Qed.
End Gemini_theorems.

(** C22. A Gemini stream, direct or on Vertex, ends cleanly only when the body was read to
    its end without an error, every line decoded, no event reported an error and some
    candidate finished; then the proxy hears every candidate of every event in their order,
    with its index, its text without the thoughts and its finish reason, and the last
    usage the provider reported in its canonical form. In every other case the stream
    is broken: it never shows [DONE], and it shows only candidates the provider sent. *)
Theorem gemini_streams_are_whole alive parse id model created scan_ok lines out x
    (Hrun : TranslateGeminiStream alive parse id model created scan_ok lines = (out, x)) :
  (exists rest, all_heard out ++ rest = concat (map (candidates_of parse) lines)) /\
  match x with
  | Broken => DoneFrame ∉ out
  | Clean =>
      scan_ok = true /\ Forall (good_line parse) lines /\ existsb (finishing parse) lines = true /\
      all_heard out = concat (map (candidates_of parse) lines) /\
      forall g, last_report parse lines = Some g -> exists u c, GeminiUsage_Canonical g = Ok u /\ Chunk c ∈ out /\ heard_usage (Chunk c) = Some u
  end.
Proof.
  apply (translate_keeps alive _ _ (gemini_inv parse) lines []) in Hrun as (before & s & out1 & Hinv & [(l & after & -> & He) | [-> He]]);
    [| | intros; by eapply gemini_line_keeps | split_and!; try done; apply not_elem_of_nil].
  - destruct (gemini_line_ends _ _ _ _ _ _ _ _ _ _ _ Hinv He) as (-> & Hn & rest & Hr). cbn [Datatypes.app] in Hr. split; [| done].
    exists (rest ++ concat (map (candidates_of parse) after)). by rewrite app_assoc, Hr, map_app, concat_app, <- app_assoc.
  - cbn [Datatypes.app] in Hinv. destruct Hinv as (Ht & Hd & Hgood & Hf & Hu), He as (ws & e & ok & Hfin & Hw & ->). unfold gemini_finish_stream in Hfin.
    destruct (negb scan_ok || negb s.1) eqn:Eb.
    { injection Hfin as <- <-. injection Hw as <- <-. split; [| done]. exists []. by rewrite app_nil_r. }
    apply orb_false_iff in Eb as [Es Ef]. apply negb_false_iff in Es as ->. apply negb_false_iff in Ef. rewrite Ef in Hf.
    assert (all_heard (map frame_of ws) = []) as Hws by (injection Hfin as <- <-; by destruct s.2; cbn [app map all_heard concat frame_of]; unfold all_heard; cbn [map concat]; rewrite ?heard_chunk).
    destruct (pipe_writes_prefix _ _ _ _ _ Hw) as (k & Ho & _ & Hk).
    assert (all_heard out = all_heard out1) as Hall.
    { rewrite Ho, all_heard_app. assert (all_heard (take k (map frame_of ws)) = []) as ->; [| by rewrite app_nil_r].
      apply (app_nil _ (all_heard (drop k (map frame_of ws)))). by rewrite <- all_heard_app, take_drop. }
    rewrite Hall, Ht. split; [exists []; by rewrite app_nil_r |]. injection Hfin as <- <-. destruct ok.
    + split_and!; try done. intros g Hg. rewrite Hg in Hu. destruct Hu as (Hfit & u & Hc & Hs). rewrite Hs in Hw. cbn in Hw. destruct (alive (length out1)); [| done].
      exists u. eexists. split_and!; [done | | apply heard_usage_chunk; by eapply gemini_usage_whole].
      clear Ho Hall. destruct (alive (length (_ ++ _))); injection Hw as <-; rewrite !elem_of_app, !list_elem_of_singleton; auto.
    + specialize (Hk eq_refl). rewrite Ho, elem_of_app. intros [? | Hi]; [done |]. destruct s.2; cbn in Hk, Hi; destruct k as [| [|]]; try lia;
        first [by apply elem_of_nil in Hi | by apply list_elem_of_singleton in Hi].
Qed.

(** ** Bedrock streams *)

Definition delta_says (e : converse_event) : text := match e with ContentBlockDelta (Some t) => t | _ => [] end.
Definition stops (e : converse_event) : bool := match e with MessageStop _ => true | _ => false end.

Definition bedrock_inv (done : list converse_event) (finished : bool) (out : list frame) : Prop :=
  heard_text out = concat (map delta_says done) /\ (DoneFrame ∉ out) /\ finished = existsb stops done.

Lemma bedrock_step_spec id model created n e finished ws s' stop :
  bedrock_step id model created n e finished = (ws, s', stop) ->
  forallb must ws = true /\ (DoneFrame ∉ map frame_of ws) /\ stop <> Some Clean /\ heard_text (map frame_of ws) = delta_says e /\ s' = finished || stops e.
Proof.
  assert (forall c, DoneFrame ∉ [Chunk c]) as Hc by (intros c; rewrite list_elem_of_singleton; done).
  assert (forall t r, heard_text [Chunk (openAIChunk id model (created n) t r)] = t) as Ht.
  { intros t r. unfold heard_text. cbn [map concat]. rewrite heard_openAIChunk. cbn. by rewrite !app_nil_r. }
  destruct e as [[t|] | reason | u |]; cbn [bedrock_step]; [| | | destruct (canonicalUsage u) as [v|] |]; intros [= <- <- <-]; cbn [forallb must map frame_of stops delta_says];
    rewrite ?orb_false_r, ?orb_true_r; split_and!; try done; try apply not_elem_of_nil; apply Ht.
Qed.

(** A Bedrock stream ends cleanly only when the event stream ended without an error and
    the message stopped; the text heard is that of the text deltas, in their order, and a
    broken stream never shows [DONE]. *)
Lemma bedrock_streams_are_whole alive id model created stream_ok events out x :
  bedrock_translateStream alive id model created stream_ok events = (out, x) ->
  (exists rest, heard_text out ++ rest = concat (map delta_says events)) /\
  match x with
  | Broken => DoneFrame ∉ out
  | Clean => stream_ok = true /\ existsb stops events = true /\ heard_text out = concat (map delta_says events)
  end.
Proof.
  intros Hrun. apply (translate_keeps alive _ _ bedrock_inv events []) in Hrun as (before & s & out1 & Hinv & [(l & after & -> & He) | [-> He]]);
    [| | | split_and!; try done; apply not_elem_of_nil].
  - destruct Hinv as (Ht & Hd & _), He as (ws & s' & stop & ok & Hs & Hw & Hx). destruct (bedrock_step_spec _ _ _ _ _ _ _ _ _ Hs) as (_ & Hn & Hc & Hh & _).
    destruct (pipe_writes_prefix _ _ _ _ _ Hw) as (k & -> & _). cbn [Datatypes.app] in Ht. split.
    + exists (heard_text (drop k (map frame_of ws)) ++ concat (map delta_says after)).
      by rewrite heard_text_app, Ht, <- app_assoc, (app_assoc (heard_text (take _ _))), <- heard_text_app, take_drop, Hh, map_app, concat_app.
    + assert (x = Broken) as -> by (destruct Hx as [[_ ->] | [_ ->]]; [done | by destruct x]).
      rewrite elem_of_app. intros [? | Hi]; [done |]. apply Hn. revert Hi. apply subseteq_take.
  - destruct Hinv as (Ht & Hd & Hf), He as (ws & e & ok & Hfin & Hw & ->). cbn [Datatypes.app] in Ht, Hf.
    destruct (negb stream_ok || negb s) eqn:Eb.
    { injection Hfin as <- <-. injection Hw as <- <-. split; [| done]. exists []. by rewrite app_nil_r. }
    apply orb_false_iff in Eb as [Es Ef]. apply negb_false_iff in Es as ->. apply negb_false_iff in Ef as ->. injection Hfin as <- <-. cbn in Hw.
    assert (heard_text out = heard_text out1 /\ ok = true) as [Ho ->].
    { destruct (alive (length out1)); injection Hw as <- <-; [| done]. rewrite heard_text_app. by rewrite app_nil_r. }
    rewrite Ho, Ht. split; [exists []; by rewrite app_nil_r |]. done.
  - intros done l s1 o ws s' o2 (Ht & Hd & Hf) Hs Hw. destruct (bedrock_step_spec _ _ _ _ _ _ _ _ _ Hs) as (Hm & Hn & _ & Hh & ->).
    apply pipe_writes_all in Hw as ->; [| assumption]. unfold bedrock_inv. rewrite heard_text_app, map_app, concat_app, existsb_app, Ht, Hh, <- Hf. cbn.
    rewrite app_nil_r, orb_false_r. split_and!; [reflexivity | | reflexivity]. rewrite elem_of_app. by intros [? | ?].
Qed.

(** ** Requests *)

Section Conversations.
Context {F : Type} (to_float32 : F -> F).

Definition system_turns (r : @ChatRequest F) : list Wire.ChatMessage := List.filter (is_role "system") (msgs_of r).
Definition turns (r : @ChatRequest F) : list Wire.ChatMessage := List.filter (fun m => negb (is_role "system" m)) (msgs_of r).
Definition turn_as (assistant user : string) (m : Wire.ChatMessage) : text * text := (if is_role "assistant" m then txt assistant else txt user, cm_Content m).

Lemma anthropic_messages_spec msgs system out :
  anthropic_messages msgs system out =
    (system ++ map cm_Content (List.filter (fun m => negb (forallb is_space (cm_Content m))) (List.filter (is_role "system") msgs)),
     out ++ map (fun m => let t := turn_as "assistant" "user" m in mkAnthropicMessage t.1 t.2) (List.filter (fun m => negb (is_role "system" m)) msgs)).
Proof.
  revert system out. induction msgs as [| m msgs IH]; intros system out; cbn [anthropic_messages List.filter map]; [by rewrite !app_nil_r |].
  destruct (is_role "system" m); cbn [negb List.filter map].
  - rewrite IH. destruct (forallb is_space (cm_Content m)); cbn [negb map]; [done |]. by rewrite <- app_assoc.
  - assert (forall x, is_role "assistant" m = x -> turn_as "assistant" "user" m = (if x then txt "assistant" else txt "user", cm_Content m)) as Et by (by intros x <-).
    destruct (is_role "assistant" m); rewrite (Et _ eq_refl), IH; cbn [fst snd]; by rewrite <- app_assoc.
Qed.

Lemma gemini_messages_spec msgs system out :
  gemini_messages msgs system out =
    (match List.filter (is_role "system") msgs with [] => system | l => Some (default [] system ++ map cm_Content l) end,
     out ++ map (turn_as "model" "user") (List.filter (fun m => negb (is_role "system" m)) msgs)).
Proof.
  revert system out. induction msgs as [| m msgs IH]; intros system out; cbn [gemini_messages List.filter map]; [by rewrite app_nil_r |].
  destruct (is_role "system" m); cbn [negb map]; rewrite IH.
  - f_equal. destruct (List.filter _ msgs); [done |]. cbn. by rewrite <- app_assoc.
  - unfold turn_as. by rewrite <- app_assoc.
Qed.

Lemma splitSystem_spec msgs system out :
  splitSystem msgs system out =
    (system ++ map cm_Content (List.filter (is_role "system") msgs),
     out ++ map (turn_as "assistant" "user") (List.filter (fun m => negb (is_role "system" m)) msgs)).
Proof.
  revert system out. induction msgs as [| m msgs IH]; intros system out; cbn [splitSystem List.filter map]; [by rewrite !app_nil_r |].
  destruct (is_role "system" m); cbn [negb map]; rewrite IH; by rewrite <- app_assoc.
Qed.

Lemma vertex_messages_turns msgs system out :
  (vertex_messages msgs system out).2 = out ++ map (fun m => mkAnthropicMessage (cm_Role m) (cm_Content m)) (List.filter (fun m => negb (is_role "system" m)) msgs).
Proof.
  revert system out. induction msgs as [| m msgs IH]; intros system out; cbn [vertex_messages List.filter map]; [by rewrite app_nil_r |].
  destruct (is_role "system" m); cbn [negb map]; rewrite IH; [done | by rewrite <- app_assoc].
Qed.

(** No adapter loses, reorders or changes a turn of the conversation: every
    translated request carries the turns that are no system messages, in their order and
    with their exact text, under the provider's name of the role, and the system messages
    in their order apart from them (Anthropic leaves out blank ones); Cohere receives
    every message under its own role. *)
Theorem conversations_are_kept (r : @ChatRequest F) stream :
  map (fun m => (an_Role m, an_Content m)) (ar_Messages (buildAnthropicRequest r stream)) = map (turn_as "assistant" "user") (turns r) /\
  ar_System (buildAnthropicRequest r stream) = join [10; 10] (map cm_Content (List.filter (fun m => negb (forallb is_space (cm_Content m))) (system_turns r))) /\
  gr_Contents (buildGeminiRequest r) = map (turn_as "model" "user") (turns r) /\
  default [] (gr_System (buildGeminiRequest r)) = map cm_Content (system_turns r) /\
  map (fun m => (an_Role m, an_Content m)) (ar_Messages (buildAnthropicVertexRequest r stream)) = map (fun m => (cm_Role m, cm_Content m)) (turns r) /\
  ci_Messages _ (buildConverseInput to_float32 r) = map (turn_as "assistant" "user") (turns r) /\
  ci_System _ (buildConverseInput to_float32 r) = map cm_Content (system_turns r) /\
  toCohereMessages (msgs_of r) = map (fun m => (cm_Role m, cm_Content m)) (msgs_of r).
Proof.
  unfold buildAnthropicRequest, buildGeminiRequest, buildAnthropicVertexRequest, buildConverseInput.
  rewrite anthropic_messages_spec, gemini_messages_spec, splitSystem_spec. pose proof (vertex_messages_turns (msgs_of r) [] []) as Hv.
  destruct (vertex_messages _ _ _) as [vs vm]. cbn in Hv. subst vm. cbn. fold (turns r). fold (system_turns r). split_and!; try done; [by rewrite map_map | |].
  - by destruct (system_turns r).
  - by rewrite map_map.
Qed.
End Conversations.

(** ** Embeddings *)

(** Every text of a request has its vector, under its index, from the answer to its own
    request. *)
Lemma gemini_embeddings_match_their_texts {G} (parse_float32 : string -> option G) zero32 send model input r :
  gemini_Embeddings parse_float32 zero32 send model input = Ok r ->
  length (es_Data r) = length (in_Texts input) /\
  forall i t, in_Texts input !! i = Some t -> exists v e, read_reply "gemini" (send i (gemini_embed_json t)) = Ok v /\
    into_struct (set_embedding parse_float32 zero32) v None = Some e /\ es_Data r !! i = Some (Z.of_nat i, default [] e).
Proof.
  unfold gemini_Embeddings. destruct (IsTokenized input); [done |]. intros (vectors & Hv & [= <-])%bind_Ok_inv. cbn [es_Data].
  assert (forall n texts vs, gemini_embed parse_float32 zero32 send n texts = Ok vs -> length vs = length texts /\
    forall i t, texts !! i = Some t -> exists v e, read_reply "gemini" (send (n + i)%nat (gemini_embed_json t)) = Ok v /\
      into_struct (set_embedding parse_float32 zero32) v None = Some e /\ vs !! i = Some e) as H.
  { intros n texts. revert n. induction texts as [| t texts IH]; intros n vs; cbn [gemini_embed]; [intros [= <-]; split; [done | intros []; done] |].
    intros (v & Hr & E)%bind_Ok_inv. destruct (into_struct _ v None) as [e|] eqn:Ee; [| done]. apply bind_Ok_inv in E as (rest & Hrest & [= <-]).
    destruct (IH _ _ Hrest) as [Hl Hi]. split; [cbn; by rewrite Hl |]. intros [| i] t'; cbn; [intros [= <-]; rewrite Nat.add_0_r; eauto |].
    intros (v' & e' & ? & ? & ?)%Hi. exists v', e'. by rewrite Nat.add_succ_r. }
  destruct (H 0%nat _ _ Hv) as [Hl Hi]. split; [unfold indexed; by rewrite length_imap |].
  intros i t (v & e & ? & ? & He)%Hi. exists v, e. split_and!; try done. unfold indexed. by rewrite list_lookup_imap, He.
Qed.

(** ** Divergences *)

(** Cohere's translator ends every stream cleanly with [DONE]: one that breaks off in
    the middle of an answer, one whose events do not decode, one that never began. *)
Lemma cohere_stream_always_ends_well parse id model created lines :
  exists out, cohere_translateStream (fun _ => true) parse id model created lines = (out ++ [DoneFrame], Clean).
Proof.
  enough (forall start, exists out, translate (fun _ => true) (cohere_step parse id model created) (fun _ _ => ([May DoneFrame], Clean)) lines tt start =
    (out ++ [DoneFrame], Clean)) as H by apply H.
  induction lines as [| l lines IH]; intros out; cbn; [by exists out |].
  unfold cohere_step at 1. destruct (cohere_line parse l) as [| | e]; cbn; try apply IH. repeat destruct (bool_decide _); cbn; apply IH.
Qed.

(** A Gemini answer with a thought: streamed, the thought is left out and the reason is
    mapped; in one piece, both are passed on. *)
Definition thoughtful_candidate : raw :=
  JObj [(txt "content", JObj [(txt "parts", JArr [JObj [(txt "text", jtext "hmm"); (txt "thought", JBool true)]; JObj [(txt "text", jtext "4")]])]);
        (txt "finishReason", jtext "MAX_TOKENS")].
Definition thoughtful_answer : raw := JObj [(txt "candidates", JArr [thoughtful_candidate])].

Lemma gemini_answer_includes_thoughts :
  match gemini_ChatCompletion "gemini" (txt "m") (Reply 200 (Some thoughtful_answer) "") with
  | Ok r => map (fun c => (cm_Content (cc_Message c), cc_FinishReason c)) (default [] (rs_Choices r)) = [(txt "hmm4", txt "MAX_TOKENS")]
  | Err _ => False
  end /\
  map (fun c => (pc_Content c, pc_FinishReason c)) (candidates_of (fun _ => Some thoughtful_answer) "data: {}") = [(txt "4", Some (txt "length"))].
Proof. by vm_compute. Qed.

(** A limit that a 32-bit integer cannot hold is sent to Bedrock as another number. *)
Lemma bedrock_limit_wraps :
  let r := mkChatRequest (txt "m") None false None None (Some (2 ^ 31)) None [] None in
  inferenceConfig (fun f : Z => f) r = Some (None, Some (- 2 ^ 31)).
Proof. by vm_compute. Qed.

(** Bedrock and Vertex declare embeddings and answer 501 to each, an error that counts
    as the deployment's failure. *)
Lemma declared_embeddings_fail p :
  p ∈ ["bedrock"; "vertex"] -> cap_Embeddings (DefaultCapabilities p) = true /\ IsRetryable (Some (Providers.EUpstream (unsupported_embeddings p))) = true.
Proof. rewrite !elem_of_cons, elem_of_nil. by intros [-> | [-> | []]]. Qed.

(** ** Witnesses *)

Definition example_lines : list string := ["event: message_start"; "data: start"; "data: text"; "data: delta"; "data: stop"; "data: later"].
Definition example_parse (s : string) : option raw :=
  if (s =? "start")%string then Some (JObj [(txt "type", jtext "message_start"); (txt "message", JObj [(txt "id", jtext "msg"); (txt "usage", JObj [(txt "input_tokens", jint 7)])])])
  else if (s =? "text")%string then Some (JObj [(txt "type", jtext "content_block_delta"); (txt "delta", JObj [(txt "type", jtext "text_delta"); (txt "text", jtext "hi")])])
  else if (s =? "delta")%string then Some (JObj [(txt "type", jtext "message_delta"); (txt "usage", JObj [(txt "output_tokens", jint 3)])])
  else if (s =? "stop")%string then Some (JObj [(txt "type", jtext "message_stop")])
  else None.

Lemma anthropic_streams_are_whole_witness :
  let '(out, x) := TranslateStream (fun _ => true) example_parse example_lines in
  x = Clean /\ heard_text out = txt "hi" /\ exists rest, heard_text out ++ rest = concat (map (line_says example_parse) example_lines).
Proof.
  destruct (TranslateStream (fun _ => true) example_parse example_lines) as [out x] eqn:E.
  assert (x = Clean /\ heard_text out = txt "hi") as [-> Ht] by (vm_compute in E; injection E as <- <-; vm_compute; split; reflexivity).
  split; [reflexivity |]. split; [exact Ht |]. exact (proj1 (anthropic_streams_are_whole (fun _ => true) example_parse example_lines out Clean E)).
Defined.

Definition gemini_parse (s : string) : option raw :=
  if (s =? "answer")%string then Some thoughtful_answer else Some (JObj [(txt "usageMetadata", JObj [(txt "promptTokenCount", jint 5)])]).

Lemma gemini_streams_are_whole_witness :
  let lines := ["data: answer"; "data: usage"] in
  let '(out, x) := TranslateGeminiStream (fun _ => true) gemini_parse (txt "id") (txt "m") (fun _ => 0) true lines in
  x = Clean /\ length out = 3%nat /\ exists rest, all_heard out ++ rest = concat (map (candidates_of gemini_parse) lines).
Proof.
  cbv zeta. destruct (TranslateGeminiStream (fun _ => true) gemini_parse (txt "id") (txt "m") (fun _ => 0) true _) as [out x] eqn:E.
  assert (x = Clean /\ length out = 3%nat) as [-> Hl] by (vm_compute in E; injection E as <- <-; vm_compute; split; reflexivity).
  split; [reflexivity |]. split; [exact Hl |].
  exact (proj1 (gemini_streams_are_whole (fun _ => true) gemini_parse (txt "id") (txt "m") (fun _ => 0) true ["data: answer"; "data: usage"] out Clean E)).
Defined.
