(* ===== verification/GuardAdmin.v ===== *)
(** * Administration of guardrails ([api/guardrails.go], [store/guardrail_policy.go],
    [Decode] of [guardrails/guardrails.go])

    Reading, replacing and trying out the policies of a team or of an alias. A column
    holds what PostgreSQL keeps of a value ([jsonb]: member order, duplicates and
    number formats are not kept), whose text has a size of its own; both are given
    from outside, and so is the equality of two such values. Reads of the catalogue
    and the counts of decisions are not modelled. *)

From S2P Require Import Prelude GoStrings Models Guardrails Json Wire Auth Chat.
From Stdlib Require Import Ascii.

(** ** Policies in JSON ([Decode]) *)

Inductive decode_error := NotAnArray | TooLarge | BadJSON | TooManyPolicies | DuplicateName | Invalid (e : guard_error).

(** A string member of a policy. *)
Definition into_go_string (v : raw) (old : string) : option string :=
  match v with JStr s => Some (utf8_string s) | JNull => Some old | _ => None end.

(** Unknown members are refused. *)
Definition set_policy (k : text) (v : raw) (p : Policy) : option Policy :=
  let '(mkPolicy name type mode phase terms) := p in
  if is_key "name" k then s ← into_go_string v name; Some (mkPolicy s type mode phase terms)
  else if is_key "type" k then s ← into_go_string v type; Some (mkPolicy name s mode phase terms)
  else if is_key "mode" k then s ← into_go_string v mode; Some (mkPolicy name type s phase terms)
  else if is_key "phase" k then s ← into_go_string v phase; Some (mkPolicy name type mode s terms)
  else if is_key "terms" k then l ← into_slice into_string [] v (Some terms); Some (mkPolicy name type mode phase (default [] l))
  else None.

Definition no_policy : Policy := mkPolicy "" "" "" "" [].

(** The loop over the policies, with the names seen so far. *)
Fixpoint check_policies (ps : list Policy) (seen : list string) : result decode_error unit :=
  match ps with
  | [] => Ok tt
  | p :: ps =>
      match Validate p with
      | Err e => Err (Invalid e)
      | Ok _ => if bool_decide (po_Name p ∈ seen) then Err DuplicateName else check_policies ps (po_Name p :: seen)
      end
  end.

(** A value with the size of its text; [None] is no text at all. *)
Definition Decode (size : Z) (v : option raw) : result decode_error (list Policy) :=
  match v with
  | Some (JArr l) =>
      if 65536 <? size then Err TooLarge
      else match into_slice (into_struct set_policy) no_policy (JArr l) None with
      | Some ps =>
          let ps := default [] ps in
          _ ← fail_if (MaxPolicies <? Z.of_nat (length ps)) TooManyPolicies; _ ← check_policies ps []; Ok ps
      | None => Err BadJSON
      end
  | _ => Err NotAnArray
  end.

(** ** The columns *)

Record team_guards := mkTeamGuards { tg_ID : Z; tg_Slug : string; tg_Archived : bool; tg_Guardrails : raw }.
Record guard_audit := mkGuardAudit { ga_Actor : string; ga_Scope : string; ga_ID : string }.
Record guard_tables := mkGuardTables { gt_teams : list team_guards; gt_aliases : gmap string raw; gt_audit : list guard_audit }.

Inductive scope_error := ScopeDatabase | ScopeNotFound | ScopeInvalid | ScopeConflict | ScopeDecode (e : decode_error).

Section Store.
(** What a column keeps of a value, the size of its text, and whether two values are
    the same to the database. *)
Variable jsonb : raw -> raw.
Variable stored_size : raw -> Z.
Variable jsonb_equal : raw -> raw -> bool.
(** The size of a value's own text. *)
Variable size : raw -> Z.

(** The bound of the queries: a larger column reads as [null]. *)
Definition bounded (v : raw) : raw := if stored_size v <=? 65536 then v else JNull.

Definition prefixed (prefix : string) (p : Policy) : Policy := mkPolicy (prefix +:+ po_Name p) (po_Type p) (po_Mode p) (po_Phase p) (po_Terms p).

Definition is_empty_array (v : raw) : bool := match v with JArr [] => true | _ => false end.

Inductive policies_error := PolicyRow | PolicyDecode (e : decode_error) | PolicyUnsupported.

(** [GuardrailPolicies] *)
Definition decode_column (v : raw) : result policies_error (list Policy) :=
  match Decode (stored_size v) (Some (bounded v)) with Ok ps => Ok ps | Err e => Err (PolicyDecode e) end.

Definition GuardrailPolicies (teamID : Z) (alias : string) (t : guard_tables) : result policies_error (list Policy) :=
  match List.find (fun r => tg_ID r =? teamID) (gt_teams t) with
  | None => Err PolicyRow
  | Some r =>
      team ← decode_column (tg_Guardrails r);
      model ← decode_column (default (JArr []) (gt_aliases t !! alias));
      _ ← fail_if ((alias =? "")%string && negb (bool_decide (map_Forall (fun _ v => is_empty_array v = true) (gt_aliases t)))) PolicyUnsupported;
      Ok (map (prefixed "team/") team ++ map (prefixed "alias/") model)
  end.

(** [GetGuardrailScope] *)
Definition open_team (slug : string) (r : team_guards) : bool := (tg_Slug r =? slug)%string && negb (tg_Archived r).
Definition scope_column (scope id : string) (t : guard_tables) : option raw :=
  if (scope =? "team")%string then tg_Guardrails <$> List.find (open_team id) (gt_teams t)
  else if (scope =? "alias")%string then gt_aliases t !! id else None.

(** [UPDATE teams SET guardrails=$2 WHERE slug=$1] *)
Definition set_team_guards (slug : string) (v : raw) (r : team_guards) : team_guards :=
  if (tg_Slug r =? slug)%string then mkTeamGuards (tg_ID r) (tg_Slug r) (tg_Archived r) v else r.

(** [ReplaceGuardrailScope]: one transaction, whose commit may fail. *)
Definition ReplaceGuardrailScope (commits : bool) (scope id : string) (expected policies : raw) (actor : string) (t : guard_tables) :
    guard_tables * result scope_error unit :=
  if negb (scope =? "team")%string && negb (scope =? "alias")%string then (t, Err ScopeInvalid)
  else match Decode (size policies) (Some policies) with
  | Err e => (t, Err (ScopeDecode e))
  | Ok _ =>
      match scope_column scope id t with
      | None => (t, Err ScopeNotFound)
      | Some old =>
          if negb (jsonb_equal old expected) then (t, Err ScopeConflict)
          else if negb commits then (t, Err ScopeDatabase)
          else
            let audit := gt_audit t ++ [mkGuardAudit actor scope id] in
            if (scope =? "alias")%string then (mkGuardTables (gt_teams t) (<[id := jsonb policies]> (gt_aliases t)) audit, Ok tt)
            else (mkGuardTables (map (set_team_guards id (jsonb policies)) (gt_teams t)) (gt_aliases t) audit, Ok tt)
      end
  end.

(** ** The endpoints *)

Definition set_scope_body (k : text) (v : raw) (b : option raw * option raw) : option (option raw * option raw) :=
  if is_key "expected" k then Some (Some v, b.2) else if is_key "policies" k then Some (b.1, Some v) else None.

(** The actor of the audit. *)
Definition actor_of (p : Principal) : string := match pr_User p with Some u => pretty (us_ID u) | None => "master_key" end.

(** [SetGuardrailScope]: [body] is the value of the request, [None] when it is too long,
    no single value or no JSON. *)
Definition SetGuardrailScope (p : option Principal) (commits : bool) (scope id : string) (body : option raw) (t : guard_tables) : guard_tables * Z :=
  match p with
  | None => (t, 403)
  | Some pr =>
      if negb (IsAdmin p) then (t, 403)
      else match body ≫= (fun v => into_struct set_scope_body v (None, None)) with
      | Some (Some expected, policies) =>
          match policies, Decode (match policies with Some v => size v | None => 0 end) policies with
          | Some policies, Ok _ =>
              if (negb (scope =? "team")%string && negb (scope =? "alias")%string) || (id =? "")%string || (256 <? Z.of_nat (String.length id)) then (t, 400)
              else match ReplaceGuardrailScope commits scope id expected policies (actor_of pr) t with
              | (t, Ok _) => (t, 200)
              | (t, Err ScopeConflict) => (t, 409)
              | (t, Err ScopeNotFound) => (t, 404)
              | (t, Err _) => (t, 503)
              end
          | _, _ => (t, 400)
          end
      | _ => (t, 400)
      end
  end.
End Store.

(** *** Trying policies out ([TestGuardrails]) *)

Record guardrailTestResult := mkTestResult { tr_Name : string; tr_Mode : string; tr_Phase : string; tr_Decision : string }.
Record guardrailTestResponse := mkTestResponse { tp_Decision : string; tp_Output : list rune; tp_Results : list guardrailTestResult }.

Definition rank (d : string) : Z := if (d =? "block")%string then 3 else if (d =? "redact")%string then 2 else if (d =? "flag")%string then 1 else 0.

Section Try.
Variable fold_eq : rune -> rune -> bool.
Variable phase : string.
Variable text : list rune.

(** One rule on its own; a missing result would be an index out of range. *)
Definition try_rule (p : Policy) : result guard_error string :=
  match Text fold_eq (Some text) (New [p] phase) with
  | (_, Err ErrBlocked) => Ok "block"
  | (_, Err e) => Err e
  | (f, Ok _) => Ok (match Results f with (_, _, d) :: _ => d | [] => "" end)
  end.

Fixpoint try_rules (ps : list Policy) (decision : string) (results : list guardrailTestResult) (passable : list Policy) :
    result guard_error (string * list guardrailTestResult * list Policy) :=
  match ps with
  | [] => Ok (decision, results, passable)
  | p :: ps =>
      d ← (if applies phase p then try_rule p else Ok "skipped");
      try_rules ps (if rank decision <? rank d then d else decision) (results ++ [mkTestResult (po_Name p) (po_Mode p) (po_Phase p) d])
        (if applies phase p && negb (po_Mode p =? "block")%string then passable ++ [p] else passable)
  end.

Definition try_policies (ps : list Policy) : result guard_error guardrailTestResponse :=
  '(decision, results, passable) ← try_rules ps "allow" [] [];
  if (decision =? "block")%string then Ok (mkTestResponse decision [] results)
  else out ← (Text fold_eq (Some text) (New passable phase)).2; Ok (mkTestResponse decision out results).
End Try.

Record test_body := mkTestBody { tb_Text : list rune; tb_Phase : string; tb_ScopeType : string; tb_ScopeID : string; tb_Policies : option raw }.
Definition set_test_body (k : Json.text) (v : raw) (b : test_body) : option test_body :=
  let '(mkTestBody text phase scope id policies) := b in
  if is_key "text" k then s ← into_string v text; Some (mkTestBody s phase scope id policies)
  else if is_key "phase" k then s ← into_go_string v phase; Some (mkTestBody text s scope id policies)
  else if is_key "scope_type" k then s ← into_go_string v scope; Some (mkTestBody text phase s id policies)
  else if is_key "scope_id" k then s ← into_go_string v id; Some (mkTestBody text phase scope s policies)
  else if is_key "policies" k then Some (mkTestBody text phase scope id (Some v))
  else None.

Definition TestGuardrails (fold_eq : rune -> rune -> bool) (stored_size size : raw -> Z) (p : option Principal) (body : option raw) (t : guard_tables) :
    Z * option guardrailTestResponse :=
  if negb (IsAdmin p) then (403, None)
  else match body ≫= (fun v => into_struct set_test_body v (mkTestBody [] "" "" "" None)) with
  | None => (400, None)
  | Some b =>
      let phase := if (tb_Phase b =? "")%string then "pre" else tb_Phase b in
      if negb (phase =? "pre")%string && negb (phase =? "post")%string then (400, None)
      else
        match (match tb_Policies b with
               | None | Some JNull => v ← scope_column (tb_ScopeType b) (tb_ScopeID b) t; Some (stored_size v, v)
               | Some v => Some (size v, v)
               end) with
        | None => (404, None)
        | Some (n, v) =>
            match Decode n (Some v) with
            | Err _ => (400, None)
            | Ok ps => match try_policies fold_eq phase (tb_Text b) ps with Ok r => (200, Some r) | Err _ => (400, None) end
            end
        end
  end.

(** ** A dry run and the filter *)

Section Dry.
Variable fold_eq : rune -> rune -> bool.
Variable phase : string.
Variable text : list rune.

#[local] Abbreviation blank := (replicate (length text) false).

(** What a rule finds in the text does not depend on what others redacted. *)
Lemma pattern_loop_mask fuel mode term pos res m1 m2 :
  (pattern_loop fold_eq fuel mode term text pos (res, m1)).1 = (pattern_loop fold_eq fuel mode term text pos (res, m2)).1 /\
  ((pattern_loop fold_eq fuel mode term text pos (res, m1)).2 = None <-> (pattern_loop fold_eq fuel mode term text pos (res, m2)).2 = None).
Proof.
  revert pos res m1 m2. induction fuel as [| fuel IH]; intros pos res m1 m2; cbn [pattern_loop fst snd]; [done |].
  destruct (length text <=? pos)%nat; [done |]. destruct (find_index _ _ _); [| done]. destruct (mode =? "block")%string; [done |]. apply IH.
Qed.

Lemma rule_loop_mask mode terms res m1 m2 :
  (rule_loop fold_eq mode terms text res m1).1 = (rule_loop fold_eq mode terms text res m2).1 /\
  ((rule_loop fold_eq mode terms text res m1).2 = None <-> (rule_loop fold_eq mode terms text res m2).2 = None).
Proof.
  revert res m1 m2. induction terms as [| term terms IH]; intros res m1 m2; cbn [rule_loop]; [done |].
  destruct (pattern_loop_mask (length text) mode term 0 res m1 m2) as [H1 H2].
  destruct (pattern_loop fold_eq _ mode term text 0 (res, m1)) as [r1 [k1|]], (pattern_loop fold_eq _ mode term text 0 (res, m2)) as [r2 [k2|]]; cbn in H1, H2; subst r2.
  - apply IH.
  - by destruct H2 as [_ H2]; discriminate (H2 eq_refl).
  - by destruct H2 as [H2 _]; discriminate (H2 eq_refl).
  - done.
Qed.

(** The judgement of a rule, and whether it blocks. *)
Definition judgement (p : Policy) : string := (rule_loop fold_eq (po_Mode p) (po_Terms p) text "allow" blank).1.
Definition blocked (p : Policy) : bool := match (rule_loop fold_eq (po_Mode p) (po_Terms p) text "allow" blank).2 with None => true | Some _ => false end.

Lemma rule_at m p :
  (rule_loop fold_eq (po_Mode p) (po_Terms p) text "allow" m).1 = judgement p /\
  ((rule_loop fold_eq (po_Mode p) (po_Terms p) text "allow" m).2 = None <-> blocked p = true).
Proof.
  destruct (rule_loop_mask (po_Mode p) (po_Terms p) "allow" m blank) as [H1 H2]. split; [done |]. rewrite H2. clear. unfold blocked. by destruct (rule_loop _ _ _ _ _ _).2; split.
Qed.

(** A rule that does not block answers its own mode or lets the text pass; one in
    blocking mode then leaves everything as it is. *)
Lemma pattern_loop_mode fuel mode term pos st res m :
  pattern_loop fold_eq fuel mode term text pos st = (res, Some m) -> (mode = "block" -> (res, m) = st) /\ (res = st.1 \/ (res = mode /\ mode <> "block")).
Proof.
  revert pos st. induction fuel as [| fuel IH]; intros pos st; cbn [pattern_loop]; [intros [= <- <-]; by destruct st; auto |].
  destruct (length text <=? pos)%nat; [intros [= <- <-]; by destruct st; auto |]. destruct (find_index _ _ _); [| intros [= <- <-]; by destruct st; auto].
  destruct (String.eqb_spec mode "block") as [-> | Hm]; [done |]. intros [_ H]%IH. split; [done |]. cbn in H. right. split; [| done]. by destruct H as [-> | [-> _]].
Qed.

Lemma rule_loop_mode mode terms res0 m0 res m :
  rule_loop fold_eq mode terms text res0 m0 = (res, Some m) -> (mode = "block" -> m = m0) /\ (res = res0 \/ (res = mode /\ mode <> "block")).
Proof.
  revert res0 m0. induction terms as [| term terms IH]; intros res0 m0; cbn [rule_loop]; [intros [= <- <-]; auto |].
  destruct (pattern_loop _ _ _ _ _ _ _) as [r1 [k1|]] eqn:E; [| done]. apply pattern_loop_mode in E as [Hb Hr]. intros [Hb' Hr']%IH. split.
  - intros Hm. specialize (Hb Hm). injection Hb as -> ->. by apply Hb'.
  - cbn in Hr. destruct Hr' as [-> | ?]; [done | by right].
Qed.

Lemma judgement_not_block p : blocked p = false -> judgement p <> "block".
Proof.
  unfold blocked, judgement. destruct (rule_loop _ _ _ _ _ _) as [res [m|]] eqn:E; [| done]. intros _. apply rule_loop_mode in E as [_ [-> | [-> ?]]]; done.
Qed.

Definition fresh (p : Policy) : rule := mkRule p "not_evaluated".

(** The filter on the whole list. *)
Lemma rules_loop_blocked ps m : existsb blocked ps = true -> (rules_loop fold_eq (map fresh ps) text m).2 = None.
Proof.
  revert m. induction ps as [| p ps IH]; intros m; [done |]. cbn [existsb map rules_loop fresh ru_result ru_policy]. intros [Hp | Hps]%orb_true_iff.
  - destruct (rule_at m p) as [_ [_ H]]. specialize (H Hp). cbn. destruct (rule_loop _ _ _ _ _ _) as [res [|]]; [done |]. done.
  - cbn. destruct (rule_loop _ _ _ _ _ _) as [res [k|]]; [| done]. specialize (IH k Hps). by destruct (rules_loop _ _ _ _).
Qed.

Lemma rules_loop_passed ps m : existsb blocked ps = false ->
  exists k, rules_loop fold_eq (map fresh ps) text m = (map (fun p => mkRule p (judgement p)) ps, Some k) /\
    (rules_loop fold_eq (map fresh (List.filter (fun p => negb (po_Mode p =? "block")%string) ps)) text m).2 = Some k.
Proof.
  revert m. induction ps as [| p ps IH]; intros m; [by exists m |]. cbn [existsb]. intros [Hp Hps]%orb_false_iff.
  destruct (rule_at m p) as [Hv Hb]. cbn [map rules_loop fresh ru_result ru_policy List.filter]. cbn.
  destruct (rule_loop fold_eq (po_Mode p) (po_Terms p) text "allow" m) as [res [k|]] eqn:E; cbn in Hv, Hb; [| by rewrite (proj1 Hb eq_refl) in Hp].
  destruct (IH k Hps) as (k' & H1 & H2). rewrite H1. exists k'. split; [by rewrite Hv |].
  destruct (String.eqb_spec (po_Mode p) "block") as [Hm | Hm]; cbn [negb].
  - apply rule_loop_mode in E as [E _]. rewrite (E Hm) in H2. exact H2.
  - cbn [map rules_loop fresh ru_result ru_policy]. cbn. rewrite E. by destruct (rules_loop fold_eq (map fresh (List.filter _ ps)) text k).
Qed.

Lemma new_rules_fresh ps hold : (new_rules phase hold ps).1 = map fresh (List.filter (applies phase) ps).
Proof.
  revert hold. induction ps as [| p ps IH]; intros hold; cbn [new_rules List.filter]; [done |]. destruct (applies phase p); cbn [negb]; [| apply IH].
  specialize (IH (hold_of hold (po_Terms p))). destruct (new_rules phase _ ps) as [rules h]. cbn in IH |- *. by rewrite IH.
Qed.

(** What [Text] makes of the mask. *)
Definition finished_text (mask : list bool) : result guard_error (list rune) :=
  let cut := hold_redaction mask (length text) in
  match emit false (take cut text) (take cut mask) [] with
  | None => Err OutputTooLong
  | Some out => if 1024 <? byte_len (drop cut text) then Err LookbehindExceeded else Ok out
  end.

Lemma Text_spec ps :
  byte_len text <= MaxPayload ->
  let rules := map fresh (List.filter (applies phase) ps) in
  let '(f, out) := Text fold_eq (Some text) (New ps phase) in
  fi_rules f = (rules_loop fold_eq rules text blank).1 /\ fi_phase f = phase /\
  out = match (rules_loop fold_eq rules text blank).2 with None => Err ErrBlocked | Some m => finished_text m end.
Proof.
  intros Hl. unfold New. pose proof (new_rules_fresh ps 0) as Hr. destruct (new_rules phase 0 ps) as [rules hold]. cbn in Hr. subst rules. cbv zeta.
  unfold Text, Push, finished_text. cbn [fi_pending fi_rules Datatypes.app]. assert ((MaxPayload <? byte_len text) = false) as -> by lia.
  destruct (rules_loop _ _ _ _) as [rules [m|]]; cbn [fst snd]; [| done]. destruct (emit _ _ _ _); [| done]. cbn [fi_pending].
  by destruct (1024 <? _).
Qed.

(** One rule tried alone answers its judgement. *)
Lemma try_rule_spec p d :
  applies phase p = true -> try_rule fold_eq phase text p = Ok d ->
  byte_len text <= MaxPayload /\ (blocked p = true -> d = "block") /\ (blocked p = false -> d = judgement p).
Proof.
  intros Ha Ht. assert (byte_len text <= MaxPayload) as Hl.
  { unfold try_rule, Text, Push in Ht. destruct (Z.ltb_spec MaxPayload (byte_len text)); [done | lia]. }
  split; [done |]. pose proof (Text_spec [p] Hl) as Hspec. unfold try_rule in Ht. cbn [List.filter] in Hspec. rewrite Ha in Hspec. cbn [map] in Hspec.
  destruct (Text fold_eq (Some text) (New [p] phase)) as [f out]. destruct Hspec as (Hf & Hph & Hout). split; intros Hb.
  - assert ((rules_loop fold_eq [fresh p] text blank).2 = None) as En by (apply (rules_loop_blocked [p]); cbn; by rewrite Hb). rewrite En in Hout. subst out. by injection Ht as <-.
  - destruct (rules_loop_passed [p] blank) as (k & Hk & _); [cbn; by rewrite Hb |]. cbn [map] in Hk. rewrite Hk in Hf, Hout. cbn in Hf, Hout. subst out.
    unfold Results in Ht. rewrite Hf in Ht. cbn in Ht. unfold finished_text in Ht. destruct (emit _ _ _ _); [| done]. destruct (1024 <? _); [done |]. by injection Ht as <-.
Qed.

Lemma rank_block d : rank d <= 3 /\ (rank d = 3 <-> d = "block").
Proof.
  unfold rank. destruct (String.eqb_spec d "block") as [-> | Hb]; [split; [lia | done] |].
  destruct (d =? "redact")%string, (d =? "flag")%string; (split; [lia | split; [lia | done]]).
Qed.

Lemma try_rules_spec ps decision results passable d rs qs :
  try_rules fold_eq phase text ps decision results passable = Ok (d, rs, qs) ->
  qs = passable ++ List.filter (fun p => applies phase p && negb (po_Mode p =? "block")%string) ps /\
  (d = "block" <-> decision = "block" \/ existsb blocked (List.filter (applies phase) ps) = true) /\
  (List.filter (applies phase) ps <> [] -> byte_len text <= MaxPayload) /\
  (existsb blocked (List.filter (applies phase) ps) = false ->
     map tr_Decision (List.filter (fun x => (tr_Phase x =? phase)%string || (tr_Phase x =? "both")%string) rs) =
     map tr_Decision (List.filter (fun x => (tr_Phase x =? phase)%string || (tr_Phase x =? "both")%string) results) ++ map judgement (List.filter (applies phase) ps)).
Proof.
  revert decision results passable. induction ps as [| p ps IH]; intros decision results passable; cbn [try_rules List.filter].
  { intros [= <- <- <-]. rewrite !app_nil_r. split_and!; try done. split; [by left | by intros [? | ?]]. }
  destruct (if applies phase p then _ else _) as [x|] eqn:Ex; [| done]. cbn [mbind result_bind]. intros (Hq & Hd & Hl & Hr)%IH.
  rewrite List.filter_app, map_app in Hr. cbn [List.filter tr_Phase map tr_Decision] in Hr. fold (applies phase p) in Hr.
  destruct (rank_block x) as [Hx3 Hx], (rank_block decision) as [Hd3 Hdec]. destruct (applies phase p) eqn:Ha.
  - destruct (try_rule_spec p x Ha Ex) as (Hlen & Hb & Hnb). cbn [existsb andb map]. split_and!.
    + rewrite Hq. destruct (po_Mode p =? "block")%string; cbn [negb andb]; [done |]. by rewrite <- app_assoc.
    + rewrite Hd, orb_true_iff. destruct (blocked p) eqn:Ebp.
      * specialize (Hb eq_refl) as ->. destruct (Z.ltb_spec (rank decision) (rank "block")) as [? | Hle]; [split; auto |].
        assert (decision = "block") as -> by (apply Hdec; cbn in Hle; lia). split; auto.
      * specialize (Hnb eq_refl). assert (x <> "block") as Hne by (rewrite Hnb; by apply judgement_not_block).
        assert (false = true <-> False) as -> by done. destruct (Z.ltb_spec (rank decision) (rank x)) as [Hlt |]; [| clear; tauto].
        assert (decision <> "block") as Hnd by (intros ->; cbn in Hlt; lia). clear -Hne Hnd. tauto.
    + done.
    + intros [Hbp Hbs]%orb_false_iff. rewrite Hr by done. cbn [map]. rewrite (Hnb Hbp), <- app_assoc. done.
  - injection Ex as <-. cbn [andb]. rewrite (andb_false_l) in Hq. split_and!; try done.
    + rewrite Hd. destruct (Z.ltb_spec (rank decision) (rank "skipped")) as [Hlt |]; [| done]. exfalso. cbn in Hlt. unfold rank in Hlt. repeat case_match; lia.
    + intros Hbs. rewrite Hr by done. by rewrite app_nil_r.
Qed.
End Dry.

(** C18. A dry run of policies tells what the filter will do: it answers that a text is
    blocked exactly when the filter blocks it, and otherwise gives the very text that the
    filter passes on and, for every rule of the phase in order, the decision that the
    filter would record, although it tries the rules one by one and leaves the blocking
    ones out of the last pass. *)
Theorem dry_run_agrees_with_the_filter (fold_eq : rune -> rune -> bool) (phase : string) (text : list rune) (ps : list Policy) (r : guardrailTestResponse)
    (Hrun : try_policies fold_eq phase text ps = Ok r) :
  let '(f, out) := Text fold_eq (Some text) (New ps phase) in
  (tp_Decision r = "block" <-> out = Err ErrBlocked) /\
  (tp_Decision r <> "block" ->
     out = Ok (tp_Output r) /\
     map tr_Decision (List.filter (fun x => (tr_Phase x =? phase)%string || (tr_Phase x =? "both")%string) (tp_Results r)) = map snd (Results f)).
Proof.
  unfold try_policies in Hrun. apply bind_Ok_inv in Hrun as ([[d rs] qs] & Ht & Hrun). apply try_rules_spec in Ht as (-> & Hd & Hl & Hr). cbn [Datatypes.app] in *.
  assert (byte_len text <= MaxPayload) as Hlen.
  { destruct (List.filter (applies phase) ps) eqn:Ef; [| by apply Hl]. destruct (String.eqb_spec d "block") as [Hb | Hb]; [exfalso; apply Hd in Hb as [? | ?]; done |].
    apply bind_Ok_inv in Hrun as (out & Ho & _). unfold Text, Push in Ho. destruct (Z.ltb_spec MaxPayload (byte_len text)); [done | lia]. }
  pose proof (Text_spec fold_eq phase text ps Hlen) as Hlive. cbv zeta in Hlive. destruct (Text fold_eq (Some text) (New ps phase)) as [f out].
  destruct Hlive as (Hf & Hph & Hout). destruct (existsb (blocked fold_eq text) (List.filter (applies phase) ps)) eqn:Eb.
  - rewrite (rules_loop_blocked fold_eq text _ _ Eb) in Hout. assert (d = "block") as -> by (apply Hd; by right). cbn in Hrun. injection Hrun as <-. by cbn.
  - destruct (rules_loop_passed fold_eq text _ (replicate (length text) false) Eb) as (k & Hk & Hk'). rewrite Hk in Hf, Hout. cbn [fst snd] in Hf, Hout.
    assert (d <> "block") as Hdb by (intros ->; destruct (proj1 Hd eq_refl); done). apply String.eqb_neq in Hdb as Eq. rewrite Eq in Hrun.
    apply bind_Ok_inv in Hrun as (o & Ho & [= <-]).
    pose proof (Text_spec fold_eq phase text (List.filter (fun p => applies phase p && negb (po_Mode p =? "block")%string) ps) Hlen) as Hpass. cbv zeta in Hpass.
    destruct (Text fold_eq (Some text) (New (List.filter _ ps) phase)) as [f' out']. destruct Hpass as (_ & _ & Hout'). cbn [snd] in Ho. cbn [tp_Decision tp_Output tp_Results].
    assert (List.filter (applies phase) (List.filter (fun p => applies phase p && negb (po_Mode p =? "block")%string) ps) =
      List.filter (fun p => negb (po_Mode p =? "block")%string) (List.filter (applies phase) ps)) as Hfilter.
    { clear. induction ps as [| p ps IH]; [done |]. cbn [List.filter]. destruct (applies phase p) eqn:Ea; cbn [andb]; [| done]. cbn [List.filter].
      destruct (negb _); [| done]. cbn [List.filter]. by rewrite Ea, IH. }
    rewrite Hfilter, Hk' in Hout'. assert (out = Ok o) as -> by (rewrite Hout, <- Hout'; done). split; [split; done |]. intros _. split; [done |].
    rewrite Hr by done. unfold Results. rewrite Hf, !map_map. done.
Qed.

(** ** Saving policies *)

(** No field of a policy is given by two members. *)
Definition unambiguous (v : raw) : bool :=
  match v with
  | JArr l =>
      forallb (fun o => match o with
                        | JObj ms => forallb (fun n => (length (List.filter (fun kv => is_key n kv.1) ms) <=? 1)%nat) ["name"; "type"; "mode"; "phase"; "terms"]
                        | _ => true
                        end) l
  | _ => true
  end.

Section Saved.
Variable jsonb : raw -> raw.
Variable stored_size : raw -> Z.
Variable jsonb_equal : raw -> raw -> bool.
Variable size : raw -> Z.

#[local] Abbreviation set_scope := (SetGuardrailScope jsonb jsonb_equal size).
#[local] Abbreviation enforced := (GuardrailPolicies stored_size).

Lemma save_inv p commits scope id body t t' code :
  set_scope p commits scope id body t = (t', code) ->
  (code <> 200 -> t' = t) /\
  (code = 200 -> exists pr expected policies ps old,
     p = Some pr /\ IsAdmin p = true /\ body ≫= (fun v => into_struct set_scope_body v (None, None)) = Some (Some expected, Some policies) /\
     Decode (size policies) (Some policies) = Ok ps /\ (scope = "team" \/ scope = "alias") /\
     scope_column scope id t = Some old /\ jsonb_equal old expected = true /\
     t' = mkGuardTables (if (scope =? "alias")%string then gt_teams t else map (set_team_guards id (jsonb policies)) (gt_teams t))
            (if (scope =? "alias")%string then <[id := jsonb policies]> (gt_aliases t) else gt_aliases t) (gt_audit t ++ [mkGuardAudit (actor_of pr) scope id])).
Proof.
  unfold SetGuardrailScope. destruct p as [pr|]; [| by intros [= <- <-]]. destruct (negb (IsAdmin (Some pr))) eqn:Ea; [by intros [= <- <-] |].
  destruct (body ≫= _) as [[[expected|] policies]|]; [| by intros [= <- <-]..].
  destruct policies as [policies|]; [| by intros [= <- <-]]. destruct (Decode (size policies) (Some policies)) as [ps|e] eqn:Ed; [| by intros [= <- <-]].
  destruct (_ || _ || _) eqn:Eg; [by intros [= <- <-] |]. apply orb_false_iff in Eg as [[Eg _]%orb_false_iff _]. unfold ReplaceGuardrailScope. rewrite Eg, Ed.
  destruct (scope_column scope id t) as [old|] eqn:Eo; [| by intros [= <- <-]]. destruct (jsonb_equal old expected) eqn:Ej; cbn [negb]; [| by intros [= <- <-]].
  destruct commits; cbn [negb]; [| by intros [= <- <-]]. intros E.
  assert (scope = "team" \/ scope = "alias") as Hs.
  { apply andb_false_iff in Eg as [Eg | Eg]; apply negb_false_iff, String.eqb_eq in Eg; auto. }
  destruct (scope =? "alias")%string; injection E as <- <-; (split; [done |]); intros _; exists pr, expected, policies, ps, old; split_and!; try done;
    by apply negb_false_iff in Ea.
Qed.

Lemma find_set_team slug v rows P :
  (forall r, P (set_team_guards slug v r) = P r) -> List.find P (map (set_team_guards slug v) rows) = set_team_guards slug v <$> List.find P rows.
Proof. intros HP. induction rows as [| r rows IH]; [done |]. cbn [map List.find]. rewrite HP. by destruct (P r). Qed.

(** The column of a scope after a save. *)
Lemma scope_column_saved scope id v t scope' id' audit :
  scope = "team" \/ scope = "alias" -> is_Some (scope_column scope id t) ->
  scope_column scope' id' (mkGuardTables (if (scope =? "alias")%string then gt_teams t else map (set_team_guards id v) (gt_teams t))
    (if (scope =? "alias")%string then <[id := v]> (gt_aliases t) else gt_aliases t) audit) =
  if (scope' =? scope)%string && (id' =? id)%string then Some v else scope_column scope' id' t.
Proof.
  intros Hs Hold. unfold scope_column in Hold |- *. cbn [gt_teams gt_aliases]. destruct Hs as [-> | ->]; cbn in *.
  - destruct (String.eqb_spec scope' "team") as [-> | Hn]; cbn; [| done].
    rewrite find_set_team by (intros r; unfold open_team, set_team_guards; by destruct (tg_Slug r =? id)%string).
    destruct (String.eqb_spec id' id) as [-> | Hi].
    + destruct Hold as [x Hx]. destruct (List.find (open_team id) (gt_teams t)) as [r|] eqn:Ef; [| done]. apply List.find_some in Ef as [_ Ef]. cbn.
      unfold open_team in Ef. unfold set_team_guards. apply andb_true_iff in Ef as [-> _]. done.
    + destruct (List.find (open_team id') (gt_teams t)) as [r|] eqn:Ef; [| done]. apply List.find_some in Ef as [_ Ef]. cbn. f_equal.
      unfold open_team in Ef. unfold set_team_guards. apply andb_true_iff in Ef as [Ef%String.eqb_eq _]. rewrite Ef.
      by destruct (String.eqb_spec id' id).
  - destruct (String.eqb_spec scope' "team") as [-> | Hn]; [done |]. destruct (String.eqb_spec scope' "alias") as [-> | Hn']; [| done]. cbn.
    destruct (String.eqb_spec id' id) as [-> | Hi]; [by rewrite lookup_insert_eq | by rewrite lookup_insert_ne].
Qed.

(** A column keeps the members of a value, not their order nor duplicates: what decodes
    without ambiguity decodes alike when it is read back. *)
Hypothesis Hjsonb : forall n v ps, unambiguous v = true -> stored_size (jsonb v) <= 65536 ->
  Decode n (Some v) = Ok ps -> Decode (stored_size (jsonb v)) (Some (jsonb v)) = Ok ps.

Lemma decode_saved n v ps :
  unambiguous v = true -> stored_size (jsonb v) <= 65536 -> Decode n (Some v) = Ok ps -> decode_column stored_size (jsonb v) = Ok ps.
Proof.
  intros Hu Hsz Hd. unfold decode_column, bounded. assert ((stored_size (jsonb v) <=? 65536) = true) as -> by lia. by rewrite (Hjsonb n v ps).
Qed.

(** Only an administrator's valid request that was made against the current policies
    changes anything; it replaces the policies of exactly its scope, with one audit
    record, and from then on every request of the team, or for the alias, is held to
    exactly these policies or refused. *)
Theorem saved_policies_are_enforced (p : option Principal) (commits : bool) (scope id : string) (body : option raw) (t t' : guard_tables) (code : Z)
    (Hsave : set_scope p commits scope id body t = (t', code)) :
  (code <> 200 -> t' = t) /\
  (code = 200 -> exists pr expected policies ps old,
     p = Some pr /\ IsAdmin p = true /\ Decode (size policies) (Some policies) = Ok ps /\
     scope_column scope id t = Some old /\ jsonb_equal old expected = true /\
     gt_audit t' = gt_audit t ++ [mkGuardAudit (actor_of pr) scope id] /\
     (forall scope' id', scope_column scope' id' t' = if (scope' =? scope)%string && (id' =? id)%string then Some (jsonb policies) else scope_column scope' id' t) /\
     (unambiguous policies = true -> stored_size (jsonb policies) <= 65536 ->
      forall teamID alias all, enforced teamID alias t' = Ok all ->
        (scope = "team" -> (exists r, List.find (fun r => tg_ID r =? teamID) (gt_teams t') = Some r /\ tg_Slug r = id) ->
           exists rest, all = map (prefixed "team/") ps ++ rest) /\
        (scope = "alias" -> alias = id -> exists front, all = front ++ map (prefixed "alias/") ps))).
Proof.
  apply save_inv in Hsave as [Hsame Hsave]. split; [done |]. intros Hc. destruct (Hsave Hc) as (pr & expected & policies & ps & old & Hp & Ha & _ & Hd & Hs & Ho & Hj & Ht).
  exists pr, expected, policies, ps, old. split_and!; try done; [by rewrite Ht | by intros scope' id'; rewrite Ht; apply scope_column_saved | ].
  intros Hu Hsz teamID alias all Hall. unfold GuardrailPolicies in Hall. destruct (List.find _ (gt_teams t')) as [r|] eqn:Ef; [| done].
  apply bind_Ok_inv in Hall as (team & Eteam & Hall). apply bind_Ok_inv in Hall as (model & Emodel & Hall). apply bind_Ok_inv in Hall as (_ & _ & [= <-]). split.
  - intros -> (r' & [= <-] & Hslug). rewrite Ht in Ef. cbn in Ef. rewrite find_set_team in Ef by (intros x; unfold set_team_guards; by destruct (tg_Slug x =? id)%string).
    destruct (List.find _ (gt_teams t)) as [r0|]; [| done]. cbn in Ef. injection Ef as <-. unfold set_team_guards in Eteam, Hslug.
    destruct (String.eqb_spec (tg_Slug r0) id) as [_ | Hn]; [| by cbn in Hslug]. cbn in Eteam. rewrite (decode_saved (size policies) policies ps) in Eteam by done.
    injection Eteam as <-. by eexists.
  - intros -> ->. rewrite Ht in Emodel. cbn in Emodel. rewrite lookup_insert_eq in Emodel. cbn in Emodel.
    rewrite (decode_saved (size policies) policies ps) in Emodel by done. injection Emodel as <-. by eexists.
Qed.
End Saved.

(** ** Evaluation *)

Definition policy_json (name mode : string) (more : list (Json.text * raw)) : raw :=
  JObj ([(txt "name", JStr (txt name)); (txt "type", JStr (txt "banned_terms")); (txt "mode", JStr (txt mode)); (txt "phase", JStr (txt "both"));
         (txt "terms", JArr [JStr (txt "secret")])] ++ more).
Definition save_body (policies : raw) : option raw := Some (JObj [(txt "expected", JArr []); (txt "policies", policies)]).
Definition example_admin : option Principal := Some (mkPrincipal true None).
Definition example_guards : guard_tables := mkGuardTables [mkTeamGuards 7 "core" false (JArr [])] {["gpt" := JArr []]} [].
Definition example_equal (a b : raw) : bool := match a, b with JArr [], JArr [] => true | _, _ => false end.
Definition small_text (_ : raw) : Z := 100.
Definition example_text : list rune := txt "the key".
Definition ascii_eq (a b : rune) : bool := a =? b.

(** A column that keeps the members of the policies in the order of their names. *)
Definition ordered (v : raw) : raw :=
  match v with JArr l => JArr (map (fun o => match o with JObj ms => JObj (members (to_map ms)) | _ => o end) l) | _ => v end.

(** Member names are matched without regard to case and the last counts, and a column
    has an order of its own: a policy with two members for its mode is accepted as the
    one and read back as the other, so that every request of the team is refused. *)
Lemma ambiguous_policy_closes_the_team :
  let twice := JArr [policy_json "p" "nonsense" [(txt "Mode", JStr (txt "flag"))]] in
  let '(t, code) := SetGuardrailScope ordered example_equal small_text example_admin true "team" "core" (save_body twice) example_guards in
  code = 200 /\ GuardrailPolicies small_text 7 "gpt" t = Err (PolicyDecode (Invalid BadMode)).
Proof. vm_compute. split; reflexivity. Qed.

Lemma saved_policies_are_enforced_witness :
  let v := JArr [policy_json "p" "redact" []] in
  let '(t, code) := SetGuardrailScope (fun v => v) example_equal small_text example_admin true "team" "core" (save_body v) example_guards in
  code = 200 /\ is_ok (GuardrailPolicies small_text 7 "gpt" t) = true /\ gt_audit t = [mkGuardAudit "master_key" "team" "core"].
Proof.
  intros v.
  destruct (SetGuardrailScope (fun v => v) example_equal small_text example_admin true "team" "core" (save_body v) example_guards) as [t code] eqn:E.
  assert (forall n w ps, unambiguous w = true -> small_text w <= 65536 -> Decode n (Some w) = Ok ps -> Decode (small_text w) (Some w) = Ok ps) as Hkeeps.
  { intros n w ps _ _. unfold Decode. destruct w as [| | | | l |]; try done. destruct (65536 <? n); [done |]. exact (fun H => H). }
  pose proof (saved_policies_are_enforced (fun v => v) small_text example_equal small_text Hkeeps example_admin true "team" "core" (save_body v) example_guards t code E) as [_ H].
  assert (code = 200) as Hc by (vm_compute in E; injection E as <- <-; reflexivity).
  destruct (H Hc) as (pr & _ & _ & _ & _ & Hp & _ & _ & _ & _ & Ha & _). split; [exact Hc |]. split; [vm_compute in E; injection E as <- <-; reflexivity |].
  rewrite Ha. injection Hp as <-. reflexivity.
Defined.

Lemma dry_run_agrees_with_the_filter_witness :
  let ps := [mkPolicy "r" "banned_terms" "redact" "both" [txt "key"]; mkPolicy "b" "banned_terms" "block" "pre" [txt "never"]] in
  exists r, try_policies ascii_eq "pre" example_text ps = Ok r /\ tp_Decision r = "redact" /\
    (Text ascii_eq (Some example_text) (New ps "pre")).2 = Ok (txt "the [REDACTED]").
Proof.
  intros ps. destruct (try_policies ascii_eq "pre" example_text ps) as [r|e] eqn:E; [| vm_compute in E; discriminate E].
  pose proof (dry_run_agrees_with_the_filter ascii_eq "pre" example_text ps r E) as H. exists r. split; [reflexivity |].
  assert (tp_Decision r = "redact" /\ tp_Output r = txt "the [REDACTED]") as [Hd Ho] by (vm_compute in E; injection E as <-; split; reflexivity).
  split; [exact Hd |]. clear E. clearbody ps. revert H. destruct (Text ascii_eq (Some example_text) (New ps "pre")) as [f out]. intros [_ H].
  destruct H as [H _]; [rewrite Hd; discriminate |]. cbn [snd]. rewrite H, Ho. reflexivity.
Defined.
